(* ===== verification/_CoqProject ===== *)
-Q . S2P
Prelude.v
Text.v
Json.v
Instances.v
Manifest.v
Host.v
Ownership.v
Control.v
Mailbox.v
Protocol.v
Lease.v
ChildControl.v
Owner.v
Registry.v
Journal.v
Permit.v
Ratchet.v
Closure.v
Workspace.v
Broker.v
Store.v
Assay.v
ToolSchema.v
ModelParams.v
Spec.v
SpecLaws.v
Encoding.v
Configuration.v
Egress.v
EgressPost.v
EgressLaws.v
ScopedPolicy.v
ScopedPolicyLaws.v
Harness.v
HarnessLaws.v
ParentContext.v
ParentContextLaws.v
Session.v
SessionLaws.v
TurnWorker.v
Http.v
Contract.v
Router.v
RouterLaws.v
Timestamp.v
Outcome.v
Node.v
ExecJournal.v
Executions.v
ExecutionsLaws.v
NodeCapacity.v
Credentials.v
Admission.v
AdmissionLaws.v
Scoped.v
ScopedLaws.v
ScopedOps.v
ScopedRuns.v
ScopedRunsLaws.v
ModelRelay.v
ModelRelayLaws.v
CoreExamples.v
ClosureExamples.v
JournalExamples.v
PermitExamples.v
EgressExamples.v
SpecExamples.v
AssayExamples.v
TenancyExamples.v
HarnessExamples.v
ParentExamples.v
WorkerExamples.v
ScopedExamples.v
RelayExamples.v
RouterExamples.v
DispatchExamples.v
