(* ===== verification/Prelude.v ===== *)
(** * Celln: a verification development

    Celln runs agent workloads in sealed virtual machines. A host process (the warden)
    admits code by content, lends narrow capabilities to a guest for one exchange at a
    time, and keeps durable records so that work is never repeated; a dispatcher and a
    router put it behind HTTP for tenants. This library models the parts of that program
    that decide something, as executable definitions named after the source, and proves
    what makes them correct. Each file opens with the source file it models.

    ** Foundations

    - [Prelude] (this file): results, machine integers, clocks, bytes and UTF-8, the
      interfaces [Blake3] and [Json], ordered maps, totals over maps, automation.
    - [Text]: the methods of [str] that the sources use. [Json]: values of [serde_json],
      the tokenizer's calls and the interface [JsonText]. [Encoding]: canonical
      encodings, injective in any order of keys, and the interface [JsonWriter].
    - [Instances]: concrete functions for the interfaces, on which witnesses evaluate.

    ** Code admitted by content

    - [Manifest] (celln-manifest/src/lib.rs): entries, revocation, the exec gate.
    - [Closure] (closure.rs, composition.rs): signed closures and their composition, a
      mutual recursion modelled with fuel; the depth of a document bounds it.
    - [ToolSchema] (tool_schema.rs): the bounded reader and the matching of arguments.
    - [Store] (celln-store/src/lib.rs): the content-addressed directory; [put] is a
      machine of system calls, so that processes interleave.
    - [Assay] (celln-assay): admissions over the store and the manifest.
    - [Spec], [SpecLaws] (celln-spec/src/lib.rs, harness.rs): the checks of requests and
      specifications and the specifications they decide. [Configuration]: fingerprints.

    ** The parent runtime (celln-warden)

    - [Control] (celln-control/src/lib.rs): deadlines and cancellation in a shared heap.
    - [Protocol], [Mailbox], [Lease], [ChildControl]: the turn envelope, the port-mapped
      transport and its abstract four phases, the turn ledger, the child slot.
    - [Owner] (parent_owner.rs): the owner thread, its channel and its clients as an
      interleaving step relation. [Registry] (parent_registry.rs): owners by incarnation,
      one step for each critical section; it uses an owner through the class [OwnerApi].
    - [Journal], [Permit] (parent_journal.rs, parent_permit.rs): durable records on a
      file system whose every call may fail, as a stream of faults decides.
    - [Ratchet] (ratchet.rs, lib.rs, vmm.rs): the phases of a cell over the class [Vmm].

    ** What a guest may reach

    - [Workspace] (workspace.rs) and [Broker] (workspace_broker.rs): the run's artifacts
      and the revocable grants to them, in heaps with aliasing and poisoning.
    - [Harness], [HarnessLaws] (celln-pilot/src/json_harness.rs): the loop of a guest's
      model over its answers and its tools. [ParentContext], [ParentContextLaws]
      (parent_harness.rs): the memory of a parent and the packing of its tasks.
    - [Session], [SessionLaws] (parent_session.rs), [TurnWorker] (turn_worker.rs): a turn
      across the parent, the lease, the journal, the child's control and the worker.
    - [Egress], [EgressPost] (egress.rs, egress_post.rs), [ModelParams]
      (model_parameters.rs), [EgressLaws]: destinations, pinned addresses, redirects,
      budgets and the translation of model requests. The network answers as it likes.

    ** Tenancy and dispatch (celln-cli)

    - [Contract] (tenancy_contract.rs): the strict reader and canonical digests.
    - [Credentials] (tenancy_credentials.rs): verification of scoped tokens.
    - [Admission], [AdmissionLaws] (tenancy_admission.rs): the journal that lets an
      execution start once, over a directory whose every call may fail.
    - [ScopedPolicy], [ScopedPolicyLaws] (dispatch_scoped_artifacts.rs,
      dispatch_scoped_https.rs): the authority of a tool, from signed and declared limits.
    - [Scoped], [ScopedLaws] (dispatch_scoped.rs): what is checked before an operation is
      enrolled or read, what it may ask of a model, and how its answer is read.
    - [ScopedOps] (dispatch_scoped.rs): the handlers of scoped operations and the workers
      that end them, as programs of atomic actions. [ScopedRuns]: the actions on the files
      and the journal of a receiver, whose handlers interleave and which restarts.
      [ScopedRunsLaws]: a program logic of facts and rights for them.
    - [ModelRelay], [ModelRelayLaws] (tenancy_model_context.rs, tenancy_model_relay.rs):
      the custody of a model credential, and what the gateway's relay sends and lets back.
    - [Host]: what the durable parts of the router and the dispatcher share: files, a wall
      clock that may be set back, calls that fail, connections that may be lost.
    - [Http] (heads of dispatch_http.rs and router.rs): bounded heads and answers.
    - [Ownership] (router_ownership.rs): the ledger that binds an identity to one backend.
    - [Router], [RouterLaws] (router.rs, router_parents.rs, router_scoped.rs): placement,
      forwarding, retries and scoped operations; replicas share the ledgers as a system of
      arrivals and deliveries in any order.
    - [Timestamp], [Outcome] (dispatch.rs, dispatch_outcome.rs): times in RFC 3339, and
      the verdict on what a guest reported.
    - [Node] (node.rs, dispatch_inputs.rs): what a node can take. [ExecJournal]
      (dispatch_journal.rs): one durable record for each execution identity.
    - [Executions] (dispatch_http.rs, dispatch_audit.rs, dispatch_prewarm.rs, and the
      admissions of dispatch_parents.rs and dispatch_scoped.rs): the registry behind its
      lock, each section of it a function on its state. [ExecutionsLaws] makes a system
      of it with workers, panics and restarts; [NodeCapacity] counts what it reserves.
    - The files named [...Examples] hold concrete runs and the witnesses of the theorems.

    ** What is proved

    - Nothing happens twice: [admission_exclusive], [journal_no_replay], [post_once],
      [executed_once], [owner_exchanges], [terminal_answers], [session_bounded],
      [scoped_evidence] (a claim launches once). These hold in any history of
      operations, with failures anywhere; a caller without a handle has executed nothing.
    - One place for one identity: [scoped_one_node], [owner_exclusive].
    - Authority only shrinks: [permit_grants], [verify_exact], [claim_authorised],
      [forward_authorised], [cleanup_fences], [exec_gate_history], [broker_revoked],
      [verify_sound], [scoped_authority], [prepared_authority], [relay_custody] (a model
      credential is sent only in its header, and never after its deadline, a cancellation of
      its control or of one above it, or its close).
    - What is said is so: [scoped_evidence] (a confirmed cleanup rests on evidence for
      that very operation), [session_committed] (an answer of a turn is the
      parent's own, to an input it refuses or to its worker's durable result, or the host's
      refusal of a message that is too long),
      [completion_exact] (the one completion of a transcript), [report_success].
    - Bounds: [lease_budget], [registry_capacity], [node_never_overcommitted],
      [egress_budgets], [mediated_turn], [fetch_bounded], [head_exact], [harness_bounded],
      [worker_within_reservation], [affordable_pays] (what is enrolled can be paid for);
      integers keep their width where the code checks or wraps.
    - Refinement and equivalence: [mailbox_refines], [workspace_refines],
      [context_refines], [pack_exact], [closure_validates], [schema_validates],
      [request_admitted], [canonical_exact],
      [report_success], [timestamp_exact]: an operation decides exactly a declarative
      specification.
    - Confinement: [egress_confined], [broker_confined], [store_atomic],
      [binding_exact], [assay_vouched].
    - Defects shown by a theorem: [store_half_written] (two writers of the same bytes
      share a temporary file), [refused_with_parent] (a refusal confirms the cleanup of a
      parent that runs), [confirmation_lost] (a cleanup overwrites the result that a worker
      stores meanwhile), [pin_panics]. Lemmas show two more: [resolve_relabels] (resolving the
      same bytes under another alias replaces their entry), and the condition that
      [history] puts on scoped admissions, which the code does not check.

    Theorems about digests name the inputs that would have to collide; none assumes that
    a digest is injective. Definitions on fuel say next to them why it is enough.

    ** Not modelled

    The hypervisor and its devices, guest programs, process spawning and signals, the
    writing of sockets, packaging and the command line are system calls around the parts
    above. Of scoped operations, the native request that is assembled from a record
    (build_native), the checks of its tools and artifacts, the capacity of the node and the
    registry of parents are questions that the environment answers as it likes; the wire
    format and the operator's configuration are left out. Crates are interfaces:
    BLAKE3, SHA-256, Ed25519, base64, [serde_json] with its
    derived decoders, JSON Schema, TOML, DNS and curl. The power loss of a machine is not
    modelled: a record that a call has published stays. *)

From Stdlib Require Export ZArith Lia Bool.
From Stdlib Require Export Strings.String Strings.Ascii Strings.Byte.
From stdpp Require Export base option list strings gmap sets sorting.

Open Scope Z_scope.

(** ** Results *)

(** Rust's [Result<A, E>], error type first so that [result E] is a monad. *)
Inductive result (E A : Type) : Type :=
| Ok (a : A)
| Err (e : E).
Arguments Ok {E A} a.
Arguments Err {E A} e.

#[export] Instance result_ret (E : Type) : MRet (result E) := fun A a => Ok a.
#[export] Instance result_bind (E : Type) : MBind (result E) :=
  fun A B f r => match r with Ok a => f a | Err e => Err e end.
#[export] Instance result_fmap (E : Type) : FMap (result E) :=
  fun A B f r => match r with Ok a => Ok (f a) | Err e => Err e end.

#[export] Instance result_eq_dec {E A : Type} `{EqDecision E, EqDecision A} :
  EqDecision (result E A).
Proof. solve_decision. Defined.

(** [if !cond { return Err(e) }]. *)
Definition ensure {E : Type} (cond : bool) (e : E) : result E unit :=
  if cond then Ok tt else Err e.

(** [opt.is_some()]. *)
Definition is_Some_bool {A : Type} (o : option A) : bool :=
  match o with Some _ => true | None => false end.

(** [opt.ok_or(e)]. *)
Definition ok_or {E A : Type} (o : option A) (e : E) : result E A :=
  match o with Some a => Ok a | None => Err e end.

(** [res.map_err(f)]. *)
Definition map_err {E F A : Type} (f : E -> F) (r : result E A) : result F A :=
  match r with Ok a => Ok a | Err e => Err (f e) end.

Definition is_ok {E A : Type} (r : result E A) : bool :=
  match r with Ok _ => true | Err _ => false end.
Definition is_err {E A : Type} (r : result E A) : bool := negb (is_ok r).

(** [res.ok()]. *)
Definition to_option {E A : Type} (r : result E A) : option A :=
  match r with Ok a => Some a | Err _ => None end.

Section result_lemmas.
Context {E A B : Type}.
Implicit Types (r : result E A) (f : A -> result E B).

Lemma result_bind_Ok f r b :
  r ≫= f = Ok b <-> exists a, r = Ok a /\ f a = Ok b.
Proof. destruct r; cbn; naive_solver. Qed.

Lemma ensure_Ok (c : bool) (e : E) u : ensure c e = Ok u <-> c = true.
Proof. destruct c, u; cbn; naive_solver. Qed.

Lemma ensure_Err (c : bool) (e e' : E) :
  ensure c e = Err e' <-> c = false /\ e' = e.
Proof. destruct c; cbn; naive_solver. Qed.

Lemma ok_or_Ok (o : option A) (e : E) a : ok_or o e = Ok a <-> o = Some a.
Proof. destruct o; cbn; naive_solver. Qed.

Lemma map_err_Ok {F} (g : E -> F) r a : map_err g r = Ok a <-> r = Ok a.
Proof. destruct r; cbn; naive_solver. Qed.

Lemma is_ok_Ok r : is_ok r = true <-> exists a, r = Ok a.
Proof. destruct r; cbn; naive_solver. Qed.
End result_lemmas.

(** ** Machine integers and durations *)

Definition u64_max : Z := 2 ^ 64 - 1.
Definition u32_max : Z := 2 ^ 32 - 1.

Definition in_u64 (x : Z) : Prop := 0 <= x <= u64_max.
Definition in_u32 (x : Z) : Prop := 0 <= x <= u32_max.

(** [u64::checked_add], [u32::checked_add] and [u64::checked_sub]. *)
Definition checked_add_u64 (a b : Z) : option Z :=
  if a + b <=? u64_max then Some (a + b) else None.
Definition checked_add_u32 (a b : Z) : option Z :=
  if a + b <=? u32_max then Some (a + b) else None.
Definition checked_sub_u64 (a b : Z) : option Z :=
  if b <=? a then Some (a - b) else None.

(** [a -= b] on unsigned integers, with the wrap-around of a release build. *)
Definition wrapping_sub_u64 (a b : Z) : Z := (a - b) mod 2 ^ 64.
Definition wrapping_sub_u32 (a b : Z) : Z := (a - b) mod 2 ^ 32.

Lemma wrapping_sub_u64_exact a b :
  in_u64 a -> 0 <= b <= a -> wrapping_sub_u64 a b = a - b.
Proof.
  unfold in_u64, u64_max, wrapping_sub_u64. intros. apply Z.mod_small. lia.
Qed.

Lemma wrapping_sub_u32_exact a b :
  in_u32 a -> 0 <= b <= a -> wrapping_sub_u32 a b = a - b.
Proof.
  unfold in_u32, u32_max, wrapping_sub_u32. intros. apply Z.mod_small. lia.
Qed.

Lemma checked_add_u64_Some a b c :
  checked_add_u64 a b = Some c <-> c = a + b /\ a + b <= u64_max.
Proof. unfold checked_add_u64. destruct (Z.leb_spec (a + b) u64_max); naive_solver lia. Qed.

Lemma checked_add_u32_Some a b c :
  checked_add_u32 a b = Some c <-> c = a + b /\ a + b <= u32_max.
Proof. unfold checked_add_u32. destruct (Z.leb_spec (a + b) u32_max); naive_solver lia. Qed.

Lemma checked_sub_u64_Some a b c :
  checked_sub_u64 a b = Some c <-> c = a - b /\ b <= a.
Proof. unfold checked_sub_u64. destruct (Z.leb_spec b a); naive_solver lia. Qed.

(** A [Duration] is its number of nanoseconds; an [Instant] is nanoseconds on
    the monotonic clock, whose Linux representation has an [i64] of seconds. *)
Definition nanos_per_milli : Z := 1000000.
Definition nanos_per_sec : Z := 1000000000.
Definition instant_limit : Z := 2 ^ 63 * nanos_per_sec.

(** [Instant::checked_add]. *)
Definition instant_checked_add (t d : Z) : option Z :=
  if t + d <? instant_limit then Some (t + d) else None.

(** [Instant::saturating_duration_since] and [Instant::duration_since], which
    saturates as well since Rust 1.60. *)
Definition duration_since (a b : Z) : Z := Z.max 0 (a - b).

Lemma instant_checked_add_Some t d r :
  instant_checked_add t d = Some r <-> r = t + d /\ t + d < instant_limit.
Proof. unfold instant_checked_add. destruct (Z.ltb_spec (t + d) instant_limit); naive_solver lia. Qed.

(** ** Bytes and UTF-8 text *)

(** [&[u8]]; a [&str] is a [string] whose characters are its UTF-8 bytes, so
    that [str::len] is [str_len]. *)
Abbreviation bytes := (list byte).

#[export] Instance byte_eq_decision : EqDecision byte := Byte.byte_eq_dec.

Definition blen (b : bytes) : Z := Z.of_nat (length b).
Definition str_len (s : string) : Z := Z.of_nat (String.length s).
Definition as_bytes (s : string) : bytes := String.list_byte_of_string s.
Definition from_utf8 (b : bytes) : string := String.string_of_list_byte b.
Definition byte_val (b : byte) : Z := Z.of_N (Byte.to_N b).

(** The byte range tests of [u8]: [is_ascii_digit], [is_ascii_lowercase], ... *)
Definition in_range (lo hi : Z) (b : byte) : bool :=
  (lo <=? byte_val b) && (byte_val b <=? hi).
Definition is_digit : byte -> bool := in_range 48 57.
Definition is_lower : byte -> bool := in_range 97 122.
Definition is_upper : byte -> bool := in_range 65 90.
Definition is_alnum (b : byte) : bool := is_digit b || is_lower b || is_upper b.
Definition is_lower_hex (b : byte) : bool := is_digit b || in_range 97 102 b.
Definition is_ascii_hexdigit (b : byte) : bool := is_lower_hex b || in_range 65 70 b.

Definition all_bytes (p : byte -> bool) (s : string) : bool := forallb p (as_bytes s).

(** [str::is_empty]. *)
Definition str_is_empty (s : string) : bool := String.eqb s "".

(** [s.contains(c)] for an ASCII [c]. *)
Definition str_contains (c : byte) (s : string) : bool :=
  existsb (fun b => bool_decide (b = c)) (as_bytes s).

(** [s.strip_prefix(p)]. *)
Fixpoint strip_prefix (p s : string) : option string :=
  match p, s with
  | EmptyString, _ => Some s
  | String a p', String b s' => if Ascii.eqb a b then strip_prefix p' s' else None
  | String _ _, EmptyString => None
  end.

(** [s.starts_with(p)]. *)
Definition starts_with (p s : string) : bool :=
  match strip_prefix p s with Some _ => true | None => false end.

(** [s.chars().any(char::is_control)]: the category Cc is U+0000..U+001F,
    U+007F and U+0080..U+009F, the last range being C2 80 .. C2 9F in UTF-8. *)
Fixpoint has_control (b : bytes) : bool :=
  match b with
  | [] => false
  | x :: rest =>
      in_range 0 31 x || bool_decide (x = x7f)
      || (bool_decide (x = xc2) && match rest with y :: _ => in_range 128 159 y | [] => false end)
      || has_control rest
  end.

(** [s.trim().is_empty()]: every character is Unicode White_Space. *)
Fixpoint all_whitespace (b : bytes) : bool :=
  match b with
  | [] => true
  | x20 :: r => all_whitespace r
  | xc2 :: x85 :: r | xc2 :: xa0 :: r => all_whitespace r
  | xe1 :: x9a :: x80 :: r => all_whitespace r
  | xe2 :: x80 :: y :: r =>
      (in_range 128 138 y || bool_decide (y = xa8) || bool_decide (y = xa9)
       || bool_decide (y = xaf)) && all_whitespace r
  | xe2 :: x81 :: x9f :: r => all_whitespace r
  | xe3 :: x80 :: x80 :: r => all_whitespace r
  | x :: r => in_range 9 13 x && all_whitespace r
  end.

(** What follows one leading White_Space character. *)
Definition ws_rest (b : bytes) : option bytes :=
  match b with
  | x20 :: r => Some r
  | xc2 :: x85 :: r | xc2 :: xa0 :: r => Some r
  | xe1 :: x9a :: x80 :: r => Some r
  | xe2 :: x80 :: y :: r =>
      if in_range 128 138 y || bool_decide (y = xa8) || bool_decide (y = xa9) || bool_decide (y = xaf)
      then Some r else None
  | xe2 :: x81 :: x9f :: r => Some r
  | xe3 :: x80 :: x80 :: r => Some r
  | x :: r => if in_range 9 13 x then Some r else None
  | [] => None
  end.

(** [s.split_whitespace()]; every step consumes a byte, so [length b] steps and
    the final one are enough. *)
Fixpoint words_fuel (fuel : nat) (word b : bytes) : list bytes :=
  let flush := match word with [] => [] | _ => [rev word] end in
  match fuel with
  | O => flush
  | S n =>
      match ws_rest b with
      | Some r => flush ++ words_fuel n [] r
      | None => match b with [] => flush | x :: r => words_fuel n (x :: word) r end
      end
  end.
Definition split_whitespace (b : bytes) : list bytes := words_fuel (S (length b)) [] b.

(** The second half of [s.rsplit_once(c)]. *)
Fixpoint after_last (c : byte) (b : bytes) : option bytes :=
  match b with
  | [] => None
  | x :: r =>
      match after_last c r with
      | Some t => Some t
      | None => if bool_decide (x = c) then Some r else None
      end
  end.

(** [s.parse::<u64>()]: an optional plus sign and at least one digit. *)
Fixpoint parse_digits (acc : Z) (b : bytes) : option Z :=
  match b with
  | [] => Some acc
  | x :: r =>
      if is_digit x then
        let acc := acc * 10 + (byte_val x - 48) in
        if acc <=? u64_max then parse_digits acc r else None
      else None
  end.
Definition parse_u64 (b : bytes) : option Z :=
  match b with
  | [] | [x2b] => None
  | x2b :: r => parse_digits 0 r
  | _ => parse_digits 0 b
  end.

(** [str::from_utf8(b).is_ok()]. *)
Definition cont : byte -> bool := in_range 128 191.
Fixpoint utf8_valid (b : bytes) : bool :=
  match b with
  | [] => true
  | x :: r =>
      if in_range 0 127 x then utf8_valid r
      else match r with
      | y :: r1 =>
          if in_range 194 223 x then cont y && utf8_valid r1
          else match r1 with
          | z :: r2 =>
              if bool_decide (x = xe0) then in_range 160 191 y && cont z && utf8_valid r2
              else if bool_decide (x = xed) then in_range 128 159 y && cont z && utf8_valid r2
              else if in_range 225 239 x then cont y && cont z && utf8_valid r2
              else match r2 with
              | w :: r3 =>
                  (if bool_decide (x = xf0) then in_range 144 191 y
                   else if bool_decide (x = xf4) then in_range 128 143 y
                   else in_range 241 243 x && cont y)
                  && cont z && cont w && utf8_valid r3
              | [] => false
              end
          | [] => false
          end
      | [] => false
      end
  end.

(** [String::from_utf8_lossy(b)]: the length of the character a string starts with,
    or of the longest ill-formed prefix that is replaced by U+FFFD. *)
Definition second_ok (x y : byte) : bool :=
  if bool_decide (x = xe0) then in_range 160 191 y
  else if bool_decide (x = xed) then in_range 128 159 y
  else if bool_decide (x = xf0) then in_range 144 191 y
  else if bool_decide (x = xf4) then in_range 128 143 y
  else cont y.
Definition cont_at (b : bytes) (i : nat) : bool := match b !! i with Some y => cont y | None => false end.
Definition char_at (b : bytes) : bool * nat :=
  match b with
  | [] => (true, 1%nat)
  | x :: r =>
      if in_range 0 127 x then (true, 1%nat) else
      if negb (in_range 194 244 x && match r with y :: _ => second_ok x y | [] => false end) then (false, 1%nat) else
      if in_range 194 223 x then (true, 2%nat) else
      if negb (cont_at b 2) then (false, 2%nat) else
      if in_range 224 239 x then (true, 3%nat) else
      if cont_at b 3 then (true, 4%nat) else (false, 3%nat)
  end.
Fixpoint lossy_fuel (fuel : nat) (b : bytes) : bytes :=
  match fuel, b with
  | S fuel, _ :: _ =>
      let '(ok, n) := char_at b in
      (if ok then take n b else [xef; xbf; xbd]) ++ lossy_fuel fuel (drop n b)
  | _, _ => []
  end.
Definition from_utf8_lossy (b : bytes) : bytes := lossy_fuel (length b) b.

(** [s.trim_start_matches(p)] for a nonempty [p]: each round removes a byte. *)
Fixpoint trim_start_fuel (fuel : nat) (p s : string) : string :=
  match fuel with
  | O => s
  | S n => match strip_prefix p s with Some r => trim_start_fuel n p r | None => s end
  end.
Definition trim_start_matches (p s : string) : string := trim_start_fuel (String.length s) p s.

(** [s.ends_with(p)]. *)
Fixpoint ends_with (p s : string) : bool :=
  String.eqb p s || match s with EmptyString => false | String _ s => ends_with p s end.

(** [s.chars().take(n).collect()]: a character starts at every byte that is not a
    continuation byte. *)
Fixpoint take_chars (n : nat) (b : bytes) : bytes :=
  match b with
  | [] => []
  | x :: r =>
      if in_range 128 191 x then x :: take_chars n r
      else match n with O => [] | S n => x :: take_chars n r end
  end.

Lemma strip_prefix_Some p s r : strip_prefix p s = Some r <-> s = (p ++ r)%string.
Proof.
  revert s. induction p as [|a p IH]; intros s; cbn.
  - split; [by intros [= ->]|by intros ->].
  - destruct s as [|b s]; [done|].
    destruct (Ascii.eqb_spec a b) as [->|Hne].
    + rewrite IH. split; [by intros ->|by intros [= ->]].
    + split; [done|intros [= E _]; by rewrite E in Hne].
Qed.

Lemma strip_prefix_app p s : strip_prefix p (p ++ s)%string = Some s.
Proof. by apply strip_prefix_Some. Qed.

Lemma string_app_inj (a b c d : string) :
  (a ++ b)%string = (c ++ d)%string -> String.length a = String.length c -> a = c /\ b = d.
Proof.
  revert c. induction a as [|x a IH]; intros [|y c]; cbn; try done.
  intros [= -> E] [= L]. by destruct (IH _ E L) as [-> ->].
Qed.

Lemma string_app_inj_r (a b c : string) : (a ++ b)%string = (a ++ c)%string -> b = c.
Proof. intros E. by apply string_app_inj in E as [_ ?]. Qed.

Lemma string_app_length a b : String.length (a ++ b)%string = (String.length a + String.length b)%nat.
Proof. induction a as [|x a IH]; [done|]. exact (f_equal S IH). Qed.

(** [reader.take(n)] read to its end. *)
Definition take_bytes (n : Z) (b : bytes) : bytes := take (Z.to_nat n) b.

Lemma take_bytes_all n b : blen b <= n -> take_bytes n b = b.
Proof. unfold take_bytes, blen. intros. apply take_ge. lia. Qed.

Lemma take_bytes_le n m b : n < m -> blen (take_bytes m b) <= n <-> blen b <= n.
Proof. unfold take_bytes, blen. rewrite length_take. lia. Qed.

Lemma as_bytes_length s : length (as_bytes s) = String.length s.
Proof.
  unfold as_bytes, String.list_byte_of_string. rewrite length_map.
  induction s; cbn; congruence.
Qed.

Lemma str_len_as_bytes s : blen (as_bytes s) = str_len s.
Proof. unfold blen, str_len. by rewrite as_bytes_length. Qed.

Lemma str_is_empty_true s : str_is_empty s = true <-> s = "".
Proof. apply String.eqb_eq. Qed.

(** ** Content addresses *)

(** [Hash::of] is "blake3:" and the 64 lowercase hex digits of the digest; the
    digest function itself belongs to the [blake3] crate. *)
Definition is_hex64 (s : string) : bool :=
  (str_len s =? 64) && all_bytes is_lower_hex s.

Class Blake3 := {
  blake3_hex : bytes -> string;
  blake3_hex_wf : forall b, is_hex64 (blake3_hex b) = true;
}.

(** Two given inputs that the digest function cannot tell apart. A digest has
    collisions, so a theorem names the inputs that would have to be one. *)
Definition collides `{Blake3} (a b : bytes) : Prop := a <> b /\ blake3_hex a = blake3_hex b.

Lemma blake3_inj `{Blake3} (a b : bytes) : blake3_hex a = blake3_hex b -> a = b \/ collides a b.
Proof. destruct (decide (a = b)); [by left|]. by right. Qed.

(** ** [serde_json] *)

(** What the code relies on of [serde_json::to_vec] and [serde_json::from_slice]
    at a type [A]: reading back what was written gives the value. Writing is
    total: it fails only for a [Serialize] that chooses to fail or a map with
    non-string keys, and no type written here has either, so the [unwrap] or
    [map_err] the code puts on a write is never taken. *)
Class Json (A : Type) := {
  to_vec : A -> bytes;
  from_slice : bytes -> option A;
  from_to : forall a, from_slice (to_vec a) = Some a;
}.

Lemma to_vec_inj {A} `{Json A} (x y : A) : to_vec x = to_vec y -> x = y.
Proof. intros E. apply (f_equal from_slice) in E. rewrite !from_to in E. by injection E. Qed.

(** ** Ordered maps *)

(** Iteration order of a [BTreeMap<String, V>] or [BTreeSet<String>]: the keys
    in byte order. *)
Definition key_le (a b : string) : Prop := String.leb a b = true.
#[export] Instance key_le_dec a b : Decision (key_le a b) := bool_dec _ _.

Definition entry_le {V} (a b : string * V) : Prop := key_le a.1 b.1.
#[export] Instance entry_le_dec {V} (a b : string * V) : Decision (entry_le a b) := key_le_dec _ _.

Lemma key_le_cons a b s t :
  key_le (String a s) (String b t) <-> (N_of_ascii a < N_of_ascii b)%N \/ (a = b /\ key_le s t).
Proof.
  unfold key_le, String.leb. cbn. unfold Ascii.compare.
  destruct (N.compare_spec (N_of_ascii a) (N_of_ascii b)) as [E|Hlt|Hgt].
  - apply (f_equal ascii_of_N) in E. rewrite !ascii_N_embedding in E. subst b. split; [by right|]. intros [?|[_ ?]]; [lia|done].
  - naive_solver.
  - split; [done|]. intros [?|[-> _]]; lia.
Qed.

#[export] Instance key_le_trans : Transitive key_le.
Proof.
  intros a. induction a as [|x a IH]; intros [|y b] [|z c] Hab Hbc; try done.
  apply key_le_cons in Hab as [?|[-> ?]], Hbc as [?|[-> ?]]; apply key_le_cons; [left; lia|by left..|right].
  split; [done|]. by eapply IH.
Qed.
#[export] Instance key_le_antisym : AntiSymm (=) key_le.
Proof. intros a b. apply String.leb_antisym. Qed.
#[export] Instance key_le_total : Total key_le.
Proof. intros a b. apply String.leb_total. Qed.

Definition btree_iter {V} (m : gmap string V) : list (string * V) :=
  merge_sort entry_le (map_to_list m).
Definition btree_keys {V} (m : gmap string V) : list string := (btree_iter m).*1.
Definition btree_values {V} (m : gmap string V) : list V := (btree_iter m).*2.
Definition bset_iter (s : gset string) : list string := merge_sort key_le (elements s).

Lemma btree_iter_elem {V} (m : gmap string V) k v : (k, v) ∈ btree_iter m <-> m !! k = Some v.
Proof. unfold btree_iter. rewrite merge_sort_Permutation. apply elem_of_map_to_list. Qed.

Lemma btree_values_elem {V} (m : gmap string V) v :
  v ∈ btree_values m <-> exists k, m !! k = Some v.
Proof.
  unfold btree_values. rewrite list_elem_of_fmap. split.
  - intros [[k v'] [-> H]]. exists k. by apply btree_iter_elem.
  - intros [k H]. exists (k, v). split; [done|]. by apply btree_iter_elem.
Qed.

Lemma btree_keys_elem {V} (m : gmap string V) k :
  k ∈ btree_keys m <-> is_Some (m !! k).
Proof.
  unfold btree_keys. rewrite list_elem_of_fmap. split.
  - intros [[k' v] [-> H]]. exists v. by apply btree_iter_elem.
  - intros [v H]. exists (k, v). split; [done|]. by apply btree_iter_elem.
Qed.

Lemma btree_iter_NoDup {V} (m : gmap string V) : NoDup (btree_keys m).
Proof.
  unfold btree_keys, btree_iter. rewrite merge_sort_Permutation. apply NoDup_fst_map_to_list.
Qed.

Lemma btree_iter_length {V} (m : gmap string V) : length (btree_iter m) = size m.
Proof. unfold btree_iter. rewrite merge_sort_Permutation. apply length_map_to_list. Qed.

Lemma bset_iter_elem (s : gset string) k : k ∈ bset_iter s <-> k ∈ s.
Proof. unfold bset_iter. rewrite merge_sort_Permutation. apply elem_of_elements. Qed.

(** ** Totals over a list *)

Definition sum_of (l : list Z) : Z := foldr Z.add 0 l.

Lemma sum_of_nonneg l : Forall (fun x => 0 <= x) l -> 0 <= sum_of l.
Proof. induction 1; unfold sum_of in *; cbn; lia. Qed.

Lemma sum_of_const (c : Z) l : Forall (fun x => x = c) l -> sum_of l = Z.of_nat (length l) * c.
Proof. induction 1; unfold sum_of in *; cbn; lia. Qed.

(** ** Totals over a map: what the accounting of a registry sums up *)

Section total.
Context {V : Type} (f : V -> Z).

Definition total (m : gmap string V) : Z := map_fold (fun _ e acc => f e + acc) 0 m.

Lemma total_empty : total ∅ = 0.
Proof. apply map_fold_empty. Qed.

Lemma total_insert_None k e m : m !! k = None -> total (<[k := e]> m) = f e + total m.
Proof. intros Hk. unfold total. rewrite map_fold_insert_L; [done|intros; lia|done]. Qed.

Lemma total_insert_Some k e e' m :
  m !! k = Some e -> total (<[k := e']> m) = total m - f e + f e'.
Proof.
  intros Hk. assert (E : total m = f e + total (delete k m)).
  { rewrite <- (insert_delete_id m k e Hk) at 1. apply total_insert_None, lookup_delete_eq. }
  rewrite <- insert_delete_eq, total_insert_None by apply lookup_delete_eq. lia.
Qed.

Lemma total_fmap (g : V -> V) m : (forall e, f (g e) = f e) -> total (g <$> m) = total m.
Proof.
  intros Hg. induction m as [|k e m Hk IH] using map_ind; [by rewrite fmap_empty|].
  rewrite fmap_insert, !total_insert_None, Hg, IH; [done|done|].
  by rewrite lookup_fmap, Hk.
Qed.

Lemma total_nonneg m : (forall k e, m !! k = Some e -> 0 <= f e) -> 0 <= total m.
Proof.
  induction m as [|k e m Hk IH] using map_ind; intros Hf; [rewrite total_empty; lia|].
  rewrite total_insert_None by done.
  pose proof (Hf k e (lookup_insert_eq m k e)).
  assert (0 <= total m); [|lia]. apply IH. intros k' e' Hk'. apply (Hf k').
  rewrite lookup_insert_ne; [done|]. intros ->. congruence.
Qed.

Lemma total_zero m : (forall k e, m !! k = Some e -> f e = 0) -> total m = 0.
Proof.
  induction m as [|k e m Hk IH] using map_ind; intros Hf; [apply total_empty|].
  rewrite total_insert_None, (Hf k e) by (done || apply lookup_insert_eq).
  rewrite IH; [done|]. intros k' e' Hk'. apply (Hf k').
  rewrite lookup_insert_ne; [done|]. intros ->. congruence.
Qed.

Lemma total_lookup_le k e m :
  (forall k e, m !! k = Some e -> 0 <= f e) -> m !! k = Some e -> f e <= total m.
Proof.
  intros Hf Hk. rewrite <- (insert_id m k e Hk), <- insert_delete_eq.
  rewrite total_insert_None by apply lookup_delete_eq.
  assert (0 <= total (delete k m)); [|lia]. apply total_nonneg.
  intros k' e' Hk'. apply lookup_delete_Some in Hk' as [_ Hk']. by eapply Hf.
Qed.
End total.

(** ** Loops *)

Lemma foldl_inv {A B} (P : A -> Prop) (f : A -> B -> A) (l : list B) a :
  (forall a b, b ∈ l -> P a -> P (f a b)) -> P a -> P (foldl f a l).
Proof.
  revert a. induction l as [|b l IH]; intros a Hf Ha; cbn; [done|].
  apply IH; [|apply Hf; [by left|done]]. intros a' b' Hb'. apply Hf. by right.
Qed.

(** A relation that every step extends relates the start to every later state. *)
Lemma foldl_rel {A B} (R : A -> A -> Prop) (f : A -> B -> A) (l : list B) a :
  (forall a, R a a) -> (forall a b c, R a b -> R b c -> R a c) ->
  (forall a b, R a (f a b)) -> R a (foldl f a l).
Proof. intros Hr Ht Hs. apply foldl_inv; [|done]. eauto. Qed.

(** ** Automation *)

Create HintDb celln.
Create HintDb celln_bool.
#[export] Hint Rewrite @result_bind_Ok @ensure_Ok @ok_or_Ok @map_err_Ok : celln.
#[export] Hint Rewrite checked_add_u64_Some checked_add_u32_Some checked_sub_u64_Some
  instant_checked_add_Some : celln.
#[export] Hint Rewrite andb_true_iff andb_false_iff orb_true_iff orb_false_iff
  negb_true_iff negb_false_iff Z.leb_le Z.ltb_lt Z.eqb_eq Z.leb_gt Z.ltb_ge Z.eqb_neq
  String.eqb_eq String.eqb_neq Nat.leb_le Nat.ltb_lt Nat.eqb_eq : celln_bool.

(** Reflect every boolean test of the context. *)
Ltac reflect := autorewrite with celln_bool in *.

(** Split hypotheses of the form [f = Ok _] for a monadic [f] into its steps. *)
Ltac split_ok :=
  repeat match goal with
    | H : _ ≫= _ = Ok _ |- _ => apply result_bind_Ok in H as (? & ? & H)
    | H : ensure _ _ = Ok _ |- _ => apply ensure_Ok in H
    | H : ok_or _ _ = Ok _ |- _ => apply ok_or_Ok in H
    | H : map_err _ _ = Ok _ |- _ => apply map_err_Ok in H
    | H : Ok _ = Ok _ |- _ => injection H as H; try subst
    | H : mret _ = Ok _ |- _ => injection H as H; try subst
    | H : Err _ = Ok _ |- _ => discriminate H
    end.
