(* ===== verification/Text.v ===== *)
(** * Operations of [str]

    What the sources use of Rust's string methods beyond the prelude: ASCII case,
    splitting, trimming and numbers. *)

From S2P Require Import Prelude.

Definition lower_byte (b : byte) : byte :=
  if is_upper b then default b (Byte.of_N (Z.to_N (byte_val b + 32))) else b.
Definition to_ascii_lowercase (s : string) : string := from_utf8 (lower_byte <$> as_bytes s).
Definition eq_ignore_ascii_case (a b : string) : bool := String.eqb (to_ascii_lowercase a) (to_ascii_lowercase b).

(** [s.split(c).next()], [s.split_once(c)], [s.rsplit_once(c)]. *)
Fixpoint before_char (c : ascii) (s : string) : string :=
  match s with
  | EmptyString => EmptyString
  | String a r => if Ascii.eqb a c then EmptyString else String a (before_char c r)
  end.
Fixpoint split_once (c : ascii) (s : string) : option (string * string) :=
  match s with
  | EmptyString => None
  | String a r => if Ascii.eqb a c then Some ("", r) else '(h, t) ← split_once c r; Some (String a h, t)
  end.
Fixpoint rsplit_once (c : ascii) (s : string) : option (string * string) :=
  match s with
  | EmptyString => None
  | String a r =>
      match rsplit_once c r with
      | Some (h, t) => Some (String a h, t)
      | None => if Ascii.eqb a c then Some ("", r) else None
      end
  end.
Fixpoint has_char (c : ascii) (s : string) : bool :=
  match s with EmptyString => false | String a r => Ascii.eqb a c || has_char c r end.

(** [s.trim()]. *)
Fixpoint trim_start_ws (fuel : nat) (b : bytes) : bytes :=
  match fuel, ws_rest b with S n, Some r => trim_start_ws n r | _, _ => b end.
Fixpoint trim_end_ws (b : bytes) : bytes :=
  if all_whitespace b then [] else match b with [] => [] | x :: r => x :: trim_end_ws r end.
Definition trim (b : bytes) : bytes := trim_end_ws (trim_start_ws (length b) b).

(** [s.parse::<u16>()]. *)
Definition parse_u16 (s : string) : option Z :=
  n ← parse_u64 (as_bytes s); if n <=? 65535 then Some n else None.

(** [s.split(c)]. *)
Fixpoint split_char (c : ascii) (s : string) : list string :=
  match s with
  | EmptyString => [""]
  | String a r =>
      match split_char c r with
      | h :: t => if Ascii.eqb a c then "" :: h :: t else String a h :: t
      | [] => [""]
      end
  end.

(** [s.trim().is_empty()]. *)
Definition blank (s : string) : bool := all_whitespace (as_bytes s).

(** [s.rsplit(c).next()]. *)
Definition after_last_char (c : ascii) (s : string) : string :=
  match rsplit_once c s with Some (_, t) => t | None => s end.

(** [s.trim_end_matches(p)] for a test of ASCII characters. *)
Fixpoint trim_end_while (p : byte -> bool) (b : bytes) : bytes :=
  if forallb p b then [] else match b with [] => [] | x :: r => x :: trim_end_while p r end.

(** [s.split_at(s.find(|c| !p(c)).unwrap_or(s.len()))]. *)
Fixpoint span (p : byte -> bool) (b : bytes) : bytes * bytes :=
  match b with
  | x :: r => if p x then let '(h, t) := span p r in (x :: h, t) else ([], b)
  | [] => ([], [])
  end.

(** A name with an index, as in [format!("tools[{i}]")]. *)
Definition indexed (name : string) (i : nat) : string := (name ++ "[" ++ pretty.pretty i ++ "]")%string.

(** [s.strip_suffix(p)]. *)
Fixpoint strip_suffix (p s : string) : option string :=
  if String.eqb p s then Some "" else
  match s with EmptyString => None | String a s => String a <$> strip_suffix p s end.

(** [s.trim_end_matches(c)]. *)
Fixpoint trim_end_char (c : ascii) (s : string) : string :=
  match s with
  | EmptyString => EmptyString
  | String a r =>
      match trim_end_char c r with
      | EmptyString => if Ascii.eqb a c then EmptyString else String a EmptyString
      | r => String a r
      end
  end.

(** ** Decimal numerals *)

(** The number that digits write. *)
Definition decimal (b : bytes) : Z := foldl (fun n d => 10 * n + (byte_val d - 48)) 0 b.
Definition digits (s : string) : Prop := s <> "" /\ all_bytes is_digit s = true.

Lemma decimal_from b n : foldl (fun n d => 10 * n + (byte_val d - 48)) n b = n * 10 ^ Z.of_nat (length b) + decimal b.
Proof.
  unfold decimal. revert n. induction b as [|x b IH]; intros n; cbn [foldl length]; [rewrite Z.pow_0_r; lia|].
  rewrite IH, (IH (10 * 0 + _)). rewrite Nat2Z.inj_succ, Z.pow_succ_r by lia. lia.
Qed.

Lemma decimal_app a b : decimal (a ++ b) = decimal a * 10 ^ Z.of_nat (length b) + decimal b.
Proof. unfold decimal at 1. by rewrite foldl_app, decimal_from. Qed.

Lemma parse_digits_decimal b acc n : parse_digits acc b = Some n ->
  forallb is_digit b = true /\ n = foldl (fun n d => 10 * n + (byte_val d - 48)) acc b /\ (acc <= u64_max -> n <= u64_max).
Proof.
  revert acc. induction b as [|x b IH]; intros acc; cbn [parse_digits forallb foldl]; [naive_solver|].
  destruct (is_digit x); [|done]. cbv zeta. destruct (Z.leb_spec (acc * 10 + (byte_val x - 48)) u64_max); [|done].
  intros (Hd & -> & Hle)%IH. split_and!; [done|f_equal; lia|auto].
Qed.

(** A number that is read from digits alone is theirs. *)
Lemma parse_u64_digits b n : forallb is_digit b = true -> parse_u64 b = Some n -> b <> [] /\ n = decimal b /\ 0 <= n <= u64_max.
Proof.
  intros Hd Hp. assert (Hb : b <> [] /\ parse_digits 0 b = Some n).
  { destruct b as [|x b]; [done|]. split; [done|]. cbn in Hd. apply andb_true_iff in Hd as [Hx _].
    destruct x; try discriminate Hx; exact Hp. }
  destruct Hb as [Hne Hb]. split; [done|]. apply parse_digits_decimal in Hb as (_ & -> & Hle). split; [done|].
  split; [|apply Hle; done].
  assert (Hg : forall n, 0 <= n -> 0 <= foldl (fun n d => 10 * n + (byte_val d - 48)) n b).
  { clear - Hd. induction b as [|x b IH]; intros n Hn; cbn; [done|]. cbn in Hd. apply andb_true_iff in Hd as [Hx Hd]. apply IH; [done|].
    unfold is_digit, in_range in Hx. lia. }
  by apply Hg.
Qed.

(** What [pretty] prints. *)
Lemma as_bytes_cons a s : as_bytes (String a s) = Ascii.byte_of_ascii a :: as_bytes s.
Proof. done. Qed.
Lemma length_as_bytes s : length (as_bytes s) = String.length s.
Proof. induction s as [|a s IH]; [done|]. rewrite as_bytes_cons. cbn. by rewrite IH. Qed.
Lemma as_bytes_append a b : as_bytes (a ++ b) = as_bytes a ++ as_bytes b.
Proof. induction a as [|x a IH]; [done|]. change (as_bytes (String x (a ++ b)) = as_bytes (String x a) ++ as_bytes b). rewrite !as_bytes_cons. cbn. by rewrite IH. Qed.

Lemma pretty_char x : (x < 10)%N ->
  is_digit (Ascii.byte_of_ascii (pretty.pretty_N_char x)) = true /\ byte_val (Ascii.byte_of_ascii (pretty.pretty_N_char x)) - 48 = Z.of_N x.
Proof.
  intros Hx. assert (x = 0 \/ x = 1 \/ x = 2 \/ x = 3 \/ x = 4 \/ x = 5 \/ x = 6 \/ x = 7 \/ x = 8 \/ x = 9)%N as H by lia.
  by repeat destruct H as [->|H]; subst.
Qed.

Lemma pretty_go x s : all_bytes is_digit s = true -> all_bytes is_digit (pretty.pretty_N_go x s) = true /\
  decimal (as_bytes (pretty.pretty_N_go x s)) = Z.of_N x * 10 ^ Z.of_nat (String.length s) + decimal (as_bytes s) /\
  ((0 < x)%N -> pretty.pretty_N_go x s <> "").
Proof.
  revert s. induction (N.lt_wf_0 x) as [x _ IH]; intros s Hs. destruct (decide (0 < x)%N) as [Hx|Hx].
  2: { assert (x = 0)%N as -> by lia. rewrite pretty.pretty_N_go_0. split_and!; [done|lia|lia]. }
  rewrite pretty.pretty_N_go_step by done. pose proof (N.mod_lt x 10 ltac:(lia)) as Hm. destruct (pretty_char _ Hm) as [Hc Hv].
  set (a := pretty.pretty_N_char (x `mod` 10)) in *. set (t := String a s).
  assert (Ht : all_bytes is_digit t = true) by (unfold all_bytes, t; rewrite as_bytes_cons; cbn; by rewrite Hc).
  destruct (IH (x `div` 10)%N ltac:(apply N.div_lt; lia) t Ht) as (H1 & H2 & H3). split_and!; [done| |].
  - rewrite H2. unfold t at 1 2. rewrite as_bytes_cons. change (Ascii.byte_of_ascii a :: as_bytes s) with ([Ascii.byte_of_ascii a] ++ as_bytes s).
    rewrite decimal_app, length_as_bytes. change (decimal [Ascii.byte_of_ascii a]) with (10 * 0 + (byte_val (Ascii.byte_of_ascii a) - 48)).
    rewrite Hv. change (String.length (String a s)) with (S (String.length s)). rewrite Nat2Z.inj_succ, Z.pow_succ_r by lia.
    pose proof (N.div_mod x 10 ltac:(lia)). nia.
  - intros _. destruct (N.eq_0_gt_0_cases (x `div` 10)%N) as [E0|]; [|auto]. rewrite E0. by rewrite pretty.pretty_N_go_0.
Qed.

Lemma pretty_decimal n : 0 <= n -> digits (pretty.pretty n) /\ decimal (as_bytes (pretty.pretty n)) = n.
Proof.
  intros Hn. assert (H : forall x : N, digits (pretty.pretty x) /\ decimal (as_bytes (pretty.pretty x)) = Z.of_N x).
  { intros x. unfold pretty.pretty, pretty.pretty_N. destruct (decide (x = 0)%N) as [->|Hx]; [done|].
    destruct (pretty_go x "") as (H1 & H2 & H3); [done|]. split; [split; [apply H3; lia|done]|]. rewrite H2. change (decimal (as_bytes "")) with 0. change (Z.of_nat (String.length "")) with 0. rewrite Z.pow_0_r. lia. }
  destruct n as [|p|p]; [done| |lia]. exact (H (N.pos p)).
Qed.
