(* ===== verification/Json.v ===== *)
(** * JSON values ([serde_json::Value])

    The value tree that the code builds with [json!] and compares or walks. An
    object is the association list of a [BTreeMap], so its keys are increasing;
    numbers keep the three representations of [serde_json::Number]. *)

From S2P Require Import Prelude.

(** A float is kept by the bits of its [f64]. *)
Inductive Number : Type :=
| PosInt (u : Z)
| NegInt (i : Z)
| Float (bits : Z).

#[export] Instance Number_eq_dec : EqDecision Number.
Proof. solve_decision. Defined.

Inductive Value : Type :=
| Null
| VBool (b : bool)
| VNumber (n : Number)
| VString (s : string)
| VArray (l : list Value)
| VObject (o : list (string * Value)).

Section value_ind.
Context (P : Value -> Prop).
Context (HNull : P Null) (HBool : forall b, P (VBool b)) (HNumber : forall n, P (VNumber n)).
Context (HString : forall s, P (VString s)).
Context (HArray : forall l, Forall P l -> P (VArray l)).
Context (HObject : forall o, Forall (fun kv => P kv.2) o -> P (VObject o)).

Fixpoint value_ind' (v : Value) : P v :=
  match v with
  | Null => HNull
  | VBool b => HBool b
  | VNumber n => HNumber n
  | VString s => HString s
  | VArray l =>
      HArray l ((fix go (l : list Value) : Forall P l :=
        match l with [] => Forall_nil_2 _ | v :: l => Forall_cons_2 _ _ _ (value_ind' v) (go l) end) l)
  | VObject o =>
      HObject o ((fix go (o : list (string * Value)) : Forall (fun kv => P kv.2) o :=
        match o with
        | [] => Forall_nil_2 _
        | kv :: o => Forall_cons_2 (fun kv => P kv.2) kv o (value_ind' kv.2) (go o)
        end) o)
  end.
End value_ind.

(** [Value::eq]. *)
Fixpoint value_eqb (v w : Value) : bool :=
  match v, w with
  | Null, Null => true
  | VBool b, VBool b' => Bool.eqb b b'
  | VNumber n, VNumber n' => bool_decide (n = n')
  | VString s, VString s' => String.eqb s s'
  | VArray l, VArray l' =>
      (fix go (l l' : list Value) : bool :=
         match l, l' with
         | [], [] => true
         | v :: l, v' :: l' => value_eqb v v' && go l l'
         | _, _ => false
         end) l l'
  | VObject o, VObject o' =>
      (fix go (o o' : list (string * Value)) : bool :=
         match o, o' with
         | [], [] => true
         | (k, v) :: o, (k', v') :: o' => String.eqb k k' && (value_eqb v v' && go o o')
         | _, _ => false
         end) o o'
  | _, _ => false
  end.

Lemma value_eqb_eq v w : value_eqb v w = true <-> v = w.
Proof.
  revert w. induction v as [|b|n|s|l IH|o IH] using value_ind'; intros w;
    destruct w as [|b'|n'|s'|l'|o']; cbn; try done.
  - rewrite Bool.eqb_true_iff. naive_solver.
  - rewrite bool_decide_eq_true. naive_solver.
  - rewrite String.eqb_eq. naive_solver.
  - enough (E : (fix go (l l' : list Value) : bool :=
         match l, l' with
         | [], [] => true
         | v :: l, v' :: l' => value_eqb v v' && go l l'
         | _, _ => false
         end) l l' = true <-> l = l') by (rewrite E; naive_solver).
    revert l'. induction IH as [|v l Hv _ IHl]; intros [|v' l']; try done.
    rewrite andb_true_iff, Hv, IHl. naive_solver.
  - match goal with |- ?f o o' = true <-> _ =>
      enough (E : f o o' = true <-> o = o') by (rewrite E; naive_solver) end.
    revert o'. induction IH as [|[k v] o Hv _ IHo]; intros [|[k' v'] o']; try done.
    rewrite !andb_true_iff, String.eqb_eq, (Hv v'), IHo. cbn. naive_solver.
Qed.

#[export] Instance Value_eq_dec : EqDecision Value.
Proof.
  intros v w. destruct (value_eqb v w) eqn:E; [left|right]; rewrite <- value_eqb_eq, E; done.
Defined.

(** [value.get(key)] of an object's entries. *)
Fixpoint oget (k : string) (o : list (string * Value)) : option Value :=
  match o with
  | [] => None
  | (k', v) :: o => if String.eqb k k' then Some v else oget k o
  end.

(** [map.insert(key, value)], which keeps the keys increasing, and its laws. *)
Fixpoint oinsert (k : string) (v : Value) (o : list (string * Value)) : list (string * Value) :=
  match o with
  | [] => [(k, v)]
  | (k', v') :: r =>
      if String.eqb k k' then (k, v) :: r
      else if String.ltb k k' then (k, v) :: o
      else (k', v') :: oinsert k v r
  end.

Lemma oget_oinsert k k' v o : oget k' (oinsert k v o) = if String.eqb k' k then Some v else oget k' o.
Proof.
  induction o as [|[k1 v1] o IH]; [done|]. cbn [oinsert oget].
  destruct (String.eqb_spec k k1) as [->|Hne]; [cbn; by destruct (String.eqb k' k1)|].
  destruct (String.ltb k k1); [done|]. cbn [oget]. rewrite IH.
  destruct (String.eqb_spec k' k1) as [->|]; [|done]. by destruct (String.eqb_spec k1 k) as [->|].
Qed.

Lemma oget_Some_elem k v o : oget k o = Some v -> (k, v) ∈ o.
Proof.
  induction o as [|[k1 v1] o IH]; cbn; [done|].
  destruct (String.eqb_spec k k1) as [->|]; [intros [= ->]; by left|]. intros. right. by apply IH.
Qed.

Lemma oget_is_Some k o : is_Some (oget k o) <-> k ∈ o.*1.
Proof.
  induction o as [|[k1 v1] o IH]; cbn; [by rewrite is_Some_alt, elem_of_nil|].
  rewrite elem_of_cons, <- IH. destruct (String.eqb_spec k k1) as [->|]; [|naive_solver].
  split; [by left|by eexists].
Qed.

Lemma oinsert_perm k v o : k ∉ o.*1 -> oinsert k v o ≡ₚ (k, v) :: o.
Proof.
  induction o as [|[k1 v1] o IH]; cbn; [done|]. rewrite not_elem_of_cons. intros [Hne Hk].
  rewrite (proj2 (String.eqb_neq k k1) Hne). destruct (String.ltb k k1); [done|].
  rewrite IH by done. apply perm_swap.
Qed.

(** [json!(n)] for an unsigned integer. *)
Definition vnum (n : Z) : Value := VNumber (PosInt n).

(** ** Access: [json!(s)], [value[key]], [value.as_str()], [value.as_u64()] *)

Definition vstr (s : string) : Value := VString s.
Definition vget (k : string) (v : Value) : Value :=
  match v with VObject o => default Null (oget k o) | _ => Null end.
Definition as_str (v : Value) : option string := match v with VString s => Some s | _ => None end.
Definition as_u64 (v : Value) : option Z := match v with VNumber (PosInt n) => Some n | _ => None end.

(** [value.as_i64()] and [value.as_bool()]. *)
Definition as_i64 (n : Number) : option Z :=
  match n with
  | PosInt u => if u <=? 2 ^ 63 - 1 then Some u else None
  | NegInt i => Some i
  | Float _ => None
  end.
Definition value_i64 (v : Value) : option Z := match v with VNumber n => as_i64 n | _ => None end.
Definition as_bool (v : Value) : option bool := match v with VBool b => Some b | _ => None end.

(** ** The tokenizer *)

(** The visitor calls of [deserialize_any], one constructor per [visit_*]. *)
Inductive Raw : Type :=
| RUnit
| RBool (b : bool)
| RI64 (v : Z)
| RU64 (v : Z)
| RF64 (bits : Z)
| RStr (s : string)
| RSeq (l : list Raw)
| RMap (o : list (string * Raw)).

(** An integer is in the range of its type. *)
Fixpoint raw_typed (r : Raw) : bool :=
  match r with
  | RI64 v => (- 2 ^ 63 <=? v) && (v <? 2 ^ 63)
  | RU64 v => (0 <=? v) && (v <? 2 ^ 64)
  | RSeq l => forallb raw_typed l
  | RMap o => forallb (fun kr => raw_typed kr.2) o
  | _ => true
  end.

(** [serde_json]'s tokenizer: the calls made for the first value of a document, if
    it has a whole one, and whether only white space follows ([d.end()]). *)
Class JsonText := {
  read_raw : bytes -> option (Raw * bool);
  read_typed : forall b r e, read_raw b = Some (r, e) -> raw_typed r = true;
}.

(** [Value::from] an [i64]; [Number::from_f64], which refuses infinities and NaN. *)
Definition from_i64 (v : Z) : Value := VNumber (if v <? 0 then NegInt v else PosInt v).
Definition finite (bits : Z) : bool := negb (Z.land (Z.shiftr bits 52) 2047 =? 2047).
Definition contains_key (k : string) (o : list (string * Value)) : bool := is_Some_bool (oget k o).

(** *** The value of a document *)

Section raw_ind.
Context (P : Raw -> Prop).
Context (HUnit : P RUnit) (HBool : forall b, P (RBool b)) (HI : forall v, P (RI64 v)) (HU : forall v, P (RU64 v)).
Context (HF : forall b, P (RF64 b)) (HStr : forall s, P (RStr s)).
Context (HSeq : forall l, Forall P l -> P (RSeq l)) (HMap : forall o, Forall (fun kr => P kr.2) o -> P (RMap o)).

Fixpoint raw_ind' (r : Raw) : P r :=
  match r with
  | RUnit => HUnit
  | RBool b => HBool b
  | RI64 v => HI v
  | RU64 v => HU v
  | RF64 b => HF b
  | RStr s => HStr s
  | RSeq l =>
      HSeq l ((fix go (l : list Raw) : Forall P l :=
        match l with [] => Forall_nil_2 _ | r :: l => Forall_cons_2 _ _ _ (raw_ind' r) (go l) end) l)
  | RMap o =>
      HMap o ((fix go (o : list (string * Raw)) : Forall (fun kr => P kr.2) o :=
        match o with
        | [] => Forall_nil_2 _
        | kr :: o => Forall_cons_2 (fun kr => P kr.2) kr o (raw_ind' kr.2) (go o)
        end) o)
  end.
End raw_ind.

(** The value that a document without repeated keys denotes. *)
Fixpoint raw_value (r : Raw) : Value :=
  match r with
  | RUnit => Null
  | RBool b => VBool b
  | RI64 v => from_i64 v
  | RU64 v => VNumber (PosInt v)
  | RF64 b => VNumber (Float b)
  | RStr s => VString s
  | RSeq l => VArray (raw_value <$> l)
  | RMap o => VObject (foldl (fun acc kv => oinsert kv.1 kv.2 acc) [] ((fun kr => (kr.1, raw_value kr.2)) <$> o))
  end.

Lemma contains_key_spec k o : contains_key k o = true <-> k ∈ o.*1.
Proof. unfold contains_key. rewrite <- oget_is_Some. destruct (oget k o); cbn; rewrite is_Some_alt; done. Qed.

Lemma contains_oinsert k v o k' : contains_key k o = false ->
  k' ∈ (oinsert k v o).*1 <-> k' = k \/ k' ∈ o.*1.
Proof.
  intros Hk. assert (Hn : k ∉ o.*1) by (rewrite <- contains_key_spec, Hk; done).
  rewrite (oinsert_perm k v o Hn). cbn. by rewrite elem_of_cons.
Qed.

(** What a loop over the entries of an object has built. *)
Definition insert_all (acc : list (string * Value)) (o : list (string * Raw)) : list (string * Value) :=
  foldl (fun acc kv => oinsert kv.1 kv.2 acc) acc ((fun kr => (kr.1, raw_value kr.2)) <$> o).

Definition fresh_keys (acc : list (string * Value)) (o : list (string * Raw)) : Prop :=
  NoDup o.*1 /\ forall k, k ∈ o.*1 -> k ∉ acc.*1.

Lemma fresh_cons acc k r o : fresh_keys acc ((k, r) :: o) <->
  contains_key k acc = false /\ fresh_keys (oinsert k (raw_value r) acc) o.
Proof.
  unfold fresh_keys. cbn. rewrite NoDup_cons. setoid_rewrite elem_of_cons.
  rewrite <- not_true_iff_false, contains_key_spec. split.
  - intros [[Hk Ho] Ha]. assert (Hc : k ∉ acc.*1) by (apply Ha; by left). split; [done|]. split; [done|].
    intros k' Hk' [->|]%contains_oinsert; [done|by apply (Ha k'); [right|]|].
    by rewrite <- not_true_iff_false, contains_key_spec.
  - intros (Hc & Ho & Ha). assert (Hf : contains_key k acc = false)
      by by rewrite <- not_true_iff_false, contains_key_spec.
    setoid_rewrite (contains_oinsert _ _ _ _ Hf) in Ha. split; [split; [|done]|].
    + intros Hk. apply (Ha k Hk). by left.
    + intros k' [->|Hk']; [done|]. intros ?. apply (Ha k' Hk'). by right.
Qed.
