(* ===== verification/Instances.v ===== *)
(** * Concrete instances of the interfaces to crates outside the repository

    The digest of [blake3] and the encoders of [serde_json] are class parameters
    of the development. The instances here are concrete executable functions
    meeting the same laws; the witnesses of the theorems evaluate on them. *)

From S2P Require Import Prelude Json.

(** ** A digest of 64 hex digits *)

Definition hex_digit (d : Z) : byte :=
  match Byte.of_N (Z.to_N (if d <? 10 then 48 + d else 87 + d)) with
  | Some b => b
  | None => x30
  end.

Fixpoint hex_digits (n : nat) (x : Z) : bytes :=
  match n with
  | O => []
  | S n => hex_digit (x mod 16) :: hex_digits n (x / 16)
  end.

Definition toy_sum (b : bytes) : Z :=
  foldl (fun h x => Z.land (h * 33 + byte_val x + 1) 4294967295) 1 b.

Definition toy_hex (b : bytes) : string := from_utf8 (hex_digits 64 (toy_sum b)).

Lemma hex_digits_length n x : length (hex_digits n x) = n.
Proof. revert x. induction n; intros x; cbn; congruence. Qed.

Lemma hex_digit_lower_hex d : 0 <= d < 16 -> is_lower_hex (hex_digit d) = true.
Proof.
  intros H.
  assert (Hd : d ∈ [0;1;2;3;4;5;6;7;8;9;10;11;12;13;14;15]) by (rewrite !elem_of_cons; lia).
  clear H. revert d Hd. apply Forall_forall. repeat constructor.
Qed.

Lemma hex_digits_lower_hex n x : forallb is_lower_hex (hex_digits n x) = true.
Proof.
  revert x. induction n as [|n IH]; intros x; cbn [hex_digits forallb]; [done|].
  rewrite IH, hex_digit_lower_hex; [done|]. apply Z.mod_pos_bound. lia.
Qed.

Lemma as_bytes_from_utf8 b : as_bytes (from_utf8 b) = b.
Proof. apply String.list_byte_of_string_of_list_byte. Qed.

Lemma toy_hex_wf b : is_hex64 (toy_hex b) = true.
Proof.
  unfold is_hex64, all_bytes. rewrite <- str_len_as_bytes. unfold toy_hex, blen.
  rewrite as_bytes_from_utf8, hex_digits_length, hex_digits_lower_hex. done.
Qed.

Definition toy_blake3 : Blake3 := {| blake3_hex := toy_hex; blake3_hex_wf := toy_hex_wf |}.

(** ** An encoding of any countable type *)

(** Two bits to a byte; [x34] and [x35] hold a last single bit. *)
Fixpoint pos_to_bytes (p : positive) : bytes :=
  match p with
  | xH => []
  | xO xH => [x34]
  | xI xH => [x35]
  | xO (xO p) => x30 :: pos_to_bytes p
  | xO (xI p) => x31 :: pos_to_bytes p
  | xI (xO p) => x32 :: pos_to_bytes p
  | xI (xI p) => x33 :: pos_to_bytes p
  end.

Fixpoint bytes_to_pos (b : bytes) : option positive :=
  match b with
  | [] => Some xH
  | x34 :: [] => Some (xO xH)
  | x35 :: [] => Some (xI xH)
  | x30 :: b => (fun p => xO (xO p)) <$> bytes_to_pos b
  | x31 :: b => (fun p => xO (xI p)) <$> bytes_to_pos b
  | x32 :: b => (fun p => xI (xO p)) <$> bytes_to_pos b
  | x33 :: b => (fun p => xI (xI p)) <$> bytes_to_pos b
  | _ => None
  end.

Lemma bytes_to_pos_to_bytes : forall p, bytes_to_pos (pos_to_bytes p) = Some p.
Proof.
  fix IH 1. intros [[p|p|]|[p|p|]|]; cbn; try done; by rewrite IH.
Qed.

Section countable_json.
Context {A : Type} `{Countable A}.

Definition cj_to_vec (a : A) : bytes := pos_to_bytes (encode a).
Definition cj_from_slice (b : bytes) : option A := bytes_to_pos b ≫= decode.

Lemma cj_from_to a : cj_from_slice (cj_to_vec a) = Some a.
Proof.
  unfold cj_to_vec, cj_from_slice. rewrite bytes_to_pos_to_bytes. cbn.
  apply decode_encode.
Qed.

Definition countable_json : Json A :=
  {| to_vec := cj_to_vec; from_slice := cj_from_slice; from_to := cj_from_to |}.
End countable_json.

(** *** JSON values are countable *)

Abbreviation tree := (gen_tree (Z + string)).

Fixpoint value_tree (v : Value) : tree :=
  match v with
  | Null => GenNode 0 []
  | VBool b => GenNode 1 [GenLeaf (inl (if b then 1 else 0))]
  | VNumber (PosInt u) => GenNode 2 [GenLeaf (inl u)]
  | VNumber (NegInt i) => GenNode 3 [GenLeaf (inl i)]
  | VNumber (Float b) => GenNode 4 [GenLeaf (inl b)]
  | VString s => GenNode 5 [GenLeaf (inr s)]
  | VArray l => GenNode 6 (value_tree <$> l)
  | VObject o => GenNode 7 ((fun kv => GenNode 8 [GenLeaf (inr kv.1); value_tree kv.2]) <$> o)
  end.

Fixpoint tree_value (t : tree) : Value :=
  match t with
  | GenNode 1 [GenLeaf (inl b)] => VBool (negb (b =? 0))
  | GenNode 2 [GenLeaf (inl u)] => VNumber (PosInt u)
  | GenNode 3 [GenLeaf (inl i)] => VNumber (NegInt i)
  | GenNode 4 [GenLeaf (inl b)] => VNumber (Float b)
  | GenNode 5 [GenLeaf (inr s)] => VString s
  | GenNode 6 l => VArray (tree_value <$> l)
  | GenNode 7 l =>
      VObject ((fun t => match t with
        | GenNode _ [GenLeaf (inr k); t] => (k, tree_value t)
        | _ => ("", Null)
        end) <$> l)
  | _ => Null
  end.

Lemma tree_value_tree v : tree_value (value_tree v) = v.
Proof.
  induction v as [|b|[]|s|l IH|o IH] using value_ind'; cbn; try done.
  - by destruct b.
  - f_equal. induction IH as [|v l Hv _ IHl]; [done|]. cbn. by rewrite Hv, IHl.
  - f_equal. induction IH as [|[k v] o Hv _ IHo]; [done|]. cbn in *. by rewrite Hv, IHo.
Qed.

#[export] Instance Value_countable : Countable Value := inj_countable' value_tree tree_value tree_value_tree.
