(* ===== verification/Manifest.v ===== *)
(** * The attestation manifest ([crates/celln-manifest/src/lib.rs])

    Content addresses, artifact entries, the execution allowlist with its
    revocation set, the stand-in signature, and the laundering ban. A
    [BTreeMap<Hash, _>] is a [gmap] keyed by the text of the hash; its iteration
    order is [btree_iter]. *)

From S2P Require Import Prelude.

(** [Hash] is a newtype over [String]. *)
Abbreviation hash := string (only parsing).

Definition hash_of `{Blake3} (b : bytes) : hash := ("blake3:" ++ blake3_hex b)%string.

Lemma hash_of_inj `{Blake3} (a b : bytes) : hash_of a = hash_of b -> a = b \/ collides a b.
Proof.
  intros E. apply blake3_inj.
  apply (f_equal (strip_prefix "blake3:")) in E. unfold hash_of in E.
  rewrite !strip_prefix_app in E. by injection E.
Qed.

(** [Tier], [Lane] and [Author]. *)
Inductive Tier : Type := Forged | Verified | Unsealed.
Inductive Lane : Type := Tool | Data.
Inductive Author : Type := Host | Agent.

#[export] Instance Tier_eq_dec : EqDecision Tier.
Proof. solve_decision. Defined.
#[export] Instance Lane_eq_dec : EqDecision Lane.
Proof. solve_decision. Defined.
#[export] Instance Author_eq_dec : EqDecision Author.
Proof. solve_decision. Defined.

(** [Display] for the three enums: the agent lane is printed "agent". *)
Definition tier_to_string (t : Tier) : string :=
  match t with Forged => "forged" | Verified => "verified" | Unsealed => "unsealed" end.
Definition lane_to_string (l : Lane) : string :=
  match l with Tool => "tool" | Data => "agent" end.
Definition author_to_string (a : Author) : string :=
  match a with Host => "host" | Agent => "agent" end.

Record Entry : Type := mkEntry {
  alias : string;
  e_hash : hash;
  tier : Tier;
  interpreter : bool;
  author : Author;
  recipe : option hash;
}.

#[export] Instance Entry_eq_dec : EqDecision Entry.
Proof. solve_decision. Defined.

Record Manifest : Type := mkManifest {
  entries : gmap string Entry;
  revoked : gset string;
  signature : option string;
}.

Inductive ExecDenied : Type :=
| Unattested (h : hash)
| Revoked (h : hash).

#[export] Instance ExecDenied_eq_dec : EqDecision ExecDenied.
Proof. solve_decision. Defined.

(** ** Operations *)

Definition new : Manifest := mkManifest ∅ ∅ None.

(** Returns the prior entry of the hash; any change drops the signature. *)
Definition admit_entry (m : Manifest) (e : Entry) : option Entry * Manifest :=
  (entries m !! e_hash e,
   mkManifest (<[e_hash e := e]> (entries m)) (revoked m) None).

Definition revoke (m : Manifest) (h : hash) : Manifest :=
  mkManifest (entries m) ({[h]} ∪ revoked m) None.

Definition is_revoked (m : Manifest) (h : hash) : bool := bool_decide (h ∈ revoked m).

Definition get (m : Manifest) (h : hash) : option Entry := entries m !! h.

(** The first live entry of that alias in hash order. *)
Definition resolve_alias (m : Manifest) (a : string) : option Entry :=
  snd <$> list_find
    (fun e => Is_true (String.eqb (alias e) a && negb (bool_decide (e_hash e ∈ revoked m))))
    (btree_values (entries m)).

Definition permit_exec (m : Manifest) (h : hash) : result ExecDenied Entry :=
  if is_revoked m h then Err (Revoked h)
  else ok_or (entries m !! h) (Unattested h).

Definition len (m : Manifest) : nat := size (entries m).
Definition is_empty (m : Manifest) : bool := Nat.eqb (len m) 0.

(** [entries()]: every admitted entry, in hash order. *)
Definition list_entries (m : Manifest) : list Entry := btree_values (entries m).

Section signing.
Context `{Blake3} `{Json Manifest}.

(** The serialized body without its signature. *)
Definition canonical_body (m : Manifest) : bytes :=
  to_vec (mkManifest (entries m) (revoked m) None).

Definition sign_standin (m : Manifest) : Manifest :=
  mkManifest (entries m) (revoked m) (Some (hash_of (canonical_body m))).

Definition verify_standin (m : Manifest) : bool :=
  match signature m with
  | None => false
  | Some sig => String.eqb sig (hash_of (canonical_body m))
  end.
End signing.

(** ** The laundering ban *)

Inductive Input : Type :=
| File (l : Lane)
| ArgString (l : Lane)
| NoInput.

Definition tainted_input (i : Input) : bool :=
  match i with File Data | ArgString Data => true | _ => false end.

Definition resolve_exec_lane (e : Entry) (i : Input) : Lane :=
  if decide (author e = Agent) then Data
  else if interpreter e && tainted_input i then Data
  else if decide (tier e = Unsealed) then Data
  else Tool.

(** ** Histories of a manifest *)

Inductive op : Type :=
| OpAdmit (e : Entry)
| OpRevoke (h : hash).

Definition step (m : Manifest) (o : op) : Manifest :=
  match o with OpAdmit e => (admit_entry m e).2 | OpRevoke h => revoke m h end.

Definition run (ops : list op) (m : Manifest) : Manifest := foldl step m ops.

(** What a history says of a hash: its last admission, and whether any step
    revoked it. *)
Fixpoint last_admitted (ops : list op) (h : hash) (prior : option Entry) : option Entry :=
  match ops with
  | [] => prior
  | OpAdmit e :: rest => last_admitted rest h (if decide (e_hash e = h) then Some e else prior)
  | OpRevoke _ :: rest => last_admitted rest h prior
  end.

Definition ever_revoked (ops : list op) (h : hash) : bool :=
  existsb (fun o => match o with OpRevoke h' => String.eqb h' h | _ => false end) ops.

(** Entries are filed under their own hash. *)
Definition well_filed (m : Manifest) : Prop :=
  forall h e, entries m !! h = Some e -> e_hash e = h.

Lemma step_well_filed m o : well_filed m -> well_filed (step m o).
Proof.
  intros Hw h e. destruct o as [e'|h']; cbn; [|apply Hw]. intros H.
  destruct (decide (e_hash e' = h)) as [<-|Hne]; simplify_map_eq; auto.
Qed.

Lemma run_well_filed ops m : well_filed m -> well_filed (run ops m).
Proof.
  revert m. induction ops as [|o ops IH]; intros m Hm; cbn; [done|].
  by apply IH, step_well_filed.
Qed.

Lemma new_well_filed : well_filed new.
Proof. intros h e H. cbn in H. by simplify_map_eq. Qed.

Lemma run_entries ops m h :
  entries (run ops m) !! h = last_admitted ops h (entries m !! h).
Proof.
  revert m. induction ops as [|[e|h'] ops IH]; intros m; cbn; [done| |];
    unfold run in IH; rewrite IH; [|done].
  cbn. case_decide as Hd; [subst|]; by simplify_map_eq.
Qed.

Lemma run_revoked ops m h :
  h ∈ revoked (run ops m) <-> h ∈ revoked m \/ ever_revoked ops h = true.
Proof.
  revert m. induction ops as [|[e|h'] ops IH]; intros m; cbn.
  - naive_solver.
  - unfold run in IH. rewrite IH. done.
  - unfold run in IH. rewrite IH. cbn. rewrite orb_true_iff, String.eqb_eq. set_solver.
Qed.

(** C28: over any history of admissions and revocations of a fresh manifest, the
    exec-by-hash gate permits exactly the last admitted entry of a hash that no
    step ever revoked, so re-admission does not undo a revocation; each refusal
    names its reason. *)
Theorem exec_gate_history (ops : list op) (h : hash) :
  permit_exec (run ops new) h =
    if ever_revoked ops h then Err (Revoked h)
    else match last_admitted ops h None with
         | Some e => Ok e
         | None => Err (Unattested h)
         end.
Proof.
  unfold permit_exec, is_revoked. rewrite run_entries.
  assert (Hr : bool_decide (h ∈ revoked (run ops new)) = ever_revoked ops h).
  { destruct (ever_revoked ops h) eqn:E.
    - apply bool_decide_eq_true, run_revoked. by right.
    - apply bool_decide_eq_false. rewrite run_revoked, E. set_solver. }
  rewrite Hr. replace (entries new !! h) with (@None Entry) by (cbn; by rewrite lookup_empty).
  by destruct (last_admitted ops h None).
Qed.

Lemma resolve_alias_sound m a e :
  resolve_alias m a = Some e ->
  alias e = a /\ e_hash e ∉ revoked m /\ exists h, entries m !! h = Some e.
Proof.
  unfold resolve_alias. intros H.
  apply fmap_Some in H as [[i e'] [H ->]]. apply list_find_Some in H as (Hi & Hp & _).
  apply Is_true_true in Hp. apply andb_true_iff in Hp as [Ha Hr].
  apply String.eqb_eq in Ha. apply negb_true_iff, bool_decide_eq_false in Hr.
  split; [done|]. split; [done|]. apply btree_values_elem, list_elem_of_lookup. by exists i.
Qed.

(** On every reachable manifest an alias resolves to an entry the exec gate
    permits, and it resolves whenever some permitted entry carries it: revoked
    entries neither come back under an alias nor hide a live one. *)
Theorem resolve_alias_permitted (ops : list op) (a : string) :
  (forall e, resolve_alias (run ops new) a = Some e ->
     alias e = a /\ permit_exec (run ops new) (e_hash e) = Ok e) /\
  (resolve_alias (run ops new) a = None ->
     forall h e, permit_exec (run ops new) h = Ok e -> alias e <> a).
Proof.
  pose proof (run_well_filed ops new new_well_filed) as Hw.
  set (m := run ops new) in *. split.
  - intros e He. destruct (resolve_alias_sound _ _ _ He) as (Ha & Hr & h & Hh).
    split; [done|]. pose proof (Hw _ _ Hh) as <-.
    unfold permit_exec, is_revoked. by rewrite bool_decide_eq_false_2, Hh by done.
  - intros Hnone h e Hp Ha. unfold permit_exec, is_revoked in Hp.
    case_bool_decide as Hr; [done|]. apply ok_or_Ok in Hp.
    unfold resolve_alias in Hnone. apply fmap_None, list_find_None in Hnone.
    rewrite Forall_forall in Hnone. apply (Hnone e).
    + apply btree_values_elem. by exists h.
    + apply Is_true_true, andb_true_iff. split; [by apply String.eqb_eq|].
      apply negb_true_iff, bool_decide_eq_false. by rewrite (Hw _ _ Hp).
Qed.

(** The lane decision in full: an invocation keeps the tool lane exactly when
    its code is host-authored and sealed and it is not an interpreter fed
    tainted input; and more taint never buys more authority. *)
Theorem resolve_exec_lane_tool (e : Entry) (i : Input) :
  resolve_exec_lane e i = Tool <->
    author e = Host /\ tier e <> Unsealed /\ (interpreter e = true -> tainted_input i = false).
Proof.
  destruct e as [? ? [] [] [] ?], i as [[]|[]|]; cbn; naive_solver.
Qed.

Section signing_lemmas.
Context `{Blake3} `{Json Manifest}.

(** A signed manifest verifies; any admission or revocation makes it
    unverifiable until it is signed again; and one signature that verifies two
    manifests verifies the same entries and revocations, unless the digests of
    those two bodies collide. *)
Theorem standin_signature (m m' : Manifest) (o : op) :
  verify_standin (sign_standin m) = true /\
  verify_standin (step (sign_standin m) o) = false /\
  (verify_standin m && verify_standin m' && bool_decide (signature m = signature m') = true ->
   (entries m = entries m' /\ revoked m = revoked m') \/
   collides (canonical_body m) (canonical_body m')).
Proof.
  split_and!; [apply String.eqb_refl|by destruct o|]. unfold verify_standin.
  rewrite !andb_true_iff. intros [[V V'] E%bool_decide_eq_true]. rewrite <- E in V'.
  destruct (signature m) as [sg|]; [|done]. reflect. rewrite V in V'.
  destruct (hash_of_inj _ _ V') as [Hb|]; [left|by right].
  unfold canonical_body in Hb. by injection (to_vec_inj _ _ Hb) as <- <-.
Qed.
End signing_lemmas.
