(* ===== verification/Host.v ===== *)
(** * The host of the router and the dispatcher

    What the components of [celln-cli] that keep durable records share: a file system
    whose calls may fail and whose clock is the wall clock, the network they forward
    to, and the monad in which they run. A path is a directory and a name in it. *)

From S2P Require Import Prelude Text.

(** The errors that the code tells apart; [Absent] is the one that the [lost] flag of
    [router_scoped.rs] remembers. *)
Inductive Error : Type := NotFound | AlreadyExists | Absent | Failed.

(** A regular file and its modification time. *)
Record File : Type := mkFile { content : bytes; modified : Z }.
Abbreviation Path := (string * string)%type.

(** A system call: whether it fails, and the wall clock after it, which may have been
    set back. *)
Record Call : Type := mkCall { fails : bool; wall : Z }.

(** What becomes of a request: no connection, a connection that is lost, the bytes of a
    whole answer. *)
Inductive Answer : Type := NoConnection | Lost | Answered (response : string).

(** A request written to a connection that was made. *)
Record Delivery : Type := mkDelivery {
  to : string;
  d_method : string;
  target : string;
  bearer : option string;
  permits : list (string * string);
  respond_async : bool;
  body : bytes;
}.

(** [views] is what each look at the discovered backends will find, [draws] what each
    random draw will give. *)
Record Network : Type := mkNetwork {
  answers : list Answer;
  sent : list Delivery;
  views : list (list string);
  draws : list Z;
}.

Record World : Type := mkWorld {
  files : gmap Path File;
  now : Z;
  calls : list Call;
  net : Network;
}.

Definition IO (A : Type) : Type := World -> result Error A * World.
#[export] Instance IO_ret : MRet IO := fun A a w => (Ok a, w).
#[export] Instance IO_bind : MBind IO := fun A B f m w =>
  match m w with (Ok a, w) => f a w | (Err e, w) => (Err e, w) end.

Definition fail {A} (e : Error) : IO A := fun w => (Err e, w).
Definition lift {A} (r : result Error A) : IO A := fun w => (r, w).
Definition guard (c : bool) (e : Error) : IO unit := lift (ensure c e).
Definition need {A} (o : option A) : IO A := lift (ok_or o Failed).

(** [match m { Ok(a) => ..., Err(e) => ... }]. *)
Definition catch {A} (m : IO A) : IO (result Error A) := fun w => let '(r, w) := m w in (Ok r, w).

(** ** System calls *)

(** Whether the next call fails; the clock moves with it. *)
Definition call : IO bool := fun w =>
  match calls w with
  | c :: cs => (Ok (fails c), mkWorld (files w) (wall c) cs (net w))
  | [] => (Ok false, w)
  end.
Definition sys : IO unit := f ← call; guard (negb f) Failed.

Definition clock : IO Z := fun w => (Ok (now w), w).
Definition get_files : IO (gmap Path File) := fun w => (Ok (files w), w).
Definition put_files (fs : gmap Path File) : IO unit := fun w =>
  (Ok tt, mkWorld fs (now w) (calls w) (net w)).

(** [File::open] for reading, [None] being [ErrorKind::NotFound]; the file that was
    opened keeps its content whatever becomes of the name. *)
Definition open_file (p : Path) : IO (option File) := _ ← sys; fs ← get_files; mret (fs !! p).

(** At most [n] bytes of an open file. *)
Definition read_file (f : File) (n : Z) : IO bytes := _ ← sys; mret (take_bytes n (content f)).

(** A file that is created, written and synced under a temporary name no record has,
    then linked under a free name or renamed over what is there, and the sync of the
    directory, which may fail when the record is already visible. *)
Definition persist (p : Path) (b : bytes) (fresh : bool) : IO unit :=
  _ ← sys; _ ← sys; t ← clock; _ ← sys;
  _ ← sys; fs ← get_files;
  if fresh && is_Some_bool (fs !! p) then fail AlreadyExists else
  _ ← put_files (<[p := mkFile b t]> fs); sys.

(** [fs::remove_file]: whether there was one. *)
Definition remove_file (p : Path) : IO bool :=
  _ ← sys; fs ← get_files;
  match fs !! p with
  | Some _ => _ ← put_files (delete p fs); mret true
  | None => mret false
  end.

(** The names of [fs::read_dir], each with whether reading that entry fails. *)
Definition names_in (d : string) (fs : gmap Path File) : list string :=
  (filter (fun p => p.1 = d) (map_to_list fs).*1).*2.

(** [path.extension()], [path.with_extension(e)]: a name that starts with its only dot
    has no extension. *)
Definition extension (name : string) : option string :=
  match rsplit_once "." name with
  | Some (stem, ext) => if str_is_empty stem then None else Some ext
  | None => None
  end.
Definition file_stem (name : string) : string :=
  match rsplit_once "." name with
  | Some (stem, _) => if str_is_empty stem then name else stem
  | None => name
  end.
Definition with_extension (e : string) (p : Path) : Path := (p.1, (file_stem p.2 ++ "." ++ e)%string).
Definition has_extension (e name : string) : bool := bool_decide (extension name = Some e).

(** [.filter(|e| e.map_or(true, |e| extension == "json")).take(cap).count()]: an entry
    that cannot be read counts. *)
Fixpoint count_records (cap n : Z) (names : list string) : IO Z :=
  if cap <=? n then mret n else
  match names with
  | [] => mret n
  | name :: names =>
      f ← call;
      count_records cap (if f || has_extension "json" name then n + 1 else n) names
  end.

(** ** The network *)

(** A step of the network. *)
Definition on_net {A} (f : Network -> A * Network) : IO A := fun w =>
  let '(a, n) := f (net w) in (Ok a, mkWorld (files w) (now w) (calls w) n).

(** One request: it is delivered when the connection is made, whatever comes back. *)
Definition exchange (d : Delivery) : IO Answer := on_net (fun n =>
  match answers n with
  | [] => (NoConnection, n)
  | NoConnection :: rest => (NoConnection, mkNetwork rest (sent n) (views n) (draws n))
  | a :: rest => (a, mkNetwork rest (sent n ++ [d]) (views n) (draws n))
  end).

Definition view : IO (list string) := on_net (fun n =>
  match views n with
  | [] => ([], n)
  | v :: rest => (v, mkNetwork (answers n) (sent n) rest (draws n))
  end).
Definition draw : IO Z := on_net (fun n =>
  match draws n with
  | [] => (0, n)
  | z :: rest => (z, mkNetwork (answers n) (sent n) (views n) rest)
  end).

(** ** Reasoning *)

(** [m] run in [w] ends in a result and a world of which [Q] holds. *)
Definition wp {A} (m : IO A) (w : World) (Q : result Error A -> World -> Prop) : Prop := Q (m w).1 (m w).2.

Lemma wp_run {A} (m : IO A) w Q r w' : wp m w Q -> m w = (r, w') -> Q r w'.
Proof. unfold wp. intros Hm E. by rewrite E in Hm. Qed.

Lemma wp_mono {A} (m : IO A) w (Q Q' : result Error A -> World -> Prop) :
  wp m w Q -> (forall r w', Q r w' -> Q' r w') -> wp m w Q'.
Proof. unfold wp. auto. Qed.

Lemma wp_bind {A B} (m : IO A) (f : A -> IO B) w Q :
  wp m w (fun r w' => match r with Ok a => wp (f a) w' Q | Err e => Q (Err e) w' end) -> wp (m ≫= f) w Q.
Proof. unfold wp, mbind, IO_bind. destruct (m w) as [[a|e] w']; done. Qed.

Lemma wp_ret {A} (a : A) w (Q : result Error A -> World -> Prop) : Q (Ok a) w -> wp (mret a) w Q.
Proof. done. Qed.
Lemma wp_fail {A} e w (Q : result Error A -> World -> Prop) : Q (Err e) w -> wp (fail e) w Q.
Proof. done. Qed.
Lemma wp_lift {A} (r : result Error A) w Q : Q r w -> wp (lift r) w Q.
Proof. done. Qed.
Lemma wp_guard c e w Q : (c = true -> Q (Ok tt) w) -> (c = false -> Q (Err e) w) -> wp (guard c e) w Q.
Proof. unfold wp, guard, lift. destruct c; cbn; auto. Qed.
Lemma wp_need {A} (o : option A) w Q :
  (forall a, o = Some a -> Q (Ok a) w) -> (o = None -> Q (Err Failed) w) -> wp (need o) w Q.
Proof. unfold wp, need, lift. destruct o; cbn; auto. Qed.
Lemma wp_catch {A} (m : IO A) w Q : wp m w (fun r w' => Q (Ok r) w') -> wp (catch m) w Q.
Proof. unfold wp, catch. by destruct (m w). Qed.
Lemma wp_clock w Q : Q (Ok (now w)) w -> wp clock w Q.
Proof. done. Qed.
Lemma wp_files w Q : Q (Ok (files w)) w -> wp get_files w Q.
Proof. done. Qed.

(** A time that the clock of [w] shows or will show. *)
Definition shown (w : World) (t : Z) : Prop := t = now w \/ t ∈ wall <$> calls w.

(** [w'] is [w] later, with the same files and network. *)
Record later (w w' : World) : Prop := {
  later_files : files w' = files w;
  later_net : net w' = net w;
  later_shown t : shown w' t -> shown w t;
}.

#[export] Instance later_refl : Reflexive later.
Proof. by intros w. Qed.
#[export] Instance later_trans : Transitive later.
Proof. intros a b c [F S T] [F' S' T']. split; [congruence..|auto]. Qed.

Lemma wp_call w Q : (forall b w', later w w' -> Q (Ok b) w') -> wp call w Q.
Proof.
  intros HQ. unfold wp, call. destruct (calls w) as [|c cs] eqn:E; [by apply HQ|]. apply HQ. split; [done..|].
  intros t [->|Ht]; right; rewrite E; cbn; [by left|by right].
Qed.

Lemma wp_sys w Q : (forall w', later w w' -> Q (Ok tt) w') -> (forall w', later w w' -> Q (Err Failed) w') -> wp sys w Q.
Proof.
  intros H1 H2. apply wp_bind, wp_call. intros b w' Hw. apply wp_guard; intros _; [by apply H1|by apply H2].
Qed.

Lemma wp_put fs w Q : Q (Ok tt) (mkWorld fs (now w) (calls w) (net w)) -> wp (put_files fs) w Q.
Proof. done. Qed.

Lemma wp_open p w Q :
  (forall w', later w w' -> Q (Ok (files w !! p)) w') -> (forall w', later w w' -> Q (Err Failed) w') -> wp (open_file p) w Q.
Proof.
  intros H1 H2. apply wp_bind, wp_sys; [|done]. intros w' Hw. apply wp_bind, wp_files, wp_ret.
  rewrite (later_files _ _ Hw). auto.
Qed.

Lemma wp_read f n w Q :
  (forall w', later w w' -> Q (Ok (take_bytes n (content f))) w') -> (forall w', later w w' -> Q (Err Failed) w') ->
  wp (read_file f n) w Q.
Proof. intros H1 H2. apply wp_bind, wp_sys; [|done]. intros w' Hw. by apply wp_ret, H1. Qed.

(** [w'] is [w] later, with other files. *)
Record becomes (w w' : World) (fs : gmap Path File) : Prop := {
  becomes_files : files w' = fs;
  becomes_net : net w' = net w;
  becomes_shown t : shown w' t -> shown w t;
}.

Lemma later_becomes w w' : later w w' <-> becomes w w' (files w).
Proof. split; intros [??]; by split. Qed.
Lemma becomes_trans w w' w'' fs fs' : becomes w w' fs -> becomes w' w'' fs' -> becomes w w'' fs'.
Proof. intros [F S T] [F' S' T']. split; [done|congruence|auto]. Qed.
Lemma later_then w w' w'' fs : later w w' -> becomes w' w'' fs -> becomes w w'' fs.
Proof. intros H1%later_becomes H2. by eapply becomes_trans. Qed.

(** What [persist] does: nothing, or the record is there; it is there when it
    succeeds. *)
Lemma wp_persist p b fresh w Q :
  (forall w' t, shown w t -> (fresh = true -> files w !! p = None) -> becomes w w' (<[p := mkFile b t]> (files w)) ->
     Q (Ok tt) w' /\ Q (Err Failed) w') ->
  (forall w' e, later w w' -> Q (Err e) w') ->
  wp (persist p b fresh) w Q.
Proof.
  intros HQ HE. apply wp_bind, wp_sys; [intros w1 H1|auto]. apply wp_bind, wp_sys; [intros w2 H2|intros w2 H2; apply HE; by etransitivity].
  apply wp_bind, wp_clock. assert (H02 : later w w2) by (by etransitivity).
  apply wp_bind, wp_sys; [intros w3 H3|intros w3 H3; apply HE; by etransitivity].
  assert (H03 : later w w3) by (by etransitivity).
  apply wp_bind, wp_sys; [intros w4 H4|intros w4 H4; apply HE; by etransitivity].
  assert (H04 : later w w4) by (by etransitivity). apply wp_bind, wp_files. rewrite (later_files _ _ H04).
  destruct (fresh && is_Some_bool (files w !! p)) eqn:Ef; [apply wp_fail, HE, H04|].
  assert (Ht : shown w (now w2)) by (apply (later_shown _ _ H02); by left).
  assert (Hf : fresh = true -> files w !! p = None) by (intros ->; by destruct (files w !! p)).
  apply wp_bind, wp_put. apply wp_sys; intros w5 H5; (eapply HQ; [exact Ht|exact Hf|]);
    (split; [by rewrite (later_files _ _ H5)|rewrite (later_net _ _ H5); cbn; by rewrite (later_net _ _ H04)|]);
    intros t Hs; apply (later_shown _ _ H04); apply (later_shown _ _ H5) in Hs; exact Hs.
Qed.

Lemma wp_remove p w Q :
  (forall w', files w !! p = None -> later w w' -> Q (Ok false) w') ->
  (forall w', becomes w w' (delete p (files w)) -> Q (Ok true) w') ->
  (forall w', later w w' -> Q (Err Failed) w') ->
  wp (remove_file p) w Q.
Proof.
  intros H1 H2 H3. apply wp_bind, wp_sys; [|auto]. intros w' Hw. apply wp_bind, wp_files. rewrite (later_files _ _ Hw).
  destruct (files w !! p) eqn:E; [|by apply wp_ret, H1].
  apply wp_bind, wp_put, wp_ret, H2. split; [done|apply (later_net _ _ Hw)|apply (later_shown _ _ Hw)].
Qed.

Lemma wp_count cap n l w Q : (forall k w', later w w' -> Q (Ok k) w') -> wp (count_records cap n l) w Q.
Proof.
  revert n w. induction l as [|x l IH]; intros n w HQ; cbn [count_records]; destruct (cap <=? n); try by apply wp_ret, HQ.
  apply wp_bind, wp_call. intros b w' Hw. apply IH. intros k w'' Hw'. apply HQ. by etransitivity.
Qed.

Lemma wp_on_net {A} (f : Network -> A * Network) w Q :
  Q (Ok (f (net w)).1) (mkWorld (files w) (now w) (calls w) (f (net w)).2) -> wp (on_net f) w Q.
Proof. unfold wp, on_net. by destruct (f (net w)). Qed.
