(* ===== verification/Ownership.v ===== *)
(** * The ownership ledger ([crates/celln-cli/src/router_ownership.rs])

    The durable binding of an identity to one backend, shared by the replicas of the
    router: a directory with one record for each identity, written under the
    directory's lock before anything is sent for it. A record leaves only through
    retirement, once it is older than the quarantine. *)

From S2P Require Import Prelude Text Manifest Host.

Record Owner : Type := mkOwner { version : Z; backend : string; body_hash : string }.
Record Ledger : Type := mkLedger { dir : string; capacity : Z }.
Inductive Claim : Type := New (o : Owner) | Existing (o : Owner) | Conflict | Full.

#[export] Instance Owner_eq_dec : EqDecision Owner.
Proof. solve_decision. Defined.

(** [backend_to_addr] of the router, the form every recorded backend has. *)
Definition forbidden (b : byte) : bool := existsb (fun c => bool_decide (b = c)) [x2f; x40; x3f; x23].
Fixpoint has_whitespace (b : bytes) : bool :=
  match b with [] => false | _ :: r => is_Some_bool (ws_rest b) || has_whitespace r end.
Definition backend_to_addr (backend : string) : option string :=
  host ← strip_prefix "http://" backend;
  if str_is_empty host || existsb forbidden (as_bytes host) || has_whitespace (as_bytes host) then None
  else Some (if has_char ":" host then host else (host ++ ":80")%string).

Section ledger.
Context `{Blake3} `{Json Owner}.

(** [Ledger::open], for a directory that could be made and synced. *)
Definition open (dir : string) (capacity : Z) : IO Ledger :=
  _ ← guard (negb (capacity =? 0)) Failed; _ ← sys; _ ← sys; _ ← sys; mret (mkLedger dir capacity).

Definition path (l : Ledger) (id : string) : Path :=
  (dir l, (trim_start_matches "blake3:" (hash_of (as_bytes id)) ++ ".json")%string).

Definition lookup (l : Ledger) (id : string) : IO (option Owner) :=
  f ← open_file (path l id);
  match f with
  | None => mret None
  | Some f =>
      b ← read_file f 4097;
      _ ← guard (negb (4096 <? blen b)) Failed;
      owner ← need (from_slice b);
      _ ← guard (negb (negb (version owner =? 1) || (1024 <? str_len (backend owner)))) Failed;
      _ ← need (backend_to_addr (backend owner));
      mret (Some owner)
  end.

(** [Ledger::lock]: the lock file is made if missing; another holder refuses. *)
Definition lock (l : Ledger) : IO unit :=
  _ ← sys; fs ← get_files; t ← clock;
  _ ← (if is_Some_bool (fs !! (dir l, "ownership.lock")) then mret tt
       else put_files (<[(dir l, "ownership.lock") := mkFile [] t]> fs));
  sys.

(** [claim] under the lock. *)
Definition claim_locked (l : Ledger) (id : string) (body : bytes) (choose : IO string) : IO Claim :=
  o ← lookup l id;
  match o with
  | Some owner => mret (if String.eqb (body_hash owner) (hash_of body) then Existing owner else Conflict)
  | None =>
      _ ← sys; fs ← get_files;
      count ← count_records (capacity l) 0 (names_in (dir l) fs);
      if capacity l <=? count then mret Full else
      b ← choose;
      _ ← guard (negb (1024 <? str_len b)) Failed;
      let owner := mkOwner 1 b (hash_of body) in
      _ ← persist (path l id) (to_vec owner) true;
      mret (New owner)
  end.

Definition claim (l : Ledger) (id : string) (body : bytes) (choose : IO string) : IO Claim :=
  _ ← lock l; claim_locked l id body choose.

Definition retired_path (l : Ledger) (id : string) : Path := with_extension "retired" (path l id).

(** [aged]: a clock that moved backwards leaves the record in quarantine. *)
Definition aged (record : Path) (quarantine : Z) : IO bool :=
  f ← open_file record;
  match f with
  | None => fail NotFound
  | Some f => t ← clock; mret ((modified f <=? t) && (quarantine <=? t - modified f))
  end.

Definition remove_locked (record : Path) : IO bool :=
  removed ← remove_file record;
  _ ← remove_file (with_extension "retired" record);
  _ ← sys; mret removed.

Definition retire (l : Ledger) (id : string) (quarantine : Z) : IO bool :=
  _ ← lock l;
  a ← catch (aged (path l id) quarantine);
  match a with
  | Ok true => remove_locked (path l id)
  | Ok false =>
      _ ← sys; fs ← get_files; t ← clock;
      _ ← put_files (<[retired_path l id := mkFile [] t]> fs);
      _ ← sys; _ ← sys; mret false
  | Err NotFound => mret false
  | Err e => fail e
  end.

(** The loop of [sweep_retired]. *)
Fixpoint sweep_markers (l : Ledger) (quarantine : Z) (names : list string) (removed : Z) : IO Z :=
  match names with
  | [] => mret removed
  | name :: names =>
      _ ← sys;
      if negb (has_extension "retired" name) then sweep_markers l quarantine names removed else
      let record := with_extension "json" (dir l, name) in
      a ← catch (aged record quarantine);
      match a with
      | Ok false => sweep_markers l quarantine names removed
      | Ok true =>
          r ← remove_locked record;
          sweep_markers l quarantine names (removed + if r : bool then 1 else 0)
      | Err NotFound => _ ← remove_locked record; sweep_markers l quarantine names removed
      | Err e => fail e
      end
  end.

Definition sweep_retired (l : Ledger) (quarantine : Z) : IO Z :=
  _ ← lock l; _ ← sys; fs ← get_files; sweep_markers l quarantine (names_in (dir l) fs) 0.

(** ** What an operation leaves *)

(** A question about a backend's health. *)
Definition probe (d : Delivery) : Prop := d_method d = "GET" /\ target d = "/v1/health".

(** Time has passed, and only backends were asked for their health. *)
Record since (w w' : World) : Prop := {
  since_shown t : shown w' t -> shown w t;
  since_sent : exists l, sent (net w') = sent (net w) ++ l /\ Forall probe l;
}.

#[export] Instance since_refl : Reflexive since.
Proof. intros w. split; [done|]. exists []. by rewrite app_nil_r. Qed.
#[export] Instance since_trans : Transitive since.
Proof.
  intros a b c [S (l & E & P)] [S' (l' & E' & P')]. split; [auto|]. exists (l ++ l').
  split; [by rewrite E', E, app_assoc|by apply Forall_app].
Qed.

Lemma later_since w w' : later w w' -> since w w'.
Proof. intros [_ N S]. split; [done|]. exists []. by rewrite N, app_nil_r. Qed.
Lemma becomes_since w w' fs : becomes w w' fs -> since w w'.
Proof. intros [_ N S]. split; [done|]. exists []. by rewrite N, app_nil_r. Qed.

(** A new file has a time that the clock showed. *)
Definition dated (p : Path) (w w' : World) : Prop :=
  forall f, files w' !! p = Some f -> files w !! p = Some f \/ shown w (modified f).

Lemma dated_trans p a b c : since a b -> dated p a b -> dated p b c -> dated p a c.
Proof.
  intros S D D' f Hf. destruct (D' f Hf) as [Hb|Hs]; [by apply D|]. right. by apply (since_shown _ _ S).
Qed.

(** A file that was there still is. *)
Definition kept (p : Path) (w w' : World) : Prop :=
  (forall f, files w !! p = Some f -> files w' !! p = Some f) /\ dated p w w' /\ since w w'.

#[export] Instance kept_refl p : Reflexive (kept p).
Proof. intros w. split; [done|]. split; [by left|done]. Qed.
#[export] Instance kept_trans p : Transitive (kept p).
Proof.
  intros a b c (F & D & S) (F' & D' & S'). split; [auto|]. split; [by eapply dated_trans|by transitivity b].
Qed.

Lemma becomes_kept p w w' fs : becomes w w' fs -> (forall f, files w !! p = Some f -> fs !! p = Some f) ->
  (forall f, fs !! p = Some f -> files w !! p = Some f \/ shown w (modified f)) -> kept p w w'.
Proof.
  intros B Hf Hd. unfold kept, dated. rewrite (becomes_files _ _ _ B). split; [done|]. split; [done|]. by eapply becomes_since.
Qed.
Lemma later_kept p w w' : later w w' -> kept p w w'.
Proof. intros L. apply (becomes_kept _ _ _ (files w)); [by apply later_becomes|done|by left]. Qed.

Fixpoint last_char (s : string) : option ascii :=
  match s with
  | EmptyString => None
  | String a EmptyString => Some a
  | String _ s => last_char s
  end.

Lemma last_char_app a b : b <> "" -> last_char (a ++ b)%string = last_char b.
Proof.
  intros Hb. induction a as [|x a IH]; [done|]. change ((String x a ++ b)%string) with (String x (a ++ b)%string).
  cbn [last_char]. rewrite IH. destruct (a ++ b)%string eqn:E; [|done]. by destruct a, b.
Qed.

(** A name of a record, and of no other file of the directory. *)
Definition record_path (p : Path) : Prop := last_char p.2 = Some "n"%char.

Lemma path_record l id : record_path (path l id).
Proof. unfold record_path, path. cbn [snd]. by rewrite last_char_app. Qed.
Lemma lock_not_record l p : record_path p -> p <> (dir l, "ownership.lock").
Proof. by intros Hp ->. Qed.
Lemma marker_not_record p p' : record_path p -> p <> with_extension "retired" p'.
Proof. intros Hp ->. unfold record_path, with_extension in Hp. cbn [snd] in Hp. by rewrite !last_char_app in Hp. Qed.

(** ** The operations *)

Definition stored (fs : gmap Path File) (p : Path) : option Owner := f ← fs !! p; from_slice (content f).

(** The record under [p] is the same, present or not. *)
Definition same (p : Path) (w w' : World) : Prop :=
  files w' !! p = files w !! p /\ since w w'.

Lemma later_same p w w' : later w w' -> same p w w'.
Proof. intros L. split; [by rewrite (later_files _ _ L)|by apply later_since]. Qed.
Lemma same_kept p w w' : same p w w' -> kept p w w'.
Proof. intros [F S]. unfold kept, dated. rewrite F. split; [done|]. split; [by left|done]. Qed.
Lemma same_trans p a b c : same p a b -> same p b c -> same p a c.
Proof. intros [F S] [F' S']. split; [congruence|by transitivity b]. Qed.
Lemma becomes_same p w w' fs : becomes w w' fs -> fs !! p = files w !! p -> same p w w'.
Proof. intros B E. split; [by rewrite (becomes_files _ _ _ B)|by eapply becomes_since]. Qed.

(** Every record is the same. *)
Definition calm (w w' : World) : Prop := forall p, record_path p -> same p w w'.

Lemma later_calm w w' : later w w' -> calm w w'.
Proof. intros L p _. by apply later_same. Qed.
Lemma calm_trans a b c : calm a b -> calm b c -> calm a c.
Proof. intros H1 H2 p Hp. eapply same_trans; eauto. Qed.
Lemma becomes_calm w w' fs : becomes w w' fs -> (forall p, record_path p -> fs !! p = files w !! p) -> calm w w'.
Proof. intros B E p Hp. eapply becomes_same; [exact B|auto]. Qed.

Lemma put_becomes fs w : becomes w (mkWorld fs (now w) (calls w) (net w)) fs.
Proof. by split. Qed.

Lemma wp_lock l w Q : (forall r w', calm w w' -> (forall e, r = Err e -> e = Failed) -> Q r w') -> wp (lock l) w Q.
Proof.
  intros HQ. apply wp_bind, wp_sys; [intros w1 L1%later_calm|intros w1 L1%later_calm; apply HQ; naive_solver].
  apply wp_bind, wp_files. apply wp_bind, wp_clock. apply wp_bind.
  enough (HS : forall w2, calm w w2 -> wp sys w2 Q).
  { destruct (is_Some_bool _); [by apply wp_ret, HS|]. apply wp_put, HS. eapply calm_trans; [exact L1|].
    eapply becomes_calm; [apply put_becomes|]. intros p Hp. apply lookup_insert_ne. intros E. by apply (lock_not_record l p). }
  intros w2 C2. apply wp_sys; intros w3 L3%later_calm; (apply HQ; [by eapply calm_trans|naive_solver]).
Qed.

(** [lookup] reads the record, if it can. *)
Lemma wp_lookup l id w Q :
  (forall w', files w !! path l id = None -> later w w' -> Q (Ok None) w') ->
  (forall o w', stored (files w) (path l id) = Some o -> later w w' -> Q (Ok (Some o)) w') ->
  (forall w', later w w' -> Q (Err Failed) w') ->
  wp (lookup l id) w Q.
Proof.
  intros HN HS HE. apply wp_bind, wp_open; [intros w1 L1|auto].
  destruct (files w !! path l id) as [f|] eqn:Ef; [|by apply wp_ret, HN].
  apply wp_bind, wp_read; [intros w2 L2|intros w2 L2; apply HE; by etransitivity].
  assert (L : later w w2) by by etransitivity.
  apply wp_bind, wp_guard; [intros Hl%negb_true_iff%Z.ltb_ge|auto].
  rewrite take_bytes_le in Hl by lia. rewrite take_bytes_all by lia.
  apply wp_bind, wp_need; [intros o Ho|auto]. apply wp_bind, wp_guard; [intros _|auto].
  apply wp_bind, wp_need; [intros _ _|auto]. apply wp_ret, HS; [|done]. unfold stored. by rewrite Ef.
Qed.

(** A relation between worlds that keeping a file satisfies. *)
Class Frame (p : Path) (R : relation World) : Prop := {
  frame_order : PreOrder R;
  frame_kept w w' : kept p w w' -> R w w';
  frame_since w w' : R w w' -> since w w';
}.

#[export] Instance kept_frame p : Frame p (kept p).
Proof. split; [split; apply _|done|by intros w w' (_ & _ & ?)]. Qed.

(** What choosing a backend may do, and the backends it may choose. *)
Definition chooses (choose : IO string) (R : relation World) (C : string -> Prop) : Prop :=
  forall w, wp choose w (fun r w' => R w w' /\ match r with Ok b => C b | Err _ => True end).

Definition claimed (l : Ledger) (id : string) (body : bytes) (C : string -> Prop) (w w' : World) (c : Claim) : Prop :=
  match c with
  | New o =>
      files w !! path l id = None /\ C (backend o) /\ body_hash o = hash_of body /\
      exists m, shown w m /\ files w' !! path l id = Some (mkFile (to_vec o) m)
  | Existing o => stored (files w) (path l id) = Some o /\ body_hash o = hash_of body
  | Conflict => exists o, stored (files w) (path l id) = Some o /\ body_hash o <> hash_of body
  | Full => files w !! path l id = None
  end.

Lemma claimed_same l id body C w w1 w' c :
  same (path l id) w w1 -> claimed l id body C w1 w' c -> claimed l id body C w w' c.
Proof.
  intros [F S]. unfold claimed, stored. rewrite F. destruct c; try done. intros (? & ? & ? & m & Hm & ?).
  split_and!; [done..|]. exists m. split; [by apply (since_shown _ _ S)|done].
Qed.

Lemma wp_claim_locked l id body choose C p R w : Frame p R -> chooses choose R C ->
  wp (claim_locked l id body choose) w (fun r w' => R w w' /\ match r with Ok c => claimed l id body C w w' c | Err _ => True end).
Proof.
  intros HR Hc. pose proof frame_order as HO. assert (HL : forall a b, later a b -> R a b) by (intros; by apply (frame_kept (p := p)), later_kept).
  apply wp_bind, wp_lookup; [|intros o w1 Ho L1%HL|intros w1 L1%HL; done].
  - intros w1 HN L1. apply wp_bind, wp_sys; [intros w2 L2|intros w2 L2; split; [|done]; apply HL; by etransitivity].
    apply wp_bind, wp_files. apply wp_bind, wp_count. intros n w3 L3.
    assert (L : later w w3) by (by do 2 (etransitivity; [eassumption|])). clear w1 w2 L1 L2 L3.
    destruct (capacity l <=? n); [by apply wp_ret; split; [apply HL|]|].
    apply wp_bind. eapply wp_mono; [apply Hc|]. intros [b|e] w4 [K4 Hb]; (assert (K : R w w4) by (by transitivity w3; [apply HL|])); [|done].
    apply wp_bind, wp_guard; [intros _|done]. cbv zeta. apply wp_bind, wp_persist; [|intros w5 e L5%HL; split; [by transitivity w4|done]].
    intros w5 t Ht Hf B.
    assert (K5 : R w w5).
    { transitivity w4; [done|]. apply (frame_kept (p := p)). eapply becomes_kept; [exact B|..]; intros f Hf'.
      - destruct (decide (path l id = p)) as [<-|Hne]; [rewrite Hf in Hf'; done|by rewrite lookup_insert_ne].
      - apply lookup_insert_Some in Hf' as [[_ <-]|[_ Hf']]; [by right|by left]. }
    split; [|done]. apply wp_ret. split; [done|]. split; [done|]. split; [done|]. split; [done|].
    exists t. split; [by apply (since_shown _ _ (frame_since (p := p) _ _ K))|].
    rewrite (becomes_files _ _ _ B). apply lookup_insert_eq.
  - apply wp_ret. split; [done|]. destruct (String.eqb_spec (body_hash o) (hash_of body)) as [E|E]; [done|]. by exists o.
Qed.

Lemma wp_claim l id body choose C p R w : record_path p -> Frame p R -> chooses choose R C ->
  wp (claim l id body choose) w (fun r w' => R w w' /\ match r with Ok c => claimed l id body C w w' c | Err _ => True end).
Proof.
  intros Hp HR Hc. pose proof frame_order as HO. apply wp_bind, wp_lock. intros [[]|e] w1 C1 _.
  all: assert (K1 : R w w1) by (by apply (frame_kept (p := p)), same_kept, C1).
  - eapply wp_mono; [by apply (wp_claim_locked l id body choose C p R)|]. intros r w' [K2 Hr].
    split; [by transitivity w1|]. destruct r; [|done]. eapply claimed_same; [apply C1, path_record|done].
  - by split.
Qed.

(** ** Retirement *)

(** The clock shows a time at which the quarantine of a file is over. *)
Definition expired (q : Z) (f : File) (w : World) : Prop := exists t, shown w t /\ q <= t - modified f.

(** A file that was there still is, or it was in the directory [d] and its quarantine
    is over. *)
Definition shed (d : string) (q : Z) (p : Path) (f : File) (w w' : World) : Prop :=
  (files w !! p = Some f -> files w' !! p = Some f \/ (p.1 = d /\ expired q f w)) /\ dated p w w' /\ since w w'.

Lemma kept_shed d q p f w w' : kept p w w' -> shed d q p f w w'.
Proof. intros [F S]. split; [|done]. intros Hf. left. by apply F. Qed.
Lemma expired_mono q f w w' : since w w' -> expired q f w' -> expired q f w.
Proof. intros S (t & Ht & Hq). exists t. split; [by apply (since_shown _ _ S)|done]. Qed.
Lemma shed_trans d q p f a b c : shed d q p f a b -> shed d q p f b c -> shed d q p f a c.
Proof.
  intros (F & D & S) (F' & D' & S'). split; [|split; [by eapply dated_trans|by transitivity b]].
  intros Hf. destruct (F Hf) as [Hb|]; [|by right]. destruct (F' Hb) as [|[Hd He]]; [by left|]. right. split; [done|]. by eapply expired_mono.
Qed.

Lemma wp_aged r q w Q :
  (forall x w', later w w' ->
     match x with
     | Ok true => exists f, files w !! r = Some f /\ expired q f w'
     | Ok false => True
     | Err NotFound => files w !! r = None
     | Err _ => True
     end -> Q x w') -> wp (aged r q) w Q.
Proof.
  intros HQ. apply wp_bind, wp_open; [intros w1 L1|intros w1 L1; by apply HQ].
  destruct (files w !! r) as [f|] eqn:E; [|by apply wp_fail, HQ].
  apply wp_bind, wp_clock, wp_ret, HQ; [done|].
  destruct (_ && _) eqn:Eb; [|done]. apply andb_true_iff in Eb as [_ Hq%Z.leb_le].
  exists f. split; [done|]. exists (now w1). split; [by left|done].
Qed.

Lemma wp_remove_locked d r q p f w : record_path p -> r.1 = d ->
  (forall f', files w !! r = Some f' -> expired q f' w) ->
  wp (remove_locked r) w (fun _ w' => shed d q p f w w').
Proof.
  intros Hp Hd Hr. apply wp_bind. eapply wp_mono with (Q := fun _ w' => shed d q p f w w').
  - apply wp_remove; [intros w1 _ L1|intros w1 B1|intros w1 L1]; try by apply kept_shed, later_kept.
    unfold shed, dated. rewrite (becomes_files _ _ _ B1).
    split; [|split; [intros g [_ Hg]%lookup_delete_Some; by left|by eapply becomes_since]]. intros Hf. destruct (decide (r = p)) as [->|Hne].
    + right. split; [done|]. by apply Hr.
    + left. by rewrite lookup_delete_ne.
  - intros x w1 S1. assert (HE : forall w2, shed d q p f w1 w2 -> shed d q p f w w2) by (intros; by eapply shed_trans).
    destruct x; [|done]. apply wp_bind, wp_remove.
    + intros w2 _ L2. apply wp_bind, wp_sys; intros w3 L3; [apply wp_ret|]; apply HE, kept_shed, later_kept; by etransitivity.
    + intros w2 B2. assert (K2 : kept p w1 w2).
      { eapply becomes_kept; [exact B2|..]; intros f' Hf'.
      - rewrite lookup_delete_ne; [done|]. intros E. by apply (marker_not_record p r Hp).
      - apply lookup_delete_Some in Hf' as [_ Hf']. by left. }
      apply wp_bind, wp_sys; intros w3 L3; [apply wp_ret|]; apply HE, kept_shed; (transitivity w2; [done|by apply later_kept]).
    + intros w2 L2. by apply HE, kept_shed, later_kept.
Qed.

Lemma wp_retire l id q p f w : let d := dir l in record_path p -> wp (retire l id q) w (fun _ w' => shed d q p f w w').
Proof.
  intros d Hp. apply wp_bind, wp_lock. intros x w1 C1 _.
  assert (K1 : kept p w w1) by (by apply same_kept, C1).
  destruct x; [|by apply kept_shed]. apply wp_bind, wp_catch, wp_aged. intros y w2 L2 Hy.
  assert (K2 : kept p w w2) by (transitivity w1; [done|by apply later_kept]).
  assert (HE : forall w3, shed d q p f w2 w3 -> shed d q p f w w3) by (intros; by eapply shed_trans; [apply kept_shed|]).
  destruct y as [[|]|[]]; try by apply kept_shed.
  - eapply wp_mono; [eapply (wp_remove_locked d (path l id) q p f w2); [done..|]|naive_solver].
    intros f' Hf'. destruct Hy as (f'' & Hf'' & He). rewrite (later_files _ _ L2) in Hf'. by simplify_eq.
  - apply wp_bind, wp_sys; intros w3 L3; [|by apply HE, kept_shed, later_kept].
    apply wp_bind, wp_files. apply wp_bind, wp_clock. apply wp_bind, wp_put.
    set (w4 := mkWorld _ _ _ _). assert (K4 : kept p w2 w4).
    { transitivity w3; [by apply later_kept|]. assert (Hne : retired_path l id <> p) by (intros E; by apply (marker_not_record p (path l id) Hp)).
      eapply becomes_kept; [apply put_becomes|..]; intros f' Hf'; [by rewrite lookup_insert_ne|].
      rewrite lookup_insert_ne in Hf' by done. by left. }
    apply wp_bind, wp_sys; intros w5 L5; [|by apply HE, kept_shed; transitivity w4; [|apply later_kept]].
    apply wp_bind, wp_sys; intros w6 L6; [apply wp_ret|]; (apply HE, kept_shed; transitivity w4; [done|apply later_kept; by etransitivity]).
Qed.

Lemma wp_sweep_markers l q p f names n w : let d := dir l in record_path p -> wp (sweep_markers l q names n) w (fun _ w' => shed d q p f w w').
Proof.
  intros d Hp. revert n w. induction names as [|name names IH]; intros n w; cbn [sweep_markers].
  { apply wp_ret. by apply kept_shed. }
  apply wp_bind, wp_sys; [intros w1 L1|intros w1 L1; by apply kept_shed, later_kept].
  assert (HE : forall w1 w2, kept p w w1 -> shed d q p f w1 w2 -> shed d q p f w w2)
    by (intros; eapply shed_trans; [by apply kept_shed|done]).
  assert (K1 : kept p w w1) by (by apply later_kept).
  assert (HI : forall m w2, kept p w w2 -> wp (sweep_markers l q names m) w2 (fun _ w' => shed d q p f w w'))
    by (intros m w2 K2; eapply wp_mono; [apply IH|intros; by eapply HE]).
  destruct (negb _); [by apply HI|]. cbv zeta.
  apply wp_bind, wp_catch, wp_aged. intros y w2 L2 Hy.
  assert (K2 : kept p w w2) by (transitivity w1; [done|by apply later_kept]).
  assert (HR : forall B (k : bool -> IO B), (forall b w3, shed d q p f w w3 -> wp (k b) w3 (fun _ w' => shed d q p f w w')) ->
    (forall f', files w2 !! with_extension "json" (dir l, name) = Some f' -> expired q f' w2) ->
    wp (remove_locked (with_extension "json" (dir l, name)) ≫= k) w2 (fun _ w' => shed d q p f w w')).
  { intros B k Hk Hf. apply wp_bind. eapply wp_mono; [by apply (wp_remove_locked d _ q p f w2)|].
    intros x w3 S3. assert (shed d q p f w w3) by (by eapply HE). destruct x; [by apply Hk|done]. }
  assert (HJ : forall m w3, shed d q p f w w3 -> wp (sweep_markers l q names m) w3 (fun _ w' => shed d q p f w w'))
    by (intros m w3 S3; eapply wp_mono; [apply IH|intros; by eapply shed_trans]).
  destruct y as [[|]|[]]; try by apply kept_shed.
  - apply HR; [intros; by apply HJ|]. intros f' Hf'. destruct Hy as (f'' & Hf'' & He).
    rewrite (later_files _ _ L2) in Hf'. by simplify_eq.
  - by apply HI.
  - apply HR; [intros; by apply HJ|]. intros f' Hf'. rewrite (later_files _ _ L2) in Hf'. congruence.
Qed.

Lemma wp_sweep l q p f w : let d := dir l in record_path p -> wp (sweep_retired l q) w (fun _ w' => shed d q p f w w').
Proof.
  intros d Hp. apply wp_bind, wp_lock. intros x w1 C1 _.
  assert (K1 : kept p w w1) by (by apply same_kept, C1). destruct x; [|by apply kept_shed].
  apply wp_bind, wp_sys; intros w2 L2.
  - apply wp_bind, wp_files. eapply wp_mono; [by apply (wp_sweep_markers l q p f)|]. intros r w3 S3.
    eapply shed_trans; [|exact S3]. apply kept_shed. transitivity w1; [done|by apply later_kept].
  - apply kept_shed. transitivity w1; [done|by apply later_kept].
Qed.

(** ** Histories *)

Inductive op : Type :=
| Lookup (id : string)
| Bind (id : string) (body : bytes) (choose : IO string)
| Retire (id : string) (quarantine : Z)
| Sweep (quarantine : Z).

(** A replica has its own idea of the capacity. *)
Definition step (d : string) (w : World) (o : Z * op) : World :=
  let l := mkLedger d o.1 in
  match o.2 with
  | Lookup id => (lookup l id w).2
  | Bind id body choose => (claim l id body choose w).2
  | Retire id q => (retire l id q w).2
  | Sweep q => (sweep_retired l q w).2
  end.
Definition run (d : string) (w : World) (ops : list (Z * op)) : World := foldl (step d) w ops.

Definition quarantine_of (o : op) : option Z := match o with Retire _ q | Sweep q => Some q | _ => None end.

(** Choosing a backend leaves the records of the directory alone. *)
Definition tame (p : Path) (o : op) : Prop :=
  match o with Bind _ _ choose => chooses choose (kept p) (fun _ => True) | _ => True end.

(** The quarantine of a record made at [m] is not over while [ops] run. *)
Definition young (m : Z) (w : World) (o : op) : Prop :=
  forall q t, quarantine_of o = Some q -> shown w t -> t - m < q.

Lemma ledger_step_keeps d w o p f : record_path p -> tame p o.2 -> young (modified f) w o.2 -> files w !! p = Some f ->
  files (step d w o) !! p = Some f /\ since w (step d w o).
Proof.
  intros Hp Ht Hy Hf. destruct o as [cap o]. set (l := mkLedger d cap).
  assert (HS : forall q w', quarantine_of o = Some q -> shed d q p f w w' ->
    files w' !! p = Some f /\ since w w').
  { intros q w' Hq (F & _ & S). split; [|done]. destruct (F Hf) as [|(_ & t & Hs & Hle)]; [done|]. specialize (Hy q t Hq Hs). lia. }
  assert (HK : forall w', kept p w w' -> files w' !! p = Some f /\ since w w').
  { intros w' (F & _ & S). auto. }
  destruct o as [id|id body choose|id q|q]; cbn -[claim lookup retire sweep_retired]; fold l.
  - apply HK, later_kept. assert (HL : wp (lookup l id) w (fun _ w' => later w w')); [|exact HL].
    by apply wp_lookup.
  - apply HK. apply (wp_claim l id body choose (fun _ => True) p (kept p) w Hp _ Ht).
  - apply (HS q); [done|]. apply (wp_retire l id q p f w Hp).
  - apply (HS q); [done|]. apply (wp_sweep l q p f w Hp).
Qed.

Lemma young_mono m w w' o : since w w' -> young m w o -> young m w' o.
Proof. intros S Hy q t Hq Ht. apply (Hy q t Hq). by apply (since_shown _ _ S). Qed.

Lemma run_keeps d w ops p f : record_path p -> Forall (fun o => tame p o.2 /\ young (modified f) w o.2) ops ->
  files w !! p = Some f -> files (run d w ops) !! p = Some f.
Proof.
  intros Hp. revert w. induction ops as [|o ops IH]; intros w Ho Hf; [done|].
  apply Forall_cons in Ho as [[Ht Hy] Ho]. cbn. destruct (ledger_step_keeps d w o p f Hp Ht Hy Hf) as [Hf' Hs].
  apply IH; [|done]. eapply Forall_impl; [exact Ho|]. intros o' [H1 H2]. split; [done|]. by eapply young_mono.
Qed.

(** An identity has one owner. Once a claim has returned a new owner, whatever the
    replicas do to the ledger of the directory after that and whichever of their calls
    fail, and as long as no retirement or sweep among them sees the clock pass the
    quarantine of the record: a lookup that succeeds finds that owner, and a claim that
    succeeds never makes another. It returns the recorded owner exactly when the body
    has the recorded digest, and refuses any other. *)
Theorem owner_exclusive (l : Ledger) (id : string) (b : bytes) (choose : IO string) (w w1 : World) (o : Owner)
    (ops : list (Z * op)) (cap : Z) :
  claim l id b choose w = (Ok (New o), w1) ->
  chooses choose (kept (path l id)) (fun _ => True) ->
  Forall (fun x => tame (path l id) x.2 /\ forall m, shown w m -> young m w1 x.2) ops ->
  let w2 := run (dir l) w1 ops in let l' := mkLedger (dir l) cap in
  body_hash o = hash_of b /\ files w !! path l id = None /\
  (forall x w3, lookup l' id w2 = (Ok x, w3) -> x = Some o) /\
  (forall b' choose' c w3, chooses choose' (kept (path l id)) (fun _ => True) -> claim l' id b' choose' w2 = (Ok c, w3) ->
     (c = Existing o /\ (b' = b \/ collides b' b)) \/ (c = Conflict /\ b' <> b)).
Proof.
  intros Hc Hch Hops w2 l'.
  pose proof (wp_run _ _ _ _ _ (wp_claim l id b choose _ _ _ w (path_record l id) _ Hch) Hc) as [(_ & _ & Hs) (HN & _ & Hb & m & Hm & Hf)].
  assert (Hf2 : files w2 !! path l' id = Some (mkFile (to_vec o) m)).
  { apply run_keeps; [apply (path_record l id)| |exact Hf]. eapply Forall_impl; [exact Hops|].
    intros x [Ht Hy]. split; [exact Ht|]. by apply Hy. }
  assert (Hst : stored (files w2) (path l' id) = Some o) by (unfold stored; rewrite Hf2; cbn; apply from_to).
  split; [done|]. split; [done|]. split.
  - intros x w3 E. assert (HL : wp (lookup l' id) w2 (fun r _ => match r with Ok x => x = Some o | _ => True end)).
    { apply wp_lookup; [congruence|intros o' ? Ho' _; congruence|done]. }
    exact (wp_run _ _ _ _ _ HL E).
  - intros b' choose' c w3 Hch' E.
    pose proof (wp_run _ _ _ _ _ (wp_claim l' id b' choose' _ _ _ w2 (path_record l id) _ Hch') E) as [_ Hcl].
    destruct c as [o'|o'| |]; cbn in Hcl.
    + destruct Hcl as [? _]. congruence.
    + left. destruct Hcl as [Ho' Hb']. simplify_eq. split; [done|]. rewrite Hb in Hb'. apply hash_of_inj in Hb' as [->|[Hne E']]; [by left|].
      right. by split.
    + right. destruct Hcl as (o' & Ho' & Hne). simplify_eq. split; [done|]. intros ->. by rewrite Hb in Hne.
    + congruence.
Qed.
End ledger.
