(* ===== verification/Control.v ===== *)
(** * Cooperative execution control ([crates/celln-control/src/lib.rs])

    A [Control] is a shared node (an [Arc<Inner>]) of a tree: a deadline, an
    atomic stop code and a parent. The nodes live in one heap, so that a parent
    observed through a child is the parent everybody else holds. Every
    [Instant::now()] of the code is one [read_clock], which may advance the
    monotonic clock by any amount. *)

From S2P Require Import Prelude.

Record Inner : Type := mkInner {
  deadline : Z;
  stop : Z;
  parent : option nat;
}.

Inductive Stopped : Type := Cancelled | Deadline.

#[export] Instance Stopped_eq_dec : EqDecision Stopped.
Proof. solve_decision. Defined.

Definition stopped_to_string (s : Stopped) : string :=
  match s with
  | Cancelled => "execution cancelled"
  | Deadline => "execution deadline exceeded"
  end.

(** The heap of nodes, the current time, and how far each further reading of
    the clock will move it. *)
Record World : Type := mkWorld {
  heap : list Inner;
  now : Z;
  ticks : list N;
}.

Definition read_clock (w : World) : Z * World :=
  match ticks w with
  | [] => (now w, w)
  | d :: ds => let t := now w + Z.of_N d in (t, mkWorld (heap w) t ds)
  end.

(** [stop.compare_exchange(0, code)]. *)
Definition compare_exchange (w : World) (c : nat) (code : Z) : World :=
  match heap w !! c with
  | Some i =>
      if stop i =? 0
      then mkWorld (<[c := mkInner (deadline i) code (parent i)]> (heap w)) (now w) (ticks w)
      else w
  | None => w
  end.

Definition code_of (s : Stopped) : Z := match s with Cancelled => 1 | Deadline => 2 end.

(** The final [match self.0.stop.load()]. *)
Definition load_reason (w : World) (c : nat) : option Stopped :=
  match heap w !! c with
  | Some i => if stop i =? 1 then Some Cancelled else if stop i =? 2 then Some Deadline else None
  | None => None
  end.

(** [Control::new]: the handle is the index of the fresh node. *)
Definition new (w : World) (timeout : Z) : option nat * World :=
  let '(t, w) := read_clock w in
  match instant_checked_add t timeout with
  | None => (None, w)
  | Some d => (Some (length (heap w)), mkWorld (heap w ++ [mkInner d 0 None]) (now w) (ticks w))
  end.

(** [Control::child]. *)
Definition child (w : World) (c : nat) (timeout : Z) : option nat * World :=
  let '(t, w) := read_clock w in
  match instant_checked_add t timeout, heap w !! c with
  | Some d, Some i =>
      (Some (length (heap w)),
       mkWorld (heap w ++ [mkInner (Z.min d (deadline i)) 0 (Some c)]) (now w) (ticks w))
  | _, _ => (None, w)
  end.

(** [Control::reason]: ask the parent first, inherit its stop, then look at the
    own deadline, then load the code. A parent has a smaller index, so [S c]
    levels are enough ([reason_fuel_enough]). *)
Fixpoint reason_fuel (fuel : nat) (w : World) (c : nat) : option Stopped * World :=
  match fuel, heap w !! c with
  | S fuel, Some i =>
      let w1 :=
        match parent i with
        | Some p =>
            let '(r, w1) := reason_fuel fuel w p in
            match r with Some s => compare_exchange w1 c (code_of s) | None => w1 end
        | None => w
        end in
      let '(t, w2) := read_clock w1 in
      let w3 := if deadline i <=? t then compare_exchange w2 c 2 else w2 in
      (load_reason w3 c, w3)
  | _, _ => (None, w)
  end.

Definition reason (w : World) (c : nat) : option Stopped * World := reason_fuel (S c) w c.

#[global] Arguments reason : simpl never.

(** [Control::cancel]. *)
Definition cancel (w : World) (c : nat) : World := compare_exchange (reason w c).2 c 1.

(** [Control::check]: the error carries the text of the reason. *)
Definition check (w : World) (c : nat) : result string unit * World :=
  let '(r, w) := reason w c in
  (match r with Some s => Err (stopped_to_string s) | None => Ok tt end, w).

(** [Control::remaining]. *)
Definition remaining (w : World) (c : nat) : Z * World :=
  let '(t, w) := read_clock w in
  (match heap w !! c with Some i => duration_since (deadline i) t | None => 0 end, w).

(** The thread-local [CURRENT]: [scope] installs a control, runs the body and
    restores what was installed before, whatever the body installed. *)
Definition scope {A} (c : nat) (body : World -> option nat -> A * World * option nat)
    (w : World) (cur : option nat) : A * World * option nat :=
  let '(a, w', _) := body w (Some c) in (a, w', cur).

(** The free function [check()]. *)
Definition check_current (w : World) (cur : option nat) : result string unit * World :=
  match cur with Some c => check w c | None => (Ok tt, w) end.

(** ** Well-formed trees *)

(** A parent is older than its child and outlives it; codes are 0, 1 or 2. *)
Definition node_wf (h : list Inner) (c : nat) (i : Inner) : Prop :=
  (stop i = 0 \/ stop i = 1 \/ stop i = 2) /\
  match parent i with
  | None => True
  | Some p => (p < c)%nat /\ exists j, h !! p = Some j /\ deadline i <= deadline j
  end.

Definition wf (w : World) : Prop := forall c i, heap w !! c = Some i -> node_wf (heap w) c i.

(** The path from a node to its root. *)
Fixpoint chain_fuel (fuel : nat) (h : list Inner) (c : nat) : list nat :=
  match fuel, h !! c with
  | S fuel, Some i =>
      c :: match parent i with Some p => chain_fuel fuel h p | None => [] end
  | _, _ => []
  end.
Definition chain (w : World) (c : nat) : list nat := chain_fuel (S c) (heap w) c.

(** No node of the path carries a stop code. *)
Definition clear (w : World) (l : list nat) : Prop :=
  Forall (fun a => forall i, heap w !! a = Some i -> stop i = 0) l.

(** ** What every operation preserves: nodes stay, keep deadline and parent, a
    code once set stays, and the clock does not run backwards. *)
Definition node_le (i j : Inner) : Prop :=
  deadline j = deadline i /\ parent j = parent i /\ (stop i <> 0 -> stop j = stop i).

Definition advances (w w' : World) : Prop :=
  now w <= now w' /\
  forall c i, heap w !! c = Some i -> exists j, heap w' !! c = Some j /\ node_le i j.

Lemma advances_refl w : advances w w.
Proof. split; [lia|]. intros c i ?. exists i. by repeat split. Qed.

Lemma advances_trans w1 w2 w3 : advances w1 w2 -> advances w2 w3 -> advances w1 w3.
Proof.
  intros [T1 H1] [T2 H2]. split; [lia|]. intros c i Hi.
  destruct (H1 _ _ Hi) as (j & Hj & D1 & P1 & S1).
  destruct (H2 _ _ Hj) as (k & Hk & D2 & P2 & S2).
  exists k. repeat split; [done|congruence|congruence|].
  intros Hs. rewrite S2, S1; [done|done|]. by rewrite S1.
Qed.

#[export] Hint Resolve advances_refl : celln.
#[export] Instance advances_preorder : PreOrder advances.
Proof. split; [exact advances_refl|exact advances_trans]. Qed.

Lemma read_clock_spec w t w' :
  read_clock w = (t, w') -> t = now w' /\ heap w' = heap w /\ now w <= now w'.
Proof. unfold read_clock. destruct (ticks w); intros [= <- <-]; cbn; repeat split; lia. Qed.

Lemma read_clock_advances w : advances w (read_clock w).2.
Proof.
  destruct (read_clock w) as [t w'] eqn:E. apply read_clock_spec in E as (-> & Hh & Ht).
  split; [done|]. cbn. rewrite Hh. intros c i ?. exists i. by repeat split.
Qed.

Lemma compare_exchange_now w c code : now (compare_exchange w c code) = now w.
Proof. unfold compare_exchange. destruct (heap w !! c) as [i|]; [by destruct (stop i =? 0)|done]. Qed.

Lemma compare_exchange_ne w c d code :
  d <> c -> heap (compare_exchange w c code) !! d = heap w !! d.
Proof.
  intros Hne. unfold compare_exchange. destruct (heap w !! c) as [i|]; [|done].
  destruct (stop i =? 0); [|done]. cbn. by rewrite list_lookup_insert_ne.
Qed.

Lemma compare_exchange_eq w c i code :
  heap w !! c = Some i ->
  heap (compare_exchange w c code) !! c =
    Some (mkInner (deadline i) (if stop i =? 0 then code else stop i) (parent i)).
Proof.
  intros Hi. unfold compare_exchange. rewrite Hi. destruct (stop i =? 0) eqn:E.
  - cbn. apply list_lookup_insert_eq. by eapply lookup_lt_Some.
  - rewrite Hi. by destruct i.
Qed.

Lemma compare_exchange_advances w c code : advances w (compare_exchange w c code).
Proof.
  split; [by rewrite compare_exchange_now|]. intros d i Hi.
  destruct (decide (d = c)) as [->|Hne].
  - rewrite (compare_exchange_eq _ _ _ _ Hi). eexists. split; [done|].
    repeat split. cbn. intros Hs. by apply Z.eqb_neq in Hs as ->.
  - rewrite compare_exchange_ne by done. exists i. by repeat split.
Qed.

Lemma reason_fuel_advances fuel w c : advances w (reason_fuel fuel w c).2.
Proof.
  revert w c. induction fuel as [|fuel IH]; intros w c; cbn [reason_fuel]; [done|].
  destruct (heap w !! c) as [i|]; [|done].
  set (w1 := match parent i with Some p => _ | None => w end).
  assert (H1 : advances w w1).
  { subst w1. destruct (parent i) as [p|]; [|done].
    pose proof (IH w p) as Hp. destruct (reason_fuel fuel w p) as [[s|] w']; cbn in Hp; [|done].
    etrans; [done|apply compare_exchange_advances]. }
  pose proof (read_clock_advances w1) as H2.
  destruct (read_clock w1) as [t w2]. cbn in H2 |- *. etrans; [exact H1|].
  destruct (deadline i <=? t); cbn; [|done]. etrans; [exact H2|apply compare_exchange_advances].
Qed.

Lemma reason_advances w c : advances w (reason w c).2.
Proof. apply reason_fuel_advances. Qed.

Lemma cancel_advances w c : advances w (cancel w c).
Proof. etrans; [apply reason_advances|apply compare_exchange_advances]. Qed.

Lemma advances_snoc w i t ts : now w <= t -> advances w (mkWorld (heap w ++ [i]) t ts).
Proof.
  intros Ht. split; [done|]. intros c j Hj. exists j. cbn.
  rewrite lookup_app_l by (by eapply lookup_lt_Some). by repeat split.
Qed.

Lemma new_advances w d : advances w (new w d).2.
Proof.
  unfold new. pose proof (read_clock_advances w) as H. destruct (read_clock w) as [t w1].
  cbn in H. destruct (instant_checked_add t d); cbn; [|done].
  etrans; [exact H|]. by apply advances_snoc.
Qed.

Lemma child_advances w c d : advances w (child w c d).2.
Proof.
  unfold child. pose proof (read_clock_advances w) as H. destruct (read_clock w) as [t w1].
  cbn in H. destruct (instant_checked_add t d), (heap w1 !! c); cbn; try done.
  etrans; [exact H|]. by apply advances_snoc.
Qed.

(** *** Well-formedness is preserved *)

Lemma node_wf_mono h h' c i :
  (forall d j, h !! d = Some j -> exists k, h' !! d = Some k /\ deadline k = deadline j) ->
  node_wf h c i -> node_wf h' c i.
Proof.
  intros Hm [Hs Hp]. split; [done|]. destruct (parent i) as [p|]; [|done].
  destruct Hp as (Hlt & j & Hj & Hd). split; [done|].
  destruct (Hm _ _ Hj) as (k & Hk & E). exists k. split; [done|]. by rewrite E.
Qed.

(** A step that changes no shape and writes only known codes keeps [wf]. *)
Lemma wf_advance w w' :
  advances w w' -> length (heap w') = length (heap w) ->
  (forall c i, heap w' !! c = Some i -> stop i = 0 \/ stop i = 1 \/ stop i = 2) ->
  wf w -> wf w'.
Proof.
  intros [_ Ha] Hlen Hcodes Hw c i' Hi'.
  assert (exists i, heap w !! c = Some i) as [i Hi].
  { apply lookup_lt_is_Some. rewrite <- Hlen. by eapply lookup_lt_Some. }
  destruct (Ha _ _ Hi) as (j & Hj & D & P & _). assert (j = i') as -> by congruence.
  destruct (Hw _ _ Hi) as [_ Hp].
  apply (node_wf_mono (heap w)).
  - intros d k Hk. destruct (Ha _ _ Hk) as (k' & ? & ? & ?). eauto.
  - split; [by eapply Hcodes|]. rewrite P. destruct (parent i); [|done]. by rewrite D.
Qed.

Lemma compare_exchange_wf w c code :
  code = 1 \/ code = 2 -> wf w -> wf (compare_exchange w c code).
Proof.
  intros Hc Hw. eapply wf_advance; [apply compare_exchange_advances| | |done].
  - unfold compare_exchange. destruct (heap w !! c) as [i|]; [|done].
    destruct (stop i =? 0); [|done]. cbn. apply length_insert.
  - intros d i Hi. destruct (decide (d = c)) as [->|Hne].
    + destruct (heap w !! c) as [j|] eqn:Hj.
      * rewrite (compare_exchange_eq _ _ _ _ Hj) in Hi. injection Hi as <-. cbn.
        destruct (stop j =? 0); [naive_solver|]. by destruct (Hw _ _ Hj).
      * unfold compare_exchange in Hi. rewrite Hj in Hi. congruence.
    + rewrite compare_exchange_ne in Hi by done. by destruct (Hw _ _ Hi).
Qed.

Lemma read_clock_wf w : wf w -> wf (read_clock w).2.
Proof.
  intros Hw. destruct (read_clock w) as [t w'] eqn:E. apply read_clock_spec in E as (_ & Hh & _).
  intros c i. cbn. rewrite Hh. apply Hw.
Qed.

Lemma reason_fuel_wf fuel w c : wf w -> wf (reason_fuel fuel w c).2.
Proof.
  revert w c. induction fuel as [|fuel IH]; intros w c Hw; cbn [reason_fuel]; [done|].
  destruct (heap w !! c) as [i|]; [|done].
  set (w1 := match parent i with Some p => _ | None => w end).
  assert (H1 : wf w1).
  { subst w1. destruct (parent i) as [p|]; [|done].
    pose proof (IH w p Hw) as Hp. destruct (reason_fuel fuel w p) as [[s|] w']; cbn in Hp; [|done].
    apply compare_exchange_wf; [destruct s; cbn; auto|done]. }
  pose proof (read_clock_wf _ H1) as H2. destruct (read_clock w1) as [t w2]. cbn in H2 |- *.
  destruct (deadline i <=? t); [|done]. apply compare_exchange_wf; auto.
Qed.

Lemma cancel_wf w c : wf w -> wf (cancel w c).
Proof. intros ?. apply compare_exchange_wf; [auto|]. by apply reason_fuel_wf. Qed.

Lemma snoc_wf w i t ts :
  wf w -> node_wf (heap w) (length (heap w)) i -> wf (mkWorld (heap w ++ [i]) t ts).
Proof.
  intros Hw Hi c j Hj. cbn in Hj |- *.
  assert (Hm : forall d k, heap w !! d = Some k ->
    exists k', (heap w ++ [i]) !! d = Some k' /\ deadline k' = deadline k).
  { intros d k Hk. exists k. rewrite lookup_app_l by (by eapply lookup_lt_Some). done. }
  apply lookup_app_Some in Hj as [Hj|[Hle Hj]].
  - eapply node_wf_mono; [exact Hm|]. by apply Hw.
  - apply list_lookup_singleton_Some in Hj as [Hz <-].
    replace c with (length (heap w)) by lia. by eapply node_wf_mono.
Qed.

Lemma new_wf w d : wf w -> wf (new w d).2.
Proof.
  intros Hw. unfold new. pose proof (read_clock_wf _ Hw) as H1.
  destruct (read_clock w) as [t w1]. cbn in H1.
  destruct (instant_checked_add t d) as [dl|]; cbn; [|done].
  apply snoc_wf; [done|]. split; cbn; auto.
Qed.

Lemma child_wf w c d : wf w -> wf (child w c d).2.
Proof.
  intros Hw. unfold child. pose proof (read_clock_wf _ Hw) as H1.
  destruct (read_clock w) as [t w1]. cbn in H1.
  destruct (instant_checked_add t d) as [dl|], (heap w1 !! c) as [i|] eqn:Hi; cbn; try done.
  apply snoc_wf; [done|]. split; cbn; [auto|]. split; [by eapply lookup_lt_Some|].
  exists i. split; [done|lia].
Qed.

(** ** What [reason] answers *)

Lemma load_reason_None w c i :
  heap w !! c = Some i -> (stop i = 0 \/ stop i = 1 \/ stop i = 2) ->
  load_reason w c = None <-> stop i = 0.
Proof.
  intros Hi Hs. unfold load_reason. rewrite Hi.
  destruct Hs as [-> | [-> | ->]]; cbn; naive_solver.
Qed.

(** Enough fuel is enough: every bound above the index gives the same answer. *)
Theorem reason_fuel_enough (fuel : nat) (w : World) (c : nat) :
  wf w -> (c < fuel)%nat -> reason_fuel fuel w c = reason w c.
Proof.
  intros Hw. unfold reason. remember (S c) as m eqn:Em.
  assert (Hm : (c < m)%nat) by lia. clear Em. revert w m c Hw Hm.
  induction fuel as [|fuel IH]; intros w m c Hw Hm Hf; [lia|].
  destruct m as [|m]; [lia|]. cbn [reason_fuel].
  destruct (heap w !! c) as [i|] eqn:Hi; [|done].
  destruct (Hw _ _ Hi) as [_ Hp]. destruct (parent i) as [p|]; [|done].
  destruct Hp as [Hlt _]. by rewrite (IH w m p Hw) by lia.
Qed.

Lemma chain_fuel_enough fuel w c :
  wf w -> (c < fuel)%nat -> chain_fuel fuel (heap w) c = chain w c.
Proof.
  intros Hw. unfold chain. remember (S c) as m eqn:Em.
  assert (Hm : (c < m)%nat) by lia. clear Em. revert m c Hm.
  induction fuel as [|fuel IH]; intros m c Hm Hf; [lia|].
  destruct m as [|m]; [lia|]. cbn [chain_fuel].
  destruct (heap w !! c) as [i|] eqn:Hi; [|done].
  destruct (Hw _ _ Hi) as [_ Hp]. destruct (parent i) as [p|]; [|done].
  destruct Hp as [Hlt _]. by rewrite (IH m p) by lia.
Qed.

Lemma chain_unfold w c i :
  wf w -> heap w !! c = Some i ->
  chain w c = c :: match parent i with Some p => chain w p | None => [] end.
Proof.
  intros Hw Hi. unfold chain at 1. cbn [chain_fuel]. rewrite Hi.
  destruct (Hw _ _ Hi) as [_ Hp]. destruct (parent i) as [p|]; [|done].
  destruct Hp as [Hlt _]. by rewrite chain_fuel_enough by (done || lia).
Qed.

(** A chain depends on the shape of the tree only. *)
Lemma chain_advances w w' c :
  wf w -> wf w' -> advances w w' -> is_Some (heap w !! c) -> chain w' c = chain w c.
Proof.
  intros Hw Hw' Ha. induction c as [c IH] using lt_wf_ind. intros [i Hi].
  destruct Ha as [Ht Ha]. destruct (Ha _ _ Hi) as (j & Hj & _ & P & _).
  rewrite (chain_unfold _ _ _ Hw Hi), (chain_unfold _ _ _ Hw' Hj), P.
  destruct (Hw _ _ Hi) as [_ Hp]. destruct (parent i) as [p|]; [|done].
  destruct Hp as (Hlt & k & Hk & _). by rewrite IH by eauto.
Qed.

(** The own part of [reason], after the parent has been asked. *)
Definition own_part (w1 : World) (c : nat) (i : Inner) : option Stopped * World :=
  let '(t, w2) := read_clock w1 in
  let w3 := if deadline i <=? t then compare_exchange w2 c 2 else w2 in
  (load_reason w3 c, w3).

(** One level of [reason], by the parent's answer. *)
Definition parent_part (w : World) (c : nat) (i : Inner) : World :=
  match parent i with
  | Some p =>
      match (reason w p).1 with
      | Some s => compare_exchange (reason w p).2 c (code_of s)
      | None => (reason w p).2
      end
  | None => w
  end.

Lemma reason_unfold w c i :
  wf w -> heap w !! c = Some i -> reason w c = own_part (parent_part w c i) c i.
Proof.
  intros Hw Hi. unfold reason at 1, parent_part. cbn [reason_fuel]. rewrite Hi.
  destruct (Hw _ _ Hi) as [_ Hp]. destruct (parent i) as [p|]; [|done].
  destruct Hp as [Hlt _]. rewrite reason_fuel_enough by (done || lia).
  by destruct (reason w p) as [[s|] w1].
Qed.

Lemma own_part_spec w1 c i j r w3 :
  heap w1 !! c = Some j -> (stop j = 0 \/ stop j = 1 \/ stop j = 2) ->
  own_part w1 c i = (r, w3) ->
  (r = None <-> stop j = 0 /\ now w3 < deadline i) /\
  (r = None -> heap w3 = heap w1) /\
  (forall a, a <> c -> heap w3 !! a = heap w1 !! a) /\
  now w1 <= now w3.
Proof.
  intros Hj Hs. unfold own_part. destruct (read_clock w1) as [t w2] eqn:E.
  apply read_clock_spec in E as (-> & Hh & Ht). destruct (Z.leb_spec (deadline i) (now w2));
    intros [= <- <-]; cbn.
  - assert (Hj2 : heap w2 !! c = Some j) by (by rewrite Hh).
    pose proof (compare_exchange_eq _ _ _ 2 Hj2) as Hc. rewrite compare_exchange_now.
    rewrite (load_reason_None _ _ _ Hc); cbn.
    + split_and!; [|intros H0| |done].
      * destruct (Z.eqb_spec (stop j) 0); split; [lia|lia|lia|lia].
      * destruct (Z.eqb_spec (stop j) 0); lia.
      * intros a Ha. by rewrite compare_exchange_ne, Hh.
    + destruct (stop j =? 0); auto.
  - rewrite (load_reason_None _ _ j); [|by rewrite Hh|done].
    split_and!; [naive_solver lia|by rewrite Hh|by rewrite Hh|done].
Qed.

Lemma own_part_ne w1 c i a : a <> c -> heap (own_part w1 c i).2 !! a = heap w1 !! a.
Proof.
  intros Hne. unfold own_part. destruct (read_clock w1) as [t w2] eqn:E.
  apply read_clock_spec in E as (-> & Hh & _).
  destruct (deadline i <=? now w2); cbn; [rewrite compare_exchange_ne by done|]; by rewrite Hh.
Qed.

(** Asking a node touches no younger node. *)
Lemma reason_younger w c a : wf w -> (c < a)%nat -> heap (reason w c).2 !! a = heap w !! a.
Proof.
  intros Hw. revert a. induction c as [c IH] using lt_wf_ind. intros a Hca.
  destruct (heap w !! c) as [i|] eqn:Hi.
  2: { unfold reason. cbn. by rewrite Hi. }
  rewrite (reason_unfold _ _ _ Hw Hi), own_part_ne by lia. unfold parent_part.
  destruct (Hw _ _ Hi) as [_ Hp]. destruct (parent i) as [p|]; [|done]. destruct Hp as [Hlt _].
  destruct (reason w p).1; [rewrite compare_exchange_ne by lia|]; apply IH; lia.
Qed.

(** The own cell after the parent's part: set when the parent is stopped. *)
Lemma parent_part_spec w c i :
  wf w -> heap w !! c = Some i ->
  exists j, heap (parent_part w c i) !! c = Some j /\
    (stop j = 0 \/ stop j = 1 \/ stop j = 2) /\
    (stop j = 0 <-> stop i = 0 /\ forall p, parent i = Some p -> (reason w p).1 = None).
Proof.
  intros Hw Hi. unfold parent_part. destruct (Hw _ _ Hi) as [Hs Hp].
  destruct (parent i) as [p|]; [|exists i; naive_solver]. destruct Hp as [Hlt _].
  pose proof (reason_younger w p c Hw Hlt) as Hc. rewrite Hi in Hc.
  destruct (reason w p) as [[s|] w1] eqn:Er; cbn [fst snd] in *.
  - rewrite (compare_exchange_eq _ _ _ _ Hc). eexists. split; [done|]. cbn.
    destruct (Z.eqb_spec (stop i) 0) as [E|E]; (split; [|split]).
    + destruct s; cbn; auto.
    + destruct s; cbn; lia.
    + intros [_ Hn]. specialize (Hn _ eq_refl). by rewrite Er in Hn.
    + done.
    + done.
    + by intros [? _].
  - exists i. split_and!; [done|done|]. split; [|naive_solver].
    intros ?. split; [done|]. intros q [= <-]. by rewrite Er.
Qed.

Lemma reason_None_heap w c : wf w -> (reason w c).1 = None -> heap (reason w c).2 = heap w.
Proof.
  intros Hw. induction c as [c IH] using lt_wf_ind.
  destruct (heap w !! c) as [i|] eqn:Hi.
  2: { unfold reason. cbn. by rewrite Hi. }
  rewrite (reason_unfold _ _ _ Hw Hi).
  destruct (parent_part_spec _ _ _ Hw Hi) as (j & Hj & Hjs & Hj0).
  destruct (own_part (parent_part w c i) c i) as [r w3] eqn:E. cbn. intros ->.
  pose proof (own_part_spec _ _ _ _ _ _ Hj Hjs E) as ([H0 _] & Hh & _).
  rewrite (Hh eq_refl). destruct (H0 eq_refl) as [Hz _]. apply Hj0 in Hz as [_ Hpar].
  unfold parent_part. destruct (Hw _ _ Hi) as [_ Hp].
  destruct (parent i) as [p|]; [|done]. destruct Hp as [Hlt _].
  specialize (Hpar _ eq_refl). rewrite Hpar. by apply IH.
Qed.

Lemma clear_cons w c i l :
  heap w !! c = Some i -> clear w (c :: l) <-> stop i = 0 /\ clear w l.
Proof. intros Hi. unfold clear. rewrite Forall_cons, Hi. naive_solver. Qed.

(** A node is not stopped exactly when no code is set on its path and its own
    deadline has not passed at the last look at the clock. *)
Lemma reason_None_iff w c i :
  wf w -> heap w !! c = Some i ->
  ((reason w c).1 = None <-> clear w (chain w c) /\ now (reason w c).2 < deadline i).
Proof.
  intros Hw. revert i. induction c as [c IH] using lt_wf_ind. intros i Hi.
  rewrite (reason_unfold _ _ _ Hw Hi), (chain_unfold _ _ _ Hw Hi), (clear_cons _ _ _ _ Hi).
  destruct (parent_part_spec _ _ _ Hw Hi) as (j & Hj & Hjs & Hj0).
  destruct (own_part (parent_part w c i) c i) as [r w3] eqn:E. cbn [fst snd].
  destruct (own_part_spec _ _ _ _ _ _ Hj Hjs E) as (Hr & _ & _ & Ht).
  rewrite Hr, Hj0. destruct (Hw _ _ Hi) as [_ Hp]. unfold parent_part in Ht.
  destruct (parent i) as [p|].
  - destruct Hp as (Hlt & k & Hk & Hd). specialize (IH p Hlt k Hk).
    assert (Hle : now (reason w p).2 <= now w3).
    { destruct (reason w p).1; [by rewrite compare_exchange_now in Ht|done]. }
    split.
    + intros [[Hs Hpn] Hlt3]. specialize (Hpn _ eq_refl). apply IH in Hpn as [Hcl _]. done.
    + intros [[Hs Hcl] Hlt3]. split; [split; [done|]|done]. intros q [= <-].
      apply IH. split; [done|lia].
  - unfold clear. split; [naive_solver|]. intros [[? _] ?]. split; [split; [done|]|done]. done.
Qed.

(** A node is stopped for good once a code is set on its path or its deadline is over. *)
Definition stopped (w : World) (c : nat) : Prop :=
  ~ clear w (chain w c) \/ exists i, heap w !! c = Some i /\ deadline i <= now w.

Lemma clear_back w w' l : advances w w' -> clear w' l -> clear w l.
Proof.
  intros [_ Ha]. unfold clear. rewrite !Forall_forall. intros Hc a Hal i Hi. destruct (Ha _ _ Hi) as (j & Hj & _ & _ & Hs).
  destruct (decide (stop i = 0)) as [|Hne]; [done|]. rewrite <- (Hs Hne). by eapply Hc.
Qed.

Lemma stopped_stays w w' c : wf w -> wf w' -> advances w w' -> is_Some (heap w !! c) -> stopped w c -> stopped w' c.
Proof.
  intros Hw Hw' Ha Hn [Hc|(i & Hi & Hd)].
  - left. rewrite (chain_advances _ _ _ Hw Hw' Ha Hn). intros Hc'. by eapply Hc, clear_back.
  - right. destruct Ha as [Ht Ha]. destruct (Ha _ _ Hi) as (j & Hj & Hdl & _). exists j. split; [done|]. lia.
Qed.

Lemma reason_not_stopped w c : wf w -> is_Some (heap w !! c) -> (reason w c).1 = None -> ~ stopped w c.
Proof.
  intros Hw [i Hi] Hr. apply (reason_None_iff _ _ _ Hw Hi) in Hr as [Hc Ht]. pose proof (reason_advances w c) as [Hn _].
  intros [Hs|(j & Hj & Hd)]; [done|]. assert (j = i) as -> by congruence. lia.
Qed.

(** Whoever is cancelled stops everything below. *)
Lemma cancel_stops_below w a c : wf w -> is_Some (heap w !! c) -> a ∈ chain w c -> is_Some (heap w !! a) -> stopped (cancel w a) c.
Proof.
  intros Hw Hn Hin [i Hi]. left. pose proof (cancel_advances w a) as Ha. rewrite (chain_advances _ _ _ Hw (cancel_wf _ _ Hw) Ha Hn).
  unfold clear. rewrite Forall_forall. intros Hc. destruct (reason_advances w a) as [_ Hra]. destruct (Hra _ _ Hi) as (j & Hj & _).
  specialize (Hc a Hin _ (compare_exchange_eq _ _ _ 1 Hj)). cbn in Hc. destruct (Z.eqb_spec (stop j) 0); lia.
Qed.

(** Only stopped nodes are marked on the way. *)
Lemma reason_marks w c a j j' :
  wf w -> is_Some (heap w !! c) ->
  heap w !! a = Some j -> heap (reason w c).2 !! a = Some j' -> stop j' <> stop j ->
  a ∈ chain w c /\ ~ (clear w (chain w a) /\ now (reason w c).2 < deadline j).
Proof.
  intros Hw. induction c as [c IH] using lt_wf_ind. intros [i Hi] Ha Ha' Hne.
  pose proof (reason_None_iff _ _ _ Hw Hi) as Hiff.
  pose proof (reason_None_heap w c Hw) as Hnone.
  destruct (decide (a = c)) as [->|Hac].
  - split; [rewrite (chain_unfold _ _ _ Hw Hi); set_solver|].
    assert (i = j) as -> by congruence. rewrite <- Hiff. intros Hr.
    rewrite Hnone in Ha' by done. congruence.
  - rewrite (chain_unfold _ _ _ Hw Hi). rewrite (reason_unfold _ _ _ Hw Hi) in Ha' |- *.
    rewrite own_part_ne in Ha' by done.
    destruct (parent_part_spec _ _ _ Hw Hi) as (k & Hk & Hks & _).
    destruct (own_part (parent_part w c i) c i) as [r w3] eqn:E. cbn [fst snd].
    destruct (own_part_spec _ _ _ _ _ _ Hk Hks E) as (_ & _ & _ & Ht).
    unfold parent_part in Ha', Ht. destruct (Hw _ _ Hi) as [_ Hp].
    destruct (parent i) as [p|]; [|congruence]. destruct Hp as (Hlt & q & Hq & _).
    assert (Hpa : heap (reason w p).2 !! a = Some j').
    { destruct (reason w p).1; [by rewrite compare_exchange_ne in Ha' by done|done]. }
    assert (Hle : now (reason w p).2 <= now w3).
    { destruct (reason w p).1; [by rewrite compare_exchange_now in Ht|done]. }
    destruct (IH p Hlt (ex_intro _ _ Hq) Ha Hpa Hne) as [Hin Hcl].
    split; [set_solver|]. intros [? ?]. apply Hcl. split; [done|lia].
Qed.

(** The path above a node: shorter paths, later deadlines. *)
Lemma chain_sub w d j a :
  wf w -> heap w !! d = Some j -> a ∈ chain w d ->
  exists k, heap w !! a = Some k /\ deadline j <= deadline k /\ chain w a ⊆ chain w d.
Proof.
  intros Hw. revert j. induction d as [d IH] using lt_wf_ind. intros j Hj Hin.
  destruct (decide (a = d)) as [->|Hne]; [exists j; split_and!; [done|lia|done]|].
  rewrite (chain_unfold _ _ _ Hw Hj) in Hin |- *.
  apply elem_of_cons in Hin as [?|Hin]; [done|].
  destruct (Hw _ _ Hj) as [_ Hp]. destruct (parent j) as [p|]; [|by apply elem_of_nil in Hin].
  destruct Hp as (Hlt & q & Hq & Hd). destruct (IH p Hlt q Hq Hin) as (k & Hk & Hdk & Hs).
  exists k. split_and!; [done|lia|set_solver].
Qed.

Lemma reason_loads w c i :
  wf w -> heap w !! c = Some i -> (reason w c).1 = load_reason (reason w c).2 c.
Proof.
  intros Hw Hi. rewrite (reason_unfold _ _ _ Hw Hi). unfold own_part. by destruct (read_clock _).
Qed.

Lemma load_reason_advances w w' c s :
  advances w w' -> load_reason w c = Some s -> load_reason w' c = Some s.
Proof.
  intros [_ Ha]. unfold load_reason. destruct (heap w !! c) as [i|] eqn:Hi; [|done].
  destruct (Ha _ _ Hi) as (j & -> & _ & _ & Hs).
  destruct (Z.eqb_spec (stop i) 1) as [E|E]; [by rewrite Hs, E by lia|].
  destruct (Z.eqb_spec (stop i) 2) as [E'|E']; [by rewrite Hs, E' by lia|done].
Qed.

Lemma load_reason_is_Some w c s : load_reason w c = Some s -> is_Some (heap w !! c).
Proof. unfold load_reason. destruct (heap w !! c); [eauto|done]. Qed.

Lemma reason_of_code w c s : wf w -> load_reason w c = Some s -> (reason w c).1 = Some s.
Proof.
  intros Hw Hl. destruct (load_reason_is_Some _ _ _ Hl) as [i Hi].
  rewrite (reason_loads _ _ _ Hw Hi). eapply load_reason_advances; [apply reason_advances|done].
Qed.

(** ** Histories *)

Inductive op : Type :=
| ONew (timeout : Z)
| OChild (c : nat) (timeout : Z)
| OReason (c : nat)
| OCancel (c : nat)
| ORemaining (c : nat).

Definition step (w : World) (o : op) : World :=
  match o with
  | ONew d => (new w d).2
  | OChild c d => (child w c d).2
  | OReason c => (reason w c).2
  | OCancel c => cancel w c
  | ORemaining c => (remaining w c).2
  end.

Definition run (ops : list op) (w : World) : World := foldl step w ops.

(** No control yet, any time, any future of the clock. *)
Definition init (t : Z) (ds : list N) : World := mkWorld [] t ds.

Lemma remaining_eq w c : (remaining w c).2 = (read_clock w).2.
Proof. unfold remaining. by destruct (read_clock w). Qed.

Lemma step_sound w o : wf w -> wf (step w o) /\ advances w (step w o).
Proof.
  intros Hw. destruct o; cbn.
  - split; [by apply new_wf|apply new_advances].
  - split; [by apply child_wf|apply child_advances].
  - split; [by apply reason_fuel_wf|apply reason_advances].
  - split; [by apply cancel_wf|apply cancel_advances].
  - rewrite remaining_eq. split; [by apply read_clock_wf|apply read_clock_advances].
Qed.

Lemma run_sound ops w : wf w -> wf (run ops w) /\ advances w (run ops w).
Proof.
  revert w. induction ops as [|o ops IH]; intros w Hw; cbn; [done|].
  destruct (step_sound w o Hw) as [H1 H2]. destruct (IH _ H1) as [H3 H4].
  split; [done|]. by etrans.
Qed.

Lemma init_wf t ds : wf (init t ds).
Proof. intros c i H. done. Qed.

(** A reported stop is final: once some history made a control answer with a
    reason, it answers with that same reason after every further history of
    creations, cancellations and observations by anybody; an elapsed deadline is
    never relabelled as a cancellation, nor a cancellation as a deadline. *)
Theorem stop_sticky (t : Z) (ds : list N) (before after : list op) (c : nat) (s : Stopped) :
  let w := run before (init t ds) in
  (reason w c).1 = Some s ->
  (reason (run after (reason w c).2) c).1 = Some s.
Proof.
  intros w Hs. destruct (run_sound before (init t ds) (init_wf t ds)) as [Hw _]. fold w in Hw.
  destruct (heap w !! c) as [i|] eqn:Hi.
  2: { unfold reason in Hs. cbn in Hs. by rewrite Hi in Hs. }
  rewrite (reason_loads _ _ _ Hw Hi) in Hs.
  pose proof (reason_fuel_wf (S c) w c Hw) as Hw1. fold (reason w c) in Hw1.
  destruct (run_sound after _ Hw1) as [Hw2 Ha]. apply reason_of_code; [done|].
  by eapply load_reason_advances.
Qed.

(** A descendant cannot outlive its ancestors: in every reachable tree the
    deadline of a control is at most that of each control on its path to the
    root, the own deadline of a new child is at most the requested one, and a
    control answers "not stopped" exactly when no code is set on its whole path
    and its deadline has not passed. *)
Theorem tree_lifetimes (t : Z) (ds : list N) (ops : list op) (c : nat) (i : Inner) :
  let w := run ops (init t ds) in
  heap w !! c = Some i ->
  (forall a, a ∈ chain w c -> exists j, heap w !! a = Some j /\ deadline i <= deadline j) /\
  (forall d k, (child w c d).1 = Some k ->
     exists j, heap (child w c d).2 !! k = Some j /\ parent j = Some c /\ stop j = 0 /\
       deadline j = Z.min (now (child w c d).2 + d) (deadline i)) /\
  ((reason w c).1 = None <-> clear w (chain w c) /\ now (reason w c).2 < deadline i).
Proof.
  intros w Hi. destruct (run_sound ops (init t ds) (init_wf t ds)) as [Hw _]. fold w in Hw.
  split_and!.
  - intros a Ha. destruct (chain_sub _ _ _ _ Hw Hi Ha) as (k & Hk & Hd & _). eauto.
  - intros d k. unfold child. destruct (read_clock w) as [t' w1] eqn:E.
    apply read_clock_spec in E as (-> & Hh & _). rewrite Hh, Hi.
    destruct (instant_checked_add (now w1) d) as [dl|] eqn:Ed; [|done]. cbn. intros [= <-].
    apply instant_checked_add_Some in Ed as [-> _].
    rewrite lookup_app_r, Nat.sub_diag by lia. eexists. split; [done|]. by cbn.
  - by apply reason_None_iff.
Qed.

Lemma cancel_exact_wf w c i :
  wf w -> heap w !! c = Some i ->
  (reason (cancel w c) c).1 = Some (default Cancelled (reason w c).1) /\
  (forall d j, heap w !! d = Some j ->
     ((reason (cancel w c) d).1 = None <->
        c ∉ chain w d /\ clear w (chain w d) /\ now (reason (cancel w c) d).2 < deadline j)).
Proof.
  intros Hw Hi. pose proof (cancel_wf w c Hw) as Hw'. pose proof (cancel_advances w c) as Hadv.
  pose proof (reason_advances w c) as [_ Hra].
  destruct (Hra _ _ Hi) as (ic & Hic & _ & _ & _).
  pose proof (compare_exchange_eq _ _ _ 1 Hic) as Hcell. fold (cancel w c) in Hcell.
  pose proof (reason_fuel_wf (S c) w c Hw) as Hwr. fold (reason w c) in Hwr.
  destruct (Hwr _ _ Hic) as [Hcodes _].
  split.
  - apply reason_of_code; [done|]. unfold load_reason at 1. rewrite Hcell. cbn.
    rewrite (reason_loads _ _ _ Hw Hi). unfold load_reason. rewrite Hic.
    destruct Hcodes as [-> | [-> | ->]]; done.
  - intros d j Hj. destruct Hadv as [Hnow Hadv]. destruct (Hadv _ _ Hj) as (j' & Hj' & Dj & _).
    rewrite (reason_None_iff _ _ _ Hw' Hj'), Dj, (chain_advances w) by (done || eauto using cancel_advances).
    assert (Hle : now (reason w c).2 <= now (reason (cancel w c) d).2).
    { etrans; [|apply (reason_advances (cancel w c) d)]. unfold cancel.
      by rewrite compare_exchange_now. }
    unfold clear. rewrite !Forall_forall. split.
    + intros [Hcl Hlt]. split_and!; [|intros a Ha k Hk|done].
      * intros Hc. specialize (Hcl _ Hc _ Hcell). cbn in Hcl.
        destruct (Z.eqb_spec (stop ic) 0); lia.
      * destruct (Hadv _ _ Hk) as (k' & Hk' & _ & _ & Hs). specialize (Hcl _ Ha _ Hk').
        destruct (decide (stop k = 0)); [done|]. rewrite Hs in Hcl by done. done.
    + intros (Hnc & Hcl & Hlt). split; [|done]. intros a Ha k' Hk'.
      assert (Hac : a <> c) by (intros ->; done).
      unfold cancel in Hk'. rewrite compare_exchange_ne in Hk' by done.
      destruct (chain_sub _ _ _ _ Hw Hj Ha) as (k & Hk & Hdk & Hsub).
      destruct (decide (stop k' = stop k)) as [->|Hne]; [by eapply Hcl|].
      destruct (reason_marks w c a k k' Hw (ex_intro _ _ Hi) Hk Hk' Hne) as [_ []].
      split; [|lia]. apply Forall_forall. intros b Hb. apply Hcl. by apply Hsub.
Qed.

(** Cancellation is exact. Cancelling a control stops it, with the reason it
    already had if it had one; and any control then answers "not stopped" exactly
    when it is no descendant of the cancelled one, its own path carried no code
    before, and its deadline has not passed: parents and siblings go on. *)
Theorem cancel_exact (t : Z) (ds : list N) (ops : list op) (c : nat) (i : Inner) :
  let w := run ops (init t ds) in
  heap w !! c = Some i ->
  (reason (cancel w c) c).1 = Some (default Cancelled (reason w c).1) /\
  (forall d j, heap w !! d = Some j ->
     ((reason (cancel w c) d).1 = None <->
        c ∉ chain w d /\ clear w (chain w d) /\ now (reason (cancel w c) d).2 < deadline j)).
Proof.
  intros w Hi. destruct (run_sound ops (init t ds) (init_wf t ds)) as [Hw _]. fold w in Hw.
  by apply cancel_exact_wf with (i := i).
Qed.

(** What clients of a control rely on: a cancelled control is stopped, and a
    successful check means that it was not. *)
Lemma cancel_stops w c : wf w -> is_Some (heap w !! c) -> load_reason (cancel w c) c <> None.
Proof.
  intros Hw [i Hi]. destruct (cancel_exact_wf w c i Hw Hi) as [Hr _].
  pose proof (cancel_advances w c) as [_ Ha]. destruct (Ha _ _ Hi) as (j & Hj & _).
  pose proof (cancel_wf w c Hw _ _ Hj) as [Hs _].
  rewrite (load_reason_None _ _ _ Hj Hs). unfold cancel in Hj.
  pose proof (reason_advances w c) as [_ Hra]. destruct (Hra _ _ Hi) as (k & Hk & _).
  rewrite (compare_exchange_eq _ _ _ _ Hk) in Hj. injection Hj as <-. cbn.
  destruct (Z.eqb_spec (stop k) 0); lia.
Qed.

Lemma check_spec w c r w' :
  wf w -> is_Some (heap w !! c) -> check w c = (r, w') ->
  wf w' /\ advances w w' /\ (is_err r = true -> load_reason w' c <> None) /\
  (is_err r = false -> load_reason w c = None).
Proof.
  intros Hw [i Hi] E. pose proof (reason_fuel_wf (S c) w c Hw) as Hwr. fold (reason w c) in Hwr.
  pose proof (reason_advances w c) as Ha. pose proof (reason_loads w c i Hw Hi) as Hl.
  unfold check in E. destruct (reason w c) as [[s|] w1] eqn:Er; injection E as <- <-; cbn in *.
  - split_and!; [done|done|by rewrite <- Hl|done].
  - split_and!; [done|done|done|]. intros _. destruct (load_reason w c) as [s|] eqn:El; [|done].
    apply (reason_of_code _ _ _ Hw) in El. by rewrite Er in El.
Qed.

Lemma load_reason_stays w w' c : advances w w' -> load_reason w c <> None -> load_reason w' c <> None.
Proof.
  intros Ha. destruct (load_reason w c) as [s|] eqn:E; [|done].
  by rewrite (load_reason_advances _ _ _ _ Ha E).
Qed.

Lemma advances_heap w w' c : advances w w' -> is_Some (heap w !! c) -> is_Some (heap w' !! c).
Proof. intros [_ Ha] [i Hi]. destruct (Ha _ _ Hi) as (j & Hj & _). eauto. Qed.
