(* ===== verification/Mailbox.v ===== *)
(** * The parent mailbox transport ([crates/celln-warden/src/parent_mailbox.rs])

    The port-level state of one persistent parent: a queue of bytes to the guest,
    the accumulated answer, and the flags of the exchange. The abstract machine
    [Phase] says what the transport promises; [mailbox_refines] shows that the
    code implements it on every sequence of port accesses. *)

From S2P Require Import Prelude.

Definition MAX_FRAME_BYTES : Z := 61440.

Record ParentMailbox : Type := mkMailbox {
  input : bytes;
  output : bytes;
  active : bool;
  committed : bool;
  poisoned : bool;
}.

Definition default : ParentMailbox := mkMailbox [] [] false false false.

Definition byte_of_Z (z : Z) : byte :=
  match Byte.of_N (Z.to_N (z mod 256)) with Some b => b | None => x00 end.

(** [(bytes.len() as u32).to_le_bytes()]. *)
Definition u32_le (n : Z) : bytes :=
  [byte_of_Z n; byte_of_Z (n / 256); byte_of_Z (n / 65536); byte_of_Z (n / 16777216)].

Definition is_nil {A} (l : list A) : bool := match l with [] => true | _ => false end.

(** ** The operations *)

Definition deliver (m : ParentMailbox) (b : bytes) : bool * ParentMailbox :=
  if poisoned m || active m || is_nil b || (MAX_FRAME_BYTES <? blen b)
  then (false, m)
  else (true, mkMailbox (input m ++ u32_le (blen b) ++ b) (output m) true (committed m) (poisoned m)).

(** Filling a buffer of [n] bytes, one pop at a time. *)
Fixpoint read (m : ParentMailbox) (n : nat) : bytes * ParentMailbox :=
  match n with
  | O => ([], m)
  | S n =>
      let '(b, m) :=
        if poisoned m then (xff, m)
        else match input m with
             | [] => (xff, m)
             | b :: rest =>
                 (b, mkMailbox rest (output m) (active m) (committed m) (poisoned m))
             end in
      let '(data, m) := read m n in (b :: data, m)
  end.

Definition write (m : ParentMailbox) (data : bytes) : ParentMailbox :=
  if poisoned m || negb (active m) || committed m || negb (is_nil (input m))
     || (Z.max 0 (MAX_FRAME_BYTES - blen (output m)) <? blen data)
  then mkMailbox (input m) (output m) (active m) (committed m) true
  else mkMailbox (input m) (output m ++ data) (active m) (committed m) (poisoned m).

Definition commit (m : ParentMailbox) (data : bytes) : ParentMailbox :=
  let bad := negb (bool_decide (data = [x01])) || negb (active m) || committed m
             || negb (is_nil (input m)) || is_nil (output m) in
  mkMailbox (input m) (output m) (active m) true (poisoned m || bad).

(** [Err ()] is [MailboxError]. *)
Definition take_response (m : ParentMailbox) : result unit (option bytes) * ParentMailbox :=
  if poisoned m then (Err tt, m)
  else if negb (committed m) then (Ok None, m)
  else (Ok (Some (output m)), mkMailbox (input m) [] false false (poisoned m)).

(** ** Sequences of accesses and what each of them observes *)

Inductive op : Type :=
| Deliver (b : bytes)
| Read (n : nat)
| Write (data : bytes)
| Commit (data : bytes)
| Take.

Inductive obs : Type :=
| Accepted (ok : bool)
| Bytes (data : bytes)
| Silent
| Response (r : result unit (option bytes)).

Definition step (m : ParentMailbox) (o : op) : obs * ParentMailbox :=
  match o with
  | Deliver b => let '(ok, m) := deliver m b in (Accepted ok, m)
  | Read n => let '(d, m) := read m n in (Bytes d, m)
  | Write d => (Silent, write m d)
  | Commit d => (Silent, commit m d)
  | Take => let '(r, m) := take_response m in (Response r, m)
  end.

(** A machine run: the observations and the final state. *)
Fixpoint run {S} (next : S -> op -> obs * S) (s : S) (ops : list op) : list obs * S :=
  match ops with
  | [] => ([], s)
  | o :: ops =>
      let '(x, s) := next s o in
      let '(xs, s) := run next s ops in (x :: xs, s)
  end.

(** ** The abstract exchange *)

Inductive Phase : Type :=
| Idle
| Pending (unread out : bytes)
| Done (out : bytes)
| Broken.

Definition frame (b : bytes) : bytes := u32_le (blen b) ++ b.

Definition spec_step (p : Phase) (o : op) : obs * Phase :=
  match o, p with
  | Deliver b, Idle =>
      if (0 <? blen b) && (blen b <=? MAX_FRAME_BYTES)
      then (Accepted true, Pending (frame b) []) else (Accepted false, Idle)
  | Deliver _, _ => (Accepted false, p)
  | Read n, Pending unread out =>
      (Bytes (take n unread ++ replicate (n - length unread) xff), Pending (drop n unread) out)
  | Read n, _ => (Bytes (replicate n xff), p)
  | Write d, Pending [] out =>
      (Silent, if blen out + blen d <=? MAX_FRAME_BYTES then Pending [] (out ++ d) else Broken)
  | Write _, _ => (Silent, Broken)
  | Commit d, Pending [] out =>
      (Silent, if bool_decide (d = [x01]) && (0 <? blen out) then Done out else Broken)
  | Commit _, _ => (Silent, Broken)
  | Take, Broken => (Response (Err tt), Broken)
  | Take, Done out => (Response (Ok (Some out)), Idle)
  | Take, _ => (Response (Ok None), p)
  end.

(** How the flags of the code represent a phase. *)
Definition represents (m : ParentMailbox) (p : Phase) : Prop :=
  match p with
  | Idle => m = default
  | Pending unread out => m = mkMailbox unread out true false false /\ blen out <= MAX_FRAME_BYTES
  | Done out => m = mkMailbox [] out true true false
  | Broken => poisoned m = true
  end.

Lemma read_length m n : length (read m n).1 = n.
Proof.
  revert m. induction n as [|n IH]; intros m; cbn; [done|].
  destruct (if poisoned m then _ else _) as [b m']. specialize (IH m').
  destruct (read m' n). cbn in *. congruence.
Qed.

Lemma read_poisoned m n : poisoned m = true -> read m n = (replicate n xff, m).
Proof. intros Hp. induction n as [|n IH]; cbn; [done|]. by rewrite Hp, IH. Qed.

Lemma read_queue q out a c n :
  read (mkMailbox q out a c false) n =
    (take n q ++ replicate (n - length q) xff, mkMailbox (drop n q) out a c false).
Proof.
  revert q. induction n as [|n IH]; intros [|b q]; cbn; try done.
  - rewrite IH. rewrite take_nil, drop_nil. cbn. by rewrite Nat.sub_0_r.
  - by rewrite IH.
Qed.

Lemma is_nil_blen b : is_nil b = negb (0 <? blen b).
Proof. destruct b; [done|]. cbn. symmetry. apply negb_false_iff, Z.ltb_lt. unfold blen. cbn. lia. Qed.

(** One access of the code is one access of the abstract exchange. *)
Lemma step_refines m p o :
  represents m p ->
  (step m o).1 = (spec_step p o).1 /\ represents (step m o).2 (spec_step p o).2.
Proof.
  destruct p as [|unread out|out|]; cbn [represents].
  - intros ->. destruct o as [b|n|d|d|]; cbn.
    + unfold deliver. cbn. rewrite is_nil_blen.
      destruct (Z.ltb_spec 0 (blen b)), (Z.ltb_spec MAX_FRAME_BYTES (blen b)),
        (Z.leb_spec (blen b) MAX_FRAME_BYTES); try lia; cbn; done.
    + unfold default. rewrite read_queue. cbn. rewrite take_nil, drop_nil, Nat.sub_0_r. done.
    + done.
    + split; [done|]. by rewrite orb_true_r.
    + done.
  - intros [-> Hout]. destruct o as [b|n|d|d|]; cbn.
    + done.
    + by rewrite read_queue.
    + destruct unread as [|u unread]; cbn; [|done]. unfold write. cbn.
      rewrite Z.max_r by lia.
      destruct (Z.ltb_spec (MAX_FRAME_BYTES - blen out) (blen d)),
        (Z.leb_spec (blen out + blen d) MAX_FRAME_BYTES); try lia; cbn; [done|].
      split; [done|]. split; [done|]. unfold blen in *. rewrite length_app. lia.
    + unfold commit. cbn. destruct unread as [|u unread]; cbn; [|by rewrite orb_true_r].
      rewrite is_nil_blen. rewrite orb_false_r. by destruct (bool_decide (d = [x01])), (0 <? blen out).
    + done.
  - intros ->. destruct o; cbn; try done.
    + by rewrite read_queue, take_nil, drop_nil, Nat.sub_0_r.
    + split; [done|]. unfold commit. cbn. by rewrite orb_true_r.
  - intros Hp. destruct o as [b|n|d|d|]; cbn.
    + unfold deliver. by rewrite Hp.
    + by rewrite read_poisoned.
    + unfold write. by rewrite Hp.
    + by rewrite Hp.
    + unfold take_response. by rewrite Hp.
Qed.

Lemma run_refines ops m p :
  represents m p ->
  (run step m ops).1 = (run spec_step p ops).1 /\
  represents (run step m ops).2 (run spec_step p ops).2.
Proof.
  revert m p. induction ops as [|o ops IH]; intros m p Hr; cbn; [done|].
  pose proof (step_refines m p o Hr) as [H1 H2].
  destruct (step m o) as [x m'], (spec_step p o) as [y p']. cbn in *. subst y.
  pose proof (IH _ _ H2) as [H3 H4].
  destruct (run step m' ops), (run spec_step p' ops). cbn in *. by subst.
Qed.

(** C34: the mailbox implements the abstract exchange: on every sequence of host
    deliveries, port reads of any size, port writes, commits and response polls,
    the code observes exactly what the four-phase machine observes. *)
Theorem mailbox_refines (ops : list op) :
  (run step default ops).1 = (run spec_step Idle ops).1.
Proof. by apply run_refines. Qed.

(** ** A complete exchange *)

Fixpoint reads (m : ParentMailbox) (ns : list nat) : bytes * ParentMailbox :=
  match ns with
  | [] => ([], m)
  | n :: ns => let '(d, m) := read m n in let '(ds, m) := reads m ns in (d ++ ds, m)
  end.

Lemma reads_queue q out a c ns :
  reads (mkMailbox q out a c false) ns =
    (take (sum_list ns) q ++ replicate (sum_list ns - length q) xff,
     mkMailbox (drop (sum_list ns) q) out a c false).
Proof.
  revert q. induction ns as [|n ns IH]; intros q; cbn [reads sum_list].
  - by rewrite take_0, drop_0.
  - change (id n) with n. rewrite read_queue, IH, drop_drop, length_drop, <- app_assoc. f_equal.
    destruct (decide (n <= length q)%nat) as [Hle|Hgt].
    + replace (n - length q)%nat with 0%nat by lia. cbn [replicate app].
      rewrite app_assoc, take_take_drop. do 2 f_equal. lia.
    + rewrite !(take_ge q) by lia. f_equal.
      rewrite drop_ge by lia. rewrite take_nil. cbn [app].
      rewrite <- replicate_add. f_equal. lia.
Qed.

Lemma writes_ok out ds :
  blen out + blen (concat ds) <= MAX_FRAME_BYTES ->
  foldl write (mkMailbox [] out true false false) ds = mkMailbox [] (out ++ concat ds) true false false.
Proof.
  revert out. induction ds as [|d ds IH]; intros out Hle; cbn [foldl concat]; [by rewrite app_nil_r|].
  cbn [concat] in Hle. unfold blen in Hle. rewrite length_app in Hle.
  unfold write at 2. cbn. rewrite (proj2 (Z.ltb_ge _ _)).
  - rewrite IH; [by rewrite app_assoc|]. unfold blen. rewrite length_app. lia.
  - unfold blen. lia.
Qed.

(** The length prefix decodes to the length of the frame. *)
Definition u32_from_le (b : bytes) : Z :=
  match b with
  | [a0; a1; a2; a3] =>
      byte_val a0 + 256 * byte_val a1 + 65536 * byte_val a2 + 16777216 * byte_val a3
  | _ => 0
  end.

Lemma byte_val_of_Z z : byte_val (byte_of_Z z) = z mod 256.
Proof.
  unfold byte_of_Z. pose proof (Z.mod_pos_bound z 256) as Hb.
  destruct (Byte.of_N (Z.to_N (z mod 256))) as [b|] eqn:E.
  - unfold byte_val. apply Byte.to_of_N in E. rewrite E. lia.
  - exfalso. apply Byte.of_N_None_iff in E. lia.
Qed.

Lemma u32_le_roundtrip n : in_u32 n -> u32_from_le (u32_le n) = n.
Proof.
  unfold in_u32, u32_max, u32_le, u32_from_le. intros Hn. rewrite !byte_val_of_Z.
  replace 65536 with (256 * 256) by lia. replace 16777216 with (256 * 256 * 256) by lia.
  rewrite <- !Z.div_div by lia.
  pose proof (Z.div_mod n 256). pose proof (Z.div_mod (n / 256) 256).
  pose proof (Z.div_mod (n / 256 / 256) 256).
  rewrite (Z.mod_small (n / 256 / 256 / 256)); [lia|].
  rewrite !Z.div_div by lia. split; [apply Z.div_pos; lia|].
  apply Z.div_lt_upper_bound; lia.
Qed.

(** A complete exchange on an idle mailbox carries both messages intact: the
    guest reads the exact length and the exact payload however it splits its
    port reads, the host receives the concatenation of the guest's writes, and
    the mailbox is idle again. *)
Theorem exchange_roundtrip (request : bytes) (ns : list nat) (ds : list bytes) :
  0 < blen request <= MAX_FRAME_BYTES ->
  0 < blen (concat ds) <= MAX_FRAME_BYTES ->
  sum_list ns = (4 + length request)%nat ->
  let '(accepted, m1) := deliver default request in
  let '(data, m2) := reads m1 ns in
  let m3 := commit (foldl write m2 ds) [x01] in
  accepted = true /\
  u32_from_le (take 4 data) = blen request /\ drop 4 data = request /\
  take_response m3 = (Ok (Some (concat ds)), default).
Proof.
  intros Hreq Hds Hns.
  assert (Hd : deliver default request = (true, mkMailbox (frame request) [] true false false)).
  { unfold deliver. cbn. rewrite is_nil_blen, (proj2 (Z.ltb_lt _ _)) by lia.
    by rewrite (proj2 (Z.ltb_ge _ _)) by lia. }
  rewrite Hd, reads_queue. cbn zeta. rewrite Hns.
  assert (Hlen : length (frame request) = (4 + length request)%nat) by done.
  rewrite (take_ge (frame request)), (drop_ge (frame request)) by lia. rewrite Hlen, Nat.sub_diag, app_nil_r.
  rewrite writes_ok by (unfold blen in *; cbn; lia). cbn [app].
  split_and!; [done| |done|].
  - apply u32_le_roundtrip. unfold in_u32, u32_max, MAX_FRAME_BYTES in *. lia.
  - unfold commit. cbn. rewrite is_nil_blen, (proj2 (Z.ltb_lt _ _)) by lia. done.
Qed.

Lemma exchange_roundtrip_witness :
  let '(accepted, m1) := deliver default [x68; x69] in
  let '(data, m2) := reads m1 [2; 3; 1]%nat in
  let m3 := commit (foldl write m2 [[x6f]; []; [x6b; x21]]) [x01] in
  accepted = true /\
  u32_from_le (take 4 data) = 2 /\ drop 4 data = [x68; x69] /\
  take_response m3 = (Ok (Some [x6f; x6b; x21]), default).
Proof.
  apply (exchange_roundtrip [x68; x69] [2; 3; 1]%nat [[x6f]; []; [x6b; x21]]);
    unfold MAX_FRAME_BYTES, blen; cbn; lia.
Defined.

(** ** Poison is permanent and no answer is replayed *)

Definition responded (x : obs) : bool :=
  match x with Response (Ok (Some _)) => true | _ => false end.
Definition delivered (x : obs) : bool :=
  match x with Accepted true => true | _ => false end.
Definition count {A} (p : A -> bool) (l : list A) : nat := length (List.filter p l).

(** Exchanges a phase has open. *)
Definition open_exchanges (p : Phase) : nat :=
  match p with Pending _ _ | Done _ => 1 | _ => 0 end.

Lemma spec_counts ops p :
  (count responded (run spec_step p ops).1 <=
   count delivered (run spec_step p ops).1 + open_exchanges p)%nat.
Proof.
  revert p. induction ops as [|o ops IH]; intros p; [cbn; lia|]. cbn [run].
  destruct (spec_step p o) as [x p'] eqn:E. specialize (IH p').
  destruct (run spec_step p' ops) as [xs p'']. cbn [fst] in IH |- *. unfold count in *. cbn.
  assert (Hs : ((if responded x then 1 else 0) + open_exchanges p' <=
                (if delivered x then 1 else 0) + open_exchanges p)%nat).
  { destruct p as [|[|u unread] out|out|], o; cbn in E;
      repeat case_match; simplify_eq; cbn; lia. }
  destruct (responded x), (delivered x); cbn; lia.
Qed.

Lemma broken_run ops :
  Forall (fun x => delivered x = false /\ responded x = false) (run spec_step Broken ops).1.
Proof.
  induction ops as [|o ops IH]; cbn; [constructor|].
  destruct o; cbn; destruct (run spec_step Broken ops) as [xs p];
    cbn in IH |- *; by constructor.
Qed.

(** In every sequence of accesses the host receives at most one response per
    accepted request, and after a protocol violation (a write or commit out of
    turn, an oversized answer, a malformed commit) nothing is accepted and no
    response is produced ever again. *)
Theorem no_replay_after_poison (before after : list op) :
  (count responded (run step default before).1 <=
   count delivered (run step default before).1)%nat /\
  (poisoned (run step default before).2 = true ->
   Forall (fun x => delivered x = false /\ responded x = false)
     (run step (run step default before).2 after).1).
Proof.
  split.
  - rewrite (proj1 (run_refines before default Idle ltac:(done))). etrans; [apply spec_counts|]. cbn. lia.
  - intros Hp. pose proof (run_refines after (run step default before).2 Broken Hp) as [-> _].
    apply broken_run.
Qed.
