(* ===== verification/Protocol.v ===== *)
(** * The parent turn envelope ([crates/celln-warden/src/parent_protocol.rs])

    The bounded parser of a guest's turn request. The JSON reader is the
    [serde_json] parameter; every check after it is the code's. *)

From S2P Require Import Prelude Instances.

Definition VERSION : string := "celln.parent-turn/v1".
Definition MAX_MESSAGE_BYTES : Z := 2048.
Definition MAX_TURN_INPUT_BYTES : Z := 8192.
Definition MAX_ANSWER_BYTES : Z := 8192.
Definition MAX_TASK_BYTES : Z := 16384.
Definition MAX_REQUEST_BYTES : Z := 2 * MAX_TASK_BYTES + 1024.

Record TurnRequest : Type := mkTurnRequest {
  api_version : string;
  turn_id : string;
  task : string;
}.

#[export] Instance TurnRequest_eq_dec : EqDecision TurnRequest.
Proof. solve_decision. Defined.

#[export] Instance TurnRequest_countable : Countable TurnRequest.
Proof.
  refine (inj_countable'
    (fun r => (api_version r, turn_id r, task r))
    (fun t => mkTurnRequest t.1.1 t.1.2 t.2) _). by intros [].
Defined.

Inductive ProtocolError : Type := Size | Envelope | Version | Identity | Task.

#[export] Instance ProtocolError_eq_dec : EqDecision ProtocolError.
Proof. solve_decision. Defined.

Definition id_byte (b : byte) : bool :=
  is_alnum b || bool_decide (b = x2d) || bool_decide (b = x5f).

Definition bad_identity (r : TurnRequest) : bool :=
  str_is_empty (turn_id r) || (64 <? str_len (turn_id r)) || negb (all_bytes id_byte (turn_id r)).

Definition bad_task (r : TurnRequest) : bool :=
  all_whitespace (as_bytes (task r)) || (MAX_TASK_BYTES <? str_len (task r))
  || str_contains x00 (task r).

Section decode.
Context `{Json TurnRequest}.

Definition decode (b : bytes) : result ProtocolError TurnRequest :=
  _ ← ensure (negb (bool_decide (b = []) || (MAX_REQUEST_BYTES <? blen b))) Size;
  r ← ok_or (from_slice b) Envelope;
  _ ← ensure (String.eqb (api_version r) VERSION) Version;
  _ ← ensure (negb (bad_identity r)) Identity;
  _ ← ensure (negb (bad_task r)) Task;
  Ok r.

(** The requests the parser lets through. *)
Definition valid (r : TurnRequest) : Prop :=
  api_version r = VERSION /\ bad_identity r = false /\ bad_task r = false.

Lemma blen_pos b : b <> [] <-> 0 < blen b.
Proof. unfold blen. destruct b; cbn; split; [done|lia|lia|done]. Qed.

Lemma decode_Ok b r :
  decode b = Ok r <->
    0 < blen b <= MAX_REQUEST_BYTES /\ from_slice b = Some r /\ valid r.
Proof.
  unfold decode, valid. split.
  - intros Hd. split_ok. reflect.
    match goal with H : bool_decide (b = []) = false /\ _ |- _ => destruct H as [Hb Hl] end.
    apply bool_decide_eq_false, blen_pos in Hb. by split_and!.
  - intros ([Hb Hl] & -> & Hv & Hi & Ht). apply blen_pos in Hb.
    rewrite bool_decide_eq_false_2, (proj2 (Z.ltb_ge _ _)) by done. cbn.
    by rewrite Hv, Hi, Ht.
Qed.

(** What the writer produces for a valid request reads back as that request. *)
Lemma decode_encode r :
  valid r -> 0 < blen (to_vec r) <= MAX_REQUEST_BYTES -> decode (to_vec r) = Ok r.
Proof. intros Hv Hl. apply decode_Ok. split_and!; [lia|lia|apply from_to|apply Hv..]. Qed.

(** A turn request is accepted exactly when its encoding is within the frame
    bound, it is the strict envelope, and version, identity and task are in
    range; each refusal is reported by the first check that fails, so an
    oversized input is refused before it is parsed. *)
Theorem decode_branches (b : bytes) :
  decode b =
    if (blen b <=? 0) || (MAX_REQUEST_BYTES <? blen b) then Err Size
    else match from_slice b with
         | None => Err Envelope
         | Some r =>
             if negb (String.eqb (api_version r) "celln.parent-turn/v1") then Err Version
             else if bad_identity r then Err Identity
             else if bad_task r then Err Task
             else Ok r
         end.
Proof.
  unfold decode. assert (E : bool_decide (b = []) = (blen b <=? 0)).
  { destruct b; [done|]. cbn. symmetry. apply Z.leb_gt. unfold blen. cbn. lia. }
  rewrite E. destruct (_ || _); cbn; [done|]. destruct (from_slice b) as [r|]; cbn; [|done].
  unfold VERSION. destruct (String.eqb _ _); cbn; [|done].
  by destruct (bad_identity r), (bad_task r).
Qed.
End decode.

(** A valid identity is a short file-name-safe word. *)
Lemma valid_turn_id `{Json TurnRequest} r :
  valid r -> 0 < str_len (turn_id r) <= 64 /\
    Forall (fun c => is_alnum c = true \/ c = x2d \/ c = x5f) (as_bytes (turn_id r)).
Proof.
  intros (_ & Hi & _). unfold bad_identity in Hi. reflect. destruct Hi as [[He Hl] Ha].
  split.
  - split; [|done]. unfold str_len. destruct (turn_id r); [done|]. cbn. lia.
  - unfold all_bytes in Ha. rewrite forallb_forall in Ha.
    apply Forall_forall. intros c Hc. apply list_elem_of_In in Hc. specialize (Ha _ Hc).
    unfold id_byte in Ha. reflect. rewrite !bool_decide_eq_true in Ha. tauto.
Qed.
