(* ===== verification/Lease.v ===== *)
(** * The parent turn ledger ([crates/celln-warden/src/parent_lease.rs])

    The host-owned budget of one parent incarnation: every turn reserves its
    ceilings in full before the child is launched and nothing is ever refunded.
    [Instant::now()] is an argument of each operation. *)

From S2P Require Import Prelude Instances Manifest Protocol.

Record TurnLimits : Type := mkTurnLimits {
  memory_bytes : Z;
  timeout : Z;
  model_requests : Z;
  output_tokens : Z;
}.

Record ReservedTurn : Type := mkReservedTurn {
  rt_parent : hash;
  rt_child : hash;
  rt_request : TurnRequest;
  rt_limits : TurnLimits;
}.

Record ParentLease : Type := mkParentLease {
  parent : hash;
  deadline : Z;
  limits : TurnLimits;
  turns_left : nat;
  requests_left : Z;
  tokens_left : Z;
  seen : gset string;
  active : option hash;
  stopped : bool;
}.

Inductive LeaseError : Type :=
| Configuration | Protocol | Stopped | Replay | Busy | Budget | Owner.

#[export] Instance LeaseError_eq_dec : EqDecision LeaseError.
Proof. solve_decision. Defined.

(** [(limits.model_requests == 0) != (limits.output_tokens == 0)] and the other
    configuration guards of [ParentLease::new]. *)
Definition bad_configuration (lifetime : Z) (l : TurnLimits) (max_turns : nat)
    (total_requests total_tokens : Z) : bool :=
  (lifetime =? 0) || (timeout l =? 0) || (memory_bytes l =? 0)
  || negb ((1 <=? Z.of_nat max_turns) && (Z.of_nat max_turns <=? 1024))
  || xorb (model_requests l =? 0) (output_tokens l =? 0)
  || (total_requests <? model_requests l) || (total_tokens <? output_tokens l).

Definition new (p : hash) (lifetime : Z) (l : TurnLimits) (max_turns : nat)
    (total_requests total_tokens : Z) (now : Z) : result LeaseError ParentLease :=
  d ← ok_or (instant_checked_add now lifetime) Configuration;
  _ ← ensure (negb (bad_configuration lifetime l max_turns total_requests total_tokens))
        Configuration;
  Ok (mkParentLease p d l max_turns total_requests total_tokens ∅ None false).

Definition set_stopped (s : ParentLease) (b : bool) : ParentLease :=
  mkParentLease (parent s) (deadline s) (limits s) (turns_left s) (requests_left s)
    (tokens_left s) (seen s) (active s) b.

Definition set_active (s : ParentLease) (a : option hash) : ParentLease :=
  mkParentLease (parent s) (deadline s) (limits s) (turns_left s) (requests_left s)
    (tokens_left s) (seen s) a (stopped s).

Definition is_Some_b {A} (o : option A) : bool := match o with Some _ => true | None => false end.

(** [confirm_child_destroyed]. *)
Definition confirm_child_destroyed (s : ParentLease) (child : hash) :
    result LeaseError unit * ParentLease :=
  if bool_decide (active s = Some child) then (Ok tt, set_active s None) else (Err Owner, s).

(** [stop]. *)
Definition stop (s : ParentLease) : option hash * ParentLease := (active s, set_stopped s true).

(** [expired]. *)
Definition expired (s : ParentLease) (now : Z) : bool * ParentLease :=
  let s := if deadline s <=? now then set_stopped s true else s in (stopped s, s).

Section reserve.
Context `{Blake3} `{Json TurnRequest} `{Json (string * string)}.

(** [Hash::of(&serde_json::to_vec(&(&parent.0, &turn_id)).unwrap())]. *)
Definition child_identity (p : hash) (turn : string) : hash := hash_of (to_vec (p, turn)).

Definition reserve_at (s : ParentLease) (b : bytes) (now : Z) :
    result LeaseError ReservedTurn * ParentLease :=
  let s := if deadline s <=? now then set_stopped s true else s in
  if stopped s then (Err Stopped, s) else
  match decode b with
  | Err _ => (Err Protocol, s)
  | Ok request =>
      if bool_decide (turn_id request ∈ seen s) then (Err Replay, s)
      else if is_Some_b (active s) then (Err Busy, s)
      else if Nat.eqb (turns_left s) 0 || (requests_left s <? model_requests (limits s))
              || (tokens_left s <? output_tokens (limits s))
      then (Err Budget, s)
      else
        let child := child_identity (parent s) (turn_id request) in
        let l := limits s in
        (Ok (mkReservedTurn (parent s) child request
               (mkTurnLimits (memory_bytes l)
                  (Z.min (timeout l) (duration_since (deadline s) now))
                  (model_requests l) (output_tokens l))),
         mkParentLease (parent s) (deadline s) l (turns_left s - 1)
           (requests_left s - model_requests l) (tokens_left s - output_tokens l)
           ({[turn_id request]} ∪ seen s) (Some child) (stopped s))
  end.

(** ** Histories of a ledger: every step at any time *)

Inductive op : Type :=
| OReserve (b : bytes) (now : Z)
| OConfirm (child : hash)
| OStop
| OExpired (now : Z).

(** Besides the state, a history records the turns it reserved and the child
    destructions it accepted. *)
Record history : Type := mkHistory {
  state : ParentLease;
  reserved : list ReservedTurn;
  confirmed : list hash;
}.

Definition step (h : history) (o : op) : history :=
  match o with
  | OReserve b now =>
      match reserve_at (state h) b now with
      | (Ok t, s) => mkHistory s (reserved h ++ [t]) (confirmed h)
      | (Err _, s) => mkHistory s (reserved h) (confirmed h)
      end
  | OConfirm c =>
      match confirm_child_destroyed (state h) c with
      | (Ok _, s) => mkHistory s (reserved h) (confirmed h ++ [c])
      | (Err _, s) => mkHistory s (reserved h) (confirmed h)
      end
  | OStop => mkHistory (stop (state h)).2 (reserved h) (confirmed h)
  | OExpired now => mkHistory (expired (state h) now).2 (reserved h) (confirmed h)
  end.

Definition run (s : ParentLease) (ops : list op) : history :=
  foldl step (mkHistory s [] []) ops.

(** The ledger's invariant against the lease [s0] it started from. *)
Record ledger (s0 : ParentLease) (h : history) : Prop := {
  led_fixed : parent (state h) = parent s0 /\ deadline (state h) = deadline s0 /\
              limits (state h) = limits s0;
  led_turns : (turns_left (state h) + length (reserved h))%nat = turns_left s0;
  led_requests : requests_left (state h) +
    Z.of_nat (length (reserved h)) * model_requests (limits s0) = requests_left s0;
  led_tokens : tokens_left (state h) +
    Z.of_nat (length (reserved h)) * output_tokens (limits s0) = tokens_left s0;
  led_left : 0 <= requests_left (state h) /\ 0 <= tokens_left (state h);
  led_seen : seen (state h) = list_to_set ((fun t => turn_id (rt_request t)) <$> reserved h);
  led_ids : NoDup ((fun t => turn_id (rt_request t)) <$> reserved h);
  led_serial : rt_child <$> reserved h = confirmed h ++ option_list (active (state h));
  led_each : Forall (fun t =>
    rt_parent t = parent s0 /\
    rt_child t = child_identity (parent s0) (turn_id (rt_request t)) /\
    valid (rt_request t) /\
    memory_bytes (rt_limits t) = memory_bytes (limits s0) /\
    model_requests (rt_limits t) = model_requests (limits s0) /\
    output_tokens (rt_limits t) = output_tokens (limits s0) /\
    0 < timeout (rt_limits t) <= timeout (limits s0)) (reserved h);
}.

Definition wf_start (s : ParentLease) : Prop :=
  0 < timeout (limits s) /\ 0 <= model_requests (limits s) /\ 0 <= output_tokens (limits s) /\
  0 <= requests_left s /\ 0 <= tokens_left s /\ seen s = ∅ /\ active s = None.

Lemma ledger_start s : wf_start s -> ledger s (mkHistory s [] []).
Proof. intros (? & ? & ? & ? & ? & Hs & Ha). constructor; cbn; rewrite ?Hs, ?Ha; auto; try lia; constructor. Qed.

Lemma ledger_set_stopped s0 s r c :
  ledger s0 (mkHistory s r c) -> ledger s0 (mkHistory (set_stopped s true) r c).
Proof. intros []. constructor; done. Qed.

Lemma expire_ledger s0 s r c now :
  ledger s0 (mkHistory s r c) ->
  ledger s0 (mkHistory (if deadline s <=? now then set_stopped s true else s) r c).
Proof. destruct (_ <=? _); [apply ledger_set_stopped|done]. Qed.

(** The successful branch of [reserve_at], as facts about the ledger. *)
Lemma reserve_at_Ok s b now t s' :
  reserve_at s b now = (Ok t, s') ->
  now < deadline s /\ stopped s = false /\ decode b = Ok (rt_request t) /\
  turn_id (rt_request t) ∉ seen s /\ active s = None /\ (0 < turns_left s)%nat /\
  model_requests (limits s) <= requests_left s /\ output_tokens (limits s) <= tokens_left s /\
  t = mkReservedTurn (parent s) (child_identity (parent s) (turn_id (rt_request t))) (rt_request t)
        (mkTurnLimits (memory_bytes (limits s)) (Z.min (timeout (limits s)) (deadline s - now))
           (model_requests (limits s)) (output_tokens (limits s))) /\
  s' = mkParentLease (parent s) (deadline s) (limits s) (turns_left s - 1)
         (requests_left s - model_requests (limits s)) (tokens_left s - output_tokens (limits s))
         ({[turn_id (rt_request t)]} ∪ seen s) (Some (rt_child t)) false.
Proof.
  unfold reserve_at. destruct (Z.leb_spec (deadline s) now); cbn; [done|].
  destruct (stopped s) eqn:Es; cbn; [done|]. destruct (decode b) as [q|] eqn:Ed; [|done].
  case_bool_decide; [done|]. destruct (active s) eqn:Ea; cbn; [done|].
  destruct (_ || _) eqn:Eb; [done|]. intros [= <- <-]. cbn. reflect.
  destruct Eb as [[Ht Hr] Hk]. apply Nat.eqb_neq in Ht.
  unfold duration_since. rewrite Z.max_r by lia. split_and!; try done; lia.
Qed.

Lemma ledger_step s0 h o : wf_start s0 -> ledger s0 h -> ledger s0 (step h o).
Proof.
  intros (Hto & Hmr & Hot & _) Hl. destruct h as [s r c]. destruct o as [b now|ch| |now]; cbn.
  - destruct (reserve_at s b now) as [[t|e] s'] eqn:E.
    + apply reserve_at_Ok in E as (Hn & _ & Hd & Hseen & Ha & Hturn & Hreq & Htok & Ht & ->).
      apply decode_Ok in Hd as (_ & _ & Hvalid).
      destruct Hl as [(Hp & Hdl & Hli) Htu Hrq Htk Hle Hse Hid Hser Heach]; cbn in *.
      rewrite Hse, elem_of_list_to_set in Hseen. rewrite Ha, app_nil_r in Hser.
      constructor; cbn; rewrite ?length_app, ?fmap_app, ?Nat2Z.inj_add; cbn [length fmap list_fmap].
      * done.
      * lia.
      * rewrite Hli. lia.
      * rewrite Hli. lia.
      * lia.
      * rewrite list_to_set_app_L, Hse. set_solver.
      * apply NoDup_app. split_and!; [done| |apply NoDup_singleton]. set_solver.
      * by rewrite Hser.
      * apply Forall_app. split; [done|]. apply Forall_singleton.
        rewrite Ht. cbn. rewrite Hp, Hli. split_and!; try done; lia.
    + replace s' with (if deadline s <=? now then set_stopped s true else s).
      * by apply expire_ledger.
      * revert E. unfold reserve_at. repeat case_match; by intros [= _ <-].
  - unfold confirm_child_destroyed. case_bool_decide as Ha; [|done].
    destruct Hl as [? Htu Hrq Htk Hle Hse Hid Hser Heach]. cbn in *.
    constructor; cbn; try done. rewrite app_nil_r, Hser, Ha. done.
  - by apply ledger_set_stopped.
  - by apply expire_ledger.
Qed.

Lemma ledger_run s0 ops : wf_start s0 -> ledger s0 (run s0 ops).
Proof.
  intros Hw. unfold run. pose proof (ledger_start s0 Hw) as Hl. revert Hl.
  generalize (mkHistory s0 [] []). induction ops as [|o ops IH]; intros h Hl; cbn; [done|].
  by apply IH, ledger_step.
Qed.

Lemma lease_new_wf p life l n tr tt now s :
  0 <= timeout l -> 0 <= model_requests l -> 0 <= output_tokens l ->
  new p life l n tr tt now = Ok s ->
  wf_start s /\ limits s = l /\ parent s = p /\ turns_left s = n /\ requests_left s = tr /\
  tokens_left s = tt /\ deadline s = now + life /\ (1 <= n <= 1024)%nat.
Proof.
  intros Ht Hm Ho. unfold new. intros E. split_ok. autorewrite with celln in *.
  unfold bad_configuration in *. reflect. unfold wf_start. cbn.
  split_and!; try done; try lia.
Qed.

(** What a history reserved, as the sums of the ceilings that its turns carry. *)
Definition requests_reserved (l : list ReservedTurn) : Z := sum_of ((fun t => model_requests (rt_limits t)) <$> l).
Definition tokens_reserved (l : list ReservedTurn) : Z := sum_of ((fun t => output_tokens (rt_limits t)) <$> l).

Lemma reserved_sums l ts :
  Forall (fun t => model_requests (rt_limits t) = model_requests l /\ output_tokens (rt_limits t) = output_tokens l) ts ->
  requests_reserved ts = Z.of_nat (length ts) * model_requests l /\ tokens_reserved ts = Z.of_nat (length ts) * output_tokens l.
Proof.
  intros Hts. unfold requests_reserved, tokens_reserved. split; (erewrite sum_of_const; [by rewrite length_fmap|]); apply Forall_fmap; (eapply Forall_impl; [exact Hts|]); cbn; tauto.
Qed.

(** A turn within the limits of the lease of [p]. *)
Definition within_lease (p : hash) (l : TurnLimits) (t : ReservedTurn) : Prop :=
  rt_parent t = p /\ valid (rt_request t) /\ rt_child t = child_identity p (turn_id (rt_request t)) /\
  memory_bytes (rt_limits t) = memory_bytes l /\ 0 < timeout (rt_limits t) <= timeout l /\
  model_requests (rt_limits t) = model_requests l /\ output_tokens (rt_limits t) = output_tokens l.

(** The ledger of a new lease, after any history, as bounds on what it reserved. *)
Lemma ledger_bounds p life l max_turns total_requests total_tokens now s0 ops :
  0 <= timeout l -> 0 <= model_requests l -> 0 <= output_tokens l ->
  new p life l max_turns total_requests total_tokens now = Ok s0 ->
  let h := run s0 ops in
  (length (reserved h) <= max_turns <= 1024)%nat /\
  Z.of_nat (length (reserved h)) * model_requests l <= total_requests /\
  Z.of_nat (length (reserved h)) * output_tokens l <= total_tokens /\
  NoDup ((fun t => turn_id (rt_request t)) <$> reserved h) /\
  Forall (within_lease p l) (reserved h) /\
  rt_child <$> reserved h = confirmed h ++ option_list (active (state h)).
Proof.
  intros Ht Hm Ho Hn h.
  destruct (lease_new_wf _ _ _ _ _ _ _ _ Ht Hm Ho Hn) as (Hw & Hl & Hp & Htl & Hr & Hk & _ & Hb).
  destruct (ledger_run s0 ops Hw) as [_ Htu Hrq Htk Hle _ Hid Hser Heach]. fold h in Htu, Hrq, Htk, Hle, Hid, Hser, Heach.
  rewrite Hl in *. split_and!; try lia; try done.
  eapply Forall_impl; [exact Heach|]. unfold within_lease. rewrite Hp. naive_solver.
Qed.

(** C1: the budget of a lease bounds every history. From a lease built with
    [max_turns] turns and total budgets, whatever requests, times, confirmations
    and stops follow: at most [max_turns] turns are reserved, the ceilings of requests
    and of tokens that these turns carry sum to at most the totals, no turn identity is
    reserved twice, every turn is a valid request whose memory, requests and tokens are
    exactly the limits of the lease and whose timeout is positive and at most that of
    the lease, and at most one reserved child, the last, is not yet confirmed destroyed. *)
Theorem lease_budget (p : hash) (life : Z) (l : TurnLimits) (max_turns : nat)
    (total_requests total_tokens now : Z) (s0 : ParentLease) (ops : list op) :
  0 <= timeout l -> 0 <= model_requests l -> 0 <= output_tokens l ->
  new p life l max_turns total_requests total_tokens now = Ok s0 ->
  let h := run s0 ops in
  (length (reserved h) <= max_turns <= 1024)%nat /\
  requests_reserved (reserved h) <= total_requests /\ tokens_reserved (reserved h) <= total_tokens /\
  NoDup ((fun t => turn_id (rt_request t)) <$> reserved h) /\
  Forall (fun t => rt_parent t = p /\ valid (rt_request t) /\
    rt_child t = child_identity p (turn_id (rt_request t)) /\
    memory_bytes (rt_limits t) = memory_bytes l /\ 0 < timeout (rt_limits t) <= timeout l /\
    model_requests (rt_limits t) = model_requests l /\ output_tokens (rt_limits t) = output_tokens l) (reserved h) /\
  rt_child <$> reserved h = confirmed h ++ option_list (active (state h)).
Proof.
  intros Ht Hm Ho Hn h.
  destruct (ledger_bounds _ _ _ _ _ _ _ _ ops Ht Hm Ho Hn) as (Hlen & Hrq & Htk & Hid & Heach & Hser). fold h in Hlen, Hrq, Htk, Hid, Heach, Hser.
  destruct (reserved_sums l (reserved h)) as [Er Et]; [eapply Forall_impl; [exact Heach|]; unfold within_lease; cbn; tauto|].
  rewrite Er, Et. split_and!; done || apply Hlen.
Qed.

Lemma stopped_step h o :
  stopped (state h) = true ->
  stopped (state (step h o)) = true /\ reserved (step h o) = reserved h.
Proof.
  intros Hs. destruct h as [s r c]. cbn in Hs. destruct o as [b now|ch| |now]; cbn.
  - unfold reserve_at. destruct (_ <=? _); cbn; by rewrite ?Hs.
  - unfold confirm_child_destroyed. by case_bool_decide.
  - done.
  - by destruct (_ <=? _).
Qed.

(** Admission closes for good. A successful reservation happens strictly
    before the deadline and its timeout ends by the deadline; from the first
    stop, expiry or attempt at or after the deadline, no later step of any
    history reserves a turn, even if it presents an earlier time. *)
Theorem lease_closes (s0 : ParentLease) (before after : list op) (b : bytes) (now : Z) :
  let h := run s0 before in
  (forall t s', reserve_at (state h) b now = (Ok t, s') ->
     now < deadline (state h) /\ now + timeout (rt_limits t) <= deadline (state h)) /\
  (stopped (state h) || (deadline (state h) <=? now) = true ->
   reserved (foldl step h (OReserve b now :: after)) = reserved h /\
   reserved (foldl step h (OExpired now :: after)) = reserved h) /\
  reserved (foldl step h (OStop :: after)) = reserved h.
Proof.
  intros h. assert (Hrun : forall ops g, stopped (state g) = true -> reserved (foldl step g ops) = reserved g).
  { induction ops as [|o ops IH]; intros g Hg; cbn; [done|].
    destruct (stopped_step g o Hg) as [Hs1 Hs2]. by rewrite IH. }
  split_and!.
  - intros t s' E. apply reserve_at_Ok in E as (Hn & _ & _ & _ & _ & _ & _ & _ & -> & _). cbn. lia.
  - intros Hs. cbn [foldl].
    assert (Hor : stopped (if deadline (state h) <=? now then set_stopped (state h) true else state h) = true).
    { destruct (_ <=? _); [done|]. by rewrite orb_false_r in Hs. }
    split; rewrite Hrun; cbn; try done; unfold reserve_at; by rewrite Hor.
  - cbn [foldl]. by rewrite Hrun.
Qed.
End reserve.

(** ** A concrete ledger *)

#[local] Existing Instance toy_blake3.
#[local] Instance toy_turn_json : Json TurnRequest := countable_json.
#[local] Instance toy_pair_json : Json (string * string) := countable_json.

Definition toy_limits : TurnLimits := mkTurnLimits 4096 30000 3 1536.
Definition toy_request (id : string) : bytes := to_vec (mkTurnRequest VERSION id "hello").
Definition toy_lease : ParentLease :=
  mkParentLease "parent" 60000 toy_limits 4 6 3072 ∅ None false.

(** Two turns fit; the third exceeds the request budget, and a replay is refused. *)
Definition toy_ops : list op :=
  [OReserve (toy_request "one") 5; OReserve (toy_request "two") 6;
   OConfirm (child_identity "parent" "one"); OReserve (toy_request "one") 7;
   OReserve (toy_request "two") 8; OConfirm (child_identity "parent" "two");
   OReserve (toy_request "three") 9].

Lemma lease_budget_witness :
  new "parent" 60000 toy_limits 4 6 3072 0 = Ok toy_lease /\
  (fun t => turn_id (rt_request t)) <$> reserved (run toy_lease toy_ops) = ["one"; "two"] /\
  requests_reserved (reserved (run toy_lease toy_ops)) = 6 /\
  requests_reserved (reserved (run toy_lease toy_ops)) <= 6.
Proof.
  assert (E : new "parent" 60000 toy_limits 4 6 3072 0 = Ok toy_lease) by reflexivity.
  split_and!; [exact E|vm_compute; reflexivity|vm_compute; reflexivity|].
  refine (proj1 (proj2 (lease_budget "parent" 60000 toy_limits 4 6 3072 0 toy_lease toy_ops _ _ _ E)));
    cbn; lia.
Defined.

Lemma lease_closes_witness :
  reserved (foldl step (run toy_lease []) (OReserve (toy_request "one") 60000 ::
    [OReserve (toy_request "one") 5])) = [].
Proof.
  refine (proj1 (proj1 (proj2 (lease_closes toy_lease [] [OReserve (toy_request "one") 5]
    (toy_request "one") 60000)) _)). reflexivity.
Defined.
