(* ===== verification/ChildControl.v ===== *)
(** * Exact child cancellation ([crates/celln-warden/src/parent_child_control.rs])

    The rendezvous through which an authenticated caller may cancel the one
    registered child of a parent. A slot holds a handle into the shared tree of
    [Control.v]; every operation is a function of that tree and the slot. *)

From S2P Require Import Prelude Instances Manifest Protocol Control Lease.

Record Identity : Type := mkIdentity {
  id_parent : hash;
  id_turn : string;
  id_child : hash;
}.

#[export] Instance Identity_eq_dec : EqDecision Identity.
Proof. solve_decision. Defined.

Record Active : Type := mkActive { identity : Identity; control : nat }.

(** [ChildControlSlot]; [lock_poisoned] is the poison flag of its mutex. *)
Record Slot : Type := mkSlot {
  slot_parent : hash;
  slot_control : nat;
  slot_active : option Active;
  slot_seen : gset string;
  lock_poisoned : bool;
}.

Definition new (p : hash) (c : nat) : Slot := mkSlot p c None ∅ false.

Definition with_state (s : Slot) (a : option Active) (seen : gset string) : Slot :=
  mkSlot (slot_parent s) (slot_control s) a seen (lock_poisoned s).

(** [ChildControlSlot::cancel]. *)
Definition cancel (w : World) (s : Slot) (expected : Identity) : result string unit * World :=
  if lock_poisoned s then (Err "child control unavailable", w) else
  match slot_active s with
  | None => (Err "no registered child", w)
  | Some a =>
      if bool_decide (identity a = expected)
      then (Ok tt, Control.cancel w (control a))
      else (Err "child identity mismatch", w)
  end.

(** [ChildControlSlot::retire]. *)
Definition retire (s : Slot) (expected : Identity) : result string unit * Slot :=
  if lock_poisoned s then (Err "child control unavailable", s) else
  match slot_active s with
  | Some a =>
      if bool_decide (identity a = expected)
      then (Ok tt, with_state s None (slot_seen s))
      else (Err "child identity mismatch", s)
  | None => (Err "child identity mismatch", s)
  end.

(** [Drop]: signals the child even behind a poisoned lock. *)
Definition drop_slot (w : World) (s : Slot) : World :=
  match slot_active s with Some a => Control.cancel w (control a) | None => w end.

Section register.
Context `{Blake3} `{Json TurnRequest} `{Json (string * string)}.

(** [ChildControlSlot::register]. *)
Definition register (w : World) (s : Slot) (t : ReservedTurn) :
    result string (Identity * nat) * (World * Slot) :=
  if is_err (decode (to_vec (rt_request t))) then (Err "invalid turn", (w, s)) else
  let child := child_identity (slot_parent s) (turn_id (rt_request t)) in
  if negb (bool_decide (rt_parent t = slot_parent s)) || negb (bool_decide (rt_child t = child))
     || (timeout (rt_limits t) =? 0)
  then (Err "child control differs from reservation", (w, s)) else
  if lock_poisoned s then (Err "child control unavailable", (w, s)) else
  let '(alive, w) := Control.check w (slot_control s) in
  if is_err alive then (Err "parent stopped", (w, s)) else
  if is_Some_b (slot_active s) || (1024 <=? size (slot_seen s))%nat
     || bool_decide (turn_id (rt_request t) ∈ slot_seen s)
  then (Err "active, exhausted or repeated child identity", (w, s)) else
  match Control.child w (slot_control s) (timeout (rt_limits t)) with
  | (None, w) => (Err "invalid child lifetime", (w, s))
  | (Some k, w) =>
      let id := mkIdentity (slot_parent s) (turn_id (rt_request t)) child in
      (Ok (id, k),
       (w, with_state s (Some (mkActive id k)) ({[id_turn id]} ∪ slot_seen s)))
  end.

(** ** Histories of one slot, among arbitrary other uses of the tree *)

Inductive op : Type :=
| ORegister (t : ReservedTurn)
| OCancel (id : Identity)
| ORetire (id : Identity)
| OOther (o : Control.op).

Record history : Type := mkHistory {
  world : World;
  slot : Slot;
  registered : list Identity;
}.

Definition step (h : history) (o : op) : history :=
  match o with
  | ORegister t =>
      let '(r, (w, s)) := register (world h) (slot h) t in
      mkHistory w s (registered h ++ match r with Ok (id, _) => [id] | Err _ => [] end)
  | OCancel id => mkHistory (cancel (world h) (slot h) id).2 (slot h) (registered h)
  | ORetire id => mkHistory (world h) (retire (slot h) id).2 (registered h)
  | OOther o => mkHistory (Control.step (world h) o) (slot h) (registered h)
  end.

Definition run (h : history) (ops : list op) : history := foldl step h ops.

(** What holds of a slot for parent [p] under the control [c]. *)
Record inv (p : hash) (c : nat) (h : history) : Prop := {
  inv_wf : Control.wf (world h);
  inv_fixed : slot_parent (slot h) = p /\ slot_control (slot h) = c;
  inv_seen : slot_seen (slot h) = list_to_set (id_turn <$> registered h);
  inv_ids : NoDup (id_turn <$> registered h);
  inv_bound : (length (registered h) <= 1024)%nat;
  inv_bind : Forall (fun id => id_parent id = p /\ id_child id = child_identity p (id_turn id))
               (registered h);
  inv_active : forall a, slot_active (slot h) = Some a ->
    last (registered h) = Some (identity a) /\
    exists i, heap (world h) !! control a = Some i /\ Control.parent i = Some c;
}.

Lemma inv_advances p c w w' s r :
  Control.wf w' -> advances w w' -> inv p c (mkHistory w s r) -> inv p c (mkHistory w' s r).
Proof.
  intros Hw [_ Ha] []. constructor; cbn in *; try done. intros a Hact.
  destruct (inv_active0 a Hact) as (Hl & i & Hi & Hp). split; [done|].
  destruct (Ha _ _ Hi) as (j & Hj & _ & Pj & _). exists j. split; [done|congruence].
Qed.

Lemma check_world w c : (Control.check w c).2 = (reason w c).2.
Proof. unfold Control.check. by destruct (reason w c). Qed.

Lemma cancel_world w s id :
  Control.wf w -> Control.wf (cancel w s id).2 /\ advances w (cancel w s id).2.
Proof.
  intros Hw. unfold cancel. destruct (lock_poisoned s); [done|].
  destruct (slot_active s); [|done]. case_bool_decide; [|done].
  split; [by apply cancel_wf|apply cancel_advances].
Qed.

Lemma register_world w s t :
  Control.wf w -> Control.wf (register w s t).2.1 /\ advances w (register w s t).2.1.
Proof.
  intros Hw. unfold register. destruct (is_err _); [done|]. destruct (_ || _); [done|].
  destruct (lock_poisoned s); [done|].
  pose proof (check_world w (slot_control s)) as Hc.
  destruct (Control.check w (slot_control s)) as [alive w1]. cbn in Hc. subst w1.
  pose proof (reason_fuel_wf (S (slot_control s)) w (slot_control s) Hw) as Hw1.
  fold (reason w (slot_control s)) in Hw1.
  pose proof (reason_advances w (slot_control s)) as Ha1.
  destruct (is_err alive); [done|]. destruct (_ || _); [done|].
  pose proof (child_wf _ (slot_control s) (timeout (rt_limits t)) Hw1) as Hw2.
  pose proof (child_advances (reason w (slot_control s)).2 (slot_control s) (timeout (rt_limits t))) as Ha2.
  destruct (Control.child _ _ _) as [[k|] w2]; cbn in *;
    (split; [done|exact (transitivity Ha1 Ha2)]).
Qed.

Lemma register_Ok w s t id k w' s' :
  register w s t = (Ok (id, k), (w', s')) ->
  id = mkIdentity (slot_parent s) (turn_id (rt_request t))
         (child_identity (slot_parent s) (turn_id (rt_request t))) /\
  slot_active s = None /\ (size (slot_seen s) < 1024)%nat /\ id_turn id ∉ slot_seen s /\
  s' = with_state s (Some (mkActive id k)) ({[id_turn id]} ∪ slot_seen s) /\
  (Control.child (reason w (slot_control s)).2 (slot_control s) (timeout (rt_limits t))) = (Some k, w') /\
  (reason w (slot_control s)).1 = None.
Proof.
  unfold register. destruct (is_err _); [done|]. destruct (_ || _); [done|].
  destruct (lock_poisoned s); [done|].
  unfold Control.check. destruct (reason w (slot_control s)) as [[sr|] w1] eqn:Er;
    cbn [is_err is_ok negb]; [done|].
  destruct (is_Some_b _ || _ || _) eqn:Eb; [done|].
  apply orb_false_iff in Eb as [[Ea Hsz]%orb_false_iff Hs%bool_decide_eq_false].
  apply Nat.leb_gt in Hsz. destruct (slot_active s); [done|].
  destruct (Control.child w1 _ _) as [[k'|] w2] eqn:Ec; [|done].
  intros [= <- <- <- <-]. by split_and!.
Qed.

Lemma register_Err w s t e w' s' : register w s t = (Err e, (w', s')) -> s' = s.
Proof.
  unfold register. destruct (Control.check _ _) as [alive w1].
  repeat case_match; naive_solver.
Qed.

Lemma child_parent w c d k w' :
  Control.child w c d = (Some k, w') ->
  exists i, heap w' !! k = Some i /\ Control.parent i = Some c.
Proof.
  unfold Control.child. destruct (read_clock w) as [t w1]. repeat case_match; [|done..].
  intros [= <- <-]. cbn. rewrite lookup_app_r, Nat.sub_diag by lia. eexists. by split.
Qed.

Lemma slot_step_inv p c h o : inv p c h -> inv p c (step h o).
Proof.
  intros Hi. destruct h as [w s r]. pose proof (inv_wf _ _ _ Hi) as Hw. cbn in Hw.
  destruct o as [t|id|id|o]; cbn.
  - destruct (register_world w s t Hw) as [Hw' Ha'].
    destruct (register w s t) as [[[id k]|e] [w' s']] eqn:E; cbn in Hw', Ha'.
    + pose proof (register_Ok _ _ _ _ _ _ _ E) as (Hid & Hnone & Hsz & Hns & -> & Hch & _).
      destruct Hi as [_ [Hp Hc] Hseen Hids Hb Hbind _]; cbn in *. rewrite Hp in Hid.
      constructor; cbn; rewrite ?fmap_app, ?length_app; cbn [fmap list_fmap length].
      * done.
      * done.
      * rewrite list_to_set_app_L, Hseen. set_solver.
      * apply NoDup_app. split_and!; [done|set_solver|apply NoDup_singleton].
      * rewrite Hseen, size_list_to_set, length_fmap in Hsz by done. lia.
      * apply Forall_app. split; [done|]. apply Forall_singleton. by subst id.
      * intros a [= <-]. cbn. rewrite last_snoc. split; [done|].
        rewrite Hc in Hch. by eapply child_parent.
    + apply register_Err in E as ->. rewrite app_nil_r. by eapply inv_advances.
  - destruct (cancel_world w s id Hw). by eapply inv_advances.
  - unfold retire. destruct (lock_poisoned s); [done|]. destruct (slot_active s) as [a|]; [|done].
    case_bool_decide; [|done]. destruct Hi. constructor; cbn in *; try done.
  - destruct (step_sound w o Hw). by eapply inv_advances.
Qed.

Lemma run_inv p c w ops :
  Control.wf w -> inv p c (run (mkHistory w (new p c) []) ops).
Proof.
  intros Hw. assert (Hi : inv p c (mkHistory w (new p c) [])).
  { constructor; cbn; auto; [constructor|lia|done]. }
  revert Hi. unfold run. generalize (mkHistory w (new p c) []).
  induction ops as [|o ops IH]; intros h Hi; cbn; [done|]. by apply IH, slot_step_inv.
Qed.

(** An identity is registered at most once in the life of a slot. Whatever
    registrations, cancellations, retirements and other uses of the control
    tree happen, the registered turns are pairwise distinct, at most 1024, each
    bound to the slot's parent and the digest of its turn, and at most the last
    of them is active. *)
Theorem slot_registers_once (p : hash) (t : Z) (ds : list N) (pre : list Control.op) (c : nat)
    (ops : list op) :
  let h := run (mkHistory (Control.run pre (init t ds)) (new p c) []) ops in
  NoDup (id_turn <$> registered h) /\ (length (registered h) <= 1024)%nat /\
  Forall (fun id => id_parent id = p /\ id_child id = child_identity p (id_turn id)) (registered h) /\
  (forall a, slot_active (slot h) = Some a -> last (registered h) = Some (identity a)).
Proof.
  intros h. destruct (run_sound pre (init t ds) (init_wf t ds)) as [Hw _].
  destruct (run_inv p c _ ops Hw) as [_ _ _ Hn Hb Hbind Hact]. fold h in Hn, Hb, Hbind, Hact.
  split_and!; [done|done|done|]. intros a Ha. by apply Hact.
Qed.

(** Cancellation reaches exactly the child named. A request that does not
    carry the identity of the active child changes nothing at all; a matching
    one stops that child and leaves the answer of the parent's own control, and
    of every control that is not below the child, to its own path and deadline. *)
Theorem slot_cancel_exact (p : hash) (t : Z) (ds : list N) (pre : list Control.op) (c : nat)
    (ops : list op) (id : Identity) :
  let h := run (mkHistory (Control.run pre (init t ds)) (new p c) []) ops in
  let '(r, w') := cancel (world h) (slot h) id in
  (is_err r = true -> w' = world h) /\
  (r = Ok tt ->
   exists k, slot_active (slot h) = Some (mkActive id k) /\ (reason w' k).1 <> None /\
     forall d j, heap (world h) !! d = Some j -> k ∉ chain (world h) d ->
       ((reason w' d).1 = None <->
          clear (world h) (chain (world h) d) /\ now (reason w' d).2 < Control.deadline j)) /\
  (lock_poisoned (slot h) = false -> r = Ok tt <-> identity <$> slot_active (slot h) = Some id).
Proof.
  intros h. destruct (run_sound pre (init t ds) (init_wf t ds)) as [Hw _].
  pose proof (run_inv p c _ ops Hw) as Hi. fold h in Hi. unfold cancel.
  destruct (lock_poisoned (slot h)); [done|].
  destruct (slot_active (slot h)) as [a|] eqn:Ea; [|done].
  case_bool_decide as Hid; cbn; (split_and!; [done| |intros _]).
  - intros _. destruct (inv_active _ _ _ Hi a Ea) as (_ & i & Hk & _). subst id.
    destruct a as [id k]. cbn in *. exists k. split; [done|].
    pose proof (inv_wf _ _ _ Hi) as Hwh.
    destruct (cancel_exact_wf (world h) k i Hwh Hk) as [Hself Hother].
    split; [by rewrite Hself|]. intros d j Hj Hnin. rewrite (Hother _ _ Hj). tauto.
  - by rewrite Hid.
  - done.
  - split; [done|]. intros [= E]. by destruct Hid.
Qed.
End register.
