(* ===== verification/Owner.v ===== *)
(** * The owner thread of a persistent runtime ([crates/celln-warden/src/parent_owner.rs])

    One thread owns the runtime and serves at most one exchange at a time from a
    bounded channel. The model interleaves the micro-steps of that thread with
    those of any number of submitting clients and with arbitrary other uses of
    the control tree. The handler and the constructor are arbitrary: each of
    their calls may answer, fail or panic. *)

From S2P Require Import Prelude Instances Manifest Protocol Mailbox Control Lease ChildControl.

Abbreviation Reply := (result string bytes).

(** What the thread is about to do. Exchanges are numbered as they are accepted. *)
Inductive Phase : Type :=
| Starting
| Initializing
| InitFailed (reason : string)          (* the diagnostic is published *)
| InitDraining (reason : string)        (* the control is cancelled *)
| Looping
| Received (n : nat) (b : bytes)
| Running (n : nat) (b : bytes)
| Failing (n : nat) (e : string)        (* cancel before publishing *)
| Publishing (n : nat) (r : Reply)      (* busy := false *)
| Replying (n : nat) (r : Reply)
| Exiting                               (* control.cancel() *)
| Clearing                              (* busy := false *)
| Dropping                              (* the receiver is dropped *)
| Finished
| Panicked.

Record Owner : Type := mkOwner {
  world : World;
  control : nat;
  busy : bool;
  initialized : bool;
  initialization_error : option string;
  queue : option (nat * bytes);     (* sync_channel(1) *)
  phase : Phase;
  children : option Slot;
  (* clients between the micro-steps of [submit] *)
  checked : list bytes;
  claimed : list bytes;
  (* history *)
  accepted : nat;
  invoked : list nat;
  answered : list (nat * Reply);    (* by the handler *)
  replies : list (nat * Reply);
}.

(** Field updates. *)
Definition set_world (o : Owner) w := mkOwner w (control o) (busy o) (initialized o) (initialization_error o) (queue o) (phase o) (children o) (checked o) (claimed o) (accepted o) (invoked o) (answered o) (replies o).
Definition set_busy (o : Owner) b := mkOwner (world o) (control o) b (initialized o) (initialization_error o) (queue o) (phase o) (children o) (checked o) (claimed o) (accepted o) (invoked o) (answered o) (replies o).
Definition set_initialized (o : Owner) := mkOwner (world o) (control o) (busy o) true (initialization_error o) (queue o) (phase o) (children o) (checked o) (claimed o) (accepted o) (invoked o) (answered o) (replies o).
Definition set_init_error (o : Owner) e := mkOwner (world o) (control o) (busy o) (initialized o) (Some e) (queue o) (phase o) (children o) (checked o) (claimed o) (accepted o) (invoked o) (answered o) (replies o).
Definition set_queue (o : Owner) q := mkOwner (world o) (control o) (busy o) (initialized o) (initialization_error o) q (phase o) (children o) (checked o) (claimed o) (accepted o) (invoked o) (answered o) (replies o).
Definition set_phase (o : Owner) p := mkOwner (world o) (control o) (busy o) (initialized o) (initialization_error o) (queue o) p (children o) (checked o) (claimed o) (accepted o) (invoked o) (answered o) (replies o).
Definition set_clients (o : Owner) a b := mkOwner (world o) (control o) (busy o) (initialized o) (initialization_error o) (queue o) (phase o) (children o) a b (accepted o) (invoked o) (answered o) (replies o).
Definition add_accepted (o : Owner) b := mkOwner (world o) (control o) (busy o) (initialized o) (initialization_error o) (Some (accepted o, b)) (phase o) (children o) (checked o) (claimed o) (S (accepted o)) (invoked o) (answered o) (replies o).
Definition add_invoked (o : Owner) n := mkOwner (world o) (control o) (busy o) (initialized o) (initialization_error o) (queue o) (phase o) (children o) (checked o) (claimed o) (accepted o) (invoked o ++ [n]) (answered o) (replies o).
Definition add_answered (o : Owner) n r := mkOwner (world o) (control o) (busy o) (initialized o) (initialization_error o) (queue o) (phase o) (children o) (checked o) (claimed o) (accepted o) (invoked o) (answered o ++ [(n, r)]) (replies o).
Definition add_reply (o : Owner) n r := mkOwner (world o) (control o) (busy o) (initialized o) (initialization_error o) (queue o) (phase o) (children o) (checked o) (claimed o) (accepted o) (invoked o) (answered o) (replies o ++ [(n, r)]).

(** [owner_control.check()] and [owner_control.cancel()]. *)
Definition check_control (o : Owner) : result string unit * Owner :=
  let '(r, w) := Control.check (world o) (control o) in (r, set_world o w).
Definition cancel_control (o : Owner) : Owner :=
  set_world o (Control.cancel (world o) (control o)).

(** ** Construction: [spawn], [spawn_with_children] and [spawn_controlled]. *)

Definition spawn_controlled (w : World) (c : nat) (ch : option Slot) : Owner :=
  mkOwner w c false false None None Starting ch [] [] 0 [] [] [].

(** [None] is the I/O error of an overflowing deadline. *)
Definition spawn (w : World) (lifetime : Z) : option Owner * World :=
  match Control.new w lifetime with
  | (Some c, w) => (Some (spawn_controlled w c None), w)
  | (None, w) => (None, w)
  end.

Definition spawn_with_children (w : World) (p : hash) (lifetime : Z) : option Owner * World :=
  match Control.new w lifetime with
  | (Some c, w) => (Some (spawn_controlled w c (Some (ChildControl.new p c))), w)
  | (None, w) => (None, w)
  end.

(** ** The thread *)

(** What the environment decides for a micro-step: the results of the
    constructor and of the handler, a panic in either, a receive timeout, or the
    disconnection seen once every sender is gone. *)
Inductive event : Type :=
| Go
| InitResult (r : result string unit)
| HandlerResult (r : Reply)
| Panic
| Timeout
| Disconnected.

Definition init_reason (e : string) : string :=
  ("parent initialization failed: " ++ from_utf8 (take_chars 512 (as_bytes e)))%string.

Definition bounded_output (out : bytes) : Reply :=
  if MAX_FRAME_BYTES <? blen out then Err "parent response exceeds owner bound" else Ok out.

(** Where a computed result goes: a failure is cancelled first. *)
Definition after_result (n : nat) (r : Reply) : Phase :=
  match r with Err e => Failing n e | Ok out => Publishing n (Ok out) end.

Definition thread_step (o : Owner) (ev : event) : option Owner :=
  match phase o, ev with
  | Starting, Go =>
      let '(r, o) := check_control o in
      Some (set_phase o (if is_err r then Exiting else Initializing))
  | Initializing, InitResult (Ok _) => Some (set_phase (set_initialized o) Looping)
  | Initializing, InitResult (Err e) =>
      Some (set_phase (set_init_error o (init_reason e)) (InitFailed (init_reason e)))
  | Initializing, Panic => Some (set_phase o Panicked)
  | InitFailed reason, Go => Some (set_phase (cancel_control o) (InitDraining reason))
  | InitDraining reason, Go =>
      let o := set_phase o Exiting in
      Some (match queue o with
            | Some (n, _) => add_reply (set_queue o None) n (Err reason)
            | None => o
            end)
  | Looping, Go =>
      let '(r, o) := check_control o in
      if is_err r then Some (set_phase o Exiting) else
      match queue o with
      | Some (n, b) => Some (set_phase (set_queue o None) (Received n b))
      | None => None
      end
  | Looping, Timeout =>
      let '(r, o) := check_control o in
      Some (if is_err r then set_phase o Exiting else o)
  | Looping, Disconnected =>
      let '(r, o) := check_control o in Some (set_phase o Exiting)
  | Received n b, Go =>
      let '(r, o) := check_control o in
      match r with
      | Err e => Some (set_phase o (Failing n e))
      | Ok _ => Some (add_invoked (set_phase o (Running n b)) n)
      end
  | Running n b, HandlerResult (Err e) => Some (set_phase (add_answered o n (Err e)) (Failing n e))
  | Running n b, HandlerResult (Ok out) =>
      let '(r, o) := check_control o in
      let o := add_answered o n (Ok out) in
      match r with
      | Err e => Some (set_phase o (Failing n e))
      | Ok _ => Some (set_phase o (after_result n (bounded_output out)))
      end
  | Running n b, Panic => Some (set_phase o Panicked)
  | Failing n e, Go => Some (set_phase (cancel_control o) (Publishing n (Err e)))
  | Publishing n r, Go => Some (set_phase (set_busy o false) (Replying n r))
  | Replying n r, Go => Some (set_phase (add_reply o n r) (if is_err r then Exiting else Looping))
  | Exiting, Go => Some (set_phase (cancel_control o) Clearing)
  | Clearing, Go => Some (set_phase (set_busy o false) Dropping)
  | Dropping, Go => Some (set_phase (set_queue o None) Finished)
  | _, _ => None
  end.

(** The receiver lives until the thread's closure is dropped. *)
Definition receiver_alive (o : Owner) : bool :=
  match phase o with Finished | Panicked => false | _ => true end.

(** [is_finished], for an owner whose thread has not been joined. *)
Definition is_finished (o : Owner) : bool := negb (receiver_alive o).

(** ** The micro-steps of [submit] *)

Definition submit_check (o : Owner) (b : bytes) : result string unit * Owner :=
  match initialization_error o with
  | Some e => (Err e, o)
  | None =>
      let '(r, o) := check_control o in
      match r with
      | Err e => (Err e, o)
      | Ok _ =>
          if is_nil b || (MAX_FRAME_BYTES <? blen b)
          then (Err "parent input exceeds owner bound", o)
          else (Ok tt, set_clients o (b :: checked o) (claimed o))
      end
  end.

(** [busy.compare_exchange(false, true)] of a client that passed the checks. *)
Definition submit_claim (o : Owner) (i : nat) : option (result string unit * Owner) :=
  b ← checked o !! i;
  let rest := delete i (checked o) in
  Some (if busy o
        then (Err "parent exchange already active", set_clients o rest (claimed o))
        else (Ok tt, set_busy (set_clients o rest (b :: claimed o)) true)).

(** [try_send]: the number of the accepted exchange, or the flag is given back. *)
Definition submit_send (o : Owner) (i : nat) : option (result string nat * Owner) :=
  b ← claimed o !! i;
  let o := set_clients o (checked o) (delete i (claimed o)) in
  Some (if receiver_alive o && negb (is_Some_b (queue o))
        then (Ok (accepted o), add_accepted o b)
        else (Err "parent owner unavailable", set_busy o false)).

(** [submit] run without interruption, as under the registry's lock. *)
Definition submit (o : Owner) (b : bytes) : result string nat * Owner :=
  match submit_check o b with
  | (Err e, o) => (Err e, o)
  | (Ok _, o) =>
      match submit_claim o 0 with
      | Some (Ok _, o) =>
          match submit_send o 0 with Some (r, o) => (r, o) | None => (Err "", o) end
      | Some (Err e, o) => (Err e, o)
      | None => (Err "", o)
      end
  end.

(** ** The other operations *)

Definition cancel (o : Owner) : Owner := cancel_control o.

Definition cancel_child (o : Owner) (id : Identity) : result string unit * Owner :=
  let '(r, o) := check_control o in
  match r with
  | Err e => (Err e, o)
  | Ok _ =>
      match children o with
      | None => (Err "owner has no child cancellation contract", o)
      | Some s => let '(r, w) := ChildControl.cancel (world o) s id in (r, set_world o w)
      end
  end.

Inductive OwnerStatus : Type := SInitializing | SReady | STurnActive | SStopping | SContextLost.

#[export] Instance OwnerStatus_eq_dec : EqDecision OwnerStatus.
Proof. solve_decision. Defined.

Definition status (o : Owner) : OwnerStatus * Owner :=
  if is_finished o then (SContextLost, o) else
  let '(r, o) := check_control o in
  (if is_err r then SStopping
   else if negb (initialized o) then SInitializing
   else if busy o then STurnActive else SReady, o).

(** [stop_and_join]: cancels, then waits for the thread; [None] while it runs. *)
Definition join (o : Owner) : option (result string unit) :=
  match phase o with
  | Finished => Some (Ok tt)
  | Panicked => Some (Err "parent owner panicked; reconcile context loss")
  | _ => None
  end.

(** ** Interleavings *)

Inductive step (o : Owner) : Owner -> Prop :=
| step_thread ev o' : thread_step o ev = Some o' -> step o o'
| step_check b : step o (submit_check o b).2
| step_claim i r o' : submit_claim o i = Some (r, o') -> step o o'
| step_send i r o' : submit_send o i = Some (r, o') -> step o o'
| step_cancel : step o (cancel o)
| step_cancel_child id : step o (cancel_child o id).2
| step_status : step o (status o).2
| step_world w : Control.wf w -> advances (world o) w -> step o (set_world o w).

Inductive steps (o : Owner) : Owner -> Prop :=
| steps_refl : steps o o
| steps_snoc o1 o2 : steps o o1 -> step o1 o2 -> steps o o2.

Definition stopped (o : Owner) : Prop := load_reason (world o) (control o) <> None.

(** The exchange the thread holds, and whether it still counts as busy. *)
Definition current (o : Owner) : option nat :=
  match phase o with
  | Received n _ | Running n _ | Failing n _ | Publishing n _ | Replying n _ => Some n
  | _ => None
  end.
Definition holding (o : Owner) : nat :=
  match phase o with Received _ _ | Running _ _ | Failing _ _ | Publishing _ _ => 1 | _ => 0 end.
Definition queued (o : Owner) : nat := match queue o with Some _ => 1 | None => 0 end.
Definition cleared (o : Owner) : bool :=
  match phase o with Dropping | Finished | Panicked => true | _ => false end.

(** The thread has not yet given up serving. *)
Definition serving (o : Owner) : bool :=
  match phase o with
  | InitDraining _ | Exiting | Clearing | Dropping | Finished | Panicked => false
  | _ => true
  end.

(** Exchanges not yet given to the handler. *)
Definition unhandled (o : Owner) : option nat :=
  match phase o with Received n _ => Some n | _ => None end.

(** The exchange the handler works on, and a successful result on its way out. *)
Definition running (o : Owner) : option nat :=
  match phase o with Running n _ => Some n | _ => None end.
Definition ok_result (o : Owner) : option (nat * bytes) :=
  match phase o with Publishing n (Ok out) | Replying n (Ok out) => Some (n, out) | _ => None end.

(** Phases that are reached only after the control is stopped. *)
Definition after_stop (o : Owner) : bool :=
  match phase o with
  | InitDraining _ | Publishing _ (Err _) | Replying _ (Err _) | Clearing | Dropping | Finished => true
  | _ => false
  end.

Record inv (o : Owner) : Prop := {
  inv_wf : Control.wf (world o);
  inv_control : is_Some (heap (world o) !! control o);
  inv_busy : cleared o = false ->
    (length (claimed o) + queued o + holding o <= if busy o then 1 else 0)%nat;
  inv_exact : serving o = true -> busy o = true ->
    (length (claimed o) + queued o + holding o = 1)%nat;
  inv_stop : after_stop o = true -> stopped o;
  inv_errors : forall n e, (n, Err e) ∈ replies o -> stopped o;
  inv_invoked : NoDup (invoked o) /\ forall n, n ∈ invoked o -> (n < accepted o)%nat;
  inv_replies : NoDup (replies o).*1 /\ forall n, n ∈ (replies o).*1 -> (n < accepted o)%nat;
  inv_queue : forall n b, queue o = Some (n, b) ->
    (n < accepted o)%nat /\ n ∉ invoked o /\ n ∉ (replies o).*1 /\ current o <> Some n;
  inv_current : forall n, current o = Some n -> (n < accepted o)%nat /\ n ∉ (replies o).*1;
  inv_unhandled : forall n, unhandled o = Some n -> n ∉ invoked o;
  inv_running : forall n, running o = Some n -> n ∈ invoked o /\ n ∉ (answered o).*1;
  inv_answered : NoDup (answered o).*1 /\ forall n, n ∈ (answered o).*1 -> n ∈ invoked o;
  inv_served : forall n out, ok_result o = Some (n, out) \/ (n, Ok out) ∈ replies o ->
    (n, Ok out) ∈ answered o /\ blen out <= MAX_FRAME_BYTES;
}.

Lemma stopped_set_world o w : advances (world o) w -> stopped o -> stopped (set_world o w).
Proof. apply load_reason_stays. Qed.

Lemma inv_set_world o w : Control.wf w -> advances (world o) w -> inv o -> inv (set_world o w).
Proof.
  intros Hw Ha []. constructor; cbn; try done.
  - by eapply advances_heap.
  - intros Hs. by apply stopped_set_world, inv_stop0.
  - intros n e Hin. by eapply stopped_set_world, inv_errors0.
Qed.

(** [check] moves only the world, and reports a stop that has been recorded. *)
Lemma check_control_spec o r o' :
  inv o -> check_control o = (r, o') ->
  exists w, o' = set_world o w /\ inv o' /\ advances (world o) w /\
    (is_err r = true -> stopped o') /\ (is_err r = false -> ~ stopped o).
Proof.
  intros Hi E. unfold check_control in E.
  destruct (Control.check (world o) (control o)) as [r' w] eqn:Ec. injection E as <- <-.
  destruct (Control.check_spec _ _ _ _ (inv_wf _ Hi) (inv_control _ Hi) Ec) as (Hw & Ha & He & Ho).
  exists w. split_and!; try done.
  - by apply inv_set_world.
  - intros Hr Hs. by apply Hs, Ho.
Qed.

Lemma cancel_control_spec o :
  inv o -> inv (cancel_control o) /\ stopped (cancel_control o) /\ advances (world o) (world (cancel_control o)).
Proof.
  intros Hi. unfold cancel_control. pose proof (cancel_advances (world o) (control o)) as Ha.
  split_and!; [|exact (cancel_stops _ _ (inv_wf _ Hi) (inv_control _ Hi))|done].
  apply inv_set_world; [|done|done]. apply cancel_wf, (inv_wf _ Hi).
Qed.

Ltac inv_case Hi :=
  destruct Hi as [? ? Hbusy Hexact Hstop Herr [Hnd Hlt] [Hrnd Hrlt] Hq Hcur Hun Hrun [Hand Hain] Hserved];
  constructor;
  unfold cleared, serving, after_stop, queued, holding, current, unhandled, running, ok_result, stopped in *;
  cbn in *.

Lemma NoDup_snoc {A} (l : list A) x : NoDup l -> x ∉ l -> NoDup (l ++ [x]).
Proof. intros. apply NoDup_app. split_and!; [done|set_solver|apply NoDup_singleton]. Qed.

Lemma NoDup_fst_unique {A B} (l : list (A * B)) k x y : NoDup l.*1 -> (k, x) ∈ l -> (k, y) ∈ l -> x = y.
Proof.
  induction l as [|[k' z] l IH]; [by intros _ ?%elem_of_nil|]. cbn. intros [Hn Hd]%NoDup_cons.
  assert (Hk : forall v, (k, v) ∈ l -> k ∈ l.*1) by (intros v Hv; apply list_elem_of_fmap; by exists (k, v)).
  intros [Ex|Hx]%elem_of_cons [Ey|Hy]%elem_of_cons; simplify_eq; [done|by destruct Hn; eapply Hk|by destruct Hn; eapply Hk|auto].
Qed.

(** Histories grow by one entry at a time. *)
Ltac inv_solve :=
  cbn in *; intros;
  repeat match goal with
    | H : forall x y, Some (?a, ?b) = Some (x, y) -> _ |- _ => specialize (H _ _ eq_refl)
    | H : forall x, Some ?a = Some x -> _ |- _ => specialize (H _ eq_refl)
    | H : _ \/ _ |- _ => destruct H
    | H : _ /\ _ |- _ => destruct H
    | H : _ ∈ _ ++ [_] |- _ => apply elem_of_app in H as [H|H%list_elem_of_singleton]
    | H : _ ∈ (_ ++ [_]).*1 |- _ =>
        rewrite fmap_app in H; cbn in H; apply elem_of_app in H as [H|H%list_elem_of_singleton]
    | |- _ /\ _ => split
    | |- forall _, _ => intro
    end;
  simplify_eq; try done; try lia;
  try match goal with
    | Hb : _ = _ -> (_ <= (if busy ?o then _ else _))%nat |- (_ <= _)%nat =>
        specialize (Hb eq_refl); destruct (busy o); lia
    end;
  eauto;
  rewrite ?fmap_app; cbn; eauto using NoDup_snoc;
  try solve [rewrite ?elem_of_app, ?list_elem_of_singleton; timeout 5 naive_solver lia].

Ltac use_check Hi w Hs :=
  match goal with
  | |- context [check_control ?o] =>
      let r := fresh "r" in let o1 := fresh "o1" in let Ec := fresh "Ec" in
      destruct (check_control o) as [r o1] eqn:Ec;
      destruct (check_control_spec _ _ _ Hi Ec) as (w & -> & Hi1 & _ & Hs & _); clear Ec
  end.

Lemma thread_step_inv o ev o' : inv o -> thread_step o ev = Some o' -> inv o'.
Proof.
  intros Hi. unfold thread_step. destruct (phase o) as
    [| |rs|rs| |n b|n b|n e|n r|n r| | | | |] eqn:Hp; destruct ev as [|[u|e']|[out|e']| | |]; try done.
  - use_check Hi w Hs. intros [= <-]. clear Hi.
    inv_case Hi1; rewrite Hp in *; destruct (is_err r); cbn in *; naive_solver.
  - intros [= <-]. inv_case Hi; rewrite Hp in *; naive_solver.
  - intros [= <-]. inv_case Hi; rewrite Hp in *; naive_solver.
  - intros [= <-]. inv_case Hi; rewrite Hp in *; naive_solver.
  - destruct (cancel_control_spec _ Hi) as (Hi1 & Hs & _). intros [= <-].
    inv_case Hi1; rewrite Hp in *; naive_solver.
  - intros [= <-]. destruct (queue o) as [[n b]|] eqn:Eq; inv_case Hi; rewrite Hp, ?Eq in *; inv_solve.
  - use_check Hi w Hs. destruct (is_err r) eqn:Er.
    + intros [= <-]. inv_case Hi1; rewrite Hp in *; inv_solve.
    + cbn. destruct (queue o) as [[n b]|] eqn:Eq; [|done]. intros [= <-].
      inv_case Hi1; rewrite Hp, ?Eq in *; inv_solve.
  - use_check Hi w Hs. intros [= <-]. destruct (is_err r); [|done].
    inv_case Hi1; rewrite Hp in *; inv_solve.
  - use_check Hi w Hs. intros [= <-]. inv_case Hi1; rewrite Hp in *; inv_solve.
  - use_check Hi w Hs. destruct r; intros [= <-]; inv_case Hi1; rewrite Hp in *; inv_solve.
  - use_check Hi w Hs. destruct r; [unfold bounded_output|].
    + destruct (Z.ltb_spec MAX_FRAME_BYTES (blen out)); cbn [after_result];
        intros [= <-]; inv_case Hi1; rewrite Hp in *; inv_solve.
    + intros [= <-]; inv_case Hi1; rewrite Hp in *; inv_solve.
  - intros [= <-]. inv_case Hi; rewrite Hp in *; inv_solve.
  - intros [= <-]. inv_case Hi; rewrite Hp in *; inv_solve.
  - destruct (cancel_control_spec _ Hi) as (Hi1 & Hs & _). intros [= <-].
    inv_case Hi1; rewrite Hp in *; inv_solve.
  - intros [= <-]. inv_case Hi; rewrite Hp in *; destruct r; inv_solve.
  - intros [= <-]. inv_case Hi; rewrite Hp in *; destruct r; cbn in *; inv_solve.
  - destruct (cancel_control_spec _ Hi) as (Hi1 & Hs & _). intros [= <-].
    inv_case Hi1; rewrite Hp in *; inv_solve.
  - intros [= <-]. inv_case Hi; rewrite Hp in *; inv_solve.
  - intros [= <-]. inv_case Hi; rewrite Hp in *; inv_solve.
Qed.

Lemma length_delete_lookup {A} (l : list A) i x :
  l !! i = Some x -> S (length (delete i l)) = length l.
Proof. intros Hi. rewrite length_delete by eauto. apply lookup_lt_Some in Hi. lia. Qed.

Lemma set_clients_inv o a : inv o -> inv (set_clients o a (claimed o)).
Proof. intros []. by constructor. Qed.

Lemma submit_check_inv o b : inv o -> inv (submit_check o b).2.
Proof.
  intros Hi. unfold submit_check. destruct (initialization_error o); [done|].
  use_check Hi w Hs. destruct r; [|done]. destruct (_ || _); [done|]. by apply set_clients_inv.
Qed.

Lemma submit_claim_inv o i r o' : inv o -> submit_claim o i = Some (r, o') -> inv o'.
Proof.
  intros Hi. unfold submit_claim. destruct (checked o !! i) as [b|]; [|done]. cbn.
  destruct (busy o) eqn:Hb; intros [= <- <-]; [by apply set_clients_inv|].
  destruct Hi as [? ? Hbusy Hexact]. constructor; try done.
  - intros Hc. specialize (Hbusy Hc). rewrite Hb in Hbusy. cbn. unfold queued, holding in *. cbn in *. lia.
  - intros Hs _. assert (Hc : cleared o = false) by (unfold serving, cleared in *; cbn in *; by destruct (phase o)).
    specialize (Hbusy Hc). rewrite Hb in Hbusy. unfold queued, holding in *. cbn in *. lia.
Qed.

Lemma submit_send_inv o i r o' : inv o -> submit_send o i = Some (r, o') -> inv o'.
Proof.
  intros Hi. unfold submit_send. destruct (claimed o !! i) as [b|] eqn:Hc; [|done]. cbn.
  pose proof (length_delete_lookup _ _ _ Hc) as Hlen.
  unfold receiver_alive. cbn. destruct (queue o) as [[n q]|] eqn:Hqu.
  - cbn. rewrite andb_false_r. intros [= <- <-]. destruct Hi as [? ? Hbusy Hexact]. constructor; try done.
    + intros Hcl. specialize (Hbusy Hcl). unfold queued in *. rewrite Hqu in Hbusy.
      cbn in *. destruct (busy o); lia.
  - destruct (cleared o) eqn:Hcl.
    + unfold cleared in Hcl. destruct (phase o) eqn:Hp; try done; cbn;
        intros [= <- <-]; inv_case Hi; rewrite ?Hp, ?Hqu in *; inv_solve.
    + replace (match phase o with Finished | Panicked => false | _ => true end) with true
        by (unfold cleared in Hcl; by destruct (phase o)). cbn.
      intros [= <- <-]; inv_case Hi; rewrite ?Hqu in *; inv_solve.
Qed.

Lemma owner_step_inv o o' : inv o -> step o o' -> inv o'.
Proof.
  intros Hi Hst. destruct Hst as [ev o1 Ht|b|i r o1 Hc|i r o1 Hs| |id| |w Hw Ha].
  - by eapply thread_step_inv.
  - by apply submit_check_inv.
  - by eapply submit_claim_inv.
  - by eapply submit_send_inv.
  - by apply cancel_control_spec.
  - unfold cancel_child. use_check Hi w Hs. destruct r; [|done].
    destruct (children (set_world o w)) as [s|]; [|done].
    destruct (ChildControl.cancel (world (set_world o w)) s id) as [r w'] eqn:Ec. cbn.
    pose proof (ChildControl.cancel_world (world (set_world o w)) s id (inv_wf _ Hi1)) as [Hw' Ha'].
    rewrite Ec in Hw', Ha'. by apply inv_set_world.
  - unfold status. destruct (is_finished o); [done|]. use_check Hi w Hs. done.
  - by apply inv_set_world.
Qed.

Lemma steps_inv o o' : inv o -> steps o o' -> inv o'.
Proof. intros Hi Hs. induction Hs; [done|]. by eapply owner_step_inv. Qed.

Lemma spawn_controlled_inv w c ch :
  Control.wf w -> is_Some (heap w !! c) -> inv (spawn_controlled w c ch).
Proof. intros Hw Hc. constructor; cbn; try done; try (split; [constructor|]); try set_solver. Qed.

Lemma control_new_Some w d c w' :
  Control.wf w -> Control.new w d = (Some c, w') -> Control.wf w' /\ is_Some (heap w' !! c).
Proof.
  intros Hw E. split; [pose proof (Control.new_wf w d Hw) as Hn; by rewrite E in Hn|].
  unfold Control.new in E. destruct (read_clock w) as [t w1].
  destruct (instant_checked_add t d); [|done]. injection E as <- <-. cbn.
  rewrite lookup_app_r, Nat.sub_diag by lia. eauto.
Qed.

(** Every owner that [spawn] or [spawn_with_children] can build. *)
Definition spawned (o : Owner) : Prop :=
  exists t ds pre lifetime w,
    spawn (Control.run pre (init t ds)) lifetime = (Some o, w) \/
    exists p, spawn_with_children (Control.run pre (init t ds)) p lifetime = (Some o, w).

Lemma spawned_inv o : spawned o -> inv o.
Proof.
  intros (t & ds & pre & d & w & Hs). destruct (run_sound pre (init t ds) (init_wf t ds)) as [Hw _].
  unfold spawn, spawn_with_children in Hs.
  destruct (Control.new (Control.run pre (init t ds)) d) as [[c|] w'] eqn:E.
  - destruct (control_new_Some _ _ _ _ Hw E) as [Hw' Hc].
    destruct Hs as [[= <- <-] | [p [= <- <-]]]; by apply spawn_controlled_inv.
  - by destruct Hs as [?|[p ?]].
Qed.

(** C27: an owner runs at most one exchange and answers it at most once. In every
    interleaving of the owner thread, any number of submitting clients and any
    other use of the control tree: no exchange is given to the handler twice, no
    exchange is answered twice, a successful answer is the bytes that the handler
    answered that exchange with - its one answer, no failure - and is within the
    frame bound, and until the owner winds down at most one
    accepted exchange is waiting or in progress. *)
Theorem owner_exchanges (o0 o : Owner) :
  spawned o0 -> steps o0 o ->
  NoDup (invoked o) /\ NoDup (replies o).*1 /\
  (forall n out, (n, Ok out) ∈ replies o -> n ∈ invoked o /\ blen out <= MAX_FRAME_BYTES /\
     forall r, (n, r) ∈ answered o <-> r = Ok out) /\
  (cleared o = false -> (queued o + holding o <= 1)%nat).
Proof.
  intros H0 Hs. destruct (steps_inv _ _ (spawned_inv _ H0) Hs).
  split_and!; [apply inv_invoked0|apply inv_replies0| |].
  { intros n out Hr. destruct (inv_served0 n out (or_intror Hr)) as [Ha Hl]. destruct inv_answered0 as [Hnd Hin].
    split_and!; [apply Hin; apply list_elem_of_fmap; by exists (n, Ok out)|done|]. intros r. split; [|by intros ->].
    intros Hr'. by eapply NoDup_fst_unique. }
  intros Hc. specialize (inv_busy0 Hc). destruct (busy o); lia.
Qed.

Lemma step_stopped o o' : inv o -> stopped o -> step o o' -> stopped o'.
Proof.
  intros Hi Hs Hst.
  assert (Hadv : control o' = control o /\ advances (world o) (world o')).
  { destruct Hst as [ev o1 Ht|b|i r o1 Hc|i r o1 Hc| |id| |w Hw Ha].
    - unfold thread_step in Ht.
      assert (Hcheck : forall r oc, check_control o = (r, oc) ->
        control oc = control o /\ advances (world o) (world oc)).
      { intros r oc E. destruct (check_control_spec _ _ _ Hi E) as (w & -> & _ & Ha & _). done. }
      destruct (cancel_control_spec _ Hi) as (_ & _ & Hca).
      destruct (check_control o) as [r o2] eqn:Ec. specialize (Hcheck _ _ eq_refl) as [Hc1 Hc2].
      repeat case_match; simplify_eq; cbn; rewrite ?Hc1; done.
    - unfold submit_check. destruct (initialization_error o); [done|].
      destruct (check_control o) as [r o1] eqn:E.
      destruct (check_control_spec _ _ _ Hi E) as (w & -> & _ & Ha & _).
      destruct r; [|done]. by destruct (_ || _).
    - unfold submit_claim in Hc. destruct (checked o !! i); [|done].
      destruct (busy o); injection Hc as <- <-; done.
    - unfold submit_send in Hc. destruct (claimed o !! i); [|done]. cbn in Hc.
      destruct (_ && _); injection Hc as <- <-; done.
    - split; [done|]. apply (cancel_control_spec _ Hi).
    - unfold cancel_child. destruct (check_control o) as [r o1] eqn:E.
      destruct (check_control_spec _ _ _ Hi E) as (w & -> & Hi1 & Ha & _).
      destruct r; [|done]. destruct (children _) as [s|]; [|done].
      destruct (ChildControl.cancel (world (set_world o w)) s id) as [r w'] eqn:Ecc. cbn.
      pose proof (ChildControl.cancel_world (world (set_world o w)) s id (inv_wf _ Hi1)) as [_ Ha'].
      rewrite Ecc in Ha'. split; [done|exact (transitivity Ha Ha')].
    - unfold status. destruct (is_finished o); [done|]. destruct (check_control o) as [r o1] eqn:E.
      by destruct (check_control_spec _ _ _ Hi E) as (w & -> & _ & Ha & _).
    - done. }
  destruct Hadv as [Hc Ha]. unfold stopped. rewrite Hc. by eapply load_reason_stays.
Qed.

(** A stopped owner gives nothing more to its handler. *)
Lemma step_invoked o o' : inv o -> stopped o -> step o o' -> invoked o' = invoked o.
Proof.
  intros Hi Hs [ev o1 Ht|b|i r o1 Hc|i r o1 Hc| |id| |w Hw Ha]; try done.
  - unfold thread_step in Ht. destruct (check_control o) as [r o2] eqn:E.
    destruct (check_control_spec _ _ _ Hi E) as (w & -> & _ & _ & _ & Hno).
    assert (Hr : is_err r = true) by (destruct r; [by destruct (Hno eq_refl)|done]).
    destruct r; [done|].
    repeat case_match; simplify_eq; done.
  - unfold submit_check. destruct (initialization_error o); [done|].
    destruct (check_control o) as [r o1] eqn:E.
    destruct (check_control_spec _ _ _ Hi E) as (w & -> & _).
    destruct r; [|done]. by destruct (_ || _).
  - unfold submit_claim in Hc. destruct (checked o !! i); [|done].
    destruct (busy o); injection Hc as <- <-; done.
  - unfold submit_send in Hc. destruct (claimed o !! i); [|done]. cbn in Hc.
    destruct (_ && _); injection Hc as <- <-; done.
  - unfold cancel_child. destruct (check_control o) as [r o1] eqn:E.
    destruct (check_control_spec _ _ _ Hi E) as (w & -> & _).
    destruct r; [|done]. destruct (children _) as [s|]; [|done].
    by destruct (ChildControl.cancel _ _ _).
  - unfold status. destruct (is_finished o); [done|]. destruct (check_control o) as [r o1] eqn:E.
    by destruct (check_control_spec _ _ _ Hi E) as (w & -> & _).
Qed.

(** Lost context is never resumed. Once an exchange has been answered with a
    failure, or the owner has been cancelled or has outlived its deadline, no
    interleaving whatsoever calls the handler again, and the stop stays. *)
Theorem owner_never_resumes (o0 o o' : Owner) :
  spawned o0 -> steps o0 o ->
  stopped o \/ (exists n e, (n, Err e) ∈ replies o) ->
  steps o o' -> invoked o' = invoked o /\ stopped o'.
Proof.
  intros H0 Hs Hor Hs'. pose proof (steps_inv _ _ (spawned_inv _ H0) Hs) as Hi.
  assert (Hst : stopped o) by (destruct Hor as [?|(n & e & Hin)]; [done|by eapply inv_errors]).
  clear Hor H0 Hs. induction Hs' as [|o1 o2 Hs1 IH Hs2]; [done|]. destruct IH as [IH1 IH2].
  pose proof (steps_inv _ _ Hi Hs1) as Hi1. split; [|by eapply step_stopped].
  rewrite (step_invoked _ _ Hi1 IH2 Hs2). done.
Qed.

(** *** Status *)

Definition rank (s : OwnerStatus) : nat :=
  match s with SInitializing => 0 | SReady | STurnActive => 1 | SStopping => 2 | SContextLost => 3 end.

Lemma check_control_fields o r o' :
  check_control o = (r, o') ->
  phase o' = phase o /\ initialized o' = initialized o /\ busy o' = busy o /\
  queue o' = queue o /\ claimed o' = claimed o /\ checked o' = checked o /\ invoked o' = invoked o /\
  initialization_error o' = initialization_error o /\ accepted o' = accepted o.
Proof.
  unfold check_control. destruct (Control.check _ _). by intros [= <- <-].
Qed.

(** Finishing and initialization are not undone. *)
Lemma step_latches o o' :
  step o o' ->
  (is_finished o = true -> is_finished o' = true) /\ (initialized o = true -> initialized o' = true).
Proof.
  unfold is_finished, receiver_alive.
  intros [ev o1 Ht|b|i r o1 Hc|i r o1 Hc| |id| |w Hw Ha]; try done.
  - unfold thread_step in Ht. destruct (check_control o) as [r o2] eqn:E.
    apply check_control_fields in E as (E1 & E2 & _).
    repeat case_match; simplify_eq; cbn; rewrite ?E1, ?E2; try done.
  - unfold submit_check. destruct (initialization_error o); [done|].
    destruct (check_control o) as [r o1] eqn:E. apply check_control_fields in E as (E1 & E2 & _).
    destruct r; [destruct (_ || _)|]; cbn; by rewrite E1, E2.
  - unfold submit_claim in Hc. destruct (checked o !! i); [|done]. cbn in Hc.
    destruct (busy o); injection Hc as <- <-; done.
  - unfold submit_send in Hc. destruct (claimed o !! i); [|done]. cbn in Hc.
    destruct (_ && _); injection Hc as <- <-; done.
  - unfold cancel_child. destruct (check_control o) as [r o1] eqn:E.
    apply check_control_fields in E as (E1 & E2 & _). destruct r; cbn; [|by rewrite E1, E2].
    destruct (children o1) as [s|]; cbn; [|by rewrite E1, E2].
    destruct (ChildControl.cancel _ _ _); cbn; by rewrite E1, E2.
  - unfold status. destruct (is_finished o); [done|]. destruct (check_control o) as [r o1] eqn:E.
    apply check_control_fields in E as (E1 & E2 & _). cbn. by rewrite E1, E2.
Qed.

Lemma steps_latches o o' :
  inv o -> steps o o' ->
  (is_finished o = true -> is_finished o' = true) /\ (initialized o = true -> initialized o' = true) /\
  (stopped o -> stopped o').
Proof.
  intros Hi Hs. induction Hs as [|o1 o2 Hs1 IH Hs2]; [done|].
  destruct IH as (H1 & H2 & H3). destruct (step_latches _ _ Hs2) as [H4 H5].
  split_and!; auto. intros Hst. eapply step_stopped; [by eapply steps_inv|by apply H3|done].
Qed.

(** The observed status only moves forward: initializing, then ready or in a
    turn, then stopping, then context lost; after one observation no later
    observation, however the owner and its clients interleave in between,
    reports an earlier stage. *)
Theorem owner_status_forward (o0 o o2 : Owner) :
  spawned o0 -> steps o0 o -> steps (status o).2 o2 ->
  (rank (status o).1 <= rank (status o2).1)%nat.
Proof.
  intros H0 Hs Hs2. pose proof (steps_inv _ _ (spawned_inv _ H0) Hs) as Hi.
  assert (Hi1 : inv (status o).2) by (eapply owner_step_inv; [exact Hi|constructor]).
  pose proof (steps_inv _ _ Hi1 Hs2) as Hi2.
  destruct (steps_latches _ _ Hi1 Hs2) as (Hf & Hin & Hst). unfold status in *.
  destruct (is_finished o) eqn:Ef.
  - cbn in *. by rewrite Hf.
  - destruct (is_finished o2); [cbn; repeat case_match; cbn; lia|].
    destruct (check_control o) as [r o1] eqn:E.
    destruct (check_control_spec _ _ _ Hi E) as (w & Ew & _ & _ & Hr & _).
    destruct (check_control o2) as [r2 o3] eqn:E2.
    destruct (check_control_spec _ _ _ Hi2 E2) as (w2 & Ew2 & _ & _ & _ & Hr2).
    apply check_control_fields in E2 as (_ & I2 & _). cbn in *.
    destruct (is_err r) eqn:Er; cbn in *.
    + destruct (is_err r2); [cbn; lia|]. destruct (Hr2 eq_refl). auto.
    + destruct (initialized o1); cbn; [rewrite I2, Hin by done; cbn|];
        destruct (is_err r2), (busy o1), (busy o3); cbn; lia.
Qed.

(** A submission is refused while an exchange is waiting or in progress, and
    when a successful answer has been sent and no other client has moved, the
    slot is free again: the next well-formed submission is accepted unless the
    owner has stopped. *)
Theorem owner_submit_exclusive (o0 o : Owner) (b : bytes) :
  spawned o0 -> steps o0 o -> checked o = [] -> claimed o = [] ->
  (serving o = true -> (queued o + holding o = 1)%nat -> is_err (submit o b).1 = true) /\
  (forall n out o', phase o = Replying n (Ok out) -> queue o = None ->
     thread_step o Go = Some o' -> initialization_error o' = None ->
     0 < blen b <= MAX_FRAME_BYTES -> (check_control o').1 = Ok tt ->
     (submit o' b).1 = Ok (accepted o')).
Proof.
  intros H0 Hs Hck Hcl. pose proof (steps_inv _ _ (spawned_inv _ H0) Hs) as Hi. split.
  - intros Hse Hq. unfold submit.
    destruct (submit_check o b) as [[u|e] o1] eqn:E; [|done].
    assert (Ho1 : busy o1 = busy o /\ checked o1 = [b] /\ claimed o1 = []).
    { unfold submit_check in E. destruct (initialization_error o); [done|].
      destruct (check_control o) as [r o2] eqn:Ec.
      apply check_control_fields in Ec as (_ & _ & Hb & _ & Hc1 & Hc2 & _).
      destruct r; [|done]. destruct (_ || _); [done|]. injection E as _ <-. cbn.
      by rewrite Hb, Hc1, Hc2, Hck, Hcl. }
    destruct Ho1 as (Hb & Hc & _). unfold submit_claim. rewrite Hc, Hb. cbn.
    assert (Hbusy : busy o = true).
    { assert (Hcle : cleared o = false) by (unfold serving, cleared in *; by destruct (phase o)).
      pose proof (inv_busy _ Hi Hcle) as Hle. rewrite Hcl in Hle. cbn in Hle.
      destruct (busy o); [done|lia]. }
    by rewrite Hbusy.
  - intros n out o' Hp Hq Ht Hie Hlen Hok.
    unfold thread_step in Ht. rewrite Hp in Ht. cbn in Ht. injection Ht as <-.
    assert (Hbusy : busy o = false).
    { destruct (busy o) eqn:Hb; [|done]. pose proof (inv_exact _ Hi) as Hex.
      unfold serving, holding, queued in Hex. rewrite Hp, Hq, Hcl in Hex.
      specialize (Hex eq_refl Hb). cbn in Hex. lia. }
    set (o1 := set_phase (add_reply o n (Ok out)) Looping) in *.
    unfold submit, submit_check. rewrite Hie.
    destruct (check_control o1) as [r o2] eqn:Ec. cbn in Hok. subst r.
    pose proof (check_control_fields _ _ _ Ec) as (P & _ & B & Q & Cl & Ck & _ & _ & A).
    rewrite is_nil_blen, (proj2 (Z.ltb_lt _ _)), (proj2 (Z.ltb_ge _ _)) by lia. cbn.
    unfold submit_claim. cbn. rewrite B. cbn. rewrite Hbusy. cbn.
    unfold submit_send, receiver_alive. cbn. rewrite P, Q. cbn. rewrite Hq. cbn. by rewrite A.
Qed.

(** ** A concrete owner *)

Definition toy_world : World := Control.run [] (init 0 [5%N; 5%N; 5%N]).
Definition toy_owner : Owner := spawn_controlled (mkWorld [mkInner 1005 0 None] 5 [5%N; 5%N]) 0 None.

Lemma toy_spawned : spawned toy_owner.
Proof.
  exists 0, [5%N; 5%N; 5%N], [], 1000, (mkWorld [mkInner 1005 0 None] 5 [5%N; 5%N]). by left.
Defined.

(** The thread starts, initializes and reaches its loop; a client submits; the
    handler answers or fails; the answer is sent. *)
Definition thread_run (o : Owner) (evs : list event) : option Owner :=
  foldl (fun a ev => a ≫= fun o => thread_step o ev) (Some o) evs.

Lemma thread_run_steps evs o o' : thread_run o evs = Some o' -> steps o o'.
Proof.
  unfold thread_run. assert (Hn : forall evs, foldl (fun a ev => a ≫= fun o => thread_step o ev) None evs = None).
  { induction evs0; [done|]. by cbn. }
  assert (Hg : forall o1, steps o o1 ->
    foldl (fun a ev => a ≫= fun o => thread_step o ev) (Some o1) evs = Some o' -> steps o o').
  { induction evs as [|ev evs IH]; intros o1 Ho1; cbn; [by intros [= <-]|].
    destruct (thread_step o1 ev) as [o2|] eqn:E; [|by rewrite Hn].
    apply IH. eapply steps_snoc; [exact Ho1|]. by eapply step_thread. }
  apply Hg. constructor.
Qed.

Definition toy_ready : Owner := from_option id toy_owner (thread_run toy_owner [Go; InitResult (Ok tt)]).
Definition toy_sent : Owner := (submit toy_ready [x01]).2.
Definition toy_done : Owner :=
  from_option id toy_owner (thread_run toy_sent [Go; Go; HandlerResult (Ok [x02]); Go]).
Definition toy_failed : Owner :=
  from_option id toy_owner (thread_run toy_sent [Go; Go; HandlerResult (Err "lost"); Go; Go; Go]).

Lemma steps_trans o1 o2 o3 : steps o1 o2 -> steps o2 o3 -> steps o1 o3.
Proof. intros H1. induction 1; [done|]. by eapply steps_snoc. Qed.

(** The uninterrupted [submit] is one of the interleavings. *)
Lemma submit_steps o b : steps o (submit o b).2.
Proof.
  unfold submit. pose proof (step_check o b) as H1.
  destruct (submit_check o b) as [[u|e] o1]; cbn in H1; [|eapply steps_snoc; [constructor|exact H1]].
  assert (S1 : steps o o1) by (eapply steps_snoc; [constructor|exact H1]).
  destruct (submit_claim o1 0) as [[[u'|e] o2]|] eqn:E2; [| |done].
  - assert (S2 : steps o o2) by (eapply steps_snoc; [exact S1|by eapply step_claim]).
    destruct (submit_send o2 0) as [[r o3]|] eqn:E3; [|done].
    eapply steps_snoc; [exact S2|by eapply step_send].
  - eapply steps_snoc; [exact S1|by eapply step_claim].
Qed.

Lemma toy_ready_steps : steps toy_owner toy_ready.
Proof. apply (thread_run_steps [Go; InitResult (Ok tt)]). vm_compute. reflexivity. Defined.

Lemma toy_sent_steps : steps toy_owner toy_sent.
Proof. exact (steps_trans _ _ _ toy_ready_steps (submit_steps toy_ready [x01])). Defined.

Lemma toy_done_steps : steps toy_owner toy_done.
Proof.
  refine (steps_trans _ _ _ toy_sent_steps (thread_run_steps [Go; Go; HandlerResult (Ok [x02]); Go] _ _ _)).
  vm_compute. reflexivity.
Defined.

Lemma toy_failed_steps : steps toy_owner toy_failed.
Proof.
  refine (steps_trans _ _ _ toy_sent_steps
    (thread_run_steps [Go; Go; HandlerResult (Err "lost"); Go; Go; Go] _ _ _)).
  vm_compute. reflexivity.
Defined.

Lemma owner_exchanges_witness :
  replies toy_failed = [(0%nat, Err "lost")] /\ NoDup (invoked toy_failed) /\ invoked toy_failed = [0%nat].
Proof.
  split; [reflexivity|]. split; [|reflexivity].
  exact (proj1 (owner_exchanges _ _ toy_spawned toy_failed_steps)).
Defined.

Lemma owner_never_resumes_witness :
  (submit toy_failed [x03]).1 = Err "execution cancelled" /\ invoked (submit toy_failed [x03]).2 = [0%nat].
Proof.
  split; [reflexivity|].
  refine (proj1 (owner_never_resumes _ toy_failed _ toy_spawned toy_failed_steps _
    (submit_steps toy_failed [x03]))).
  right. exists 0%nat, "lost". vm_compute. apply list_elem_of_here.
Defined.

Lemma owner_status_forward_witness :
  (status toy_ready).1 = SReady /\ (status toy_failed).1 = SStopping /\
  (rank (status toy_ready).1 <= rank (status (status toy_ready).2).1)%nat.
Proof.
  split; [reflexivity|]. split; [reflexivity|].
  apply (owner_status_forward _ toy_ready _ toy_spawned toy_ready_steps). constructor.
Defined.

Lemma owner_submit_exclusive_witness :
  is_err (submit toy_sent [x03]).1 = true /\
  (exists o', thread_step toy_done Go = Some o' /\ (submit o' [x03]).1 = Ok 1%nat).
Proof.
  split.
  - apply (owner_submit_exclusive _ toy_sent [x03] toy_spawned toy_sent_steps); reflexivity.
  - eexists. split; [reflexivity|].
    refine (proj2 (owner_submit_exclusive _ toy_done [x03] toy_spawned toy_done_steps _ _) 0%nat [x02] _ _ _ _ _ _ _);
      try reflexivity. unfold MAX_FRAME_BYTES, blen. cbn. lia.
Defined.
