(* ===== verification/Registry.v ===== *)
(** * The registry of live parent owners ([crates/celln-warden/src/parent_registry.rs])

    Caller-scoped routing to owners, capacity accounting, and teardown. The
    registry uses its owners through the interface [OwnerApi]; [Owner.v]
    implements it. A join is two steps, as in the code, which does not hold the
    registry lock while it waits for a thread. *)

From S2P Require Import Prelude Instances Manifest Control Mailbox Protocol Lease ChildControl Owner.

(** What the registry calls on an owner. *)
Class OwnerApi (O : Type) := {
  api_status : O -> OwnerStatus * O;
  api_is_finished : O -> bool;
  api_submit : O -> bytes -> result string nat * O;
  api_cancel : O -> O;
  api_cancel_child : O -> Identity -> result string unit * O;
  api_join : O -> option (result string unit);
  (* a join that returns means that the thread is gone *)
  api_join_finished : forall o r, api_join o = Some r -> api_is_finished o = true;
  api_cancel_finished : forall o, api_is_finished o = true -> api_is_finished (api_cancel o) = true;
}.

Lemma owner_join_finished o r : Owner.join o = Some r -> Owner.is_finished o = true.
Proof. unfold Owner.join, Owner.is_finished, receiver_alive. by destruct (phase o). Qed.

Lemma owner_cancel_finished o : Owner.is_finished o = true -> Owner.is_finished (Owner.cancel o) = true.
Proof. done. Qed.

#[export] Instance owner_api : OwnerApi Owner.Owner := {|
  api_status := Owner.status;
  api_is_finished := Owner.is_finished;
  api_submit := Owner.submit;
  api_cancel := Owner.cancel;
  api_cancel_child := Owner.cancel_child;
  api_join := Owner.join;
  api_join_finished := owner_join_finished;
  api_cancel_finished := owner_cancel_finished;
|}.

Inductive Status : Type :=
| Initializing | Ready | TurnActive | ContextLost | Stopping | Stopped | TeardownUncertain.

#[export] Instance Status_eq_dec : EqDecision Status.
Proof. solve_decision. Defined.

(** Which operation is waiting for a join. *)
Inductive Waiter : Type := ByStop | ByReap.

Section registry.
Context {O : Type} `{OwnerApi O}.

Record Entry : Type := mkEntry {
  principal : string;
  owner : option O;
  status : Status;
  reserved_bytes : Z;
  reserved_egress : Z;
}.

(** [ParentRegistry] with the [State] behind its lock. [joining] lists the
    owners taken out of their entries and not yet joined. *)
Record Registry : Type := mkRegistry {
  entries : gmap string Entry;
  r_bytes : Z;
  r_egress : Z;
  draining : bool;
  max_entries : Z;
  memory_bytes : Z;
  joining : list (string * Waiter * O);
}.

Definition set_entries (r : Registry) m :=
  mkRegistry m (r_bytes r) (r_egress r) (draining r) (max_entries r) (memory_bytes r) (joining r).
Definition set_entry (r : Registry) id e := set_entries r (<[id := e]> (entries r)).
Definition set_joining (r : Registry) j :=
  mkRegistry (entries r) (r_bytes r) (r_egress r) (draining r) (max_entries r) (memory_bytes r) j.
Definition with_owner (e : Entry) o :=
  mkEntry (principal e) o (status e) (reserved_bytes e) (reserved_egress e).

(** [ParentRegistry::new]. *)
Definition new (max mem : Z) : result string Registry :=
  if negb ((1 <=? max) && (max <=? 1024)) || (mem =? 0)
  then Err "invalid parent registry capacity"
  else Ok (mkRegistry ∅ 0 0 false max mem []).

(** [fn scoped]. *)
Definition scoped (r : Registry) (p : string) (id : hash) : result string Entry :=
  match entries r !! id with
  | Some e => if String.eqb (principal e) p then Ok e else Err "parent owner not found"
  | None => Err "parent owner not found"
  end.

(** [fn observed]: asking a live owner may record a stop in it. *)
Definition observed (e : Entry) : Status * Entry :=
  match owner e with
  | Some o =>
      let '(s, o) := api_status o in
      (match s with
       | SInitializing => Initializing
       | SReady => Ready
       | STurnActive => TurnActive
       | SStopping => Stopping
       | SContextLost => ContextLost
       end, with_owner e (Some o))
  | None => (status e, e)
  end.

(** [insert_admitted]; [spawn] is the result of the closure that starts the
    owner, which runs only after every check. *)
Definition insert_admitted (r : Registry) (p : string) (id : hash) (bytes egress : Z)
    (spawn : result string O) : result string unit * Registry :=
  if str_is_empty p || (512 <? str_len p) || (bytes =? 0)
  then (Err "invalid admitted owner binding", r) else
  if draining r then (Err "parent owner is draining", r) else
  match entries r !! id with
  | Some _ => (Err "parent incarnation already claimed; reconcile original owner", r)
  | None =>
      match checked_add_u64 (r_bytes r) bytes with
      | None => (Err "parent memory capacity exhausted", r)
      | Some total =>
          if (max_entries r <=? Z.of_nat (size (entries r))) || (memory_bytes r <? total)
          then (Err "parent registry capacity exhausted", r) else
          match checked_add_u32 (r_egress r) egress with
          | None => (Err "parent egress capacity exhausted", r)
          | Some total_egress =>
              match spawn with
              | Err e => (Err e, r)
              | Ok o =>
                  (Ok tt,
                   mkRegistry (<[id := mkEntry p (Some o) Initializing bytes egress]> (entries r))
                     total total_egress (draining r) (max_entries r) (memory_bytes r) (joining r))
              end
          end
      end
  end.

(** [spawn_admitted] and [spawn_admitted_with_children] pass the caller's
    egress charge; [spawn_admitted_with_child_broker] charges one slot. *)
Definition spawn_admitted := insert_admitted.
Definition spawn_admitted_with_child_broker (r : Registry) p id bytes spawn :=
  insert_admitted r p id bytes 1 spawn.

Definition submit (r : Registry) (p : string) (id : hash) (b : bytes) :
    result string nat * Registry :=
  match scoped r p id with
  | Err e => (Err e, r)
  | Ok e =>
      if draining r then (Err "parent owner is draining", r) else
      match owner e with
      | None => (Err "parent owner unavailable; context lost", r)
      | Some o =>
          let '(res, o) := api_submit o b in (res, set_entry r id (with_owner e (Some o)))
      end
  end.

Definition get_status (r : Registry) (p : string) (id : hash) : result string Status * Registry :=
  match scoped r p id with
  | Err e => (Err e, r)
  | Ok e => let '(s, e) := observed e in (Ok s, set_entry r id e)
  end.

(** [statuses]: every identity in order, whatever its principal. *)
Definition statuses (r : Registry) : list (hash * Status) * Registry :=
  ((fun ke => (ke.1, (observed ke.2).1)) <$> btree_iter (entries r),
   set_entries r ((fun e => (observed e).2) <$> entries r)).

Definition cancel (r : Registry) (p : string) (id : hash) : result string unit * Registry :=
  match scoped r p id with
  | Err e => (Err e, r)
  | Ok e =>
      (Ok tt,
       match owner e with
       | Some o => set_entry r id (with_owner e (Some (api_cancel o)))
       | None => r
       end)
  end.

Definition cancel_child (r : Registry) (p : string) (id : Identity) : result string unit * Registry :=
  match scoped r p (id_parent id) with
  | Err e => (Err e, r)
  | Ok e =>
      match owner e with
      | None => (Err "original parent owner unavailable", r)
      | Some o =>
          let '(res, o) := api_cancel_child o id in
          (res, set_entry r (id_parent id) (with_owner e (Some o)))
      end
  end.

(** The locked first half of [stop]: [Ok true] is the early success, [Ok false]
    means that the owner has been taken out and is to be joined. *)
Definition stop_begin (r : Registry) (p : string) (id : hash) : result string bool * Registry :=
  match scoped r p id with
  | Err e => (Err e, r)
  | Ok e =>
      if bool_decide (status e = Stopped)
         || (bool_decide (status e = ContextLost) && (reserved_bytes e =? 0))
      then (Ok true, r) else
      match owner e with
      | None => (Err "parent teardown pending or uncertain", r)
      | Some o =>
          (Ok false,
           set_joining
             (set_entry r id (mkEntry (principal e) None Stopping (reserved_bytes e) (reserved_egress e)))
             ((id, ByStop, api_cancel o) :: joining r))
      end
  end.

(** What a finished wait writes back: the second halves of [stop] and of
    [reap_finished]. *)
Definition join_end (r : Registry) (id : hash) (k : Waiter) (res : result string unit) : Registry :=
  match entries r !! id with
  | None => r
  | Some e =>
      if is_ok res then
        let e' := mkEntry (principal e) (owner e)
                    (match k with ByStop => Stopped | ByReap => ContextLost end) 0 0 in
        mkRegistry (<[id := e']> (entries r))
          (wrapping_sub_u64 (r_bytes r) (reserved_bytes e))
          (wrapping_sub_u32 (r_egress r) (reserved_egress e))
          (draining r) (max_entries r) (memory_bytes r) (joining r)
      else set_entry r id (mkEntry (principal e) (owner e) TeardownUncertain
                             (reserved_bytes e) (reserved_egress e))
  end.

(** The [i]-th waiting join returns, once its thread is gone. *)
Definition join_step (r : Registry) (i : nat) : option Registry :=
  match joining r !! i with
  | Some (id, k, o) =>
      res ← api_join o;
      Some (join_end (set_joining r (delete i (joining r))) id k res)
  | None => None
  end.

(** The locked first half of [reap_finished] for one entry. *)
Definition reap_entry (r : Registry) (id : hash) : Registry :=
  match entries r !! id with
  | Some e =>
      match owner e with
      | Some o =>
          if api_is_finished o then
            set_joining
              (set_entry r id (mkEntry (principal e) None Stopping (reserved_bytes e) (reserved_egress e)))
              ((id, ByReap, api_cancel o) :: joining r)
          else r
      | None => r
      end
  | None => r
  end.
Definition reap_begin (r : Registry) : Registry := foldl reap_entry r (btree_keys (entries r)).

(** The locked first half of [drain]; each listed owner is then stopped. *)
Definition drain_begin (r : Registry) : list (string * hash) * Registry :=
  ((fun ke => (principal ke.2, ke.1)) <$> btree_iter (entries r),
   mkRegistry
     ((fun e => with_owner e (api_cancel <$> owner e)) <$> entries r)
     (r_bytes r) (r_egress r) true (max_entries r) (memory_bytes r) (joining r)).

Definition is_draining (r : Registry) : bool := draining r.

Definition charged (e : Entry) : Z := if reserved_bytes e =? 0 then 0 else 1.

(** [reserved_capacity]: owners, memory and broker slots. *)
Definition reserved_capacity (r : Registry) : Z * Z * Z :=
  (total charged (entries r), r_bytes r, r_egress r).

(** [stop] as one call; [wait] is what the thread does while it is joined. There
    is no result when the thread does not come to an end. *)
Definition stop (wait : O -> O) (r : Registry) (p : string) (id : hash) :
    option (result string unit * Registry) :=
  match stop_begin r p id with
  | (Err e, r) => Some (Err e, r)
  | (Ok true, r) => Some (Ok tt, r)
  | (Ok false, r) =>
      match joining r with
      | (_, _, o) :: j =>
          res ← api_join (wait o); Some (res, join_end (set_joining r j) id ByStop res)
      | [] => None
      end
  end.

Definition drain_one (wait : O -> O) (acc : option (bool * Registry)) (pi : string * hash) :
    option (bool * Registry) :=
  '(uncertain, r) ← acc;
  '(res, r) ← stop wait r pi.1 pi.2;
  Some (uncertain || is_err res, r).

(** [drain]: close admission, signal every owner, then stop them one by one. *)
Definition drain (wait : O -> O) (r : Registry) : option (result string unit * Registry) :=
  let '(owners, r) := drain_begin r in
  '(uncertain, r) ← foldl (drain_one wait) (Some (false, r)) owners;
  Some (if uncertain : bool then Err "parent drain teardown uncertain" else Ok tt, r).
End registry.

Arguments Registry O : clear implicits.
Arguments Entry O : clear implicits.

(** ** Histories *)

Section histories.
Context {O : Type} `{OwnerApi O}.
Implicit Types (r : Registry O) (e : Entry O).

(** Calls in any order, with the owners' own threads moving in between
    ([OThread], [OJoining]) and each waiting join returning at any later time. *)
Inductive op : Type :=
| OInsert (p : string) (id : hash) (bytes egress : Z) (spawn : result string O)
| OSubmit (p : string) (id : hash) (b : bytes)
| OStatus (p : string) (id : hash)
| OStatuses
| OCancel (p : string) (id : hash)
| OCancelChild (p : string) (id : Identity)
| OStop (p : string) (id : hash)
| OReap
| ODrain
| OJoin (i : nat)
| OThread (id : hash) (o : O)
| OJoining (i : nat) (o : O).

Definition step r (x : op) : Registry O :=
  match x with
  | OInsert p id bytes egress spawn => (insert_admitted r p id bytes egress spawn).2
  | OSubmit p id b => (submit r p id b).2
  | OStatus p id => (get_status r p id).2
  | OStatuses => (statuses r).2
  | OCancel p id => (cancel r p id).2
  | OCancelChild p id => (cancel_child r p id).2
  | OStop p id => (stop_begin r p id).2
  | OReap => reap_begin r
  | ODrain => (drain_begin r).2
  | OJoin i => from_option id r (join_step r i)
  | OThread id o =>
      match entries r !! id with
      | Some e => if is_Some_b (owner e) then set_entry r id (with_owner e (Some o)) else r
      | None => r
      end
  | OJoining i o =>
      match joining r !! i with
      | Some (id, k, _) => set_joining r (<[i := (id, k, o)]> (joining r))
      | None => r
      end
  end.

Definition run r (ops : list op) : Registry O := foldl step r ops.

(** The widths of the charges, [u64] and [u32]. *)
Definition widths (x : op) : Prop :=
  match x with OInsert _ _ bytes egress _ => in_u64 bytes /\ in_u32 egress | _ => True end.

(** Which entries are charged: those whose owner has not been joined. *)
Definition entry_ok e : Prop :=
  0 <= reserved_egress e /\
  match owner e with
  | Some _ => status e = Initializing /\ 0 < reserved_bytes e
  | None =>
      ((status e = Stopping \/ status e = TeardownUncertain) /\ 0 < reserved_bytes e) \/
      ((status e = Stopped \/ status e = ContextLost) /\ reserved_bytes e = 0 /\ reserved_egress e = 0)
  end.

Definition ids (j : list (string * Waiter * O)) : list string := (fun x => x.1.1) <$> j.

Record inv r : Prop := {
  inv_bytes : r_bytes r = total reserved_bytes (entries r);
  inv_egress : r_egress r = total reserved_egress (entries r);
  inv_memory : r_bytes r <= memory_bytes r <= u64_max;
  inv_slots : r_egress r <= u32_max;
  inv_size : Z.of_nat (size (entries r)) <= max_entries r;
  inv_entries : forall id e, entries r !! id = Some e -> entry_ok e;
  inv_joining : forall id, id ∈ ids (joining r) ->
    exists e, entries r !! id = Some e /\ owner e = None /\ status e = Stopping;
  inv_once : NoDup (ids (joining r));
}.

(** Entries that differ only inside a live owner. *)
Definition like e e' : Prop :=
  principal e' = principal e /\ status e' = status e /\ reserved_bytes e' = reserved_bytes e /\
  reserved_egress e' = reserved_egress e /\ is_Some_b (owner e') = is_Some_b (owner e).

Lemma like_refl e : like e e.
Proof. done. Qed.

Lemma like_owner e o : is_Some_b (owner e) = true -> like e (with_owner e (Some o)).
Proof. by intros Ho. Qed.

Lemma entry_ok_like e e' : like e e' -> entry_ok e -> entry_ok e'.
Proof.
  intros (_ & Hs & Hb & He & Ho). unfold entry_ok. rewrite Hs, Hb, He.
  by destruct (owner e), (owner e').
Qed.

Lemma inv_set_like r id e e' :
  entries r !! id = Some e -> like e e' -> inv r -> inv (set_entry r id e').
Proof.
  intros He Hl Hi. pose proof Hl as (_ & Hs & Hb & Hg & Ho). destruct Hi. constructor; cbn.
  - rewrite (total_insert_Some _ _ e) by done. lia.
  - rewrite (total_insert_Some _ _ e) by done. lia.
  - done.
  - done.
  - by rewrite map_size_insert_Some by eauto.
  - intros id' e1 [[<- <-]|[_ E1]]%lookup_insert_Some; [|by eapply inv_entries0].
    eapply entry_ok_like; [done|by eapply inv_entries0].
  - intros id' Hin. destruct (inv_joining0 _ Hin) as (e1 & E1 & E2 & E3).
    destruct (decide (id = id')) as [<-|Hne].
    + exists e'. rewrite lookup_insert_eq. assert (e1 = e) as -> by congruence.
      split_and!; [done| |congruence]. rewrite E2 in Ho. by destruct (owner e').
    + exists e1. by rewrite lookup_insert_ne.
  - done.
Qed.

Lemma inv_map_like r (g : Entry O -> Entry O) d :
  (forall e, like e (g e)) -> inv r ->
  inv (mkRegistry (g <$> entries r) (r_bytes r) (r_egress r) d (max_entries r) (memory_bytes r) (joining r)).
Proof.
  intros Hg []. constructor; cbn; try done.
  - rewrite total_fmap; [done|]. intros e. by destruct (Hg e) as (_ & _ & ? & _).
  - rewrite total_fmap; [done|]. intros e. by destruct (Hg e) as (_ & _ & _ & ? & _).
  - by rewrite map_size_fmap.
  - intros id e He. apply lookup_fmap_Some in He as (e1 & <- & He).
    eapply entry_ok_like; [apply Hg|by eapply inv_entries0].
  - intros id Hin. destruct (inv_joining0 _ Hin) as (e1 & E1 & E2 & E3).
    exists (g e1). rewrite lookup_fmap, E1. destruct (Hg e1) as (_ & Hs & _ & _ & Ho).
    split_and!; [done| |congruence]. rewrite E2 in Ho. by destruct (owner (g e1)).
Qed.

Lemma scoped_Ok r p id e : scoped r p id = Ok e <-> entries r !! id = Some e /\ principal e = p.
Proof.
  unfold scoped. destruct (entries r !! id) as [e'|]; [|naive_solver].
  destruct (String.eqb_spec (principal e') p); naive_solver.
Qed.

Lemma inv_new max mem r : in_u64 mem -> new max mem = Ok r -> inv r.
Proof.
  unfold new, in_u64. destruct (_ || _) eqn:E; [done|]. intros Hm [= <-].
  constructor; cbn; rewrite ?total_empty; try done; try lia.
  - reflect. rewrite map_size_empty. lia.
  - intros id Hin. by apply elem_of_nil in Hin.
  - constructor.
Qed.

Lemma inv_insert r p id b g sp :
  in_u64 b -> in_u32 g -> inv r -> inv (insert_admitted r p id b g sp).2.
Proof.
  intros Hb Hg Hi. unfold insert_admitted. destruct (_ || _ || _) eqn:E; [done|].
  destruct (draining r); [done|]. destruct (entries r !! id) as [e|] eqn:He; [done|].
  destruct (checked_add_u64 _ _) as [t|] eqn:Et; [|done].
  destruct ((max_entries r <=? _) || _) eqn:Ec; [done|].
  destruct (checked_add_u32 _ _) as [te|] eqn:Ee; [|done]. destruct sp as [o|]; [|done].
  autorewrite with celln in *. reflect. destruct Et as [-> ?], Ee as [-> ?], Hi.
  unfold in_u64, in_u32 in *. constructor; cbn.
  - rewrite total_insert_None by done. cbn. lia.
  - rewrite total_insert_None by done. cbn. lia.
  - lia.
  - lia.
  - rewrite map_size_insert_None by done. lia.
  - intros id' e [[<- <-]|[_ E1]]%lookup_insert_Some; [|by eapply inv_entries0].
    split; cbn; [lia|]. split; [done|lia].
  - intros id' Hin. destruct (inv_joining0 _ Hin) as (e1 & E1 & E2).
    exists e1. rewrite lookup_insert_ne by congruence. done.
  - done.
Qed.

(** Taking a live owner out of its entry, to be joined. *)
Lemma inv_take r id e o k :
  entries r !! id = Some e -> owner e = Some o -> inv r ->
  inv (set_joining
         (set_entry r id (mkEntry (principal e) None Stopping (reserved_bytes e) (reserved_egress e)))
         ((id, k, api_cancel o) :: joining r)).
Proof.
  intros He Ho []. assert (Hok : entry_ok e) by (by eapply inv_entries0).
  unfold entry_ok in Hok. rewrite Ho in Hok. destruct Hok as (Hge & _ & Hpos).
  assert (Hnin : id ∉ ids (joining r)).
  { intros Hin. destruct (inv_joining0 _ Hin) as (e1 & E1 & E2 & _). congruence. }
  constructor; cbn.
  - rewrite (total_insert_Some _ _ e) by done. cbn. lia.
  - rewrite (total_insert_Some _ _ e) by done. cbn. lia.
  - done.
  - done.
  - by rewrite map_size_insert_Some by eauto.
  - intros id' e1 [[<- <-]|[_ E1]]%lookup_insert_Some; [|by eapply inv_entries0].
    split; cbn; [done|]. left. auto.
  - intros id' Hin. apply elem_of_cons in Hin as [->|Hin].
    + rewrite lookup_insert_eq. eauto.
    + destruct (inv_joining0 _ Hin) as (e1 & E1 & E2). exists e1.
      rewrite lookup_insert_ne by (intros ->; done). done.
  - by constructor.
Qed.

Lemma ids_delete j i x : j !! i = Some x -> Permutation (ids j) (x.1.1 :: ids (delete i j)).
Proof.
  intros Hj. transitivity (ids (x :: delete i j)); [|done]. apply fmap_Permutation.
  by apply delete_Permutation.
Qed.

Lemma ids_elem j i id k o : j !! i = Some (id, k, o) -> id ∈ ids j.
Proof. intros Hj. apply list_elem_of_fmap. exists (id, k, o). split; [done|]. by eapply list_elem_of_lookup_2. Qed.

Lemma inv_join_step r i r' : inv r -> join_step r i = Some r' -> inv r'.
Proof.
  intros Hi. unfold join_step. destruct (joining r !! i) as [[[id k] o]|] eqn:Hj; [|done].
  destruct (api_join o) as [res|]; [|done]. cbn. intros [= <-].
  pose proof (ids_delete _ _ _ Hj) as Hp. cbn in Hp. destruct Hi.
  destruct (inv_joining0 id (ids_elem _ _ _ _ _ Hj)) as (e & He & Ho & Hs).
  pose proof (inv_entries0 _ _ He) as Hok. unfold entry_ok in Hok. rewrite Ho, Hs in Hok.
  destruct Hok as (Hge & [[_ Hpos]|[[|] _]]); [|done..].
  assert (Hnd : id ∉ ids (delete i (joining r)) /\ NoDup (ids (delete i (joining r)))).
  { rewrite Hp in inv_once0. by apply NoDup_cons in inv_once0. }
  assert (Hrest : forall id', id' ∈ ids (delete i (joining r)) -> id' <> id /\ id' ∈ ids (joining r)).
  { intros id' Hin. split; [intros ->; tauto|]. rewrite Hp. by right. }
  assert (Hnn : forall k' e', entries r !! k' = Some e' -> 0 <= reserved_bytes e' /\ 0 <= reserved_egress e').
  { intros k' e' H'. specialize (inv_entries0 _ _ H') as [? Hok']. split; [|done].
    destruct (owner e'); [lia|]. destruct Hok' as [?|?]; lia. }
  assert (Hb : reserved_bytes e <= r_bytes r).
  { rewrite inv_bytes0. eapply total_lookup_le; [|done]. intros. by eapply Hnn. }
  assert (Hg : reserved_egress e <= r_egress r).
  { rewrite inv_egress0. eapply total_lookup_le; [|done]. intros. by eapply Hnn. }
  unfold join_end. cbn. rewrite He. destruct (is_ok res); constructor; cbn.
  - rewrite (total_insert_Some _ _ e) by done. cbn. rewrite wrapping_sub_u64_exact; [lia| |lia].
    unfold in_u64. lia.
  - rewrite (total_insert_Some _ _ e) by done. cbn. rewrite wrapping_sub_u32_exact; [lia| |lia].
    unfold in_u32. lia.
  - rewrite wrapping_sub_u64_exact; [lia| |lia]. unfold in_u64. lia.
  - rewrite wrapping_sub_u32_exact; [lia| |lia]. unfold in_u32. lia.
  - by rewrite map_size_insert_Some by eauto.
  - intros id' e1 [[<- <-]|[_ E1]]%lookup_insert_Some; [|by eapply inv_entries0].
    split; cbn; [lia|]. rewrite Ho. right. destruct k; auto.
  - intros id' Hin. destruct (Hrest _ Hin) as [Hne Hin']. rewrite lookup_insert_ne by done. eauto.
  - apply Hnd.
  - rewrite (total_insert_Some _ _ e) by done. cbn. lia.
  - rewrite (total_insert_Some _ _ e) by done. cbn. lia.
  - done.
  - done.
  - by rewrite map_size_insert_Some by eauto.
  - intros id' e1 [[<- <-]|[_ E1]]%lookup_insert_Some; [|by eapply inv_entries0].
    split; cbn; [lia|]. rewrite Ho. left. auto.
  - intros id' Hin. destruct (Hrest _ Hin) as [Hne Hin']. rewrite lookup_insert_ne by done. eauto.
  - apply Hnd.
Qed.
Lemma like_observed e : like e (observed e).2.
Proof.
  unfold observed. destruct (owner e) as [o|] eqn:Ho; [|apply like_refl].
  destruct (api_status o) as [s o']. apply like_owner. by rewrite Ho.
Qed.

Lemma inv_reap_entry r id : inv r -> inv (reap_entry r id).
Proof.
  intros Hi. unfold reap_entry. destruct (entries r !! id) as [e|] eqn:He; [|done].
  destruct (owner e) as [o|] eqn:Ho; [|done]. destruct (api_is_finished o); [|done].
  by eapply inv_take.
Qed.

Lemma inv_thread r j : ids j = ids (joining r) -> inv r -> inv (set_joining r j).
Proof. intros Hj []. constructor; cbn -[ids]; rewrite ?Hj; try done. Qed.

Lemma step_inv r x : widths x -> inv r -> inv (step r x).
Proof.
  intros Hx Hi. destruct x as [p id b g sp|p id b|p id| |p id|p ci|p id| | |i|id o|i o]; cbn.
  - destruct Hx. by apply inv_insert.
  - unfold submit. destruct (scoped r p id) as [e|] eqn:Es; [|done].
    apply scoped_Ok in Es as [He _]. destruct (draining r); [done|].
    destruct (owner e) as [o|] eqn:Ho; [|done]. destruct (api_submit o b) as [res o'].
    eapply inv_set_like; [done| |done]. apply like_owner. by rewrite Ho.
  - unfold get_status. destruct (scoped r p id) as [e|] eqn:Es; [|done].
    apply scoped_Ok in Es as [He _]. pose proof (like_observed e) as Hl.
    destruct (observed e) as [s e']. by eapply inv_set_like.
  - apply inv_map_like; [|done]. apply like_observed.
  - unfold cancel. destruct (scoped r p id) as [e|] eqn:Es; [|done].
    apply scoped_Ok in Es as [He _]. destruct (owner e) as [o|] eqn:Ho; [|done].
    eapply inv_set_like; [done| |done]. apply like_owner. by rewrite Ho.
  - unfold cancel_child. destruct (scoped r p (id_parent ci)) as [e|] eqn:Es; [|done].
    apply scoped_Ok in Es as [He _]. destruct (owner e) as [o|] eqn:Ho; [|done].
    destruct (api_cancel_child o ci) as [res o'].
    eapply inv_set_like; [done| |done]. apply like_owner. by rewrite Ho.
  - unfold stop_begin. destruct (scoped r p id) as [e|] eqn:Es; [|done].
    apply scoped_Ok in Es as [He _]. destruct (_ || _); [done|].
    destruct (owner e) as [o|] eqn:Ho; [|done]. by eapply inv_take.
  - unfold reap_begin. apply (foldl_inv inv); [|done]. intros. by apply inv_reap_entry.
  - apply inv_map_like; [|done]. intros e. unfold like, with_owner. cbn.
    by destruct (owner e).
  - destruct (join_step r i) as [r'|] eqn:Ej; [|done]. by eapply inv_join_step.
  - destruct (entries r !! id) as [e|] eqn:He; [|done].
    destruct (is_Some_b (owner e)) eqn:Ho; [|done].
    eapply inv_set_like; [done| |done]. by apply like_owner.
  - destruct (joining r !! i) as [[[id k] o']|] eqn:Hj; [|done]. apply inv_thread; [|done].
    unfold ids. rewrite list_fmap_insert. cbn. apply list_insert_id.
    by rewrite list_lookup_fmap, Hj.
Qed.

Lemma registry_run_inv r ops : Forall widths ops -> inv r -> inv (run r ops).
Proof.
  intros Hw. unfold run. apply (foldl_inv inv). intros r' x Hx. apply step_inv.
  by eapply Forall_forall in Hw.
Qed.

(** ** What is free grows, except by an insertion *)

(** An entry keeps its charge or gives it back. *)
Definition shrinks e e' : Prop :=
  (reserved_bytes e' = reserved_bytes e /\ reserved_egress e' = reserved_egress e) \/
  (reserved_bytes e' = 0 /\ reserved_egress e' = 0).
Definition fewer (m m' : gmap string (Entry O)) : Prop :=
  forall f, (forall e e', entry_ok e -> shrinks e e' -> f e' <= f e) -> total f m' <= total f m.

Lemma fewer_refl m : fewer m m.
Proof. intros f _. lia. Qed.
Lemma fewer_set m id e e' : entry_ok e -> m !! id = Some e -> shrinks e e' -> fewer m (<[id := e']> m).
Proof. intros Hok He Hs f Hf. rewrite (total_insert_Some _ _ e) by done. specialize (Hf e e' Hok Hs). lia. Qed.
Lemma fewer_like m (g : Entry O -> Entry O) : (forall id e, m !! id = Some e -> entry_ok e) -> (forall e, like e (g e)) -> fewer m (g <$> m).
Proof.
  intros Hok Hg f Hf. revert Hok. induction m as [|id e m Hid IH] using map_ind; intros Hok; [by rewrite fmap_empty|].
  rewrite fmap_insert, !total_insert_None by (done || by rewrite lookup_fmap, Hid).
  assert (f (g e) <= f e).
  { apply Hf; [apply (Hok id), lookup_insert_eq|]. destruct (Hg e) as (_ & _ & ? & ? & _). by left. }
  assert (total f (g <$> m) <= total f m); [|lia]. apply IH. intros id' e' E. apply (Hok id').
  rewrite lookup_insert_ne; [done|]. intros ->. congruence.
Qed.
Lemma like_shrinks e e' : like e e' -> shrinks e e'.
Proof. intros (_ & _ & ? & ? & _). by left. Qed.

Lemma reap_fewer r id : inv r -> fewer (entries r) (entries (reap_entry r id)).
Proof.
  intros Hi. unfold reap_entry. destruct (entries r !! id) as [e|] eqn:He; [|apply fewer_refl].
  destruct (owner e) as [o|]; [|apply fewer_refl]. destruct (api_is_finished o); [|apply fewer_refl].
  apply (fewer_set _ _ e); [by eapply inv_entries|done|by left].
Qed.

Lemma step_fewer r x : inv r -> (match x with OInsert _ _ _ _ _ => False | _ => True end) ->
  fewer (entries r) (entries (step r x)).
Proof.
  intros Hi Hx. pose proof (inv_entries _ Hi) as Hok.
  destruct x as [p id b g sp|p id b|p id| |p id|p ci|p id| | |i|id o|i o]; cbn [step]; [done|..].
  - unfold submit. destruct (scoped r p id) as [e|] eqn:Es; [|apply fewer_refl].
    apply scoped_Ok in Es as [He _]. destruct (draining r); [apply fewer_refl|].
    destruct (owner e) as [o|]; [|apply fewer_refl]. destruct (api_submit o b). apply (fewer_set _ _ e); eauto. by left.
  - unfold get_status. destruct (scoped r p id) as [e|] eqn:Es; [|apply fewer_refl].
    apply scoped_Ok in Es as [He _]. pose proof (like_observed e) as Hl. destruct (observed e).
    apply (fewer_set _ _ e); eauto. by apply like_shrinks.
  - apply fewer_like; [done|apply like_observed].
  - unfold cancel. destruct (scoped r p id) as [e|] eqn:Es; [|apply fewer_refl].
    apply scoped_Ok in Es as [He _]. cbn. destruct (owner e); [|apply fewer_refl]. apply (fewer_set _ _ e); eauto. by left.
  - unfold cancel_child. destruct (scoped r p (id_parent ci)) as [e|] eqn:Es; [|apply fewer_refl].
    apply scoped_Ok in Es as [He _]. destruct (owner e) as [o|]; [|apply fewer_refl].
    destruct (api_cancel_child o ci). apply (fewer_set _ _ e); eauto. by left.
  - unfold stop_begin. destruct (scoped r p id) as [e|] eqn:Es; [|apply fewer_refl].
    apply scoped_Ok in Es as [He _]. destruct (_ || _); [apply fewer_refl|].
    destruct (owner e); [|apply fewer_refl]. apply (fewer_set _ _ e); eauto. by left.
  - unfold reap_begin. assert (forall l r0, inv r0 -> fewer (entries r) (entries r0) -> fewer (entries r) (entries (foldl reap_entry r0 l))) as Hl.
    { induction l as [|id l IH]; intros r0 H0 Hf; [done|]. cbn. apply IH; [by apply inv_reap_entry|].
      intros f Hs. specialize (Hf f Hs). pose proof (reap_fewer r0 id H0 f Hs). lia. }
    apply Hl; [done|apply fewer_refl].
  - apply (fewer_like _ (fun e => with_owner e (api_cancel <$> owner e))); [done|]. intros e. unfold like, with_owner; cbn. by destruct (owner e).
  - destruct (join_step r i) as [r'|] eqn:Ej; [|apply fewer_refl]. cbn. revert Ej. unfold join_step.
    destruct (joining r !! i) as [[[id k] o]|]; [|done]. destruct (api_join o) as [res|]; [|done]. cbn. intros [= <-].
    unfold join_end. cbn. destruct (entries r !! id) as [e|] eqn:He; [|apply fewer_refl].
    destruct (is_ok res); cbn; (apply (fewer_set _ _ e); [by eapply Hok|done|]); [by right|by left].
  - destruct (entries r !! id) as [e|] eqn:He; [|apply fewer_refl].
    destruct (is_Some_b (owner e)); [|apply fewer_refl]. apply (fewer_set _ _ e); eauto. by left.
  - destruct (joining r !! i) as [[[id k] o']|]; apply fewer_refl.
Qed.

(** What [reserved_capacity] reports only shrinks. *)
Lemma step_releases r x : inv r -> (match x with OInsert _ _ _ _ _ => False | _ => True end) ->
  let '(o, m, s) := reserved_capacity r in let '(o', m', s') := reserved_capacity (step r x) in
  o' <= o /\ m' <= m /\ s' <= s.
Proof.
  intros Hi Hx. assert (Hi' : inv (step r x)) by (apply step_inv; [by destruct x|done]).
  pose proof (step_fewer r x Hi Hx) as Hf. unfold reserved_capacity.
  rewrite (inv_bytes _ Hi), (inv_bytes _ Hi'), (inv_egress _ Hi), (inv_egress _ Hi').
  assert (forall e, entry_ok e -> 0 <= reserved_bytes e /\ 0 <= reserved_egress e) as Hn.
  { unfold entry_ok. intros e [? Ho]. destruct (owner e); [lia|]. destruct Ho as [?|?]; lia. }
  split_and!; apply Hf; intros e e' Hok Hs; destruct (Hn e Hok); unfold shrinks, charged in *.
  - destruct (Z.eqb_spec (reserved_bytes e') 0), (Z.eqb_spec (reserved_bytes e) 0); lia.
  - lia.
  - lia.
Qed.

(** An insertion takes exactly what it charges, or nothing. *)
Lemma insert_capacity r p id b g sp : 0 < b ->
  reserved_capacity (insert_admitted r p id b g sp).2 = reserved_capacity r \/
  reserved_capacity (insert_admitted r p id b g sp).2 =
    ((reserved_capacity r).1.1 + 1, (reserved_capacity r).1.2 + b, (reserved_capacity r).2 + g).
Proof.
  intros Hb. unfold insert_admitted. destruct (_ || _ || _); [by left|]. destruct (draining r); [by left|].
  destruct (entries r !! id) eqn:He; [by left|]. destruct (checked_add_u64 _ _) as [t|] eqn:Et; [|by left].
  destruct (_ || _); [by left|]. destruct (checked_add_u32 _ _) as [te|] eqn:Ee; [|by left]. destruct sp; [|by left].
  apply checked_add_u64_Some in Et as [-> _]. apply checked_add_u32_Some in Ee as [-> _]. right.
  unfold reserved_capacity; cbn. rewrite total_insert_None by done. unfold charged at 1; cbn.
  destruct (Z.eqb_spec b 0); [lia|]. f_equal. f_equal. lia.
Qed.

Lemma capacity_nonneg r : inv r ->
  0 <= (reserved_capacity r).1.1 /\ 0 <= (reserved_capacity r).1.2 /\ 0 <= (reserved_capacity r).2.
Proof.
  intros Hi. unfold reserved_capacity; cbn. rewrite (inv_bytes _ Hi), (inv_egress _ Hi).
  assert (forall id e, entries r !! id = Some e -> 0 <= reserved_bytes e /\ 0 <= reserved_egress e) as Hn.
  { intros id e He. destruct (inv_entries _ Hi _ _ He) as [? Ho]. destruct (owner e); [lia|]. destruct Ho as [?|?]; lia. }
  split_and!; apply total_nonneg; intros id e He; [|by apply (Hn id)..]. unfold charged. by destruct (_ =? _).
Qed.

(** What a later state keeps of an entry: its principal, the loss of its owner,
    and, once its join has been answered, everything. *)
Definition settled e : Prop := owner e = None /\ status e <> Stopping.

Definition keeps e e' : Prop :=
  principal e' = principal e /\ (owner e = None -> owner e' = None) /\ (settled e -> e' = e).

Definition extends r r' : Prop :=
  max_entries r' = max_entries r /\ memory_bytes r' = memory_bytes r /\
  (draining r = true -> draining r' = true) /\
  forall id e, entries r !! id = Some e -> exists e', entries r' !! id = Some e' /\ keeps e e'.

Lemma extends_refl r : extends r r.
Proof. unfold extends, keeps. naive_solver. Qed.

Lemma extends_trans r1 r2 r3 : extends r1 r2 -> extends r2 r3 -> extends r1 r3.
Proof.
  intros (A1 & A2 & A3 & A4) (B1 & B2 & B3 & B4).
  split_and!; [congruence|congruence|auto|]. intros id e He.
  destruct (A4 _ _ He) as (e1 & E1 & P1 & Q1 & R1).
  destruct (B4 _ _ E1) as (e2 & E2 & P2 & Q2 & R2).
  exists e2. split; [done|]. split_and!; [congruence|auto|].
  intros Hs. specialize (R1 Hs) as ->. auto.
Qed.

Lemma like_keeps e e' : like e e' -> is_Some_b (owner e) = true -> keeps e e'.
Proof.
  intros (Hp & _ & _ & _ & _) Hs. unfold keeps, settled. destruct (owner e); [|done].
  naive_solver.
Qed.

Lemma extends_set r id e e' j :
  entries r !! id = Some e -> keeps e e' ->
  extends r (set_joining (set_entry r id e') j).
Proof.
  intros He Hk. split_and!; cbn; [done..|]. intros id1 e1 E1.
  destruct (decide (id = id1)) as [<-|Hne].
  - exists e'. rewrite lookup_insert_eq. split; [done|]. by replace e1 with e by congruence.
  - exists e1. rewrite lookup_insert_ne by done. split; [done|]. by unfold keeps.
Qed.

Lemma extends_set_live r id e e' :
  entries r !! id = Some e -> is_Some_b (owner e) = true -> like e e' ->
  extends r (set_entry r id e').
Proof.
  intros He Ho Hl. change (extends r (set_joining (set_entry r id e') (joining r))).
  eapply extends_set; [done|]. by apply like_keeps.
Qed.

Lemma extends_take r id e k o :
  entries r !! id = Some e -> owner e = Some o ->
  extends r (set_joining
    (set_entry r id (mkEntry (principal e) None Stopping (reserved_bytes e) (reserved_egress e)))
    ((id, k, api_cancel o) :: joining r)).
Proof.
  intros He Ho. eapply extends_set; [done|]. split; [done|]. split; [done|].
  intros [? _]. congruence.
Qed.

Lemma extends_map r (g : Entry O -> Entry O) d :
  (forall e, keeps e (g e)) -> (draining r = true -> d = true) ->
  extends r (mkRegistry (g <$> entries r) (r_bytes r) (r_egress r) d
               (max_entries r) (memory_bytes r) (joining r)).
Proof.
  intros Hg Hd. split_and!; cbn; [done..|]. intros id e He. exists (g e).
  by rewrite lookup_fmap, He.
Qed.

Lemma keeps_observed e : keeps e (observed e).2.
Proof.
  pose proof (like_observed e) as Hl. destruct (owner e) as [o|] eqn:Ho.
  - apply like_keeps; [done|]. by rewrite Ho.
  - unfold observed. rewrite Ho. by unfold keeps.
Qed.

Lemma extends_reap_entry r id : extends r (reap_entry r id).
Proof.
  unfold reap_entry. destruct (entries r !! id) as [e|] eqn:He; [|apply extends_refl].
  destruct (owner e) as [o|] eqn:Ho; [|apply extends_refl].
  destruct (api_is_finished o); [|apply extends_refl]. by eapply extends_take.
Qed.

(** What a returning join does to its entry. *)
Lemma join_step_entry r i r' :
  inv r -> join_step r i = Some r' ->
  exists id k o res e,
    joining r !! i = Some (id, k, o) /\ api_join o = Some res /\ entries r !! id = Some e /\
    owner e = None /\ status e = Stopping /\
    (forall id', id' <> id -> entries r' !! id' = entries r !! id') /\
    (draining r', max_entries r', memory_bytes r') = (draining r, max_entries r, memory_bytes r) /\
    entries r' !! id = Some (if is_ok res
      then mkEntry (principal e) None (match k with ByStop => Stopped | ByReap => ContextLost end) 0 0
      else mkEntry (principal e) None TeardownUncertain (reserved_bytes e) (reserved_egress e)).
Proof.
  intros Hi. unfold join_step. destruct (joining r !! i) as [[[id k] o]|] eqn:Hj; [|done].
  destruct (api_join o) as [res|] eqn:Ej; [|done]. cbn. intros [= <-].
  destruct (inv_joining _ Hi id (ids_elem _ _ _ _ _ Hj)) as (e & He & Ho & Hs).
  exists id, k, o, res, e. unfold join_end. cbn. rewrite He, Ho.
  split_and!; try done; destruct (is_ok res); cbn; try done.
  - intros. by rewrite lookup_insert_ne.
  - intros. by rewrite lookup_insert_ne.
  - by rewrite lookup_insert_eq.
  - by rewrite lookup_insert_eq.
Qed.

Lemma step_extends r x : inv r -> extends r (step r x).
Proof.
  intros Hi. destruct x as [p id b g sp|p id b|p id| |p id|p ci|p id| | |i|id o|i o]; cbn.
  - unfold insert_admitted. repeat case_match; try apply extends_refl. cbn.
    split_and!; cbn; [done|done|congruence|]. intros id' e He. exists e.
    rewrite lookup_insert_ne by congruence. split; [done|]. by unfold keeps.
  - unfold submit. destruct (scoped r p id) as [e|] eqn:Es; [|apply extends_refl].
    apply scoped_Ok in Es as [He _]. destruct (draining r); [apply extends_refl|].
    destruct (owner e) as [o|] eqn:Ho; [|apply extends_refl]. destruct (api_submit o b) as [res o'].
    eapply extends_set_live; [done| |apply like_owner]; by rewrite Ho.
  - unfold get_status. destruct (scoped r p id) as [e|] eqn:Es; [|apply extends_refl].
    apply scoped_Ok in Es as [He _]. pose proof (keeps_observed e) as Hk.
    destruct (observed e) as [s e']. by apply (extends_set r id e e' (joining r)).
  - by apply extends_map; [apply keeps_observed|].
  - unfold cancel. destruct (scoped r p id) as [e|] eqn:Es; [|apply extends_refl].
    apply scoped_Ok in Es as [He _]. destruct (owner e) as [o|] eqn:Ho; [|apply extends_refl].
    eapply extends_set_live; [done| |apply like_owner]; by rewrite Ho.
  - unfold cancel_child. destruct (scoped r p (id_parent ci)) as [e|] eqn:Es; [|apply extends_refl].
    apply scoped_Ok in Es as [He _]. destruct (owner e) as [o|] eqn:Ho; [|apply extends_refl].
    destruct (api_cancel_child o ci) as [res o'].
    eapply extends_set_live; [done| |apply like_owner]; by rewrite Ho.
  - unfold stop_begin. destruct (scoped r p id) as [e|] eqn:Es; [|apply extends_refl].
    apply scoped_Ok in Es as [He _]. destruct (_ || _); [apply extends_refl|].
    destruct (owner e) as [o|] eqn:Ho; [|apply extends_refl]. by eapply extends_take.
  - unfold reap_begin; apply (foldl_rel extends); [apply extends_refl|apply extends_trans|apply extends_reap_entry].
  - apply extends_map; [|done]. intros e. unfold keeps, settled, with_owner. cbn.
    destruct e as [? [] ? ? ?]; naive_solver.
  - destruct (join_step r i) as [r'|] eqn:Ej; [|apply extends_refl]. cbn.
    destruct (join_step_entry _ _ _ Hi Ej) as (id & k & o & res & e & _ & _ & He & Ho & Hs & Hne & Hc & He').
    injection Hc as Hd Hm Hb. split_and!; [done|done|by rewrite Hd|]. intros id' e1 E1.
    destruct (decide (id' = id)) as [->|Hn]; [|rewrite Hne by done; exists e1; by unfold keeps].
    assert (e1 = e) as -> by congruence.
    eexists. split; [done|]. unfold keeps, settled. destruct (is_ok res); cbn; naive_solver.
  - destruct (entries r !! id) as [e|] eqn:He; [|apply extends_refl].
    destruct (is_Some_b (owner e)) eqn:Ho; [|apply extends_refl].
    eapply extends_set_live; [done|done|]. by apply like_owner.
  - destruct (joining r !! i) as [[[id k] o']|] eqn:Hj; [|apply extends_refl].
    unfold extends, keeps, set_joining; cbn. naive_solver.
Qed.

Lemma run_extends r ops : Forall widths ops -> inv r -> extends r (run r ops).
Proof.
  intros Hw Hi. enough (inv (run r ops) /\ extends r (run r ops)) by tauto.
  unfold run. apply (foldl_inv (fun r' => inv r' /\ extends r r')); [|split; [done|apply extends_refl]].
  intros r' x Hx [Hi' He]. eapply Forall_forall in Hx; [|done].
  split; [by apply step_inv|]. eapply extends_trans; [done|]. by apply step_extends.
Qed.

(** ** Capacity *)

(** An owner whose thread has been joined. *)
Definition released e : bool :=
  negb (is_Some_b (owner e)) && (bool_decide (status e = Stopped) || bool_decide (status e = ContextLost)).

Lemma entry_ok_released e :
  entry_ok e ->
  0 <= reserved_bytes e /\ 0 <= reserved_egress e /\
  (reserved_bytes e = 0 <-> released e = true) /\ (released e = true -> reserved_egress e = 0).
Proof.
  unfold entry_ok, released. intros [Hg Ho]. destruct (owner e).
  - destruct Ho. cbn. split_and!; [lia..| |done]. split; [lia|done].
  - destruct Ho as [[[Hs|Hs] Hb]|[[Hs|Hs] [Hb He]]]; rewrite Hs; cbn; split_and!; try lia; try done;
      split; try done; lia.
Qed.

Lemma total_charged (m : gmap string (Entry O)) :
  (forall id e, m !! id = Some e -> entry_ok e) ->
  total charged m = Z.of_nat (size (filter (fun ie => released ie.2 = false) m)).
Proof.
  induction m as [|id e m Hid IH] using map_ind; intros Hok.
  - by rewrite total_empty, map_filter_empty, map_size_empty.
  - assert (He : entry_ok e) by (apply (Hok id), lookup_insert_eq).
    rewrite total_insert_None, IH; [|intros id' e' H'; apply (Hok id')|done];
      [|rewrite lookup_insert_ne; [done|congruence]].
    apply entry_ok_released in He as (_ & _ & Hr & _). unfold charged.
    destruct (Z.eqb_spec (reserved_bytes e) 0) as [Hz|Hz].
    + rewrite map_filter_insert_False, delete_id; [done|done|]. cbn. rewrite (proj1 Hr); done.
    + rewrite map_filter_insert_True, map_size_insert_None; [lia| |].
      * apply map_lookup_filter_None. left. done.
      * cbn. destruct (released e); [|done]. by destruct Hz, Hr; auto.
Qed.

(** C22: Capacity accounting is exact after any history of calls, thread steps and
    joins: the bytes and broker slots reserved are the sums of what the entries
    hold, they stay within the configured memory and [u32], the number of
    identities stays within the configured maximum, an entry holds a charge
    exactly while its owner has not been joined, and [reserved_capacity] reports
    the number of these entries with both sums. *)
Theorem registry_capacity max mem r0 ops :
  in_u64 mem -> new max mem = Ok r0 -> Forall widths ops ->
  let r := run r0 ops in
  r_bytes r = total reserved_bytes (entries r) /\ 0 <= r_bytes r <= mem /\
  r_egress r = total reserved_egress (entries r) /\ in_u32 (r_egress r) /\
  Z.of_nat (size (entries r)) <= max /\
  (forall id e, entries r !! id = Some e ->
     (reserved_bytes e = 0 <-> released e = true) /\ (released e = true -> reserved_egress e = 0)) /\
  reserved_capacity r =
    (Z.of_nat (size (filter (fun ie => released ie.2 = false) (entries r))), r_bytes r, r_egress r).
Proof.
  intros Hm Hn Hw r. assert (Hi0 : inv r0) by by eapply inv_new.
  destruct (run_extends r0 ops Hw Hi0) as (E1 & E2 & _). fold r in E1, E2.
  assert (Hc : max_entries r0 = max /\ memory_bytes r0 = mem).
  { unfold new in Hn. destruct (_ || _); [done|]. by injection Hn as <-. }
  destruct Hc as [C1 C2].
  pose proof (registry_run_inv r0 ops Hw Hi0) as Hi. fold r in Hi.
  pose proof (fun id e He => entry_ok_released e (inv_entries _ Hi id e He)) as Hall.
  unfold in_u32. destruct Hi. split_and!; try done; try lia.
  - rewrite inv_bytes0. apply total_nonneg. intros. by eapply Hall.
  - rewrite inv_egress0. apply total_nonneg. intros. by eapply Hall.
  - intros id e He. by destruct (Hall _ _ He) as (_ & _ & ? & ?).
  - unfold reserved_capacity. by rewrite total_charged.
Qed.

(** An identity is claimed once and for ever: whatever happens later, its
    entry keeps its principal, a lost owner is never replaced, the outcome of
    its join is never overwritten, and every further insertion under that
    identity is refused without starting an owner or changing the registry. *)
Theorem registry_tombstones max mem r0 ops later id e :
  in_u64 mem -> new max mem = Ok r0 -> Forall widths (ops ++ later) ->
  entries (run r0 ops) !! id = Some e ->
  let r := run r0 (ops ++ later) in
  exists e', entries r !! id = Some e' /\
    principal e' = principal e /\
    (owner e = None -> owner e' = None) /\
    (owner e = None /\ status e <> Stopping -> e' = e) /\
    forall p b g sp, exists msg, insert_admitted r p id b g sp = (Err msg, r).
Proof.
  intros Hm Hn [Hw Hw']%Forall_app He r. assert (Hi0 : inv r0) by by eapply inv_new.
  pose proof (registry_run_inv r0 ops Hw Hi0) as Hi.
  assert (Er : r = run (run r0 ops) later) by apply foldl_app.
  destruct (run_extends _ later Hw' Hi) as (_ & _ & _ & Hx).
  destruct (Hx _ _ He) as (e' & He' & Hp & Ho & Hs). rewrite <- Er in He'.
  exists e'. split_and!; try done. intros p b g sp. unfold insert_admitted. rewrite He'.
  destruct (_ || _ || _); [eauto|]. destruct (draining r); eauto.
Qed.

(** Isolation of callers: under a principal that does not own an identity,
    every routed operation fails with the same error as for an identity that was
    never claimed, and changes nothing. *)
Theorem registry_scoped r p id :
  (forall e, entries r !! id = Some e -> principal e <> p) ->
  (forall b, submit r p id b = (Err "parent owner not found", r)) /\
  get_status r p id = (Err "parent owner not found", r) /\
  cancel r p id = (Err "parent owner not found", r) /\
  (forall ci, id_parent ci = id -> cancel_child r p ci = (Err "parent owner not found", r)) /\
  stop_begin r p id = (Err "parent owner not found", r).
Proof.
  intros Hp. assert (Hs : scoped r p id = Err "parent owner not found").
  { unfold scoped. destruct (entries r !! id) as [e|] eqn:He; [|done].
    destruct (String.eqb_spec (principal e) p); [|done]. by destruct (Hp e). }
  unfold submit, get_status, cancel, cancel_child, stop_begin.
  split_and!; intros; subst; by rewrite Hs.
Qed.

(** Memory is given back only by a confirmed join: if one step leaves fewer
    bytes reserved, that step is the return of a join that answered success, and
    the thread it joined had finished. *)
Theorem registry_release max mem r0 ops x :
  in_u64 mem -> new max mem = Ok r0 -> Forall widths ops -> widths x ->
  r_bytes (step (run r0 ops) x) < r_bytes (run r0 ops) ->
  exists i id k o,
    x = OJoin i /\ joining (run r0 ops) !! i = Some (id, k, o) /\
    api_join o = Some (Ok tt) /\ api_is_finished o = true.
Proof.
  intros Hm Hn Hw Hx. pose proof (registry_run_inv r0 ops Hw (inv_new _ _ _ Hm Hn)) as Hi.
  generalize dependent (run r0 ops). intros r Hi Hlt.
  destruct x as [p id b g sp|p id b|p id| |p id|p ci|p id| | |i|id o|i o]; cbn in Hlt.
  - destruct Hx as [Hb _]. unfold insert_admitted in Hlt. repeat case_match; cbn in Hlt; try lia.
    autorewrite with celln in *. unfold in_u64 in Hb. lia.
  - unfold submit in Hlt. repeat case_match; cbn in Hlt; lia.
  - unfold get_status in Hlt. repeat case_match; cbn in Hlt; lia.
  - lia.
  - unfold cancel in Hlt. repeat case_match; cbn in Hlt; lia.
  - unfold cancel_child in Hlt. repeat case_match; cbn in Hlt; lia.
  - unfold stop_begin in Hlt. repeat case_match; cbn in Hlt; lia.
  - exfalso. assert (E : r_bytes (reap_begin r) = r_bytes r); [|lia].
    unfold reap_begin. apply (foldl_inv (fun r' => r_bytes r' = r_bytes r)); [|done].
    intros r' id _ <-. unfold reap_entry. repeat case_match; done.
  - lia.
  - destruct (join_step r i) as [r'|] eqn:Ej; cbn in Hlt; [|lia].
    unfold join_step in Ej. destruct (joining r !! i) as [[[id k] o]|] eqn:Hj; [|done].
    destruct (api_join o) as [res|] eqn:Er; [|done]. injection Ej as <-.
    exists i, id, k, o. assert (res = Ok tt) as ->.
    { unfold join_end in Hlt. cbn in Hlt. destruct (entries r !! id); [|cbn in Hlt; lia].
      destruct res as [[]|]; [done|cbn in Hlt; lia]. }
    split_and!; try done. by eapply api_join_finished.
  - repeat case_match; cbn in Hlt; lia.
  - repeat case_match; cbn in Hlt; lia.
Qed.

(** ** Stopping and draining *)

(** [stop] is a history of its two halves. *)
Lemma stop_run wait r p id res r' :
  stop wait r p id = Some (res, r') ->
  r' = (stop_begin r p id).2 \/
  exists o, r' = run r [OStop p id; OJoining 0 (wait o); OJoin 0] /\
    joining (stop_begin r p id).2 = (id, ByStop, o) :: joining r /\
    api_join (wait o) = Some res.
Proof.
  unfold stop. destruct (stop_begin r p id) as [[[]|msg] r1] eqn:Eb; cbn; try naive_solver.
  assert (E : exists o, joining r1 = (id, ByStop, o) :: joining r).
  { unfold stop_begin in Eb. repeat case_match; simplify_eq. cbn. eauto. }
  destruct E as [o E]. rewrite E. destruct (api_join (wait o)) as [res'|] eqn:Ej; [|done].
  cbn. intros [= -> <-]. right. exists o. split_and!; [|done|done].
  rewrite Eb. cbn. rewrite E. cbn. unfold join_step. cbn. by rewrite Ej.
Qed.

Lemma stop_good wait r p id res r' :
  inv r -> stop wait r p id = Some (res, r') -> inv r' /\ extends r r'.
Proof.
  intros Hi Hs. apply stop_run in Hs as [->|(o & -> & _)].
  - split; [by apply (step_inv r (OStop p id))|by apply (step_extends r (OStop p id))].
  - split; [apply registry_run_inv|apply run_extends]; try done; repeat constructor.
Qed.

(** What the entries are after [stop]: only that of [id] can be another one, and
    after a success it is released. *)
Lemma stop_entries wait r p id res r' :
  inv r -> stop wait r p id = Some (res, r') ->
  (forall id', entries r !! id' = None -> entries r' !! id' = None) /\
  (forall id', id' <> id -> entries r' !! id' = entries r !! id') /\
  (res = Ok tt -> exists e, entries r' !! id = Some e /\ released e = true).
Proof.
  intros Hi. unfold stop. destruct (stop_begin r p id) as [[b|msg] r1] eqn:Eb;
    unfold stop_begin in Eb; destruct (scoped r p id) as [e|] eqn:Es; try done;
    try (apply scoped_Ok in Es as [He _]);
    repeat case_match; intros; simplify_eq/=; try (split_and!; done || congruence).
  - split_and!; [done|done|]. intros _. exists e. split; [done|].
    pose proof (inv_entries _ Hi _ _ He) as [_ Hok]. unfold released.
    reflect. rewrite !bool_decide_eq_true in *.
    destruct (owner e); cbn; [destruct Hok as [Hst _]; rewrite Hst in *; naive_solver|].
    destruct (status e); naive_solver.
  - destruct (api_join (wait _)) as [res'|]; [|done]. simplify_eq/=.
    unfold join_end. cbn. rewrite lookup_insert_eq. cbn.
    destruct (is_ok res) eqn:Er; cbn; (split_and!; [| |intros ->]).
    all: try (intros id' Hn; rewrite !lookup_insert_ne; [done|congruence..]).
    + eexists. by rewrite lookup_insert_eq.
    + done.
Qed.

(** Everything that must hold of the loop of [drain] when it has seen [seen]. *)
Definition drained (r0 : Registry O) (seen : list (string * hash)) (acc : option (bool * Registry O)) : Prop :=
  match acc with
  | None => True
  | Some (uncertain, r) =>
      inv r /\ extends r0 r /\ (forall id, entries r0 !! id = None -> entries r !! id = None) /\
      (uncertain = false -> forall pi, pi ∈ seen -> exists e, entries r !! pi.2 = Some e /\ released e = true)
  end.

Lemma released_settled e : released e = true -> settled e.
Proof.
  unfold released, settled. destruct (owner e); [done|]. cbn. intros Hr. split; [done|].
  intros Hs. rewrite Hs in Hr. done.
Qed.

Lemma drained_step wait r0 seen acc pi :
  drained r0 seen acc -> drained r0 (seen ++ [pi]) (drain_one wait acc pi).
Proof.
  destruct acc as [[u r]|]; [|done]. intros (Hi & Hx & Hd & Hu). cbn.
  destruct (stop wait r pi.1 pi.2) as [[res r']|] eqn:Es; [|done]. cbn.
  destruct (stop_good _ _ _ _ _ _ Hi Es) as [Hi' Hx'].
  destruct (stop_entries _ _ _ _ _ _ Hi Es) as (Hn & Hne & Hres).
  split_and!; [done|by eapply extends_trans|by auto|].
  intros [-> Hr]%orb_false_iff pi' [Hin|Hin]%elem_of_app; [|apply list_elem_of_singleton in Hin as ->].
  - destruct (Hu eq_refl _ Hin) as (e & He & Hrel). destruct Hx' as (_ & _ & _ & Hx').
    destruct (Hx' _ _ He) as (e' & He' & _ & _ & Hk).
    exists e'. rewrite (Hk (released_settled _ Hrel)) in *. done.
  - destruct res as [[]|]; [|done]. by apply Hres.
Qed.

Lemma drained_fold wait r0 l seen acc :
  drained r0 seen acc -> drained r0 (seen ++ l) (foldl (drain_one wait) acc l).
Proof.
  revert seen acc. induction l as [|pi l IH]; intros seen acc Hd; cbn.
  - by rewrite app_nil_r.
  - rewrite cons_middle, app_assoc. by apply IH, drained_step.
Qed.

(** C39: A drain that reports success has released everything: admission is closed
    for ever, every identity the registry held is still there with its principal,
    every owner has been joined, and no memory and no broker slot is reserved. *)
Theorem registry_drain wait max mem r0 ops r' :
  in_u64 mem -> new max mem = Ok r0 -> Forall widths ops ->
  drain wait (run r0 ops) = Some (Ok tt, r') ->
  r_bytes r' = 0 /\ r_egress r' = 0 /\
  (forall id e, entries r' !! id = Some e -> released e = true) /\
  (forall id e, entries (run r0 ops) !! id = Some e ->
     exists e', entries r' !! id = Some e' /\ principal e' = principal e) /\
  forall later, Forall widths later ->
    (forall p id b g sp, is_err (insert_admitted (run r' later) p id b g sp).1 = true) /\
    (forall p id b, is_err (submit (run r' later) p id b).1 = true).
Proof.
  intros Hm Hn Hw. pose proof (registry_run_inv r0 ops Hw (inv_new _ _ _ Hm Hn)) as Hi.
  generalize dependent (run r0 ops). intros r Hi. unfold drain.
  pose proof (step_inv r ODrain I Hi : inv (drain_begin r).2) as Hi1.
  pose proof (step_extends r ODrain Hi : extends r (drain_begin r).2) as Hx1.
  destruct (drain_begin r) as [l r1] eqn:Ed. cbn in Hi1, Hx1.
  assert (Hd : drained r1 (l) (foldl (drain_one wait) (Some (false, r1)) l)).
  { apply (drained_fold wait r1 l []). split_and!; try done; [apply extends_refl|].
    intros _ pi Hin. by apply elem_of_nil in Hin. }
  destruct (foldl _ _ l) as [[[] r2]|]; [done| |done]. cbn. intros [= <-].
  destruct Hd as (Hi2 & Hx2 & Hnone & Hrel).
  assert (Hall : forall id e, entries r2 !! id = Some e -> released e = true).
  { intros id e He. destruct (entries r1 !! id) as [e1|] eqn:E1;
      [|rewrite (Hnone _ E1) in He; done].
    injection Ed as <- <-. cbn in E1. apply lookup_fmap_Some in E1 as (e0 & _ & E0).
    destruct (Hrel eq_refl (principal e0, id)) as (e2 & E2 & Hr2).
    - apply list_elem_of_fmap. exists (id, e0). split; [done|]. by apply btree_iter_elem.
    - cbn in E2. congruence. }
  assert (Hz : forall id e, entries r2 !! id = Some e -> reserved_bytes e = 0 /\ reserved_egress e = 0).
  { intros id e He. destruct (entry_ok_released e (inv_entries _ Hi2 _ _ He)) as (_ & _ & ? & ?).
    specialize (Hall _ _ He). naive_solver. }
  split_and!.
  - rewrite (inv_bytes _ Hi2). apply total_zero. intros. by eapply Hz.
  - rewrite (inv_egress _ Hi2). apply total_zero. intros. by eapply Hz.
  - done.
  - intros id e He. destruct (extends_trans _ _ _ Hx1 Hx2) as (_ & _ & _ & Hx).
    destruct (Hx _ _ He) as (e' & He' & Hp & _). eauto.
  - intros later Hl. destruct (run_extends r2 later Hl Hi2) as (_ & _ & Hdr & _).
    assert (Hdrain : draining (run r2 later) = true).
    { apply Hdr. destruct Hx2 as (_ & _ & Hx2 & _). apply Hx2. by injection Ed as <- <-. }
    split; intros; [unfold insert_admitted|unfold submit]; rewrite Hdrain.
    + by destruct (_ || _ || _).
    + by destruct (scoped _ _ _).
Qed.
End histories.

(** ** Concrete histories *)

Definition end_thread (o : Owner.Owner) : Owner.Owner := Owner.set_phase o Finished.

Definition toy_registry : Registry Owner.Owner := mkRegistry ∅ 0 0 false 2 100 [].

(** Alice's owner is inserted, stopped and joined; Bob's owner does not fit. *)
Definition toy_history : list (op (O := Owner.Owner)) :=
  [OInsert "alice" "a" 60 2 (Ok toy_owner); OInsert "bob" "b" 60 1 (Ok toy_owner);
   OStop "alice" "a"; OJoining 0 (end_thread toy_owner)].

Lemma toy_widths : Forall widths toy_history.
Proof. repeat constructor; cbn; unfold u64_max, u32_max; lia. Qed.

Lemma toy_mem : in_u64 100.
Proof. unfold in_u64, u64_max. lia. Qed.

Lemma registry_capacity_witness :
  r_bytes (run toy_registry toy_history) = 60 /\ 0 <= r_bytes (run toy_registry toy_history) <= 100 /\
  reserved_capacity (run toy_registry toy_history) = (1, 60, 2).
Proof.
  split; [vm_compute; reflexivity|].
  destruct (registry_capacity 2 100 toy_registry toy_history toy_mem eq_refl toy_widths)
    as (_ & Hb & _). split; [exact Hb|vm_compute; reflexivity].
Defined.

Lemma registry_release_witness :
  exists i id k o,
    OJoin (O := Owner.Owner) 0 = OJoin i /\ joining (run toy_registry toy_history) !! i = Some (id, k, o) /\
    api_join o = Some (Ok tt) /\ api_is_finished o = true.
Proof.
  apply (registry_release 2 100 toy_registry toy_history (OJoin 0) toy_mem eq_refl toy_widths I).
  vm_compute. reflexivity.
Defined.

Lemma toy_widths_later : Forall widths (toy_history ++ [OJoin 0]).
Proof. apply Forall_app. split; [apply toy_widths|repeat constructor]. Qed.

Lemma registry_tombstones_witness :
  exists e', entries (run toy_registry (toy_history ++ [OJoin 0])) !! "a" = Some e' /\
    principal e' = "alice" /\ status e' = Stopped.
Proof.
  destruct (registry_tombstones 2 100 toy_registry toy_history [OJoin 0] "a"
    (mkEntry "alice" None Stopping 60 2) toy_mem eq_refl toy_widths_later) as (e' & He & Hp & _).
  - vm_compute. reflexivity.
  - exists e'. split; [exact He|]. split; [exact Hp|].
    cut (Some (status e') = Some Stopped); [by intros [=]|].
    change (Some (status e')) with (status <$> Some e'). rewrite <- He. vm_compute. reflexivity.
Defined.

Lemma registry_scoped_witness :
  submit (run toy_registry toy_history) "bob" "a" [x01] =
    (Err "parent owner not found", run toy_registry toy_history).
Proof.
  apply (registry_scoped (run toy_registry toy_history) "bob" "a").
  intros e He Hp. cut (Some (principal e) = Some "alice"); [rewrite Hp; discriminate|].
  change (Some (principal e)) with (principal <$> Some e). rewrite <- He. vm_compute. reflexivity.
Defined.

Definition toy_two : list (op (O := Owner.Owner)) :=
  [OInsert "alice" "a" 60 2 (Ok toy_owner); OInsert "bob" "b" 40 1 (Ok toy_owner)].

Lemma registry_drain_witness :
  exists r', drain end_thread (run toy_registry toy_two) = Some (Ok tt, r') /\ r_bytes r' = 0.
Proof.
  destruct (drain end_thread (run toy_registry toy_two)) as [[res r']|] eqn:E;
    [|vm_compute in E; discriminate].
  assert (res = Ok tt) as ->.
  { cut (Some res = Some (Ok tt)); [by intros [=]|].
    change (Some res) with (fst <$> Some (res, r')). rewrite <- E. vm_compute. reflexivity. }
  exists r'. split; [reflexivity|].
  apply (registry_drain end_thread 2 100 toy_registry toy_two r' toy_mem eq_refl); [|exact E].
  repeat constructor; cbn; unfold u64_max, u32_max; lia.
Defined.
