(* ===== verification/Journal.v ===== *)
(** * The parent journal ([crates/celln-warden/src/parent_journal.rs])

    The durable tombstone of a parent incarnation and the immutable stages of
    its turns. The operator's root directory is a map of directories of files;
    every system call may fail, as the fault stream of the state decides, so an
    operation is a computation in a state and error monad. A temporary file that
    [publish] writes before it links the record is removed on failure and has no
    record's name: it is not part of the state. *)

From S2P Require Import Prelude Json Manifest Protocol Lease.

(** ** The file system *)

(** [io::ErrorKind]. *)
Inductive ErrorKind : Type := NotFound | AlreadyExists | InvalidData | Unsupported | OtherKind.

#[export] Instance ErrorKind_eq_dec : EqDecision ErrorKind.
Proof. solve_decision. Defined.

Record File : Type := mkFile { content : bytes; f_mtime : Z }.
Record Dir : Type := mkDir { files : gmap string File; d_mtime : Z }.

(** A name of the root: a directory, or something that is not one. *)
Inductive Node : Type := IsDir (d : Dir) | NotDir.

(** [clock] is the file system's time in Unix milliseconds; [faults] says which of
    the next system calls fail. *)
Record FS : Type := mkFS { nodes : gmap string Node; clock : Z; faults : list bool }.

Definition IO (A : Type) : Type := FS -> result ErrorKind A * FS.

#[export] Instance IO_ret : MRet IO := fun A a fs => (Ok a, fs).
#[export] Instance IO_bind : MBind IO := fun A B f m fs =>
  match m fs with (Ok a, fs) => f a fs | (Err e, fs) => (Err e, fs) end.

Definition fail {A} (e : ErrorKind) : IO A := fun fs => (Err e, fs).
Definition lift {A} (r : result ErrorKind A) : IO A := fun fs => (r, fs).
Definition guard_io (c : bool) (e : ErrorKind) : IO unit := lift (ensure c e).

(** One system call. *)
Definition sys : IO unit := fun fs =>
  match faults fs with
  | f :: fs' => (if f then Err OtherKind else Ok tt, mkFS (nodes fs) (clock fs) fs')
  | [] => (Ok tt, fs)
  end.

(** The result of a computation as a value: a [match] on it, or [.ok()]. *)
Definition catch {A} (m : IO A) : IO (result ErrorKind A) := fun fs =>
  let '(r, fs) := m fs in (Ok r, fs).

Definition get_fs : IO FS := fun fs => (Ok fs, fs).
Definition put_node (name : string) (n : Node) : IO unit := fun fs =>
  (Ok tt, mkFS (<[name := n]> (nodes fs)) (clock fs) (faults fs)).

Definition open_dir (d : string) : IO Dir :=
  _ ← sys; fs ← get_fs;
  match nodes fs !! d with
  | Some (IsDir dir) => mret dir
  | Some NotDir => fail OtherKind
  | None => fail NotFound
  end.

(** [fs::create_dir]. *)
Definition create_dir (d : string) : IO unit :=
  _ ← sys; fs ← get_fs;
  match nodes fs !! d with
  | Some _ => fail AlreadyExists
  | None => put_node d (IsDir (mkDir ∅ (clock fs)))
  end.

(** [file.persist_noclobber(path)]: links the written file under a free name. *)
Definition persist_noclobber (d name : string) (b : bytes) : IO unit :=
  dir ← open_dir d; fs ← get_fs;
  match files dir !! name with
  | Some _ => fail AlreadyExists
  | None => put_node d (IsDir (mkDir (<[name := mkFile b (clock fs)]> (files dir)) (clock fs)))
  end.

(** *** What computations do to the tree *)

(** The contents of a file, without faults. *)
Definition peek (n : gmap string Node) (d name : string) : result ErrorKind bytes :=
  match n !! d with
  | None => Err NotFound
  | Some NotDir => Err OtherKind
  | Some (IsDir dir) => match files dir !! name with None => Err NotFound | Some f => Ok (content f) end
  end.

(** [m] leaves the tree alone. *)
Definition pure_io {A} (m : IO A) : Prop := forall fs, nodes (m fs).2 = nodes fs.

(** Linking one file under a free name. *)
Definition added (n n' : gmap string Node) (d name : string) (b : bytes) : Prop :=
  exists dir t, n !! d = Some (IsDir dir) /\ files dir !! name = None /\
    n' = <[d := IsDir (mkDir (<[name := mkFile b t]> (files dir)) t)]> n.

(** Making one empty directory. *)
Definition made (n n' : gmap string Node) (d : string) : Prop :=
  exists t, n !! d = None /\ n' = <[d := IsDir (mkDir ∅ t)]> n.

Lemma bind_Ok {A B} (m : IO A) (f : A -> IO B) fs b fs' :
  (m ≫= f) fs = (Ok b, fs') <-> exists a fs1, m fs = (Ok a, fs1) /\ f a fs1 = (Ok b, fs').
Proof. unfold mbind, IO_bind. destruct (m fs) as [[a|e] fs1]; naive_solver. Qed.

Lemma pure_ret {A} (a : A) : pure_io (mret a).
Proof. done. Qed.
Lemma pure_fail {A} e : pure_io (@fail A e).
Proof. done. Qed.
Lemma pure_lift {A} (r : result ErrorKind A) : pure_io (lift r).
Proof. done. Qed.
Lemma pure_guard c e : pure_io (guard_io c e).
Proof. done. Qed.
Lemma pure_get : pure_io get_fs.
Proof. done. Qed.
Lemma pure_sys : pure_io sys.
Proof. intros fs. unfold sys. by destruct (faults fs). Qed.
Lemma pure_bind {A B} (m : IO A) (f : A -> IO B) :
  pure_io m -> (forall a, pure_io (f a)) -> pure_io (m ≫= f).
Proof.
  intros Hm Hf fs. unfold mbind, IO_bind. specialize (Hm fs).
  destruct (m fs) as [[a|e] fs1]; cbn in *; [|done]. by rewrite Hf.
Qed.
Lemma pure_catch {A} (m : IO A) : pure_io m -> pure_io (catch m).
Proof. intros Hm fs. unfold catch. specialize (Hm fs). by destruct (m fs). Qed.
#[local] Hint Resolve pure_ret pure_fail pure_lift pure_guard pure_get pure_sys pure_bind pure_catch : celln.

(** Walk through a computation that only reads. *)
Ltac pure_tac :=
  repeat match goal with
    | |- pure_io (_ ≫= _) => apply pure_bind; [|intro]
    | |- pure_io (catch _) => apply pure_catch
    | |- pure_io (match ?x with _ => _ end) => destruct x
    | |- pure_io (let '_ := ?x in _) => destruct x
    | |- pure_io _ => solve [auto with celln nocore]
    end.

Lemma pure_open_dir d : pure_io (open_dir d).
Proof. unfold open_dir. pure_tac. Qed.
#[local] Hint Resolve pure_open_dir : celln.

Lemma open_dir_Ok d fs dir fs' :
  open_dir d fs = (Ok dir, fs') -> nodes fs !! d = Some (IsDir dir) /\ nodes fs' = nodes fs.
Proof.
  intros E. pose proof (pure_open_dir d fs) as Hp. rewrite E in Hp. split; [|done].
  unfold open_dir in E. apply bind_Ok in E as (u & fs1 & E1 & E).
  apply bind_Ok in E as (fs2 & fs3 & [= <- <-] & E).
  pose proof (pure_sys fs) as Hs. rewrite E1 in Hs. cbn in Hs. rewrite <- Hs.
  destruct (nodes fs1 !! d) as [[dir'|]|]; [|done..]. by injection E as <- _.
Qed.

Lemma persist_effect d name b fs :
  let '(r, fs') := persist_noclobber d name b fs in
  if is_ok r then added (nodes fs) (nodes fs') d name b else nodes fs' = nodes fs.
Proof.
  unfold persist_noclobber, mbind, IO_bind. destruct (open_dir d fs) as [[dir|e] fs1] eqn:E.
  - apply open_dir_Ok in E as [Hd Hn]. cbn. destruct (files dir !! name) eqn:Hf; cbn; [done|].
    exists dir, (clock fs1). by rewrite Hn.
  - cbn. pose proof (pure_open_dir d fs) as Hp. by rewrite E in Hp.
Qed.

Lemma create_dir_effect d fs :
  let '(r, fs') := create_dir d fs in
  match r with
  | Ok _ => made (nodes fs) (nodes fs') d
  | Err e => nodes fs' = nodes fs
  end.
Proof.
  unfold create_dir, mbind, IO_bind. pose proof (pure_sys fs) as Hs.
  destruct (sys fs) as [[u|e] fs1]; cbn in *; [|done].
  rewrite Hs. destruct (nodes fs !! d) eqn:Hd; cbn; [done|]. exists (clock fs1). by rewrite Hs.
Qed.

Lemma peek_added n n' d name b d' name' :
  added n n' d name b ->
  peek n' d' name' = if decide (d' = d /\ name' = name) then Ok b else peek n d' name'.
Proof.
  intros (dir & t & Hd & Hf & ->). unfold peek. destruct (decide (d' = d)) as [->|Hne].
  - rewrite lookup_insert_eq, Hd. cbn. destruct (decide (name' = name)) as [->|Hne].
    + rewrite lookup_insert_eq. by rewrite decide_True.
    + rewrite lookup_insert_ne by done. by rewrite decide_False by tauto.
  - rewrite lookup_insert_ne by done. by rewrite decide_False by tauto.
Qed.

Lemma peek_added_old n n' d name b : added n n' d name b -> peek n d name = Err NotFound.
Proof. intros (dir & t & Hd & Hf & _). unfold peek. by rewrite Hd, Hf. Qed.

Lemma peek_made n n' d d' name : made n n' d -> peek n' d' name = peek n d' name.
Proof.
  intros (t & Hd & ->). unfold peek. destruct (decide (d' = d)) as [->|Hne].
  - by rewrite lookup_insert_eq, Hd.
  - by rewrite lookup_insert_ne.
Qed.

(** ** Records *)

Record Reservation : Type := mkReservation {
  rs_version : Z;
  rs_parent : hash;
  rs_child : hash;
  rs_request : TurnRequest;
  rs_memory_bytes : Z;
  rs_timeout_nanos : Z;
  rs_model_requests : Z;
  rs_output_tokens : Z;
}.

Record DestroyedRecord : Type := mkDestroyed {
  ds_version : Z;
  ds_parent : hash;
  ds_child : hash;
  ds_turn_id : string;
  ds_succeeded : bool;
  ds_answer : string;
}.

Record CommittedRecord : Type := mkCommitted {
  cm_version : Z;
  cm_parent : hash;
  cm_child : hash;
  cm_turn_id : string;
}.

Record ParentRecord : Type := mkParentRecord {
  pr_version : Z;
  pr_parent : hash;
  pr_recovery : string;
}.

Record OwnerRecord : Type := mkOwnerRecord {
  ow_version : Z;
  ow_parent : hash;
  ow_principal : string;
}.

Record ProcessRecord : Type := mkProcessRecord {
  pc_version : Z;
  pc_parent : hash;
  pc_boot : string;
  pc_pid_namespace : Z;
  pc_uid : Z;
  pc_pid : Z;
  pc_start_ticks : Z;
}.

Inductive TurnStatus : Type :=
| Reserved (r : Reservation)
| ChildDestroyed (d : DestroyedRecord)
| ParentCommitted (d : DestroyedRecord).

#[export] Instance Reservation_eq_dec : EqDecision Reservation.
Proof. solve_decision. Defined.
#[export] Instance DestroyedRecord_eq_dec : EqDecision DestroyedRecord.
Proof. solve_decision. Defined.
#[export] Instance CommittedRecord_eq_dec : EqDecision CommittedRecord.
Proof. solve_decision. Defined.
#[export] Instance ParentRecord_eq_dec : EqDecision ParentRecord.
Proof. solve_decision. Defined.
#[export] Instance OwnerRecord_eq_dec : EqDecision OwnerRecord.
Proof. solve_decision. Defined.
#[export] Instance ProcessRecord_eq_dec : EqDecision ProcessRecord.
Proof. solve_decision. Defined.
#[export] Instance TurnStatus_eq_dec : EqDecision TurnStatus.
Proof. solve_decision. Defined.

Record ParentJournal : Type := mkJournal {
  directory : string;
  j_parent : hash;
  reservations : Z;
}.

Definition MAX_RECORD_BYTES : Z := 65536.
Definition RECOVERY : string := "context-lost-without-live-owner".

Definition valid_principal (p : string) : bool :=
  negb (str_is_empty p) && (str_len p <=? 512) && negb (has_control (as_bytes p)).

Record TurnSummary : Type := mkTurnSummary {
  ts_turn_id : string;
  ts_stage : string;
  ts_child : hash;
  ts_succeeded : option bool;
  ts_timeout_nanos : Z;
  ts_reserved_ms : Z;
}.

Record ParentSummary : Type := mkParentSummary {
  ps_parent : hash;
  ps_updated_ms : Z;
  ps_turns : list TurnSummary;
  ps_turns_total : Z;
}.

Definition modified_ms (t : Z) : Z := if t <? 0 then 0 else Z.min t u64_max.

(** ** procfs *)

(** What the kernel answers: the boot identity, the PID namespace, our own user,
    the text of [/proc/<pid>/stat], and [kill(pid, 0)]. *)
Record Proc : Type := mkProc {
  boot_id : result ErrorKind bytes;
  pid_namespace : result ErrorKind Z;
  self_uid : result ErrorKind Z;
  self_pid : Z;
  stat : Z -> result ErrorKind bytes;
  kill_esrch : Z -> bool;
}.

Definition boot_byte (b : byte) : bool := is_ascii_hexdigit b || bool_decide (b = x2d).

(** [s.trim()] of ASCII white space at both ends. *)
Fixpoint trim_left (b : bytes) (fuel : nat) : bytes :=
  match fuel with
  | O => b
  | S n => match ws_rest b with Some r => trim_left r n | None => b end
  end.
Definition is_blank (b : bytes) : bool := all_whitespace b.
Fixpoint trim_right (b : bytes) : bytes :=
  match b with
  | [] => []
  | x :: r => if is_blank (x :: r) then [] else x :: trim_right r
  end.
Definition trim (b : bytes) : bytes := trim_right (trim_left b (length b)).

Definition process_context (p : Proc) : result ErrorKind (string * Z) :=
  boot ← boot_id p;
  _ ← ensure (utf8_valid boot) InvalidData;
  let boot := trim boot in
  _ ← ensure ((blen boot =? 36) && forallb boot_byte boot) InvalidData;
  ns ← pid_namespace p;
  Ok (from_utf8 boot, ns).

Definition process_start (p : Proc) (pid : Z) : result ErrorKind Z :=
  text ← stat p pid;
  let text := take_bytes 16385 text in
  _ ← ensure (utf8_valid text) InvalidData;
  _ ← ensure (blen text <=? 16384) InvalidData;
  match after_last x29 text with
  | None => Err InvalidData
  | Some fields =>
      match split_whitespace fields !! 19%nat ≫= parse_u64 with
      | Some ticks => if ticks =? 0 then Err InvalidData else Ok ticks
      | None => Err InvalidData
      end
  end.

Section journal.
Context `{Blake3} `{Json TurnRequest} `{Json (string * string)}.
Context `{Json Reservation} `{Json DestroyedRecord} `{Json CommittedRecord}.
Context `{Json ParentRecord} `{Json OwnerRecord} `{Json ProcessRecord} `{Json Value}.

(** The hex digits of [Hash::of(text)]. *)
Definition hash_name (text : string) : string := trim_start_matches "blake3:" (hash_of (as_bytes text)).
Definition parent_directory (p : hash) : string := hash_name p.
Definition filename (turn stage : string) : string := (hash_name turn ++ "." ++ stage ++ ".json")%string.

(** [read_record]. *)
Definition read_record {A} `{Json A} (d name : string) : IO A :=
  dir ← open_dir d;
  match files dir !! name with
  | None => fail NotFound
  | Some f =>
      _ ← sys;
      _ ← guard_io (blen (take_bytes (MAX_RECORD_BYTES + 1) (content f)) <=? MAX_RECORD_BYTES) InvalidData;
      lift (ok_or (from_slice (take_bytes (MAX_RECORD_BYTES + 1) (content f))) InvalidData)
  end.

(** [publish]; the temporary file is created, written and synchronised before
    it is linked, and the directory is opened and synchronised after. *)
Definition publish {A} `{Json A} (d name : string) (v : A) : IO unit :=
  let b := to_vec v in
  _ ← guard_io (blen b <=? MAX_RECORD_BYTES) InvalidData;
  _ ← open_dir d; _ ← sys; _ ← sys;
  _ ← persist_noclobber d name b;
  _ ← open_dir d; sys.

(** ** Creation and binding *)

Definition create (p : hash) : IO ParentJournal :=
  let d := parent_directory p in
  _ ← sys;
  _ ← create_dir d;
  _ ← sys;
  _ ← publish d "parent.json" (mkParentRecord 1 p RECOVERY);
  mret (mkJournal d p 0).

Definition bind_owner (j : ParentJournal) (principal : string) : IO unit :=
  _ ← guard_io (valid_principal principal) InvalidData;
  publish (directory j) "owner.json" (mkOwnerRecord 1 (j_parent j) principal).

Definition bind_process (j : ParentJournal) (p : Proc) : IO unit :=
  '(boot, ns) ← lift (process_context p);
  uid ← lift (self_uid p);
  ticks ← lift (process_start p (self_pid p));
  publish (directory j) "process.json"
    (mkProcessRecord 1 (j_parent j) boot ns uid (self_pid p) ticks).

Definition never_created (p : hash) (principal : string) : Value :=
  VObject [("neverCreated", VBool true); ("parent", VString p);
           ("principal", VString principal); ("version", vnum 1)].

Definition fence_uncreated (p : hash) (principal : string) : IO bool :=
  _ ← guard_io (valid_principal principal) InvalidData;
  _ ← sys;
  let d := parent_directory p in
  r ← catch (create_dir d);
  match r with
  | Ok _ =>
      _ ← publish d "never-created.json" (never_created p principal);
      _ ← sys;
      mret true
  | Err AlreadyExists =>
      _ ← sys; fs ← get_fs;
      match nodes fs !! d with
      | Some (IsDir dir) =>
          o ← catch sys;
          match o, files dir !! "never-created.json" with
          | Ok _, Some f =>
              _ ← sys;
              let b := take_bytes 16385 (content f) in
              if 16384 <? blen b then mret false
              else match from_slice b with
                   | Some v => mret (bool_decide (v = never_created p principal))
                   | None => fail InvalidData
                   end
          | _, _ => mret false
          end
      | Some NotDir => mret false
      | None => fail NotFound
      end
  | Err e => fail e
  end.

(** ** Turns *)

Definition reserve (j : ParentJournal) (t : ReservedTurn) (fs : FS) :
    result ErrorKind unit * ParentJournal * FS :=
  let request := to_vec (rt_request t) in
  if (1024 <=? reservations j)
     || negb (String.eqb (rt_parent t) (j_parent j))
     || is_err (decode request)
     || negb (String.eqb (rt_child t) (child_identity (rt_parent t) (turn_id (rt_request t))))
  then (Err InvalidData, j, fs)
  else
    let j := mkJournal (directory j) (j_parent j) (reservations j + 1) in
    let l := rt_limits t in
    let '(r, fs) :=
      publish (directory j) (filename (turn_id (rt_request t)) "reserved")
        (mkReservation 1 (rt_parent t) (rt_child t) (rt_request t)
           (memory_bytes l) (timeout l) (model_requests l) (output_tokens l)) fs in
    (r, j, fs).

Definition bad_reservation (j : ParentJournal) (turn : string) (r : Reservation) : bool :=
  negb (rs_version r =? 1) || negb (String.eqb (rs_parent r) (j_parent j))
  || negb (String.eqb (turn_id (rs_request r)) turn)
  || is_err (decode (to_vec (rs_request r)))
  || negb (String.eqb (rs_child r) (child_identity (j_parent j) turn)).

Definition reservation (j : ParentJournal) (turn : string) : IO Reservation :=
  r ← read_record (directory j) (filename turn "reserved");
  _ ← guard_io (negb (bad_reservation j turn r)) InvalidData;
  mret r.

Definition bad_destroyed (j : ParentJournal) (turn : string) (child : hash) (d : DestroyedRecord) : bool :=
  negb (ds_version d =? 1) || negb (String.eqb (ds_parent d) (j_parent j))
  || negb (String.eqb (ds_child d) child) || negb (String.eqb (ds_turn_id d) turn)
  || (MAX_ANSWER_BYTES <? str_len (ds_answer d)).

Definition destroyed (j : ParentJournal) (turn : string) (child : hash) : IO DestroyedRecord :=
  d ← read_record (directory j) (filename turn "destroyed");
  _ ← guard_io (negb (bad_destroyed j turn child d)) InvalidData;
  mret d.

Definition bad_committed (j : ParentJournal) (turn : string) (child : hash) (c : CommittedRecord) : bool :=
  negb (cm_version c =? 1) || negb (String.eqb (cm_parent c) (j_parent j))
  || negb (String.eqb (cm_child c) child) || negb (String.eqb (cm_turn_id c) turn).

Definition turn_status (j : ParentJournal) (turn : string) : IO TurnStatus :=
  r ← reservation j turn;
  c ← catch (read_record (A := CommittedRecord) (directory j) (filename turn "committed"));
  committed ←
    match c with
    | Ok c => _ ← guard_io (negb (bad_committed j turn (rs_child r) c)) InvalidData; mret true
    | Err NotFound => mret false
    | Err e => fail e
    end;
  d ← catch (destroyed j turn (rs_child r));
  match d with
  | Ok d => mret (if committed : bool then ParentCommitted d else ChildDestroyed d)
  | Err NotFound => if committed then fail NotFound else mret (Reserved r)
  | Err e => fail e
  end.

Definition child_destroyed (j : ParentJournal) (turn : string) (child : hash)
    (succeeded : bool) (answer : string) : IO unit :=
  r ← reservation j turn;
  _ ← guard_io (negb (negb (String.eqb (rs_child r) child) || (MAX_ANSWER_BYTES <? str_len answer)))
        InvalidData;
  publish (directory j) (filename turn "destroyed")
    (mkDestroyed 1 (j_parent j) child turn succeeded answer).

Definition parent_committed (j : ParentJournal) (turn : string) (child : hash) : IO unit :=
  r ← reservation j turn;
  _ ← guard_io (String.eqb (rs_child r) child) InvalidData;
  _ ← destroyed j turn child;
  publish (directory j) (filename turn "committed") (mkCommitted 1 (j_parent j) child turn).

(** ** Reading an old incarnation *)

Definition bad_identity_record (p : hash) (r : ParentRecord) : bool :=
  negb (pr_version r =? 1) || negb (String.eqb (pr_parent r) p)
  || negb (String.eqb (pr_recovery r) RECOVERY).

Definition open_historical (p : hash) : IO ParentJournal :=
  let j := mkJournal (parent_directory p) p 0 in
  r ← read_record (directory j) "parent.json";
  _ ← guard_io (negb (bad_identity_record p r)) InvalidData;
  mret j.

Definition inspect_turn (p : hash) (turn : string) : IO TurnStatus :=
  j ← open_historical p; turn_status j turn.

Definition historical_owner (p : hash) (principal : string) : IO bool :=
  let d := parent_directory p in
  r ← read_record d "parent.json";
  o ← read_record d "owner.json";
  _ ← guard_io (negb (bad_identity_record p r || negb (ow_version o =? 1)
                      || negb (String.eqb (ow_parent o) p) || negb (valid_principal (ow_principal o))))
        InvalidData;
  mret (String.eqb (ow_principal o) principal).

(** [kvm] is the feature that links the native backend. *)
Definition historical_teardown (kvm : bool) (proc : Proc) (p : hash) (principal : string) : IO bool :=
  o ← historical_owner p principal;
  if negb o then mret false else
  r ← read_record (parent_directory p) "process.json";
  '(boot, ns) ← lift (process_context proc);
  _ ← guard_io (negb (negb (pc_version r =? 1) || negb (String.eqb (pc_parent r) p)
                      || (pc_pid r =? 0) || (pc_start_ticks r =? 0)
                      || negb (String.eqb (pc_boot r) boot) || negb (pc_pid_namespace r =? ns)))
        InvalidData;
  uid ← lift (self_uid proc);
  _ ← guard_io (pc_uid r =? uid) InvalidData;
  match process_start proc (pc_pid r) with
  | Ok start => mret (negb (start =? pc_start_ticks r))
  | Err NotFound =>
      if kvm then
        if pc_pid r <=? 2 ^ 31 - 1 then mret (kill_esrch proc (pc_pid r)) else fail InvalidData
      else fail Unsupported
  | Err e => fail e
  end.

(** ** Listings *)

(** [iter.filter_map(f)] with a fallible [f], errors dropped. *)
Fixpoint filter_map_io {A B} (f : A -> IO (option B)) (l : list A) : IO (list B) :=
  match l with
  | [] => mret []
  | a :: l =>
      r ← catch (f a);
      bs ← filter_map_io f l;
      mret (match r with Ok (Some b) => b :: bs | _ => bs end)
  end.

(** [sort_by(|a, b| b.cmp(a))] on a time and a name. *)
Definition newer (a b : Z * string) : Prop :=
  b.1 < a.1 \/ (b.1 = a.1 /\ String.leb b.2 a.2 = true).
#[export] Instance newer_dec a b : Decision (newer a b).
Proof. unfold newer. apply _. Defined.

Definition stage_of (s : TurnStatus) : string * hash * option bool :=
  match s with
  | Reserved r => ("reserved", rs_child r, None)
  | ChildDestroyed d => ("child-destroyed", ds_child d, Some (ds_succeeded d))
  | ParentCommitted d => ("parent-committed", ds_child d, Some (ds_succeeded d))
  end.

Definition summarize_turn (j : ParentJournal) (e : Z * string) : IO (option TurnSummary) :=
  r ← read_record (directory j) e.2;
  let turn := turn_id (rs_request r) in
  if negb (String.eqb e.2 (filename turn "reserved")) then mret None else
  s ← turn_status j turn;
  let '(stage, child, succeeded) := stage_of s in
  mret (Some (mkTurnSummary turn stage child succeeded (rs_timeout_nanos r) e.1)).

(** The entries of a directory that look like reservations, newest first; an entry
    whose metadata cannot be read is left out. *)
Definition list_reserved (dir : Dir) : IO (list (Z * string)) :=
  l ← filter_map_io (fun nf => _ ← sys; mret (Some (modified_ms (f_mtime nf.2), nf.1)))
        (filter (fun nf => ends_with ".reserved.json" nf.1 = true) (map_to_list (files dir)));
  mret (merge_sort newer l).

Definition summarize_parent (p : hash) (max_turns : nat) : IO ParentSummary :=
  j ← open_historical p;
  dir ← open_dir (directory j);
  reserved ← list_reserved dir;
  turns ← filter_map_io (summarize_turn j) (take max_turns reserved);
  mret (mkParentSummary p (modified_ms (d_mtime dir)) turns (Z.of_nat (length reserved))).

Definition node_time (nd : string * Node) : option (Z * string) :=
  match nd.2 with IsDir d => Some (modified_ms (d_mtime d), nd.1) | NotDir => None end.

Definition list_one (max_turns : nat) (e : Z * string) : IO (option ParentSummary) :=
  r ← read_record e.2 "parent.json";
  if String.eqb (parent_directory (pr_parent r)) e.2
  then s ← catch (summarize_parent (pr_parent r) max_turns); mret (to_option s)
  else mret None.

Definition list_parents (max_parents max_turns : nat) : IO (list ParentSummary) :=
  fs ← get_fs;
  r ← catch sys;
  match r with
  | Err _ => mret []
  | Ok _ =>
      dirs ← filter_map_io (fun nd => _ ← sys; mret (node_time nd)) (map_to_list (nodes fs));
      l ← filter_map_io (list_one max_turns) (merge_sort newer dirs);
      mret (take max_parents l)
  end.

(** ** Reading records *)

(** What a record reads as when no system call fails. *)
Definition look {A} `{Json A} (n : gmap string Node) (d name : string) : result ErrorKind A :=
  b ← peek n d name;
  _ ← ensure (blen b <=? MAX_RECORD_BYTES) InvalidData;
  ok_or (from_slice b) InvalidData.

(** The answer of a fault-free run on the tree [n]. *)
Definition now {A} (m : IO A) (n : gmap string Node) : result ErrorKind A := (m (mkFS n 0 [])).1.

Lemma take_record b :
  (blen (take_bytes (MAX_RECORD_BYTES + 1) b) <=? MAX_RECORD_BYTES) = (blen b <=? MAX_RECORD_BYTES).
Proof.
  apply eq_iff_eq_true. rewrite !Z.leb_le. apply take_bytes_le. lia.
Qed.

Lemma read_record_pure {A} `{Json A} d name : pure_io (read_record (A := A) d name).
Proof. unfold read_record. pure_tac. Qed.

Lemma read_record_Ok {A} `{Json A} d name fs (r : A) fs' :
  read_record d name fs = (Ok r, fs') -> look (nodes fs) d name = Ok r.
Proof.
  unfold read_record. intros E. apply bind_Ok in E as (dir & fs1 & E1 & E).
  apply open_dir_Ok in E1 as [Hd _]. unfold look, peek. rewrite Hd.
  destruct (files dir !! name) as [f|]; [|done].
  apply bind_Ok in E as (u & fs2 & _ & E). apply bind_Ok in E as (u' & fs3 & E3 & E).
  injection E3 as E3 _. rewrite take_record in E3. cbn. rewrite E3. cbn.
  injection E as E _. apply ensure_Ok in E3. reflect.
  rewrite take_bytes_all in E by lia. by rewrite E.
Qed.

Lemma read_record_now {A} `{Json A} d name n c :
  read_record (A := A) d name (mkFS n c []) = (look n d name, mkFS n c []).
Proof.
  unfold read_record, look, peek, open_dir, sys, get_fs, fail, guard_io, lift, mbind, IO_bind,
    mret, IO_ret. cbn.
  destruct (n !! d) as [[dir|]|]; cbn; [|done..].
  destruct (files dir !! name) as [f|]; cbn; [|done].
  rewrite take_record. destruct (Z.leb_spec (blen (content f)) MAX_RECORD_BYTES); cbn; [|done].
  by rewrite take_bytes_all by lia.
Qed.

Lemma look_added {A} `{Json A} n n' d name (v : A) d' name' :
  added n n' d name (to_vec v) -> blen (to_vec v) <= MAX_RECORD_BYTES ->
  look n' d' name' = if decide (d' = d /\ name' = name) then Ok v else look n d' name'.
Proof.
  intros Ha Hl. unfold look. rewrite (peek_added _ _ _ _ _ _ _ Ha).
  destruct (decide _); [|done]. cbn. rewrite (proj2 (Z.leb_le _ _) Hl). cbn. by rewrite from_to.
Qed.

Lemma look_keeps {A} `{Json A} n n' d name :
  (forall b, peek n d name = Ok b -> peek n' d name = Ok b) ->
  forall r : A, look n d name = Ok r -> look n' d name = Ok r.
Proof.
  intros Hk r. unfold look. destruct (peek n d name) as [b|]; [|done]. by rewrite (Hk b).
Qed.

Lemma publish_effect {A} `{Json A} d name (v : A) fs :
  let '(r, fs') := publish d name v fs in
  (r <> Ok tt /\ nodes fs' = nodes fs) \/
  (blen (to_vec v) <= MAX_RECORD_BYTES /\ added (nodes fs) (nodes fs') d name (to_vec v)).
Proof.
  unfold publish, guard_io, lift, mbind, IO_bind.
  destruct (Z.leb_spec (blen (to_vec v)) MAX_RECORD_BYTES) as [Hl|Hl]; cbn; [|by left].
  pose proof (pure_open_dir d fs) as P1. destruct (open_dir d fs) as [[dir|e] fs1]; cbn in *; [|by left].
  pose proof (pure_sys fs1) as P2. destruct (sys fs1) as [[u|e] fs2]; cbn in *; [|left; by rewrite P2].
  pose proof (pure_sys fs2) as P3. destruct (sys fs2) as [[u'|e] fs3]; cbn in *; [|left; by rewrite P3, P2].
  pose proof (persist_effect d name (to_vec v) fs3) as P4.
  destruct (persist_noclobber d name (to_vec v) fs3) as [[u''|e] fs4]; cbn in *;
    rewrite P3, P2, P1 in P4; [|by left].
  pose proof (pure_open_dir d fs4) as P5. destruct (open_dir d fs4) as [[dir'|e] fs5]; cbn in *.
  - pose proof (pure_sys fs5) as P6. destruct (sys fs5) as [r fs6]. cbn in *. right. by rewrite P6, P5.
  - right. by rewrite P5.
Qed.

(** *** File names *)

Lemma hash_name_hex text : hash_name text = blake3_hex (as_bytes text).
Proof.
  unfold hash_name, trim_start_matches, hash_of. set (h := blake3_hex _).
  assert (Hh : is_hex64 h = true) by apply blake3_hex_wf.
  change (String.length ("blake3:" ++ h)%string) with (S (6 + String.length h)).
  cbn [trim_start_fuel]. rewrite strip_prefix_app. cbn [Nat.add trim_start_fuel].
  destruct (strip_prefix "blake3:" h) as [r|] eqn:E; [|done].
  apply strip_prefix_Some in E. rewrite E in Hh. unfold is_hex64 in Hh.
  apply andb_true_iff in Hh as [_ Hh]. by cbn in Hh.
Qed.

Lemma hash_name_length text : String.length (hash_name text) = 64%nat.
Proof.
  rewrite hash_name_hex. pose proof (blake3_hex_wf (as_bytes text)) as Hh.
  unfold is_hex64, str_len in Hh. reflect. lia.
Qed.

Lemma filename_stage t s t' s' :
  filename t s = filename t' s' -> (s ++ ".json")%string = (s' ++ ".json")%string.
Proof.
  unfold filename. intros E. apply string_app_inj in E as [_ E]; [|by rewrite !hash_name_length].
  by injection E.
Qed.

Lemma filename_stage_ne t s t' s' :
  (s ++ ".json")%string <> (s' ++ ".json")%string -> filename t s <> filename t' s'.
Proof. intros Hn E. by apply filename_stage in E. Qed.

Lemma filename_transport t t' s s' : filename t s = filename t' s -> filename t s' = filename t' s'.
Proof.
  unfold filename. intros E. apply string_app_inj in E as [E _]; [|by rewrite !hash_name_length].
  by rewrite E.
Qed.

Lemma filename_length t s : String.length (filename t s) = (70 + String.length s)%nat.
Proof.
  unfold filename. rewrite !string_app_length, hash_name_length. cbn. lia.
Qed.

(** ** What the readers answer *)

Definition reservation_at (n : gmap string Node) (j : ParentJournal) (turn : string) :
    result ErrorKind Reservation :=
  r ← look n (directory j) (filename turn "reserved");
  _ ← ensure (negb (bad_reservation j turn r)) InvalidData;
  Ok r.

Definition destroyed_at n (j : ParentJournal) (turn : string) (child : hash) :
    result ErrorKind DestroyedRecord :=
  d ← look n (directory j) (filename turn "destroyed");
  _ ← ensure (negb (bad_destroyed j turn child d)) InvalidData;
  Ok d.

(** Whether the turn is committed. *)
Definition committed_at n (j : ParentJournal) (turn : string) (child : hash) : result ErrorKind bool :=
  match look n (directory j) (filename turn "committed") with
  | Ok c => _ ← ensure (negb (bad_committed j turn child c)) InvalidData; Ok true
  | Err NotFound => Ok false
  | Err e => Err e
  end.

Definition status_at n (j : ParentJournal) (turn : string) : result ErrorKind TurnStatus :=
  r ← reservation_at n j turn;
  c ← committed_at n j turn (rs_child r);
  match destroyed_at n j turn (rs_child r) with
  | Ok d => Ok (if c : bool then ParentCommitted d else ChildDestroyed d)
  | Err NotFound => if c then Err NotFound else Ok (Reserved r)
  | Err e => Err e
  end.

Lemma reservation_pure j turn : pure_io (reservation j turn).
Proof. unfold reservation. apply pure_bind; [apply read_record_pure|intro; pure_tac]. Qed.

Lemma destroyed_pure j turn child : pure_io (destroyed j turn child).
Proof. unfold destroyed. apply pure_bind; [apply read_record_pure|intro; pure_tac]. Qed.

Lemma reservation_now n c j turn :
  reservation j turn (mkFS n c []) = (reservation_at n j turn, mkFS n c []).
Proof.
  unfold reservation, reservation_at, mbind, IO_bind. rewrite read_record_now.
  destruct (look n _ _) as [r|e]; cbn; [|done]. by destruct (bad_reservation j turn r).
Qed.

Lemma destroyed_now n c j turn child :
  destroyed j turn child (mkFS n c []) = (destroyed_at n j turn child, mkFS n c []).
Proof.
  unfold destroyed, destroyed_at, mbind, IO_bind. rewrite read_record_now.
  destruct (look n _ _) as [r|e]; cbn; [|done]. by destruct (bad_destroyed j turn child r).
Qed.

Lemma turn_status_now n c j turn :
  turn_status j turn (mkFS n c []) = (status_at n j turn, mkFS n c []).
Proof.
  unfold turn_status, status_at, committed_at, catch, mbind, IO_bind. rewrite reservation_now.
  destruct (reservation_at n j turn) as [r|e]; cbn; [|done]. rewrite read_record_now.
  destruct (look n _ _) as [cm|[]]; cbn; try done.
  - destruct (bad_committed j turn (rs_child r) cm); cbn; [done|]. rewrite destroyed_now.
    by destruct (destroyed_at n j turn (rs_child r)) as [d|[]].
  - rewrite destroyed_now. by destruct (destroyed_at n j turn (rs_child r)) as [d|[]].
Qed.

(** A success is the fault-free answer. *)
Lemma reservation_Ok j turn fs r fs' :
  reservation j turn fs = (Ok r, fs') -> reservation_at (nodes fs) j turn = Ok r.
Proof.
  intros E. apply bind_Ok in E as (r' & fs1 & E1 & E). apply read_record_Ok in E1.
  apply bind_Ok in E as (u & fs2 & E2 & E). injection E2 as E2 _. injection E as <- _.
  unfold reservation_at. rewrite E1. cbn. by rewrite E2.
Qed.

Lemma destroyed_Ok j turn child fs d fs' :
  destroyed j turn child fs = (Ok d, fs') -> destroyed_at (nodes fs) j turn child = Ok d.
Proof.
  intros E. apply bind_Ok in E as (r' & fs1 & E1 & E). apply read_record_Ok in E1.
  apply bind_Ok in E as (u & fs2 & E2 & E). injection E2 as E2 _. injection E as <- _.
  unfold destroyed_at. rewrite E1. cbn. by rewrite E2.
Qed.

Lemma reservation_at_Ok n j turn r :
  reservation_at n j turn = Ok r <->
    look n (directory j) (filename turn "reserved") = Ok r /\ bad_reservation j turn r = false.
Proof.
  unfold reservation_at. destruct (look (A := Reservation) n (directory j) (filename turn "reserved")) as [r'|]; cbn; [|split; [done|by intros [? _]]].
  destruct (bad_reservation j turn r') eqn:E; cbn.
  - split; [done|]. intros [[= <-] E']. congruence.
  - split; [intros [= <-]; done|by intros [? _]].
Qed.

Lemma destroyed_at_Ok n j turn child d :
  destroyed_at n j turn child = Ok d <->
    look n (directory j) (filename turn "destroyed") = Ok d /\ bad_destroyed j turn child d = false.
Proof.
  unfold destroyed_at. destruct (look (A := DestroyedRecord) n (directory j) (filename turn "destroyed")) as [r'|]; cbn; [|split; [done|by intros [? _]]].
  destruct (bad_destroyed j turn child r') eqn:E; cbn.
  - split; [done|]. intros [[= <-] E']. congruence.
  - split; [intros [= <-]; done|by intros [? _]].
Qed.

(** ** The effect of each operation on the tree *)

(** Nothing, or one record linked under a free name. *)
Definition links (n n' : gmap string Node) (P : string -> string -> bytes -> Prop) : Prop :=
  n' = n \/ exists d name b, P d name b /\ added n n' d name b.

Lemma publish_links {A} `{Json A} d name (v : A) fs :
  links (nodes fs) (nodes (publish d name v fs).2)
    (fun d' name' b => d' = d /\ name' = name /\ b = to_vec v /\ blen b <= MAX_RECORD_BYTES).
Proof.
  pose proof (publish_effect d name v fs) as E. destruct (publish d name v fs) as [r fs'].
  destruct E as [[_ E]|[Hl E]]; [by left|]. right. eauto 10.
Qed.

Lemma links_weaken n n' (P Q : string -> string -> bytes -> Prop) :
  (forall d name b, P d name b -> Q d name b) -> links n n' P -> links n n' Q.
Proof. intros HPQ [->|(d & name & b & HP & Ha)]; [by left|right; eauto 10]. Qed.

(** A pure computation before a publication. *)
Lemma links_bind {A} (m : IO A) (f : A -> IO unit) fs P :
  pure_io m ->
  (forall a fs1, m fs = (Ok a, fs1) -> links (nodes fs) (nodes (f a fs1).2) P) ->
  links (nodes fs) (nodes ((m ≫= f) fs).2) P.
Proof.
  intros Hm Hf. unfold mbind, IO_bind. specialize (Hm fs).
  destruct (m fs) as [[a|e] fs1]; cbn in *; [by apply Hf|by left].
Qed.

(** What one operation may link. *)
Inductive op : Type :=
| OCreate (p : hash)
| OBindOwner (j : ParentJournal) (principal : string)
| OBindProcess (j : ParentJournal) (p : Proc)
| OFence (p : hash) (principal : string)
| OReserve (j : ParentJournal) (t : ReservedTurn)
| OChildDestroyed (j : ParentJournal) (turn : string) (child : hash) (ok : bool) (answer : string)
| OParentCommitted (j : ParentJournal) (turn : string) (child : hash)
| OEnvironment (t : Z) (f : list bool).

(** Any number of processes run operations one after another; between them time
    passes and new system calls are doomed. *)
Definition step (fs : FS) (o : op) : FS :=
  match o with
  | OCreate p => (create p fs).2
  | OBindOwner j pr => (bind_owner j pr fs).2
  | OBindProcess j p => (bind_process j p fs).2
  | OFence p pr => (fence_uncreated p pr fs).2
  | OReserve j t => (reserve j t fs).2
  | OChildDestroyed j t c s a => (child_destroyed j t c s a fs).2
  | OParentCommitted j t c => (parent_committed j t c fs).2
  | OEnvironment t f => mkFS (nodes fs) t f
  end.
Definition run (fs : FS) (ops : list op) : FS := foldl step fs ops.

(** Which record an operation may link, given the tree it runs on. *)
Definition may_link (n : gmap string Node) (o : op) (d name : string) (b : bytes) : Prop :=
  match o with
  | OCreate p => d = parent_directory p /\ n !! d = None /\ name = "parent.json" /\
      b = to_vec (mkParentRecord 1 p RECOVERY)
  | OBindOwner j pr => d = directory j /\ name = "owner.json" /\
      b = to_vec (mkOwnerRecord 1 (j_parent j) pr) /\ valid_principal pr = true
  | OBindProcess j p => d = directory j /\ name = "process.json" /\
      exists boot ns uid ticks, process_context p = Ok (boot, ns) /\ self_uid p = Ok uid /\
        process_start p (self_pid p) = Ok ticks /\
        b = to_vec (mkProcessRecord 1 (j_parent j) boot ns uid (self_pid p) ticks)
  | OFence p pr => d = parent_directory p /\ n !! d = None /\ name = "never-created.json" /\
      b = to_vec (never_created p pr)
  | OReserve j t => d = directory j /\ name = filename (turn_id (rt_request t)) "reserved" /\
      reservations j < 1024 /\ rt_parent t = j_parent j /\ is_ok (decode (to_vec (rt_request t))) = true /\
      rt_child t = child_identity (rt_parent t) (turn_id (rt_request t)) /\
      b = to_vec (mkReservation 1 (rt_parent t) (rt_child t) (rt_request t)
            (memory_bytes (rt_limits t)) (timeout (rt_limits t))
            (model_requests (rt_limits t)) (output_tokens (rt_limits t)))
  | OChildDestroyed j turn child ok answer => d = directory j /\ name = filename turn "destroyed" /\
      (exists r, reservation_at n j turn = Ok r /\ rs_child r = child) /\ str_len answer <= MAX_ANSWER_BYTES /\
      b = to_vec (mkDestroyed 1 (j_parent j) child turn ok answer)
  | OParentCommitted j turn child => d = directory j /\ name = filename turn "committed" /\
      (exists r dr, reservation_at n j turn = Ok r /\ rs_child r = child /\
         destroyed_at n j turn child = Ok dr) /\
      b = to_vec (mkCommitted 1 (j_parent j) child turn)
  | OEnvironment _ _ => False
  end.

(** An operation leaves the tree alone, makes one directory, links one record in
    an existing directory, or makes a directory and links one record in it; the
    record has a size within bounds. *)
Definition effect (n n' : gmap string Node) (o : op) : Prop :=
  let P d name b := may_link n o d name b /\ blen b <= MAX_RECORD_BYTES in
  links n n' P \/
  exists p n1, (o = OCreate p \/ exists pr, o = OFence p pr) /\
    made n n1 (parent_directory p) /\ links n1 n' P.

Lemma bind_effect {A} `{Json A} (j : ParentJournal) o name (v : A) fs n :
  (may_link n o (directory j) name (to_vec v)) ->
  links (nodes fs) (nodes (publish (directory j) name v fs).2)
    (fun d name b => may_link n o d name b /\ blen b <= MAX_RECORD_BYTES).
Proof.
  intros Hm. eapply links_weaken; [|apply publish_links].
  intros d' name' b (-> & -> & -> & Hl). done.
Qed.

Lemma catch_pair {A} (m : IO A) fs : catch m fs = (Ok (m fs).1, (m fs).2).
Proof. unfold catch. by destruct (m fs). Qed.

Lemma create_effect fs p : effect (nodes fs) (nodes (create p fs).2) (OCreate p).
Proof.
  unfold create, mbind, IO_bind, effect. pose proof (pure_sys fs) as P1.
  destruct (sys fs) as [[u|e] fs1]; cbn in *; [|by left; left].
  pose proof (create_dir_effect (parent_directory p) fs1) as P2.
  destruct (create_dir (parent_directory p) fs1) as [[u'|e] fs2]; cbn in *; [|left; left; by rewrite P2].
  pose proof (pure_sys fs2) as P3. rewrite P1 in P2. right. exists p.
  assert (Hd : nodes fs !! parent_directory p = None) by (by destruct P2 as (t & ? & _)).
  destruct (sys fs2) as [[u''|e] fs3]; cbn in *.
  - exists (nodes fs3). rewrite P3. split_and!; [by left|done|]. rewrite <- P3.
    pose proof (publish_links (parent_directory p) "parent.json" (mkParentRecord 1 p RECOVERY) fs3) as P4.
    destruct (publish _ _ _ fs3) as [[u3|e] fs4]; cbn in *;
      (eapply links_weaken; [|exact P4]); intros d name b (-> & -> & -> & Hl); done.
  - exists (nodes fs3). rewrite P3. split_and!; [by left|done|by left].
Qed.

Lemma fence_effect fs p pr : effect (nodes fs) (nodes (fence_uncreated p pr fs).2) (OFence p pr).
Proof.
  unfold fence_uncreated, guard_io, lift, mbind, IO_bind, effect.
  destruct (valid_principal pr); cbn; [|by left; left].
  pose proof (pure_sys fs) as P1. destruct (sys fs) as [[u|e] fs1]; cbn in *; [|by left; left].
  rewrite catch_pair. pose proof (create_dir_effect (parent_directory p) fs1) as P2.
  destruct (create_dir (parent_directory p) fs1) as [[u'|e] fs2]; cbn in *; rewrite P1 in P2.
  - right. exists p, (nodes fs2). split_and!; [right; by exists pr|done|].
    assert (Hd : nodes fs !! parent_directory p = None) by (by destruct P2 as (t & ? & _)).
    pose proof (publish_links (parent_directory p) "never-created.json" (never_created p pr) fs2) as P3.
    destruct (publish _ _ _ fs2) as [[u3|e] fs3]; cbn in *.
    + pose proof (pure_sys fs3) as P4. destruct (sys fs3) as [[]]; cbn in *; rewrite P4;
        (eapply links_weaken; [|exact P3]); intros d name b (-> & -> & -> & Hl); done.
    + eapply links_weaken; [|exact P3]. intros d name b (-> & -> & -> & Hl). done.
  - left. left. rewrite <- P2. destruct e; try done. cbn.
    pose proof (pure_sys fs2) as P3. destruct (sys fs2) as [[u3|e] fs3]; cbn in *; [|done].
    destruct (nodes fs3 !! parent_directory p) as [[dir|]|]; cbn; try done.
    rewrite catch_pair. pose proof (pure_sys fs3) as P4. destruct (sys fs3) as [[u4|e] fs4]; cbn in *;
      [|congruence]. destruct (files dir !! _) as [f|]; cbn; [|congruence].
    pose proof (pure_sys fs4) as P5. destruct (sys fs4) as [[u5|e] fs5]; cbn in *; [|congruence].
    destruct (_ <? _); cbn; [congruence|]. destruct (from_slice _); cbn; congruence.
Qed.

Lemma step_effect fs o : effect (nodes fs) (nodes (step fs o)) o.
Proof.
  destruct o as [p|j pr|j p|p pr|j t|j turn child ok a|j turn child|t f]; cbn [step].
  - apply create_effect.
  - left. apply links_bind; [apply pure_guard|]. intros u fs1 E. injection E as E <-.
    apply ensure_Ok in E. by apply bind_effect.
  - left. apply links_bind; [apply pure_lift|]. intros [boot ns] fs1 [= E1 <-].
    apply links_bind; [apply pure_lift|]. intros uid fs1 [= E2 <-].
    apply links_bind; [apply pure_lift|]. intros ticks fs1 [= E3 <-].
    apply bind_effect. cbn. eauto 12.
  - apply fence_effect.
  - left. unfold reserve. destruct (_ || _ || _ || _) eqn:Eg; [by left|]. reflect.
    destruct Eg as [[[Hr Hp] Hd] Hc].
    destruct (publish _ _ _ fs) as [r fs'] eqn:Ep. cbn.
    change fs' with ((r, fs').2). rewrite <- Ep.
    eapply links_weaken; [|apply publish_links]. intros d name b (-> & -> & -> & Hl).
    split; [|done]. cbn. split_and!; try done.
    unfold is_err in Hd. by apply negb_false_iff in Hd.
  - left. apply links_bind; [apply reservation_pure|]. intros r fs1 E.
    pose proof (reservation_pure j turn fs) as Hp. rewrite E in Hp. cbn in Hp. rewrite <- Hp.
    apply reservation_Ok in E. rewrite <- Hp in E.
    apply links_bind; [apply pure_guard|]. intros u fs2 [= E2 <-]. apply ensure_Ok in E2. reflect.
    destruct E2 as [E2 E3]. apply bind_effect. cbn. eauto 10.
  - left. apply links_bind; [apply reservation_pure|]. intros r fs1 E.
    pose proof (reservation_pure j turn fs) as Hp. rewrite E in Hp. cbn in Hp. rewrite <- Hp.
    apply reservation_Ok in E. rewrite <- Hp in E.
    apply links_bind; [apply pure_guard|]. intros u fs2 [= E2 <-]. apply ensure_Ok in E2. reflect.
    apply links_bind; [apply destroyed_pure|]. intros dr fs3 E3.
    pose proof (destroyed_pure j turn child fs1) as Hp3. rewrite E3 in Hp3. cbn in Hp3. rewrite <- Hp3.
    apply destroyed_Ok in E3. rewrite <- Hp3 in E3.
    apply bind_effect. cbn. split_and!; try done. exists r, dr. by rewrite Hp3 in *.
  - left. by left.
Qed.

(** A record that is there stays there; a record that was not there before has
    been linked by the operation. *)
Lemma links_keep n n' P d name b : links n n' P -> peek n d name = Ok b -> peek n' d name = Ok b.
Proof.
  intros [->|(d' & name' & b' & _ & Ha)] Hb; [done|].
  rewrite (peek_added _ _ _ _ _ _ _ Ha). destruct (decide _) as [[-> ->]|]; [|done].
  rewrite (peek_added_old _ _ _ _ _ Ha) in Hb. done.
Qed.

Lemma effect_keeps n n' o d name b : effect n n' o -> peek n d name = Ok b -> peek n' d name = Ok b.
Proof.
  intros [E|(p & n1 & _ & Hm & E)] Hb; eapply links_keep; try done.
  by rewrite (peek_made _ _ _ _ _ Hm).
Qed.

Lemma links_new n n' P d name :
  links n n' P -> peek n' d name = peek n d name \/ exists b, P d name b /\ peek n' d name = Ok b.
Proof.
  intros [->|(d' & name' & b' & HP & Ha)]; [by left|].
  rewrite (peek_added _ _ _ _ _ _ _ Ha). destruct (decide _) as [[-> ->]|]; [|by left]. eauto.
Qed.

Lemma effect_new n n' o d name :
  effect n n' o ->
  peek n' d name = peek n d name \/
  exists b, may_link n o d name b /\ blen b <= MAX_RECORD_BYTES /\ peek n' d name = Ok b.
Proof.
  intros [E|(p & n1 & _ & Hm & E)]; apply links_new with (d := d) (name := name) in E as [E|(b & [] & E)];
    eauto 6.
  left. by rewrite E, (peek_made _ _ _ _ _ Hm).
Qed.

Lemma look_same {A} `{Json A} n n' d name : peek n' d name = peek n d name -> look (A := A) n' d name = look n d name.
Proof. intros E. unfold look. by rewrite E. Qed.

Lemma look_new {A} `{Json A} n' d name (v : A) :
  peek n' d name = Ok (to_vec v) -> blen (to_vec v) <= MAX_RECORD_BYTES -> look n' d name = Ok v.
Proof.
  intros E Hl. unfold look. rewrite E. cbn. rewrite (proj2 (Z.leb_le _ _) Hl). cbn. by rewrite from_to.
Qed.

Lemma look_NotFound {A} `{Json A} n d name :
  look (A := A) n d name = Err NotFound <-> peek n d name = Err NotFound.
Proof.
  unfold look. destruct (peek n d name) as [b|e]; cbn; [|split; by intros [= ->]].
  split; [|done]. destruct (_ <=? _); cbn; [|done]. by destruct (from_slice b).
Qed.

Lemma effect_look {A} `{Json A} n n' o d name (r : A) :
  effect n n' o -> look n d name = Ok r -> look n' d name = Ok r.
Proof. intros He. apply look_keeps. intros b. by eapply effect_keeps. Qed.

(** No record that is not a turn's has a turn's name. *)
Lemma filename_fixed t s name :
  name ∈ ["parent.json"; "owner.json"; "process.json"; "never-created.json"] -> filename t s <> name.
Proof.
  intros Hin E. apply (f_equal String.length) in E. rewrite filename_length in E.
  repeat (apply elem_of_cons in Hin as [->|Hin]; [cbn in E; lia|]). by apply elem_of_nil in Hin.
Qed.

Lemma good_reservation j turn r :
  bad_reservation j turn r = false ->
  rs_version r = 1 /\ rs_parent r = j_parent j /\ turn_id (rs_request r) = turn /\
  is_ok (decode (to_vec (rs_request r))) = true /\ rs_child r = child_identity (j_parent j) turn.
Proof.
  unfold bad_reservation, is_err. intros E. reflect. tauto.
Qed.

(** What an operation may link as a stage of a turn that is reserved. *)
Lemma may_link_destroyed n o j turn r b :
  reservation_at n j turn = Ok r -> may_link n o (directory j) (filename turn "destroyed") b ->
  exists ok answer, str_len answer <= MAX_ANSWER_BYTES /\
    b = to_vec (mkDestroyed 1 (j_parent j) (rs_child r) turn ok answer).
Proof.
  intros Hr. apply reservation_at_Ok in Hr as [Hr Hb]. apply good_reservation in Hb as (_ & Hp & Ht & _ & Hc).
  destruct o as [p|j' pr|j' p|p pr|j' t|j' turn' child ok a|j' turn' child|t f]; cbn.
  - intros (_ & _ & E & _). by apply filename_fixed in E; [|set_solver].
  - intros (_ & E & _). by apply filename_fixed in E; [|set_solver].
  - intros (_ & E & _). by apply filename_fixed in E; [|set_solver].
  - intros (_ & _ & E & _). by apply filename_fixed in E; [|set_solver].
  - intros (_ & E & _). by apply filename_stage in E.
  - intros (Hd & E & (r' & Hr' & <-) & Ha & ->). exists ok, a. split; [done|].
    apply reservation_at_Ok in Hr' as [Hr' Hb']. apply good_reservation in Hb' as (_ & Hp' & Ht' & _).
    rewrite <- Hd, <- (filename_transport _ _ _ "reserved" E) in Hr'.
    assert (r' = r) as -> by congruence. congruence.
  - intros (_ & E & _). by apply filename_stage in E.
  - done.
Qed.

Lemma may_link_committed n o j turn r b :
  reservation_at n j turn = Ok r -> may_link n o (directory j) (filename turn "committed") b ->
  (exists d, destroyed_at n j turn (rs_child r) = Ok d) /\
  b = to_vec (mkCommitted 1 (j_parent j) (rs_child r) turn).
Proof.
  intros Hr. apply reservation_at_Ok in Hr as [Hr Hb]. apply good_reservation in Hb as (_ & Hp & Ht & _ & Hc).
  destruct o as [p|j' pr|j' p|p pr|j' t|j' turn' child ok a|j' turn' child|t f]; cbn.
  - intros (_ & _ & E & _). by apply filename_fixed in E; [|set_solver].
  - intros (_ & E & _). by apply filename_fixed in E; [|set_solver].
  - intros (_ & E & _). by apply filename_fixed in E; [|set_solver].
  - intros (_ & _ & E & _). by apply filename_fixed in E; [|set_solver].
  - intros (_ & E & _). by apply filename_stage in E.
  - intros (_ & E & _). by apply filename_stage in E.
  - intros (Hd & E & (r' & dr & Hr' & <- & Hdr) & ->).
    apply reservation_at_Ok in Hr' as [Hr' Hb']. apply good_reservation in Hb' as (_ & Hp' & Ht' & _).
    rewrite <- Hd, <- (filename_transport _ _ _ "reserved" E) in Hr'.
    assert (r' = r) as -> by congruence. assert (turn' = turn) as -> by congruence.
    assert (Hpp : j_parent j' = j_parent j) by congruence.
    split; [|by rewrite Hpp]. exists dr. apply destroyed_at_Ok in Hdr as [Hdr Hbd].
    apply destroyed_at_Ok. unfold bad_destroyed in *. rewrite Hd. by rewrite <- Hpp.
  - done.
Qed.

(** ** The stages of a turn *)

(** From one observation of a turn to a later one. *)
Definition stage_le (s s' : TurnStatus) : Prop :=
  match s, s' with
  | Reserved r, Reserved r' => r' = r
  | Reserved r, (ChildDestroyed d | ParentCommitted d) => ds_child d = rs_child r
  | ChildDestroyed d, (ChildDestroyed d' | ParentCommitted d') => d' = d
  | ParentCommitted d, ParentCommitted d' => d' = d
  | _, _ => False
  end.

Lemma stage_le_refl s : stage_le s s.
Proof. by destruct s. Qed.

Lemma stage_le_trans s1 s2 s3 : stage_le s1 s2 -> stage_le s2 s3 -> stage_le s1 s3.
Proof. destruct s1, s2, s3; cbn; congruence || tauto. Qed.

Lemma destroyed_child n j turn child d : destroyed_at n j turn child = Ok d -> ds_child d = child.
Proof.
  intros E. apply destroyed_at_Ok in E as [_ E]. unfold bad_destroyed in E. reflect. tauto.
Qed.

Lemma committed_at_cases n j turn child c :
  committed_at n j turn child = Ok c <->
  if c then exists cm, look n (directory j) (filename turn "committed") = Ok cm /\
                       bad_committed j turn child cm = false
  else peek n (directory j) (filename turn "committed") = Err NotFound.
Proof.
  pose proof (look_NotFound (A := CommittedRecord) n (directory j) (filename turn "committed")) as HN.
  unfold committed_at. destruct (look (A := CommittedRecord) _ _ _) as [cm|e]; cbn.
  - destruct (bad_committed j turn child cm) eqn:E; cbn; destruct c; split; intros Hx; try done.
    + destruct Hx as (cm' & [= <-] & ?). congruence.
    + by apply HN in Hx.
    + by exists cm.
    + by apply HN in Hx.
  - destruct c; [split; [by destruct e|by intros (? & ? & _)]|].
    rewrite <- HN. destruct e; split; intros; congruence.
Qed.

Lemma destroyed_NotFound n j turn child :
  destroyed_at n j turn child = Err NotFound <->
  peek n (directory j) (filename turn "destroyed") = Err NotFound.
Proof.
  rewrite <- (look_NotFound (A := DestroyedRecord)). unfold destroyed_at.
  destruct (look (A := DestroyedRecord) _ _ _) as [d|e]; cbn; [|split; congruence].
  split; [|done]. by destruct (bad_destroyed j turn child d).
Qed.

Lemma status_step n n' o j turn s :
  effect n n' o -> status_at n j turn = Ok s ->
  exists s', status_at n' j turn = Ok s' /\ stage_le s s'.
Proof.
  intros He Hs. unfold status_at in Hs. apply result_bind_Ok in Hs as (r & Hr & Hs).
  apply result_bind_Ok in Hs as (c & Hc & Hs).
  assert (Hr' : reservation_at n' j turn = Ok r).
  { apply reservation_at_Ok in Hr as [Hl Hb]. apply reservation_at_Ok. split; [|done]. by eapply effect_look. }
  (* the destroyed record *)
  assert (Hd' : (exists d, destroyed_at n j turn (rs_child r) = Ok d /\ destroyed_at n' j turn (rs_child r) = Ok d) \/
    (destroyed_at n j turn (rs_child r) = Err NotFound /\
      (destroyed_at n' j turn (rs_child r) = Err NotFound \/
       exists d, destroyed_at n' j turn (rs_child r) = Ok d))).
  { destruct (destroyed_at n j turn (rs_child r)) as [d|e] eqn:Ed.
    - left. exists d. split; [done|]. apply destroyed_at_Ok in Ed as [Hl Hb]. apply destroyed_at_Ok.
      split; [|done]. by eapply effect_look.
    - right. destruct e; try (by destruct c). split; [done|]. apply destroyed_NotFound in Ed.
      destruct (effect_new _ _ _ (directory j) (filename turn "destroyed") He) as [E|(b & Hm & Hl & E)].
      + left. apply destroyed_NotFound. congruence.
      + right. destruct (may_link_destroyed _ _ _ _ _ _ Hr Hm) as (ok & a & Ha & ->).
        eexists. apply destroyed_at_Ok. split; [by apply look_new|].
        unfold bad_destroyed. cbn. rewrite !String.eqb_refl. cbn. by apply Z.ltb_ge. }
  (* the committed record *)
  assert (Hc' : committed_at n' j turn (rs_child r) = Ok c \/
    (c = false /\ committed_at n' j turn (rs_child r) = Ok true /\
     exists d, destroyed_at n j turn (rs_child r) = Ok d)).
  { destruct c.
    - left. apply committed_at_cases in Hc as (cm & Hl & Hb). apply committed_at_cases.
      exists cm. split; [|done]. by eapply effect_look.
    - apply committed_at_cases in Hc.
      destruct (effect_new _ _ _ (directory j) (filename turn "committed") He) as [E|(b & Hm & Hl & E)].
      + left. apply committed_at_cases. congruence.
      + right. destruct (may_link_committed _ _ _ _ _ _ Hr Hm) as (Hd & ->).
        split_and!; [done| |done]. apply committed_at_cases. eexists.
        split; [by apply look_new|]. unfold bad_committed. cbn. by rewrite !String.eqb_refl. }
  unfold status_at. rewrite Hr'. cbn.
  destruct Hd' as [(d & E1 & E2)|[E1 [E2|(d & E2)]]]; rewrite E1 in Hs; rewrite E2;
    destruct Hc' as [->|(-> & -> & dd & Hdd)]; cbn; try congruence.
  - exists s. split; [exact Hs|apply stage_le_refl].
  - injection Hs as <-. eexists. split; [done|done].
  - exists s. split; [exact Hs|apply stage_le_refl].
  - destruct c; [done|]. injection Hs as <-. eexists. split; [done|]. by apply destroyed_child in E2.
Qed.

(** A turn only moves forward through its stages, and its records never
    change. Whatever the root holds, and whatever operations of whatever
    processes follow, failing at any system call: a turn that reads as reserved
    later reads as the same reservation, or as destroyed with the child of that
    reservation, or as committed; a destroyed record stays the same record when
    the parent commits; and a committed turn stays what it is. *)
Theorem journal_forward (fs : FS) (ops : list op) (j : ParentJournal) (turn : string) (s : TurnStatus) :
  now (turn_status j turn) (nodes fs) = Ok s ->
  exists s', now (turn_status j turn) (nodes (run fs ops)) = Ok s' /\ stage_le s s'.
Proof.
  unfold now. rewrite !turn_status_now. cbn. intros Hs.
  apply (foldl_inv (fun fs' => exists s', status_at (nodes fs') j turn = Ok s' /\ stage_le s s')).
  - intros fs' o _ (s1 & E1 & Hle).
    destruct (status_step _ _ _ _ _ _ (step_effect fs' o) E1) as (s2 & E2 & Hle2).
    exists s2. split; [done|]. by eapply stage_le_trans.
  - exists s. split; [done|apply stage_le_refl].
Qed.

(** What a successful observation guarantees, whatever is stored. *)
Definition consistent (j : ParentJournal) (turn : string) (s : TurnStatus) : Prop :=
  match s with
  | Reserved r =>
      rs_version r = 1 /\ rs_parent r = j_parent j /\ turn_id (rs_request r) = turn /\
      is_ok (decode (to_vec (rs_request r))) = true /\ rs_child r = child_identity (j_parent j) turn
  | ChildDestroyed d | ParentCommitted d =>
      ds_version d = 1 /\ ds_parent d = j_parent j /\ ds_turn_id d = turn /\
      ds_child d = child_identity (j_parent j) turn /\ str_len (ds_answer d) <= MAX_ANSWER_BYTES
  end.

Lemma read_committed j turn fs :
  let '(r, fs') := catch (read_record (A := CommittedRecord) (directory j) (filename turn "committed")) fs in
  nodes fs' = nodes fs /\ exists c, r = Ok c.
Proof.
  rewrite catch_pair. split; [apply read_record_pure|eauto].
Qed.

Lemma turn_status_sound (fs fs' : FS) (j : ParentJournal) (turn : string) (s : TurnStatus) :
  turn_status j turn fs = (Ok s, fs') ->
  consistent j turn s /\ nodes fs' = nodes fs /\
  (exists r, look (nodes fs) (directory j) (filename turn "reserved") = Ok r /\
     consistent j turn (Reserved r)) /\
  forall d, s = ChildDestroyed d \/ s = ParentCommitted d ->
    look (nodes fs) (directory j) (filename turn "destroyed") = Ok d.
Proof.
  intros E. unfold turn_status in E. apply bind_Ok in E as (r & fs1 & E1 & E).
  pose proof (reservation_pure j turn fs) as P1. rewrite E1 in P1. cbn in P1.
  apply reservation_Ok in E1. apply reservation_at_Ok in E1 as [Hl Hb].
  apply good_reservation in Hb. destruct Hb as (Hv & Hp & Ht & Hd & Hc).
  apply bind_Ok in E as (c & fs2 & E2 & E).
  pose proof (read_committed j turn fs1) as Hcm. rewrite E2 in Hcm. destruct Hcm as [P2 _].
  apply bind_Ok in E as (cm & fs3 & E3 & E).
  assert (P3 : nodes fs3 = nodes fs2).
  { destruct c as [c|[]]; cbn in E3; try (by injection E3 as _ <-); try done.
    apply bind_Ok in E3 as (u & fs4 & [= _ <-] & [= _ <-]). done. }
  apply bind_Ok in E as (d & fs4 & E4 & E). rewrite catch_pair in E4. injection E4 as E4 E5.
  pose proof (destroyed_pure j turn (rs_child r) fs3) as P4. rewrite E5 in P4.
  assert (Hcase : nodes fs' = nodes fs4 /\
    ((exists dd, d = Ok dd /\ s = if cm then ParentCommitted dd else ChildDestroyed dd) \/ s = Reserved r)).
  { destruct d as [d|[]]; cbn in E; try done.
    - injection E as <- <-. split; [done|]. left. eauto.
    - destruct cm; [done|]. injection E as <- <-. split; [done|by right]. }
  destruct Hcase as [P5 [(dd & -> & Es)| ->]].
  - destruct (destroyed j turn (rs_child r) fs3) as [rr fs5] eqn:Ed. cbn in E4. subst rr.
    apply destroyed_Ok in Ed. rewrite P3, P2, P1 in Ed.
    apply destroyed_at_Ok in Ed as [Hdl Hbd]. unfold bad_destroyed in Hbd. reflect.
    assert (Hcons : consistent j turn s).
    { destruct cm; subst s; cbn; (split_and!; [tauto|tauto|tauto| |tauto]);
        destruct Hbd as [[[[_ _] Hx] _] _]; congruence. }
    split_and!; [done|congruence|by exists r|].
    intros d0 [->| ->]; destruct cm; try done; injection Es as ->; done.
  - split_and!; [done|congruence|by exists r|]. by intros d0 [?|?].
Qed.

Lemma stage_of_child j turn fs s fs' :
  turn_status j turn fs = (Ok s, fs') -> (stage_of s).1.2 = child_identity (j_parent j) turn.
Proof. intros E. apply turn_status_sound in E as [Hc _]. destruct s; cbn in *; tauto. Qed.

(** Reading fails closed. Whatever bytes the root holds and whichever system
    calls fail, a turn is reported only from records of version 1 that name this
    parent, this turn and the one child derived from both, with a request that
    the turn parser accepts and an answer within its bound; it is reported as
    committed or destroyed only when the destroyed record is there. *)
Theorem journal_fail_closed (fs fs' : FS) (j : ParentJournal) (turn : string) (s : TurnStatus) :
  turn_status j turn fs = (Ok s, fs') ->
  consistent j turn s /\ nodes fs' = nodes fs /\
  (exists r, look (nodes fs) (directory j) (filename turn "reserved") = Ok r /\
     consistent j turn (Reserved r)) /\
  forall d, s = ChildDestroyed d \/ s = ParentCommitted d ->
    look (nodes fs) (directory j) (filename turn "destroyed") = Ok d.
Proof. apply turn_status_sound. Qed.

(** ** One launch *)

Lemma made_is n n' d : made n n' d -> exists t, n' !! d = Some (IsDir (mkDir ∅ t)).
Proof. intros (t & _ & ->). exists t. by rewrite lookup_insert_eq. Qed.

(** A name of the root stays taken. *)
Lemma links_taken n n' P d : links n n' P -> n !! d <> None -> n' !! d <> None.
Proof.
  intros [->|(d' & name & b & _ & dir & t & _ & _ & ->)]; [done|]. intros Hd.
  destruct (decide (d = d')) as [->|]; [by rewrite lookup_insert_eq|by rewrite lookup_insert_ne].
Qed.

Lemma effect_taken n n' o d : effect n n' o -> n !! d <> None -> n' !! d <> None.
Proof.
  intros [E|(p & n1 & _ & (t & Hd & ->) & E)] Hn; [by eapply links_taken|].
  eapply links_taken; [done|]. by rewrite lookup_insert_ne by congruence.
Qed.

Lemma create_taken p fs : nodes fs !! parent_directory p <> None ->
  is_err (create p fs).1 = true /\ nodes (create p fs).2 = nodes fs.
Proof.
  intros Hn. unfold create, mbind, IO_bind. pose proof (pure_sys fs) as P1.
  destruct (sys fs) as [[u|e] fs1]; cbn in *; [|done].
  pose proof (create_dir_effect (parent_directory p) fs1) as P2.
  destruct (create_dir (parent_directory p) fs1) as [[u'|e] fs2]; cbn in *.
  - destruct P2 as (t & Hd & _). congruence.
  - split; [done|congruence].
Qed.

Lemma create_Ok p fs j fs' :
  create p fs = (Ok j, fs') ->
  nodes fs !! parent_directory p = None /\ j = mkJournal (parent_directory p) p 0 /\
  (exists dir, nodes fs' !! parent_directory p = Some (IsDir dir)) /\
  (forall name, name <> "parent.json" -> peek (nodes fs') (parent_directory p) name = Err NotFound) /\
  look (nodes fs') (parent_directory p) "parent.json" = Ok (mkParentRecord 1 p RECOVERY).
Proof.
  unfold create. intros E. apply bind_Ok in E as (u & fs1 & E1 & E).
  pose proof (pure_sys fs) as P1. rewrite E1 in P1. cbn in P1.
  apply bind_Ok in E as (u2 & fs2 & E2 & E).
  pose proof (create_dir_effect (parent_directory p) fs1) as P2. rewrite E2 in P2.
  apply bind_Ok in E as (u3 & fs3 & E3 & E). pose proof (pure_sys fs2) as P3. rewrite E3 in P3. cbn in P3.
  apply bind_Ok in E as (u4 & fs4 & E4 & [= <- <-]).
  pose proof (publish_effect (parent_directory p) "parent.json" (mkParentRecord 1 p RECOVERY) fs3) as P4.
  rewrite E4 in P4. destruct u4. destruct P4 as [[? _]|[Hl Ha]]; [done|]. rewrite P3 in Ha.
  destruct P2 as (t & Hd & Hn). split_and!; [congruence|done| | |].
  - destruct Ha as (dir & t' & _ & _ & ->). eexists. by rewrite lookup_insert_eq.
  - intros name Hne. rewrite (peek_added _ _ _ _ _ _ _ Ha), decide_False by naive_solver.
    unfold peek. rewrite Hn, lookup_insert_eq. done.
  - rewrite (look_added _ _ _ _ _ _ _ Ha Hl). by rewrite decide_True.
Qed.

(** The directory of a created incarnation is never fenced. *)
Definition unfenced (n : gmap string Node) (d : string) : Prop :=
  (exists dir, n !! d = Some (IsDir dir)) /\ peek n d "never-created.json" = Err NotFound.

Lemma links_is_dir n n' P d dir :
  links n n' P -> n !! d = Some (IsDir dir) -> exists dir', n' !! d = Some (IsDir dir').
Proof.
  intros [->|(d' & name & b & _ & dir' & t & _ & _ & ->)]; [eauto|]. intros Hd.
  destruct (decide (d = d')) as [->|]; [rewrite lookup_insert_eq|rewrite lookup_insert_ne by done]; eauto.
Qed.

Lemma may_link_fence n o d b :
  n !! d <> None -> may_link n o d "never-created.json" b -> False.
Proof.
  intros Hn. destruct o; cbn; intros Hm; destruct_and?; try congruence; try done;
    match goal with E : "never-created.json" = filename _ _ |- _ =>
      symmetry in E; by apply filename_fixed in E; [|set_solver] end.
Qed.

Lemma unfenced_step fs o d : unfenced (nodes fs) d -> unfenced (nodes (step fs o)) d.
Proof.
  intros [[dir Hd] Hp]. pose proof (step_effect fs o) as He. split.
  - destruct He as [E|(p & n1 & _ & (t & Hd' & ->) & E)]; (eapply links_is_dir; [exact E|]); [done|].
    by rewrite lookup_insert_ne by congruence.
  - destruct (effect_new _ _ _ d "never-created.json" He) as [E|(b & Hm & _)]; [congruence|].
    exfalso. eapply may_link_fence; [|exact Hm]. congruence.
Qed.

Lemma fence_unfenced p pr fs : unfenced (nodes fs) (parent_directory p) ->
  (fence_uncreated p pr fs).1 <> Ok true.
Proof.
  intros [[dir Hd] Hp] E. destruct (fence_uncreated p pr fs) as [r fs'] eqn:Ef. cbn in E. subst r.
  unfold fence_uncreated in Ef. apply bind_Ok in Ef as (u & fs1 & E1 & E).
  injection E1 as _ <-. apply bind_Ok in E as (u2 & fs2 & E2 & E).
  pose proof (pure_sys fs) as P2. rewrite E2 in P2. cbn in P2.
  apply bind_Ok in E as (r & fs3 & E3 & E). rewrite catch_pair in E3. injection E3 as E3 E4.
  pose proof (create_dir_effect (parent_directory p) fs2) as P3.
  destruct (create_dir (parent_directory p) fs2) as [rr fs3']. cbn in E3, E4. subst rr fs3'.
  destruct r as [u3|e]; [destruct P3 as (t & Hx & _); congruence|].
  destruct e; try done. apply bind_Ok in E as (u4 & fs4 & E5 & E).
  pose proof (pure_sys fs3) as P4. rewrite E5 in P4. cbn in P4.
  apply bind_Ok in E as (fs5 & fs6 & [= <- <-] & E).
  assert (Hn : nodes fs4 = nodes fs) by congruence. rewrite Hn, Hd in E.
  apply bind_Ok in E as (o & fs7 & E7 & E). unfold peek in Hp. rewrite Hd in Hp.
  destruct (files dir !! "never-created.json"); [done|]. by destruct o.
Qed.

Lemma fence_taken p pr fs :
  (fence_uncreated p pr fs).1 = Ok true -> nodes (fence_uncreated p pr fs).2 !! parent_directory p <> None.
Proof.
  intros E. pose proof (fence_effect fs p pr) as He. destruct (nodes fs !! parent_directory p) eqn:Hd.
  - eapply effect_taken; [exact He|]. by rewrite Hd.
  - destruct He as [HL|(p' & n1 & Ho & Hm & HL)].
    2:{ eapply links_taken; [exact HL|]. destruct Ho as [?|[pr' [= <- _]]]; [done|].
        destruct (made_is _ _ _ Hm) as [t Ht]. by rewrite Ht. }
    exfalso. destruct (fence_uncreated p pr fs) as [r fs'] eqn:Ef.
    cbn in E. subst r. unfold fence_uncreated in Ef. apply bind_Ok in Ef as (u & fs1 & E1 & E).
    injection E1 as _ <-. apply bind_Ok in E as (u2 & fs2 & E2 & E).
    pose proof (pure_sys fs) as P2. rewrite E2 in P2. cbn in P2.
    apply bind_Ok in E as (r & fs3 & E3 & E). rewrite catch_pair in E3. injection E3 as E3 E4.
    pose proof (create_dir_effect (parent_directory p) fs2) as P3.
    destruct (create_dir (parent_directory p) fs2) as [rr fs3'] eqn:Ec. cbn in E3, E4. subst rr fs3'.
    destruct r as [u3|e].
    + apply bind_Ok in E as (u4 & fs4 & E5 & E).
      pose proof (publish_effect (parent_directory p) "never-created.json" (never_created p pr) fs3) as P4.
      rewrite E5 in P4. destruct u4. destruct P4 as [[? _]|[_ (dir & t & _ & _ & Hn)]]; [done|].
      apply bind_Ok in E as (u5 & fs5 & E6 & [= <-]).
      pose proof (pure_sys fs4) as P5. rewrite E6 in P5. cbn in P5.
      destruct HL as [Hs|(d & name & b & _ & dir' & t' & Hd' & _ & Hs)]; cbn in Hs;
        rewrite P5, Hn in Hs.
      * rewrite <- Hs, lookup_insert_eq in Hd. done.
      * destruct (decide (d = parent_directory p)) as [->|Hne]; [congruence|].
        apply (f_equal (lookup (parent_directory p))) in Hs.
        rewrite lookup_insert_eq, lookup_insert_ne, Hd in Hs by done. done.
    + unfold create_dir in Ec. unfold mbind, IO_bind in Ec.
      pose proof (pure_sys fs2) as P4. destruct (sys fs2) as [[u4|e'] fs4] eqn:Es; cbn in *.
      * rewrite P4, P2, Hd in Ec. done.
      * injection Ec as <- <-. unfold sys in Es. destruct (faults fs2) as [|[] l]; try done.
        injection Es as <- _. done.
Qed.

(** An incarnation is launched at most once, and never after it has been
    fenced off. Once [create] has returned a journal, and whatever any processes
    do to the root afterwards, no [fence_uncreated] confirms that the parent was
    never created. Once a fence has confirmed it, or an attempt to create it has
    left a directory behind, every later [create] fails and writes nothing. *)
Theorem launch_exclusion (fs : FS) (p : hash) (ops : list op) :
  (is_ok (create p fs).1 = true ->
     forall principal, (fence_uncreated p principal (run (create p fs).2 ops)).1 <> Ok true) /\
  (nodes fs !! parent_directory p <> None ->
     is_err (create p (run fs ops)).1 = true /\
     nodes (create p (run fs ops)).2 = nodes (run fs ops)) /\
  (forall principal, (fence_uncreated p principal fs).1 = Ok true ->
     is_err (create p (run (fence_uncreated p principal fs).2 ops)).1 = true).
Proof.
  assert (Htaken : forall fs0, nodes fs0 !! parent_directory p <> None ->
    nodes (run fs0 ops) !! parent_directory p <> None).
  { intros fs0 Hn. apply (foldl_inv (fun fs' => nodes fs' !! parent_directory p <> None)); [|done].
    intros fs' o _. apply effect_taken with (o := o), step_effect. }
  split_and!.
  - intros E pr. destruct (create p fs) as [[j|e] fs1] eqn:Ec; [|done]. cbn.
    apply create_Ok in Ec as (_ & _ & Hd & Hp & _). apply fence_unfenced.
    apply (foldl_inv (fun fs' => unfenced (nodes fs') (parent_directory p))); [|by split; auto].
    intros fs' o _. apply unfenced_step.
  - intros Hn. apply create_taken. by apply Htaken.
  - intros pr E. apply create_taken, Htaken. by apply fence_taken.
Qed.

(** ** Reservations *)

Lemma peek_run fs ops d name b : peek (nodes fs) d name = Ok b -> peek (nodes (run fs ops)) d name = Ok b.
Proof.
  intros Hb. apply (foldl_inv (fun fs' => peek (nodes fs') d name = Ok b)); [|done].
  intros fs' o _. eapply effect_keeps, step_effect.
Qed.

Lemma look_run {A} `{Json A} fs ops d name (r : A) :
  look (nodes fs) d name = Ok r -> look (nodes (run fs ops)) d name = Ok r.
Proof. apply look_keeps. intros b. apply peek_run. Qed.

Lemma publish_taken {A} `{Json A} d name (v : A) fs b :
  peek (nodes fs) d name = Ok b ->
  (publish d name v fs).1 <> Ok tt /\ nodes (publish d name v fs).2 = nodes fs.
Proof.
  intros Hb. pose proof (publish_effect d name v fs) as E. destruct (publish d name v fs) as [r fs'].
  destruct E as [[Hr Hn]|[_ Ha]]; [done|]. rewrite (peek_added_old _ _ _ _ _ Ha) in Hb. done.
Qed.

Definition reservation_of (t : ReservedTurn) : Reservation :=
  mkReservation 1 (rt_parent t) (rt_child t) (rt_request t) (memory_bytes (rt_limits t))
    (timeout (rt_limits t)) (model_requests (rt_limits t)) (output_tokens (rt_limits t)).

Lemma reserve_Ok j t fs j' fs' :
  reserve j t fs = (Ok tt, j', fs') ->
  j' = mkJournal (directory j) (j_parent j) (reservations j + 1) /\ reservations j < 1024 /\
  look (nodes fs') (directory j) (filename (turn_id (rt_request t)) "reserved") = Ok (reservation_of t) /\
  bad_reservation j (turn_id (rt_request t)) (reservation_of t) = false.
Proof.
  unfold reserve. destruct (_ || _ || _ || _) eqn:Eg; [done|]. reflect.
  destruct Eg as [[[Hr Hp] Hd] Hc].
  destruct (publish _ _ _ fs) as [r fs1] eqn:Ep. intros [= -> <- <-].
  pose proof (publish_effect (directory j) (filename (turn_id (rt_request t)) "reserved") (reservation_of t) fs) as E.
  cbn in Ep. unfold reservation_of in E. rewrite Ep in E. destruct E as [[? _]|[Hl Ha]]; [done|].
  split_and!; [done|done| |].
  - rewrite (look_added _ _ _ _ _ _ _ Ha Hl). by rewrite decide_True.
  - unfold bad_reservation. cbn. rewrite Hd, Hp, Hc, !String.eqb_refl, Hp, String.eqb_refl. done.
Qed.

(** C2: A turn is reserved durably and at most once. After [reserve] has returned,
    and whatever happens to the root afterwards: the turn reads back, through any
    journal of the same incarnation, as the reservation that was made, with its
    child, request and limits; and another reservation of the same turn, by any
    writer of that directory in this or in a later process, fails and changes
    nothing on disk. *)
Theorem journal_no_replay (j j' : ParentJournal) (t : ReservedTurn) (fs fs' : FS) (ops : list op) :
  reserve j t fs = (Ok tt, j', fs') ->
  let n := nodes (run fs' ops) in
  now (reservation j (turn_id (rt_request t))) n = Ok (reservation_of t) /\
  (forall k t2 c f, directory k = directory j -> turn_id (rt_request t2) = turn_id (rt_request t) ->
     (reserve k t2 (mkFS n c f)).1.1 <> Ok tt /\ nodes (reserve k t2 (mkFS n c f)).2 = n).
Proof.
  intros E n. apply reserve_Ok in E as (_ & _ & Hl & Hb). apply (look_run _ ops) in Hl. fold n in Hl.
  split.
  - unfold now. rewrite reservation_now. cbn. by apply reservation_at_Ok.
  - intros k t2 c f Hk Ht. unfold reserve. destruct (_ || _ || _ || _); [done|].
    unfold look in Hl. destruct (peek n _ _) as [b|] eqn:Hp; [|done].
    rewrite <- Hk, <- Ht in Hp.
    pose proof (publish_taken (directory k) (filename (turn_id (rt_request t2)) "reserved")
      (reservation_of t2) (mkFS n c f) b Hp) as [Hr Hn].
    unfold reservation_of in Hr, Hn. destruct (publish _ _ _ _) as [r fs2]. done.
Qed.

(** ** The owner of an incarnation *)

Lemma bind_owner_Ok j pr fs fs' :
  bind_owner j pr fs = (Ok tt, fs') ->
  valid_principal pr = true /\ look (nodes fs') (directory j) "owner.json" = Ok (mkOwnerRecord 1 (j_parent j) pr).
Proof.
  unfold bind_owner. intros E. apply bind_Ok in E as (u & fs1 & [= Hg <-] & E). apply ensure_Ok in Hg.
  split; [done|].
  pose proof (publish_effect (directory j) "owner.json" (mkOwnerRecord 1 (j_parent j) pr) fs) as P.
  rewrite E in P. destruct P as [[? _]|[Hl Ha]]; [done|].
  rewrite (look_added _ _ _ _ _ _ _ Ha Hl). by rewrite decide_True.
Qed.

Definition owner_at n (p : hash) (principal : string) : result ErrorKind bool :=
  r ← look n (parent_directory p) "parent.json";
  o ← look n (parent_directory p) "owner.json";
  _ ← ensure (negb (bad_identity_record p r || negb (ow_version o =? 1)
                      || negb (String.eqb (ow_parent o) p) || negb (valid_principal (ow_principal o))))
        InvalidData;
  Ok (String.eqb (ow_principal o) principal).

Lemma historical_owner_now n c p pr :
  historical_owner p pr (mkFS n c []) = (owner_at n p pr, mkFS n c []).
Proof.
  unfold historical_owner, owner_at, mbind, IO_bind. rewrite read_record_now.
  destruct (look (A := ParentRecord) n _ _); cbn; [|done]. rewrite read_record_now.
  destruct (look (A := OwnerRecord) n _ _); cbn; [|done]. unfold guard_io, lift.
  by destruct (ensure _ _).
Qed.

(** History is readable by its owner and by nobody else. Once an incarnation
    has been created and then bound to a principal, whatever happens before,
    between and afterwards, the durable record authorises exactly that principal;
    before the binding it authorises nobody. *)
Theorem historical_owner_exact (p : hash) (j : ParentJournal) (principal : string)
    (fs0 fs1 fs2 : FS) (before later : list op) :
  create p fs0 = (Ok j, fs1) ->
  bind_owner j principal (run fs1 before) = (Ok tt, fs2) ->
  (forall q, now (historical_owner p q) (nodes (run fs2 later)) = Ok (String.eqb principal q)) /\
  (forall q, now (historical_owner p q) (nodes fs1) = Err NotFound).
Proof.
  intros Hc Hb. pose proof (create_Ok _ _ _ _ Hc) as (_ & -> & _ & Hnone & Hp).
  set (j := mkJournal (parent_directory p) p 0) in *.
  assert (E2 : fs2 = step (run fs1 before) (OBindOwner j principal)) by (cbn; by rewrite Hb).
  apply bind_owner_Ok in Hb as [Hv Ho]. cbn in Ho. split; intros q; unfold now; rewrite historical_owner_now; cbn.
  - apply (look_run _ later) in Ho.
    assert (Hp2 : look (nodes (run fs2 later)) (parent_directory p) "parent.json" = Ok (mkParentRecord 1 p RECOVERY)).
    { rewrite E2. change (step (run fs1 before) ?o) with (run (run fs1 before) [o]). by do 3 apply look_run. }
    unfold owner_at. rewrite Hp2. cbn. rewrite Ho. cbn. unfold bad_identity_record. cbn.
    rewrite !String.eqb_refl, Hv. done.
  - unfold owner_at. rewrite Hp. cbn.
    by rewrite (proj2 (look_NotFound (A := OwnerRecord) _ _ _) (Hnone "owner.json" ltac:(done))).
Qed.

(** ** Confirming the teardown of an old process *)

Lemma historical_owner_Ok p pr fs b fs' :
  historical_owner p pr fs = (Ok b, fs') -> owner_at (nodes fs) p pr = Ok b /\ nodes fs' = nodes fs.
Proof.
  unfold historical_owner, owner_at. intros E. apply bind_Ok in E as (r & fs1 & E1 & E).
  pose proof (read_record_pure (A := ParentRecord) (parent_directory p) "parent.json" fs) as P1.
  rewrite E1 in P1. apply read_record_Ok in E1. rewrite E1. cbn.
  apply bind_Ok in E as (o & fs2 & E2 & E).
  pose proof (read_record_pure (A := OwnerRecord) (parent_directory p) "owner.json" fs1) as P2.
  rewrite E2 in P2. apply read_record_Ok in E2. cbn in *. rewrite P1 in E2. rewrite E2. cbn.
  apply bind_Ok in E as (u & fs3 & [= E3 <-] & [= <- <-]). rewrite E3. cbn. split; [done|congruence].
Qed.

Lemma bind_process_Ok j p fs fs' :
  bind_process j p fs = (Ok tt, fs') ->
  exists boot ns uid ticks,
    process_context p = Ok (boot, ns) /\ self_uid p = Ok uid /\ process_start p (self_pid p) = Ok ticks /\
    look (nodes fs') (directory j) "process.json" =
      Ok (mkProcessRecord 1 (j_parent j) boot ns uid (self_pid p) ticks).
Proof.
  unfold bind_process. intros E. apply bind_Ok in E as ([boot ns] & fs1 & [= E1 <-] & E).
  apply bind_Ok in E as (uid & fs2 & [= E2 <-] & E). apply bind_Ok in E as (ticks & fs3 & [= E3 <-] & E).
  exists boot, ns, uid, ticks. split_and!; [done..|].
  set (v := mkProcessRecord _ _ _ _ _ _ _) in *.
  pose proof (publish_effect (directory j) "process.json" v fs) as P. rewrite E in P.
  destruct P as [[? _]|[Hl Ha]]; [done|]. rewrite (look_added _ _ _ _ _ _ _ Ha Hl). by rewrite decide_True.
Qed.

Lemma teardown_Ok kvm proc p pr fs fs' :
  historical_teardown kvm proc p pr fs = (Ok true, fs') ->
  owner_at (nodes fs) p pr = Ok true /\
  exists r, look (nodes fs) (parent_directory p) "process.json" = Ok r /\
    pc_version r = 1 /\ pc_parent r = p /\
    process_context proc = Ok (pc_boot r, pc_pid_namespace r) /\ self_uid proc = Ok (pc_uid r) /\
    ((exists start, process_start proc (pc_pid r) = Ok start /\ start <> pc_start_ticks r) \/
     (process_start proc (pc_pid r) = Err NotFound /\ kvm = true /\ kill_esrch proc (pc_pid r) = true)).
Proof.
  unfold historical_teardown. intros E. apply bind_Ok in E as (o & fs1 & E1 & E).
  apply historical_owner_Ok in E1 as [Ho P1]. destruct o; [|done]. split; [done|]. cbn in E.
  apply bind_Ok in E as (r & fs2 & E2 & E). apply read_record_Ok in E2. rewrite P1 in E2.
  exists r. split; [done|].
  apply bind_Ok in E as ([boot ns] & fs3 & [= E3 <-] & E).
  apply bind_Ok in E as (u & fs4 & [= E4 <-] & E). apply ensure_Ok in E4. reflect.
  destruct E4 as [[[[[Hv Hp] _] _] Hb] Hns]. subst boot ns.
  apply bind_Ok in E as (uid & fs5 & [= E5 <-] & E).
  apply bind_Ok in E as (u2 & fs6 & [= E6 <-] & E). apply ensure_Ok in E6. reflect. subst uid.
  split_and!; [done..|].
  destruct (process_start proc (pc_pid r)) as [start|[]] eqn:Es; try done.
  - left. exists start. split; [done|]. injection E as E _. reflect. done.
  - right. destruct kvm; [|done]. destruct (_ <=? _); [|done]. injection E as E _. done.
Qed.

(** Teardown of an old incarnation is confirmed only by evidence about its
    process. An answer [true] means that the record is the owner's, that it was
    written in this boot, PID namespace and user, and that the recorded process
    is gone: its number now belongs to a process with another start time, or
    procfs has no such process and the kernel confirms it. After a process has
    bound itself, no later query confirms its teardown as long as that process
    still has the start time it had, whatever else happens to the root. *)
Theorem teardown_sound (kvm : bool) (proc : Proc) (p : hash) (principal : string) (fs fs' : FS) :
  (historical_teardown kvm proc p principal fs = (Ok true, fs') ->
   owner_at (nodes fs) p principal = Ok true /\
   exists r, look (nodes fs) (parent_directory p) "process.json" = Ok r /\
     pc_version r = 1 /\ pc_parent r = p /\
     process_context proc = Ok (pc_boot r, pc_pid_namespace r) /\ self_uid proc = Ok (pc_uid r) /\
     ((exists start, process_start proc (pc_pid r) = Ok start /\ start <> pc_start_ticks r) \/
      (process_start proc (pc_pid r) = Err NotFound /\ kvm = true /\ kill_esrch proc (pc_pid r) = true))) /\
  (forall fs0 j fs1 before self fs2 later c f,
     create p fs0 = (Ok j, fs1) -> bind_process j self (run fs1 before) = (Ok tt, fs2) ->
     process_start proc (self_pid self) = process_start self (self_pid self) ->
     (historical_teardown kvm proc p principal (mkFS (nodes (run fs2 later)) c f)).1 <> Ok true).
Proof.
  split; [apply teardown_Ok|]. intros fs0 j fs1 before self fs2 later c f Hc Hb Hs E.
  destruct (historical_teardown _ _ _ _ _) as [r fs3] eqn:Et. cbn in E. subst r.
  apply teardown_Ok in Et as (_ & r & Hr & _ & _ & _ & _ & Hgone). cbn in Hr.
  apply create_Ok in Hc as (_ & -> & _).
  apply bind_process_Ok in Hb as (boot & ns & uid & ticks & _ & _ & Ht & Hl). cbn in Hl.
  apply (look_run _ later) in Hl. assert (r = mkProcessRecord 1 p boot ns uid (self_pid self) ticks) as -> by congruence.
  cbn in Hgone. rewrite Hs, Ht in Hgone. destruct Hgone as [(start & [= ->] & ?)|[? _]]; done.
Qed.

(** ** Listings *)

Lemma filter_map_io_length {A B} (f : A -> IO (option B)) l fs bs fs' :
  filter_map_io f l fs = (Ok bs, fs') -> (length bs <= length l)%nat.
Proof.
  revert fs bs fs'. induction l as [|a l IH]; intros fs bs fs'; cbn [filter_map_io].
  - by intros [= <- <-].
  - intros E. apply bind_Ok in E as (r & fs1 & _ & E). apply bind_Ok in E as (bs1 & fs2 & E1 & E).
    apply IH in E1. injection E as <- _. destruct r as [[b|]|]; cbn; lia.
Qed.

(** Every element of a listing comes from a successful step on some state with
    the same tree, and in order. *)
Lemma filter_map_io_from {A B} (f : A -> IO (option B)) l fs bs fs' :
  (forall a, pure_io (f a)) -> filter_map_io f l fs = (Ok bs, fs') ->
  nodes fs' = nodes fs /\
  exists las, las `sublist_of` l /\
    Forall2 (fun a b => exists fs1 fs2, nodes fs1 = nodes fs /\ f a fs1 = (Ok (Some b), fs2)) las bs.
Proof.
  intros Hf. revert fs bs fs'. induction l as [|a l IH]; intros fs bs fs'; cbn [filter_map_io].
  - intros [= <- <-]. split; [done|]. exists []. split; constructor.
  - intros E. apply bind_Ok in E as (r & fs1 & E0 & E). rewrite catch_pair in E0. injection E0 as E0 E1.
    apply bind_Ok in E as (bs1 & fs2 & E2 & [= <- <-]). apply IH in E2 as (Hn & las & Hs & Hall).
    pose proof (Hf a fs) as Hp. rewrite E1 in Hp. split; [congruence|].
    rewrite Hp in Hall. destruct r as [[b|]|e].
    + exists (a :: las). split; [by apply sublist_skip|]. constructor; [|done].
      exists fs, fs1. split; [done|]. rewrite (surjective_pairing (f a fs)). congruence.
    + exists las. split; [by apply sublist_cons|done].
    + exists las. split; [by apply sublist_cons|done].
Qed.

Lemma turn_status_pure j turn : pure_io (turn_status j turn).
Proof.
  unfold turn_status. apply pure_bind; [apply reservation_pure|intros r].
  apply pure_bind; [apply pure_catch, read_record_pure|intros c].
  apply pure_bind; [destruct c as [c|[]]; pure_tac|intros cm].
  apply pure_bind; [apply pure_catch, destroyed_pure|intros d].
  destruct d as [d|[]]; pure_tac.
Qed.

Lemma summarize_turn_pure j e : pure_io (summarize_turn j e).
Proof.
  unfold summarize_turn. apply pure_bind; [apply read_record_pure|intros r].
  destruct (negb _); [pure_tac|]. apply pure_bind; [apply turn_status_pure|intros s].
  destruct (stage_of s) as [[stage child] ok]. pure_tac.
Qed.

Lemma summarize_turn_Ok j e fs ts fs' :
  summarize_turn j e fs = (Ok (Some ts), fs') ->
  e.2 = filename (ts_turn_id ts) "reserved" /\ ts_reserved_ms ts = e.1 /\
  exists s fs1 fs2, turn_status j (ts_turn_id ts) fs1 = (Ok s, fs2) /\ nodes fs1 = nodes fs /\
    stage_of s = (ts_stage ts, ts_child ts, ts_succeeded ts).
Proof.
  unfold summarize_turn. intros E. apply bind_Ok in E as (r & fs1 & E1 & E).
  pose proof (read_record_pure (A := Reservation) (directory j) e.2 fs) as P. rewrite E1 in P.
  destruct (String.eqb_spec e.2 (filename (turn_id (rs_request r)) "reserved")) as [Hf|]; [|done]. cbn in E.
  apply bind_Ok in E as (s & fs2 & E2 & E). destruct (stage_of s) as [[stage child] ok] eqn:Es.
  injection E as <- _. cbn. split_and!; [done|done|]. exists s, fs1, fs2. done.
Qed.

#[local] Instance newer_total : Total newer.
Proof.
  intros [t1 n1] [t2 n2]. unfold newer. cbn.
  destruct (Z.lt_trichotomy t1 t2) as [?|[->|?]]; [by right; left| |by left; left].
  destruct (String.leb_total n1 n2); [right|left]; right; done.
Qed.

Definition no_older (a b : Z) : Prop := b <= a.

Lemma sublist_StronglySorted {A} (R : relation A) l1 l2 :
  l1 `sublist_of` l2 -> StronglySorted R l2 -> StronglySorted R l1.
Proof.
  induction 1 as [|x l1 l2 Hs IH|x l1 l2 Hs IH]; intros Hl.
  - constructor.
  - apply StronglySorted_inv in Hl as [Hl Hx]. constructor; [by apply IH|].
    apply Forall_forall. intros y Hy. eapply Forall_forall; [exact Hx|]. by eapply elem_of_sublist.
  - apply StronglySorted_inv in Hl as [Hl _]. by apply IH.
Qed.

Lemma sorted_newer l : StronglySorted no_older ((merge_sort newer l).*1).
Proof.
  apply (StronglySorted_fmap fst (fun a b => no_older a.1 b.1)); [done|].
  apply Sorted_StronglySorted; [intros [a ?] [b ?] [c ?]; unfold no_older; cbn; lia|].
  eapply Sorted_ind with (P := fun l => Sorted _ l); [constructor| |apply (Sorted_merge_sort newer)].
  intros a l' _ IH Hr. constructor; [done|]. destruct Hr as [|b l'' Hab]; constructor.
  unfold newer, no_older in *. lia.
Qed.

Lemma list_reserved_spec dir fs l fs' :
  list_reserved dir fs = (Ok l, fs') ->
  nodes fs' = nodes fs /\ NoDup l.*2 /\ StronglySorted no_older l.*1 /\
  (length l <= size (files dir))%nat /\
  forall t name, (t, name) ∈ l -> ends_with ".reserved.json" name = true /\
    exists f, files dir !! name = Some f /\ t = modified_ms (f_mtime f).
Proof.
  unfold list_reserved. intros E. apply bind_Ok in E as (l0 & fs1 & E & [= <- <-]).
  apply filter_map_io_from in E; [|intros a; pure_tac].
  destruct E as (Hn & las & Hs & Hall). split; [done|].
  assert (El : l0 = (fun nf => (modified_ms (f_mtime nf.2), nf.1)) <$> las).
  { clear Hs. induction Hall as [|nf e las es (f1 & f2 & _ & He) _ IH]; [done|]. cbn. f_equal; [|exact IH].
    apply bind_Ok in He as (u & f3 & _ & [= <- _]). done. }
  assert (Hlas : las `sublist_of` map_to_list (files dir)).
  { etransitivity; [exact Hs|]. apply sublist_filter. }
  split_and!.
  - rewrite merge_sort_Permutation. subst l0. rewrite <- list_fmap_compose.
    change (NoDup (las.*1)). apply (sublist_NoDup _ _ (NoDup_fst_map_to_list (files dir))).
    by apply fmap_sublist.
  - apply sorted_newer.
  - rewrite merge_sort_Permutation. subst l0. rewrite length_fmap, <- length_map_to_list.
    by apply sublist_length.
  - intros t name Hin. rewrite merge_sort_Permutation in Hin. subst l0.
    apply list_elem_of_fmap in Hin as ([name' f] & [= -> ->] & Hin). cbn.
    pose proof (elem_of_sublist _ _ _ Hin Hs) as Hf. apply list_elem_of_filter in Hf as [He Hf].
    split; [done|]. exists f. split; [|done]. by apply elem_of_map_to_list in Hf.
Qed.

(** A listing is bounded, in order, and says only what the turns say. A summary
    of an incarnation has at most the requested number of turns, each turn at
    most once, newest first, and at most as many as the reservation files it
    counted; each entry is the stage, child and outcome that reading the turn
    through the validated path gives, so a record filed under another turn's name
    is never listed. *)
Theorem summary_sound (p : hash) (max_turns : nat) (fs fs' : FS) (sum : ParentSummary) :
  summarize_parent p max_turns fs = (Ok sum, fs') ->
  nodes fs' = nodes fs /\ ps_parent sum = p /\
  (length (ps_turns sum) <= max_turns)%nat /\
  Z.of_nat (length (ps_turns sum)) <= ps_turns_total sum /\
  NoDup (ts_turn_id <$> ps_turns sum) /\
  StronglySorted no_older (ts_reserved_ms <$> ps_turns sum) /\
  forall ts, ts ∈ ps_turns sum ->
    exists j s fs1 fs2, j_parent j = p /\ nodes fs1 = nodes fs /\
      turn_status j (ts_turn_id ts) fs1 = (Ok s, fs2) /\
      stage_of s = (ts_stage ts, ts_child ts, ts_succeeded ts) /\
      ts_child ts = child_identity p (ts_turn_id ts).
Proof.
  unfold summarize_parent. intros E. apply bind_Ok in E as (j & fs1 & E1 & E).
  assert (Hj : j_parent j = p /\ nodes fs1 = nodes fs).
  { unfold open_historical in E1. apply bind_Ok in E1 as (r & fs0 & E0 & E1).
    pose proof (read_record_pure (A := ParentRecord) (parent_directory p) "parent.json" fs) as P.
    cbn in E0. rewrite E0 in P. apply bind_Ok in E1 as (u & fs2 & [= _ <-] & [= <- <-]). done. }
  destruct Hj as [Hj P1]. apply bind_Ok in E as (dir & fs2 & E2 & E). apply open_dir_Ok in E2 as [_ P2].
  apply bind_Ok in E as (l & fs3 & E3 & E).
  apply list_reserved_spec in E3 as (P3 & Hnd & Hsort & _ & _).
  apply bind_Ok in E as (turns & fs4 & E4 & [= <- <-]). cbn.
  pose proof (filter_map_io_length _ _ _ _ _ E4) as Hlen. rewrite length_take in Hlen.
  apply filter_map_io_from in E4; [|intros; apply summarize_turn_pure].
  destruct E4 as (P4 & las & Hs & Hall).
  assert (Hsub : las `sublist_of` l) by (etransitivity; [exact Hs|apply sublist_take]).
  assert (Hn : las.*2 = (fun ts => filename (ts_turn_id ts) "reserved") <$> turns /\
               las.*1 = ts_reserved_ms <$> turns).
  { clear Hs Hlen Hsub. induction Hall as [|e ts las turns (f1 & f2 & _ & He) _ [IH1 IH2]]; [done|].
    apply summarize_turn_Ok in He as (Ha & Hb & _). cbn. rewrite IH1, IH2, Ha, Hb. done. }
  destruct Hn as [Hn1 Hn2]. split_and!; [congruence|done|lia|lia| | |].
  - apply (NoDup_fmap_1 (fun t => filename t "reserved")). rewrite <- list_fmap_compose.
    change (NoDup ((fun ts => filename (ts_turn_id ts) "reserved") <$> turns)). rewrite <- Hn1.
    eapply sublist_NoDup; [exact Hnd|]. by apply fmap_sublist.
  - rewrite <- Hn2. eapply sublist_StronglySorted; [|exact Hsort]. by apply fmap_sublist.
  - intros ts Hin. apply list_elem_of_lookup in Hin as [i Hi].
    destruct (Forall2_lookup_r _ _ _ _ _ Hall Hi) as (e & _ & f1 & f2 & Hf & He).
    apply summarize_turn_Ok in He as (_ & _ & s & f3 & f4 & Hst & Hf3 & Hstage).
    exists j, s, f3, f4. split_and!; [done|congruence|done|done|].
    apply stage_of_child in Hst. rewrite Hstage in Hst. by rewrite <- Hj.
Qed.
End journal.
