(* ===== verification/Permit.v ===== *)
(** * Parent permits ([crates/celln-warden/src/parent_permit.rs])

    The operator's explicit, expiring authority for one parent incarnation: its
    issuance pinned to a run, its publication under its own hash, and its use.
    The operator root's two directories are a file system of [Journal.v]; the
    journal is another one. What the host's clocks say is an argument. *)

From S2P Require Import Prelude Json Instances Manifest Protocol Lease Journal.

Definition VERSION : string := "celln.parent-permit/v1".
Definition MAX_TURNS : Z := 1024.
Definition MAX_TURN_MODEL_REQUESTS : Z := 6.
Definition MAX_TOTAL_MODEL_REQUESTS : Z := MAX_TURNS * MAX_TURN_MODEL_REQUESTS.
(** The upper end of [egress::REQUEST_OUTPUT_TOKENS]. *)
Definition MAX_REQUEST_OUTPUT_TOKENS : Z := 4096.
Definition MAX_TOTAL_OUTPUT_TOKENS : Z := MAX_TOTAL_MODEL_REQUESTS * MAX_REQUEST_OUTPUT_TOKENS.

Record Binding : Type := mkBinding {
  principal : string;
  incarnation : hash;
  parent_configuration : hash;
  worker_configuration : hash;
  parent_memory_bytes : Z;
  child_memory_bytes : Z;
  lifetime_ms : Z;
  turn_timeout_ms : Z;
  max_turns : nat;
  turn_model_requests : Z;
  turn_output_tokens : Z;
  total_model_requests : Z;
  total_output_tokens : Z;
}.

#[export] Instance Binding_eq_dec : EqDecision Binding.
Proof. solve_decision. Defined.

Record Permit : Type := mkPermit {
  api_version : string;
  binding : Binding;
  boot_id : string;
  issued_at_boottime_ms : Z;
  expires_at_boottime_ms : Z;
}.

#[export] Instance Permit_eq_dec : EqDecision Permit.
Proof. solve_decision. Defined.

Record HostClock : Type := mkHostClock { hc_boot_id : string; boottime_ms : Z }.

Record RunIssuance : Type := mkRunIssuance {
  ri_api_version : string;
  scope : string;
  run_uid : string;
  intent : hash;
  admission_window_ms : Z;
  permit : Permit;
}.

#[export] Instance RunIssuance_eq_dec : EqDecision RunIssuance.
Proof. solve_decision. Defined.

(** ** Checks *)

Definition valid_hash (h : hash) : bool :=
  match strip_prefix "blake3:" h with Some s => is_hex64 s | None => false end.

Fixpoint valid_boot_from (i : nat) (b : bytes) : bool :=
  match b with
  | [] => true
  | c :: b =>
      (if bool_decide (i ∈ [8; 13; 18; 23]%nat) then bool_decide (c = x2d) else is_lower_hex c)
      && valid_boot_from (S i) b
  end.
Definition valid_boot (id : string) : bool := (str_len id =? 36) && valid_boot_from 0 (as_bytes id).

(** What [host_clock] reads: the text of [boot_id] and the [CLOCK_BOOTTIME]. *)
Record RawClock : Type := mkRawClock {
  raw_boot : result ErrorKind bytes;
  raw_time : result ErrorKind (Z * Z);
}.

Definition host_clock (r : RawClock) : result ErrorKind HostClock :=
  text ← raw_boot r;
  let text := take_bytes 128 text in
  _ ← ensure (utf8_valid text) InvalidData;
  let id := from_utf8 (trim text) in
  '(sec, nsec) ← raw_time r;
  _ ← ensure (valid_boot id && (0 <=? sec) && ((0 <=? nsec) && (nsec <? 1000000000))) InvalidData;
  let ms := sec * 1000 in
  _ ← ensure (ms <=? u64_max) InvalidData;
  t ← ok_or (checked_add_u64 ms (nsec / 1000000)) InvalidData;
  Ok (mkHostClock id t).

(** [Binding::lease]; [now] is the monotonic clock of [ParentLease::new]. *)
Definition bad_binding (b : Binding) : bool :=
  str_is_empty (principal b) || (512 <? str_len (principal b)) || has_control (as_bytes (principal b))
  || negb (valid_hash (incarnation b)) || negb (valid_hash (parent_configuration b))
  || negb (valid_hash (worker_configuration b)) || (parent_memory_bytes b =? 0)
  || negb (is_Some_b (checked_add_u64 (parent_memory_bytes b) (child_memory_bytes b)))
  || negb ((1 <=? lifetime_ms b) && (lifetime_ms b <=? 86400000))
  || (lifetime_ms b <? turn_timeout_ms b)
  || (MAX_TOTAL_MODEL_REQUESTS <? total_model_requests b)
  || (MAX_TOTAL_OUTPUT_TOKENS <? total_output_tokens b).

Definition binding_limits (b : Binding) : TurnLimits :=
  mkTurnLimits (child_memory_bytes b) (turn_timeout_ms b * nanos_per_milli)
    (turn_model_requests b) (turn_output_tokens b).

Definition lease (b : Binding) (now : Z) : result ErrorKind ParentLease :=
  _ ← ensure (negb (bad_binding b)) InvalidData;
  map_err (fun _ => InvalidData)
    (Lease.new (incarnation b) (lifetime_ms b * nanos_per_milli) (binding_limits b) (max_turns b)
       (total_model_requests b) (total_output_tokens b) now).

Definition bad_admission (p : Permit) (expected : Binding) (pr : string) (now : HostClock) : bool :=
  negb (String.eqb (api_version p) VERSION) || negb (bool_decide (binding p = expected))
  || negb (String.eqb pr (principal (binding p))) || negb (valid_boot (boot_id p))
  || negb (String.eqb (boot_id p) (hc_boot_id now))
  || negb (match checked_sub_u64 (expires_at_boottime_ms p) (issued_at_boottime_ms p) with
           | Some d => (1 <=? d) && (d <=? 300000) | None => false end)
  || (boottime_ms now <? issued_at_boottime_ms p) || (expires_at_boottime_ms p <=? boottime_ms now).

Definition validate (p : Permit) (expected : Binding) (pr : string) (now : HostClock) (t : Z) :
    result ErrorKind ParentLease :=
  _ ← ensure (negb (bad_admission p expected pr now)) InvalidData;
  lease (binding p) t.

(** A window in nanoseconds. *)
Definition issue_at (b : Binding) (window : Z) (now : HostClock) (t : Z) : result ErrorKind Permit :=
  let millis := window / nanos_per_milli in
  _ ← ensure (negb (negb ((1 <=? millis) && (millis <=? 300000))
                    || negb ((window mod nanos_per_sec) mod 1000000 =? 0))) InvalidData;
  expires ← ok_or (checked_add_u64 (boottime_ms now) millis) InvalidData;
  let p := mkPermit VERSION b (hc_boot_id now) (boottime_ms now) expires in
  _ ← validate p (binding p) (principal (binding p)) now t;
  Ok p.

(** [format!("{}.json", &hash.0[7..])]. *)
Definition hash_file (h : hash) : string :=
  (String.substring 7 (String.length h - 7) h ++ ".json")%string.

(** [File::open] of a directory and its type. *)
Definition open_operator_dir (d : string) : IO Dir :=
  _ ← sys; fs ← get_fs;
  match nodes fs !! d with
  | None => fail NotFound
  | Some NotDir => _ ← sys; fail InvalidData
  | Some (IsDir dir) => _ ← sys; mret dir
  end.

(** A temporary file written, synchronised and linked under a free name; [false]
    means that the name is taken. *)
Definition link_once (d name : string) (b : bytes) : IO bool :=
  _ ← sys; _ ← sys; _ ← sys;
  r ← catch (persist_noclobber d name b);
  match r with
  | Ok _ => mret true
  | Err AlreadyExists => mret false
  | Err e => fail e
  end.

(** [File::open(path)?.take(16385).read_to_end(..)]. *)
Definition read_bounded (d name : string) : IO bytes :=
  dir ← open_dir d;
  match files dir !! name with
  | None => fail NotFound
  | Some f => _ ← sys; mret (take_bytes 16385 (content f))
  end.

Definition ISSUANCE : string := "parent-issuance".
Definition PERMITS : string := "trusted-parent-permits".

Section permit.
Context `{Blake3} `{Json (string * string * string)} `{Json RunIssuance} `{Json Permit}.

Definition run_incarnation (sc uid : string) : result ErrorKind hash :=
  _ ← ensure (negb (str_is_empty sc || (512 <? str_len sc) || str_is_empty uid || (128 <? str_len uid)
                    || (has_control (as_bytes sc) || has_control (as_bytes uid)))) InvalidData;
  Ok (hash_of (to_vec ("celln.parent-run-incarnation/v1", sc, uid))).

Definition bad_issuance (sc uid : string) (i : hash) (b : Binding) (window : Z) (s : RunIssuance) : bool :=
  negb (String.eqb (ri_api_version s) "celln.parent-run-issuance/v1")
  || negb (String.eqb (scope s) sc) || negb (String.eqb (run_uid s) uid)
  || negb (String.eqb (intent s) i) || negb (admission_window_ms s =? window / nanos_per_milli)
  || negb (bool_decide (binding (permit s) = b))
  || negb (bool_decide (checked_sub_u64 (expires_at_boottime_ms (permit s))
                          (issued_at_boottime_ms (permit s)) = Some (admission_window_ms s))).

Definition issue_for_run_at (absolute : bool) (sc uid : string) (i : hash) (b : Binding)
    (window : Z) (now : HostClock) (t : Z) : IO Permit :=
  inc ← lift (run_incarnation sc uid);
  _ ← guard_io (negb (negb absolute || negb (valid_hash i) || negb (String.eqb (incarnation b) inc)))
        InvalidData;
  p ← lift (issue_at b window now t);
  let raw := to_vec (mkRunIssuance "celln.parent-run-issuance/v1" sc uid i (window / nanos_per_milli) p) in
  _ ← open_operator_dir ISSUANCE;
  _ ← guard_io (blen raw <=? 16384) InvalidData;
  _ ← link_once ISSUANCE (hash_file inc) raw;
  saved ← read_bounded ISSUANCE (hash_file inc);
  _ ← guard_io (blen saved <=? 16384) InvalidData;
  s ← lift (ok_or (from_slice saved) InvalidData);
  _ ← guard_io (negb (bad_issuance sc uid i b window s)) InvalidData;
  _ ← sys;
  _ ← lift (validate (permit s) b (principal b) now t);
  mret (permit s).

Definition issue_for_run (absolute : bool) (sc uid : string) (i : hash) (b : Binding)
    (window : Z) (c1 c2 : RawClock) (t1 t2 : Z) : IO Permit :=
  now1 ← lift (host_clock c1);
  p ← issue_for_run_at absolute sc uid i b window now1 t1;
  now2 ← lift (host_clock c2);
  _ ← lift (validate p (binding p) (principal (binding p)) now2 t2);
  mret p.

Definition publish_at (p : Permit) (absolute : bool) (now : HostClock) (t : Z) : IO hash :=
  _ ← lift (validate p (binding p) (principal (binding p)) now t);
  _ ← guard_io absolute InvalidData;
  _ ← open_operator_dir PERMITS;
  let raw := to_vec p in
  _ ← guard_io (blen raw <=? 16384) InvalidData;
  let h := hash_of raw in
  fresh ← link_once PERMITS (hash_file h) raw;
  _ ← (if fresh : bool then mret tt
       else existing ← read_bounded PERMITS (hash_file h);
            guard_io (bool_decide (existing = raw)) InvalidData);
  _ ← sys;
  mret h.

Definition publish (p : Permit) (absolute : bool) (c1 c2 : RawClock) (t1 t2 : Z) : IO hash :=
  now1 ← lift (host_clock c1);
  h ← publish_at p absolute now1 t1;
  now2 ← lift (host_clock c2);
  _ ← lift (validate p (binding p) (principal (binding p)) now2 t2);
  mret h.

Definition authorize (h : hash) (expected : Binding) (pr : string) (c : RawClock) (t : Z) : IO ParentLease :=
  _ ← guard_io (valid_hash h) InvalidData;
  b ← read_bounded PERMITS (hash_file h);
  _ ← guard_io (negb ((16384 <? blen b) || negb (String.eqb (hash_of b) h))) InvalidData;
  p ← lift (ok_or (from_slice b) InvalidData);
  now ← lift (host_clock c);
  lift (validate p expected pr now t).

Context `{Json ParentRecord} `{Json OwnerRecord} `{Json ProcessRecord}.

(** The durable half of [claim]: tombstone, owner, process. *)
Definition claim_journal (inc : hash) (pr : string) (proc : Proc) : IO ParentJournal :=
  j ← Journal.create inc;
  _ ← bind_owner j pr;
  _ ← bind_process j proc;
  mret j.

(** [claim], on the operator root and on its journal directory. *)
Definition claim (h : hash) (expected : Binding) (pr : string) (c : RawClock) (t : Z) (proc : Proc)
    (op : FS) (jfs : FS) : result ErrorKind (ParentLease * ParentJournal) * FS * FS :=
  match authorize h expected pr c t op with
  | (Err e, op) => (Err e, op, jfs)
  | (Ok l, op) =>
      let '(r, jfs) := claim_journal (incarnation expected) pr proc jfs in
      ((fun j => (l, j)) <$> r, op, jfs)
  end.

(** ** Histories of the operator root *)

(** A computation that never changes a record that is there. *)
Definition keeps_io {A} (m : IO A) : Prop := forall fs d name b,
  peek (nodes fs) d name = Ok b -> peek (nodes (m fs).2) d name = Ok b.

Lemma keeps_pure {A} (m : IO A) : pure_io m -> keeps_io m.
Proof. intros Hm fs d name b Hb. by rewrite Hm. Qed.

Lemma keeps_bind {A B} (m : IO A) (f : A -> IO B) :
  keeps_io m -> (forall a, keeps_io (f a)) -> keeps_io (m ≫= f).
Proof.
  intros Hm Hf fs d name b Hb. specialize (Hm fs d name b Hb). unfold mbind, IO_bind.
  destruct (m fs) as [[a|e] fs1]; cbn in *; [by apply Hf|done].
Qed.

Lemma keeps_persist d name b : keeps_io (persist_noclobber d name b).
Proof.
  intros fs d' name' b' Hb. pose proof (persist_effect d name b fs) as E.
  destruct (persist_noclobber d name b fs) as [[u|e] fs']; cbn in *; [|by rewrite E].
  apply (links_keep (nodes fs) _ (fun _ _ _ => True)); [|done]. right. by exists d, name, b.
Qed.

Lemma keeps_link_once d name b : keeps_io (link_once d name b).
Proof.
  unfold link_once. do 3 (apply keeps_bind; [apply keeps_pure, pure_sys|intros _]).
  apply keeps_bind; [|intros r; apply keeps_pure; by destruct r as [|[]]].
  intros fs d' name' b' Hb. rewrite catch_pair. by apply keeps_persist.
Qed.

Lemma pure_open_operator_dir d : pure_io (open_operator_dir d).
Proof.
  unfold open_operator_dir. apply pure_bind; [apply pure_sys|intros _].
  apply pure_bind; [apply pure_get|intros fs]. destruct (nodes fs !! d) as [[]|];
    repeat (apply pure_bind; [apply pure_sys|intros _]); done.
Qed.

Lemma pure_read_bounded d name : pure_io (read_bounded d name).
Proof.
  unfold read_bounded. apply pure_bind; [apply pure_open_dir|intros dir].
  destruct (files dir !! name); [|done]. apply pure_bind; [apply pure_sys|done].
Qed.

Ltac keeps_tac :=
  repeat first
    [ apply keeps_link_once
    | apply keeps_bind; [|intro]
    | apply keeps_pure; first [done | apply pure_sys | apply pure_open_operator_dir | apply pure_read_bounded]
    | case_match ].

Lemma keeps_issue ab sc uid i b w now t : keeps_io (issue_for_run_at ab sc uid i b w now t).
Proof. unfold issue_for_run_at. keeps_tac. Qed.

Lemma keeps_publish p ab now t : keeps_io (publish_at p ab now t).
Proof. unfold publish_at. keeps_tac. Qed.

Inductive op : Type :=
| OIssue (absolute : bool) (sc uid : string) (i : hash) (b : Binding) (window : Z) (now : HostClock) (t : Z)
| OPublish (p : Permit) (absolute : bool) (now : HostClock) (t : Z)
| OEnvironment (t : Z) (f : list bool).

Definition step (fs : FS) (o : op) : FS :=
  match o with
  | OIssue ab sc uid i b w now t => (issue_for_run_at ab sc uid i b w now t fs).2
  | OPublish p ab now t => (publish_at p ab now t fs).2
  | OEnvironment t f => mkFS (nodes fs) t f
  end.
Definition run (fs : FS) (ops : list op) : FS := foldl step fs ops.

Lemma permit_run_keeps fs ops d name b :
  peek (nodes fs) d name = Ok b -> peek (nodes (run fs ops)) d name = Ok b.
Proof.
  intros Hb. apply (foldl_inv (fun fs' => peek (nodes fs') d name = Ok b)); [|done].
  intros fs' o _ Hb'. destruct o; cbn; [by apply keeps_issue|by apply keeps_publish|done].
Qed.

(** ** What a permit grants *)

Lemma validate_Ok p e pr now t l :
  validate p e pr now t = Ok l <->
  bad_admission p e pr now = false /\ bad_binding (binding p) = false /\
  Lease.new (incarnation (binding p)) (lifetime_ms (binding p) * nanos_per_milli)
    (binding_limits (binding p)) (max_turns (binding p)) (total_model_requests (binding p))
    (total_output_tokens (binding p)) t = Ok l.
Proof.
  unfold validate, lease. split.
  - intros E. split_ok. reflect. done.
  - intros (Ha & Hb & Hl). rewrite Ha, Hb, Hl. done.
Qed.

Lemma good_admission p e pr now :
  bad_admission p e pr now = false <->
  api_version p = VERSION /\ binding p = e /\ pr = principal (binding p) /\
  valid_boot (boot_id p) = true /\ boot_id p = hc_boot_id now /\
  1 <= expires_at_boottime_ms p - issued_at_boottime_ms p <= 300000 /\
  issued_at_boottime_ms p <= boottime_ms now < expires_at_boottime_ms p.
Proof.
  unfold bad_admission, checked_sub_u64.
  destruct (Z.leb_spec (issued_at_boottime_ms p) (expires_at_boottime_ms p)); reflect;
    rewrite bool_decide_eq_true; [|lia].
  split; [intros; destruct_and?; split_and!; (done || lia)|intros; destruct_and?; split_and!; (done || lia)].
Qed.

Lemma lease_new_Ok inc life lim turns rq tok t l :
  Lease.new inc life lim turns rq tok t = Ok l ->
  l = mkParentLease inc (t + life) lim turns rq tok ∅ None false /\ 1 <= Z.of_nat turns <= 1024 /\
  model_requests lim <= rq /\ output_tokens lim <= tok /\ 0 <> timeout lim /\ 0 <> memory_bytes lim.
Proof.
  unfold Lease.new, bad_configuration. intros E. split_ok. reflect.
  autorewrite with celln in *. destruct_and?. subst. split_and!; try done; lia.
Qed.

(** C16: A permit grants exactly its binding, for its window, on its boot. A
    validation succeeds only for the bound principal and the complete expected
    binding, between issue and expiry, at most five minutes apart, on the host
    boot of the issue; the lease it yields is fresh and carries the limits of
    the binding - the memory, timeout, requests and tokens of a turn, the number of
    turns, the total requests and tokens, and the binding's own lifetime from now as
    its deadline - within the ceilings of one parent: a day, 1024 turns, 6144
    requests and 25165824 tokens. *)
Theorem permit_grants (p : Permit) (e : Binding) (pr : string) (now : HostClock) (t : Z) (l : ParentLease) :
  validate p e pr now t = Ok l ->
  binding p = e /\ pr = principal e /\ boot_id p = hc_boot_id now /\
  issued_at_boottime_ms p <= boottime_ms now < expires_at_boottime_ms p /\
  1 <= expires_at_boottime_ms p - issued_at_boottime_ms p <= 300000 /\
  valid_hash (incarnation e) = true /\ has_control (as_bytes pr) = false /\ 1 <= str_len pr <= 512 /\
  parent_memory_bytes e + child_memory_bytes e <= u64_max /\
  Lease.parent l = incarnation e /\
  Lease.limits l = mkTurnLimits (child_memory_bytes e) (turn_timeout_ms e * nanos_per_milli) (turn_model_requests e) (turn_output_tokens e) /\
  deadline l = t + lifetime_ms e * nanos_per_milli /\ 1 <= lifetime_ms e <= 86400000 /\ turn_timeout_ms e <= lifetime_ms e /\
  turns_left l = max_turns e /\ 1 <= Z.of_nat (turns_left l) <= 1024 /\
  requests_left l = total_model_requests e /\ requests_left l <= 6144 /\
  tokens_left l = total_output_tokens e /\ tokens_left l <= 25165824 /\
  seen l = ∅ /\ active l = None /\ stopped l = false.
Proof.
  intros E. apply validate_Ok in E as (Ha & Hb & Hl). apply good_admission in Ha.
  destruct Ha as (_ & <- & -> & _ & Hboot & Hw & Hnow).
  apply lease_new_Ok in Hl as (-> & Ht & _).
  unfold bad_binding in Hb. reflect. destruct_and?.
  match goal with H : is_Some_b (checked_add_u64 _ _) = true |- _ => rename H into Hmem end.
  unfold checked_add_u64 in Hmem. destruct (Z.leb_spec (parent_memory_bytes (binding p) + child_memory_bytes (binding p)) u64_max); [|done].
  assert (Hs : principal (binding p) <> "") by (by rewrite <- str_is_empty_true; destruct (str_is_empty _)).
  cbn. unfold MAX_TOTAL_OUTPUT_TOKENS, MAX_TOTAL_MODEL_REQUESTS, MAX_TURNS, MAX_TURN_MODEL_REQUESTS,
    MAX_REQUEST_OUTPUT_TOKENS, nanos_per_milli, nanos_per_sec in *.
  split_and!; try done; try lia.
  - unfold str_len. destruct (principal (binding p)); [done|]. cbn. lia.
Qed.

(** The admission window of an issued permit is exact. A permit issued now for
    a window of whole milliseconds validates, for its own binding and principal,
    at every later reading of the same boot's clock before the window has
    passed, and at no other reading: not before, not from the end of the window
    on, not after a reboot. *)
Theorem permit_window (b : Binding) (window : Z) (now : HostClock) (t : Z) (p : Permit) :
  issue_at b window now t = Ok p ->
  binding p = b /\ 1 <= window / nanos_per_milli <= 300000 /\
  forall now' t', t' + lifetime_ms b * nanos_per_milli < instant_limit ->
    is_ok (validate p b (principal b) now' t') =
      String.eqb (hc_boot_id now') (hc_boot_id now)
      && (boottime_ms now <=? boottime_ms now')
      && (boottime_ms now' <? boottime_ms now + window / nanos_per_milli).
Proof.
  unfold issue_at. intros E. split_ok. autorewrite with celln in *. reflect. destruct_and?. subst.
  match goal with H : validate _ _ _ _ _ = Ok _ |- _ => rename H into Hv end.
  cbn in Hv. split; [done|]. split; [lia|]. intros now' t' Ht'.
  apply validate_Ok in Hv as (Ha & Hb & Hl). apply good_admission in Ha. cbn in *.
  apply eq_iff_eq_true. rewrite is_ok_Ok. reflect. split.
  - intros [l Hv]. apply validate_Ok in Hv as (Ha' & _). apply good_admission in Ha'. cbn in *.
    destruct_and?. split_and!; [congruence|lia|lia].
  - intros ((Hboot & H1') & H2').
    eexists. apply validate_Ok. split_and!.
    + apply good_admission. cbn. destruct_and?. split_and!; (done || congruence || lia).
    + done.
    + cbn. unfold Lease.new in *. cbn. split_ok.
      unfold instant_checked_add. rewrite (proj2 (Z.ltb_lt _ _)) by done. cbn.
      match goal with H : negb (bad_configuration _ _ _ _ _) = true |- _ => rewrite H end. done.
Qed.

(** ** Publication and use *)

Lemma read_bounded_Ok d name fs b fs' :
  read_bounded d name fs = (Ok b, fs') ->
  nodes fs' = nodes fs /\ exists c, peek (nodes fs) d name = Ok c /\ b = take_bytes 16385 c.
Proof.
  intros E. pose proof (pure_read_bounded d name fs) as P. rewrite E in P. split; [done|].
  unfold read_bounded in E. apply bind_Ok in E as (dir & fs1 & E1 & E).
  apply open_dir_Ok in E1 as [Hd _]. unfold peek. rewrite Hd.
  destruct (files dir !! name) as [f|]; [|done].
  apply bind_Ok in E as (u & fs2 & _ & [= <- _]). eauto.
Qed.

Lemma read_bounded_whole d name fs b fs' :
  read_bounded d name fs = (Ok b, fs') -> blen b <= 16384 -> peek (nodes fs) d name = Ok b.
Proof.
  intros E Hl. apply read_bounded_Ok in E as (_ & c & Hc & ->).
  rewrite take_bytes_le in Hl by lia. by rewrite take_bytes_all by lia.
Qed.

Lemma read_bounded_now d name n c b :
  peek n d name = Ok b -> blen b <= 16385 -> read_bounded d name (mkFS n c []) = (Ok b, mkFS n c []).
Proof.
  intros Hp Hl. unfold peek in Hp. unfold read_bounded, open_dir, mbind, IO_bind, get_fs. cbn.
  destruct (n !! d) as [[dir|]|]; try done. cbn.
  destruct (files dir !! name) as [f|]; [|done]. injection Hp as ->. cbn. by rewrite take_bytes_all.
Qed.

Lemma link_once_Ok d name b fs fresh fs' :
  link_once d name b fs = (Ok fresh, fs') ->
  if fresh then peek (nodes fs') d name = Ok b else nodes fs' = nodes fs.
Proof.
  unfold link_once. intros E. apply bind_Ok in E as (u1 & fs1 & E1 & E).
  apply bind_Ok in E as (u2 & fs2 & E2 & E). apply bind_Ok in E as (u3 & fs3 & E3 & E).
  pose proof (pure_sys fs) as P1. rewrite E1 in P1. pose proof (pure_sys fs1) as P2. rewrite E2 in P2.
  pose proof (pure_sys fs2) as P3. rewrite E3 in P3. cbn in *.
  apply bind_Ok in E as (r & fs4 & E4 & E). rewrite catch_pair in E4. injection E4 as E4 E5.
  pose proof (persist_effect d name b fs3) as Pe. destruct (persist_noclobber d name b fs3) as [rr fs5].
  cbn in *. subst rr fs5. destruct r as [u|[]]; try done; injection E as <- <-; cbn in Pe.
  - rewrite (peek_added _ _ _ _ _ _ _ Pe). by rewrite decide_True.
  - congruence.
Qed.

Lemma bind_pure_Ok {A B} (m : IO A) (f : A -> IO B) fs b fs' :
  pure_io m -> (m ≫= f) fs = (Ok b, fs') ->
  exists a fs1, m fs = (Ok a, fs1) /\ nodes fs1 = nodes fs /\ f a fs1 = (Ok b, fs').
Proof.
  intros Hm E. apply bind_Ok in E as (a & fs1 & E1 & E). pose proof (Hm fs) as P. rewrite E1 in P. eauto.
Qed.

Lemma publish_at_Ok p ab now t fs h fs' :
  publish_at p ab now t fs = (Ok h, fs') ->
  h = hash_of (to_vec p) /\ blen (to_vec p) <= 16384 /\
  is_ok (validate p (binding p) (principal (binding p)) now t) = true /\
  peek (nodes fs') PERMITS (hash_file h) = Ok (to_vec p).
Proof.
  unfold publish_at. intros E.
  apply bind_pure_Ok in E as (l & fs1 & [= Hv <-] & _ & E); [|done].
  apply bind_pure_Ok in E as (u & fs1 & [= _ <-] & _ & E); [|done].
  apply bind_pure_Ok in E as (d & fs1 & _ & _ & E); [|apply pure_open_operator_dir].
  apply bind_pure_Ok in E as (u2 & fs2 & [= Hl <-] & _ & E); [|done]. apply ensure_Ok in Hl. reflect.
  apply bind_Ok in E as (fresh & fs3 & E3 & E). apply link_once_Ok in E3.
  apply bind_Ok in E as (u4 & fs4 & E4 & E).
  apply bind_pure_Ok in E as (u5 & fs5 & _ & P5 & [= <- <-]); [|apply pure_sys].
  split_and!; [done|done|by rewrite Hv|]. rewrite P5. destruct fresh.
  - by injection E4 as _ <-.
  - apply bind_Ok in E4 as (ex & fs6 & E6 & E4). injection E4 as Hb E4. apply ensure_Ok in Hb.
    apply bool_decide_eq_true in Hb. subst ex fs6.
    pose proof (read_bounded_whole _ _ _ _ _ E6 Hl) as Hp. apply read_bounded_Ok in E6 as [-> _]. done.
Qed.

Lemma hash_of_valid b : valid_hash (hash_of b) = true.
Proof. unfold valid_hash, hash_of. rewrite strip_prefix_app. apply blake3_hex_wf. Qed.

(** Only what was published is authorised, and it is. After the publication
    of a permit under its hash, and whatever is issued or published later: an
    authorisation under that hash, with any system calls failing, is granted
    only for the binding and principal of that permit, within its window and
    boot; and with working system calls it is granted throughout the window. *)
Theorem authorize_exact (p : Permit) (absolute : bool) (now : HostClock) (t : Z) (fs fs1 : FS)
    (h : hash) (later : list op) :
  publish_at p absolute now t fs = (Ok h, fs1) ->
  (forall e pr c t' f l fs2,
     authorize h e pr c t' (mkFS (nodes (run fs1 later)) 0 f) = (Ok l, fs2) ->
     exists now', host_clock c = Ok now' /\ e = binding p /\ pr = principal (binding p) /\
       hc_boot_id now' = boot_id p /\
       issued_at_boottime_ms p <= boottime_ms now' < expires_at_boottime_ms p) /\
  (forall c t' now',
     host_clock c = Ok now' -> hc_boot_id now' = boot_id p ->
     issued_at_boottime_ms p <= boottime_ms now' < expires_at_boottime_ms p ->
     t' + lifetime_ms (binding p) * nanos_per_milli < instant_limit ->
     is_ok (authorize h (binding p) (principal (binding p)) c t' (mkFS (nodes (run fs1 later)) 0 [])).1 = true).
Proof.
  intros E. apply publish_at_Ok in E as (-> & Hl & Hv & Hp).
  apply (permit_run_keeps _ later) in Hp. split.
  - intros e pr c t' f l fs2 E. unfold authorize in E.
    apply bind_pure_Ok in E as (u & fs3 & [= _ <-] & _ & E); [|done].
    apply bind_Ok in E as (b & fs4 & E4 & E). apply bind_Ok in E as (u2 & fs5 & [= Hg <-] & E).
    apply ensure_Ok in Hg. reflect. destruct Hg as [Hb _].
    pose proof (read_bounded_whole _ _ _ _ _ E4 Hb) as Hb'. cbn in Hb'.
    assert (b = to_vec p) as -> by congruence.
    apply bind_Ok in E as (p' & fs6 & [= Hp' <-] & E). apply ok_or_Ok in Hp'. rewrite from_to in Hp'.
    injection Hp' as <-. apply bind_Ok in E as (now' & fs7 & [= Hc <-] & [= E _]).
    exists now'. split; [done|]. apply validate_Ok in E as (Ha & _). apply good_admission in Ha.
    destruct_and?. subst. split_and!; (done || lia).
  - intros c t' now' Hc Hboot Hw Ht'. unfold authorize, mbind, IO_bind, guard_io, lift.
    rewrite hash_of_valid. cbn. erewrite read_bounded_now by (done || lia). cbn.
    rewrite (proj2 (Z.ltb_ge _ _)) by lia. rewrite String.eqb_refl. cbn. rewrite from_to. cbn.
    rewrite Hc. cbn. apply is_ok_Ok in Hv as [l Hv]. apply validate_Ok in Hv as (Ha & Hb & Hn).
    apply is_ok_Ok. eexists. apply validate_Ok. split_and!; [|done|].
    + apply good_admission in Ha. apply good_admission. destruct_and?. split_and!; (done || congruence || lia).
    + unfold Lease.new in *. split_ok. unfold instant_checked_add.
      rewrite (proj2 (Z.ltb_lt _ _)) by done. cbn.
      match goal with H : negb (bad_configuration _ _ _ _ _) = true |- _ => rewrite H end. done.
Qed.

Lemma issue_for_run_Ok ab sc uid i b w now t fs p fs' :
  issue_for_run_at ab sc uid i b w now t fs = (Ok p, fs') ->
  exists inc raw s,
    run_incarnation sc uid = Ok inc /\ incarnation b = inc /\
    peek (nodes fs') ISSUANCE (hash_file inc) = Ok raw /\ blen raw <= 16384 /\
    from_slice raw = Some s /\ permit s = p /\ bad_issuance sc uid i b w s = false /\
    is_ok (validate p b (principal b) now t) = true.
Proof.
  unfold issue_for_run_at. intros E.
  apply bind_pure_Ok in E as (inc & fs1 & [= Hi <-] & _ & E); [|done].
  apply bind_pure_Ok in E as (u & fs1 & [= Hg <-] & _ & E); [|done]. apply ensure_Ok in Hg. reflect.
  apply bind_pure_Ok in E as (p0 & fs1 & [= _ <-] & _ & E); [|done].
  apply bind_pure_Ok in E as (d & fs1 & _ & _ & E); [|apply pure_open_operator_dir].
  apply bind_pure_Ok in E as (u2 & fs2 & [= _ <-] & _ & E); [|done].
  apply bind_Ok in E as (fresh & fs3 & _ & E).
  apply bind_Ok in E as (saved & fs4 & E4 & E).
  apply bind_pure_Ok in E as (u5 & fs5 & [= Hl <-] & _ & E); [|done]. apply ensure_Ok in Hl. reflect.
  pose proof (read_bounded_whole _ _ _ _ _ E4 Hl) as Hp. apply read_bounded_Ok in E4 as [P4 _].
  apply bind_pure_Ok in E as (s & fs6 & [= Hs <-] & _ & E); [|done]. apply ok_or_Ok in Hs.
  apply bind_pure_Ok in E as (u7 & fs7 & [= Hb <-] & _ & E); [|done]. apply ensure_Ok in Hb. reflect.
  apply bind_pure_Ok in E as (u8 & fs8 & _ & P8 & E); [|apply pure_sys].
  apply bind_pure_Ok in E as (l & fs9 & [= Hv <-] & _ & [= <- <-]); [|done].
  exists inc, saved, s. rewrite P8, P4. split_and!; try done; [tauto|]. by rewrite Hv.
Qed.

(** A run is issued one permit, once. After an issuance for a run has
    returned a permit, every later issuance for that run, by any issuer and with
    any clock, either fails or returns that very permit with its original
    timestamps, and only for the same intent, binding and window: it is never
    renewed, replaced or re-bound. *)
Theorem run_issuance_pinned (ab ab2 : bool) (sc uid : string) (i i2 : hash) (b b2 : Binding) (w w2 : Z)
    (now now2 : HostClock) (t t2 : Z) (fs fs1 fs2 : FS) (p p2 : Permit) (later : list op) (c : Z) (f : list bool) :
  issue_for_run_at ab sc uid i b w now t fs = (Ok p, fs1) ->
  issue_for_run_at ab2 sc uid i2 b2 w2 now2 t2 (mkFS (nodes (run fs1 later)) c f) = (Ok p2, fs2) ->
  p2 = p /\ i2 = i /\ b2 = b /\ w2 / nanos_per_milli = w / nanos_per_milli /\ binding p = b /\
  issued_at_boottime_ms p <= boottime_ms now2 < expires_at_boottime_ms p.
Proof.
  intros E1 E2.
  pose proof (keeps_issue ab2 sc uid i2 b2 w2 now2 t2 (mkFS (nodes (run fs1 later)) c f)) as Hk. rewrite E2 in Hk.
  apply issue_for_run_Ok in E1 as (inc & raw & s & Hi & _ & Hp & _ & Hs & Hps & Hb & Hv).
  apply issue_for_run_Ok in E2 as (inc2 & raw2 & s2 & Hi2 & _ & Hp2 & _ & Hs2 & Hps2 & Hb2 & Hv2).
  assert (inc2 = inc) as -> by congruence.
  apply (permit_run_keeps _ later), Hk in Hp.
  cbn in Hp. assert (raw2 = raw) as -> by congruence. assert (s2 = s) as -> by congruence.
  unfold bad_issuance in Hb, Hb2. reflect. rewrite !bool_decide_eq_true in *. destruct_and?.
  apply is_ok_Ok in Hv2 as [l Hv2]. apply validate_Ok in Hv2 as (Ha & _). apply good_admission in Ha.
  destruct_and?. split_and!; (congruence || lia).
Qed.

Section claims.
Context `{Json TurnRequest} `{Json (string * string)} `{Json Reservation}.
Context `{Json DestroyedRecord} `{Json CommittedRecord} `{Json Value}.

(** Whatever an attempt came to, a directory it made is the tombstone. *)
Lemma claim_journal_taken inc pr proc jfs :
  let '(r, jfs1) := claim_journal inc pr proc jfs in
  is_ok r = true \/ nodes jfs1 <> nodes jfs -> nodes jfs1 !! parent_directory inc <> None.
Proof.
  unfold claim_journal, mbind, IO_bind. pose proof (create_effect jfs inc) as He.
  destruct (Journal.create inc jfs) as [[j|er] jfs2] eqn:Ec; cbn in He.
  - apply create_Ok in Ec as (_ & -> & [dir Hd] & _). set (j := mkJournal _ _ _).
    assert (Hx2 : nodes (bind_owner j pr jfs2).2 !! parent_directory inc <> None).
    { apply (effect_taken (nodes jfs2) _ (OBindOwner j pr)); [exact (step_effect jfs2 (OBindOwner j pr))|congruence]. }
    destruct (bind_owner j pr jfs2) as [[u|er] jfs3]; cbn in *; [|done].
    assert (Hx3 : nodes (bind_process j proc jfs3).2 !! parent_directory inc <> None).
    { apply (effect_taken (nodes jfs3) _ (OBindProcess j proc)); [exact (step_effect jfs3 (OBindProcess j proc))|done]. }
    destruct (bind_process j proc jfs3) as [[u1|er] jfs4]; cbn in *; done.
  - intros [?|Hor]; [done|]. destruct He as [HL|(p & n1 & Ho & Hm & HL)].
    + destruct HL as [?|(d & name & b & [Hml _] & (dir & t' & Hd & _))]; [done|].
      cbn in Hml. destruct_and?. congruence.
    + destruct Ho as [[= <-]|[? ?]]; [|done]. eapply links_taken; [exact HL|].
      destruct (made_is _ _ _ Hm) as [t' Ht']. by rewrite Ht'.
Qed.

(** An incarnation is claimed at most once. After a claim has succeeded, in
    any later state of the journal directory that any number of processes can
    bring about, no claim of the same incarnation succeeds, under any permit,
    binding or principal; a failed claim that got as far as the tombstone counts
    as the one attempt. *)
Theorem claim_once (h h2 : hash) (e e2 : Binding) (pr pr2 : string) (c c2 : RawClock) (t t2 : Z) (proc proc2 : Proc)
    (op1 op2 op3 jfs jfs1 : FS) (r : result ErrorKind (ParentLease * ParentJournal))
    (later : list Journal.op) :
  claim h e pr c t proc op1 jfs = (r, op2, jfs1) ->
  is_ok r = true \/ nodes jfs1 <> nodes jfs ->
  incarnation e2 = incarnation e ->
  is_err (claim h2 e2 pr2 c2 t2 proc2 op3 (Journal.run jfs1 later)).1.1 = true.
Proof.
  intros E Hor Hinc. unfold claim in E.
  assert (Htaken : nodes jfs1 !! parent_directory (incarnation e) <> None).
  { destruct (authorize h e pr c t op1) as [[l|er] op4]; [|injection E as <- _ <-; by destruct Hor].
    pose proof (claim_journal_taken (incarnation e) pr proc jfs) as Ht.
    destruct (claim_journal _ _ _ jfs) as [rj jfs']. injection E as <- _ <-. apply Ht.
    destruct Hor as [Hor|Hor]; [left|by right]. by destruct rj. }
  assert (Hrun : nodes (Journal.run jfs1 later) !! parent_directory (incarnation e) <> None).
  { apply (foldl_inv (fun fs' => nodes fs' !! parent_directory (incarnation e) <> None)); [|done].
    intros fs' o _. apply (effect_taken _ _ o), step_effect. }
  unfold claim. destruct (authorize h2 e2 pr2 c2 t2 op3) as [[l|er] op4]; [|done].
  rewrite Hinc. pose proof (create_taken _ _ Hrun) as [Hc _].
  unfold claim_journal, mbind, IO_bind. destruct (Journal.create _ _) as [[j|er] jfs3]; done.
Qed.
End claims.
End permit.
