(* ===== verification/Ratchet.v ===== *)
(** * The authority ratchet and the cell
    ([crates/celln-warden/src/ratchet.rs], [lib.rs], [vmm.rs])

    A cell's phase only advances, and with it the verbs it may use only shrink.
    The virtual machine is behind an interface, the [Vmm] trait; what the cell
    relies on about mapped pages is a second class, which [MockVmm] implements. *)

From S2P Require Import Prelude Manifest.

Inductive Phase : Type := Materialise | Work | Dissolve.
Inductive Verb : Type := VMaterialise | VHostFetch | VExec | VReadWorkspace.

#[export] Instance Phase_eq_dec : EqDecision Phase.
Proof. solve_decision. Defined.
#[export] Instance Verb_eq_dec : EqDecision Verb.
Proof. solve_decision. Defined.

(** [Ratchet] is its phase. *)
Definition Ratchet : Type := Phase.
Definition new_ratchet : Ratchet := Materialise.

Definition advance_to_work (r : Ratchet) : Ratchet :=
  if bool_decide (r = Materialise) then Work else r.
Definition advance_to_dissolve (r : Ratchet) : Ratchet := Dissolve.

Definition check (r : Ratchet) (v : Verb) : result Phase unit :=
  let allowed :=
    match r, v with
    | Materialise, _ => true
    | Work, VMaterialise => false
    | Work, _ => true
    | Dissolve, VReadWorkspace => true
    | Dissolve, _ => false
    end in
  if allowed then Ok tt else Err r.

(** [PartialOrd] of [Phase]. *)
Definition phase_rank (p : Phase) : nat := match p with Materialise => 0 | Work => 1 | Dissolve => 2 end.

(** ** The virtual machine *)

Inductive VmmError : Type := VUnsupported (s : string) | VBackend (s : string).

(** The [Vmm] trait. *)
Class Vmm (V : Type) := {
  fork_from_snapshot : V -> string -> result VmmError unit * V;
  map_pages_ro_exec : V -> hash -> bytes -> result VmmError unit * V;
  unmap : V -> hash -> result VmmError unit * V;
  freeze_readonly : V -> result VmmError unit * V;
}.

(** What is mapped executable, and what each operation may do to it. *)
Class VmmMapped (V : Type) `{Vmm V} := {
  mapped_set : V -> gset string;
  map_adds : forall v h b, mapped_set (map_pages_ro_exec v h b).2 ⊆ {[h]} ∪ mapped_set v;
  unmap_removes : forall v h, mapped_set (unmap v h).2 ⊆ mapped_set v;
  unmap_Ok : forall v h, is_ok (unmap v h).1 = true -> h ∉ mapped_set (unmap v h).2;
  freeze_adds : forall v, mapped_set (freeze_readonly v).2 ⊆ mapped_set v;
}.

(** [MockVmm]. *)
Record MockVmm : Type := mkMock {
  snapshot : option string;
  mapped : list hash;
  frozen : bool;
}.

Definition mock_new : MockVmm := mkMock None [] false.
Definition is_mapped (v : MockVmm) (h : hash) : bool := bool_decide (h ∈ mapped v).

Definition mock_fork (v : MockVmm) (s : string) : result VmmError unit * MockVmm :=
  (Ok tt, mkMock (Some s) (mapped v) (frozen v)).
Definition mock_map (v : MockVmm) (h : hash) (b : bytes) : result VmmError unit * MockVmm :=
  (Ok tt, if bool_decide (h ∈ mapped v) then v else mkMock (snapshot v) (mapped v ++ [h]) (frozen v)).
Definition mock_unmap (v : MockVmm) (h : hash) : result VmmError unit * MockVmm :=
  (Ok tt, mkMock (snapshot v) (filter (fun x => x <> h) (mapped v)) (frozen v)).
Definition mock_freeze (v : MockVmm) : result VmmError unit * MockVmm :=
  (Ok tt, mkMock (snapshot v) (mapped v) true).

#[export] Instance mock_vmm : Vmm MockVmm := {|
  fork_from_snapshot := mock_fork;
  map_pages_ro_exec := mock_map;
  unmap := mock_unmap;
  freeze_readonly := mock_freeze;
|}.

#[export] Instance mock_mapped : VmmMapped MockVmm.
Proof.
  refine {| mapped_set := fun v => list_to_set (mapped v) |}.
  - intros v h b. cbn. destruct (bool_decide_reflect (h ∈ mapped v)); cbn; set_solver.
  - intros v h. cbn. intros x. rewrite !elem_of_list_to_set, list_elem_of_filter. tauto.
  - intros v h _. cbn. rewrite elem_of_list_to_set, list_elem_of_filter. tauto.
  - done.
Defined.

(** ** The cell *)

Record Cell (V : Type) : Type := mkCell {
  id : string;
  vmm : V;
  ratchet : Ratchet;
}.
Arguments mkCell {V}.
Arguments id {V}.
Arguments vmm {V}.
Arguments ratchet {V}.

Inductive CellError : Type :=
| CVmm (e : VmmError)
| VerbDenied (v : Verb) (p : Phase).

Section cell.
Context {V : Type} `{Vmm V}.

Definition seal (i : string) (v : V) (mote : string) : result CellError (Cell V) :=
  let '(r, v) := fork_from_snapshot v mote in
  match r with Ok _ => Ok (mkCell i v new_ratchet) | Err e => Err (CVmm e) end.

Definition map_tool (c : Cell V) (h : hash) (b : bytes) : result CellError unit * Cell V :=
  match check (ratchet c) VMaterialise with
  | Err p => (Err (VerbDenied VMaterialise p), c)
  | Ok _ =>
      let '(r, v) := map_pages_ro_exec (vmm c) h b in
      (map_err CVmm r, mkCell (id c) v (ratchet c))
  end.

Definition revoke_tool (c : Cell V) (h : hash) : result CellError unit * Cell V :=
  let '(r, v) := unmap (vmm c) h in (map_err CVmm r, mkCell (id c) v (ratchet c)).

Definition on_first_tainted_exec (c : Cell V) : Cell V := mkCell (id c) (vmm c) (advance_to_work (ratchet c)).

(** The phase advances even when the backend fails to freeze. *)
Definition dissolve (c : Cell V) : result CellError unit * Cell V :=
  let r := advance_to_dissolve (ratchet c) in
  let '(e, v) := freeze_readonly (vmm c) in (map_err CVmm e, mkCell (id c) v r).

Inductive op : Type :=
| OMap (h : hash) (b : bytes)
| ORevoke (h : hash)
| OTainted
| ODissolve.

Definition step (c : Cell V) (o : op) : Cell V :=
  match o with
  | OMap h b => (map_tool c h b).2
  | ORevoke h => (revoke_tool c h).2
  | OTainted => on_first_tainted_exec c
  | ODissolve => (dissolve c).2
  end.
Definition run (c : Cell V) (ops : list op) : Cell V := foldl step c ops.

Lemma advance_work_rank r : (phase_rank r <= phase_rank (advance_to_work r))%nat.
Proof. destruct r; vm_compute; lia. Qed.

Lemma step_rank c o : (phase_rank (ratchet c) <= phase_rank (ratchet (step c o)))%nat.
Proof.
  destruct o; cbn.
  - unfold map_tool. destruct (check _ _); [|done]. by destruct (map_pages_ro_exec _ _ _).
  - unfold revoke_tool. by destruct (unmap _ _).
  - apply advance_work_rank.
  - unfold dissolve. destruct (freeze_readonly _). cbn. destruct (ratchet c); cbn; lia.
Qed.

(** The ratchet. Along any history of a cell its phase never goes back, and no
    verb that has been denied is allowed again; the first tainted execution
    closes materialisation for good, and dissolving leaves only reading. *)
Theorem ratchet_monotone (c : Cell V) (ops : list op) (v : Verb) :
  (phase_rank (ratchet c) <= phase_rank (ratchet (run c ops)))%nat /\
  (is_err (check (ratchet c) v) = true -> is_err (check (ratchet (run c ops)) v) = true) /\
  is_err (check (ratchet (run (on_first_tainted_exec c) ops)) VMaterialise) = true /\
  (v <> VReadWorkspace -> is_err (check (ratchet (run (dissolve c).2 ops)) v) = true).
Proof.
  assert (Hm : forall c, (phase_rank (ratchet c) <= phase_rank (ratchet (run c ops)))%nat).
  { intros c0. unfold run. apply (foldl_rel (fun a b : Cell V => (phase_rank (ratchet a) <= phase_rank (ratchet b))%nat));
      [done|intros; lia|apply step_rank]. }
  assert (Hc : forall p q w, (phase_rank p <= phase_rank q)%nat -> is_err (check p w) = true ->
    is_err (check q w) = true) by (intros [] [] []; cbn; lia || done).
  split_and!.
  - apply Hm.
  - apply Hc, Hm.
  - eapply Hc; [apply Hm|]. cbn. by destruct (ratchet c).
  - intros Hv. eapply Hc; [apply Hm|]. unfold dissolve. destruct (freeze_readonly _). by destruct v.
Qed.

Context `{!VmmMapped V}.

(** Loaned authority only shrinks after the first tainted execution. From then
    on, whatever is asked of the cell, nothing becomes mapped that was not mapped
    before, every attempt to map a tool is refused without touching the machine,
    and a tool whose revocation succeeds is mapped no more, in any phase. *)
Theorem mapped_shrinks (c : Cell V) (ops : list op) (h : hash) (b : bytes) :
  ratchet c <> Materialise ->
  let c' := run c ops in
  mapped_set (vmm c') ⊆ mapped_set (vmm c) /\
  map_tool c' h b = (Err (VerbDenied VMaterialise (ratchet c')), c') /\
  (is_ok (revoke_tool c' h).1 = true -> forall later, h ∉ mapped_set (vmm (run (revoke_tool c' h).2 later))).
Proof.
  intros Hp. cbn zeta.
  assert (Hstep : forall c o, ratchet c <> Materialise ->
    ratchet (step c o) <> Materialise /\ mapped_set (vmm (step c o)) ⊆ mapped_set (vmm c)).
  { intros c0 o H0. split.
    - pose proof (step_rank c0 o) as Hr. intros E. rewrite E in Hr. destruct (ratchet c0); cbn in Hr; [done|lia|lia].
    - destruct o; cbn.
      + unfold map_tool. by destruct (ratchet c0).
      + unfold revoke_tool. pose proof (unmap_removes (vmm c0) h0) as Hu. destruct (unmap (vmm c0) h0). exact Hu.
      + done.
      + unfold dissolve. pose proof (freeze_adds (vmm c0)) as Hf. destruct (freeze_readonly (vmm c0)). exact Hf. }
  assert (Hrun : forall c ops, ratchet c <> Materialise ->
    ratchet (run c ops) <> Materialise /\ mapped_set (vmm (run c ops)) ⊆ mapped_set (vmm c)).
  { intros c0 l H0. unfold run.
    apply (foldl_inv (fun x : Cell V => ratchet x <> Materialise /\ mapped_set (vmm x) ⊆ mapped_set (vmm c0))); [|done].
    intros x o _ [H1' H2']. destruct (Hstep x o H1') as [H3 H4]. split; [done|by transitivity (mapped_set (vmm x))]. }
  destruct (Hrun c ops Hp) as [Hp' Hs]. split_and!; [done| |].
  - unfold map_tool. by destruct (ratchet (run c ops)).
  - intros Hok later.
    assert (Hr : ratchet (revoke_tool (run c ops) h).2 <> Materialise /\ h ∉ mapped_set (vmm (revoke_tool (run c ops) h).2)).
    { unfold revoke_tool in *. pose proof (unmap_Ok (vmm (run c ops)) h) as Hu.
      destruct (unmap (vmm (run c ops)) h) as [r v]. cbn in *. split; [done|]. apply Hu. by destruct r. }
    destruct Hr as [Hr1 Hr2]. destruct (Hrun _ later Hr1) as [_ Hs']. intros Hin. by apply Hr2, Hs'.
Qed.
End cell.

Definition toy_cell : Cell MockVmm := mkCell "cell" mock_new new_ratchet.
Definition toy_working : Cell MockVmm := on_first_tainted_exec (map_tool toy_cell "h" []).2.

Lemma toy_working_phase : ratchet toy_working <> Materialise.
Proof. vm_compute. discriminate. Qed.

Lemma mapped_shrinks_witness :
  mapped_set (vmm (run toy_working [OMap "g" []; ORevoke "h"])) ⊆ mapped_set (vmm toy_working) /\
  mapped (vmm (run toy_working [OMap "g" []; ORevoke "h"])) = [].
Proof.
  split; [|vm_compute; reflexivity].
  exact (proj1 (mapped_shrinks toy_working [OMap "g" []; ORevoke "h"] "h" [] toy_working_phase)).
Defined.

Lemma ratchet_monotone_witness :
  is_err (check (ratchet (run (on_first_tainted_exec toy_cell) [OMap "g" []])) VMaterialise) = true.
Proof. exact (proj1 (proj2 (proj2 (ratchet_monotone toy_cell [OMap "g" []] VExec)))). Defined.
