(* ===== verification/Closure.v ===== *)
(** * Signed dependency closures
    ([crates/celln-manifest/src/closure.rs], [composition.rs])

    A closure names every code file that may run, its dependency edges, and one
    entrypoint; a v2 closure is composed from signed v1 closures. Validation,
    verification, parsing of sources and composition call one another, so they
    are one recursion on a depth; four levels are enough ([verify_depth]). *)

From S2P Require Import Prelude Manifest.

Record Member : Type := mkMember { m_hash : string; dependencies : gset string }.

#[export] Instance Member_eq_dec : EqDecision Member.
Proof. solve_decision. Defined.

Record Source : Type := mkSource { s_hash : string; descriptor : string }.

#[export] Instance Source_eq_dec : EqDecision Source.
Proof. solve_decision. Defined.

Record Closure : Type := mkClosure {
  api_version : string;
  toolfs : string;
  entrypoint : string;
  interpreter : bool;
  members : gmap string Member;
  sources : list Source;
}.

#[export] Instance Closure_eq_dec : EqDecision Closure.
Proof. solve_decision. Defined.

Record SignedClosure : Type := mkSigned {
  closure : Closure;
  publisher : string;
  sig : string;
}.

#[export] Instance SignedClosure_eq_dec : EqDecision SignedClosure.
Proof. solve_decision. Defined.

(** ** Encodings *)

Definition hash_text (v : string) : bool :=
  match strip_prefix "blake3:" v with Some s => is_hex64 s | None => false end.

(** [s.split('/')]. *)
Fixpoint split_slash (b : bytes) : list bytes :=
  match b with
  | [] => [[]]
  | x :: r =>
      if bool_decide (x = x2f) then [] :: split_slash r
      else match split_slash r with w :: ws => (x :: w) :: ws | [] => [[x]] end
  end.

Definition path_byte (b : byte) : bool := is_alnum b || bool_decide (b ∈ [x2d; x5f; x2e; x2b]).
Definition path_part (p : bytes) : bool :=
  negb (bool_decide (p = [])) && negb (bool_decide (p = [x2e])) && negb (bool_decide (p = [x2e; x2e]))
  && forallb path_byte p.

Definition canonical_path (path : string) : bool :=
  starts_with "/" path && (str_len path <=? 1024)
  && forallb path_part (split_slash (tail (as_bytes path))).

(** [format!("{b:02x}")] for every byte. *)
Definition hex_char (d : Z) : byte :=
  from_option id x30 (Byte.of_N (Z.to_N (if d <? 10 then 48 + d else 87 + d))).
Definition hex_byte (b : byte) : bytes := [hex_char (byte_val b / 16); hex_char (byte_val b mod 16)].
Definition hex_bytes (b : bytes) : bytes := flat_map hex_byte b.
Definition hex (b : bytes) : string := from_utf8 (hex_bytes b).

(** [u8::from_str_radix(two digits, 16)], after the digits have been checked. *)
Definition digit_of (c : byte) : Z := if is_digit c then byte_val c - 48 else byte_val c - 87.
Fixpoint unhex (b : bytes) : bytes :=
  match b with
  | h :: l :: r => from_option id x00 (Byte.of_N (Z.to_N (digit_of h * 16 + digit_of l))) :: unhex r
  | _ => []
  end.

Definition decode (n : Z) (v : string) : result string bytes :=
  if negb (str_len v =? n * 2) || negb (all_bytes is_lower_hex v)
  then Err "invalid closure key/signature encoding"
  else Ok (unhex (as_bytes v)).

(** ** Graphs *)

(** The loop over [pending]: the last element is popped. *)
Fixpoint reach (fuel : nat) (m : gmap string Member) (seen : gset string) (pending : list string) :
    option (gset string) :=
  match fuel with
  | O => None
  | S n =>
      match last pending with
      | None => Some seen
      | Some path =>
          let rest := removelast pending in
          if bool_decide (path ∈ seen) then reach n m seen rest
          else reach n m ({[path]} ∪ seen)
                 (rest ++ from_option (fun x => bset_iter (dependencies x)) [] (m !! path))
      end
  end.

(** Every pop but the last removes one pushed path, and a member's dependencies
    are pushed once. *)
Definition reach_fuel (m : gmap string Member) : nat :=
  (2 + Z.to_nat (total (fun x => Z.of_nat (size (dependencies x))) m))%nat.

(** [seen.len() == self.members.len()] after the loop. *)
Definition all_reached (m : gmap string Member) (entry : string) : bool :=
  match reach (reach_fuel m) m ∅ [entry] with
  | Some seen => Nat.eqb (size seen) (size m)
  | None => false
  end.

Definition bad_member (m : gmap string Member) (pm : string * Member) : bool :=
  negb (canonical_path pm.1) || negb (hash_text (m_hash pm.2))
  || existsb (fun d => negb (is_Some_bool (m !! d))) (bset_iter (dependencies pm.2)).

(** [path.rsplit_once('/')]: what is before. *)
Fixpoint before_last_slash (b : bytes) : option bytes :=
  match b with
  | [] => None
  | x :: r =>
      match before_last_slash r with
      | Some p => Some (x :: p)
      | None => if bool_decide (x = x2f) then Some [] else None
      end
  end.
Fixpoint parents_fuel (n : nat) (b : bytes) : list bytes :=
  match n with
  | O => []
  | S n => match before_last_slash b with Some p => p :: parents_fuel n p | None => [] end
  end.
Definition parents (path : string) : list string :=
  from_utf8 <$> parents_fuel (S (String.length path)) (as_bytes path).

(** ** Folds that may fail *)

Fixpoint foldM {E A B} (f : A -> B -> result E A) (a : A) (l : list B) : result E A :=
  match l with [] => Ok a | b :: l => a ← f a b; foldM f a l end.
Fixpoint mapM_result {E A B} (f : A -> result E B) (l : list A) : result E (list B) :=
  match l with [] => Ok [] | a :: l => b ← f a; bs ← mapM_result f l; Ok (b :: bs) end.

Definition MAX_SOURCES : Z := 25.
Definition DOMAIN : bytes := as_bytes "celln.dev/closure-v1" ++ [x00].
Definition COMPOSITION_DOMAIN : bytes := as_bytes "celln.dev/closure-v2" ++ [x00].

(** ** Lemmas on the loops *)

Section fold_lemmas.
Context {E A B : Type} (f : A -> B -> result E A).

(** What holds of the elements done so far holds of all of them at the end. *)
Lemma foldM_done (P : list B -> A -> Prop) l a a' :
  P [] a -> (forall l1 b a a', P l1 a -> f a b = Ok a' -> P (l1 ++ [b]) a') ->
  foldM f a l = Ok a' -> P l a'.
Proof.
  intros H0 Hs. cut (forall l1 a, P l1 a -> foldM f a l = Ok a' -> P (l1 ++ l) a').
  { intros Hc. by apply (Hc []). }
  clear H0. induction l as [|b l IH]; intros l1 a1 H1; cbn.
  - intros [= <-]. by rewrite app_nil_r.
  - intros Hf. apply result_bind_Ok in Hf as (a2 & Hf & Hl).
    rewrite cons_middle, app_assoc. eapply IH; [|done]. by eapply Hs.
Qed.
End fold_lemmas.

Lemma mapM_result_Ok {E A B} (f : A -> result E B) l l' :
  mapM_result f l = Ok l' <-> Forall2 (fun a b => f a = Ok b) l l'.
Proof.
  revert l'. induction l as [|a l IH]; intros l'; cbn.
  - split; [intros [= <-]; constructor|]. intros Hf. by inversion Hf.
  - split.
    + intros Hf. split_ok. subst. constructor; [done|]. by apply IH.
    + intros Hf. inversion Hf as [|? b ? bs Hb Hbs]; subst. rewrite Hb. cbn.
      apply IH in Hbs. by rewrite Hbs.
Qed.

Lemma mapM_result_ext {E A B} (f g : A -> result E B) l :
  (forall a, f a = g a) -> mapM_result f l = mapM_result g l.
Proof. intros Hfg. induction l as [|a l IH]; cbn; [done|]. by rewrite Hfg, IH. Qed.

(** *** Reachability *)

Definition edge (m : gmap string Member) (a b : string) : Prop :=
  exists x, m !! a = Some x /\ b ∈ dependencies x.

Definition deps_count (x : Member) : Z := Z.of_nat (size (dependencies x)).
Definition unseen (m : gmap string Member) (seen : gset string) : gmap string Member :=
  filter (fun px => px.1 ∉ seen) m.

Lemma unseen_total m seen path x :
  path ∉ seen -> m !! path = Some x ->
  total deps_count (unseen m seen) = deps_count x + total deps_count (unseen m ({[path]} ∪ seen)).
Proof.
  intros Hn Hp. assert (E : unseen m seen = <[path := x]> (unseen m ({[path]} ∪ seen))).
  { apply map_eq. intros k. unfold unseen. destruct (decide (k = path)) as [->|Hne].
    - rewrite lookup_insert_eq. apply map_lookup_filter_Some. done.
    - rewrite lookup_insert_ne by done. apply option_eq. intros v.
      rewrite !map_lookup_filter_Some. cbn. set_solver. }
  rewrite E, total_insert_None; [done|]. apply map_lookup_filter_None. right. cbn. set_solver.
Qed.

Lemma unseen_nonneg m seen : 0 <= total deps_count (unseen m seen).
Proof. apply total_nonneg. intros. unfold deps_count. lia. Qed.

Lemma unseen_other m seen path : m !! path = None -> unseen m ({[path]} ∪ seen) = unseen m seen.
Proof.
  intros Hp. apply map_eq. intros k. apply option_eq. intros v. unfold unseen.
  rewrite !map_lookup_filter_Some. cbn. split; [set_solver|]. intros [Hk Hs]. split; [done|].
  intros [->%elem_of_singleton|?]%elem_of_union; congruence.
Qed.

Lemma bset_iter_length (s : gset string) : length (bset_iter s) = size s.
Proof. unfold bset_iter. rewrite merge_sort_Permutation. done. Qed.

Lemma last_removelast {A} (l : list A) x : last l = Some x -> l = removelast l ++ [x].
Proof.
  intros Hl. apply last_Some in Hl as [l' ->]. by rewrite removelast_last.
Qed.

(** With enough fuel the loop ends; what it has seen is what was seen before and
    what is reachable, and is closed under the edges if the start was. *)
Lemma reach_spec m fuel : forall seen pending,
  Z.of_nat (length pending) + total deps_count (unseen m seen) < Z.of_nat fuel ->
  exists res, reach fuel m seen pending = Some res /\ seen ⊆ res /\
    (forall p, p ∈ pending -> p ∈ res) /\
    (forall x, x ∈ res -> x ∈ seen \/ exists p, p ∈ pending /\ rtc (edge m) p x) /\
    ((forall a b, a ∈ seen -> edge m a b -> b ∈ seen \/ b ∈ pending) ->
     forall a b, a ∈ res -> edge m a b -> b ∈ res).
Proof.
  induction fuel as [|fuel IH]; intros seen pending Hf.
  { pose proof (unseen_nonneg m seen). lia. }
  cbn [reach]. destruct (last pending) as [path|] eqn:Hl.
  2:{ apply last_None in Hl as ->. exists seen. split_and!; try done; [set_solver|by left|].
      intros Hc a b Ha He. destruct (Hc a b Ha He) as [?|Hin]; [done|]. by apply elem_of_nil in Hin. }
  apply last_removelast in Hl. remember (removelast pending) as rest eqn:Er. clear Er. subst pending.
  rewrite length_app in Hf. cbn in Hf. destruct (bool_decide_reflect (path ∈ seen)) as [Hin|Hnin].
  - destruct (IH seen rest) as (res & E & Hs & Hp & Hr & Hc); [lia|]. exists res.
    split_and!; [done|done| | |].
    + intros p [Hpr|Hpr]%elem_of_app; [auto|]. apply list_elem_of_singleton in Hpr as ->. set_solver.
    + intros x Hx. destruct (Hr x Hx) as [?|(p & ? & ?)]; [by left|right]. exists p. set_solver.
    + intros Hcl. apply Hc. intros a b Ha He. destruct (Hcl a b Ha He) as [?|Hb]; [by left|].
      apply elem_of_app in Hb as [?|Hb]; [by right|]. apply list_elem_of_singleton in Hb as ->. by left.
  - set (ds := from_option (fun x => bset_iter (dependencies x)) [] (m !! path)).
    assert (Hds : forall b, b ∈ ds <-> edge m path b).
    { intros b. subst ds. unfold edge. destruct (m !! path) as [x|]; cbn.
      - rewrite bset_iter_elem. naive_solver.
      - rewrite elem_of_nil. naive_solver. }
    assert (Hf' : Z.of_nat (length (rest ++ ds)) + total deps_count (unseen m ({[path]} ∪ seen)) < Z.of_nat fuel).
    { rewrite length_app. subst ds. destruct (m !! path) as [x|] eqn:Hx; cbn.
      - rewrite bset_iter_length. pose proof (unseen_total m seen path x Hnin Hx) as Ht.
        unfold deps_count at 2 in Ht. lia.
      - rewrite unseen_other by done. lia. }
    destruct (IH _ _ Hf') as (res & E & Hs & Hp & Hr & Hc). exists res. split_and!; [done|set_solver| | |].
    + intros p [Hpr|Hpr]%elem_of_app; [apply Hp; set_solver|].
      apply list_elem_of_singleton in Hpr as ->. apply Hs. set_solver.
    + intros x Hx. destruct (Hr x Hx) as [Hx'|(p & Hpp & Hrt)].
      * apply elem_of_union in Hx' as [->%elem_of_singleton|?]; [|by left].
        right. exists path. split; [set_solver|done].
      * right. apply elem_of_app in Hpp as [?|Hpp]; [exists p; set_solver|].
        exists path. split; [set_solver|]. eapply rtc_l; [by apply Hds|done].
    + intros Hcl. apply Hc. intros a b [->%elem_of_singleton|Ha]%elem_of_union He.
      * right. apply elem_of_app. right. by apply Hds.
      * destruct (Hcl a b Ha He) as [?|[Hb|Hb]%elem_of_app]; [left; set_solver|right; set_solver|].
        apply list_elem_of_singleton in Hb as ->. left. set_solver.
Qed.

(** What the loop accepts: every member is reachable from the entrypoint. *)
Lemma reach_all m entry :
  is_Some (m !! entry) ->
  (forall a x d, m !! a = Some x -> d ∈ dependencies x -> is_Some (m !! d)) ->
  all_reached m entry = true <-> forall k, is_Some (m !! k) -> rtc (edge m) entry k.
Proof.
  intros He Hd. unfold all_reached. destruct (reach_spec m (reach_fuel m) ∅ [entry]) as (res & E & _ & Hp & Hr & Hc).
  { unfold reach_fuel. assert (Eu : unseen m ∅ = m).
    { apply map_filter_id. intros. cbn. set_solver. }
    rewrite Eu. fold deps_count. cbn. pose proof (unseen_nonneg m ∅) as Hn. rewrite Eu in Hn. lia. }
  rewrite E, Nat.eqb_eq.
  assert (Hsub : res ⊆ dom m).
  { intros x Hx. destruct (Hr x Hx) as [?|(p & Hpin & Hrt)]; [set_solver|].
    apply list_elem_of_singleton in Hpin as ->. apply elem_of_dom.
    revert He. clear -Hd Hrt. induction Hrt as [|a b c (y & Hy & Hb) _ IH]; intros He; [done|].
    apply IH. by eapply Hd. }
  rewrite <- (size_dom (D := gset string) m). split.
  - intros Hs k Hk. assert (Ek : res = dom m).
    { apply set_subseteq_size_eq; [done|lia]. }
    destruct (Hr k) as [?|(p & Hpin & Hrt)]; [rewrite Ek; by apply elem_of_dom|set_solver|].
    by apply list_elem_of_singleton in Hpin as ->.
  - intros Hall. f_equal. apply set_eq. intros x. split; [apply Hsub|]. intros Hx.
    apply elem_of_dom in Hx. specialize (Hall _ Hx).
    assert (Hin : entry ∈ res) by (apply Hp; set_solver).
    assert (Hcl : forall a b, a ∈ res -> edge m a b -> b ∈ res) by (apply Hc; set_solver).
    revert Hin. clear -Hall Hcl. induction Hall as [|a b c Hab _ IH]; intros Ha; [done|].
    apply IH. by eapply Hcl.
Qed.

(** What the code relies on of [ed25519_dalek]: a signature made with a seed is
    accepted by strict verification under the seed's key. *)
Class Ed25519 := {
  verifying_key : bytes -> bytes;
  sign_message : bytes -> bytes -> bytes;
  key_from_bytes : bytes -> bool;
  verify_strict : bytes -> bytes -> bytes -> bool;
  verifying_key_length : forall seed, length (verifying_key seed) = 32%nat;
  signature_length : forall seed m, length (sign_message seed m) = 64%nat;
  verifying_key_ok : forall seed, key_from_bytes (verifying_key seed) = true;
  verify_sign : forall seed m, verify_strict (verifying_key seed) m (sign_message seed m) = true;
}.

Section closures.
Context `{Blake3} `{Ed25519} `{Json Closure} `{Json SignedClosure} `{Json (list Source)}.

(** ** One level of the recursion: what is called back is an argument. *)

(** [Source::parse]. *)
Definition parse_with (verify : SignedClosure -> gset string -> result string unit) (s : Source) :
    result string SignedClosure :=
  _ ← ensure (negb ((262144 <? str_len (descriptor s))
                    || negb (String.eqb (hash_of (as_bytes (descriptor s))) (s_hash s))))
        "composition source identity or byte limit mismatch";
  signed ← ok_or (from_slice (as_bytes (descriptor s))) "invalid composition source";
  _ ← ensure (String.eqb (api_version (closure signed)) "celln.dev/closure-v1"
              && bool_decide (sources (closure signed) = []))
        "composition requires original v1 signed sources";
  _ ← verify signed {[publisher signed]};
  Ok signed.

Definition distinct_step (acc : gset string * gset string) (sd : Source * SignedClosure) :
    result string (gset string * gset string) :=
  let e := entrypoint (closure sd.2) in
  if bool_decide (e ∈ acc.1) || bool_decide (s_hash sd.1 ∈ acc.2)
  then Err "duplicate composition source or entrypoint"
  else Ok ({[e]} ∪ acc.1, {[s_hash sd.1]} ∪ acc.2).

Definition merge_member (roots : gset string) (entry : string) (m : gmap string Member)
    (pm : string * Member) : result string (gmap string Member) :=
  if bool_decide (pm.1 ∈ roots) && negb (String.eqb pm.1 entry)
  then Err "selected entrypoint collides with another source dependency"
  else match m !! pm.1 with
       | Some existing =>
           if bool_decide (existing = pm.2) then Ok m
           else Err "composition member hash or dependency collision"
       | None =>
           let m := <[pm.1 := pm.2]> m in
           if 256 <? Z.of_nat (size m) then Err "composed graph exceeds 256 members" else Ok m
       end.

Definition merge_source (roots : gset string) (m : gmap string Member) (s : SignedClosure) :
    result string (gmap string Member) :=
  foldM (merge_member roots (entrypoint (closure s))) m (btree_iter (members (closure s))).

(** [compose]. *)
Definition compose_with (parse : Source -> result string SignedClosure) (srcs : list Source) (fs : string) :
    result string Closure :=
  _ ← ensure (negb (bool_decide (srcs = []) || (MAX_SOURCES <? Z.of_nat (length srcs)) || negb (hash_text fs)))
        "composition requires 1..25 sources and a filesystem hash";
  _ ← ensure (blen (to_vec srcs) <=? 196608) "composition source envelope exceeds 192 KiB";
  signed ← mapM_result parse srcs;
  sets ← foldM distinct_step (∅, ∅) (zip srcs signed);
  m ← foldM (merge_source sets.1) ∅ signed;
  match signed with
  | [] => Err "composition requires 1..25 sources and a filesystem hash"
  | first :: others =>
      let entry := entrypoint (closure first) in
      _ ← ensure (negb (existsb (fun p => existsb (fun q => is_Some_bool (m !! q)) (parents p)) (btree_keys m)))
            "composition file collides with a parent directory";
      let extend x := mkMember (m_hash x)
            (dependencies x ∪ list_to_set ((fun s => entrypoint (closure s)) <$> others)) in
      let composed := mkClosure "celln.dev/closure-v2" fs entry
            (existsb (fun s => interpreter (closure s)) signed) (alter extend entry m) srcs in
      _ ← ensure (blen (to_vec composed) <=? 262144 - 512) "composed descriptor exceeds signed delivery envelope";
      Ok composed
  end.

(** [Closure::validate]. *)
Definition validate_with (compose : list Source -> string -> result string Closure) (c : Closure) :
    result string unit :=
  let v1 := String.eqb (api_version c) "celln.dev/closure-v1" in
  let v2 := String.eqb (api_version c) "celln.dev/closure-v2" in
  _ ← ensure (negb (negb (v1 || v2) || (v1 && negb (bool_decide (sources c = []))) || negb (hash_text (toolfs c))
                    || bool_decide (members c = ∅) || (256 <? Z.of_nat (size (members c)))
                    || negb (is_Some_bool (members c !! entrypoint c))))
        "invalid closure identity, version, or entrypoint";
  _ ← ensure (forallb (fun pm => negb (bad_member (members c) pm)) (btree_iter (members c)))
        "invalid closure member or unresolved dependency";
  _ ← ensure (all_reached (members c) (entrypoint c))
        "closure contains unreachable code members";
  if v2 then
    expected ← compose (sources c) (toolfs c);
    ensure (String.eqb (entrypoint c) (entrypoint expected)
            && Bool.eqb (interpreter c) (interpreter expected)
            && bool_decide (members c = members expected))
      "composed closure differs from its signed source graph"
  else Ok tt.

(** [Closure::message]. *)
Definition message_with (validate : Closure -> result string unit) (c : Closure) : result string bytes :=
  _ ← validate c;
  Ok ((if String.eqb (api_version c) "celln.dev/closure-v2" then COMPOSITION_DOMAIN else DOMAIN) ++ to_vec c).

(** [SignedClosure::verify]. *)
Definition verify_with (validate : Closure -> result string unit)
    (verify : SignedClosure -> gset string -> result string unit)
    (s : SignedClosure) (publishers : gset string) : result string unit :=
  _ ← ensure (bool_decide (publisher s ∈ publishers)) "closure publisher is not authorized";
  _ ← mapM_result (fun src => p ← parse_with verify src; verify p publishers) (sources (closure s));
  pk ← decode 32 (publisher s);
  _ ← ensure (key_from_bytes pk) "invalid closure publisher key";
  msg ← message_with validate (closure s);
  sg ← decode 64 (sig s);
  ensure (verify_strict pk msg sg) "closure signature verification failed".

(** ** The recursion *)

Definition too_deep {A} : result string A := Err "recursion too deep".

Fixpoint validate_n (n : nat) (c : Closure) : result string unit :=
  validate_with (match n with
                 | O => fun _ _ => too_deep
                 | S n => compose_with (parse_with (verify_n n))
                 end) c
with verify_n (n : nat) (s : SignedClosure) (publishers : gset string) : result string unit :=
  match n with
  | O => too_deep
  | S n => verify_with (validate_n n) (verify_n n) s publishers
  end.

Definition validate : Closure -> result string unit := validate_n 3.
Definition verify : SignedClosure -> gset string -> result string unit := verify_n 4.
Definition parse : Source -> result string SignedClosure := parse_with (verify_n 2).
Definition compose : list Source -> string -> result string Closure := compose_with parse.
Definition message : Closure -> result string bytes := message_with validate.

(** [Closure::sign]. *)
Definition sign (c : Closure) (seed : bytes) : result string SignedClosure :=
  m ← message c;
  Ok (mkSigned c (hex (verifying_key seed)) (hex (sign_message seed m))).

Definition identity (s : SignedClosure) : hash := hash_of (to_vec s).

(** ** The depth of the recursion *)

Lemma v1_not_v2 c : api_version c = "celln.dev/closure-v1" ->
  String.eqb (api_version c) "celln.dev/closure-v2" = false.
Proof. by intros ->. Qed.

(** A v1 closure is validated without recursion. *)
Lemma validate_v1 f g c : api_version c = "celln.dev/closure-v1" -> validate_with f c = validate_with g c.
Proof. intros Hv. unfold validate_with. by rewrite (v1_not_v2 c Hv). Qed.

Definition original (s : SignedClosure) : Prop :=
  api_version (closure s) = "celln.dev/closure-v1" /\ sources (closure s) = [].

Lemma verify_v1 f g v w s pubs : original s ->
  (forall c, api_version c = "celln.dev/closure-v1" -> f c = g c) ->
  verify_with f v s pubs = verify_with g w s pubs.
Proof.
  intros [Hv Hs] Hfg. unfold verify_with, message_with. by rewrite Hs, (Hfg _ Hv).
Qed.

Lemma validate_n_v1 n m c : api_version c = "celln.dev/closure-v1" -> validate_n n c = validate_n m c.
Proof. intros Hv. destruct n, m; cbn; by apply validate_v1. Qed.

Lemma verify_n_v1 n m s pubs : original s -> verify_n (S n) s pubs = verify_n (S m) s pubs.
Proof.
  intros Ho. cbn. apply verify_v1; [done|]. intros c Hc. by apply validate_n_v1.
Qed.

Lemma parse_n n m src : parse_with (verify_n (S n)) src = parse_with (verify_n (S m)) src.
Proof.
  unfold parse_with. destruct (ensure _ _) as [u|]; [cbn|done].
  destruct (ok_or (A := SignedClosure) _ _) as [signed|]; cbn; [|done].
  destruct (String.eqb_spec (api_version (closure signed)) "celln.dev/closure-v1") as [Hv|]; cbn; [|done].
  destruct (bool_decide_reflect (sources (closure signed) = [])) as [Hs|]; cbn; [|done].
  change (verify_n (S n) signed {[publisher signed]} ≫= (fun _ => Ok signed)
    = verify_n (S m) signed {[publisher signed]} ≫= (fun _ => Ok signed)).
  by rewrite (verify_n_v1 n m) by done.
Qed.

Lemma compose_with_ext p q srcs fs : (forall s, p s = q s) -> compose_with p srcs fs = compose_with q srcs fs.
Proof. intros Hpq. unfold compose_with. by rewrite (mapM_result_ext p q) by done. Qed.

Lemma validate_with_ext f g c : (forall srcs fs, f srcs fs = g srcs fs) -> validate_with f c = validate_with g c.
Proof. intros Hfg. unfold validate_with. by rewrite Hfg. Qed.

Lemma validate_n_deep n c : validate_n (S (S n)) c = validate c.
Proof.
  unfold validate. cbn [validate_n]. apply validate_with_ext. intros srcs fs.
  apply compose_with_ext. intros s. apply parse_n.
Qed.

Lemma parse_original v src p : parse_with v src = Ok p -> original p.
Proof.
  unfold parse_with. intros E. split_ok. reflect. rewrite bool_decide_eq_true in *. done.
Qed.

Lemma verify_n_deep n s pubs : verify_n (S (S (S n))) s pubs = verify s pubs.
Proof.
  change (verify_with (validate_n (S (S n))) (verify_n (S (S n))) s pubs =
    verify_with (validate_n 3) (verify_n 3) s pubs).
  unfold verify_with, message_with. rewrite !validate_n_deep.
  rewrite (mapM_result_ext (fun src => p ← parse_with (verify_n (S (S n))) src; verify_n (S (S n)) p pubs)
             (fun src => p ← parse_with (verify_n 3) src; verify_n 3 p pubs)); [done|].
  intros src. rewrite (parse_n (S n) 2). destruct (parse_with (verify_n 3) src) as [p|] eqn:E; [|done].
  apply parse_original in E. exact (verify_n_v1 (S n) 2 p pubs E).
Qed.

(** The mutual recursion of verification, validation, parsing and composition
    ends: the sources of a composition are original v1 closures without sources,
    so beyond four levels of calls nothing changes, and the results of the four
    functions do not depend on the bound. *)
Theorem verify_depth (n : nat) (s : SignedClosure) (pubs : gset string) (c : Closure) (src : Source) :
  (3 <= n)%nat -> verify_n n s pubs = verify s pubs /\ validate_n n c = validate c /\
  parse_with (verify_n n) src = parse src.
Proof.
  intros Hn. destruct n as [|[|[|n]]]; [lia..|]. split_and!.
  - apply verify_n_deep.
  - apply validate_n_deep.
  - apply parse_n.
Qed.

(** ** What validation accepts *)

(** The graph conditions of both versions. *)
Definition good_graph (c : Closure) : Prop :=
  hash_text (toolfs c) = true /\ 1 <= Z.of_nat (size (members c)) <= 256 /\
  is_Some (members c !! entrypoint c) /\
  (forall path x, members c !! path = Some x ->
     canonical_path path = true /\ hash_text (m_hash x) = true /\
     forall d, d ∈ dependencies x -> is_Some (members c !! d)) /\
  forall path, is_Some (members c !! path) -> rtc (edge (members c)) (entrypoint c) path.

Lemma is_Some_bool_spec {A} (o : option A) : is_Some_bool o = true <-> is_Some o.
Proof. destruct o; cbn; [split; eauto|split; [done|by intros [? ?]]]. Qed.

Lemma good_member m path x : bad_member m (path, x) = false <->
  canonical_path path = true /\ hash_text (m_hash x) = true /\
  forall d, d ∈ dependencies x -> is_Some (m !! d).
Proof.
  unfold bad_member. cbn. reflect. rewrite <- not_true_iff_false, existsb_exists. split.
  - intros [[Hc Hh] Hd]. split_and!; [done|done|]. intros d Hin. apply is_Some_bool_spec.
    apply not_false_iff_true. intros Hf. apply Hd. exists d. rewrite Hf.
    split; [|done]. apply list_elem_of_In. by apply bset_iter_elem.
  - intros (Hc & Hh & Hd). split; [done|]. intros (d & Hin & Hf). apply list_elem_of_In, bset_iter_elem, Hd in Hin.
    apply is_Some_bool_spec in Hin. by rewrite Hin in Hf.
Qed.

Lemma members_checked m :
  forallb (fun pm => negb (bad_member m pm)) (btree_iter m) = true <->
  forall path x, m !! path = Some x -> bad_member m (path, x) = false.
Proof.
  rewrite forallb_forall. split.
  - intros Hall path x Hx. specialize (Hall (path, x)). rewrite negb_true_iff in Hall. apply Hall.
    apply list_elem_of_In. by apply btree_iter_elem.
  - intros Hall [path x] Hin. apply list_elem_of_In, btree_iter_elem in Hin. by rewrite (Hall _ _ Hin).
Qed.

Lemma size_pos (m : gmap string Member) : m <> ∅ <-> 1 <= Z.of_nat (size m).
Proof.
  split.
  - intros Hm. destruct (size m) eqn:Hs; [|lia]. by apply map_size_empty_inv in Hs.
  - intros Hs ->. rewrite map_size_empty in Hs. lia.
Qed.

Lemma identity_checked c :
  negb (negb (String.eqb (api_version c) "celln.dev/closure-v1" || String.eqb (api_version c) "celln.dev/closure-v2")
        || (String.eqb (api_version c) "celln.dev/closure-v1" && negb (bool_decide (sources c = [])))
        || negb (hash_text (toolfs c)) || bool_decide (members c = ∅)
        || (256 <? Z.of_nat (size (members c))) || negb (is_Some_bool (members c !! entrypoint c))) = true <->
  ((api_version c = "celln.dev/closure-v1" /\ sources c = []) \/ api_version c = "celln.dev/closure-v2") /\
  hash_text (toolfs c) = true /\ 1 <= Z.of_nat (size (members c)) <= 256 /\
  is_Some (members c !! entrypoint c).
Proof.
  reflect. rewrite bool_decide_eq_false, bool_decide_eq_true, size_pos, is_Some_bool_spec.
  split; [|intros ([[Hv ->]|Hv] & ? & ? & ?); rewrite Hv; split_and!; try done; try lia; auto].
  intros (((((Hv & Hs) & ?) & ?) & ?) & ?). split_and!; [|done|lia|lia|done].
  destruct Hv as [Hv|Hv]; [|by right]. left. split; [done|]. by destruct Hs.
Qed.

Lemma validate_with_Ok f c :
  validate_with f c = Ok tt <->
  good_graph c /\
  ((api_version c = "celln.dev/closure-v1" /\ sources c = []) \/
   (api_version c = "celln.dev/closure-v2" /\
    exists e, f (sources c) (toolfs c) = Ok e /\ entrypoint c = entrypoint e /\
      interpreter c = interpreter e /\ members c = members e)).
Proof.
  assert (Hreach : is_Some (members c !! entrypoint c) ->
    forallb (fun pm => negb (bad_member (members c) pm)) (btree_iter (members c)) = true ->
    (all_reached (members c) (entrypoint c) = true <-> forall path, is_Some (members c !! path) -> rtc (edge (members c)) (entrypoint c) path)).
  { intros He Hm. apply reach_all; [done|]. intros a x d Hx Hd. rewrite members_checked in Hm.
    by apply (good_member (members c) a x) in Hd; [|auto]. }
  unfold validate_with. split.
  - intros E. apply result_bind_Ok in E as (u & Hg & E). apply ensure_Ok, identity_checked in Hg.
    destruct Hg as (Hver & Htf & Hsz & Hent).
    apply result_bind_Ok in E as (u2 & E2 & E). apply ensure_Ok in E2.
    apply result_bind_Ok in E as (u3 & E3 & E). apply ensure_Ok in E3.
    pose proof (proj1 (Hreach Hent E2) E3) as Hr. clear E3. rewrite members_checked in E2. split.
    { split_and!; [done|lia|lia|done| |done]. intros path x Hx. by apply good_member, E2. }
    destruct (String.eqb_spec (api_version c) "celln.dev/closure-v2") as [Hv|Hv].
    + right. split; [done|]. apply result_bind_Ok in E as (e & Ee & E). exists e. split; [done|].
      apply ensure_Ok in E. reflect. rewrite bool_decide_eq_true in E. rewrite Bool.eqb_true_iff in E. tauto.
    + left. by destruct Hver as [?|?].
  - intros [(Htf & Hsz & Hent & Hmem & Hre) Hver].
    assert (Hm : forallb (fun pm => negb (bad_member (members c) pm)) (btree_iter (members c)) = true).
    { apply members_checked. intros path x Hx. by apply good_member, Hmem. }
    rewrite (proj2 (identity_checked c)), Hm by (split_and!; (done || tauto || lia)). cbn.
    rewrite (proj2 (Hreach Hent Hm) Hre). cbn.
    destruct Hver as [[-> _]|(-> & e & Ee & He & Hi & Hme)]; [done|]. cbn. rewrite Ee. cbn.
    rewrite He, Hi, Hme, String.eqb_refl, Bool.eqb_reflx, bool_decide_eq_true_2 by done. done.
Qed.

(** A v1 closure validates exactly when it is a closed graph: no sources, a
    filesystem hash, between 1 and 256 members, each with a canonical path and
    a hash and with dependencies that are members, the entrypoint among them,
    and every member reachable from the entrypoint, so no file is admitted that
    the entrypoint cannot load. Cycles are allowed. *)
Theorem closure_validates (c : Closure) :
  api_version c = "celln.dev/closure-v1" ->
  (validate c = Ok tt <->
   sources c = [] /\ hash_text (toolfs c) = true /\ 1 <= Z.of_nat (size (members c)) <= 256 /\
   is_Some (members c !! entrypoint c) /\
   (forall path x, members c !! path = Some x ->
      canonical_path path = true /\ hash_text (m_hash x) = true /\
      forall d, d ∈ dependencies x -> is_Some (members c !! d)) /\
   forall path, is_Some (members c !! path) -> rtc (edge (members c)) (entrypoint c) path).
Proof.
  intros Hv. unfold validate. cbn [validate_n]. rewrite validate_with_Ok, Hv. unfold good_graph.
  naive_solver.
Qed.

(** ** Composition *)

(** What one source contributed. *)
Definition contributes (roots : gset string) (m : gmap string Member) (s : SignedClosure) : Prop :=
  forall k v, members (closure s) !! k = Some v ->
    m !! k = Some v /\ (k ∈ roots -> k = entrypoint (closure s)).

Lemma merge_member_Ok roots entry m pm m' :
  merge_member roots entry m pm = Ok m' ->
  m ⊆ m' /\ m' !! pm.1 = Some pm.2 /\ (pm.1 ∈ roots -> pm.1 = entry) /\
  (forall k v, m' !! k = Some v -> m !! k = Some v \/ (k, v) = pm) /\
  (Z.of_nat (size m) <= 256 -> Z.of_nat (size m') <= 256).
Proof.
  unfold merge_member. destruct (_ && _) eqn:Er; [done|].
  assert (Hroot : pm.1 ∈ roots -> pm.1 = entry).
  { intros Hin. rewrite bool_decide_eq_true_2 in Er by done. cbn in Er. reflect. done. }
  destruct (m !! pm.1) as [ex|] eqn:Hm.
  - destruct (bool_decide_reflect (ex = pm.2)) as [->|]; [|done]. intros [= <-]. split_and!; auto.
  - destruct (Z.ltb_spec 256 (Z.of_nat (size (<[pm.1:=pm.2]> m)))); [done|]. intros [= <-].
    split_and!; [by apply insert_subseteq|by rewrite lookup_insert_eq|done| |lia].
    intros k v [[<- <-]|[_ ?]]%lookup_insert_Some; [right; by destruct pm|by left].
Qed.

Lemma merge_source_Ok roots m s m' :
  merge_source roots m s = Ok m' ->
  m ⊆ m' /\ contributes roots m' s /\
  (forall k v, m' !! k = Some v -> m !! k = Some v \/ members (closure s) !! k = Some v) /\
  (Z.of_nat (size m) <= 256 -> Z.of_nat (size m') <= 256).
Proof.
  unfold merge_source. intros E.
  apply (foldM_done _ (fun done m1 => m ⊆ m1 /\
    (forall pm, pm ∈ done -> m1 !! pm.1 = Some pm.2 /\ (pm.1 ∈ roots -> pm.1 = entrypoint (closure s))) /\
    (forall k v, m1 !! k = Some v -> m !! k = Some v \/ (k, v) ∈ done) /\
    (Z.of_nat (size m) <= 256 -> Z.of_nat (size m1) <= 256))) in E.
  - destruct E as (Hs & Hin & Hfrom & Hsz). split_and!; [done| | |done].
    + intros k v Hk. apply btree_iter_elem, Hin in Hk. done.
    + intros k v Hk. destruct (Hfrom k v Hk) as [?|Hd]; [by left|right]. by apply btree_iter_elem in Hd.
  - split_and!; [done| |by left|done]. intros pm Hpm. by apply elem_of_nil in Hpm.
  - intros l1 pm m1 m2 (Hs & Hin & Hfrom & Hsz) Em.
    apply merge_member_Ok in Em as (Hs2 & Hp & Hr & Hf2 & Hsz2). split_and!.
    + by transitivity m1.
    + intros pm' [Hd|Hd]%elem_of_app.
      * destruct (Hin _ Hd) as [H1' H2']. split; [by eapply lookup_weaken|done].
      * by apply list_elem_of_singleton in Hd as ->.
    + intros k v Hk. destruct (Hf2 k v Hk) as [Hk1| ->].
      * destruct (Hfrom k v Hk1); [by left|right; apply elem_of_app; by left].
      * right. apply elem_of_app. right. by apply list_elem_of_singleton.
    + auto.
Qed.

Lemma merge_sources_Ok roots signed m :
  foldM (merge_source roots) ∅ signed = Ok m ->
  (forall s, s ∈ signed -> contributes roots m s) /\
  (forall k v, m !! k = Some v -> exists s, s ∈ signed /\ members (closure s) !! k = Some v) /\
  Z.of_nat (size m) <= 256.
Proof.
  intros E. apply (foldM_done _ (fun done m1 =>
    (forall s, s ∈ done -> contributes roots m1 s) /\
    (forall k v, m1 !! k = Some v -> exists s, s ∈ done /\ members (closure s) !! k = Some v) /\
    Z.of_nat (size m1) <= 256)) in E; [done| |].
  - split_and!; [|done|by rewrite map_size_empty]. intros s Hs. by apply elem_of_nil in Hs.
  - intros l1 s m1 m2 (Hc & Hf & Hsz) Em. apply merge_source_Ok in Em as (Hs & Hc2 & Hf2 & Hsz2).
    split_and!; [| |auto].
    + intros s' [Hd|Hd]%elem_of_app; [|by apply list_elem_of_singleton in Hd as ->].
      intros k v Hk. destruct (Hc _ Hd k v Hk). split; [by eapply lookup_weaken|done].
    + intros k v Hk. destruct (Hf2 k v Hk) as [Hk1|Hk1].
      * destruct (Hf k v Hk1) as (s' & Hs' & Hk'). exists s'. rewrite elem_of_app. auto.
      * exists s. rewrite elem_of_app, list_elem_of_singleton. auto.
Qed.

(** The composed members: the entrypoint also depends on the other entrypoints. *)
Definition extend_with (others : list SignedClosure) (x : Member) : Member :=
  mkMember (m_hash x) (dependencies x ∪ list_to_set ((fun s => entrypoint (closure s)) <$> others)).

Lemma compose_with_Ok p srcs fs c :
  compose_with p srcs fs = Ok c ->
  exists first others m sets,
    Forall2 (fun src s => p src = Ok s) srcs (first :: others) /\
    foldM distinct_step (∅, ∅) (zip srcs (first :: others)) = Ok sets /\
    foldM (merge_source sets.1) ∅ (first :: others) = Ok m /\
    hash_text fs = true /\ 1 <= Z.of_nat (length srcs) <= MAX_SOURCES /\
    (forall a b, is_Some (m !! a) -> b ∈ parents a -> m !! b = None) /\
    c = mkClosure "celln.dev/closure-v2" fs (entrypoint (closure first))
          (existsb (fun s => interpreter (closure s)) (first :: others))
          (alter (extend_with others) (entrypoint (closure first)) m) srcs.
Proof.
  unfold compose_with. intros E. apply result_bind_Ok in E as (u1 & E1 & E). apply ensure_Ok in E1.
  apply result_bind_Ok in E as (u2 & _ & E). apply result_bind_Ok in E as (signed & E3 & E).
  apply mapM_result_Ok in E3. apply result_bind_Ok in E as (sets & E4 & E).
  apply result_bind_Ok in E as (m & E5 & E). destruct signed as [|first others]; [done|].
  apply result_bind_Ok in E as (u6 & E6 & E). apply ensure_Ok in E6.
  apply result_bind_Ok in E as (u7 & _ & E). injection E as <-.
  exists first, others, m, sets. split_and!; try done; reflect; try tauto.
  - destruct srcs; [by inversion E3|]. cbn. lia.
  - intros a b Ha Hb. destruct (m !! b) eqn:Hmb; [|done]. exfalso.
    rewrite <- not_true_iff_false in E6. apply E6. apply existsb_exists. exists a.
    split; [apply list_elem_of_In; by apply btree_keys_elem|]. apply existsb_exists. exists b.
    split; [by apply list_elem_of_In|]. by rewrite Hmb.
Qed.

Lemma parse_graph src s : parse src = Ok s -> original s /\ good_graph (closure s).
Proof.
  intros E. pose proof (parse_original _ _ _ E) as Ho. split; [done|].
  unfold parse, parse_with in E. apply result_bind_Ok in E as (u & _ & E).
  apply result_bind_Ok in E as (s' & _ & E). apply result_bind_Ok in E as (u2 & _ & E).
  apply result_bind_Ok in E as (u3 & Ev & E). injection E as ->. cbn [verify_n] in Ev.
  unfold verify_with in Ev. apply result_bind_Ok in Ev as (? & _ & Ev).
  apply result_bind_Ok in Ev as (? & _ & Ev). apply result_bind_Ok in Ev as (? & _ & Ev).
  apply result_bind_Ok in Ev as (? & _ & Ev). apply result_bind_Ok in Ev as (? & Em & _).
  unfold message_with in Em. apply result_bind_Ok in Em as (u5 & Hval & _). destruct u5.
  by apply validate_with_Ok in Hval as [? _].
Qed.

Lemma edge_alter m f e a b :
  (forall x, dependencies x ⊆ dependencies (f x)) -> edge m a b -> edge (alter f e m) a b.
Proof.
  intros Hf (x & Hx & Hb). destruct (decide (a = e)) as [->|Hne].
  - exists (f x). rewrite lookup_alter_eq, Hx. split; [done|]. by apply Hf.
  - exists x. by rewrite lookup_alter_ne.
Qed.

Lemma rtc_subrel {A} (R S : relation A) x y : (forall a b, R a b -> S a b) -> rtc R x y -> rtc S x y.
Proof. intros Hs. induction 1; [done|]. eapply rtc_l; eauto. Qed.

(** Composition yields what validation accepts. A composed closure validates;
    its members are exactly the members of its sources, which agree wherever they
    share a path, with the same hashes and dependencies, except that the first
    source's entrypoint also depends on the other entrypoints; it may run an
    interpreter only if a source may; and no file's path is a parent directory of
    another's. *)
Theorem compose_validates (srcs : list Source) (fs : string) (c : Closure) :
  compose srcs fs = Ok c ->
  validate c = Ok tt /\ sources c = srcs /\ toolfs c = fs /\
  exists first others,
    Forall2 (fun src s => parse src = Ok s) srcs (first :: others) /\
    entrypoint c = entrypoint (closure first) /\
    (interpreter c = true <-> exists s, s ∈ first :: others /\ interpreter (closure s) = true) /\
    (forall s k x, s ∈ first :: others -> members (closure s) !! k = Some x ->
       members c !! k = Some (if decide (k = entrypoint c) then extend_with others x else x)) /\
    (forall k, is_Some (members c !! k) -> exists s, s ∈ first :: others /\ is_Some (members (closure s) !! k)) /\
    (forall a b, is_Some (members c !! a) -> b ∈ parents a -> members c !! b = None).
Proof.
  intros E. pose proof E as Hagain.
  apply compose_with_Ok in E as (first & others & m & sets & Hp & _ & Em & Hfs & Hlen & Hpar & ->).
  apply merge_sources_Ok in Em as (Hc & Hfrom & Hsz). cbn [entrypoint members toolfs sources interpreter].
  set (e := entrypoint (closure first)). set (M := alter (extend_with others) e m).
  assert (Hall : forall s, s ∈ first :: others -> good_graph (closure s)).
  { intros s Hs. apply list_elem_of_lookup in Hs as [i Hi].
    destruct (Forall2_lookup_r _ _ _ _ _ Hp Hi) as (src & _ & Hsrc). exact (proj2 (parse_graph _ _ Hsrc)). }
  assert (HM : forall k, M !! k = (fun x => if decide (k = e) then extend_with others x else x) <$> m !! k).
  { intros k. subst M. destruct (decide (k = e)) as [->|].
    - by rewrite lookup_alter_eq.
    - rewrite lookup_alter_ne by done. by destruct (m !! k). }
  assert (Hdom : forall k, is_Some (M !! k) <-> is_Some (m !! k)) by (intros k; by rewrite HM, fmap_is_Some).
  assert (Hentry : forall s, s ∈ first :: others -> is_Some (m !! entrypoint (closure s))).
  { intros s Hs. destruct (Hall s Hs) as (_ & _ & [x Hx] & _). exists x. by apply (Hc s Hs). }
  assert (Hsub : forall x, dependencies x ⊆ dependencies (extend_with others x)) by (intros x; cbn; set_solver).
  split_and!; try done.
  - unfold validate. cbn [validate_n]. apply validate_with_Ok. split.
    + split_and!; [done| | |by apply Hdom, Hentry; left| |]; cbn [members entrypoint]; fold e; fold M.
      * assert (HMne : M <> ∅); [|by apply size_pos]. intros HMe.
        assert (Hs : is_Some (M !! e)) by (apply Hdom, Hentry; by left).
        rewrite HMe, lookup_empty in Hs. by destruct Hs.
      * rewrite <- (size_dom (D := gset string)). subst M. rewrite dom_alter_L, size_dom. done.
      * intros k x Hk. rewrite HM in Hk. apply fmap_Some in Hk as (x0 & Hk & ->).
        destruct (Hfrom k x0 Hk) as (s & Hs & Hks).
        destruct (Hall s Hs) as (_ & _ & _ & Hmem & _). destruct (Hmem k x0 Hks) as (Hcan & Hh & Hd).
        assert (Hd' : forall d, d ∈ dependencies x0 -> is_Some (M !! d)).
        { intros d Hin. destruct (Hd d Hin) as [y Hy]. apply Hdom. exists y. by apply (Hc s Hs). }
        destruct (decide (k = e)); [|done]. split_and!; [done|done|].
        intros d [Hin|Hin]%elem_of_union; [by apply Hd'|]. apply elem_of_list_to_set, list_elem_of_fmap in Hin.
        destruct Hin as (s' & -> & Hs'). apply Hdom, Hentry. by right.
      * intros k Hk. apply Hdom in Hk as [x Hk]. destruct (Hfrom k x Hk) as (s & Hs & Hks).
        destruct (Hall s Hs) as (_ & _ & _ & _ & Hre).
        transitivity (entrypoint (closure s)).
        -- apply elem_of_cons in Hs as [->|Hs]; [done|]. apply rtc_once.
           destruct (Hentry first) as [y Hy]; [by left|]. exists (extend_with others y).
           rewrite HM. fold e in Hy. rewrite Hy. cbn. rewrite decide_True by done. split; [done|].
           apply elem_of_union. right. apply elem_of_list_to_set, list_elem_of_fmap. by exists s.
        -- eapply rtc_subrel; [|apply Hre; by eauto]. intros a b (y & Hy & Hb).
           apply edge_alter; [done|]. exists y. split; [|done]. by apply (Hc s Hs).
    + right. split; [done|]. eexists. split; [exact Hagain|]. done.
  - exists first, others. split_and!; try done.
    + cbn [interpreter]. rewrite existsb_exists. split; intros (s & Hs & Hi); exists s;
        (split; [|done]); by apply list_elem_of_In.
    + intros s k x Hs Hk. rewrite HM, (proj1 (Hc s Hs k x Hk)). done.
    + intros k Hk. apply Hdom in Hk as [x Hk]. destruct (Hfrom k x Hk) as (s & Hs & Hks). eauto.
    + intros a b Ha Hb. apply Hdom in Ha. rewrite HM, (Hpar a b Ha Hb). done.
Qed.

(** ** Signatures *)

Lemma verify_with_Ok f v s pubs :
  verify_with f v s pubs = Ok tt <->
  publisher s ∈ pubs /\
  (forall src, src ∈ sources (closure s) -> exists p, parse_with v src = Ok p /\ v p pubs = Ok tt) /\
  exists pk sg, decode 32 (publisher s) = Ok pk /\ key_from_bytes pk = true /\ f (closure s) = Ok tt /\
    decode 64 (sig s) = Ok sg /\
    verify_strict pk ((if String.eqb (api_version (closure s)) "celln.dev/closure-v2"
                       then COMPOSITION_DOMAIN else DOMAIN) ++ to_vec (closure s)) sg = true.
Proof.
  assert (Hmap : forall l, (exists us, mapM_result (fun src => p ← parse_with v src; v p pubs) l = Ok us) <->
    (forall src, src ∈ l -> exists p, parse_with v src = Ok p /\ v p pubs = Ok tt)).
  { intros l. setoid_rewrite mapM_result_Ok. split.
    - intros [us Hf] src Hs. apply list_elem_of_lookup in Hs as [i Hi].
      destruct (Forall2_lookup_l _ _ _ _ _ Hf Hi) as (u & _ & Hu). apply result_bind_Ok in Hu as (p & ? & ?).
      exists p. by destruct u.
    - intros Hl. exists ((fun _ => tt) <$> l). apply Forall2_fmap_r, Forall_Forall2_diag, Forall_forall.
      intros src Hs. destruct (Hl src Hs) as (p & -> & Hv). done. }
  unfold verify_with, message_with. split.
  - intros E. apply result_bind_Ok in E as (u1 & E1 & E). apply ensure_Ok in E1. apply bool_decide_eq_true in E1.
    apply result_bind_Ok in E as (us & E2 & E). apply result_bind_Ok in E as (pk & E3 & E).
    apply result_bind_Ok in E as (u4 & E4 & E). apply ensure_Ok in E4.
    apply result_bind_Ok in E as (msg & E5 & E). apply result_bind_Ok in E5 as ([] & E5 & [= <-]).
    apply result_bind_Ok in E as (sg & E6 & E). apply ensure_Ok in E.
    split_and!; [done|apply Hmap; eauto|]. exists pk, sg. done.
  - intros (H1' & H2' & pk & sg & H3' & H4' & H5' & H6' & H7').
    rewrite bool_decide_eq_true_2 by done. apply Hmap in H2' as [us H2'].
    unfold ensure at 1. cbn [mbind result_bind]. rewrite H2'. cbn [mbind result_bind].
    rewrite H3'. cbn [mbind result_bind]. rewrite H4'. cbn [ensure mbind result_bind].
    rewrite H5'. cbn [mbind result_bind]. rewrite H6'. cbn [mbind result_bind]. by rewrite H7'.
Qed.

(** C33: Verification is authorisation by signature. A signed closure verifies only
    if its publisher is one of the authorised ones, the closure validates, the
    signature is the publisher's over the version's domain and the encoded
    closure, and every retained source is an original v1 closure whose own
    publisher is authorised and whose text has the recorded hash. *)
Theorem verify_sound (s : SignedClosure) (pubs : gset string) :
  verify s pubs = Ok tt ->
  publisher s ∈ pubs /\ validate (closure s) = Ok tt /\
  (exists pk sg, decode 32 (publisher s) = Ok pk /\ decode 64 (sig s) = Ok sg /\
     verify_strict pk ((if String.eqb (api_version (closure s)) "celln.dev/closure-v2"
                        then COMPOSITION_DOMAIN else DOMAIN) ++ to_vec (closure s)) sg = true) /\
  (forall src, src ∈ sources (closure s) ->
     exists p, parse src = Ok p /\ publisher p ∈ pubs /\
       api_version (closure p) = "celln.dev/closure-v1" /\ sources (closure p) = [] /\
       hash_of (as_bytes (descriptor src)) = s_hash src).
Proof.
  unfold verify. change (verify_n 4 s pubs) with (verify_with (validate_n 3) (verify_n 3) s pubs).
  intros E. apply verify_with_Ok in E as (Hp & Hs & pk & sg & H1' & _ & H2' & H3' & H4').
  split_and!; [done|done|by exists pk, sg|]. intros src Hin.
  destruct (Hs src Hin) as (p & Hparse & Hv). exists p. rewrite (parse_n 2 1) in Hparse.
  split; [done|]. change (verify_n 3 p pubs) with (verify_with (validate_n 2) (verify_n 2) p pubs) in Hv.
  apply verify_with_Ok in Hv as (Hpub & _). split; [done|].
  pose proof (parse_original _ _ _ Hparse) as [? ?]. split_and!; [done|done|].
  unfold parse_with in Hparse. apply result_bind_Ok in Hparse as (u & Hg & _). apply ensure_Ok in Hg.
  reflect. tauto.
Qed.

(** *** Hexadecimal *)

Lemma unhex_hex_byte b r : unhex (hex_byte b ++ r) = b :: unhex r.
Proof. unfold hex_byte. cbn [app unhex]. f_equal. destruct b; reflexivity. Qed.

Lemma unhex_hex b : unhex (hex_bytes b) = b.
Proof. induction b as [|x b IH]; [done|]. change (hex_bytes (x :: b)) with (hex_byte x ++ hex_bytes b). by rewrite unhex_hex_byte, IH. Qed.

Lemma hex_byte_digits b : forallb is_lower_hex (hex_byte b) = true.
Proof. destruct b; reflexivity. Qed.

Lemma hex_bytes_spec b : forallb is_lower_hex (hex_bytes b) = true /\ length (hex_bytes b) = (2 * length b)%nat.
Proof.
  induction b as [|x b [IH1 IH2]]; [done|]. change (hex_bytes (x :: b)) with (hex_byte x ++ hex_bytes b).
  rewrite forallb_app, hex_byte_digits, IH1. split; [done|].
  rewrite length_app, IH2. cbn. lia.
Qed.

Lemma decode_hex n b : Z.of_nat (length b) = n -> decode n (hex b) = Ok b.
Proof.
  intros Hn. unfold decode, all_bytes. rewrite <- str_len_as_bytes. unfold hex, as_bytes, from_utf8.
  rewrite String.list_byte_of_string_of_list_byte. destruct (hex_bytes_spec b) as [Hd Hl].
  unfold blen. rewrite Hd, Hl, (proj2 (Z.eqb_eq _ _)) by lia. cbn. by rewrite unhex_hex.
Qed.

(** A source that parses verifies under every set with its publisher. *)
Lemma verify_original n s pubs : original s -> publisher s ∈ pubs ->
  verify_n n s {[publisher s]} = Ok tt -> verify_n n s pubs = Ok tt.
Proof.
  intros [Hv Hs] Hp. destruct n as [|n]; [done|].
  change (verify_n (S n) s {[publisher s]}) with (verify_with (validate_n n) (verify_n n) s {[publisher s]}).
  change (verify_n (S n) s pubs) with (verify_with (validate_n n) (verify_n n) s pubs).
  intros E. apply verify_with_Ok in E as (_ & _ & Hx). apply verify_with_Ok.
  split_and!; [done| |done]. rewrite Hs. intros src Hin. by apply elem_of_nil in Hin.
Qed.

Lemma parse_verifies n src p : parse_with (verify_n n) src = Ok p -> verify_n n p {[publisher p]} = Ok tt.
Proof.
  unfold parse_with. intros E. apply result_bind_Ok in E as (? & _ & E).
  apply result_bind_Ok in E as (p' & _ & E). apply result_bind_Ok in E as (? & _ & E).
  apply result_bind_Ok in E as ([] & Hv & [= ->]). done.
Qed.

(** What is signed verifies. A closure that can be signed, because it
    validates, verifies under every set of publishers that authorises the
    signing key and the publishers of the sources it retains. *)
Theorem sign_verifies (c : Closure) (seed : bytes) (s : SignedClosure) (pubs : gset string) :
  sign c seed = Ok s -> hex (verifying_key seed) ∈ pubs ->
  (forall src p, src ∈ sources c -> parse src = Ok p -> publisher p ∈ pubs) ->
  verify s pubs = Ok tt /\ closure s = c.
Proof.
  unfold sign, message, message_with. intros E Hpub Hsrc.
  apply result_bind_Ok in E as (m & Em & [= <-]). apply result_bind_Ok in Em as ([] & Hval & [= <-]).
  split; [|done]. unfold verify.
  change (verify_with (validate_n 3) (verify_n 3)
    (mkSigned c (hex (verifying_key seed))
       (hex (sign_message seed ((if String.eqb (api_version c) "celln.dev/closure-v2"
                                 then COMPOSITION_DOMAIN else DOMAIN) ++ to_vec c)))) pubs = Ok tt).
  apply verify_with_Ok. cbn [publisher closure sig]. split_and!; [done| |].
  - intros src Hin. unfold validate in Hval. cbn [validate_n] in Hval. apply validate_with_Ok in Hval as [_ Hval].
    destruct Hval as [[_ Hn]|(_ & e & He & _)]; [rewrite Hn in Hin; by apply elem_of_nil in Hin|].
    apply compose_with_Ok in He as (fi & ot & m & sets & Hp & _).
    apply list_elem_of_lookup in Hin as [i Hi].
    destruct (Forall2_lookup_l _ _ _ _ _ Hp Hi) as (p & _ & Hpi). exists p.
    pose proof (parse_original _ _ _ Hpi) as Ho.
    rewrite (parse_n 1 2) in Hpi. split; [done|].
    apply verify_original; [done| |by apply (parse_verifies 3 src)].
    apply (Hsrc src); [by eapply list_elem_of_lookup_2|]. unfold parse. by rewrite (parse_n 1 2).
  - eexists _, _. split_and!; [apply decode_hex|apply verifying_key_ok|done|apply decode_hex|apply verify_sign].
    + by rewrite verifying_key_length.
    + by rewrite signature_length.
Qed.
End closures.
