(* ===== verification/Workspace.v ===== *)
(** * The run-owned workspace ([crates/celln-store/src/workspace.rs])

    A bounded map of named artifacts with optimistic concurrency: every mutation
    names the revision it was decided on. A Rust [usize] is 64 bits wide. *)

From S2P Require Import Prelude Manifest Closure.

Record Limits : Type := mkLimits { l_files : Z; file_bytes : Z; total_bytes : Z }.

Inductive Error : Type := Invalid | WrongParent | StaleRevision | Quota | NotFound.

#[export] Instance Error_eq_dec : EqDecision Error.
Proof. solve_decision. Defined.

Record Workspace : Type := mkWorkspace {
  parent : hash;
  limits : Limits;
  revision : Z;
  used : Z;                           (* [bytes] *)
  artifacts : gmap string bytes;
}.

Record Match : Type := mkMatch { m_name : string; m_line : Z; m_text : bytes }.

Definition new (p : hash) (l : Limits) : result Error Workspace :=
  if (l_files l =? 0) || (256 <? l_files l) || (file_bytes l =? 0) || (65536 <? file_bytes l)
     || (total_bytes l <? file_bytes l) || (1048576 <? total_bytes l)
  then Err Invalid
  else Ok (mkWorkspace p l 0 0 ∅).

Definition name_byte (b : byte) : bool := is_alnum b || bool_decide (b ∈ [x2d; x5f; x2e]).
Definition bad_part (p : bytes) : bool :=
  bool_decide (p = []) || bool_decide (p = [x2e]) || bool_decide (p = [x2e; x2e])
  || (64 <? blen p) || negb (forallb name_byte p).
Definition bad_name (name : string) : bool :=
  str_is_empty name || (256 <? str_len name) || existsb bad_part (split_slash (as_bytes name)).

Definition check (w : Workspace) (p : hash) (name : string) : result Error unit :=
  if negb (String.eqb p (parent w)) then Err WrongParent
  else if bad_name name then Err Invalid
  else Ok tt.

Definition read (w : Workspace) (p : hash) (name : string) : result Error bytes :=
  _ ← check w p name; ok_or (artifacts w !! name) NotFound.

Definition write (w : Workspace) (p : hash) (expected : Z) (name : string) (data : bytes) :
    result Error Z * Workspace :=
  match check w p name with
  | Err e => (Err e, w)
  | Ok _ =>
      if negb (expected =? revision w) then (Err StaleRevision, w) else
      let old := artifacts w !! name in
      match checked_add_u64 (wrapping_sub_u64 (used w) (from_option blen 0 old)) (blen data) with
      | None => (Err Quota, w)
      | Some new_bytes =>
          if (file_bytes (limits w) <? blen data) || (total_bytes (limits w) <? new_bytes)
             || (negb (is_Some_bool old) && (l_files (limits w) <=? Z.of_nat (size (artifacts w))))
          then (Err Quota, w) else
          match checked_add_u64 (revision w) 1 with
          | None => (Err Quota, w)
          | Some r => (Ok r, mkWorkspace (parent w) (limits w) r new_bytes (<[name := data]> (artifacts w)))
          end
      end
  end.

Definition list_artifacts (w : Workspace) (p : hash) : result Error (list (string * Z)) :=
  if negb (String.eqb p (parent w)) then Err WrongParent
  else Ok ((fun nd => (nd.1, blen nd.2)) <$> btree_iter (artifacts w)).

Definition append (w : Workspace) (p : hash) (expected : Z) (name : string) (data : bytes) :
    result Error Z * Workspace :=
  match check w p name with
  | Err e => (Err e, w)
  | Ok _ =>
      if negb (expected =? revision w) then (Err StaleRevision, w)
      else write w p expected name (from_option id [] (artifacts w !! name) ++ data)
  end.

Definition delete_artifact (w : Workspace) (p : hash) (expected : Z) (name : string) :
    result Error Z * Workspace :=
  match check w p name with
  | Err e => (Err e, w)
  | Ok _ =>
      if negb (expected =? revision w) then (Err StaleRevision, w) else
      match artifacts w !! name with
      | None => (Err NotFound, w)
      | Some removed =>
          match checked_add_u64 (revision w) 1 with
          | None => (Err Quota, w)
          | Some r =>
              (Ok r, mkWorkspace (parent w) (limits w) r (wrapping_sub_u64 (used w) (blen removed))
                       (delete name (artifacts w)))
          end
      end
  end.

(** ** Search *)

(** [text.lines()]: split after every newline, which is dropped with one carriage
    return before it; nothing follows a final newline. *)
Fixpoint lines_from (cur b : bytes) : list bytes :=
  match b with
  | [] => match cur with [] => [] | _ => [rev cur] end
  | x0a :: r => rev (match cur with x0d :: c => c | _ => cur end) :: lines_from [] r
  | x :: r => lines_from (x :: cur) r
  end.
Definition lines (b : bytes) : list bytes := lines_from [] b.

(** [line.contains(pattern)]. *)
Fixpoint is_prefix (p b : bytes) : bool :=
  match p, b with
  | [], _ => true
  | x :: p, y :: b => bool_decide (x = y) && is_prefix p b
  | _ :: _, [] => false
  end.
Fixpoint contains (p b : bytes) : bool :=
  is_prefix p b || match b with [] => false | _ :: b => contains p b end.

(** The two loops of [search], which return as soon as a match is found beyond
    the limit. The state is the matches so far, and whether the search returned. *)
Definition search_line (limit : Z) (pattern : bytes) (name : string)
    (acc : list Match * bool) (il : Z * bytes) : list Match * bool :=
  let '(found, returned) := acc in
  if returned then acc
  else if negb (contains pattern il.2) then acc
  else if limit <=? Z.of_nat (length found) then (found, true)
  else (found ++ [mkMatch name (il.1 + 1) il.2], false).

Definition enumerate {A} (l : list A) : list (Z * A) := imap (fun i a => (Z.of_nat i, a)) l.

Definition search_artifact (limit : Z) (pattern : bytes) (acc : list Match * bool) (nd : string * bytes) :
    list Match * bool :=
  if acc.2 then acc
  else if negb (utf8_valid nd.2) then acc
  else foldl (search_line limit pattern nd.1) acc (enumerate (lines nd.2)).

Definition search (w : Workspace) (p : hash) (pattern : string) (limit : Z) : result Error (list Match) :=
  if negb (String.eqb p (parent w)) then Err WrongParent
  else if str_is_empty pattern || (256 <? str_len pattern) then Err Invalid
  else Ok (foldl (search_artifact limit (as_bytes pattern)) ([], false) (btree_iter (artifacts w))).1.

(** ** Histories *)

Inductive op : Type :=
| OWrite (p : hash) (expected : Z) (name : string) (data : bytes)
| OAppend (p : hash) (expected : Z) (name : string) (data : bytes)
| ODelete (p : hash) (expected : Z) (name : string).

Definition step (w : Workspace) (o : op) : result Error Z * Workspace :=
  match o with
  | OWrite p e n d => write w p e n d
  | OAppend p e n d => append w p e n d
  | ODelete p e n => delete_artifact w p e n
  end.
Definition run (w : Workspace) (ops : list op) : Workspace := foldl (fun w o => (step w o).2) w ops.

Definition caller (o : op) : hash := match o with OWrite p _ _ _ | OAppend p _ _ _ | ODelete p _ _ => p end.
Definition expected (o : op) : Z := match o with OWrite _ e _ _ | OAppend _ e _ _ | ODelete _ e _ => e end.
Definition target (o : op) : string := match o with OWrite _ _ n _ | OAppend _ _ n _ | ODelete _ _ n => n end.

(** ** The specification: a map, without machine arithmetic *)

Definition next_map (o : op) (m : gmap string bytes) : option (gmap string bytes) :=
  match o with
  | OWrite _ _ n d => Some (<[n := d]> m)
  | OAppend _ _ n d => Some (<[n := from_option id [] (m !! n) ++ d]> m)
  | ODelete _ _ n => if is_Some_bool (m !! n) then Some (delete n m) else None
  end.

Definition fits (l : Limits) (m : gmap string bytes) (name : string) : bool :=
  (from_option blen 0 (m !! name) <=? file_bytes l) && (total blen m <=? total_bytes l)
  && (Z.of_nat (size m) <=? l_files l).

Definition spec_step (w : Workspace) (o : op) : result Error (gmap string bytes) :=
  _ ← ensure (String.eqb (caller o) (parent w)) WrongParent;
  _ ← ensure (negb (bad_name (target o))) Invalid;
  _ ← ensure (expected o =? revision w) StaleRevision;
  m ← ok_or (next_map o (artifacts w)) NotFound;
  _ ← ensure (fits (limits w) m (target o) && (revision w <? u64_max)) Quota;
  Ok m.

Record inv (w : Workspace) : Prop := {
  inv_used : used w = total blen (artifacts w);
  inv_total : used w <= total_bytes (limits w);
  inv_files : Z.of_nat (size (artifacts w)) <= l_files (limits w);
  inv_each : forall n d, artifacts w !! n = Some d -> blen d <= file_bytes (limits w) /\ bad_name n = false;
  inv_revision : in_u64 (revision w);
  inv_limits : total_bytes (limits w) <= 1048576 /\ 0 < file_bytes (limits w);
}.

Lemma blen_nonneg b : 0 <= blen b.
Proof. unfold blen. lia. Qed.

Lemma blen_app a b : blen (a ++ b) = blen a + blen b.
Proof. unfold blen. rewrite length_app. lia. Qed.

Lemma used_bounds w : inv w -> 0 <= used w <= 1048576.
Proof.
  intros []. split; [|lia]. rewrite inv_used0. apply total_nonneg. intros. apply blen_nonneg.
Qed.

Lemma old_le w n : inv w -> 0 <= from_option blen 0 (artifacts w !! n) <= used w.
Proof.
  intros Hi. destruct (artifacts w !! n) as [d|] eqn:Hd; cbn; [|pose proof (used_bounds w Hi); lia].
  split; [apply blen_nonneg|]. rewrite (inv_used w Hi).
  apply (total_lookup_le blen n d); [intros; apply blen_nonneg|done].
Qed.

Lemma used_without w n : inv w -> wrapping_sub_u64 (used w) (from_option blen 0 (artifacts w !! n)) =
  used w - from_option blen 0 (artifacts w !! n).
Proof.
  intros Hi. apply wrapping_sub_u64_exact; [|by apply old_le].
  pose proof (used_bounds w Hi). unfold in_u64, u64_max. lia.
Qed.

Lemma total_write w n d : inv w ->
  total blen (<[n := d]> (artifacts w)) = used w - from_option blen 0 (artifacts w !! n) + blen d.
Proof.
  intros Hi. rewrite (inv_used w Hi). destruct (artifacts w !! n) as [old|] eqn:Hn; cbn.
  - by rewrite (total_insert_Some blen n old).
  - rewrite total_insert_None by done. lia.
Qed.

Lemma size_write (m : gmap string bytes) n d :
  Z.of_nat (size (<[n := d]> m)) = Z.of_nat (size m) + (if is_Some_bool (m !! n) then 0 else 1).
Proof.
  destruct (m !! n) eqn:Hn; cbn; [rewrite map_size_insert_Some by eauto|rewrite map_size_insert_None by done]; lia.
Qed.

Lemma total_delete m n d : m !! n = Some d -> total blen (delete n m) = total blen m - blen d.
Proof.
  intros Hn. pose proof (total_insert_None blen n d (delete n m) (lookup_delete_eq m n)) as E.
  rewrite insert_delete_id in E by done. lia.
Qed.

(** What a step must do: refuse and change nothing, or install the specified map
    under the next revision. *)
Definition outcome (w : Workspace) (o : op) : result Error Z * Workspace :=
  match spec_step w o with
  | Err e => (Err e, w)
  | Ok m => (Ok (revision w + 1), mkWorkspace (parent w) (limits w) (revision w + 1) (total blen m) m)
  end.

Lemma workspace_check_spec w p name :
  check w p name = (_ ← ensure (String.eqb p (parent w)) WrongParent; ensure (negb (bad_name name)) Invalid).
Proof. unfold check. destruct (String.eqb _ _); cbn; [|done]. by destruct (bad_name name). Qed.

Lemma write_outcome w p e n d : inv w -> write w p e n d = outcome w (OWrite p e n d).
Proof.
  intros Hi. unfold write, outcome, spec_step. cbn [caller target expected next_map].
  rewrite workspace_check_spec. destruct (String.eqb p (parent w)); cbn; [|done].
  destruct (bad_name n); cbn; [done|]. destruct (Z.eqb_spec e (revision w)); cbn; [|done].
  rewrite used_without by done. unfold fits. rewrite lookup_insert_eq. cbn.
  rewrite total_write, size_write by done. pose proof (old_le w n Hi) as Ho.
  pose proof (used_bounds w Hi) as Hu. pose proof (blen_nonneg d) as Hd.
  pose proof (total_write w n d Hi) as Hw. destruct Hi.
  unfold checked_add_u64. set (t := used w - _ + blen d).
  destruct (Z.leb_spec t u64_max) as [Ht|Ht].
  2:{ assert (Ht2 : total_bytes (limits w) < t) by (unfold u64_max in *; lia).
      rewrite (proj2 (Z.leb_gt t _) Ht2), andb_false_r. cbn. done. }
  cbn. destruct (Z.ltb_spec (file_bytes (limits w)) (blen d)); cbn.
  { rewrite (proj2 (Z.leb_gt _ _)) by lia. done. }
  rewrite (proj2 (Z.leb_le (blen d) _)) by lia. cbn.
  destruct (Z.ltb_spec (total_bytes (limits w)) t); cbn.
  { rewrite (proj2 (Z.leb_gt _ _)) by lia. done. }
  rewrite (proj2 (Z.leb_le t _)) by lia. cbn.
  assert (Hfiles : negb (is_Some_bool (artifacts w !! n)) && (l_files (limits w) <=? Z.of_nat (size (artifacts w))) =
    negb (Z.of_nat (size (artifacts w)) + (if is_Some_bool (artifacts w !! n) then 0 else 1) <=? l_files (limits w))).
  { destruct (is_Some_bool _); cbn; [symmetry; apply negb_false_iff, Z.leb_le; lia|].
    apply eq_iff_eq_true. reflect. lia. }
  rewrite Hfiles. destruct (_ + _ <=? l_files (limits w)); cbn; [|done].
  unfold in_u64 in *. destruct (Z.leb_spec (revision w + 1) u64_max), (Z.ltb_spec (revision w) u64_max); try lia; [|done].
  cbn. by rewrite Hw.
Qed.

Lemma step_outcome w o : inv w -> step w o = outcome w o.
Proof.
  intros Hi. destruct o as [p e n d|p e n d|p e n]; cbn [step].
  - by apply write_outcome.
  - unfold append. rewrite workspace_check_spec. unfold outcome, spec_step. cbn [caller target expected next_map].
    destruct (String.eqb_spec p (parent w)); cbn; [|done].
    destruct (bad_name n) eqn:Hn; cbn; [done|]. destruct (Z.eqb_spec e (revision w)); cbn; [|done].
    rewrite write_outcome by done. unfold outcome, spec_step. cbn [caller target expected next_map].
    subst. rewrite String.eqb_refl, Hn, Z.eqb_refl. done.
  - unfold delete_artifact. rewrite workspace_check_spec. unfold outcome, spec_step. cbn [caller target expected next_map].
    destruct (String.eqb p (parent w)); cbn; [|done].
    destruct (bad_name n) eqn:Hn; cbn; [done|]. destruct (Z.eqb_spec e (revision w)); cbn; [|done].
    destruct (artifacts w !! n) as [d|] eqn:Hd; cbn; [|done].
    assert (Hw : total blen (delete n (artifacts w)) = used w - blen d)
      by (rewrite (total_delete _ _ d) by done; by rewrite (inv_used w Hi)).
    unfold fits. rewrite lookup_delete_eq. cbn. rewrite Hw.
    pose proof (used_bounds w Hi) as Hu. pose proof (blen_nonneg d) as Hb.
    pose proof (old_le w n Hi) as Ho. rewrite Hd in Ho. cbn in Ho.
    assert (Hs : (size (delete n (artifacts w)) <= size (artifacts w))%nat) by apply map_subseteq_size, delete_subseteq.
    destruct Hi. unfold in_u64 in *.
    rewrite (proj2 (Z.leb_le 0 _)), (proj2 (Z.leb_le (used w - blen d) _)), (proj2 (Z.leb_le (Z.of_nat _) _)) by lia. cbn.
    unfold checked_add_u64. rewrite wrapping_sub_u64_exact by (unfold in_u64, u64_max; lia).
    destruct (Z.leb_spec (revision w + 1) u64_max), (Z.ltb_spec (revision w) u64_max); try lia; [|done].
    cbn. by rewrite Hw.
Qed.

Lemma outcome_inv w o : inv w -> inv (outcome w o).2.
Proof.
  intros Hi. unfold outcome. destruct (spec_step w o) as [m|e] eqn:E; [|done]. unfold spec_step in E.
  split_ok. reflect. unfold fits in *. reflect. destruct_and?. destruct Hi. unfold in_u64 in *.
  constructor; cbn; try done; try (unfold in_u64 in *; lia). intros n d Hn.
  destruct (decide (n = target o)) as [->|Hne].
  - match goal with H : from_option blen 0 _ <= _ |- _ => rewrite Hn in H; cbn in H end. done.
  - apply (inv_each0 n). destruct o as [p e n' d'|p e n' d'|p e n']; cbn in *; simplify_eq.
    + by rewrite lookup_insert_ne in Hn by done.
    + by rewrite lookup_insert_ne in Hn by done.
    + destruct (is_Some_bool _); simplify_eq. by rewrite lookup_delete_ne in Hn by done.
Qed.

Lemma workspace_step_inv w o : inv w -> inv (step w o).2.
Proof. intros Hi. rewrite step_outcome by done. by apply outcome_inv. Qed.

Lemma new_inv p l w : in_u64 (l_files l) -> in_u64 (file_bytes l) -> in_u64 (total_bytes l) ->
  new p l = Ok w -> inv w /\ artifacts w = ∅ /\ revision w = 0 /\ limits w = l /\ parent w = p.
Proof.
  intros Hf Hb Ht. unfold new, in_u64 in *. destruct (_ || _) eqn:E; [done|]. intros [= <-]. reflect.
  destruct_and?. split; [|done]. constructor; cbn; try done; rewrite ?total_empty, ?map_size_empty; try lia.
Qed.

Lemma workspace_run_inv w ops : inv w -> inv (run w ops).
Proof. intros Hi. unfold run. revert w Hi. induction ops as [|o ops IH]; intros w Hi; cbn; [done|]. by apply IH, workspace_step_inv. Qed.

Lemma step_cases w o : inv w ->
  (exists m, spec_step w o = Ok m /\ (step w o).1 = Ok (revision w + 1) /\ revision (step w o).2 = revision w + 1 /\
     artifacts (step w o).2 = m) \/
  (exists e, (step w o).1 = Err e /\ (step w o).2 = w).
Proof.
  intros Hi. rewrite step_outcome by done. unfold outcome. destruct (spec_step w o) as [m|e]; [left|right]; eauto.
Qed.

Lemma run_fixed w ops : inv w -> parent (run w ops) = parent w /\ limits (run w ops) = limits w.
Proof.
  revert w. induction ops as [|o ops IH]; intros w Hi; [done|].
  change (run w (o :: ops)) with (run (step w o).2 ops).
  destruct (IH _ (workspace_step_inv w o Hi)) as [-> ->]. rewrite step_outcome by done.
  unfold outcome. by destruct (spec_step w o).
Qed.

Lemma run_revision w ops : inv w -> revision w <= revision (run w ops).
Proof.
  revert w. induction ops as [|o ops IH]; intros w Hi; cbn; [done|].
  pose proof (IH _ (workspace_step_inv w o Hi)). destruct (step_cases w o Hi) as [(? & ? & ? & ? & ?)|(? & ? & E)].
  - unfold run in *. lia.
  - rewrite E in *. done.
Qed.

(** ** Properties *)

(** The whole map as an association from names to contents, ordered by name, and
    the lines of it that a search may return. *)
Definition line_matches (pattern : bytes) (name : string) (l : list (Z * bytes)) : list Match :=
  (fun il => mkMatch name (il.1 + 1) il.2) <$> filter (fun il => contains pattern il.2 = true) l.
Definition artifact_matches (pattern : bytes) (nd : string * bytes) : list Match :=
  if utf8_valid nd.2 then line_matches pattern nd.1 (enumerate (lines nd.2)) else [].
Definition all_matches (w : Workspace) (pattern : string) : list Match :=
  mjoin (artifact_matches (as_bytes pattern) <$> btree_iter (artifacts w)).

(** The state of the loops once they have met the matches [all]. *)
Definition met (limit : Z) (all : list Match) : list Match * bool :=
  (take (Z.to_nat limit) all, limit <? Z.of_nat (length all)).

Lemma line_matches_cons pattern name il l : line_matches pattern name (il :: l) =
  line_matches pattern name [il] ++ line_matches pattern name l.
Proof. unfold line_matches. rewrite !filter_cons, filter_nil. by destruct (decide _). Qed.

Lemma search_line_met limit pattern name all il : 0 <= limit ->
  search_line limit pattern name (met limit all) il = met limit (all ++ line_matches pattern name [il]).
Proof.
  intros Hl. unfold search_line, met, line_matches. rewrite filter_cons, filter_nil, length_app.
  destruct (Z.ltb_spec limit (Z.of_nat (length all))) as [Hr|Hr].
  - rewrite take_app_le by lia. f_equal. symmetry. apply Z.ltb_lt. lia.
  - rewrite (take_ge all) by lia. destruct (contains pattern il.2); cbn.
    + rewrite decide_True by done. cbn. destruct (Z.leb_spec limit (Z.of_nat (length all))).
      * rewrite take_app_le, take_ge by lia. f_equal. symmetry. apply Z.ltb_lt. lia.
      * rewrite take_ge by (rewrite length_app; cbn; lia). f_equal. symmetry. apply Z.ltb_ge. lia.
    + rewrite decide_False by done. cbn. rewrite app_nil_r, take_ge by lia. f_equal. symmetry. apply Z.ltb_ge. lia.
Qed.

Lemma search_lines_met limit pattern name l all : 0 <= limit ->
  foldl (search_line limit pattern name) (met limit all) l = met limit (all ++ line_matches pattern name l).
Proof.
  intros Hl. revert all. induction l as [|il l IH]; intros all; [cbn; by rewrite app_nil_r|].
  rewrite (line_matches_cons pattern name il l), app_assoc. cbn [foldl]. by rewrite search_line_met, IH.
Qed.

Lemma search_artifact_met limit pattern all nd : 0 <= limit ->
  search_artifact limit pattern (met limit all) nd = met limit (all ++ artifact_matches pattern nd).
Proof.
  intros Hl. unfold search_artifact, artifact_matches. destruct (utf8_valid nd.2); cbn [negb].
  - rewrite <- search_lines_met by done. destruct ((met limit all).2) eqn:Hr; [|done].
    clear -Hr. destruct (met limit all) as [found r]. cbn in Hr. subst r.
    by induction (enumerate (lines nd.2)) as [|il l IH].
  - rewrite app_nil_r. by destruct (met limit all).2.
Qed.

Lemma search_met limit pattern l all : 0 <= limit ->
  foldl (search_artifact limit pattern) (met limit all) l = met limit (all ++ mjoin (artifact_matches pattern <$> l)).
Proof.
  intros Hl. revert all. induction l as [|nd l IH]; intros all; cbn; [by rewrite app_nil_r|].
  by rewrite search_artifact_met, IH, app_assoc.
Qed.

(** A workspace never leaves its quota: after any history of writes, appends
    and deletions from any callers, the byte counter is the exact total of the
    stored artifacts, no subtraction has wrapped, and the total, every artifact and
    the number of artifacts are within the limits it was created with. *)
Theorem workspace_quota (p : hash) (l : Limits) (w : Workspace) (ops : list op) :
  in_u64 (l_files l) -> in_u64 (file_bytes l) -> in_u64 (total_bytes l) -> new p l = Ok w ->
  used (run w ops) = total blen (artifacts (run w ops)) /\
  used (run w ops) <= total_bytes l /\
  Z.of_nat (size (artifacts (run w ops))) <= l_files l /\
  (forall n d, artifacts (run w ops) !! n = Some d -> blen d <= file_bytes l /\ bad_name n = false) /\
  in_u64 (revision (run w ops)).
Proof.
  intros Hf Hb Ht Hn. destruct (new_inv p l w Hf Hb Ht Hn) as (Hi & _ & _ & Hl & _).
  destruct (run_fixed w ops Hi) as [_ Hlim]. rewrite Hl in Hlim.
  pose proof (workspace_run_inv w ops Hi) as []. rewrite Hlim in *. done.
Qed.

(** C36: The workspace implements its specification, a finite map updated under
    compare-and-swap: on every reachable state each mutation either returns the
    specified error and changes nothing, or installs exactly the specified map
    under the next revision. The specification does no machine arithmetic. *)
Theorem workspace_refines (p : hash) (l : Limits) (w : Workspace) (ops : list op) (o : op) :
  in_u64 (l_files l) -> in_u64 (file_bytes l) -> in_u64 (total_bytes l) -> new p l = Ok w ->
  step (run w ops) o = outcome (run w ops) o.
Proof.
  intros Hf Hb Ht Hn. destruct (new_inv p l w Hf Hb Ht Hn) as (Hi & _).
  by apply step_outcome, workspace_run_inv.
Qed.

(** Optimistic concurrency is sound: two mutations that named the same
    revision never both succeed, whatever happened between them; the second is
    refused (as stale, if its caller and name were right) and changes nothing. *)
Theorem workspace_cas (p : hash) (l : Limits) (w : Workspace) (before between : list op) (o1 o2 : op) (r : Z) :
  in_u64 (l_files l) -> in_u64 (file_bytes l) -> in_u64 (total_bytes l) -> new p l = Ok w ->
  (step (run w before) o1).1 = Ok r -> expected o2 = expected o1 ->
  let w2 := run (step (run w before) o1).2 between in
  (exists e, step w2 o2 = (Err e, w2)) /\
  (caller o2 = p -> bad_name (target o2) = false -> step w2 o2 = (Err StaleRevision, w2)).
Proof.
  intros Hf Hb Ht Hn Hok He w2. destruct (new_inv p l w Hf Hb Ht Hn) as (Hi & _ & _ & _ & Hp).
  set (w1 := run w before) in *. assert (Hi1 : inv w1) by by apply workspace_run_inv.
  assert (Hi1' : inv (step w1 o1).2) by by apply workspace_step_inv.
  assert (Hi2 : inv w2) by by apply workspace_run_inv.
  destruct (step_cases w1 o1 Hi1) as [(m & Hm & _ & Hr & _)|(e & Hm & _)]; [|congruence].
  pose proof (run_revision (step w1 o1).2 between Hi1') as Hrev. fold w2 in Hrev.
  assert (Hexp : expected o1 = revision w1).
  { unfold spec_step in Hm. split_ok. reflect. done. }
  assert (Hst : expected o2 =? revision w2 = false) by (apply Z.eqb_neq; lia).
  assert (Hpar : parent w2 = p).
  { unfold w2. rewrite (proj1 (run_fixed _ between Hi1')). rewrite step_outcome by done. unfold outcome.
    destruct (spec_step w1 o1); cbn; unfold w1; rewrite (proj1 (run_fixed w before Hi)); done. }
  rewrite step_outcome by done. unfold outcome, spec_step. rewrite Hst, Hpar. split.
  - destruct (String.eqb _ _); cbn; [|by eexists]. by destruct (bad_name _); cbn; eexists.
  - intros -> ->. by rewrite String.eqb_refl.
Qed.

(** A search returns the first [limit] lines, in name then line order, of the
    text artifacts that contain the pattern, and skips exactly the artifacts that
    are not UTF-8; it finds all of them when there are no more than [limit]. *)
Theorem workspace_search (w : Workspace) (p : hash) (pattern : string) (limit : Z) (found : list Match) :
  0 <= limit -> search w p pattern limit = Ok found ->
  p = parent w /\ found = take (Z.to_nat limit) (all_matches w pattern) /\
  (Z.of_nat (length (all_matches w pattern)) <= limit -> found = all_matches w pattern) /\
  (forall m, m ∈ found -> exists d, artifacts w !! m_name m = Some d /\ utf8_valid d = true /\
     lines d !! Z.to_nat (m_line m - 1) = Some (m_text m) /\ contains (as_bytes pattern) (m_text m) = true).
Proof.
  intros Hl. unfold search. destruct (String.eqb_spec p (parent w)) as [->|]; cbn; [|done].
  destruct (_ || _); [done|]. intros [= <-].
  replace (@pair (list Match) bool [] false) with (met limit []).
  2:{ unfold met. rewrite take_nil. f_equal. apply Z.ltb_ge. cbn. lia. }
  rewrite search_met by done. change ([] ++ ?x) with x. fold (all_matches w pattern). cbn [fst met].
  split; [done|]. split; [done|]. split; [intros; apply take_ge; lia|].
  intros m Hm. apply (elem_of_submseteq _ (all_matches w pattern)) in Hm;
    [|apply sublist_submseteq, sublist_take]. unfold all_matches in Hm.
  apply list_elem_of_join in Hm as (ms & Hm & (nd & -> & Hnd)%list_elem_of_fmap).
  unfold artifact_matches in Hm. destruct (utf8_valid nd.2) eqn:Hu; [|by apply elem_of_nil in Hm].
  apply list_elem_of_fmap in Hm as (il & -> & [Hc Hil]%list_elem_of_filter).
  exists nd.2. split; [by apply btree_iter_elem; destruct nd|]. split; [done|].
  unfold enumerate in Hil. apply elem_of_lookup_imap_1 in Hil as (i & line & -> & Hi). cbn.
  by replace (Z.to_nat (Z.of_nat i + 1 - 1)) with i by lia.
Qed.

(** ** Examples *)

Definition ex_limits : Limits := mkLimits 2 16 20.
Definition ex_text : bytes := as_bytes "ab cd
cd
xy".
Definition ex_ops : list op := [OWrite "p" 0 "a/b" ex_text; OAppend "p" 1 "c" [x63; x64]; OAppend "p" 0 "c" [x63]].
Definition ex_new : Workspace := from_option id (mkWorkspace "" ex_limits 0 0 ∅) (to_option (new "p" ex_limits)).

Lemma workspace_quota_witness :
  used (run ex_new ex_ops) = total blen (artifacts (run ex_new ex_ops)) /\
  size (artifacts (run ex_new ex_ops)) = 2%nat /\ revision (run ex_new ex_ops) = 2.
Proof.
  assert (Hn : new "p" ex_limits = Ok ex_new) by reflexivity.
  destruct (workspace_quota "p" ex_limits ex_new ex_ops) as (H & _);
    [unfold in_u64, u64_max; cbn; lia..|exact Hn|]. split; [exact H|]. split; vm_compute; reflexivity.
Defined.

Lemma workspace_refines_witness :
  step (run ex_new ex_ops) (OAppend "p" 2 "c" ex_text) = (Err Quota, run ex_new ex_ops) /\
  step (run ex_new ex_ops) (OAppend "p" 2 "c" ex_text) = outcome (run ex_new ex_ops) (OAppend "p" 2 "c" ex_text).
Proof.
  split; [vm_compute; reflexivity|].
  apply (workspace_refines "p" ex_limits); [unfold in_u64, u64_max; cbn; lia..|reflexivity].
Defined.

Lemma workspace_cas_witness :
  let w2 := run (step (run ex_new []) (OWrite "p" 0 "a" [x61])).2 [ODelete "p" 1 "a"] in
  step w2 (OAppend "p" 0 "a" [x62]) = (Err StaleRevision, w2).
Proof.
  apply (workspace_cas "p" ex_limits ex_new [] [ODelete "p" 1 "a"] (OWrite "p" 0 "a" [x61]) (OAppend "p" 0 "a" [x62]) 1);
    first [unfold in_u64, u64_max; cbn; lia | reflexivity].
Defined.

Lemma workspace_search_witness :
  length (all_matches (run ex_new ex_ops) "cd") = 3%nat /\
  search (run ex_new ex_ops) "p" "cd" 2 = Ok (take 2 (all_matches (run ex_new ex_ops) "cd")).
Proof.
  split; [vm_compute; reflexivity|].
  destruct (search (run ex_new ex_ops) "p" "cd" 2) as [found|e] eqn:E; [|vm_compute in E; discriminate E].
  destruct (workspace_search (run ex_new ex_ops) "p" "cd" 2 found) as (_ & H & _); [lia|exact E|].
  by rewrite H.
Defined.
