(* ===== verification/Broker.v ===== *)
(** * The workspace broker ([crates/celln-warden/src/workspace_broker.rs])

    The guest's requests on run-owned data. A grant is a shared handle: its copies
    point to one [Authority] and one workspace, which live in heaps here, so that a
    revocation through the lease reaches every copy. Every mutex carries its poison
    flag, and an authority whose last handle is gone is [freed]. *)

From S2P Require Import Prelude Json Instances Manifest Protocol Lease.
From S2P Require Control Workspace.

(** ** Data *)

Record ArtifactOperations : Type := mkOps {
  o_read : bool;
  o_write : bool;
  o_list : bool;
  o_append : bool;
  o_search : bool;
  o_delete : bool;
}.

Inductive Operation : Type :=
| Read (name : string)
| Write (name : string) (revision : Z) (content : string)
| List
| Append (name : string) (revision : Z) (content : string)
| Search (pattern : string)
| Delete (name : string) (revision : Z).

Record Request : Type := mkRequest { api_version : string; body : Operation }.

Record Authority : Type := mkAuthority {
  a_active : bool;
  a_only : option ArtifactOperations;
  a_remaining : Z;
  a_read : bool;
  a_write : bool;
  a_control : nat;
  a_operation_control : option nat;
  a_poisoned : bool;
  a_freed : bool;
}.

(** [data] and [authority] are the two [Arc]s of a grant. *)
Record Grant : Type := mkGrant { g_parent : hash; g_data : nat; g_authority : nat }.

#[export] Instance Grant_eq_dec : EqDecision Grant.
Proof. solve_decision. Defined.

Record Owner : Type := mkOwner {
  w_parent : hash;
  w_data : nat;
  w_claimed : gset string;
  w_active : option nat;             (* a [Weak] *)
}.

(** The shared heaps: control nodes, workspaces with their poison flags, and
    authorities. *)
Record Heap : Type := mkHeap {
  controls : Control.World;
  datas : list (Workspace.Workspace * bool);
  authorities : list Authority;
}.

Definition with_controls (s : Heap) (w : Control.World) : Heap := mkHeap w (datas s) (authorities s).
Definition with_datas (s : Heap) (d : list (Workspace.Workspace * bool)) : Heap := mkHeap (controls s) d (authorities s).
Definition with_authorities (s : Heap) (l : list Authority) : Heap := mkHeap (controls s) (datas s) l.

Definition set_active (a : Authority) (b : bool) : Authority :=
  mkAuthority b (a_only a) (a_remaining a) (a_read a) (a_write a) (a_control a) (a_operation_control a)
    (a_poisoned a) (a_freed a).
Definition set_only (a : Authority) (o : ArtifactOperations) : Authority :=
  mkAuthority (a_active a) (Some o) (a_remaining a) (a_read a) (a_write a) (a_control a) (a_operation_control a)
    (a_poisoned a) (a_freed a).
Definition set_operation_control (a : Authority) (c : nat) : Authority :=
  mkAuthority (a_active a) (a_only a) (a_remaining a) (a_read a) (a_write a) (a_control a) (Some c)
    (a_poisoned a) (a_freed a).
Definition spend (a : Authority) : Authority :=
  mkAuthority (a_active a) (a_only a) (a_remaining a - 1) (a_read a) (a_write a) (a_control a)
    (a_operation_control a) (a_poisoned a) (a_freed a).
Definition poison (a : Authority) : Authority :=
  mkAuthority (a_active a) (a_only a) (a_remaining a) (a_read a) (a_write a) (a_control a)
    (a_operation_control a) true (a_freed a).
Definition free (a : Authority) : Authority :=
  mkAuthority (a_active a) (a_only a) (a_remaining a) (a_read a) (a_write a) (a_control a)
    (a_operation_control a) (a_poisoned a) true.

Definition update (s : Heap) (i : nat) (f : Authority -> Authority) : Heap :=
  with_authorities s (alter f i (authorities s)).

(** ** Operations of a scoped grant *)

Definition read_write (r w : bool) : ArtifactOperations := mkOps r w false false false false.

Definition grant_operation (o : ArtifactOperations) (operation : string) : bool * ArtifactOperations :=
  if String.eqb operation "read" then (true, mkOps true (o_write o) (o_list o) (o_append o) (o_search o) (o_delete o))
  else if String.eqb operation "write" then (true, mkOps (o_read o) true (o_list o) (o_append o) (o_search o) (o_delete o))
  else if String.eqb operation "list" then (true, mkOps (o_read o) (o_write o) true (o_append o) (o_search o) (o_delete o))
  else if String.eqb operation "append" then (true, mkOps (o_read o) (o_write o) (o_list o) true (o_search o) (o_delete o))
  else if String.eqb operation "search" then (true, mkOps (o_read o) (o_write o) (o_list o) (o_append o) true (o_delete o))
  else if String.eqb operation "delete" then (true, mkOps (o_read o) (o_write o) (o_list o) (o_append o) (o_search o) true)
  else (false, o).

Definition reads (o : ArtifactOperations) : bool := o_read o || o_list o || o_search o.
Definition writes (o : ArtifactOperations) : bool := o_write o || o_append o || o_delete o.

Definition allows (o : ArtifactOperations) (operation : Operation) : bool :=
  match operation with
  | Read _ => o_read o
  | Write _ _ _ => o_write o
  | List => o_list o
  | Append _ _ _ => o_append o
  | Search _ => o_search o
  | Delete _ _ => o_delete o
  end.

(** [Error]'s [Display]. *)
Definition workspace_error (e : Workspace.Error) : string :=
  match e with
  | Workspace.Invalid => "invalid workspace limits or artifact name"
  | Workspace.WrongParent => "workspace belongs to another parent"
  | Workspace.StaleRevision => "workspace revision changed; reconcile original write"
  | Workspace.Quota => "workspace quota exceeded"
  | Workspace.NotFound => "artifact not found"
  end.

Definition SEARCH_MATCHES : Z := 32.
Definition SEARCH_LINE_CHARS : nat := 256.
Definition truncated (text : bytes) (chars : nat) : bytes := take_chars chars text.

Definition check_control (s : Heap) (c : nat) : result string unit * Heap :=
  let '(r, w) := Control.check (controls s) c in (r, with_controls s w).

(** ** The owner's side *)

Section broker.
Context `{Blake3} `{Json (string * string)}.
(** The derived decoder of [Request] and [serde_json::to_vec] of a response. *)
Context (from_str : string -> option Request) (encode_response : Value -> option bytes).

Definition new (p : hash) (l : Workspace.Limits) (s : Heap) : result string Owner * Heap :=
  match Workspace.new p l with
  | Err e => (Err (workspace_error e), s)
  | Ok w => (Ok (mkOwner p (length (datas s)) ∅ None), with_datas s (datas s ++ [(w, false)]))
  end.

(** [Weak::upgrade]. *)
Definition upgrade (s : Heap) (w : option nat) : option (nat * Authority) :=
  i ← w; a ← authorities s !! i; if a_freed a then None else Some (i, a).

Definition bounds (max_operations : Z) : bool := (1 <=? max_operations) && (max_operations <=? 64).

(** The lease and the grant are one index: they share the authority. *)
Definition begin (o : Owner) (t : ReservedTurn) (r w : bool) (max_operations : Z) (c : nat) (s : Heap) :
    result string Grant * Owner * Heap :=
  let child := child_identity (w_parent o) (turn_id (rt_request t)) in
  if negb (String.eqb (rt_parent t) (w_parent o)) || negb (String.eqb (rt_child t) child) || (negb r && negb w)
     || negb (bounds max_operations) || (1024 <=? size (w_claimed o))%nat || bool_decide (rt_child t ∈ w_claimed o)
  then (Err "workspace grant does not match reserved child or bounds", o, s) else
  let '(alive, s) := check_control s c in
  match alive with
  | Err e => (Err e, o, s)
  | Ok _ =>
      let busy := match upgrade s (w_active o) with
                  | None => Ok tt
                  | Some (_, a) =>
                      if a_poisoned a then Err "workspace authority unavailable"
                      else if a_active a then Err "workspace already has an active child" else Ok tt
                  end in
      match busy with
      | Err e => (Err e, o, s)
      | Ok _ =>
          let i := length (authorities s) in
          let a := mkAuthority true None max_operations r w c None false false in
          (Ok (mkGrant (w_parent o) (w_data o) i),
           mkOwner (w_parent o) (w_data o) ({[rt_child t]} ∪ w_claimed o) (Some i),
           with_authorities s (authorities s ++ [a]))
      end
  end.

Definition begin_artifacts (o : Owner) (t : ReservedTurn) (ops : ArtifactOperations) (max_operations : Z)
    (c : nat) (s : Heap) : result string Grant * Owner * Heap :=
  match begin o t (reads ops) (writes ops) max_operations c s with
  | (Ok g, o, s) => (Ok g, o, update s (g_authority g) (fun a => set_only a ops))
  | e => e
  end.

Definition ephemeral (run : hash) (l : Workspace.Limits) (ops : ArtifactOperations) (max_operations : Z)
    (c : nat) (s : Heap) : result string Grant * Heap :=
  if negb (reads ops || writes ops) || negb (bounds max_operations)
  then (Err "workspace grant does not match bounds", s) else
  let '(alive, s) := check_control s c in
  match alive with
  | Err e => (Err e, s)
  | Ok _ =>
      match Workspace.new run l with
      | Err e => (Err (workspace_error e), s)
      | Ok w =>
          (Ok (mkGrant run (length (datas s)) (length (authorities s))),
           mkHeap (controls s) (datas s ++ [(w, false)])
             (authorities s ++ [mkAuthority true (Some ops) max_operations (reads ops) (writes ops) c None false false]))
      end
  end.

(** [Drop] of a lease, and of the owner. *)
Definition drop_lease (i : nat) (s : Heap) : Heap :=
  update s i (fun a => if a_poisoned a then a else set_active a false).
Definition drop_owner (o : Owner) (s : Heap) : Heap :=
  match upgrade s (w_active o) with Some (i, _) => drop_lease i s | None => s end.

(** ** The guest's side *)

Definition constrain (g : Grant) (c : nat) (s : Heap) : result string unit * Heap :=
  match authorities s !! g_authority g with
  | None => (Err "workspace authority unavailable", s)
  | Some a =>
      if a_poisoned a then (Err "workspace authority unavailable", s) else
      if is_Some_bool (a_operation_control a) then (Err "workspace operation control already bound", s) else
      let '(alive, s) := check_control s c in
      match alive with
      | Err e => (Err e, s)
      | Ok _ => (Ok tt, update s (g_authority g) (fun a => set_operation_control a c))
      end
  end.

(** The [match request.body] on the locked workspace: the answer and what the
    workspace becomes. *)
Definition mutated (r : result Workspace.Error Z * Workspace.Workspace) :
    result string Value * Workspace.Workspace :=
  (match r.1 with Ok n => Ok (VObject [("revision", vnum n)]) | Err e => Err (workspace_error e) end, r.2).

Definition perform (p : hash) (a : Authority) (operation : Operation) (w : Workspace.Workspace) :
    result string Value * Workspace.Workspace :=
  let rev := ("revision", vnum (Workspace.revision w)) in
  match operation with
  | Read name =>
      if negb (a_read a) then (Err "workspace operation not granted", w) else
      (b ← map_err workspace_error (Workspace.read w p name);
       _ ← ensure (utf8_valid b) "artifact is not text";
       Ok (VObject [("content", VString (from_utf8 b)); rev]), w)
  | Write name n content =>
      if negb (a_write a) then (Err "workspace operation not granted", w) else
      mutated (Workspace.write w p n name (as_bytes content))
  | List =>
      if negb (a_read a) then (Err "workspace operation not granted", w) else
      (files ← map_err workspace_error (Workspace.list_artifacts w p);
       Ok (VObject [("files", VArray ((fun nb => VObject [("bytes", vnum nb.2); ("name", VString nb.1)]) <$> files)); rev]), w)
  | Search pattern =>
      if negb (a_read a) then (Err "workspace operation not granted", w) else
      (found ← map_err workspace_error (Workspace.search w p pattern SEARCH_MATCHES);
       Ok (VObject [("matches", VArray ((fun m =>
              VObject [("line", vnum (Workspace.m_line m)); ("name", VString (Workspace.m_name m));
                       ("text", VString (from_utf8 (truncated (Workspace.m_text m) SEARCH_LINE_CHARS)))]) <$> found)); rev]), w)
  | Append name n content =>
      if negb (a_write a) then (Err "workspace operation not granted", w) else
      mutated (Workspace.append w p n name (as_bytes content))
  | Delete name n =>
      if negb (a_write a) then (Err "workspace operation not granted", w) else
      mutated (Workspace.delete_artifact w p n name)
  end.

Definition encode (answer : result string Value) : result string bytes :=
  v ← answer; ok_or (encode_response v) "workspace response encoding failed".

(** What a request with budget left does: decode, authorize, perform, encode. *)
Definition serve (g : Grant) (a : Authority) (raw : string) (s : Heap) : result string bytes * Heap :=
  if 8192 <? str_len raw then (Err "workspace request exceeds broker wire budget", s) else
  match from_str raw with
  | None => (Err "invalid workspace request", s)
  | Some r =>
      if negb (String.eqb (api_version r) "celln.workspace/v1") then (Err "unsupported workspace request version", s) else
      if match a_only a with Some ops => negb (allows ops (body r)) | None => false end
      then (Err "workspace operation not granted", s) else
      match (datas s !! g_data g : option (Workspace.Workspace * bool)) with
      | None => (Err "workspace unavailable", s)
      | Some (w, poisoned) =>
          if poisoned then (Err "workspace unavailable", s) else
          let '(answer, w) := perform (g_parent g) a (body r) w in
          let s := with_datas s (<[g_data g := (w, false)]> (datas s)) in
          (encode answer, s)
      end
  end.

Definition request (g : Grant) (raw : string) (s : Heap) : result string bytes * Heap :=
  match authorities s !! g_authority g with
  | None => (Err "workspace authority unavailable", s)
  | Some a =>
      if a_poisoned a then (Err "workspace authority unavailable", s) else
      let '(alive, s) := check_control s (a_control a) in
      match alive with
      | Err e => (Err e, s)
      | Ok _ =>
          let '(alive, s) := match a_operation_control a with
                             | Some c => check_control s c
                             | None => (Ok tt, s)
                             end in
          match alive with
          | Err e => (Err e, s)
          | Ok _ =>
              if negb (a_active a) || (a_remaining a =? 0)
              then (Err "workspace grant revoked or exhausted", s)
              else serve g a raw (update s (g_authority g) spend)
          end
      end
  end.

(** ** Histories *)

(** Grants ever handed out are indexed by their authority; [OFree] is the end of the
    last handle, and the poisonings are panics elsewhere. *)
Inductive op : Type :=
| OBegin (t : ReservedTurn) (r w : bool) (max_operations : Z) (c : nat)
| OBeginArtifacts (t : ReservedTurn) (ops : ArtifactOperations) (max_operations : Z) (c : nat)
| OEphemeral (run : hash) (l : Workspace.Limits) (ops : ArtifactOperations) (max_operations : Z) (c : nat)
| ODropLease (i : nat)
| ODropOwner
| OConstrain (g : Grant) (c : nat)
| ORequest (g : Grant) (raw : string)
| OFree (i : nat)
| OPoisonAuthority (i : nat)
| OPoisonData (d : nat)
| OControl (o : Control.op).

Record State : Type := mkState { heap : Heap; owner : option Owner; grants : list Grant }.

Definition granted (s : State) (r : result string Grant * Owner * Heap) : State :=
  mkState r.2 (Some r.1.2) (grants s ++ match r.1.1 with Ok g => [g] | Err _ => [] end).

(** Only a grant that was handed out, and is still held, can be used. *)
Definition held (s : State) (g : Grant) : bool :=
  bool_decide (g ∈ grants s) &&
  match authorities (heap s) !! g_authority g with Some a => negb (a_freed a) | None => false end.

Definition step (s : State) (o : op) : State * option (result string bytes) :=
  match o with
  | OBegin t r w m c =>
      (match owner s with Some o => granted s (begin o t r w m c (heap s)) | None => s end, None)
  | OBeginArtifacts t ops m c =>
      (match owner s with Some o => granted s (begin_artifacts o t ops m c (heap s)) | None => s end, None)
  | OEphemeral run l ops m c =>
      let '(r, h) := ephemeral run l ops m c (heap s) in
      (mkState h (owner s) (grants s ++ match r with Ok g => [g] | Err _ => [] end), None)
  | ODropLease i => (mkState (drop_lease i (heap s)) (owner s) (grants s), None)
  | ODropOwner =>
      (match owner s with Some o => mkState (drop_owner o (heap s)) None (grants s) | None => s end, None)
  | OConstrain g c =>
      (if held s g then mkState (constrain g c (heap s)).2 (owner s) (grants s) else s, None)
  | ORequest g raw =>
      if held s g then let '(r, h) := request g raw (heap s) in (mkState h (owner s) (grants s), Some r)
      else (s, None)
  | OFree i => (mkState (update (heap s) i free) (owner s) (grants s), None)
  | OPoisonAuthority i => (mkState (update (heap s) i poison) (owner s) (grants s), None)
  | OPoisonData d =>
      (mkState (with_datas (heap s) (alter (fun x => (x.1, true)) d (datas (heap s)))) (owner s) (grants s), None)
  | OControl o => (mkState (with_controls (heap s) (Control.step (controls (heap s)) o)) (owner s) (grants s), None)
  end.
Definition run (s : State) (ops : list op) : State := foldl (fun s o => (step s o).1) s ops.

(** ** What a grant permits *)

Definition class_allows (a : Authority) (operation : Operation) : bool :=
  match operation with Read _ | List | Search _ => a_read a | _ => a_write a end.

(** The rights an operation needs: its own, when the grant lists operations, and that
    of its class. *)
Definition permitted (a : Authority) (operation : Operation) : bool :=
  let named (right : ArtifactOperations -> bool) := match a_only a with Some ops => right ops | None => true end in
  match operation with
  | Read _ => named o_read && a_read a
  | List => named o_list && a_read a
  | Search _ => named o_search && a_read a
  | Write _ _ _ => named o_write && a_write a
  | Append _ _ _ => named o_append && a_write a
  | Delete _ _ => named o_delete && a_write a
  end.
Lemma permitted_spec a operation :
  match a_only a with Some ops => allows ops operation | None => true end && class_allows a operation = permitted a operation.
Proof. unfold permitted. by destruct operation, (a_only a). Qed.
Definition live (a : Authority) : bool := a_active a && negb (a_poisoned a).

Definition workspace_op (p : hash) (operation : Operation) : option Workspace.op :=
  match operation with
  | Write name n content => Some (Workspace.OWrite p n name (as_bytes content))
  | Append name n content => Some (Workspace.OAppend p n name (as_bytes content))
  | Delete name n => Some (Workspace.ODelete p n name)
  | _ => None
  end.

Lemma perform_state p a operation w :
  (perform p a operation w).2 =
    match workspace_op p operation with
    | Some o => if class_allows a operation then (Workspace.step w o).2 else w
    | None => w
    end.
Proof. destruct operation; cbn; first [by destruct (a_write a) | by destruct (a_read a)]. Qed.

Lemma perform_class p a operation w v : (perform p a operation w).1 = Ok v -> class_allows a operation = true.
Proof. destruct operation; cbn; first [by destruct (a_write a) | by destruct (a_read a)]. Qed.

Lemma check_control_heap s c r s' : check_control s c = (r, s') ->
  s' = with_controls s (Control.check (controls s) c).2 /\ r = (Control.check (controls s) c).1.
Proof. unfold check_control. destruct (Control.check _ _). by intros [= <- <-]. Qed.

(** The control of the grant runs, and then the one its operation is constrained to. *)
Definition running (h : Heap) (a : Authority) : Prop :=
  let first := Control.check (controls h) (a_control a) in
  first.1 = Ok tt /\ forall c, a_operation_control a = Some c -> (Control.check first.2 c).1 = Ok tt.

(** A request with its checks made explicit. *)
Definition admitted_request (g : Grant) (h : Heap) (a : Authority) (h1 : Heap) : Prop :=
  authorities h !! g_authority g = Some a /\ live a = true /\ a_remaining a <> 0 /\
  running h a /\ datas h1 = datas h /\ authorities h1 = authorities h.

Lemma request_cases g raw h r h' : request g raw h = (r, h') ->
  (is_err r = true /\ datas h' = datas h /\ authorities h' = authorities h) \/
  (exists a h1, admitted_request g h a h1 /\ serve g a raw (update h1 (g_authority g) spend) = (r, h')).
Proof.
  unfold request. destruct (authorities h !! g_authority g) as [a|] eqn:Ha; [|intros [= <- <-]; by left].
  destruct (a_poisoned a) eqn:Hp; [intros [= <- <-]; by left|].
  destruct (check_control h (a_control a)) as [alive h1] eqn:Ec. apply check_control_heap in Ec as [-> ->].
  destruct (Control.check (controls h) (a_control a)).1 as [[]|e] eqn:Hc; [|intros [= <- <-]; by left].
  set (h1 := with_controls h _). 
  destruct (match a_operation_control a with Some c => check_control h1 c | None => (Ok tt, h1) end)
    as [alive h2] eqn:Eo.
  assert (Hh2 : datas h2 = datas h /\ authorities h2 = authorities h).
  { destruct (a_operation_control a); [apply check_control_heap in Eo as [-> _]; done|by injection Eo as <- <-]. }
  destruct Hh2 as [Hd Hau]. destruct alive as [[]|e]; [|intros [= <- <-]; by left].
  assert (Hrun : running h a).
  { split; [exact Hc|]. intros c Eq. rewrite Eq in Eo. apply check_control_heap in Eo as [_ Eo]. symmetry; exact Eo. }
  destruct (negb (a_active a) || (a_remaining a =? 0)) eqn:Hb; [intros [= <- <-]; by left|].
  intros Hs. right. exists a, h2. split; [|done]. unfold admitted_request, live. reflect. rewrite Hp.
  destruct Hb as [-> Hr]. done.
Qed.

Lemma serve_spec g a raw h r h' : serve g a raw h = (r, h') ->
  authorities h' = authorities h /\ controls h' = controls h /\
  (is_err r = true /\ datas h' = datas h \/
   exists q w, from_str raw = Some q /\ api_version q = "celln.workspace/v1" /\ str_len raw <= 8192 /\
     match a_only a with Some ops => allows ops (body q) | None => true end = true /\
     datas h !! g_data g = Some (w, false) /\
     r = encode (perform (g_parent g) a (body q) w).1 /\
     datas h' = <[g_data g := ((perform (g_parent g) a (body q) w).2, false)]> (datas h)).
Proof.
  unfold serve. destruct (Z.ltb_spec 8192 (str_len raw)); [intros [= <- <-]; naive_solver|].
  destruct (from_str raw) as [q|]; [|intros [= <- <-]; naive_solver].
  destruct (String.eqb_spec (api_version q) "celln.workspace/v1"); cbn [negb]; [|intros [= <- <-]; naive_solver].
  destruct (match a_only a with Some ops => negb (allows ops (body q)) | None => false end) eqn:Ho;
    [intros [= <- <-]; naive_solver|].
  destruct (datas h !! g_data g) as [[w p]|] eqn:Hw; [|intros [= <- <-]; naive_solver].
  destruct p; [intros [= <- <-]; naive_solver|].
  destruct (perform _ _ _ _) as [answer w'] eqn:E. intros [= <- <-]. split_and!; [done|done|]. right.
  exists q, w. rewrite E. split_and!; try done. destruct (a_only a); [by apply negb_false_iff|done].
Qed.

(** ** Authorities only shrink *)

Record shrinks (a b : Authority) : Prop := {
  sh_read : a_read b = a_read a;
  sh_write : a_write b = a_write a;
  sh_only : a_only b = a_only a;
  sh_control : a_control b = a_control a;
  sh_remaining : a_remaining b <= a_remaining a;
  sh_active : a_active b = true -> a_active a = true;
  sh_poisoned : a_poisoned a = true -> a_poisoned b = true;
  sh_freed : a_freed a = true -> a_freed b = true;
}.

(** Everything but a request also keeps the budget. *)
Definition keeps (a b : Authority) : Prop := shrinks a b /\ a_remaining b = a_remaining a.

#[local] Instance shrinks_preorder : PreOrder shrinks.
Proof. split; [by constructor|]. intros a b c [] []. constructor; try congruence; try lia; auto. Qed.
#[local] Instance keeps_preorder : PreOrder keeps.
Proof.
  split; [by split|]. intros a b c [H1 E1] [H2 E2]. split; [by etransitivity|congruence].
Qed.

Definition heap_rel (R : Authority -> Authority -> Prop) (h h' : Heap) : Prop :=
  forall i a, authorities h !! i = Some a -> exists b, authorities h' !! i = Some b /\ R a b.

Section heap_rel.
Context (R : Authority -> Authority -> Prop) `{!PreOrder R}.

Lemma heap_rel_same h h' : authorities h' = authorities h -> heap_rel R h h'.
Proof. intros E i a Ha. exists a. by rewrite E. Qed.
Lemma heap_rel_trans h1 h2 h3 : heap_rel R h1 h2 -> heap_rel R h2 h3 -> heap_rel R h1 h3.
Proof.
  intros H12 H23 i a Ha. destruct (H12 i a Ha) as (b & Hb & Hab). destruct (H23 i b Hb) as (c & Hc & Hbc).
  exists c. split; [done|]. by etransitivity.
Qed.
Lemma heap_rel_update h i f : (forall a, R a (f a)) -> heap_rel R h (update h i f).
Proof.
  intros Hf j a Ha. cbn. destruct (decide (i = j)) as [->|Hne].
  - rewrite list_lookup_alter_eq, Ha. by exists (f a).
  - rewrite list_lookup_alter_ne by done. by exists a.
Qed.
Lemma heap_rel_snoc h h' l : authorities h' = authorities h ++ l -> heap_rel R h h'.
Proof. intros E i a Ha. exists a. split; [|done]. rewrite E. by apply lookup_app_l_Some. Qed.
Lemma heap_rel_update_fresh h h' i f :
  heap_rel R h h' -> (length (authorities h) <= i)%nat -> heap_rel R h (update h' i f).
Proof.
  intros Hle Hi j a Ha. destruct (Hle j a Ha) as (b & Hb & Hab). exists b. split; [|done]. cbn.
  rewrite list_lookup_alter_ne; [done|]. apply lookup_lt_Some in Ha. lia.
Qed.
End heap_rel.

Lemma shrinks_spend a : shrinks a (spend a).
Proof. constructor; cbn; try done; lia. Qed.
Lemma keeps_drop a : keeps a (if a_poisoned a then a else set_active a false).
Proof. destruct (a_poisoned a) eqn:E; [done|]. split; [by constructor|done]. Qed.
Lemma keeps_operation_control c a : keeps a (set_operation_control a c).
Proof. split; [by constructor|done]. Qed.
Lemma keeps_poison a : keeps a (poison a).
Proof. split; [by constructor|done]. Qed.
Lemma keeps_free a : keeps a (free a).
Proof. split; [by constructor|done]. Qed.

(** What a successful or failed [begin] leaves behind. *)
Lemma begin_spec o t r w m c h res o' h' : begin o t r w m c h = (res, o', h') ->
  datas h' = datas h /\
  (is_err res = true /\ o' = o /\ authorities h' = authorities h \/
   exists a, res = Ok (mkGrant (w_parent o) (w_data o) (length (authorities h))) /\
     authorities h' = authorities h ++ [a] /\ a_remaining a = m /\ 1 <= m <= 64 /\
     w_parent o' = w_parent o /\ w_data o' = w_data o /\ w_active o' = Some (length (authorities h)) /\
     w_claimed o' = {[rt_child t]} ∪ w_claimed o /\ rt_child t ∉ w_claimed o /\
     match upgrade h (w_active o) with Some (_, b) => live b = false | None => True end).
Proof.
  unfold begin. destruct (_ || _) eqn:Hb; [intros [= <- <- <-]; naive_solver|].
  destruct (check_control h c) as [alive h1] eqn:Ec. apply check_control_heap in Ec as [-> ->].
  destruct (Control.check (controls h) c).1 as [[]|e]; [|intros [= <- <- <-]; split; [done|by left]].
  change (upgrade (with_controls h ?w) (w_active o)) with (upgrade h (w_active o)).
  destruct (match upgrade h (w_active o) with None => _ | Some _ => _ end) as [[]|e] eqn:Eb;
    [|intros [= <- <- <-]; split; [done|by left]].
  intros [= <- <- <-]. split; [done|]. right. eexists. split; [done|]. cbn. split; [done|].
  reflect. unfold bounds in *. reflect. split_and!; try done; try lia;
    first [by apply (bool_decide_eq_false_1 _ (proj2 Hb)) | idtac].
  destruct (upgrade h (w_active o)) as [[i b]|]; [|done]. unfold live.
  destruct (a_poisoned b); [by rewrite andb_false_r|]. by destruct (a_active b).
Qed.

Lemma begin_artifacts_spec o t ops m c h res o' h' : begin_artifacts o t ops m c h = (res, o', h') ->
  exists h1, begin o t (reads ops) (writes ops) m c h = (res, o', h1) /\
    h' = match res with Ok g => update h1 (g_authority g) (fun a => set_only a ops) | Err _ => h1 end.
Proof.
  unfold begin_artifacts. destruct (begin _ _ _ _ _ _ _) as [[[g|e] o1] h1]; intros [= <- <- <-]; by eexists.
Qed.

Lemma constrain_spec g c h : datas (constrain g c h).2 = datas h /\
  (authorities (constrain g c h).2 = authorities h \/
   authorities (constrain g c h).2 = alter (fun a => set_operation_control a c) (g_authority g) (authorities h)).
Proof.
  unfold constrain. destruct (authorities h !! _) as [a|]; [|split; [done|by left]].
  destruct (a_poisoned a); [split; [done|by left]|]. destruct (is_Some_bool _); [split; [done|by left]|].
  destruct (check_control h c) as [r h1] eqn:E. apply check_control_heap in E as [-> ->].
  destruct (Control.check _ _).1; cbn; (split; [done|]); [by right|by left].
Qed.

Lemma request_shape g raw h : 
  datas (request g raw h).2 = datas h /\ authorities (request g raw h).2 = authorities h /\
    is_err (request g raw h).1 = true \/
  authorities (request g raw h).2 = alter spend (g_authority g) (authorities h) /\
  exists a, authorities h !! g_authority g = Some a /\ live a = true /\ a_remaining a <> 0 /\
   (datas (request g raw h).2 = datas h \/
    exists w o, datas h !! g_data g = Some (w, false) /\
      datas (request g raw h).2 = <[g_data g := ((Workspace.step w o).2, false)]> (datas h)).
Proof.
  destruct (request g raw h) as [r h'] eqn:E. cbn [fst snd].
  apply request_cases in E as [(He & Hd & Ha)|(a & h1 & (Ha & Hl & Hr & _ & Hd1 & Ha1) & Hs)]; [by left|].
  right. apply serve_spec in Hs as (Hau & _ & Hs). cbn in Hau. rewrite Ha1 in Hau. split; [done|].
  exists a. split_and!; [done..|]. destruct Hs as [[_ Hs]|(q & w & _ & _ & _ & _ & Hw & _ & Hd)].
  - left. cbn in Hs. congruence.
  - cbn in Hw, Hd. rewrite Hd1 in Hw, Hd. rewrite perform_state in Hd.
    destruct (workspace_op (g_parent g) (body q)) as [o|]; [destruct (class_allows a (body q))|];
      [right; by exists w, o|left..]; rewrite Hd; by apply list_insert_id.
Qed.

Lemma ephemeral_spec run l ops m c h res h' : ephemeral run l ops m c h = (res, h') ->
  is_err res = true /\ datas h' = datas h /\ authorities h' = authorities h \/
  exists w a, res = Ok (mkGrant run (length (datas h)) (length (authorities h))) /\
    Workspace.new run l = Ok w /\ 1 <= m <= 64 /\ a_remaining a = m /\
    datas h' = datas h ++ [(w, false)] /\ authorities h' = authorities h ++ [a].
Proof.
  unfold ephemeral. destruct (_ || _) eqn:Hb; [intros [= <- <-]; by left|].
  destruct (check_control h c) as [alive h1] eqn:Ec. apply check_control_heap in Ec as [-> ->].
  destruct (Control.check _ _).1; [|intros [= <- <-]; by left].
  destruct (Workspace.new run l) as [w|e]; [|intros [= <- <-]; by left].
  intros [= <- <-]. right. unfold bounds in Hb. reflect. destruct Hb as [_ Hb].
  exists w, (mkAuthority true (Some ops) m (reads ops) (writes ops) c None false false).
  split_and!; done || lia.
Qed.

Lemma step_keeps s o : match o with ORequest _ _ => False | _ => True end -> heap_rel keeps (heap s) (heap (step s o).1).
Proof.
  assert (Hsame : forall h h', authorities h' = authorities h -> heap_rel keeps h h') by (intros h h' E; exact (heap_rel_same keeps h h' E)).
  destruct o as [t r w m c|t ops m c|p l ops m c|i| |g c|g raw|i|i|d|o]; try done; intros _; cbn.
  - destruct (owner s) as [o|]; cbn; [|by apply Hsame].
    destruct (begin o t r w m c (heap s)) as [[res o'] h'] eqn:E. cbn.
    apply begin_spec in E as [_ [(_ & _ & E)|(a & _ & E & _)]]; [by apply Hsame|exact (heap_rel_snoc keeps _ _ _ E)].
  - destruct (owner s) as [o|]; cbn; [|by apply Hsame].
    destruct (begin_artifacts o t ops m c (heap s)) as [[res o'] h'] eqn:E. cbn.
    apply begin_artifacts_spec in E as (h1 & E & ->).
    apply begin_spec in E as [_ [(He & _ & E)|(a & -> & E & _)]].
    + destruct res; [done|]. by apply Hsame.
    + apply (heap_rel_update_fresh keeps); [exact (heap_rel_snoc keeps _ _ _ E)|done].
  - destruct (ephemeral p l ops m c (heap s)) as [res h'] eqn:E. cbn.
    apply ephemeral_spec in E as [(_ & _ & E)|(w & a & _ & _ & _ & _ & _ & E)]; [by apply Hsame|exact (heap_rel_snoc keeps _ _ _ E)].
  - apply (heap_rel_update keeps), keeps_drop.
  - destruct (owner s) as [o|]; cbn; [|by apply Hsame]. unfold drop_owner, drop_lease.
    destruct (upgrade _ _) as [[i a]|]; [|by apply Hsame]. apply (heap_rel_update keeps), keeps_drop.
  - destruct (held s g); cbn; [|by apply Hsame].
    destruct (constrain_spec g c (heap s)) as [_ [E|E]]; [by apply Hsame|].
    eapply (heap_rel_trans keeps); [apply (heap_rel_update keeps _ (g_authority g)), (keeps_operation_control c)|].
    by apply Hsame.
  - apply (heap_rel_update keeps), keeps_free.
  - apply (heap_rel_update keeps), keeps_poison.
  - by apply Hsame.
  - by apply Hsame.
Qed.

Lemma step_heap_le s o : heap_rel shrinks (heap s) (heap (step s o).1).
Proof.
  assert (Hsame : forall h h', authorities h' = authorities h -> heap_rel shrinks h h')
    by (intros h h' E; exact (heap_rel_same shrinks h h' E)).
  assert (Ho : match o with ORequest _ _ => False | _ => True end \/ exists g raw, o = ORequest g raw)
    by (destruct o; eauto).
  destruct Ho as [Ho|(g & raw & ->)].
  - intros i a Ha. destruct (step_keeps s o Ho i a Ha) as (b & Hb & Hs & _). by exists b.
  - cbn. destruct (held s g); [|by apply Hsame].
    pose proof (request_shape g raw (heap s)) as Hs. destruct (request g raw (heap s)) as [r h'] eqn:E. cbn in *.
    destruct Hs as [(_ & Ha & _)|(Ha & _)]; [by apply Hsame|].
    eapply (heap_rel_trans shrinks); [apply (heap_rel_update shrinks _ (g_authority g)), shrinks_spend|]. by apply Hsame.
Qed.

Lemma run_heap_le ops s : heap_rel shrinks (heap s) (heap (run s ops)).
Proof.
  revert s. induction ops as [|o ops IH]; intros s; [by apply (heap_rel_same shrinks)|].
  eapply (heap_rel_trans shrinks); [apply step_heap_le|apply IH].
Qed.

(** ** Reachable states *)

Definition usable (a : Authority) : Prop := live a = true /\ a_freed a = false.

Lemma usable_shrinks a b : shrinks a b -> usable b -> usable a.
Proof.
  intros [] [Hl Hf]. unfold usable, live in *. rewrite andb_true_iff, negb_true_iff in *. destruct Hl as [Ha Hp].
  repeat split; [by auto| |].
  - destruct (a_poisoned a); [|done]. rewrite sh_poisoned0 in Hp; done.
  - destruct (a_freed a); [|done]. rewrite sh_freed0 in Hf; done.
Qed.

Record inv (s : State) : Prop := {
  inv_len : length (grants s) = length (authorities (heap s));
  inv_index : forall i g, grants s !! i = Some g -> g_authority g = i;
  inv_pos : (0 < length (datas (heap s)))%nat;
  inv_data : forall g, g ∈ grants s -> (g_data g < length (datas (heap s)))%nat;
  inv_owned : forall g a, g ∈ grants s -> g_data g = 0%nat ->
    authorities (heap s) !! g_authority g = Some a -> usable a ->
    exists o, owner s = Some o /\ w_active o = Some (g_authority g);
  inv_ephemeral : forall g g', g ∈ grants s -> g' ∈ grants s -> g_data g = g_data g' -> g_data g <> 0%nat -> g = g';
  inv_owner : forall o, owner s = Some o -> w_data o = 0%nat;
}.

Lemma inv_authority s g : inv s -> g ∈ grants s -> is_Some (authorities (heap s) !! g_authority g).
Proof.
  intros Hi [i Hg]%list_elem_of_lookup. rewrite (inv_index s Hi i g Hg). apply lookup_lt_is_Some.
  rewrite <- (inv_len s Hi). by eapply lookup_lt_Some.
Qed.

Lemma inv_shrink s s' : inv s -> owner s' = owner s -> grants s' = grants s -> heap_rel shrinks (heap s) (heap s') ->
  length (authorities (heap s')) = length (authorities (heap s)) ->
  length (datas (heap s')) = length (datas (heap s)) -> inv s'.
Proof.
  intros Hi Ho Hg Hle Hla Hld. pose proof Hi as []. constructor; rewrite ?Ho, ?Hg, ?Hla, ?Hld; try done.
  intros g a Hin Hd Ha Hu. destruct (inv_authority s g Hi Hin) as [b Hb]. destruct (Hle _ _ Hb) as (a' & Ha' & Hsh).
  assert (a' = a) as -> by congruence. eapply inv_owned0; [done|done|exact Hb|by eapply usable_shrinks].
Qed.

Definition usable_le (h h' : Heap) : Prop := forall i b, authorities h' !! i = Some b -> usable b ->
  exists a, authorities h !! i = Some a /\ usable a.

Lemma usable_le_refl h : usable_le h h.
Proof. intros i b. eauto. Qed.

(** A grant of the run's own workspace is added by [begin], possibly narrowed. *)
Lemma inv_begin s o t r w m c res o' h1 h' : inv s -> owner s = Some o ->
  begin o t r w m c (heap s) = (res, o', h1) -> datas h' = datas h1 -> usable_le h1 h' ->
  length (authorities h') = length (authorities h1) ->
  inv (mkState h' (Some o') (grants s ++ match res with Ok g => [g] | Err _ => [] end)).
Proof.
  intros Hi Ho Hb Hd Hle Hl. apply begin_spec in Hb as [Hd1 [(He & -> & Ha)|(a & -> & Ha & _ & _ & _ & Hwd & Hwa & _ & _ & Hup)]].
  - destruct res; [done|]. rewrite app_nil_r. pose proof Hi as [].
    constructor; cbn; rewrite ?Hl, ?Ha, ?Hd, ?Hd1; try done; [|by intros o0 [= <-]; auto].
    intros g b Hg Hg0 Hb Hu. destruct (Hle _ _ Hb Hu) as (a & Ha1 & Hua). rewrite Ha in Ha1.
    destruct (inv_owned0 g a Hg Hg0 Ha1 Hua) as (o0 & Ho0 & Hact). exists o. split; [done|congruence].
  - pose proof Hi as []. set (n := length (authorities (heap s))) in *.
    assert (Hin : forall g, g ∈ grants s ++ [mkGrant (w_parent o) (w_data o) n] ->
      g ∈ grants s \/ g = mkGrant (w_parent o) (w_data o) n).
    { intros g [?|?%list_elem_of_singleton]%elem_of_app; auto. }
    pose proof (inv_owner0 o Ho) as Hw0.
    constructor; cbn.
    + rewrite Hl, Ha, !length_app, inv_len0. done.
    + intros i g. rewrite lookup_app_Some. intros [Hg|[Hlen Hg]]; [by apply inv_index0|].
      apply list_lookup_singleton_Some in Hg as [Hz <-]. cbn. unfold n. lia.
    + by rewrite Hd, Hd1.
    + intros g [Hg| ->]%Hin; rewrite Hd, Hd1; [by apply inv_data0|]. cbn. by rewrite Hw0.
    + intros g b Hg Hg0 Hb Hu. exists o'. split; [done|]. rewrite Hwa. apply Hin in Hg as [Hg| ->]; [|done]. exfalso.
      destruct (inv_authority s g Hi Hg) as [a0 Ha0].
      assert (Ha1 : authorities h1 !! g_authority g = Some a0) by (rewrite Ha; by apply lookup_app_l_Some).
      destruct (Hle _ _ Hb Hu) as (b' & Hb' & Hu0). assert (b' = a0) as -> by congruence.
      destruct (inv_owned0 g a0 Hg Hg0 Ha0 Hu0) as (o0 & Ho0 & Hact). assert (o0 = o) as -> by congruence.
      destruct Hu0 as [Hl0 Hf0]. unfold upgrade in Hup. rewrite Hact in Hup. cbn in Hup. rewrite Ha0 in Hup. cbn in Hup.
      rewrite Hf0 in Hup. congruence.
    + intros g g' [Hg| ->]%Hin [Hg'| ->]%Hin Hd0 Hne; [by apply inv_ephemeral0|..]; cbn in *; congruence.
    + intros o0 [= <-]. congruence.
Qed.

Lemma inv_ephemeral_step s p l ops m c : inv s -> inv (step s (OEphemeral p l ops m c)).1.
Proof.
  intros Hi. cbn. destruct (ephemeral p l ops m c (heap s)) as [res h'] eqn:E. cbn.
  apply ephemeral_spec in E as [(He & Hd & Ha)|(w & a & -> & _ & _ & _ & Hd & Ha)].
  - destruct res; [done|]. rewrite app_nil_r. eapply inv_shrink; [exact Hi|done|done|by apply (heap_rel_same shrinks)|..]; cbn; congruence.
  - pose proof Hi as []. set (n := length (authorities (heap s))) in *. set (d := length (datas (heap s))) in *.
    assert (Hin : forall g, g ∈ grants s ++ [mkGrant p d n] -> g ∈ grants s \/ g = mkGrant p d n).
    { intros g [?|?%list_elem_of_singleton]%elem_of_app; auto. }
    constructor; cbn; try done.
    + rewrite Ha, !length_app, inv_len0. done.
    + intros i g. rewrite lookup_app_Some. intros [Hg|[Hlen Hg]]; [by apply inv_index0|].
      apply list_lookup_singleton_Some in Hg as [Hz <-]. cbn. unfold n. lia.
    + rewrite Hd, length_app. cbn. lia.
    + intros g [Hg| ->]%Hin; rewrite Hd, length_app; cbn; [pose proof (inv_data0 g Hg)|]; lia.
    + intros g b [Hg| ->]%Hin Hg0 Hb Hu; [|cbn in Hg0; unfold d in *; lia].
      destruct (inv_authority s g Hi Hg) as [a0 Ha0].
      rewrite Ha, (lookup_app_l_Some _ _ _ _ Ha0) in Hb.
      injection Hb as ->. by eapply inv_owned0.
    + intros g g' [Hg| ->]%Hin [Hg'| ->]%Hin Hd0 Hne; [by apply inv_ephemeral0|..|done]; cbn in *; exfalso.
      * pose proof (inv_data0 g Hg). lia.
      * pose proof (inv_data0 g' Hg'). lia.
Qed.

Lemma usable_le_only h i ops : usable_le h (update h i (fun a => set_only a ops)).
Proof.
  intros j b. cbn. destruct (decide (i = j)) as [->|Hne].
  - rewrite list_lookup_alter_eq. destruct (authorities h !! j) as [a|]; cbn; [|done].
    intros [= <-] Hu. by exists a.
  - rewrite list_lookup_alter_ne by done. eauto.
Qed.

Lemma inv_drop_owner s : inv s -> inv (step s ODropOwner).1.
Proof.
  intros Hi. pose proof (step_heap_le s ODropOwner) as Hle. cbn in *. destruct (owner s) as [o|] eqn:Ho; [|done].
  assert (Hl : length (authorities (drop_owner o (heap s))) = length (authorities (heap s))).
  { unfold drop_owner. destruct (upgrade _ _) as [[i a]|]; [|done]. cbn. by rewrite length_alter. }
  assert (Hd : datas (drop_owner o (heap s)) = datas (heap s)).
  { unfold drop_owner. by destruct (upgrade _ _) as [[i a]|]. }
  pose proof Hi as []. constructor; cbn; rewrite ?Hl, ?Hd; try done.
  intros g b Hg Hg0 Hb Hu. exfalso. destruct (inv_authority s g Hi Hg) as [a Ha].
  destruct (Hle _ _ Ha) as (b' & Hb' & Hsh). cbn in Hb'. assert (b' = b) as -> by congruence.
  pose proof (usable_shrinks _ _ Hsh Hu) as Hua.
  destruct (inv_owned0 g a Hg Hg0 Ha Hua) as (o0 & Ho0 & Hact). assert (o0 = o) as -> by congruence.
  unfold drop_owner, upgrade in Hb. rewrite Hact in Hb. cbn in Hb. rewrite Ha in Hb. cbn in Hb.
  rewrite (proj2 Hua) in Hb. cbn in Hb. rewrite list_lookup_alter_eq, Ha in Hb. injection Hb as <-.
  destruct Hua as [Hla _]. unfold live in Hla. destruct (a_poisoned a); [by rewrite andb_false_r in Hla|].
  by destruct Hu.
Qed.

Lemma step_inv_broker s o : inv s -> inv (step s o).1.
Proof.
  intros Hi. pose proof (step_heap_le s o) as Hle.
  destruct o as [t r w m c|t ops m c|p l ops m c|i| |g c|g raw|i|i|d|o]; cbn in *.
  - destruct (owner s) as [o|] eqn:Ho; [|done]. unfold granted in *.
    destruct (begin o t r w m c (heap s)) as [[res o'] h'] eqn:E. cbn in *.
    eapply inv_begin; [done|done|exact E|done|apply usable_le_refl|done].
  - destruct (owner s) as [o|] eqn:Ho; [|done]. unfold granted in *.
    destruct (begin_artifacts o t ops m c (heap s)) as [[res o'] h'] eqn:E. cbn in *.
    apply begin_artifacts_spec in E as (h1 & E & ->).
    eapply inv_begin; [done|done|exact E|by destruct res| |destruct res; cbn; by rewrite ?length_alter].
    destruct res as [g|]; [apply usable_le_only|apply usable_le_refl].
  - by apply inv_ephemeral_step.
  - eapply inv_shrink; [exact Hi|done|done|done|cbn; by rewrite length_alter|done].
  - by apply inv_drop_owner.
  - destruct (held s g); [|done]. destruct (constrain_spec g c (heap s)) as [Hd Ha].
    eapply inv_shrink; [exact Hi|done|done|done| |by cbn; rewrite Hd].
    cbn. destruct Ha as [->| ->]; by rewrite ?length_alter.
  - destruct (held s g); [|done]. pose proof (request_shape g raw (heap s)) as Hs.
    destruct (request g raw (heap s)) as [r h'] eqn:E. cbn in *.
    eapply inv_shrink; [exact Hi|done|done|done|..]; cbn.
    + destruct Hs as [(_ & -> & _)|(-> & _)]; by rewrite ?length_alter.
    + destruct Hs as [(-> & _ & _)|(_ & a & _ & _ & _ & [->|(w & o & _ & ->)])]; by rewrite ?length_insert.
  - eapply inv_shrink; [exact Hi|done|done|done|cbn; by rewrite length_alter|done].
  - eapply inv_shrink; [exact Hi|done|done|done|cbn; by rewrite length_alter|done].
  - eapply inv_shrink; [exact Hi|done|done|done|done|cbn; by rewrite length_alter].
  - by eapply inv_shrink.
Qed.

Lemma run_inv_broker s ops : inv s -> inv (run s ops).
Proof. revert s. induction ops as [|o ops IH]; intros s Hi; [done|]. by apply IH, step_inv_broker. Qed.

(** Children already given a grant; without an owner nothing more is given. *)
Definition claimed (s : State) (child : hash) : Prop :=
  match owner s with Some o => child ∈ w_claimed o | None => True end.

Lemma step_claimed s o child : claimed s child -> claimed (step s o).1 child.
Proof.
  unfold claimed. intros Hc.
  destruct o as [t r w m c|t ops m c|p l ops m c|i| |g c|g raw|i|i|d|o]; cbn; try done.
  - destruct (owner s) as [o|] eqn:Ho; cbn; [|by rewrite Ho].
    destruct (begin _ _ _ _ _ _ _) as [[res o'] h'] eqn:E. cbn.
    apply begin_spec in E as [_ [(_ & -> & _)|(a & _ & _ & _ & _ & _ & _ & _ & -> & _)]]; [done|set_solver].
  - destruct (owner s) as [o|] eqn:Ho; cbn; [|by rewrite Ho].
    destruct (begin_artifacts _ _ _ _ _ _) as [[res o'] h'] eqn:E. cbn.
    apply begin_artifacts_spec in E as (h1 & E & _).
    apply begin_spec in E as [_ [(_ & -> & _)|(a & _ & _ & _ & _ & _ & _ & _ & -> & _)]]; [done|set_solver].
  - by destruct (ephemeral _ _ _ _ _ _) as [r h].
  - by destruct (owner s) eqn:Ho; cbn; rewrite ?Ho.
  - by destruct (held s g).
  - destruct (held s g); [|done]. by destruct (request _ _ _).
Qed.

Lemma run_claimed s ops child : claimed s child -> claimed (run s ops) child.
Proof. revert s. induction ops as [|o ops IH]; intros s Hc; [done|]. by apply IH, step_claimed. Qed.

(** The turn an operation asks a grant for, and the operations it may spend. *)
Definition asks (o : op) : option (hash * Z) :=
  match o with
  | OBegin t _ _ m _ | OBeginArtifacts t _ m _ => Some (rt_child t, m)
  | _ => None
  end.

Lemma asks_step s o child m : asks o = Some (child, m) ->
  grants (step s o).1 = grants s \/
  claimed (step s o).1 child /\ ~ claimed s child /\ 1 <= m <= 64 /\
    exists g a, grants (step s o).1 = grants s ++ [g] /\ g_authority g = length (authorities (heap s)) /\
      authorities (heap (step s o).1) !! g_authority g = Some a /\ a_remaining a = m.
Proof.
  intros Ho. destruct o as [t r w m' c|t ops m' c| | | | | | | | |]; try done; injection Ho as <- <-; cbn;
    (destruct (owner s) as [o|] eqn:How; [|by left]).
  - destruct (begin _ _ _ _ _ _ _) as [[res o'] h'] eqn:E. cbn. unfold claimed. rewrite How. cbn.
    apply begin_spec in E as [_ [(? & _ & _)|(a & -> & Ha & Hr & Hm & _ & _ & _ & -> & Hn & _)]].
    + left. destruct res; [done|]. by rewrite app_nil_r.
    + right. split_and!; [set_solver|done|lia|lia|]. eexists _, a. split_and!; [done|done| |done].
      cbn. by rewrite Ha, list_lookup_middle.
  - destruct (begin_artifacts _ _ _ _ _ _) as [[res o'] h'] eqn:E. cbn. unfold claimed. rewrite How. cbn.
    apply begin_artifacts_spec in E as (h1 & E & ->).
    apply begin_spec in E as [_ [(? & _ & _)|(a & -> & Ha & Hr & Hm & _ & _ & _ & -> & Hn & _)]].
    + left. destruct res; [done|]. by rewrite app_nil_r.
    + right. split_and!; [set_solver|done|lia|lia|]. eexists _, (set_only a ops). split_and!; [done|done| |done].
      cbn. by rewrite Ha, list_lookup_alter_eq, list_lookup_middle.
Qed.

(** How many requests on an authority were answered with success. *)
Fixpoint answers (i : nat) (s : State) (ops : list op) : Z :=
  match ops with
  | [] => 0
  | o :: ops =>
      let '(s', r) := step s o in
      match o, r with
      | ORequest g _, Some (Ok _) => if Nat.eqb (g_authority g) i then 1 else 0
      | _, _ => 0
      end + answers i s' ops
  end.

Lemma answers_bound ops s i a : authorities (heap s) !! i = Some a -> 0 <= a_remaining a ->
  answers i s ops <= a_remaining a.
Proof.
  revert s a. induction ops as [|o ops IH]; intros s a Ha Hr; [done|]. cbn [answers].
  pose proof (step_heap_le s o i a Ha) as (b & Hb & Hsh).
  assert (Hstep : exists k, (match o, (step s o).2 with
      | ORequest g _, Some (Ok _) => if Nat.eqb (g_authority g) i then 1 else 0 | _, _ => 0 end) = k /\
      0 <= a_remaining b /\ k + a_remaining b <= a_remaining a).
  2:{ destruct (step s o) as [s' r]. cbn in *. destruct Hstep as (k & -> & Hb0 & Hk).
      pose proof (IH s' b Hb Hb0). lia. }
  eexists. split; [done|].
  assert (Ho : match o with ORequest _ _ => False | _ => True end \/ exists g raw, o = ORequest g raw)
    by (destruct o; eauto).
  destruct Ho as [Ho|(g & raw & ->)].
  { destruct (step_keeps s o Ho i a Ha) as (b' & Hb' & _ & E). assert (b' = b) as -> by congruence.
    destruct o; try done; lia. }
  cbn in *. destruct (held s g); [|assert (a = b) as -> by (cbn in Hb; congruence); cbn; lia].
  pose proof (request_shape g raw (heap s)) as Hs. destruct (request g raw (heap s)) as [r h'] eqn:E. cbn in *.
  destruct Hs as [(_ & Hau & He)|(Hau & a' & Ha' & _ & Hne & _)].
  - rewrite Hau in Hb. assert (a = b) as -> by congruence. destruct r; [done|]. lia.
  - rewrite Hau in Hb. destruct (Nat.eqb_spec (g_authority g) i) as [<-|Hni].
    + rewrite list_lookup_alter_eq, Ha in Hb. injection Hb as <-. assert (a' = a) as -> by congruence. cbn.
      destruct r; lia.
    + rewrite list_lookup_alter_ne in Hb by done. assert (a = b) as -> by congruence. destruct r; lia.
Qed.

(** The state right after [Owner::new]. *)
Definition started (w : Control.World) (p : hash) (l : Workspace.Limits) (s : State) : Prop :=
  exists o, new p l (mkHeap w [] []) = (Ok o, heap s) /\ owner s = Some o /\ grants s = [].

Lemma started_inv w p l s : started w p l s -> inv s.
Proof.
  intros (o & Hn & Ho & Hg). unfold new in Hn. destruct (Workspace.new p l) as [ws|e]; [|done].
  injection Hn as <- Hh. constructor; rewrite ?Hg; try rewrite <- Hh; cbn; try done; try (by intros ? ?%elem_of_nil); try lia.
  - by intros g g' ?%elem_of_nil.
  - rewrite Ho. by intros o [= <-].
Qed.

(** ** Properties *)

(** C26: A guest reaches only what its grant names. Whatever a request says, it
    touches no workspace and no authority but its grant's own; it changes that
    workspace only by one write, append or deletion that the grant permits, under
    the grant's parent identity; and it changes that or is answered only while the
    grant is live, has budget, and both its control and the one its operation is
    constrained to run, with the answer of that one operation. A grant that lists its
    operations permits those alone: reading never implies listing or searching, nor
    writing appending or deleting. One that lists none, as the older callers make
    it, permits all reads when it may read and all changes when it may write. *)
Theorem broker_confined (g : Grant) (raw : string) (h h' : Heap) (r : result string bytes) :
  request g raw h = (r, h') ->
  (forall i, i <> g_authority g -> authorities h' !! i = authorities h !! i) /\
  (datas h' = datas h \/
   exists a q w o, authorities h !! g_authority g = Some a /\ live a = true /\ a_remaining a <> 0 /\
     running h a /\ from_str raw = Some q /\ permitted a (body q) = true /\ workspace_op (g_parent g) (body q) = Some o /\
     datas h !! g_data g = Some (w, false) /\ datas h' = <[g_data g := ((Workspace.step w o).2, false)]> (datas h)) /\
  (forall out, r = Ok out ->
     exists a q w, authorities h !! g_authority g = Some a /\ live a = true /\ a_remaining a <> 0 /\
       running h a /\ from_str raw = Some q /\ permitted a (body q) = true /\ datas h !! g_data g = Some (w, false) /\
       authorities h' !! g_authority g = Some (spend a) /\ encode (perform (g_parent g) a (body q) w).1 = Ok out).
Proof.
  intros Hr. apply request_cases in Hr as [(He & Hd & Ha)|(a & h1 & (Ha & Hl & Hne & Hc & Hd1 & Ha1) & Hs)].
  { split_and!; [by rewrite Ha|by left|]. by intros out ->. }
  apply serve_spec in Hs as (Hau & _ & Hs). cbn in Hau. rewrite Ha1 in Hau. split.
  { intros i Hi. rewrite Hau. by apply list_lookup_alter_ne. }
  destruct Hs as [[He Hs]|(q & w & Hq & _ & _ & Hall & Hw & -> & Hd)].
  { cbn in Hs. split; [left; congruence|]. by intros out ->. }
  cbn in Hw, Hd. rewrite Hd1 in Hw, Hd. split.
  - rewrite perform_state in Hd. destruct (workspace_op (g_parent g) (body q)) as [o|] eqn:Ho.
    2: { left. rewrite Hd. by apply list_insert_id. }
    destruct (class_allows a (body q)) eqn:Hcl; [|left; rewrite Hd; by apply list_insert_id].
    right. exists a, q, w, o. by rewrite <- permitted_spec, Hall, Hcl.
  - intros out He. assert (Hcl : class_allows a (body q) = true).
    { unfold encode in He. destruct (perform _ _ _ _).1 as [v|] eqn:Hp; [|done]. by eapply perform_class. }
    exists a, q, w. rewrite <- permitted_spec, Hall, Hcl, Hau, list_lookup_alter_eq, Ha. done.
Qed.

(** Revocation through the lease is final and reaches every copy. Once the lease
    of a grant has been dropped, then whatever is begun, constrained, requested,
    poisoned or cancelled afterwards, no request through that grant is answered
    with success, and none changes any workspace. *)
Theorem broker_revoked (s : State) (ops : list op) (g : Grant) (raw : string) :
  (g_authority g < length (authorities (heap s)))%nat ->
  let s2 := run (step s (ODropLease (g_authority g))).1 ops in
  let '(s3, r) := step s2 (ORequest g raw) in
  (forall out, r <> Some (Ok out)) /\ datas (heap s3) = datas (heap s2) /\
  authorities (heap s3) = authorities (heap s2).
Proof.
  intros [a Ha]%lookup_lt_is_Some s2. set (s1 := (step s (ODropLease (g_authority g))).1) in *.
  assert (Hdead : exists b, authorities (heap s1) !! g_authority g = Some b /\ live b = false).
  { cbn. rewrite list_lookup_alter_eq, Ha. eexists. split; [done|]. unfold live.
    destruct (a_poisoned a) eqn:Hp; [by rewrite Hp, andb_false_r|done]. }
  destruct Hdead as (b & Hb & Hl). destruct (run_heap_le ops s1 _ _ Hb) as (c & Hc & Hsh). fold s2 in Hc.
  assert (Hlc : live c = false).
  { destruct (live c) eqn:E; [|done]. destruct Hsh. unfold live in *. rewrite andb_true_iff, negb_true_iff in E.
    destruct E as [E1 E2]. rewrite sh_active0 in Hl by done. destruct (a_poisoned b); [|done].
    by rewrite sh_poisoned0 in E2. }
  cbn. destruct (held s2 g); [|done]. pose proof (request_shape g raw (heap s2)) as Hs.
  destruct (request g raw (heap s2)) as [r h'] eqn:E. cbn in *.
  destruct Hs as [(Hd & Hau & He)|(_ & a' & Ha' & Hla & _)]; [|congruence].
  split; [|done]. intros out [= ->]. done.
Qed.

(** A workspace serves one child at a time, each child once, within its budget.
    In every reachable state two usable grants of one workspace are the same grant;
    after the owner is gone no grant of the run's workspace is usable; and a child
    that has been given a grant is never given another, while the requests answered
    through that grant are at most the operations it was given, at most 64. *)
Theorem broker_exclusive (w : Control.World) (p : hash) (l : Workspace.Limits) (s0 : State) (before : list op) :
  started w p l s0 ->
  let s := run s0 before in
  (forall g1 g2 a1 a2, g1 ∈ grants s -> g2 ∈ grants s -> g_data g1 = g_data g2 ->
     authorities (heap s) !! g_authority g1 = Some a1 -> authorities (heap s) !! g_authority g2 = Some a2 ->
     usable a1 -> usable a2 -> g1 = g2) /\
  (owner s = None -> forall g a, g ∈ grants s -> g_data g = 0%nat ->
     authorities (heap s) !! g_authority g = Some a -> ~ usable a) /\
  (forall o child m, asks o = Some (child, m) -> grants (step s o).1 <> grants s ->
     (forall later o' m', asks o' = Some (child, m') ->
        let s2 := run (step s o).1 later in grants (step s2 o').1 = grants s2) /\
     (forall later, answers (length (authorities (heap s))) (step s o).1 later <= m <= 64)).
Proof.
  intros Hst s. pose proof (run_inv_broker s0 before (started_inv w p l s0 Hst)) as Hi. fold s in Hi. split_and!.
  - intros g1 g2 a1 a2 H1 H2 Hd Ha1 Ha2 Hu1 Hu2. destruct (decide (g_data g1 = 0%nat)) as [Hz|Hz].
    + destruct (inv_owned s Hi g1 a1 H1 Hz Ha1 Hu1) as (o1 & Ho1 & Hw1).
      destruct (inv_owned s Hi g2 a2 H2 ltac:(congruence) Ha2 Hu2) as (o2 & Ho2 & Hw2).
      assert (Heq : g_authority g1 = g_authority g2) by congruence.
      apply list_elem_of_lookup in H1 as [i1 H1], H2 as [i2 H2].
      pose proof (inv_index s Hi _ _ H1). pose proof (inv_index s Hi _ _ H2). congruence.
    + by apply (inv_ephemeral s Hi).
  - intros Hno g a Hg Hz Ha Hu. destruct (inv_owned s Hi g a Hg Hz Ha Hu) as (o & Ho & _). congruence.
  - intros o child m Ho Hne. destruct (asks_step s o child m Ho) as [|(Hc & _ & Hm & g & a & _ & Hg & Ha & Hr)]; [done|].
    split.
    + intros later o' m' Ho' s2. destruct (asks_step s2 o' child m' Ho') as [|(_ & Hn & _)]; [done|].
      destruct Hn. by apply run_claimed.
    + intros later. split; [|lia]. rewrite <- Hg, <- Hr. apply answers_bound; [done|lia].
Qed.
End broker.

(** ** Examples *)

#[local] Existing Instance toy_blake3.
#[local] Existing Instance countable_json.

Definition ex_from_str (raw : string) : option Request :=
  if String.eqb raw "write" then Some (mkRequest "celln.workspace/v1" (Write "a" 0 "x"))
  else if String.eqb raw "list" then Some (mkRequest "celln.workspace/v1" List) else None.
Definition ex_encode (v : Value) : option bytes := Some (Instances.cj_to_vec v).

Definition ex_turn (turn : string) : ReservedTurn :=
  mkReservedTurn "run" (child_identity "run" turn) (mkTurnRequest VERSION turn "go") (mkTurnLimits 1 1 1 1).
Definition ex_controls : Control.World := Control.run [Control.ONew 1000] (Control.init 0 []).
Definition ex_limits : Workspace.Limits := Workspace.mkLimits 4 16 64.
Definition ex_start : State :=
  match new "run" ex_limits (mkHeap ex_controls [] []) with
  | (Ok o, h) => mkState h (Some o) []
  | (Err _, h) => mkState h None []
  end.
Definition ex_begun : State :=
  (step ex_from_str ex_encode ex_start (OBeginArtifacts (ex_turn "t1") (read_write false true) 2 0)).1.
Definition ex_grant : Grant := mkGrant "run" 0 0.

Lemma broker_confined_witness :
  exists out, (request ex_from_str ex_encode ex_grant "write" (heap ex_begun)).1 = Ok out /\
    exists a q w, authorities (heap ex_begun) !! 0%nat = Some a /\ ex_from_str "write" = Some q /\
      permitted a (body q) = true /\ datas (heap ex_begun) !! 0%nat = Some (w, false).
Proof.
  destruct (request ex_from_str ex_encode ex_grant "write" (heap ex_begun)) as [r h'] eqn:E.
  destruct (broker_confined ex_from_str ex_encode ex_grant "write" (heap ex_begun) h' r E) as (_ & _ & Ho).
  destruct r as [out|e]; [|vm_compute in E; discriminate E]. exists out. split; [reflexivity|].
  destruct (Ho out eq_refl) as (a & q & w & Ha & _ & _ & _ & Hq & Hp & Hw & _). exists a, q, w. auto.
Defined.

Lemma broker_revoked_witness :
  (step ex_from_str ex_encode ex_begun (ORequest ex_grant "list")).2 = Some (Err "workspace operation not granted") /\
  forall out, (step ex_from_str ex_encode (step ex_from_str ex_encode ex_begun (ODropLease 0)).1 (ORequest ex_grant "write")).2
    <> Some (Ok out).
Proof.
  split; [vm_compute; reflexivity|].
  pose proof (broker_revoked ex_from_str ex_encode ex_begun [] ex_grant "write" ltac:(apply (bool_decide_unpack _); vm_compute; reflexivity)) as H.
  cbv zeta in H. cbn [run foldl] in H.
  destruct (step ex_from_str ex_encode (step ex_from_str ex_encode ex_begun (ODropLease (g_authority ex_grant))).1
    (ORequest ex_grant "write")) as [s3 r] eqn:E. destruct H as [H _]. change (g_authority ex_grant) with 0%nat in E.
  rewrite E. exact H.
Defined.

Lemma broker_exclusive_witness :
  length (grants ex_begun) = 1%nat /\
  answers ex_from_str ex_encode 0 ex_begun [ORequest ex_grant "write"; ORequest ex_grant "write"; ORequest ex_grant "write"] <= 2.
Proof.
  split; [vm_compute; reflexivity|].
  destruct (broker_exclusive ex_from_str ex_encode ex_controls "run" ex_limits ex_start []) as (_ & _ & H).
  - eexists. split; [vm_compute; reflexivity|]. split; reflexivity.
  - destruct (H (OBeginArtifacts (ex_turn "t1") (read_write false true) 2 0) (child_identity "run" "t1") 2) as [_ Ha].
    + reflexivity.
    + vm_compute. discriminate.
    + apply (Ha [ORequest ex_grant "write"; ORequest ex_grant "write"; ORequest ex_grant "write"]).
Defined.
