(* ===== verification/Store.v ===== *)
(** * The content-addressed store ([crates/celln-store/src/lib.rs])

    Objects are files named by their digest. A [put] is a sequence of system calls
    that other processes interleave with, so it is a machine of one call per step;
    a name leads to an inode, because a writer keeps the inode it opened when the
    name is renamed or truncated behind its back. *)

From S2P Require Import Prelude Instances Manifest.

Inductive StoreError : Type :=
| TooLarge (limit : Z)
| Io
| NotFound (h : hash)
| Integrity (expected actual : hash)
| BadHash (s : string).

(** [Store::hex_of] and [Store::path_for], relative to [objects/]. *)
Definition hex_of (h : hash) : result StoreError string :=
  hex ← ok_or (strip_prefix "blake3:" h) (BadHash h);
  if negb (str_len hex =? 64) || negb (all_bytes is_ascii_hexdigit hex) then Err (BadHash h) else Ok hex.

Definition object_path (hex : string) : string := (String.substring 0 2 hex ++ "/" ++ hex)%string.
Definition path_for (h : hash) : result StoreError string := hex ← hex_of h; Ok (object_path hex).

(** [path.with_extension("tmp")] of a name without a dot. *)
Definition tmp_of (path : string) : string := (path ++ ".tmp")%string.

Record Disk : Type := mkDisk { names : gmap string nat; inodes : list bytes }.

Definition contents (d : Disk) (path : string) : option bytes := i ← names d !! path; inodes d !! i.
Definition exists_path (d : Disk) (path : string) : bool := is_Some_bool (names d !! path).

Section store.
Context `{Blake3}.

(** ** Reading *)

(** [get_bounded]; [io] says whether opening and reading the file work. *)
Definition get_bounded (d : Disk) (h : hash) (limit : Z) (io : bool) : result StoreError bytes :=
  path ← path_for h;
  match contents d path with
  | None => Err (NotFound h)
  | Some b =>
      if negb io then Err Io else
      let b := take_bytes (Z.min (limit + 1) u64_max) b in
      if limit <? blen b then Err (TooLarge limit) else
      let actual := hash_of b in
      if negb (String.eqb actual h) then Err (Integrity h actual) else Ok b
  end.
Definition get (d : Disk) (h : hash) (io : bool) : result StoreError bytes := get_bounded d h u64_max io.
Definition has (d : Disk) (h : hash) : bool :=
  match path_for h with Ok p => exists_path d p | Err _ => false end.

(** ** Writing *)

(** The next system call of a [put]: [path.exists], [create_dir_all], the opening and
    the writes of [fs::write], and [fs::rename]. *)
Inductive Pc : Type :=
| Start
| MakeDir
| Open
| Writing (i : nat) (rest : bytes)
| Rename
| Done (r : result StoreError hash).

Record Put : Type := mkPut { p_bytes : bytes; pc : Pc }.

(** A call fails, or succeeds; a write takes some of the bytes offered. *)
Inductive Choice : Type := Fails | Works (n : nat).

Definition target (b : bytes) : string := object_path (blake3_hex b).
Definition temporary (b : bytes) : string := tmp_of (target b).

Definition open_truncated (d : Disk) (path : string) : nat * Disk :=
  match names d !! path with
  | Some i => (i, mkDisk (names d) (<[i := []]> (inodes d)))
  | None => (length (inodes d), mkDisk (<[path := length (inodes d)]> (names d)) (inodes d ++ [[]]))
  end.

Definition rename (d : Disk) (from to : string) : option Disk :=
  i ← names d !! from; Some (mkDisk (<[to := i]> (delete from (names d))) (inodes d)).

Definition put_call (d : Disk) (b : bytes) (c : Pc) (n : nat) : Disk * Pc :=
  match c with
  | Start => (d, if exists_path d (target b) then Done (Ok (hash_of b)) else MakeDir)
  | MakeDir => (d, Open)
  | Open => let '(i, d) := open_truncated d (temporary b) in
      (d, match b with [] => Rename | _ => Writing i b end)
  | Writing i rest =>
      let k := Nat.max 1 n in
      (mkDisk (names d) (alter (fun old => old ++ take k rest) i (inodes d)),
       match drop k rest with [] => Rename | rest => Writing i rest end)
  | Rename =>
      match rename d (temporary b) (target b) with
      | Some d => (d, Done (Ok (hash_of b)))
      | None => (d, Done (Err Io))
      end
  | Done r => (d, Done r)
  end.

(** [path.exists] is false when it fails; every other failure ends the [put]. *)
Definition put_step (d : Disk) (p : Put) (c : Choice) : Disk * Put :=
  match c, pc p with
  | Works n, c => let '(d, c) := put_call d (p_bytes p) c n in (d, mkPut (p_bytes p) c)
  | Fails, Start => (d, mkPut (p_bytes p) MakeDir)
  | Fails, Done r => (d, p)
  | Fails, _ => (d, mkPut (p_bytes p) (Done (Err Io)))
  end.

(** One [put] alone, until it is done: at most a step for each byte and five more. *)
Fixpoint put_fuel (fuel : nat) (d : Disk) (p : Put) (choices : nat -> Choice) : Disk * Put :=
  match fuel with
  | O => (d, p)
  | S fuel => let '(d, p) := put_step d p (choices fuel) in put_fuel fuel d p choices
  end.
Definition put (d : Disk) (b : bytes) (choices : nat -> Choice) : Disk * Put :=
  put_fuel (length b + 5) d (mkPut b Start) choices.

(** ** Processes sharing the directory *)

Record System : Type := mkSystem { disk : Disk; puts : list Put }.

Inductive action : Type :=
| Begin (b : bytes)
| Advance (i : nat) (c : Choice).

Definition step (s : System) (a : action) : System :=
  match a with
  | Begin b => mkSystem (disk s) (puts s ++ [mkPut b Start])
  | Advance i c =>
      match puts s !! i with
      | Some p => let '(d, p) := put_step (disk s) p c in mkSystem d (<[i := p]> (puts s))
      | None => s
      end
  end.
Definition run (s : System) (l : list action) : System := foldl step s l.
Definition empty : System := mkSystem (mkDisk ∅ []) [].

Definition running (p : Put) : bool := match pc p with Done _ => false | _ => true end.

(** No two unfinished puts of the same bytes. *)
Definition one_writer (s : System) (a : action) : bool :=
  match a with
  | Begin b => forallb (fun p => negb (running p) || negb (bool_decide (target (p_bytes p) = target b))) (puts s)
  | Advance _ _ => true
  end.
Fixpoint disciplined (s : System) (l : list action) : bool :=
  match l with
  | [] => true
  | a :: l => one_writer s a && disciplined (step s a) l
  end.

(** ** Names *)

Lemma hex_length b : String.length (blake3_hex b) = 64%nat.
Proof. pose proof (blake3_hex_wf b) as Hw. unfold is_hex64, str_len in Hw.
  rewrite andb_true_iff, Z.eqb_eq in Hw. lia. Qed.

Lemma path_for_hash b : path_for (hash_of b) = Ok (target b).
Proof.
  unfold path_for, hex_of, hash_of. rewrite strip_prefix_app. cbn. pose proof (blake3_hex_wf b) as Hw.
  unfold is_hex64 in Hw. rewrite andb_true_iff in Hw. destruct Hw as [-> Ha]. cbn.
  assert (Hx : all_bytes is_ascii_hexdigit (blake3_hex b) = true).
  { unfold all_bytes in *. rewrite forallb_forall in *. intros x Hx. unfold is_ascii_hexdigit. by rewrite Ha. }
  by rewrite Hx.
Qed.

Lemma fanout_length s : String.length s = 64%nat -> String.length (String.substring 0 2 s) = 2%nat.
Proof. by destruct s as [|a [|b [|c s]]]. Qed.

Lemma object_path_inj s s' : String.length s = 64%nat -> String.length s' = 64%nat ->
  object_path s = object_path s' -> s = s'.
Proof.
  intros L L' E. unfold object_path in E. apply string_app_inj in E as [_ E];
    [|by rewrite !fanout_length by done]. by apply string_app_inj_r in E.
Qed.

Lemma path_for_inj h b : path_for h = Ok (target b) -> h = hash_of b.
Proof.
  unfold path_for, hex_of. intros Hp. apply result_bind_Ok in Hp as (hex & Hp & [= Ht]).
  apply result_bind_Ok in Hp as (hex' & Hs & Hp). apply ok_or_Ok, strip_prefix_Some in Hs.
  destruct (negb _ || negb _) eqn:E; [done|]. injection Hp as ->. reflect. destruct E as [E _].
  apply object_path_inj in Ht; [|unfold str_len in E; lia|apply hex_length]. subst. done.
Qed.

Lemma target_length b : String.length (target b) = 67%nat.
Proof.
  unfold target, object_path. rewrite !string_app_length, fanout_length by apply hex_length.
  by rewrite hex_length.
Qed.

Lemma temporary_ne b b' : temporary b <> target b'.
Proof.
  intros E. apply (f_equal String.length) in E. unfold temporary, tmp_of in E.
  by rewrite string_app_length, !target_length in E.
Qed.

Lemma temporary_inj b b' : temporary b = temporary b' -> target b = target b'.
Proof. intros E. apply string_app_inj in E as [E _]; [done|]. by rewrite !target_length. Qed.

Lemma target_inj b b' : target b = target b' -> b = b' \/ collides b b'.
Proof. intros E. apply object_path_inj in E; [|apply hex_length..]. by apply blake3_inj. Qed.

(** ** What a directory written by disciplined puts looks like *)

Definition put_ok (d : Disk) (p : Put) : Prop :=
  match pc p with
  | Writing i rest =>
      names d !! temporary (p_bytes p) = Some i /\ rest <> [] /\
      exists w, inodes d !! i = Some w /\ w ++ rest = p_bytes p
  | Rename => contents d (temporary (p_bytes p)) = Some (p_bytes p)
  | Done (Ok h) => h = hash_of (p_bytes p) /\ is_Some (contents d (target (p_bytes p)))
  | _ => True
  end.

Record disk_ok (d : Disk) : Prop := {
  do_inode : forall path i, names d !! path = Some i -> is_Some (inodes d !! i);
  do_inj : forall path path' i, names d !! path = Some i -> names d !! path' = Some i -> path = path';
  do_names : forall path i, names d !! path = Some i -> exists b, path = target b \/ path = temporary b;
  do_object : forall b c, contents d (target b) = Some c -> target c = target b;
}.

(** What a call of a put leaves as it was: every object stays there, and so does
    every name but its own two, with its contents. *)
Record frame (d d' : Disk) (b : bytes) : Prop := {
  fr_object : forall b', is_Some (contents d (target b')) -> is_Some (contents d' (target b'));
  fr_other : forall b', target b' <> target b ->
    names d' !! temporary b' = names d !! temporary b' /\
    (forall i, names d !! temporary b' = Some i -> inodes d' !! i = inodes d !! i);
}.

Lemma frame_refl d b : frame d d b.
Proof. by constructor. Qed.

Lemma contents_Some d path c : contents d path = Some c <-> exists i, names d !! path = Some i /\ inodes d !! i = Some c.
Proof. unfold contents. rewrite bind_Some. done. Qed.

Lemma open_call d b : disk_ok d -> let '(i, d') := open_truncated d (temporary b) in
  disk_ok d' /\ frame d d' b /\ names d' !! temporary b = Some i /\ inodes d' !! i = Some [].
Proof.
  intros []. unfold open_truncated. destruct (names d !! temporary b) as [i|] eqn:Hn.
  - destruct (do_inode0 _ _ Hn) as [old Hold]. assert (Hlt := lookup_lt_Some _ _ _ Hold). split_and!.
    + constructor; cbn; [|done|done|].
      * intros path j Hj. apply lookup_lt_is_Some. rewrite length_insert. apply lookup_lt_is_Some. eauto.
      * intros b' c. rewrite contents_Some. cbn. intros (j & Hj & Hc). apply do_object0, contents_Some. exists j.
        split; [done|]. rewrite list_lookup_insert_ne in Hc; [done|]. intros ->.
        by eapply temporary_ne, do_inj0.
    + constructor.
      * intros b' [c (j & Hj & Hc)%contents_Some]. exists c. apply contents_Some. cbn. exists j. split; [done|].
        rewrite list_lookup_insert_ne; [done|]. intros ->. by eapply temporary_ne, do_inj0.
      * intros b' Hb. cbn. split; [done|]. intros j Hj. rewrite list_lookup_insert_ne; [done|]. intros ->.
        apply Hb. apply temporary_inj. by eapply do_inj0.
    + done.
    + cbn. by rewrite list_lookup_insert_eq.
  - set (n := length (inodes d)).
    assert (Hfresh : forall path j, names d !! path = Some j -> j <> n /\ (inodes d ++ [[]]) !! j = inodes d !! j).
    { intros path j Hj. destruct (do_inode0 _ _ Hj) as [c Hc]. assert (Hlt := lookup_lt_Some _ _ _ Hc).
      split; [unfold n; lia|]. by rewrite lookup_app_l. }
    assert (Hins : forall path j, <[temporary b := n]> (names d) !! path = Some j ->
      path = temporary b /\ j = n \/ path <> temporary b /\ names d !! path = Some j).
    { intros path j. rewrite lookup_insert_Some. naive_solver. }
    split_and!.
    + constructor; cbn.
      * intros path j [[-> ->]|[_ Hj]]%Hins; [unfold n; rewrite list_lookup_middle by done; eauto|].
        destruct (Hfresh _ _ Hj) as [_ ->]. eauto.
      * intros path path' j [[-> ->]|[Hp Hj]]%Hins [[-> Hn']|[Hp' Hj']]%Hins; try done.
        -- by destruct (Hfresh _ _ Hj').
        -- subst. by destruct (Hfresh _ _ Hj).
        -- by eapply do_inj0.
      * intros path j [[-> ->]|[_ Hj]]%Hins; [exists b; by right|eauto].
      * intros b' c. rewrite contents_Some. cbn. intros (j & [[E _]|[_ Hj]]%Hins & Hc).
        { exfalso. by eapply temporary_ne. }
        apply do_object0, contents_Some. exists j. destruct (Hfresh _ _ Hj) as [_ E]. by rewrite E in Hc.
    + constructor.
      * intros b' [c (j & Hj & Hc)%contents_Some]. exists c. apply contents_Some. cbn. exists j.
        rewrite lookup_insert_ne by (apply temporary_ne). split; [done|].
        destruct (Hfresh _ _ Hj) as [_ ->]. done.
      * intros b' Hb. cbn. rewrite lookup_insert_ne by (intros E; apply Hb; symmetry; by apply temporary_inj).
        split; [done|]. intros j Hj. by destruct (Hfresh _ _ Hj).
    + cbn. by rewrite lookup_insert_eq.
    + cbn. unfold n. by rewrite list_lookup_middle.
Qed.

Lemma write_call d b i k rest w : disk_ok d -> names d !! temporary b = Some i -> inodes d !! i = Some w ->
  let d' := mkDisk (names d) (alter (fun old => old ++ take k rest) i (inodes d)) in
  disk_ok d' /\ frame d d' b /\ inodes d' !! i = Some (w ++ take k rest).
Proof.
  intros [] Hn Hw d'.
  assert (Hne : forall path j, path <> temporary b -> names d !! path = Some j -> inodes d' !! j = inodes d !! j).
  { intros path j Hp Hj. cbn. rewrite list_lookup_alter_ne; [done|]. intros ->. by eapply Hp, do_inj0. }
  split_and!.
  - constructor; cbn; [|done|done|].
    + intros path j Hj. apply lookup_lt_is_Some. rewrite length_alter. apply lookup_lt_is_Some. eauto.
    + intros b' c. rewrite contents_Some. intros (j & Hj & Hc). apply do_object0, contents_Some. exists j.
      split; [done|]. rewrite <- (Hne (target b') j); [done| |done]. intros E. by eapply temporary_ne.
  - constructor.
    + intros b' [c (j & Hj & Hc)%contents_Some]. exists c. apply contents_Some. exists j. split; [done|].
      rewrite (Hne (target b')); [done| |done]. intros E. by eapply temporary_ne.
    + intros b' Hb. split; [done|]. intros j Hj. apply (Hne (temporary b')); [|done].
      intros E. by apply Hb, temporary_inj.
  - cbn. by rewrite list_lookup_alter_eq, Hw.
Qed.

Lemma rename_call d b : disk_ok d -> contents d (temporary b) = Some b ->
  exists d', rename d (temporary b) (target b) = Some d' /\ disk_ok d' /\ frame d d' b /\
    contents d' (target b) = Some b.
Proof.
  intros [] (i & Hn & Hb)%contents_Some. unfold rename. rewrite Hn. cbn. eexists. split; [done|].
  assert (Hins : forall path j, <[target b := i]> (delete (temporary b) (names d)) !! path = Some j ->
    path = target b /\ j = i \/ path <> target b /\ path <> temporary b /\ names d !! path = Some j).
  { intros path j. rewrite lookup_insert_Some, lookup_delete_Some. naive_solver. }
  split_and!.
  - constructor; cbn.
    + intros path j [[-> ->]|(_ & _ & Hj)]%Hins; eauto.
    + intros path path' j [[-> ->]|(Hp & Hpt & Hj)]%Hins [[-> Hn']|(Hp' & Hpt' & Hj')]%Hins; try done.
      * destruct Hpt'. by eapply do_inj0.
      * subst. destruct Hpt. by eapply do_inj0.
      * by eapply do_inj0.
    + intros path j [[-> ->]|(_ & _ & Hj)]%Hins; [exists b; by left|eauto].
    + intros b' c. rewrite contents_Some. cbn. intros (j & [[E ->]|(_ & _ & Hj)]%Hins & Hc); [congruence|].
      apply do_object0, contents_Some. eauto.
  - constructor.
    + intros b' [c (j & Hj & Hc)%contents_Some].
      destruct (decide (target b' = target b)) as [E|Hne].
      * exists b. apply contents_Some. exists i. cbn. by rewrite E, lookup_insert_eq.
      * exists c. apply contents_Some. exists j. cbn. rewrite lookup_insert_ne, lookup_delete_ne; [done|apply temporary_ne|done].
    + intros b' Hbt. cbn. rewrite lookup_insert_ne by (intros E; by eapply temporary_ne).
      rewrite lookup_delete_ne by (intros E; apply Hbt; symmetry; by apply temporary_inj). done.
  - apply contents_Some. exists i. cbn. by rewrite lookup_insert_eq.
Qed.

Lemma put_step_ok d p c : disk_ok d -> put_ok d p ->
  let '(d', p') := put_step d p c in
  disk_ok d' /\ frame d d' (p_bytes p) /\ put_ok d' p' /\ p_bytes p' = p_bytes p /\
  (running p' = true -> running p = true).
Proof.
  intros Hd Hp. destruct p as [b q]. unfold put_step. destruct c as [|n].
  { destruct q; cbn; split_and!; try done; apply frame_refl. }
  cbn. destruct q as [| | |i rest| |r]; cbn [put_call].
  - unfold exists_path. destruct (names d !! target b) as [i|] eqn:E; cbn;
      (split; [done|]); (split; [apply frame_refl|]); (split; [|done]); [|done].
    split; [done|]. destruct (do_inode d Hd _ _ E) as [x Hx]. exists x. apply contents_Some. by exists i.
  - split_and!; try done; apply frame_refl.
  - pose proof (open_call d b Hd) as Ho. destruct (open_truncated d (temporary b)) as [i d'].
    destruct Ho as (Hd' & Hf & Hn & Hi). split_and!; try done.
    destruct b as [|x b]; cbn; [apply contents_Some; eauto|]. split; [done|]. split; [done|]. by exists [].
  - destruct Hp as (Hn & Hne & w & Hw & Happ). cbn in Hn, Happ. set (k := Nat.max 1 n).
    destruct (write_call d b i k rest w Hd Hn Hw) as (Hd' & Hf & Hi). split_and!; try done.
    destruct (drop k rest) as [|x rest'] eqn:Hk; cbn.
    + apply contents_Some. exists i. split; [done|]. etransitivity; [exact Hi|]. f_equal.
      rewrite <- Happ. f_equal. rewrite <- (take_drop k rest) at 2. by rewrite Hk, app_nil_r.
    + split; [done|]. split; [done|]. eexists. split; [exact Hi|].
      rewrite <- Happ, <- app_assoc, <- Hk. by rewrite take_drop.
  - destruct (rename_call d b Hd Hp) as (d' & -> & Hd' & Hf & Hc). cbn. split_and!; try done; by eexists.
  - split_and!; try done; apply frame_refl.
Qed.

Lemma put_ok_frame d d' b p : frame d d' b -> put_ok d p -> (running p = true -> target (p_bytes p) <> target b) ->
  put_ok d' p.
Proof.
  intros [Ho Hf] Hp Hr. unfold put_ok, running in *. destruct (pc p) as [| | |i rest| |[h|e]] eqn:E; try done.
  - destruct Hp as (Hn & Hne & w & Hw & Happ). destruct (Hf (p_bytes p) (Hr eq_refl)) as [-> Hi].
    split; [done|]. split; [done|]. exists w. split; [|done]. by rewrite (Hi i).
  - apply contents_Some in Hp as (i & Hn & Hi). destruct (Hf (p_bytes p) (Hr eq_refl)) as [Hn' Hi'].
    apply contents_Some. exists i. by rewrite Hn', (Hi' i).
  - destruct Hp as [-> Hc]. split; [done|]. by apply Ho.
Qed.

Record system_ok (s : System) : Prop := {
  so_disk : disk_ok (disk s);
  so_puts : forall i p, puts s !! i = Some p -> put_ok (disk s) p;
  so_one : forall i j p q, puts s !! i = Some p -> puts s !! j = Some q -> running p = true -> running q = true ->
    target (p_bytes p) = target (p_bytes q) -> i = j;
}.

Lemma empty_ok : system_ok empty.
Proof.
  constructor; [constructor|..]; cbn; done.
Qed.

Definition present (s s' : System) : Prop :=
  forall b, is_Some (contents (disk s) (target b)) -> is_Some (contents (disk s') (target b)).

Lemma step_ok s a : system_ok s -> one_writer s a = true -> system_ok (step s a) /\ present s (step s a).
Proof.
  intros [Hd Hp Ho] Hw. destruct a as [b|i c]; cbn.
  - split; [|by intros b'].
    assert (Hin : forall j p, (puts s ++ [mkPut b Start]) !! j = Some p ->
      puts s !! j = Some p \/ j = length (puts s) /\ p = mkPut b Start).
    { intros j p [H'|[? H']]%lookup_app_Some; [by left|]. apply list_lookup_singleton_Some in H' as [? <-].
      right. split; [lia|done]. }
    assert (Hfresh : forall j p, puts s !! j = Some p -> running p = true -> target (p_bytes p) <> target b).
    { intros j p Hj Hr. cbn in Hw. rewrite forallb_forall in Hw. apply list_elem_of_lookup_2, list_elem_of_In in Hj.
      specialize (Hw p Hj). rewrite Hr in Hw. by apply negb_true_iff, bool_decide_eq_false_1 in Hw. }
    constructor; cbn; [done| |].
    + intros j p [Hj|[-> ->]]%Hin; [by eapply Hp|done].
    + intros j k p q [Hj|[-> ->]]%Hin [Hk|[-> ->]]%Hin Hr Hr' E; [by eapply Ho|..|done]; exfalso.
      * by eapply Hfresh.
      * by eapply (Hfresh k q).
  - destruct (puts s !! i) as [p|] eqn:Hi; [|split; [by constructor|by intros b]].
    destruct (running p) eqn:Hrp.
    2: { assert (E : put_step (disk s) p c = (disk s, p)) by (destruct p as [b []]; by destruct c).
         rewrite E, list_insert_id by done. split; [by constructor|by intros b]. }
    pose proof (put_step_ok (disk s) p c Hd (Hp i p Hi)) as Hs.
    destruct (put_step (disk s) p c) as [d' p']. destruct Hs as (Hd' & Hf & Hp' & Hb & Hr).
    split; [|intros b; apply (fr_object _ _ _ Hf)].
    assert (Hin : forall j q, <[i := p']> (puts s) !! j = Some q -> i = j /\ q = p' \/ i <> j /\ puts s !! j = Some q).
    { intros j q. rewrite list_lookup_insert_Some. naive_solver. }
    constructor; cbn; [done| |].
    + intros j q [[<- ->]|[Hne Hj]]%Hin; [done|]. eapply put_ok_frame; [done|by eapply Hp|].
      intros Hrq E. by apply Hne, (Ho i j p q).
    + intros j k q q' [[<- ->]|[Hne Hj]]%Hin [[<- ->]|[Hne' Hk]]%Hin Hrq Hrq' E; try done.
      * rewrite Hb in E. eapply Ho; eauto.
      * rewrite Hb in E. eapply Ho; eauto.
      * by eapply Ho.
Qed.

Lemma run_ok s l : system_ok s -> disciplined s l = true -> system_ok (run s l) /\ present s (run s l).
Proof.
  revert s. induction l as [|a l IH]; intros s Hs Hl; [split; [done|by intros b]|].
  cbn in Hl. rewrite andb_true_iff in Hl. destruct Hl as [Hw Hl]. destruct (step_ok s a Hs Hw) as [Hs1 Hp1].
  destruct (IH _ Hs1 Hl) as [Hs2 Hp2]. split; [done|]. intros b Hb. by apply Hp2, Hp1.
Qed.

(** ** One put alone *)

Definition calls_left (p : Put) : nat :=
  match pc p with
  | Start => length (p_bytes p) + 4
  | MakeDir => length (p_bytes p) + 3
  | Open => length (p_bytes p) + 2
  | Writing _ rest => length rest + 1
  | Rename => 1
  | Done _ => 0
  end.

Lemma put_step_calls d p c : running p = true -> put_ok d p -> (calls_left (put_step d p c).2 < calls_left p)%nat.
Proof.
  intros Hr Hp. destruct p as [b q]. unfold put_step, calls_left. cbn [pc p_bytes] in *.
  destruct c as [|n]; [by destruct q; cbn in *; done || lia|].
  destruct q as [| | |i rest| |r]; cbn; try lia; try done.
  - destruct (exists_path d (target b)); cbn; lia.
  - destruct (open_truncated d (temporary b)) as [i d']. destruct b; cbn; lia.
  - destruct Hp as (_ & Hne & _). destruct rest as [|x rest]; [done|].
    destruct n as [|n]; cbn.
    + rewrite drop_0. destruct rest; cbn; lia.
    + destruct (drop n rest) eqn:E; cbn; [lia|]. pose proof (length_drop rest n) as Hl. rewrite E in Hl. cbn in Hl. lia.
  - destruct (rename d _ _); cbn; lia.
Qed.

Lemma put_fuel_ok fuel d p choices : disk_ok d -> put_ok d p -> (calls_left p <= fuel)%nat ->
  let '(d', p') := put_fuel fuel d p choices in
  running p' = false /\ disk_ok d' /\ put_ok d' p' /\ p_bytes p' = p_bytes p /\
  (forall b, is_Some (contents d (target b)) -> is_Some (contents d' (target b))) /\
  ((forall k, choices k <> Fails) -> (forall e, pc p <> Done (Err e)) -> forall e, pc p' <> Done (Err e)).
Proof.
  revert d p. induction fuel as [|fuel IH]; intros d p Hd Hp Hf; cbn.
  { unfold calls_left, running in *. destruct (pc p) eqn:E; try lia. naive_solver. }
  pose proof (put_step_ok d p (choices fuel) Hd Hp) as Hs.
  pose proof (put_step_calls d p (choices fuel)) as Hc.
  assert (Herr : choices fuel <> Fails -> (forall e, pc p <> Done (Err e)) ->
    forall e, pc (put_step d p (choices fuel)).2 <> Done (Err e)).
  { intros Hch Hno e. destruct p as [b q]. unfold put_step. destruct (choices fuel) as [|n]; [done|]. cbn.
    destruct q as [| | |i rest| |r]; cbn in *; try done.
    - by destruct (exists_path _ _).
    - destruct (open_truncated _ _) as [i d']. by destruct b.
    - by destruct (drop _ _).
    - by destruct (rename_call d b Hd Hp) as (d' & -> & _). }
  destruct (running p) eqn:Hrp.
  2: { assert (E : put_step d p (choices fuel) = (d, p)) by (destruct p as [b []]; by destruct (choices fuel)).
       rewrite E. apply IH; [done|done|]. unfold calls_left, running in *. destruct (pc p); done || lia. }
  destruct (put_step d p (choices fuel)) as [d1 p1]. cbn in Hc, Herr. destruct Hs as (Hd1 & Hfr & Hp1 & Hb & _).
  specialize (IH d1 p1 Hd1 Hp1 ltac:(specialize (Hc eq_refl Hp); lia)).
  destruct (put_fuel fuel d1 p1 choices) as [d2 p2]. destruct IH as (Hr2 & Hd2 & Hp2 & Hb2 & Hpr & He).
  split_and!; try done; [congruence| |].
  - intros b Hc'. by apply Hpr, (fr_object _ _ _ Hfr).
  - intros Hch Hno. by apply He, Herr.
Qed.

Lemma get_present d b : contents d (target b) = Some b -> blen b <= u64_max -> get d (hash_of b) true = Ok b.
Proof.
  intros Hc Hl. unfold get, get_bounded. rewrite path_for_hash. cbn [mbind result_bind]. rewrite Hc. cbn [negb].
  replace (Z.min (u64_max + 1) u64_max) with u64_max by lia.
  rewrite take_bytes_all by done. rewrite (proj2 (Z.ltb_ge _ _) Hl). by rewrite String.eqb_refl.
Qed.

(** ** Two puts of the same bytes *)

Definition two_puts (b : bytes) : list action :=
  [Begin b; Begin b; Advance 0 (Works 0); Advance 1 (Works 0); Advance 0 (Works 0); Advance 1 (Works 0);
   Advance 0 (Works 0); Advance 0 (Works (length b)); Advance 1 (Works 0); Advance 0 (Works 0)].

Definition tmp_disk (b content : bytes) : Disk := mkDisk (<[temporary b := 0%nat]> ∅) [content].

Lemma first_calls b : b <> [] ->
  put_step (mkDisk ∅ []) (mkPut b Start) (Works 0) = (mkDisk ∅ [], mkPut b MakeDir) /\
  put_step (mkDisk ∅ []) (mkPut b Open) (Works 0) = (tmp_disk b [], mkPut b (Writing 0 b)) /\
  put_step (tmp_disk b []) (mkPut b (Writing 0 b)) (Works (length b)) = (tmp_disk b b, mkPut b Rename) /\
  put_step (tmp_disk b b) (mkPut b Open) (Works 0) = (tmp_disk b [], mkPut b (Writing 0 b)) /\
  put_step (tmp_disk b []) (mkPut b Rename) (Works 0) =
    (mkDisk (<[target b := 0%nat]> (delete (temporary b) (<[temporary b := 0%nat]> ∅))) [[]],
     mkPut b (Done (Ok (hash_of b)))).
Proof.
  intros Hne. unfold put_step, put_call, exists_path, open_truncated, rename, tmp_disk. cbn [pc p_bytes names inodes].
  rewrite lookup_empty, !lookup_insert_eq. destruct b as [|x b]; [done|].
  rewrite take_ge, drop_ge by (cbn; lia). done.
Qed.

Lemma advance_0 d p q c : step (mkSystem d [p; q]) (Advance 0 c) =
  let '(d, p) := put_step d p c in mkSystem d [p; q].
Proof. reflexivity. Qed.
Lemma advance_1 d p q c : step (mkSystem d [p; q]) (Advance 1 c) =
  let '(d, q) := put_step d q c in mkSystem d [p; q].
Proof. reflexivity. Qed.

Lemma two_puts_run b : b <> [] ->
  run empty (two_puts b) =
    mkSystem (mkDisk (<[target b := 0%nat]> (delete (temporary b) (<[temporary b := 0%nat]> ∅))) [[]])
      [mkPut b (Done (Ok (hash_of b))); mkPut b (Writing 0 b)].
Proof.
  intros Hne. destruct (first_calls b Hne) as (H1 & H2 & H3 & H4 & H5). unfold run, two_puts. cbn [foldl].
  change (step (step empty (Begin b)) (Begin b)) with (mkSystem (mkDisk ∅ []) [mkPut b Start; mkPut b Start]).
  assert (Hm : forall d, put_step d (mkPut b MakeDir) (Works 0) = (d, mkPut b Open)) by done.
  rewrite advance_0, H1, advance_1, H1, advance_0, Hm, advance_1, Hm, advance_0, H2, advance_0, H3, advance_1, H4.
  by rewrite advance_0, H5.
Qed.

(** ** Properties *)

(** A read is never wrong. Whatever the files hold, bytes that a read returns
    have the digest that was asked for and fit the limit, so they are the only bytes
    with that address, unless another has the same digest. *)
Theorem store_integrity (d : Disk) (h : hash) (limit : Z) (io : bool) (b : bytes) :
  get_bounded d h limit io = Ok b ->
  hash_of b = h /\ blen b <= limit /\ (forall b', hash_of b' = h -> b' = b \/ collides b' b).
Proof.
  unfold get_bounded. intros Hg. apply result_bind_Ok in Hg as (path & _ & Hg).
  destruct (contents d path) as [c|]; [|done]. destruct io; [|done]. cbn [negb] in Hg.
  destruct (Z.ltb_spec limit (blen (take_bytes (Z.min (limit + 1) u64_max) c))); [done|].
  destruct (String.eqb_spec (hash_of (take_bytes (Z.min (limit + 1) u64_max) c)) h) as [Hh|]; [|done].
  injection Hg as <-. split; [done|]. split; [done|]. intros b' Hb'. apply hash_of_inj. congruence.
Qed.

(** Storing then reading gives the bytes back. On any directory that puts leave
    behind, a put ends within its calls, however the file system splits its writes
    and whichever call fails; it keeps every object that was there; and without a
    failure it returns the address under which a read returns those bytes, unless
    the object was there already with other bytes of the same digest. *)
Theorem store_put_get (d : Disk) (b : bytes) (choices : nat -> Choice) :
  disk_ok d -> blen b <= u64_max ->
  let '(d', p) := put d b choices in
  running p = false /\ disk_ok d' /\
  (forall b', is_Some (contents d (target b')) -> is_Some (contents d' (target b'))) /\
  ((forall k, choices k <> Fails) ->
   pc p = Done (Ok (hash_of b)) /\ (get d' (hash_of b) true = Ok b \/ exists c, contents d' (target b) = Some c /\ collides c b)).
Proof.
  intros Hd Hl. unfold put. pose proof (put_fuel_ok (length b + 5) d (mkPut b Start) choices Hd I) as Hp.
  destruct (put_fuel _ _ _ _) as [d' p]. destruct Hp as (Hr & Hd' & Hp & Hb & Hpr & He); [cbn; lia|].
  split_and!; try done. intros Hch. specialize (He Hch ltac:(done)). cbn in Hb.
  unfold running, put_ok in *. destruct (pc p) as [| | | | |[h|e]]; try done; [|by destruct (He e)].
  rewrite Hb in Hp. destruct Hp as [-> [c Hc]]. split; [done|].
  destruct (target_inj c b (do_object d' Hd' _ _ Hc)) as [->|]; [left|right; by exists c]. by apply get_present.
Qed.

(** C38: With one writer for each object at a time, a reader never sees a half-written
    object, in any interleaving of any puts that split their writes and fail
    anywhere: a file under an object's name holds the object's bytes, and an object
    once stored by a successful put stays. *)
Theorem store_atomic (l later : list action) :
  disciplined empty l = true ->
  let s := run empty l in
  (forall b c, contents (disk s) (target b) = Some c -> c = b \/ collides c b) /\
  (forall i p h, puts s !! i = Some p -> pc p = Done (Ok h) ->
     h = hash_of (p_bytes p) /\
     (disciplined s later = true -> is_Some (contents (disk (run s later)) (target (p_bytes p))))).
Proof.
  intros Hl s. destruct (run_ok empty l empty_ok Hl) as [Hs _]. fold s in Hs. split.
  - intros b c Hc. apply target_inj. by eapply do_object, Hc; apply so_disk.
  - intros i p h Hi Hp. pose proof (so_puts s Hs i p Hi) as Hok. unfold put_ok in Hok. rewrite Hp in Hok.
    destruct Hok as [-> Hc]. split; [done|]. intros Hlater. by apply (run_ok s later Hs Hlater).
Qed.

(** C40: The temporary name is shared by every put of the same bytes, so two of them
    at once expose a half-written object: for any non-empty bytes there is a run
    without failures in which one put has returned its address while the file under
    it is empty, and a read under it is refused as corrupt. *)
Theorem store_half_written (b : bytes) :
  b <> [] -> blake3_hex [] <> blake3_hex b ->
  exists l, let s := run empty l in
    (exists p, puts s !! 0%nat = Some p /\ pc p = Done (Ok (hash_of b))) /\
    contents (disk s) (target b) = Some [] /\ has (disk s) (hash_of b) = true /\
    get (disk s) (hash_of b) true = Err (Integrity (hash_of b) (hash_of [])).
Proof.
  intros Hne Hh. exists (two_puts b). rewrite two_puts_run by done. cbn zeta. cbn [disk puts].
  assert (Hc : contents (mkDisk (<[target b := 0%nat]> (delete (temporary b) (<[temporary b := 0%nat]> ∅))) [[]]) (target b)
    = Some []) by (unfold contents; cbn; by rewrite lookup_insert_eq).
  split_and!; [by eexists|done| |].
  - unfold has, exists_path. rewrite path_for_hash. cbn. by rewrite lookup_insert_eq.
  - unfold get, get_bounded. rewrite path_for_hash. cbn [mbind result_bind]. rewrite Hc. cbn [negb].
    unfold take_bytes. rewrite take_nil. cbn [blen length]. unfold blen. cbn [length].
    destruct (Z.ltb_spec u64_max (Z.of_nat 0)) as [Hlt|_]; [unfold u64_max in Hlt; lia|].
    destruct (String.eqb_spec (hash_of []) (hash_of b)) as [E|_]; [|done].
    destruct Hh. unfold hash_of in E. by apply string_app_inj_r in E.
Qed.
End store.

(** ** Examples *)

#[local] Existing Instance toy_blake3.

Definition ex_bytes : bytes := [x61; x62; x63].
Definition ex_choices (k : nat) : Choice := Works 1.
Definition ex_disk : Disk := (put (mkDisk ∅ []) ex_bytes ex_choices).1.

Lemma store_integrity_witness :
  get_bounded ex_disk (hash_of ex_bytes) 3 true = Ok ex_bytes /\
  forall b', hash_of b' = hash_of ex_bytes -> b' = ex_bytes \/ collides b' ex_bytes.
Proof.
  assert (E : get_bounded ex_disk (hash_of ex_bytes) 3 true = Ok ex_bytes) by (vm_compute; reflexivity).
  split; [exact E|]. apply (store_integrity ex_disk (hash_of ex_bytes) 3 true ex_bytes E).
Defined.

Lemma store_put_get_witness :
  let '(d, p) := put (mkDisk ∅ []) ex_bytes ex_choices in
  pc p = Done (Ok (hash_of ex_bytes)) /\ 
  (get d (hash_of ex_bytes) true = Ok ex_bytes \/ exists c, contents d (target ex_bytes) = Some c /\ collides c ex_bytes).
Proof.
  pose proof (store_put_get (mkDisk ∅ []) ex_bytes ex_choices (so_disk _ empty_ok)) as Hp.
  destruct (put (mkDisk ∅ []) ex_bytes ex_choices) as [d p].
  apply Hp; [vm_compute; discriminate|]. intros k. discriminate.
Defined.

Lemma store_atomic_witness :
  exists c, contents (disk (run empty [Begin ex_bytes; Begin [x7a]; Advance 0 (Works 0); Advance 1 (Works 0);
    Advance 0 (Works 0); Advance 1 Fails; Advance 0 (Works 0); Advance 0 (Works 2); Advance 0 (Works 1); Advance 0 (Works 0)]))
    (target ex_bytes) = Some c /\ (c = ex_bytes \/ collides c ex_bytes).
Proof.
  eexists. split; [vm_compute; reflexivity|].
  refine (proj1 (store_atomic [Begin ex_bytes; Begin [x7a]; Advance 0 (Works 0); Advance 1 (Works 0);
    Advance 0 (Works 0); Advance 1 Fails; Advance 0 (Works 0); Advance 0 (Works 2); Advance 0 (Works 1); Advance 0 (Works 0)]
    [] _) ex_bytes _ _); vm_compute; reflexivity.
Defined.

Lemma store_half_written_witness :
  exists l, get (disk (run empty l)) (hash_of ex_bytes) true = Err (Integrity (hash_of ex_bytes) (hash_of [])).
Proof.
  destruct (store_half_written ex_bytes) as (l & _ & _ & _ & Hg); [discriminate|vm_compute; discriminate|].
  exists l. exact Hg.
Defined.
