(* ===== verification/Assay.v ===== *)
(** * The attestation store ([crates/celln-assay/src/lib.rs])

    An assayer admits tools: it stores their bytes, files an entry in the manifest, signs
    it and saves it. Every admission names the file system's choices for its [put] and
    the fate of the save, which the code ignores. *)

From S2P Require Import Prelude Json Instances Manifest Store.

(** [forge::Proof]. *)
Record Proof_ : Type := mkProof { artifact : hash; p_recipe : hash; toolchain : string; reproduced : bool }.

Record Resolved : Type := mkResolved { r_hash : hash; r_tier : Tier; warm : bool; upgrade_queued : bool }.

Inductive AssayError : Type := StoreErr (e : StoreError) | ProofMismatch.

(** [manifest_file] is what [manifest.json] holds, when it exists. *)
Record Assayer : Type := mkAssayer { store : Disk; manifest : Manifest; manifest_file : option bytes }.

(** [std::fs::write] of the manifest: done, or failed with something left behind. *)
Inductive Save : Type := Saved | Failed (left_behind : option bytes).
Record Env : Type := mkEnv { choices : nat -> Choice; save : Save }.

Section assay.
Context `{Blake3} `{Json Manifest}.
(** [to_vec_pretty] of a manifest. *)
Context (to_vec_pretty : Manifest -> bytes).

(** [f] is [manifest.json], [read] whether reading it works, [from_pretty] the decoder. *)
Definition open (from_pretty : bytes -> option Manifest) (d : Disk) (f : option bytes) (read : bool) : result AssayError Assayer :=
  match f with
  | None => Ok (mkAssayer d Manifest.new f)
  | Some b => if read then Ok (mkAssayer d (default Manifest.new (from_pretty b)) f) else Err (StoreErr Io)
  end.

Definition persist (a : Assayer) (s : Save) : result AssayError unit * Assayer :=
  match s with
  | Saved => (Ok tt, mkAssayer (store a) (manifest a) (Some (to_vec_pretty (manifest a))))
  | Failed l => (Err (StoreErr Io), mkAssayer (store a) (manifest a) l)
  end.

Definition put_bytes (a : Assayer) (b : bytes) (e : Env) : result AssayError hash * Assayer :=
  let '(d, p) := Store.put (store a) b (choices e) in
  (match pc p with
   | Done (Ok h) => Ok h
   | Done (Err e) => Err (StoreErr e)
   | _ => Err (StoreErr Io)
   end, mkAssayer d (manifest a) (manifest_file a)).

(** [admit], [sign_standin], [let _ = persist()]. *)
Definition enter (a : Assayer) (m : Manifest) (e : Env) : Assayer :=
  (persist (mkAssayer (store a) (sign_standin m) (manifest_file a)) (save e)).2.

Definition admit_as (a : Assayer) (alias_ : string) (b : bytes) (t : Tier) (interp : bool) (who : Author)
    (rec : option hash) (e : Env) : result AssayError hash * Assayer :=
  match put_bytes a b e with
  | (Ok h, a) => (Ok h, enter a (admit_entry (manifest a) (mkEntry alias_ h t interp who rec)).2 e)
  | (Err err, a) => (Err err, a)
  end.

Definition admit_verified_authored (a : Assayer) (alias_ : string) (b : bytes) (interp : bool) (who : Author) (e : Env) :=
  admit_as a alias_ b Verified interp who None e.
Definition admit_verified (a : Assayer) (alias_ : string) (b : bytes) (interp : bool) (e : Env) :=
  admit_verified_authored a alias_ b interp Host e.
Definition admit_unsealed (a : Assayer) (alias_ : string) (b : bytes) (interp : bool) (e : Env) :=
  admit_as a alias_ b Unsealed interp Host None e.

Definition admit_forged_authored (a : Assayer) (alias_ : string) (b : bytes) (interp : bool) (who : Author)
    (proof : Proof_) (e : Env) : result AssayError hash * Assayer :=
  if negb (String.eqb (artifact proof) (hash_of b)) then (Err ProofMismatch, a) else
  let '(t, rec) := if reproduced proof then (Forged, Some (p_recipe proof)) else (Verified, None) in
  admit_as a alias_ b t interp who rec e.

(** The early return of [resolve], and the flag it goes on with. *)
Definition warm_hit (m : Manifest) (alias_ : string) (want : hash) (interp : bool) : option Entry * bool :=
  match resolve_alias m alias_ with
  | Some entry =>
      if String.eqb (e_hash entry) want && negb (is_revoked m (e_hash entry)) then
        let interp := interp || interpreter entry in
        if Bool.eqb (interpreter entry) interp then (Some entry, interp) else (None, interp)
      else (None, interp)
  | None => (None, interp)
  end.

Definition resolve (a : Assayer) (alias_ : string) (b : bytes) (interp : bool) (e : Env) :
    result AssayError Resolved * Assayer :=
  match warm_hit (manifest a) alias_ (hash_of b) interp with
  | (Some entry, _) => (Ok (mkResolved (e_hash entry) (tier entry) true false), a)
  | (None, interp) =>
      match admit_as a alias_ b Verified interp Host None e with
      | (Ok h, a) => (Ok (mkResolved h Verified false false), a)
      | (Err err, a) => (Err err, a)
      end
  end.

Definition revoke (a : Assayer) (h : hash) (e : Env) : Assayer := enter a (Manifest.revoke (manifest a) h) e.

Definition fetch (a : Assayer) (h : hash) (io : bool) : result AssayError bytes := map_err StoreErr (Store.get (store a) h io).

(** ** Histories *)

Inductive op : Type :=
| AdmitVerified (alias_ : string) (b : bytes) (interp : bool) (who : Author) (e : Env)
| AdmitForged (alias_ : string) (b : bytes) (interp : bool) (who : Author) (proof : Proof_) (e : Env)
| AdmitUnsealed (alias_ : string) (b : bytes) (interp : bool) (e : Env)
| Resolve (alias_ : string) (b : bytes) (interp : bool) (e : Env)
| RevokeHash (h : hash) (e : Env).

Definition step (a : Assayer) (o : op) : Assayer :=
  match o with
  | AdmitVerified n b i w e => (admit_verified_authored a n b i w e).2
  | AdmitForged n b i w p e => (admit_forged_authored a n b i w p e).2
  | AdmitUnsealed n b i e => (admit_unsealed a n b i e).2
  | Resolve n b i e => (resolve a n b i e).2
  | RevokeHash h e => revoke a h e
  end.
Definition run (a : Assayer) (l : list op) : Assayer := foldl step a l.
Definition fresh : Assayer := mkAssayer (mkDisk ∅ []) Manifest.new None.

(** What an operation could have said of the bytes it files. *)
Definition vouches (o : op) (b : bytes) (x : Entry) : Prop :=
  match o with
  | AdmitVerified n b' i w _ => b' = b /\ x = mkEntry n (hash_of b) Verified i w None
  | AdmitForged n b' i w p _ => b' = b /\ artifact p = hash_of b /\
      x = if reproduced p then mkEntry n (hash_of b) Forged i w (Some (p_recipe p)) else mkEntry n (hash_of b) Verified i w None
  | AdmitUnsealed n b' i _ => b' = b /\ x = mkEntry n (hash_of b) Unsealed i Host None
  | Resolve n b' i _ => b' = b /\ exists i', (i = true -> i' = true) /\ x = mkEntry n (hash_of b) Verified i' Host None
  | RevokeHash _ _ => False
  end.

(** ** One admission *)

Lemma put_bytes_spec a b e : disk_ok (store a) ->
  let '(r, a') := put_bytes a b e in
  disk_ok (store a') /\ manifest a' = manifest a /\ manifest_file a' = manifest_file a /\
  (forall b', is_Some (contents (store a) (target b')) -> is_Some (contents (store a') (target b'))) /\
  (forall h, r = Ok h -> h = hash_of b /\ is_Some (contents (store a') (target b))) /\
  ((forall k, choices e k <> Fails) -> r = Ok (hash_of b)).
Proof.
  intros Hd. unfold put_bytes, put. pose proof (put_fuel_ok (length b + 5) (store a) (mkPut b Start) (choices e) Hd I) as Hp.
  destruct (put_fuel _ _ _ _) as [d' p]. destruct Hp as (Hr & Hd' & Hp & Hb & Hpr & He); [cbn; lia|].
  cbn in Hb. cbn [store manifest manifest_file]. split_and!; try done.
  - intros h Hh. unfold put_ok in Hp. destruct (pc p) as [| | | | |[h'|er]]; try done. injection Hh as ->. by rewrite Hb in Hp.
  - intros Hch. specialize (He Hch ltac:(done)). unfold running, put_ok in *.
    destruct (pc p) as [| | | | |[h|er]]; try done; [|by destruct (He er)]. rewrite Hb in Hp. by destruct Hp as [-> _].
Qed.

Lemma enter_spec a m e : store (enter a m e) = store a /\ manifest (enter a m e) = sign_standin m.
Proof. unfold enter, persist. by destruct (save e). Qed.

(** What every operation keeps: a sound directory, and for each entry its own hash,
    which is the digest of bytes the directory holds. *)
Record sound (a : Assayer) : Prop := {
  sd_disk : disk_ok (store a);
  sd_filed : well_filed (manifest a);
  sd_held : forall h x, entries (manifest a) !! h = Some x -> exists b, h = hash_of b /\ is_Some (contents (store a) (target b));
}.

Lemma admit_as_spec a n b t i w rc e : sound a ->
  let '(r, a') := admit_as a n b t i w rc e in
  sound a' /\
  (is_err r = true /\ manifest a' = manifest a \/
   r = Ok (hash_of b) /\ manifest a' = sign_standin (admit_entry (manifest a) (mkEntry n (hash_of b) t i w rc)).2) /\
  ((forall k, choices e k <> Fails) -> r = Ok (hash_of b)).
Proof.
  intros [Hd Hf Hh]. unfold admit_as. pose proof (put_bytes_spec a b e Hd) as Hp.
  destruct (put_bytes a b e) as [[h|er] a1]; destruct Hp as (Hd1 & Hm & _ & Hkeep & Hok & Htot).
  - destruct (Hok h eq_refl) as [-> Hb]. destruct (enter_spec a1 (admit_entry (manifest a1) (mkEntry n (hash_of b) t i w rc)).2 e) as [Hs He].
    split; [|split; [right; split; [done|by rewrite He, Hm]|done]]. split; rewrite ?Hs, ?He; [done| |].
    + rewrite Hm. apply (step_well_filed _ (OpAdmit _)), Hf.
    + intros h x Hx. cbn in Hx. rewrite Hm in Hx. destruct (decide (h = hash_of b)) as [->|Hne]; [by exists b|].
      rewrite lookup_insert_ne in Hx by done. destruct (Hh h x Hx) as (b' & -> & Hb'). exists b'. split; [done|]. by apply Hkeep.
  - split; [|split; [left; by rewrite Hm|intros Hch; by specialize (Htot Hch)]].
    split; [done|by rewrite Hm|]. intros h x Hx. rewrite Hm in Hx. destruct (Hh h x Hx) as (b' & -> & Hb'). eauto.
Qed.

Lemma warm_hit_flag m n want i : (i = true -> (warm_hit m n want i).2 = true).
Proof. intros ->. unfold warm_hit. repeat case_match; done. Qed.

Lemma warm_hit_spec m n want i x i' : warm_hit m n want i = (Some x, i') ->
  resolve_alias m n = Some x /\ e_hash x = want /\ (i = true -> interpreter x = true).
Proof.
  unfold warm_hit. destruct (resolve_alias m n) as [y|]; [|done]. case_match eqn:Hc; [|done].
  case_match eqn:Hi; intros [= <- <-]. reflect. split; [done|]. split; [tauto|]. intros ->. cbn in Hi.
  by destruct (interpreter y).
Qed.

(** What a step does to the manifest. *)
Inductive effect (a : Assayer) (o : op) : Manifest -> Prop :=
| unchanged : effect a o (manifest a)
| admitted b x : vouches o b x -> e_hash x = hash_of b -> effect a o (sign_standin (admit_entry (manifest a) x).2)
| revoked_ h e : o = RevokeHash h e -> effect a o (sign_standin (Manifest.revoke (manifest a) h)).

Lemma resolve_effect a o : sound a -> sound (step a o) /\ effect a o (manifest (step a o)).
Proof.
  intros Hs.
  assert (Hadmit : forall n b t i w rc e, vouches o b (mkEntry n (hash_of b) t i w rc) ->
    let a' := (admit_as a n b t i w rc e).2 in sound a' /\ effect a o (manifest a')).
  { intros n b t i w rc e Hv. pose proof (admit_as_spec a n b t i w rc e Hs) as Ha.
    destruct (admit_as a n b t i w rc e) as [r a']. destruct Ha as (Hs' & [[_ Hm]|[_ Hm]] & _).
    all: cbn [snd]; split; [done|]; rewrite Hm; first [by constructor|by eapply admitted]. }
  destruct o as [n b i w e|n b i w p e|n b i e|n b i e|h e]; cbn [step].
  - by apply Hadmit.
  - unfold admit_forged_authored. destruct (String.eqb_spec (artifact p) (hash_of b)) as [Hp|]; [|by split; [|constructor]].
    cbn [negb]. destruct (reproduced p) eqn:Hr; apply Hadmit; cbn; rewrite Hr; done.
  - by apply Hadmit.
  - unfold resolve. pose proof (warm_hit_flag (manifest a) n (hash_of b) i) as Hf.
    destruct (warm_hit _ _ _ _) as [[x|] i']; [by split; [|constructor]|].
    pose proof (Hadmit n b Verified i' Host None e) as Ha.
    destruct (admit_as a n b Verified i' Host None e) as [[h|er] a']; apply Ha; cbn; eauto.
  - unfold revoke. destruct (enter_spec a (Manifest.revoke (manifest a) h) e) as [Hst Hm]. destruct Hs as [Hd Hf Hh].
    split; [split; rewrite ?Hst, ?Hm; try done; by rewrite Hst|]. rewrite Hm. by eapply revoked_.
Qed.

Lemma fresh_sound : sound fresh.
Proof. split; [exact (so_disk _ empty_ok)|apply new_well_filed|]. intros h x Hx. cbn in Hx. by rewrite lookup_empty in Hx. Qed.

Lemma history_sound ops : sound (run fresh ops).
Proof. unfold run. apply foldl_inv; [|apply fresh_sound]. intros a o _ Ha. by apply resolve_effect. Qed.

Lemma run_snoc a ops o : run a (ops ++ [o]) = step (run a ops) o.
Proof. unfold run. by rewrite foldl_app. Qed.

Lemma run_vouched ops h x : entries (manifest (run fresh ops)) !! h = Some x ->
  exists o b, o ∈ ops /\ vouches o b x /\ h = hash_of b.
Proof.
  induction ops as [|o ops IH] using rev_ind; intros Hx; [cbn in Hx; by rewrite lookup_empty in Hx|].
  rewrite run_snoc in Hx. destruct (resolve_effect (run fresh ops) o (history_sound ops)) as [_ He].
  assert (Hold : entries (manifest (run fresh ops)) !! h = Some x -> exists o' b, o' ∈ ops ++ [o] /\ vouches o' b x /\ h = hash_of b).
  { intros Ho. destruct (IH Ho) as (o' & b & Hin & ?). exists o', b. split; [set_solver|done]. }
  inversion He as [E|b y Hv Hy E|h' e Hr E]; rewrite <- E in Hx; cbn in Hx; [by apply Hold| |by apply Hold].
  rewrite Hy in Hx. destruct (decide (h = hash_of b)) as [->|Hne].
  - rewrite lookup_insert_eq in Hx. injection Hx as <-. exists o, b. split; [set_solver|done].
  - rewrite lookup_insert_ne in Hx by done. by apply Hold.
Qed.

(** ** Properties *)

(** Every entry is vouched for: after any history, failures of the file system
    included, an entry under a hash was filed by an operation on bytes with that
    digest, with the tier, author and recipe that operation may give; a forged tier
    comes only from a proof of those very bytes that was reproduced; and bytes with the
    hash can be fetched, unless the file of their object holds others of the same digest. *)
Theorem assay_vouched (ops : list op) (h : hash) (x : Entry) :
  entries (manifest (run fresh ops)) !! h = Some x ->
  (exists o b, o ∈ ops /\ vouches o b x /\ h = hash_of b) /\
  (tier x = Forged -> exists n b i w p e, AdmitForged n b i w p e ∈ ops /\
     h = hash_of b /\ artifact p = h /\ reproduced p = true /\ recipe x = Some (p_recipe p)) /\
  (exists b, h = hash_of b /\ (blen b <= u64_max -> fetch (run fresh ops) h true = Ok b \/
     exists c, contents (store (run fresh ops)) (target b) = Some c /\ collides c b)).
Proof.
  intros Hx. destruct (run_vouched ops h x Hx) as (o & b & Hin & Hv & ->). split; [by exists o, b|]. split.
  - intros Ht. destruct o as [n b' i w e|n b' i w p e|n b' i e|n b' i e|h e]; cbn in Hv; [by destruct Hv as [_ ->]| | | |done].
    + destruct Hv as (-> & Hp & ->). destruct (reproduced p) eqn:Hr; [|done]. by exists n, b, i, w, p, e.
    + by destruct Hv as [_ ->].
    + by destruct Hv as (_ & ? & _ & ->).
  - destruct (sd_held _ (history_sound ops) _ _ Hx) as (b' & Hb & [c Hc]). subst. exists b'. split; [done|]. intros Hl.
    pose proof (do_object _ (sd_disk _ (history_sound ops)) _ _ Hc) as Htc.
    destruct (target_inj c b' Htc) as [->|]; [left|right; by exists c]. rewrite Hb. unfold fetch. by rewrite get_present.
Qed.

(** Revocation is final and every change is signed: whatever is admitted or resolved
    before or after, a revoked hash is refused by the exec gate, and a manifest that is
    not new verifies. *)
Theorem assay_revocation (before after : list op) (h : hash) (e : Env) :
  permit_exec (manifest (run fresh (before ++ RevokeHash h e :: after))) h = Err (Revoked h) /\
  verify_standin (manifest (run fresh (before ++ RevokeHash h e :: after))) = true.
Proof.
  set (good m := h ∈ revoked m /\ verify_standin m = true).
  enough (Hg : good (manifest (run fresh (before ++ RevokeHash h e :: after)))).
  { destruct Hg as [Hr Hv]. split; [|done]. unfold permit_exec, is_revoked. by rewrite bool_decide_eq_true_2. }
  replace (before ++ RevokeHash h e :: after) with ((before ++ [RevokeHash h e]) ++ after) by by rewrite <- app_assoc.
  induction after as [|o after IH] using rev_ind.
  - rewrite app_nil_r, run_snoc. cbn [step]. unfold revoke.
    destruct (enter_spec (run fresh before) (Manifest.revoke (manifest (run fresh before)) h) e) as [_ ->].
    split; [cbn; set_solver|]. cbn. apply String.eqb_refl.
  - rewrite app_assoc, run_snoc. destruct (resolve_effect _ o (history_sound ((before ++ [RevokeHash h e]) ++ after))) as [_ He].
    destruct IH as [Hr Hv]. inversion He as [E|b y Hvo Hy E|h' e' Hre E]; [by split| |].
    + split; [done|]. apply String.eqb_refl.
    + split; [cbn; set_solver|]. apply String.eqb_refl.
Qed.

(** Resolving is by content: it is warm exactly when the alias's live entry has the
    digest of the bytes and is at least as strict as the caller, and then nothing
    changes; otherwise the bytes are stored and filed at the verified tier, as strict
    as the caller and as the alias's entry for the same bytes. *)
Theorem resolve_by_content (a : Assayer) (n : string) (b : bytes) (i : bool) (e : Env) :
  sound a -> (forall k, choices e k <> Fails) ->
  let '(r, a') := resolve a n b i e in
  match resolve_alias (manifest a) n with
  | Some x =>
      if bool_decide (e_hash x = hash_of b) && (interpreter x || negb i)
      then r = Ok (mkResolved (e_hash x) (tier x) true false) /\ a' = a
      else r = Ok (mkResolved (hash_of b) Verified false false) /\
        permit_exec (manifest a') (hash_of b) =
          (if is_revoked (manifest a) (hash_of b) then Err (Revoked (hash_of b)) else
           Ok (mkEntry n (hash_of b) Verified (i || (bool_decide (e_hash x = hash_of b) && interpreter x)) Host None))
  | None => r = Ok (mkResolved (hash_of b) Verified false false) /\
      permit_exec (manifest a') (hash_of b) =
        (if is_revoked (manifest a) (hash_of b) then Err (Revoked (hash_of b)) else
         Ok (mkEntry n (hash_of b) Verified i Host None))
  end.
Proof.
  intros Hs Hch. unfold resolve.
  assert (Hcold : forall i', let '(r, a') := match admit_as a n b Verified i' Host None e with
      | (Ok h, a) => (Ok (mkResolved h Verified false false), a)
      | (Err err, a) => (Err err, a)
      end in r = Ok (mkResolved (hash_of b) Verified false false) /\
      permit_exec (manifest a') (hash_of b) =
        (if is_revoked (manifest a) (hash_of b) then Err (Revoked (hash_of b)) else
         Ok (mkEntry n (hash_of b) Verified i' Host None))).
  { intros i'. pose proof (admit_as_spec a n b Verified i' Host None e Hs) as Ha.
    destruct (admit_as a n b Verified i' Host None e) as [r a']. destruct Ha as (_ & Hm & Hok). specialize (Hok Hch).
    subst r. split; [done|]. destruct Hm as [[? _]|[_ ->]]; [done|]. unfold permit_exec, is_revoked. cbn.
    by rewrite lookup_insert_eq. }
  unfold warm_hit. destruct (resolve_alias (manifest a) n) as [x|] eqn:Hx; [|apply Hcold].
  destruct (resolve_alias_sound _ _ _ Hx) as (_ & Hr & _).
  destruct (String.eqb_spec (e_hash x) (hash_of b)) as [Heq|Hne].
  - unfold is_revoked at 1. rewrite (bool_decide_eq_false_2 (e_hash x ∈ _)), (bool_decide_eq_true_2 (e_hash x = _)) by done.
    cbn [andb negb]. destruct (interpreter x) eqn:Hi, i; cbn [orb negb Bool.eqb]; try done. exact (Hcold true).
  - rewrite (bool_decide_eq_false_2 (e_hash x = _)) by done. cbn [andb]. rewrite orb_false_r. apply Hcold.
Qed.

(** Resolving the same bytes under another alias replaces their entry: the lane
    decision then takes bytes an agent wrote for the host's, and an interpreter for a
    plain tool. *)
Theorem resolve_relabels (n n' : string) (b : bytes) (i : bool) (w : Author) (e e' : Env) :
  n <> n' -> (forall k, choices e k <> Fails) -> (forall k, choices e' k <> Fails) ->
  let a := run fresh [AdmitVerified n b i w e] in
  let a' := run fresh [AdmitVerified n b i w e; Resolve n' b false e'] in
  permit_exec (manifest a) (hash_of b) = Ok (mkEntry n (hash_of b) Verified i w None) /\
  permit_exec (manifest a') (hash_of b) = Ok (mkEntry n' (hash_of b) Verified false Host None) /\
  resolve_exec_lane (mkEntry n (hash_of b) Verified i Agent None) NoInput = Data /\
  resolve_exec_lane (mkEntry n (hash_of b) Verified true w None) (File Data) = Data /\
  resolve_exec_lane (mkEntry n' (hash_of b) Verified false Host None) (File Data) = Tool.
Proof.
  intros Hn Hch Hch' a a'.
  pose proof (admit_as_spec fresh n b Verified i w None e fresh_sound) as Ha.
  assert (Hm : manifest a = sign_standin (admit_entry (manifest fresh) (mkEntry n (hash_of b) Verified i w None)).2).
  { unfold a, run, foldl, step, admit_verified_authored. destruct (admit_as fresh n b Verified i w None e) as [r x].
    destruct Ha as (_ & [[He _]|[_ Hm]] & Hr); [by rewrite (Hr Hch) in He|done]. }
  split; [unfold permit_exec, is_revoked; rewrite Hm; cbn; by rewrite lookup_insert_eq|].
  split; [|by repeat split; destruct w].
  assert (Hs : sound a) by apply history_sound.
  pose proof (resolve_by_content a n' b false e' Hs Hch') as Hres.
  assert (Hnone : resolve_alias (manifest a) n' = None).
  { destruct (resolve_alias (manifest a) n') as [x|] eqn:Hx; [|done]. exfalso.
    destruct (resolve_alias_sound _ _ _ Hx) as (Ha' & _ & h & Hh). rewrite Hm in Hh. cbn in Hh.
    apply lookup_insert_Some in Hh as [[_ <-]|[_ Hh]]; [by apply Hn|]. cbn in Hh. by rewrite lookup_empty in Hh. }
  rewrite Hnone in Hres. change a' with (resolve a n' b false e').2.
  destruct (resolve a n' b false e') as [r x]. destruct Hres as [_ Hp]. cbn [snd]. rewrite Hp.
  unfold is_revoked. rewrite Hm. cbn. by rewrite bool_decide_eq_false_2 by set_solver.
Qed.
End assay.
