(* ===== verification/ToolSchema.v ===== *)
(** * Tool argument schemas ([crates/celln-manifest/src/tool_schema.rs])

    The closed schema subset a tool package declares, and the bounded JSON reader in
    front of it. The reader is a [serde] visitor: what the tokenizer hands it is a
    [Raw] tree, in document order and with duplicate keys. *)

From S2P Require Import Prelude Manifest Json Instances.

Definition MAX_SCHEMA_BYTES : Z := 32768.
Definition MAX_VALUE_BYTES : Z := 65536.
Definition MAX_STRING_CHARS : Z := 4096.

(** ** The bounded reader *)

(** The loops of [visit_seq] and [visit_map], over the visitor of their elements. *)
Definition visit_seq (seed : Z -> Raw -> option (Value * Z)) :
    list Value -> Z -> list Raw -> option (Value * Z) :=
  fix loop values nodes l {struct l} :=
    match l with
    | [] => Some (VArray values, nodes)
    | r :: l => '(v, nodes) ← seed nodes r; loop (values ++ [v]) nodes l
    end.

Definition visit_map (seed : Z -> Raw -> option (Value * Z)) :
    list (string * Value) -> Z -> list (string * Raw) -> option (Value * Z) :=
  fix loop values nodes o {struct o} :=
    match o with
    | [] => Some (VObject values, nodes)
    | (key, r) :: o =>
        if contains_key key values then None else
        '(v, nodes) ← seed nodes r; loop (oinsert key v values) nodes o
    end.

(** [Bounded::deserialize]; the second component of the result is the shared node
    counter. [parse_json] forgets which error occurred. *)
Fixpoint visit (depth nodes : Z) (r : Raw) {struct r} : option (Value * Z) :=
  let nodes := nodes + 1 in
  if (16 <? depth) || (4096 <? nodes) then None else
  match r with
  | RUnit => Some (Null, nodes)
  | RBool b => Some (VBool b, nodes)
  | RI64 v => Some (from_i64 v, nodes)
  | RU64 v => Some (VNumber (PosInt v), nodes)
  | RF64 b => if finite b then Some (VNumber (Float b), nodes) else None
  | RStr s => Some (VString s, nodes)
  | RSeq l => visit_seq (visit (depth + 1)) [] nodes l
  | RMap o => visit_map (visit (depth + 1)) [] nodes o
  end.

Definition parse_json `{JsonText} (b : bytes) : result string Value :=
  '(r, ended) ← ok_or (read_raw b) "malformed, duplicate-key or over-complex JSON";
  '(v, _) ← ok_or (visit 0 0 r) "malformed, duplicate-key or over-complex JSON";
  _ ← ensure ended "trailing JSON data";
  Ok v.

(** ** Schemas *)

(** A [BTreeMap<String, Node>] is its association list, keys increasing. *)
Inductive Node : Type :=
| Object (properties : list (string * Node)) (required : list string) (additional_properties : bool)
| Array (items : Node) (min_items max_items : Z)
| String_ (min_length max_length : Z)
| Integer (minimum maximum : Z)
| Boolean.

Fixpoint property (k : string) (ps : list (string * Node)) : option Node :=
  match ps with
  | [] => None
  | (k', s) :: ps => if String.eqb k k' then Some s else property k ps
  end.

Definition key_byte (b : byte) : bool := is_alnum b || bool_decide (b ∈ [x5f; x2d]).
Definition bad_property (k : string) : bool :=
  str_is_empty k || (64 <? str_len k) || negb (all_bytes key_byte k).

Definition bad_object (ps : list (string * Node)) (required : list string) (additional : bool) : bool :=
  additional || (32 <? Z.of_nat (length ps)) || (Z.of_nat (length ps) <? Z.of_nat (length required))
  || negb (Z.of_nat (size (list_to_set required : gset string)) =? Z.of_nat (length required))
  || existsb (fun k => negb (is_Some_bool (property k ps))) required
  || existsb bad_property ps.*1.

(** [Node::check]; the result is the node counter it leaves. *)
Definition check_all (f : Z -> Node -> result string Z) : Z -> list (string * Node) -> result string Z :=
  fix loop nodes ps {struct ps} :=
    match ps with
    | [] => Ok nodes
    | (_, s) :: ps => nodes ← f nodes s; loop nodes ps
    end.

Fixpoint check (depth nodes : Z) (s : Node) {struct s} : result string Z :=
  let nodes := nodes + 1 in
  if (4 <? depth) || (128 <? nodes) then Err "schema nesting or node limit exceeded" else
  match s with
  | Object ps required additional =>
      if bad_object ps required additional
      then Err "object schema must be closed with unique declared properties"
      else check_all (check (depth + 1)) nodes ps
  | Array items min_items max_items =>
      if (max_items <? min_items) || (64 <? max_items) then Err "invalid array bounds"
      else check (depth + 1) nodes items
  | String_ lo hi => if (hi <? lo) || (MAX_STRING_CHARS <? hi) then Err "invalid string bounds" else Ok nodes
  | Integer lo hi => if hi <? lo then Err "invalid integer bounds" else Ok nodes
  | Boolean => Ok nodes
  end.

(** [value.chars().count()] of UTF-8 text. *)
Definition chars_count (s : string) : Z := Z.of_nat (length (filter (fun b => cont b = false) (as_bytes s))).

(** [Node::matches], with the loops over fields and elements. *)
Definition match_fields (ps : list (string * Node)) (f : Node -> Value -> result string unit) :
    list (string * Value) -> result string unit :=
  fix loop values :=
    match values with
    | [] => Ok tt
    | (k, v) :: values => s ← ok_or (property k ps) "undeclared tool field"; _ ← f s v; loop values
    end.

Definition match_elements (f : Value -> result string unit) : list Value -> result string unit :=
  fix loop values :=
    match values with
    | [] => Ok tt
    | v :: values => _ ← f v; loop values
    end.

Fixpoint matches (s : Node) (v : Value) {struct v} : result string unit :=
  match s, v with
  | Object ps required _, VObject values =>
      if existsb (fun k => negb (contains_key k values)) required then Err "required tool field missing"
      else match_fields ps (fun s v => matches s v) values
  | Array items lo hi, VArray values =>
      let n := Z.of_nat (length values) in
      if (n <? lo) || (hi <? n) then Err "tool array outside bounds"
      else match_elements (fun v => matches items v) values
  | String_ lo hi, VString t =>
      let n := chars_count t in
      if (n <? lo) || (hi <? n) then Err "tool string outside bounds" else Ok tt
  | Integer lo hi, VNumber n =>
      i ← ok_or (as_i64 n) "unsupported non-i64 integer encoding";
      if (i <? lo) || (hi <? i) then Err "tool integer outside bounds" else Ok tt
  | Boolean, VBool _ => Ok tt
  | _, _ => Err "tool value type mismatch"
  end.

Record ToolSchema : Type := mkToolSchema { identity : hash; node : Node }.

(** [from_value] is the derived decoder of [Node]. *)
Definition parse `{Blake3} `{JsonText} (from_value : Value -> option Node) (b : bytes) (expected : hash) :
    result string ToolSchema :=
  if MAX_SCHEMA_BYTES <? blen b then Err "schema exceeds 32 KiB" else
  let identity := hash_of b in
  if negb (String.eqb identity expected) then Err "schema artifact identity mismatch" else
  v ← parse_json b;
  s ← ok_or (from_value v) "unsupported or malformed tool schema";
  _ ← check 0 0 s;
  Ok (mkToolSchema identity s).

Definition validate `{JsonText} (t : ToolSchema) (b : bytes) (max_bytes : Z) : result string unit :=
  if (max_bytes =? 0) || (MAX_VALUE_BYTES <? max_bytes) || (max_bytes <? blen b)
  then Err "tool value exceeds permitted byte ceiling" else
  v ← parse_json b; matches (node t) v.

(** ** Specifications *)

Section node_ind.
Context (P : Node -> Prop).
Context (HObj : forall ps req add, Forall (fun ks => P ks.2) ps -> P (Object ps req add)).
Context (HArr : forall s lo hi, P s -> P (Array s lo hi)) (HStr : forall lo hi, P (String_ lo hi)).
Context (HInt : forall lo hi, P (Integer lo hi)) (HBool : P Boolean).

Fixpoint node_ind' (s : Node) : P s :=
  match s with
  | Object ps req add =>
      HObj ps req add ((fix go (ps : list (string * Node)) : Forall (fun ks => P ks.2) ps :=
        match ps with
        | [] => Forall_nil_2 _
        | ks :: ps => Forall_cons_2 (fun ks => P ks.2) ks ps (node_ind' ks.2) (go ps)
        end) ps)
  | Array s lo hi => HArr s lo hi (node_ind' s)
  | String_ lo hi => HStr lo hi
  | Integer lo hi => HInt lo hi
  | Boolean => HBool
  end.
End node_ind.

Definition max_of (l : list Z) : Z := foldr Z.max 0 l.

(** The levels below the root, the number of nodes, and what a document
    must satisfy beyond the bounds: no object repeats a key and floats are finite. *)
Fixpoint raw_height (r : Raw) : Z :=
  match r with
  | RSeq l => max_of ((fun r => 1 + raw_height r) <$> l)
  | RMap o => max_of ((fun kr => 1 + raw_height kr.2) <$> o)
  | _ => 0
  end.
Fixpoint raw_size (r : Raw) : Z :=
  match r with
  | RSeq l => 1 + sum_of (raw_size <$> l)
  | RMap o => 1 + sum_of ((fun kr => raw_size kr.2) <$> o)
  | _ => 1
  end.
Fixpoint raw_wf (r : Raw) : bool :=
  match r with
  | RF64 b => finite b
  | RSeq l => forallb raw_wf l
  | RMap o => bool_decide (NoDup o.*1) && forallb (fun kr => raw_wf kr.2) o
  | _ => true
  end.

Fixpoint height (s : Node) : Z :=
  match s with
  | Object ps _ _ => max_of ((fun ks => 1 + height ks.2) <$> ps)
  | Array s _ _ => 1 + height s
  | _ => 0
  end.
Fixpoint nodes_of (s : Node) : Z :=
  match s with
  | Object ps _ _ => 1 + sum_of ((fun ks => nodes_of ks.2) <$> ps)
  | Array s _ _ => 1 + nodes_of s
  | _ => 1
  end.
Fixpoint well_bounded (s : Node) : bool :=
  match s with
  | Object ps req add => negb (bad_object ps req add) && forallb (fun ks => well_bounded ks.2) ps
  | Array s lo hi => (lo <=? hi) && (hi <=? 64) && well_bounded s
  | String_ lo hi => (lo <=? hi) && (hi <=? MAX_STRING_CHARS)
  | Integer lo hi => lo <=? hi
  | Boolean => true
  end.

(** The values of a schema. *)
Inductive conforms : Node -> Value -> Prop :=
| conforms_object ps req add o :
    (forall k, k ∈ req -> k ∈ o.*1) ->
    Forall (fun kv => exists s, property kv.1 ps = Some s /\ conforms s kv.2) o ->
    conforms (Object ps req add) (VObject o)
| conforms_array s lo hi l :
    lo <= Z.of_nat (length l) <= hi -> Forall (conforms s) l -> conforms (Array s lo hi) (VArray l)
| conforms_string lo hi t : lo <= chars_count t <= hi -> conforms (String_ lo hi) (VString t)
| conforms_integer lo hi n i : as_i64 n = Some i -> lo <= i <= hi -> conforms (Integer lo hi) (VNumber n)
| conforms_boolean b : conforms Boolean (VBool b).

Fixpoint value_height (v : Value) : Z :=
  match v with
  | VArray l => max_of ((fun v => 1 + value_height v) <$> l)
  | VObject o => max_of ((fun kv => 1 + value_height kv.2) <$> o)
  | _ => 0
  end.

(** ** Lemmas *)

Lemma max_of_nonneg l : 0 <= max_of l.
Proof. induction l as [|x l IH]; cbn; unfold max_of in *; lia. Qed.

Lemma raw_size_pos r : 1 <= raw_size r.
Proof.
  induction r as [| | | | | |l IH|o IH] using raw_ind'; cbn; try lia.
  - enough (0 <= sum_of (raw_size <$> l)) by lia. apply sum_of_nonneg, Forall_fmap.
    eapply Forall_impl; [exact IH|]. cbn. lia.
  - enough (0 <= sum_of ((fun kr => raw_size kr.2) <$> o)) by lia. apply sum_of_nonneg, Forall_fmap.
    eapply Forall_impl; [exact IH|]. cbn. lia.
Qed.

Lemma raw_height_nonneg r : 0 <= raw_height r.
Proof. destruct r; cbn; first [lia | apply max_of_nonneg]. Qed.

Lemma nodes_of_pos s : 1 <= nodes_of s.
Proof.
  induction s as [ps req add IH|s lo hi IH| | |] using node_ind'; cbn; try lia.
  enough (0 <= sum_of ((fun ks => nodes_of ks.2) <$> ps)) by lia. apply sum_of_nonneg, Forall_fmap.
  eapply Forall_impl; [exact IH|]. cbn. lia.
Qed.

Lemma height_nonneg s : 0 <= height s.
Proof. induction s using node_ind'; cbn; first [lia | apply max_of_nonneg]. Qed.

(** The reader, without its counter: it is enough to bound the whole document. *)
Definition fits (d n : Z) (r : Raw) : Prop :=
  raw_wf r = true /\ d + raw_height r <= 16 /\ n + raw_size r <= 4096.

Definition visits (d : Z) (r : Raw) : Prop := forall n v m,
  visit d n r = Some (v, m) <-> fits d n r /\ v = raw_value r /\ m = n + raw_size r.

Lemma visit_seq_spec d l acc n v m : Forall (visits (d + 1)) l -> d <= 16 -> n <= 4096 ->
  visit_seq (visit (d + 1)) acc n l = Some (v, m) <->
  (forallb raw_wf l = true /\ d + max_of ((fun r => 1 + raw_height r) <$> l) <= 16 /\
   n + sum_of (raw_size <$> l) <= 4096) /\
  v = VArray (acc ++ (raw_value <$> l)) /\ m = n + sum_of (raw_size <$> l).
Proof.
  intros Hl Hd. revert acc n. induction Hl as [|r l Hr Hl IH]; intros acc n Hn.
  - cbn. rewrite app_nil_r. unfold max_of, sum_of. cbn. split.
    + intros [= <- <-]. repeat split; lia.
    + intros (_ & -> & ->). by rewrite Z.add_0_r.
  - cbn [visit_seq]. rewrite bind_Some. cbn. pose proof (max_of_nonneg ((fun r => 1 + raw_height r) <$> l)).
    pose proof (raw_height_nonneg r). pose proof (raw_size_pos r).
    assert (Hs : 0 <= sum_of (raw_size <$> l)).
    { apply sum_of_nonneg, Forall_fmap, Forall_true. intros x. cbn. pose proof (raw_size_pos x). lia. }
    unfold max_of, sum_of in *. cbn. rewrite andb_true_iff. split.
    + intros ([v1 m1] & ((Hw & Hh & Hz) & -> & ->)%Hr & Hgo).
      apply IH in Hgo as ((? & ? & ?) & -> & ->); [|lia]. rewrite <- app_assoc. repeat split; try done; lia.
    + intros (([Hw Hw'] & Hh & Hz) & -> & ->). exists (raw_value r, n + raw_size r). split.
      * apply Hr. unfold fits. repeat split; try done; lia.
      * apply IH; [lia|]. rewrite <- app_assoc. repeat split; try done; lia.
Qed.

Lemma visit_map_spec d o acc n v m : Forall (fun kr => visits (d + 1) kr.2) o -> d <= 16 -> n <= 4096 ->
  visit_map (visit (d + 1)) acc n o = Some (v, m) <->
  (fresh_keys acc o /\ forallb (fun kr => raw_wf kr.2) o = true /\
   d + max_of ((fun kr => 1 + raw_height kr.2) <$> o) <= 16 /\
   n + sum_of ((fun kr => raw_size kr.2) <$> o) <= 4096) /\
  v = VObject (insert_all acc o) /\ m = n + sum_of ((fun kr => raw_size kr.2) <$> o).
Proof.
  intros Ho Hd. revert acc n. induction Ho as [|[k r] o Hr Ho IH]; intros acc n Hn.
  - cbn. unfold max_of, sum_of, fresh_keys. cbn. split.
    + intros [= <- <-]. split; [|split; [done|lia]]. repeat split; try lia; [constructor|]. by intros k ?%elem_of_nil.
    + intros (_ & -> & ->). by rewrite Z.add_0_r.
  - cbn [visit_map]. rewrite fresh_cons. cbn in Hr.
    destruct (contains_key k acc) eqn:Hk; [naive_solver|]. rewrite bind_Some. cbn.
    pose proof (max_of_nonneg ((fun kr => 1 + raw_height kr.2) <$> o)).
    pose proof (raw_height_nonneg r). pose proof (raw_size_pos r).
    assert (Hs : 0 <= sum_of ((fun kr => raw_size kr.2) <$> o)).
    { apply sum_of_nonneg, Forall_fmap, Forall_true. intros x. cbn. pose proof (raw_size_pos x.2). lia. }
    unfold max_of, sum_of in *. cbn. rewrite andb_true_iff. split.
    + intros ([v1 m1] & ((Hw & Hh & Hz) & -> & ->)%Hr & Hgo).
      apply IH in Hgo as ((? & ? & ? & ?) & -> & ->); [|lia].
      split; [|split; [done|lia]]. split; [done|]. split; [done|]. lia.
    + intros (((_ & Hf) & [Hw Hw'] & Hh & Hz) & -> & ->). exists (raw_value r, n + raw_size r). split.
      * apply Hr. unfold fits. repeat split; try done; lia.
      * apply IH; [lia|]. split; [|split; [done|lia]]. split; [done|]. split; [done|]. lia.
Qed.

Lemma visit_spec r : forall d, visits d r.
Proof.
  induction r as [|b|i|u|f|s|l IH|o IH] using raw_ind'; intros d n v m.
  all: match goal with |- visit _ _ ?r = _ <-> _ =>
    pose proof (raw_height_nonneg r) as Hh0; pose proof (raw_size_pos r) as Hs0 end.
  all: cbn [visit]; unfold fits; destruct (Z.ltb_spec 16 d) as [Hd|Hd]; cbn [orb];
    [split; [done|intros ((_ & ? & _) & _); lia]|].
  all: destruct (Z.ltb_spec 4096 (n + 1)) as [Hn|Hn]; [split; [done|intros ((_ & _ & ?) & _); lia]|].
  7: rewrite visit_seq_spec; [|eapply Forall_impl; [exact IH|]; intros r Hr; apply Hr|done..].
  8: rewrite visit_map_spec; [|eapply Forall_impl; [exact IH|]; intros r Hr; apply Hr|done..].
  all: cbn [raw_wf raw_value raw_height raw_size].
  7: cbn [app]; rewrite !Z.add_assoc; naive_solver.
  7: { unfold fresh_keys, insert_all. rewrite !Z.add_assoc, andb_true_iff, bool_decide_eq_true. cbn.
       assert (forall k, k ∈ o.*1 -> k ∉ []) by (intros ? _ ?%elem_of_nil; done). naive_solver. }
  5: destruct (finite f); [|naive_solver].
  all: rewrite !Z.add_0_r; split; [intros [= <- <-]; done|intros (_ & -> & ->); done].
Qed.

(** [check] is the bound on the whole schema, whatever its counter starts from. *)
Definition checks (d : Z) (s : Node) : Prop := forall n m,
  check d n s = Ok m <->
  (well_bounded s = true /\ d + height s <= 4 /\ n + nodes_of s <= 128) /\ m = n + nodes_of s.

Lemma check_all_spec d ps n m : Forall (fun ks => checks (d + 1) ks.2) ps -> d <= 4 -> n <= 128 ->
  check_all (check (d + 1)) n ps = Ok m <->
  (forallb (fun ks => well_bounded ks.2) ps = true /\
   d + max_of ((fun ks => 1 + height ks.2) <$> ps) <= 4 /\
   n + sum_of ((fun ks => nodes_of ks.2) <$> ps) <= 128) /\
  m = n + sum_of ((fun ks => nodes_of ks.2) <$> ps).
Proof.
  intros Hps Hd. revert n. induction Hps as [|[k s] ps Hs Hps IH]; intros n Hn.
  - cbn. unfold max_of, sum_of. cbn. split.
    + intros [= <-]. repeat split; lia.
    + intros (_ & ->). by rewrite Z.add_0_r.
  - cbn [check_all]. cbn in Hs. rewrite result_bind_Ok. cbn.
    pose proof (max_of_nonneg ((fun ks => 1 + height ks.2) <$> ps)).
    pose proof (height_nonneg s). pose proof (nodes_of_pos s).
    assert (Hp : 0 <= sum_of ((fun ks => nodes_of ks.2) <$> ps)).
    { apply sum_of_nonneg, Forall_fmap, Forall_true. intros x. cbn. pose proof (nodes_of_pos x.2). lia. }
    unfold max_of, sum_of in *. cbn. rewrite andb_true_iff. split.
    + intros (m1 & ((Hw & Hh & Hz) & ->)%Hs & Hgo).
      apply IH in Hgo as ((? & ? & ?) & ->); [|lia]. repeat split; try done; lia.
    + intros (([Hw Hw'] & Hh & Hz) & ->). exists (n + nodes_of s). split.
      * apply Hs. repeat split; try done; lia.
      * apply IH; [lia|]. repeat split; try done; lia.
Qed.

Lemma node_check_spec s : forall d, checks d s.
Proof.
  induction s as [ps req add IH|s lo hi IH|lo hi|lo hi|] using node_ind'; intros d n m.
  all: match goal with |- check _ _ ?s = _ <-> _ =>
    pose proof (height_nonneg s) as Hh0; pose proof (nodes_of_pos s) as Hs0 end.
  all: cbn [check]; destruct (Z.ltb_spec 4 d) as [Hd|Hd]; cbn [orb];
    [split; [done|intros ((_ & ? & _) & _); lia]|].
  all: destruct (Z.ltb_spec 128 (n + 1)) as [Hn|Hn]; [split; [done|intros ((_ & _ & ?) & _); lia]|].
  all: cbn [well_bounded height nodes_of].
  - destruct (bad_object ps req add); cbn [negb andb]; [naive_solver|].
    rewrite check_all_spec; [|eapply Forall_impl; [exact IH|]; intros x Hx; apply Hx|done..].
    by rewrite !Z.add_assoc.
  - assert (E : (hi <? lo) || (64 <? hi) = negb ((lo <=? hi) && (hi <=? 64))).
    { rewrite negb_andb. f_equal; by rewrite Z.leb_antisym, negb_involutive. }
    rewrite E. destruct ((lo <=? hi) && (hi <=? 64)); cbn [negb andb]; [|naive_solver].
    rewrite (IH (d + 1) (n + 1) m). rewrite !Z.add_assoc. done.
  - assert (E : (hi <? lo) || (MAX_STRING_CHARS <? hi) = negb ((lo <=? hi) && (hi <=? MAX_STRING_CHARS))).
    { rewrite negb_andb. f_equal; by rewrite Z.leb_antisym, negb_involutive. }
    rewrite E. destruct (_ && _); cbn [negb]; [|naive_solver].
    split; [intros [= <-]; repeat split; lia|intros (_ & ->); done].
  - rewrite (Z.ltb_antisym lo hi). destruct (lo <=? hi); cbn [negb]; [|naive_solver].
    split; [intros [= <-]; repeat split; lia|intros (_ & ->); done].
  - split; [intros [= <-]; repeat split; lia|intros (_ & ->); done].
Qed.

(** [matches] decides [conforms]. *)
Lemma match_fields_spec ps o : Forall (fun kv => forall s, matches s kv.2 = Ok tt <-> conforms s kv.2) o ->
  match_fields ps (fun s v => matches s v) o = Ok tt <->
  Forall (fun kv => exists s, property kv.1 ps = Some s /\ conforms s kv.2) o.
Proof.
  induction 1 as [|[k v] o Hv Ho IH]; cbn [match_fields]; [split; constructor|].
  rewrite Forall_cons, <- IH, result_bind_Ok. setoid_rewrite ok_or_Ok. cbn in *. split.
  - intros (s & Hp & Hs). apply result_bind_Ok in Hs as ([] & Hs & Hgo). split; [|done].
    exists s. by rewrite <- Hv.
  - intros ((s & Hp & Hs) & Hgo). exists s. split; [done|]. apply Hv in Hs. by rewrite Hs.
Qed.

Lemma match_elements_spec s l : Forall (fun v => matches s v = Ok tt <-> conforms s v) l ->
  match_elements (fun v => matches s v) l = Ok tt <-> Forall (conforms s) l.
Proof.
  induction 1 as [|v l Hv Hl IH]; cbn [match_elements]; [split; constructor|].
  rewrite Forall_cons, <- IH, <- Hv, result_bind_Ok. split.
  - intros ([] & ? & ?). done.
  - intros [? ?]. by exists tt.
Qed.

Lemma outside_false n lo hi : (n <? lo) || (hi <? n) = false <-> lo <= n <= hi.
Proof. rewrite orb_false_iff, !Z.ltb_ge. lia. Qed.

Lemma matches_spec v : forall s, matches s v = Ok tt <-> conforms s v.
Proof.
  induction v as [|b|n|t|l IH|o IH] using value_ind'; intros s.
  all: destruct s as [ps req add|s lo hi|lo hi|lo hi|]; cbn [matches];
    try (split; [done|intros H; inversion H]; fail).
  - split; [intros _; constructor|done].
  - rewrite result_bind_Ok. setoid_rewrite ok_or_Ok. split.
    + intros (i & Hi & H). destruct (_ || _) eqn:E; [done|]. apply outside_false in E. by eapply conforms_integer.
    + inversion 1; subst. exists i. split; [done|]. by rewrite (proj2 (outside_false _ _ _)).
  - destruct (_ || _) eqn:E.
    + split; [done|]. inversion 1; subst. by rewrite (proj2 (outside_false _ _ _)) in E.
    + apply outside_false in E. split; [intros _; by constructor|done].
  - destruct (_ || _) eqn:E.
    + split; [done|]. inversion 1; subst. by rewrite (proj2 (outside_false _ _ _)) in E.
    + apply outside_false in E. rewrite match_elements_spec by (eapply Forall_impl; [exact IH|]; auto).
      split; [intros; by constructor|by inversion 1].
  - assert (Hreq : existsb (fun k => negb (contains_key k o)) req = false <-> forall k, k ∈ req -> k ∈ o.*1).
    { rewrite <- not_true_iff_false, existsb_exists. setoid_rewrite <- contains_key_spec. split.
      - intros H k Hk. destruct (contains_key k o) eqn:E; [done|]. exfalso. apply H. exists k.
        by rewrite <- list_elem_of_In, E.
      - intros H (k & Hk%list_elem_of_In & Hc). rewrite (H k Hk) in Hc. done. }
    destruct (existsb _ req).
    + split; [done|]. inversion 1; subst. exfalso. by enough (true = false) by done; apply Hreq.
    + rewrite match_fields_spec by done. destruct Hreq as [Hreq _]. split; [intros; constructor; auto|by inversion 1].
Qed.

Lemma max_of_le l b : 0 <= b -> Forall (fun x => x <= b) l -> max_of l <= b.
Proof. intros Hb. induction 1; unfold max_of in *; cbn; lia. Qed.

Lemma max_of_elem l x : x ∈ l -> x <= max_of l.
Proof. induction 1; unfold max_of in *; cbn; lia. Qed.

Lemma property_elem k ps s : property k ps = Some s -> (k, s) ∈ ps.
Proof.
  induction ps as [|[k' s'] ps IH]; cbn; [done|].
  destruct (String.eqb_spec k k') as [->|]; [intros [= ->]; by left|]. intros. right. by apply IH.
Qed.

Lemma conforms_height v : forall s, conforms s v -> value_height v <= height s.
Proof.
  induction v as [|b|n|t|l IH|o IH] using value_ind'; intros s Hc; cbn [value_height];
    try (pose proof (height_nonneg s); lia); inversion Hc; subst; cbn [height].
  - pose proof (height_nonneg s0). apply max_of_le, Forall_fmap; [lia|].
    apply Forall_forall. intros v Hv. rewrite Forall_forall in *. cbn. specialize (IH v Hv s0). naive_solver lia.
  - apply max_of_le; [apply max_of_nonneg|]. apply Forall_fmap, Forall_forall. intros kv Hkv.
    rewrite Forall_forall in *. cbn.
    match goal with H : forall x, x ∈ o -> exists _, _ |- _ => destruct (H kv Hkv) as (s & Hp & Hs) end.
    apply property_elem in Hp. apply (IH kv Hkv) in Hs. etransitivity; [apply Zplus_le_compat_l, Hs|].
    apply max_of_elem. apply list_elem_of_fmap. by exists (kv.1, s).
Qed.

Lemma parse_json_iff `{JsonText} b v : parse_json b = Ok v <->
  exists r, read_raw b = Some (r, true) /\ fits 0 0 r /\ v = raw_value r.
Proof.
  unfold parse_json. destruct (read_raw b) as [[r ended]|]; cbn; [|naive_solver].
  destruct (visit 0 0 r) as [[w m]|] eqn:E; cbn.
  - apply visit_spec in E as (Hf & -> & _). destruct ended; cbn; naive_solver.
  - split; [done|]. intros (r' & [= -> ->] & Hf & ->). exfalso.
    assert (Hv : visit 0 0 r' = Some (raw_value r', 0 + raw_size r')) by by apply visit_spec. congruence.
Qed.

(** ** Properties *)

(** The bounded JSON reader accepts exactly the documents that are one whole
    value followed by white space, nest at most 16 levels, have at most 4096 nodes
    and repeat no key in any object, and it returns their value: the counters and the
    early refusals that it threads through the parse lose and admit nothing else. *)
Theorem json_bounded `{JsonText} (b : bytes) (v : Value) :
  parse_json b = Ok v <->
  exists r, read_raw b = Some (r, true) /\ raw_wf r = true /\ raw_height r <= 16 /\ raw_size r <= 4096 /\
    v = raw_value r.
Proof. rewrite parse_json_iff. unfold fits. setoid_rewrite Z.add_0_l. naive_solver. Qed.

(** A tool schema is accepted exactly when its bytes fit 32 KiB, hash to the
    identity the caller expects, are acceptable JSON that decodes to a schema, and
    that schema is closed and bounded: at most 4 levels and 128 nodes, every object
    closed with unique declared properties, every array, string and integer range
    non-empty and within its ceiling. *)
Theorem schema_parse `{Blake3} `{JsonText} (from_value : Value -> option Node) (b : bytes) (expected : hash)
    (t : ToolSchema) :
  parse from_value b expected = Ok t <->
  blen b <= MAX_SCHEMA_BYTES /\ hash_of b = expected /\ identity t = expected /\
  (exists v, parse_json b = Ok v /\ from_value v = Some (node t)) /\
  well_bounded (node t) = true /\ height (node t) <= 4 /\ nodes_of (node t) <= 128.
Proof.
  unfold parse. destruct (Z.ltb_spec MAX_SCHEMA_BYTES (blen b)); [split; [done|lia]|].
  destruct (String.eqb_spec (hash_of b) expected) as [He|]; cbn; [|naive_solver].
  destruct (parse_json b) as [v|e]; cbn; [|naive_solver].
  destruct (from_value v) as [s|] eqn:Hs; cbn; [|naive_solver].
  pose proof (node_check_spec s 0 0) as Hc. destruct (check 0 0 s) as [m|e]; cbn.
  - destruct (proj1 (Hc m) eq_refl) as ((Hw & Hh & Hn) & _). split.
    + intros [= <-]. cbn. naive_solver lia.
    + destruct t as [i n]. cbn. naive_solver.
  - split; [done|]. destruct t as [i n]. cbn. intros (_ & _ & _ & (v' & [= <-] & Hn) & Hw & Hh & Hz). exfalso.
    assert (s = n) as -> by congruence. 
    enough (Err e = Ok (0 + nodes_of n)) by done. by apply Hc.
Qed.

(** A value is accepted under a parsed schema exactly when it fits the caller's
    ceiling (itself at most 64 KiB), is acceptable JSON and conforms to the schema;
    so an accepted value nests at most four levels, whatever the document held. *)
Theorem schema_validates `{Blake3} `{JsonText} (from_value : Value -> option Node) (b : bytes) (expected : hash)
    (t : ToolSchema) (data : bytes) (max_bytes : Z) :
  parse from_value b expected = Ok t ->
  (validate t data max_bytes = Ok tt <->
   max_bytes <> 0 /\ max_bytes <= MAX_VALUE_BYTES /\ blen data <= max_bytes /\
   exists v, parse_json data = Ok v /\ conforms (node t) v) /\
  (validate t data max_bytes = Ok tt -> exists v, parse_json data = Ok v /\ value_height v <= 4).
Proof.
  intros Hp. assert (Hh : height (node t) <= 4).
  { unfold parse in Hp. destruct (_ <? _); [done|]. destruct (negb _); [done|]. split_ok. cbn.
    match goal with Hc : check 0 0 _ = Ok _ |- _ => apply node_check_spec in Hc; lia end. }
  assert (Hv : validate t data max_bytes = Ok tt <->
   max_bytes <> 0 /\ max_bytes <= MAX_VALUE_BYTES /\ blen data <= max_bytes /\
   exists v, parse_json data = Ok v /\ conforms (node t) v).
  { unfold validate. destruct (_ || _) eqn:E.
    - split; [done|]. intros (H1 & H2 & H3 & _). reflect. lia.
    - reflect. destruct_and?. rewrite result_bind_Ok. setoid_rewrite matches_spec. naive_solver lia. }
  split; [done|]. intros (_ & _ & _ & v & Hd & Hc)%Hv. exists v. split; [done|].
  apply conforms_height in Hc. lia.
Qed.

(** ** Examples *)

Definition ex_read (b : bytes) : option (Raw * bool) :=
  if bool_decide (b = as_bytes "schema") then Some (RMap [("type", RStr "integer")], true)
  else if bool_decide (b = as_bytes "42") then Some (RU64 42, true) else None.
Lemma ex_read_typed b r e : ex_read b = Some (r, e) -> raw_typed r = true.
Proof. unfold ex_read. repeat case_bool_decide; intros [= <- <-]; done. Qed.
Definition ex_json : JsonText := {| read_raw := ex_read; read_typed := ex_read_typed |}.
Definition ex_node (v : Value) : option Node := match v with VObject _ => Some (Integer (-2) 42) | _ => None end.

Lemma schema_validates_witness :
  @validate ex_json (mkToolSchema "" (Integer (-2) 42)) (as_bytes "42") 2 = Ok tt /\
  exists v, @parse_json ex_json (as_bytes "42") = Ok v /\ value_height v <= 4.
Proof.
  split; [vm_compute; reflexivity|].
  destruct (@schema_validates Instances.toy_blake3 ex_json ex_node (as_bytes "schema")
    (@hash_of Instances.toy_blake3 (as_bytes "schema"))
    (mkToolSchema (@hash_of Instances.toy_blake3 (as_bytes "schema")) (Integer (-2) 42)) (as_bytes "42") 2) as [_ Hb].
  - vm_compute. reflexivity.
  - apply Hb. vm_compute. reflexivity.
Defined.
