(* ===== verification/ModelParams.v ===== *)
(** * Operator request parameters ([crates/celln-warden/src/model_parameters.rs])

    The rule set for the fields an operator adds to a provider request, and the
    merge of those fields into the request the broker composed. *)

From S2P Require Import Prelude Json.

Definition MAX_KEYS : Z := 16.
Definition MAX_DEPTH : Z := 3.
Definition MAX_STRING_BYTES : Z := 256.
Definition MAX_ARRAY_ITEMS : Z := 8.
Definition MAX_SERIALIZED_BYTES : Z := 2048.

Definition RESERVED : list string :=
  ["model"; "messages"; "system"; "stream"; "stream_options"; "max_tokens"; "max_completion_tokens"; "n";
   "tools"; "tool_choice"; "functions"; "function_call"; "parallel_tool_calls"; "user"].

Definition Map : Type := list (string * Value).

Definition key_byte (b : byte) : bool := is_lower b || is_digit b || bool_decide (b = x5f).
Definition valid_key (key : string) : bool :=
  match as_bytes key with
  | [] => false
  | b :: _ => (str_len key <=? 64) && is_lower b && all_bytes key_byte key
  end.

(** [number.as_f64().is_some_and(f64::is_finite)]: an integer converts to a finite
    float. *)
Definition finite_number (n : Number) : bool :=
  match n with Float bits => negb (Z.land (Z.shiftr bits 52) 2047 =? 2047) | _ => true end.

Definition scalar (path : string) (value : Value) : result string bool :=
  match value with
  | VBool _ => Ok true
  | VNumber n =>
      if finite_number n then Ok true
      else Err ("model parameter " ++ path ++ " is not a finite number")%string
  | VString text =>
      if (MAX_STRING_BYTES <? str_len text) || str_contains x00 text
      then Err ("model parameter " ++ path ++ " must be a string of at most 256 bytes without NUL")%string
      else Ok true
  | _ => Ok false
  end.

Definition here (path key : string) : string :=
  if str_is_empty path then key else (path ++ "." ++ key)%string.

(** [for item in items]. *)
Fixpoint array_items (path : string) (items : list Value) : result string unit :=
  match items with
  | [] => Ok tt
  | item :: items =>
      ok ← scalar path item;
      if negb ok then Err ("model parameter " ++ path ++ " array items must be bool, number or string")%string
      else array_items path items
  end.

(** [for (key, value) in map] of [object], over its recursive call. *)
Definition entries_loop (nested : string -> Value -> result string unit) (path : string) : Map -> result string unit :=
  fix loop map :=
    match map with
    | [] => Ok tt
    | (key, value) :: rest =>
        let here := here path key in
        if negb (valid_key key) then
          Err ("model parameter key under " ++ (if str_is_empty path then "the top level" else path)
               ++ " must match ^[a-z][a-z0-9_]{0,63}$")%string
        else
          ok ← scalar here value;
          if (ok : bool) then loop rest else
          _ ← match value with
              | VObject _ => nested here value
              | VArray items =>
                  if MAX_ARRAY_ITEMS <? Z.of_nat (length items)
                  then Err ("model parameter " ++ here ++ " has more than 8 array items")%string
                  else array_items here items
              | _ => Err ("model parameter " ++ here ++ " must not be null")%string
              end;
          loop rest
    end.

(** [object], on the object that holds the map. *)
Fixpoint object_value (depth : Z) (path : string) (v : Value) {struct v} : result string unit :=
  match v with
  | VObject map =>
      if MAX_DEPTH <? depth then Err ("model parameter " ++ path ++ " nests deeper than 3 levels")%string
      else entries_loop (fun here v => object_value (depth + 1) here v) path map
  | _ => Ok tt
  end.
Definition object (path : string) (map : Map) (depth : Z) : result string unit :=
  object_value depth path (VObject map).

Definition is_reserved (k : string) : bool := bool_decide (k ∈ RESERVED).

Section params.
(** [serde_json::to_vec] of a map, and [usize]'s [Display]. *)
Context (to_vec : Map -> option bytes) (display : Z -> string).

Definition validate (parameters : Map) : result string unit :=
  if MAX_KEYS <? Z.of_nat (length parameters) then Err "model parameters allow at most 16 top-level keys" else
  match List.find is_reserved parameters.*1 with
  | Some reserved => Err ("model parameter " ++ reserved ++ " is reserved by the Celln model contract")%string
  | None =>
      _ ← object "" parameters 1;
      out ← ok_or (to_vec parameters) "model parameters cannot be serialized";
      if MAX_SERIALIZED_BYTES <? blen out
      then Err ("model parameters serialize to " ++ display (blen out) ++ " bytes; at most 2048 allowed")%string
      else Ok tt
  end.

(** [body.extend(parameters)]. *)
Definition extend (body parameters : Map) : Map := foldl (fun o kv => oinsert kv.1 kv.2 o) body parameters.

Definition merge (body : Value) (parameters : Map) : result string unit * Value :=
  match parameters with
  | [] => (Ok tt, body)
  | _ =>
      match validate parameters with
      | Err e => (Err e, body)
      | Ok _ =>
          match body with
          | VObject o =>
              match List.find (fun k => is_Some_bool (oget k o)) parameters.*1 with
              | Some key => (Err ("model parameter " ++ key ++ " collides with a field of the provider request")%string, body)
              | None => (Ok tt, VObject (extend o parameters))
              end
          | _ => (Err "provider request is not an object", body)
          end
      end
  end.

(** ** Specification *)

Definition scalar_ok (v : Value) : bool :=
  match v with
  | VBool _ => true
  | VNumber n => finite_number n
  | VString t => (str_len t <=? MAX_STRING_BYTES) && negb (str_contains x00 t)
  | _ => false
  end.

(** An object of valid keys over scalars, short arrays of scalars, and objects of
    the same kind, at most [MAX_DEPTH] of them nested. *)
Fixpoint allowed (depth : Z) (v : Value) : bool :=
  match v with
  | VObject o =>
      (depth <=? MAX_DEPTH) && forallb (fun kv => valid_key kv.1 && allowed (depth + 1) kv.2) o
  | VArray l => (Z.of_nat (length l) <=? MAX_ARRAY_ITEMS) && forallb scalar_ok l
  | v => scalar_ok v
  end.

Lemma scalar_spec path v :
  (scalar_ok v = true -> scalar path v = Ok true) /\
  (scalar_ok v = false -> is_err (scalar path v) = true \/
     scalar path v = Ok false /\ match v with Null | VArray _ | VObject _ => True | _ => False end).
Proof.
  destruct v as [|b|n|t|l|o]; cbn; try naive_solver.
  - destruct (finite_number n); naive_solver.
  - rewrite Z.leb_antisym, <- negb_orb. destruct (_ || _); naive_solver.
Qed.

Lemma array_items_spec path l : array_items path l = Ok tt <-> forallb scalar_ok l = true.
Proof.
  induction l as [|v l IH]; [done|]. cbn. destruct (scalar_spec path v) as [Hok Hno].
  destruct (scalar_ok v); cbn.
  - by rewrite Hok.
  - destruct (Hno eq_refl) as [He|[-> _]]; [|done]. by destruct (scalar path v).
Qed.

Lemma object_value_spec v : forall depth path,
  match v with VObject _ => object_value depth path v = Ok tt <-> allowed depth v = true | _ => True end.
Proof.
  induction v as [|b|n|t|l IH|o IH] using value_ind'; try done. intros depth path. cbn [object_value allowed].
  rewrite Z.leb_antisym. destruct (MAX_DEPTH <? depth); cbn [negb andb]; [done|].
  induction IH as [|[key v] o Hv Ho IHo]; [done|]. cbn [entries_loop forallb fst snd].
  destruct (valid_key key); cbn [negb andb]; [|done].
  destruct (scalar_spec (here path key) v) as [Hok Hno].
  destruct (scalar_ok v) eqn:Hs.
  - rewrite Hok by done. cbn. rewrite IHo. destruct v; cbn in *; try done; by rewrite Hs.
  - destruct (Hno eq_refl) as [He|[-> Hk]].
    { destruct (scalar (here path key) v) eqn:Hse; [by cbv in He|]. cbn.
      destruct v; cbn in *; try done; by rewrite Hs. }
    cbn [mbind result_bind negb]. destruct v as [| | | |l|o']; try done.
    + cbn. rewrite Z.leb_antisym. destruct (_ <? _); cbn; [done|].
      pose proof (array_items_spec (here path key) l) as Ha.
      destruct (array_items (here path key) l) as [[]|e]; cbn.
      * rewrite (proj1 Ha eq_refl). done.
      * destruct (forallb scalar_ok l); [|done]. exfalso.
        by enough (@Err string unit e = Ok tt) by done; apply Ha.
    + specialize (Hv (depth + 1) (here path key)). cbn [snd] in Hv.
      destruct (object_value (depth + 1) (here path key) (VObject o')) as [[]|e]; cbn [mbind result_bind].
      * rewrite (proj1 Hv eq_refl). done.
      * destruct (allowed (depth + 1) (VObject o')); [|done]. exfalso.
        by enough (@Err string unit e = Ok tt) by done; apply Hv.
Qed.

Lemma find_none {A} (f : A -> bool) l : List.find f l = None <-> forall x, x ∈ l -> f x = false.
Proof.
  induction l as [|a l IH]; cbn; [split; [by intros _ ? ?%elem_of_nil|done]|].
  setoid_rewrite elem_of_cons. destruct (f a) eqn:Ha; [split; [done|intros H; by rewrite (H a) in Ha; [|left]]|].
  rewrite IH. naive_solver.
Qed.

Lemma extend_get k o ps : NoDup ps.*1 ->
  oget k (extend o ps) = match oget k ps with Some v => Some v | None => oget k o end.
Proof.
  unfold extend. revert o. induction ps as [|[k1 v1] ps IH]; intros o; [done|]. cbn. rewrite NoDup_cons.
  intros [Hk Hn]. rewrite IH by done. rewrite oget_oinsert.
  destruct (String.eqb_spec k k1) as [->|]; [|done].
  destruct (oget k1 ps) eqn:E; [|done]. destruct Hk. apply oget_is_Some. by eexists.
Qed.

(** ** Properties *)

(** The operator's parameters are accepted exactly when there are at most 16 of
    them, none is a field of the Celln model contract, they are built of valid keys,
    bounded scalars, short scalar arrays and at most three levels of objects, and they
    serialize to at most 2 KiB. *)
Theorem params_validate (parameters : Map) :
  validate parameters = Ok tt <->
  Z.of_nat (length parameters) <= MAX_KEYS /\ (forall k, k ∈ parameters.*1 -> k ∉ RESERVED) /\
  allowed 1 (VObject parameters) = true /\
  exists out, to_vec parameters = Some out /\ blen out <= MAX_SERIALIZED_BYTES.
Proof.
  unfold validate. destruct (Z.ltb_spec MAX_KEYS (Z.of_nat (length parameters))); [split; [done|lia]|].
  destruct (List.find is_reserved parameters.*1) as [k|] eqn:Hf.
  - apply List.find_some in Hf as [Hk%list_elem_of_In Hr]. unfold is_reserved in Hr.
    apply bool_decide_eq_true in Hr. split; [done|]. intros (_ & Hn & _). by destruct (Hn k Hk).
  - assert (Hn : forall k, k ∈ parameters.*1 -> k ∉ RESERVED).
    { rewrite find_none in Hf. intros k Hk. exact (bool_decide_eq_false_1 _ (Hf k Hk)). }
    unfold object. pose proof (object_value_spec (VObject parameters) 1 "") as Ho. cbn in Ho.
    rewrite result_bind_Ok. setoid_rewrite result_bind_Ok. setoid_rewrite ok_or_Ok. split.
    + intros ([] & Ha & out & Hout & Hle). destruct (Z.ltb_spec MAX_SERIALIZED_BYTES (blen out)); [done|].
      apply Ho in Ha. eauto 6.
    + intros (_ & _ & Ha & out & Hout & Hle). exists tt. split; [by apply Ho|]. exists out. split; [done|].
      by rewrite (proj2 (Z.ltb_ge _ _) Hle).
Qed.

(** Merging changes nothing the guest was granted: a merge that succeeds keeps
    every field the broker's request already had, the contract's own fields among
    them whether present or absent, and adds exactly the operator's; a merge that
    fails leaves the request as it was. *)
Theorem params_merge (o : Map) (parameters : Map) (r : result string unit) (body : Value) :
  NoDup parameters.*1 -> merge (VObject o) parameters = (r, body) ->
  match r with
  | Err _ => body = VObject o
  | Ok _ => exists o', body = VObject o' /\
      (forall k, k ∈ o.*1 -> oget k o' = oget k o) /\ (forall k, k ∈ RESERVED -> oget k o' = oget k o) /\
      (forall k, oget k o' = match oget k parameters with Some v => Some v | None => oget k o end)
  end.
Proof.
  intros Hn. unfold merge. destruct parameters as [|p ps] eqn:Hps.
  { intros [= <- <-]. by exists o. }
  rewrite <- Hps in *. clear p ps Hps. destruct (validate parameters) as [[]|e] eqn:Hv; [|by intros [= <- <-]].
  destruct (List.find _ _) as [k|] eqn:Hf; intros [= <- <-]; [done|]. exists (extend o parameters). split; [done|].
  assert (Hget := fun k => extend_get k o parameters Hn).
  assert (Hkeep : forall k, k ∉ parameters.*1 -> oget k (extend o parameters) = oget k o).
  { intros k Hk. rewrite Hget. destruct (oget k parameters) eqn:E; [|done]. destruct Hk. apply oget_is_Some. by eexists. }
  split; [|split; [|done]].
  - intros k Hk%oget_is_Some. apply Hkeep. intros Hp. rewrite find_none in Hf. specialize (Hf k Hp).
    destruct (oget k o); [done|]. by destruct Hk.
  - intros k Hk. apply Hkeep. intros Hp. unfold validate in Hv.
    destruct (_ <? _); [done|]. destruct (List.find is_reserved parameters.*1) eqn:Hr; [done|].
    rewrite find_none in Hr. specialize (Hr k Hp). by apply bool_decide_eq_false_1 in Hr.
Qed.
End params.

(** ** Examples *)

Definition ex_params : Map := [("chat_template_kwargs", VObject [("enable_thinking", VBool false)]); ("top_k", vnum 40)].
Definition ex_body : Map := [("max_tokens", vnum 16); ("model", VString "m")].

Lemma params_merge_witness :
  let '(r, body) := merge (fun _ => Some []) (fun _ => "") (VObject ex_body) ex_params in
  is_ok r = true /\
  match r with
  | Err _ => body = VObject ex_body
  | Ok _ => exists o', body = VObject o' /\
      (forall k, k ∈ ex_body.*1 -> oget k o' = oget k ex_body) /\
      (forall k, k ∈ RESERVED -> oget k o' = oget k ex_body) /\
      (forall k, oget k o' = match oget k ex_params with Some v => Some v | None => oget k ex_body end)
  end.
Proof.
  destruct (merge _ _ _ _) as [r body] eqn:E. split; [vm_compute in E; by injection E as <- <-|].
  apply (params_merge (fun _ => Some []) (fun _ => "")); [|exact E].
  apply (bool_decide_unpack _). vm_compute. reflexivity.
Defined.
