(* ===== verification/Spec.v ===== *)
(** * Execution requests and cell specifications ([crates/celln-spec])

    The checks a request passes before any node is chosen ([ExecutionRequest::problems]
    of [lib.rs] with [harness.rs]), the same for receipts and for cell specifications,
    and the fingerprint of a configuration ([configuration.rs]). *)

From S2P Require Import Prelude Text Json.

(** ** Data *)

Inductive Tier : Type := Forged | Verified | Unsealed.
#[export] Instance Tier_eq_dec : EqDecision Tier.
Proof. solve_decision. Defined.

Record Cell : Type := mkCell { memory : string; require_tier : Tier; allow_hosts : list string }.
Record Tool : Type := mkTool {
  t_alias : string;
  t_path : option string;
  t_image : option string;
  t_exec : option string;
  t_builtin : option string;
  t_interpreter : bool;
}.
Inductive Input : Type := INone | ITool | IData.
Record Run : Type := mkRun { r_exec : string; r_args : list string; r_input : Input; r_env : gmap string string }.
Inductive Runs : Type := One (r : Run) | Many (l : list Run).
Record AgentTask : Type := mkAgent { a_prompt : option string; a_exec : string; a_env : gmap string string }.
Record Spec : Type := mkSpec {
  name : string;
  cell : Cell;
  tools : list Tool;
  run : option Runs;
  agent : option AgentTask;
}.

Definition default_memory : string := "256MiB".
Definition default_tier : Tier := Verified.
Definition default_cell : Cell := mkCell default_memory default_tier [].

Definition as_slice (r : Runs) : list Run := match r with One r => [r] | Many l => l end.
Definition run_list (s : Spec) : list Run := match run s with Some r => as_slice r | None => [] end.

(** ** Execution requests *)

Definition ImmutableRef : Type := string.          (* its [hash] *)
Record WorkloadIdentity : Type := mkIdentity { w_id : string; w_caller : string }.
Record JsonHarnessOptions : Type := mkOptions { o_system : string; o_max_turns : Z; o_max_calls : Z }.
Record JsonToolIo : Type := mkIo {
  io_abi : string;
  io_input_schema : string;
  io_output_schema : string;
  io_input_bytes : Z;
  io_output_bytes : Z;
  io_timeout_ms : Z;
}.
Record BorrowedTool : Type := mkBorrowed {
  b_name : string;
  b_path : string;
  b_hash : string;
  b_description : string;
  b_json_stdio : option JsonToolIo;
}.
Record HarnessBinding : Type := mkHarness {
  h_contract_version : string;
  h_model_grant : ImmutableRef;
  h_model : string;
  h_task : string;
  h_borrowed_tools : list BorrowedTool;
  h_json : option JsonHarnessOptions;
}.
Record ForgeRequest : Type := mkForge { f_task : string; f_backend : option string; f_model : option string }.
Record ExecutionInput : Type := mkInput { i_name : string; i_hash : string; i_media_type : string; i_bytes : Z }.
Record ToolRef : Type := mkToolRef { tr_alias : string; tr_hash : string; tr_closure : option ImmutableRef }.
Record Invocation : Type := mkInvocation { v_alias : string; v_args : list string }.
Inductive WorkspaceAccess : Type := WNone | ReadOnly | ReadWrite.
Record CapabilityRequest : Type := mkCapabilities {
  c_workspace : WorkspaceAccess;
  c_egress : list string;
  c_allow_insecure : bool;
  c_timeout_ms : Z;
  c_memory_bytes : Z;
  c_output_bytes : Z;
}.
Inductive RequestedLane : Type := LaneTool | LaneAgent.
Record ExecutionPolicy : Type := mkExecution { e_lane : RequestedLane; e_require_hardware_isolation : bool }.
Record ExecutionRequest : Type := mkRequest {
  api_version : string;
  id : string;
  workload : WorkloadIdentity;
  harness : option HarnessBinding;
  mote : option ImmutableRef;
  inputs : list ExecutionInput;
  tool_refs : list ToolRef;
  invocation : option Invocation;
  forge : option ForgeRequest;
  capabilities : CapabilityRequest;
  execution : ExecutionPolicy;
}.

Inductive ExecutionPhase : Type := Succeeded | Failed | Cancelled.
Record ResolvedExecution : Type := mkResolved { rs_mote : option string; rs_tools : list string; rs_inputs : list string }.
Record ExecutionOutput : Type := mkOutput { out_hash : string; out_media_type : string; out_bytes : Z }.
Record ExecutionReceipt : Type := mkReceipt {
  rc_api_version : string;
  rc_request_id : string;
  rc_phase : ExecutionPhase;
  rc_node : string;
  rc_cell_id : string;
  rc_resolved : ResolvedExecution;
  rc_output : option ExecutionOutput;
  rc_started_at : string;
  rc_completed_at : string;
}.

#[export] Instance WorkspaceAccess_eq_dec : EqDecision WorkspaceAccess.
Proof. solve_decision. Defined.
#[export] Instance RequestedLane_eq_dec : EqDecision RequestedLane.
Proof. solve_decision. Defined.

Inductive ExecutionProblemCode : Type :=
| UnsupportedVersion | MissingIdentity | MutableReference | InvalidToolAlias | DuplicateToolAlias
| InvalidInputName | DuplicateInputName | UndeclaredInvocation | InvalidInvocationArgument
| InvalidEgress | InvalidLimit | InvalidForge | InvalidHarness.
Record ExecutionProblem : Type := mkProblem { code : ExecutionProblemCode; field : string; message : string }.

(** ** Names and references *)

Definition is_alphanumeric (b : byte) : bool := is_alnum b.
Definition one_of (l : list byte) (b : byte) : bool := bool_decide (b ∈ l).

Definition is_immutable_hash (value : string) : bool :=
  match strip_prefix "blake3:" value with
  | None => false
  | Some hex => (str_len hex =? 64) && all_bytes is_ascii_hexdigit hex
  end.

Definition is_input_name (value : string) : bool :=
  negb (str_is_empty value) && (str_len value <=? 64)
  && negb (String.eqb value "." || String.eqb value "..")
  && all_bytes (fun b => is_lower b || is_digit b || one_of [x2e; x5f; x2d] b) value.

Definition is_named_https_destination (value : string) : bool :=
  match strip_prefix "https://" value with
  | None => false
  | Some host => negb (str_is_empty host) && all_bytes (fun b => is_alphanumeric b || one_of [x2e; x2d; x3a] b) host
  end.

Definition is_allowed_destination (value : string) (insecure : bool) : bool :=
  if negb insecure then is_named_https_destination value else
  match (match strip_prefix "https://" value with Some a => Some a | None => strip_prefix "http://" value end) with
  | None => false
  | Some authority =>
      if str_is_empty authority || has_char "/" authority || has_char "?" authority || has_char "#" authority then false else
      let '(host, port) := match rsplit_once ":" authority with
                           | Some (host, port) => (host, Some port)
                           | None => (authority, None)
                           end in
      if str_is_empty host
         || negb (all_bytes (fun b => is_alphanumeric b || one_of [x2e; x2d; x5b; x5d] b) host)
      then false else
      match port with
      | None => true
      | Some port => negb (str_is_empty port) && all_bytes is_digit port
      end
  end.

(** ** The harness binding *)

Definition between (lo hi n : Z) : bool := (lo <=? n) && (n <=? hi).
Definition has_nul (s : string) : bool := str_contains x00 s.

Definition valid_io (j : JsonToolIo) : bool :=
  String.eqb (io_abi j) "celln.json-stdio/v1" && is_immutable_hash (io_input_schema j)
  && is_immutable_hash (io_output_schema j) && between 1 65536 (io_input_bytes j)
  && between 1 65536 (io_output_bytes j) && between 1 30000 (io_timeout_ms j).

Definition valid_contract (version : string) (h : HarnessBinding) : bool :=
  if String.eqb version "celln.dev/v1alpha2" && String.eqb (h_contract_version h) "celln.reference-functions/v1" then
    negb (is_Some_bool (h_json h)) && bool_decide (length (h_borrowed_tools h) = 2%nat)
    && forallb (fun t => negb (is_Some_bool (b_json_stdio t))) (h_borrowed_tools h)
  else if String.eqb version "celln.dev/v1alpha3" && String.eqb (h_contract_version h) "celln.json-tools/v1" then
    match h_json h with
    | Some j => (str_len (o_system j) <=? 2048) && negb (has_nul (o_system j)) && between 1 6 (o_max_turns j)
                && (o_max_calls j <=? 16)
    | None => false
    end
    && (Z.of_nat (length (h_borrowed_tools h)) <=? 24)
    && forallb (fun t => negb (String.eqb (b_path t) "/pilot-fetch")
                         && match b_json_stdio t with Some j => valid_io j | None => false end) (h_borrowed_tools h)
  else false.

Definition path_part (p : string) : bool :=
  negb (str_is_empty p) && negb (String.eqb p ".") && negb (String.eqb p "..")
  && all_bytes (fun c => is_alphanumeric c || one_of [x2d; x5f; x2e; x2b] c) p.
Definition harness_path (value : string) : bool :=
  match value with
  | String a r => Ascii.eqb a "/" && (str_len value <=? 256) && forallb path_part (split_char "/" r)
  | EmptyString => false
  end.

(** The last [all] of [valid]: [names] and [paths] are the two sets it fills. *)
Fixpoint borrowed_ok (names paths : gset string) (l : list BorrowedTool) : bool :=
  match l with
  | [] => true
  | t :: l =>
      negb (str_is_empty (b_name t)) && (str_len (b_name t) <=? 64)
      && all_bytes (fun c => is_alphanumeric c || one_of [x5f; x2d] c) (b_name t)
      && negb (bool_decide (b_name t ∈ names)) && negb (bool_decide (b_path t ∈ paths))
      && harness_path (b_path t) && is_immutable_hash (b_hash t)
      && negb (str_is_empty (b_description t)) && (str_len (b_description t) <=? 512)
      && borrowed_ok ({[b_name t]} ∪ names) ({[b_path t]} ∪ paths) l
  end.

Definition harness_valid (r : ExecutionRequest) : bool :=
  match harness r with
  | None => String.eqb (api_version r) "celln.dev/v1alpha1"
  | Some h =>
      valid_contract (api_version r) h && is_immutable_hash (h_model_grant h)
      && negb (str_is_empty (h_model h)) && (str_len (h_model h) <=? 128)
      && negb (blank (h_task h)) && (str_len (h_task h) <=? 2048) && negb (has_nul (h_task h))
      && is_Some_bool (mote r) && negb (is_Some_bool (forge r)) && bool_decide (length (inputs r) = 0%nat)
      && match tool_refs r with [t] => is_Some_bool (tr_closure t) | _ => false end
      && match invocation r with Some i => bool_decide (length (v_args i) = 0%nat) | None => false end
      && bool_decide (e_lane (execution r) = LaneAgent) && e_require_hardware_isolation (execution r)
      && bool_decide (c_workspace (capabilities r) = WNone)
      && bool_decide (length (c_egress (capabilities r)) = 1%nat)
      && borrowed_ok ∅ ∅ (h_borrowed_tools h)
  end.

(** ** The problems of a request *)

Definition when {A} (c : bool) (a : A) : list A := if c then [a] else [].
Definition quote : string := String "034" "".
Definition known_version (v : string) : bool :=
  existsb (String.eqb v) ["celln.dev/v1alpha1"; "celln.dev/v1alpha2"; "celln.dev/v1alpha3"].

Definition mutable_reference (f : string) : ExecutionProblem :=
  mkProblem MutableReference f "must be a blake3 content hash, not a name, tag, or path".
Definition unsupported : ExecutionProblem :=
  mkProblem UnsupportedVersion "apiVersion" "must be celln.dev/v1alpha1, celln.dev/v1alpha2 or celln.dev/v1alpha3".
Definition missing (f : string) : ExecutionProblem := mkProblem MissingIdentity f "must not be empty".
Definition empty_text (f : string) : ExecutionProblem := mkProblem InvalidLimit f "must not be empty".
Definition zero_limit (f : string) : ExecutionProblem := mkProblem InvalidLimit f "must be greater than zero".
Definition blanks (l : list (string * string)) : list ExecutionProblem :=
  concat ((fun fv => when (blank fv.2) (missing fv.1)) <$> l).
Definition zeros (l : list (string * Z)) : list ExecutionProblem :=
  concat ((fun fv => when (fv.2 =? 0) (zero_limit fv.1)) <$> l).

(** [list.iter().filter(|o| o == x).count() > 1 && list.iter().position(..) == Some(i)]. *)
Definition repeated_first (l : list string) (i : nat) (x : string) : bool :=
  (1 <? Z.of_nat (length (List.filter (String.eqb x) l))) && bool_decide (fst <$> list_find (fun y => y = x) l = Some i).

Definition source_problems (r : ExecutionRequest) : list ExecutionProblem :=
  match mote r, forge r with
  | Some h, None => when (negb (is_immutable_hash h)) (mutable_reference "mote.hash")
  | None, Some f =>
      when (blank (f_task f)) (mkProblem InvalidForge "forge.task" "must not be empty")
      ++ when (negb (bool_decide (e_lane (execution r) = LaneAgent)))
           (mkProblem InvalidForge "execution.lane"
              ("must be " ++ quote ++ "agent" ++ quote ++ " when forge is set — forged code is never tool-lane authority"))
      ++ when (is_Some_bool (invocation r))
           (mkProblem InvalidForge "invocation"
              "must not be set together with forge — there is no pre-declared tool to invoke")
      ++ when (negb (bool_decide (length (tool_refs r) = 0%nat)))
           (mkProblem InvalidForge "tools" "must be empty when forge is set — nothing is pre-declared")
  | Some _, Some _ =>
      [mkProblem InvalidForge "mote" "must not be set together with forge — pick exactly one execution source"]
  | None, None =>
      [mkProblem InvalidForge "mote" "must be set, or forge must be set — a request needs exactly one execution source"]
  end.

Definition input_problems (all : list ExecutionInput) (i : nat) (x : ExecutionInput) : list ExecutionProblem :=
  let prefix := indexed "inputs" i in
  when (negb (is_input_name (i_name x)))
    (mkProblem InvalidInputName (prefix ++ ".name")
       "must be a 1–64 byte lowercase name containing only letters, numbers, dots, underscores, or hyphens, other than . or ..")
  ++ when (negb (is_immutable_hash (i_hash x))) (mutable_reference (prefix ++ ".hash"))
  ++ when (blank (i_media_type x)) (empty_text (prefix ++ ".mediaType"))
  ++ when (i_bytes x =? 0) (zero_limit (prefix ++ ".bytes"))
  ++ when (repeated_first (i_name <$> all) i (i_name x))
       (mkProblem DuplicateInputName (prefix ++ ".name") "is listed more than once").

Definition tool_problems (all : list ToolRef) (i : nat) (x : ToolRef) : list ExecutionProblem :=
  let prefix := indexed "tools" i in
  when (negb (starts_with "/" (tr_alias x)))
    (mkProblem InvalidToolAlias (prefix ++ ".alias") "must be an absolute in-cell alias")
  ++ when (negb (is_immutable_hash (tr_hash x))) (mutable_reference (prefix ++ ".hash"))
  ++ when (match tr_closure x with Some c => negb (is_immutable_hash c) | None => false end)
       (mutable_reference (prefix ++ ".closure.hash"))
  ++ when (repeated_first (tr_alias <$> all) i (tr_alias x))
       (mkProblem DuplicateToolAlias (prefix ++ ".alias") "is listed more than once").

Definition invocation_problems (r : ExecutionRequest) : list ExecutionProblem :=
  match invocation r with
  | None => []
  | Some v =>
      when (negb (existsb (fun t => String.eqb (tr_alias t) (v_alias v)) (tool_refs r)))
        (mkProblem UndeclaredInvocation "invocation.alias" "must name exactly one declared tool alias")
      ++ concat (imap (fun i arg => when (has_nul arg)
           (mkProblem InvalidInvocationArgument (indexed "invocation.args" i) "must not contain NUL")) (v_args v))
  end.

Definition egress_problems (c : CapabilityRequest) : list ExecutionProblem :=
  concat (imap (fun i d => when (negb (is_allowed_destination d (c_allow_insecure c)))
    (mkProblem InvalidEgress (indexed "capabilities.egress" i)
       (if c_allow_insecure c then "must name one HTTP(S) host without a path, query, or fragment"
        else "must name one HTTPS host without a path, query, or fragment"))) (c_egress c)).

Definition request_problems (r : ExecutionRequest) : list ExecutionProblem :=
  when (negb (known_version (api_version r))) unsupported
  ++ when (negb (harness_valid r))
       (mkProblem InvalidHarness "harness"
          "v1alpha2 requires the reference Harness; v1alpha3 requires the bounded JSON Harness; v1alpha1 forbids Harness bindings")
  ++ blanks [("id", id r); ("workload.id", w_id (workload r)); ("workload.caller", w_caller (workload r))]
  ++ source_problems r
  ++ concat (imap (input_problems (inputs r)) (inputs r))
  ++ concat (imap (tool_problems (tool_refs r)) (tool_refs r))
  ++ invocation_problems r
  ++ egress_problems (capabilities r)
  ++ zeros [("capabilities.timeoutMs", c_timeout_ms (capabilities r));
            ("capabilities.memoryBytes", c_memory_bytes (capabilities r));
            ("capabilities.outputBytes", c_output_bytes (capabilities r))].

(** ** The problems of a receipt *)

Definition resolved_problems (name : string) (l : list string) : list ExecutionProblem :=
  concat (imap (fun i h => when (negb (is_immutable_hash h)) (mutable_reference (indexed name i))) l).

Definition output_problems (o : ExecutionOutput) : list ExecutionProblem :=
  when (negb (is_immutable_hash (out_hash o))) (mutable_reference "output.hash")
  ++ when (blank (out_media_type o)) (empty_text "output.mediaType")
  ++ when (out_bytes o =? 0) (zero_limit "output.bytes").

Definition receipt_problems (r : ExecutionReceipt) : list ExecutionProblem :=
  when (negb (known_version (rc_api_version r))) unsupported
  ++ blanks [("requestId", rc_request_id r); ("node", rc_node r); ("cellId", rc_cell_id r);
             ("startedAt", rc_started_at r); ("completedAt", rc_completed_at r)]
  ++ match rs_mote (rc_resolved r) with
     | Some h => when (negb (is_immutable_hash h)) (mutable_reference "resolved.mote")
     | None => []
     end
  ++ resolved_problems "resolved.tools" (rs_tools (rc_resolved r))
  ++ resolved_problems "resolved.inputs" (rs_inputs (rc_resolved r))
  ++ match rc_output r with Some o => output_problems o | None => [] end.

(** ** Cell specifications *)

Record Problem : Type := mkIssue { p_field : string; p_message : string; p_fix : string }.
Record Warning : Type := mkWarning { w_field : string; w_message : string }.

(** [256MiB], [1GiB], [512M], [1073741824]. *)
Definition checked_mul_u64 (a b : Z) : option Z := if a * b <=? u64_max then Some (a * b) else None.
Definition unit_of (u : string) : option Z :=
  if existsb (String.eqb u) [""; "b"] then Some 1
  else if existsb (String.eqb u) ["k"; "kib"; "kb"] then Some (2 ^ 10)
  else if existsb (String.eqb u) ["m"; "mib"; "mb"] then Some (2 ^ 20)
  else if existsb (String.eqb u) ["g"; "gib"; "gb"] then Some (2 ^ 30)
  else None.
Definition parse_size (s : string) : option Z :=
  let '(num, unit_) := span is_digit (trim (as_bytes s)) in
  n ← parse_u64 num;
  mult ← unit_of (to_ascii_lowercase (from_utf8 (trim unit_)));
  checked_mul_u64 n mult.
Definition memory_bytes (s : Spec) : Z := default (2 ^ 28) (parse_size (memory (cell s))).

Definition interpreter_hint (alias : string) : option (string * string) :=
  let base := from_utf8 (trim_end_while (fun b => is_digit b || bool_decide (b = x2e)) (as_bytes (after_last_char "/" alias))) in
  let named l := existsb (String.eqb base) l in
  if named ["python"; "python3"] then Some ("Python", "-c")
  else if named ["sh"; "dash"] then Some ("POSIX shell", "-c")
  else if named ["bash"] then Some ("Bash", "-c")
  else if named ["zsh"] then Some ("Zsh", "-c")
  else if named ["node"; "nodejs"] then Some ("JavaScript", "-e")
  else if named ["deno"] then Some ("TypeScript", "eval")
  else if named ["bun"] then Some ("JavaScript", "-e")
  else if named ["ruby"] then Some ("Ruby", "-e")
  else if named ["perl"] then Some ("Perl", "-e")
  else if named ["php"] then Some ("PHP", "-r")
  else if named ["lua"] then Some ("Lua", "-e")
  else if named ["tclsh"] then Some ("Tcl", "-c")
  else if named ["awk"] then Some ("Awk", "--source")
  else None.
Definition looks_like_interpreter (alias : string) : bool := is_Some_bool (interpreter_hint alias).

Section spec.
(** [{:?}] of a string, and [Path::exists]. *)
Context (debug : string -> string) (exists_path : string -> bool).

(** An image reference must name immutable bytes. *)
Definition check_digest_pinned (reference : string) : result string unit :=
  let r := trim_start_matches "docker://" reference in
  if negb (has_char "@" r) && negb (has_char "/" r) && negb (has_char ":" r) then Ok tt else
  '(n, digest) ← ok_or (split_once "@" r) (debug reference ++ " is a tag, not a digest")%string;
  if str_is_empty n then Err (debug reference ++ " has no image name")%string else
  hex ← ok_or (strip_prefix "sha256:" digest) (debug reference ++ " must use a sha256: digest")%string;
  if negb (str_len hex =? 64) || negb (all_bytes is_ascii_hexdigit hex)
  then Err (debug reference ++ " digest is not 64 hex characters")%string else Ok tt.

Definition validate_env (f : string) (env : gmap string string) : list Problem :=
  concat ((fun nv =>
    when (str_is_empty nv.1 || has_char "=" nv.1 || has_nul nv.1)
      (mkIssue (f ++ "." ++ nv.1) "is not a valid environment variable name"
         "use a non-empty name containing neither '=' nor a NUL byte")
    ++ when (has_nul nv.2)
         (mkIssue (f ++ "." ++ nv.1) "contains a NUL byte" "environment values cannot contain NUL bytes"))
    <$> btree_iter env).

Definition builtin_problems (s : Spec) (at_ : string) (t : Tool) (b : string) : list Problem :=
  when (negb (String.eqb b "fetch"))
    (mkIssue (at_ ++ ".builtin") (debug b ++ " is not a known capability") ("the only builtin is " ++ quote ++ "fetch" ++ quote))
  ++ when (is_Some_bool (t_path t) || is_Some_bool (t_image t))
       (mkIssue at_ "a builtin has no path or image" "remove path/image; a builtin is a host capability")
  ++ when (bool_decide (length (allow_hosts (cell s)) = 0%nat))
       (mkIssue "cell.allow_hosts" "the fetch builtin needs at least one allowed host"
          ("set allow_hosts = [" ++ quote ++ "example.com" ++ quote ++ "]; the cell is hermetic until a host is named")).

Definition place_problems (at_ : string) (t : Tool) : list Problem :=
  match t_path t, t_image t with
  | Some _, Some _ =>
      [mkIssue at_ "sets both path and image"
         "a tool comes from one place: a file on this host, or an image. Remove one."]
  | None, None =>
      [mkIssue at_ "has no path or image"
         ("set path = " ++ quote ++ "/usr/bin/…" ++ quote ++ " for a single binary, or image = " ++ quote
          ++ "name@sha256:…" ++ quote ++ " for a dependency closure")]
  | Some p, None =>
      when (negb (exists_path p))
        (mkIssue (at_ ++ ".path") (p ++ " does not exist")
           "point at a real file on this host; a tool is bytes, and they have to come from somewhere")
  | None, Some image =>
      match check_digest_pinned image with
      | Ok _ => []
      | Err why =>
          [mkIssue (at_ ++ ".image") why
             ("pin it with `celln image add <name:tag>`, then use the catalogue name here; a tag can be moved, "
              ++ "which would change what the cell is lent without the spec changing")]
      end
      ++ when (negb (is_Some_bool (t_exec t)))
           (mkIssue (at_ ++ ".exec") "an image tool must say what to run"
              ("set exec = " ++ quote ++ "/usr/local/bin/python3.12" ++ quote ++ ", a path inside the image"))
  end.

Definition spec_tool_problems (s : Spec) (i : nat) (t : Tool) : list Problem :=
  let at_ := indexed "tool" i in
  when (negb (starts_with "/" (t_alias t)))
    (mkIssue (at_ ++ ".alias") (debug (t_alias t) ++ " is not an absolute path")
       ("aliases look like paths, e.g. " ++ quote ++ "/usr/bin/python" ++ quote))
  ++ match t_builtin t with
     | Some b => builtin_problems s at_ t b
     | None =>
         place_problems at_ t
         ++ when (negb (is_Some_bool (t_image t)) && is_Some_bool (t_exec t))
              (mkIssue (at_ ++ ".exec") "exec only applies to an image tool"
                 ("drop exec, or set image = " ++ quote ++ "name@sha256:…" ++ quote))
     end.

Definition alias_problems (aliases : list string) (i : nat) (alias : string) : list Problem :=
  when (repeated_first aliases i alias)
    (mkIssue (indexed "tool" i ++ ".alias") (debug alias ++ " is listed more than once")
       "one entry per alias; the later one would silently win").

Definition agent_problems (s : Spec) (a : AgentTask) : list Problem :=
  validate_env "agent.env" (a_env a)
  ++ when (negb (existsb (fun t => String.eqb (t_alias t) (a_exec a)) (tools s)))
       (mkIssue "agent.exec" (debug (a_exec a) ++ " is not one of the tools")
          ("point agent.exec at a declared [[tool]] — an interpreter to have the model write a program, "
           ++ "or any other tool to have it write that tool's arguments"))
  ++ when (is_Some_bool (run s))
       (mkIssue "agent" "a cell either declares runs or asks for one" "remove [run]/[[run]], or remove [agent]").

Definition run_problems (aliases : list string) (i : nat) (r : Run) : list Problem :=
  validate_env (indexed "run" i ++ ".env") (r_env r)
  ++ when (negb (bool_decide (r_exec r ∈ aliases)))
       (mkIssue (indexed "run" i ++ ".exec") (debug (r_exec r) ++ " is not one of the tools")
          ("add a [[tool]] with alias = " ++ debug (r_exec r) ++ ", or point run.exec at one of: "
           ++ match aliases with [] => "(none declared)" | _ => String.concat ", " aliases end)).

Definition spec_problems (s : Spec) : list Problem :=
  let aliases := t_alias <$> tools s in
  when (blank (name s)) (mkIssue "name" "is empty" ("give the cell a name, e.g. name = " ++ quote ++ "code-reviewer" ++ quote))
  ++ when (negb (is_Some_bool (parse_size (memory (cell s)))))
       (mkIssue "cell.memory" (debug (memory (cell s)) ++ " is not a size")
          ("use a number with a unit, e.g. " ++ quote ++ "256MiB" ++ quote ++ " or " ++ quote ++ "1GiB" ++ quote))
  ++ concat (imap (spec_tool_problems s) (tools s))
  ++ concat (imap (alias_problems aliases) aliases)
  ++ match agent s with Some a => agent_problems s a | None => [] end
  ++ concat (imap (run_problems aliases) (run_list s)).

Inductive SpecError : Type := Io | Syntax | Invalid (problems : list Problem).
(** [load]: the file's text, and [toml]'s derived decoder. *)
Definition load (read : option string) (from_toml : string -> option Spec) : result SpecError Spec :=
  text ← ok_or read Io;
  s ← ok_or (from_toml text) Syntax;
  match spec_problems s with [] => Ok s | l => Err (Invalid l) end.

Definition warnings (s : Spec) : list Warning :=
  concat ((fun t => when (negb (t_interpreter t) && looks_like_interpreter (t_alias t))
    (mkWarning ("tool " ++ debug (t_alias t))
       ("looks like an interpreter but interpreter = false. Anything it is fed will keep full tool-lane authority, "
        ++ "including code the agent wrote. Set interpreter = true unless you mean that."))) <$> tools s)
  ++ match agent s with
     | Some a =>
         when (existsb (fun t => String.eqb (t_alias t) (a_exec a) && negb (t_interpreter t)) (tools s))
           (mkWarning "agent.exec"
              (debug (a_exec a) ++ " is not an interpreter, so the model writes its arguments rather than a program. "
               ++ "Those arguments are agent-authored but do not demote the call — it runs in the tool lane. "
               ++ "Use [run] to pin the argv yourself if that authority matters here."))
     | None => []
     end
  ++ when (bool_decide (length (tools s) = 0%nat))
       (mkWarning "tool" "no tools declared — the cell will be able to execute nothing")
  ++ when (bool_decide (require_tier (cell s) = Unsealed))
       (mkWarning "cell.require_tier"
          ("unsealed means no attestation is required; the cell is still hardware-isolated, "
           ++ "but nothing carries tool-lane authority")).
End spec.
