(* ===== verification/SpecLaws.v ===== *)
(** * What the checks of [celln-spec] admit

    No problem is reported exactly for the requests, receipts and specifications a
    declarative predicate describes; and the bounds of sizes. *)

From S2P Require Import Prelude Text Json Spec.

(** ** Lists of problems *)

Lemma when_nil {A} c (a : A) : when c a = [] <-> c = false.
Proof. by destruct c. Qed.
Lemma app_nil_iff {A} (l k : list A) : l ++ k = [] <-> l = [] /\ k = [].
Proof. split; [apply app_nil|by intros [-> ->]]. Qed.
Lemma concat_nil_iff {A} (l : list (list A)) : concat l = [] <-> Forall (fun x => x = []) l.
Proof.
  induction l as [|x l IH]; cbn; [split; by constructor|]. by rewrite app_nil_iff, IH, Forall_cons.
Qed.
Lemma concat_fmap_nil {A B} (f : A -> list B) l : concat (f <$> l) = [] <-> forall x, x ∈ l -> f x = [].
Proof. by rewrite concat_nil_iff, Forall_fmap, Forall_forall. Qed.
Lemma concat_imap_nil {A B} (f : nat -> A -> list B) l :
  concat (imap f l) = [] <-> forall i x, l !! i = Some x -> f i x = [].
Proof.
  rewrite concat_nil_iff, Forall_lookup. setoid_rewrite list_lookup_imap. split.
  - intros H i x Hx. apply (H i). by rewrite Hx.
  - intros H i y Hy. destruct (l !! i) as [x|] eqn:Hx; [|done]. injection Hy as <-. by apply H.
Qed.

(** A list without a first repetition has no duplicates. *)
Definition occurrences (x : string) (l : list string) : nat := length (List.filter (String.eqb x) l).

Lemma occurrences_0 x l : occurrences x l = 0%nat <-> x ∉ l.
Proof.
  unfold occurrences. induction l as [|y l IH]; cbn; [split; [by intros _ ?%elem_of_nil|done]|].
  rewrite not_elem_of_cons, <- IH. destruct (String.eqb_spec x y); cbn; naive_solver.
Qed.

Lemma NoDup_occurrences l : NoDup l <-> forall x, x ∈ l -> (occurrences x l <= 1)%nat.
Proof.
  induction l as [|y l IH]; [split; [by intros _ ? ?%elem_of_nil|by constructor]|].
  rewrite NoDup_cons, IH. unfold occurrences in *. cbn. setoid_rewrite elem_of_cons. split.
  - intros [Hy Hl] x Hx. destruct (String.eqb_spec x y) as [->|]; cbn.
    + apply occurrences_0 in Hy. unfold occurrences in Hy. lia.
    + apply Hl. naive_solver.
  - intros H. split.
    + apply occurrences_0. specialize (H y (or_introl eq_refl)). rewrite String.eqb_refl in H. cbn in H.
      unfold occurrences. lia.
    + intros x Hx. specialize (H x (or_intror Hx)). destruct (String.eqb x y); cbn in H; lia.
Qed.

Lemma repeated_first_NoDup l : (forall i x, l !! i = Some x -> repeated_first l i x = false) <-> NoDup l.
Proof.
  rewrite NoDup_occurrences. unfold repeated_first, occurrences. split.
  - intros H x Hx. destruct (list_find_elem_of (fun y => y = x) l x Hx eq_refl) as [[i y] Hf].
    pose proof Hf as (Hy & -> & _)%list_find_Some. specialize (H i x Hy). rewrite Hf in H.
    rewrite bool_decide_true, andb_true_r in H by done. apply Z.ltb_ge in H. lia.
  - intros H i x Hx. apply andb_false_iff. left. apply Z.ltb_ge.
    specialize (H x (list_elem_of_lookup_2 _ _ _ Hx)). lia.
Qed.

#[export] Hint Rewrite @when_nil @app_nil_iff : celln_bool.

(** ** Requests *)

Definition immutable (h : string) : Prop := is_immutable_hash h = true.
Definition not_blank (s : string) : Prop := blank s = false.

Record valid_input (x : ExecutionInput) : Prop := {
  vi_name : is_input_name (i_name x) = true;
  vi_hash : immutable (i_hash x);
  vi_media : not_blank (i_media_type x);
  vi_bytes : i_bytes x <> 0;
}.
Record valid_tool (x : ToolRef) : Prop := {
  vt_alias : starts_with "/" (tr_alias x) = true;
  vt_hash : immutable (tr_hash x);
  vt_closure : forall c, tr_closure x = Some c -> immutable c;
}.

(** Exactly one source: a declared mote, or a program to be written for the agent
    lane with nothing declared beside it. *)
Definition valid_source (r : ExecutionRequest) : Prop :=
  (exists h, mote r = Some h /\ forge r = None /\ immutable h) \/
  (exists f, mote r = None /\ forge r = Some f /\ not_blank (f_task f) /\ e_lane (execution r) = LaneAgent /\
     invocation r = None /\ tool_refs r = []).

Record valid_request (r : ExecutionRequest) : Prop := {
  vr_version : api_version r ∈ ["celln.dev/v1alpha1"; "celln.dev/v1alpha2"; "celln.dev/v1alpha3"];
  vr_harness : harness_valid r = true;
  vr_id : not_blank (id r) /\ not_blank (w_id (workload r)) /\ not_blank (w_caller (workload r));
  vr_source : valid_source r;
  vr_inputs : Forall valid_input (inputs r) /\ NoDup (i_name <$> inputs r);
  vr_tools : Forall valid_tool (tool_refs r) /\ NoDup (tr_alias <$> tool_refs r);
  vr_invocation : forall v, invocation r = Some v ->
    v_alias v ∈ tr_alias <$> tool_refs r /\ Forall (fun a => has_nul a = false) (v_args v);
  vr_egress : Forall (fun d => is_allowed_destination d (c_allow_insecure (capabilities r)) = true)
    (c_egress (capabilities r));
  vr_limits : c_timeout_ms (capabilities r) <> 0 /\ c_memory_bytes (capabilities r) <> 0 /\
    c_output_bytes (capabilities r) <> 0;
}.

Lemma known_version_spec v :
  known_version v = true <-> v ∈ ["celln.dev/v1alpha1"; "celln.dev/v1alpha2"; "celln.dev/v1alpha3"].
Proof. unfold known_version. cbn. rewrite !elem_of_cons. reflect. rewrite elem_of_nil. naive_solver. Qed.

Lemma blanks_nil l : blanks l = [] <-> Forall (fun fv => not_blank fv.2) l.
Proof. unfold blanks. rewrite concat_fmap_nil, Forall_forall. by setoid_rewrite when_nil. Qed.
Lemma zeros_nil l : zeros l = [] <-> Forall (fun fv => fv.2 <> 0) l.
Proof. unfold zeros. rewrite concat_fmap_nil, Forall_forall. setoid_rewrite when_nil. by setoid_rewrite Z.eqb_neq. Qed.

Lemma length_0 {A} (l : list A) : length l = 0%nat <-> l = [].
Proof. destruct l; naive_solver. Qed.

Lemma source_nil r : source_problems r = [] <-> valid_source r.
Proof.
  unfold source_problems, valid_source, immutable, not_blank.
  destruct (mote r) as [h|], (forge r) as [f|]; reflect; rewrite ?bool_decide_eq_true, ?length_0.
  - split; [done|]. intros [(? & _ & ? & _)|(? & ? & _)]; done.
  - naive_solver.
  - destruct (invocation r); naive_solver.
  - split; [done|]. intros [(? & ? & _)|(? & _ & ? & _)]; done.
Qed.

(** The per-item checks of a list whose names must differ. *)
Lemma items_nil {A B} (name : A -> string) (f : nat -> A -> list B) (ok : A -> Prop) l :
  (forall i x, f i x = [] <-> ok x /\ repeated_first (name <$> l) i (name x) = false) ->
  concat (imap f l) = [] <-> Forall ok l /\ NoDup (name <$> l).
Proof.
  intros Hf. rewrite concat_imap_nil, <- repeated_first_NoDup, Forall_lookup. setoid_rewrite Hf. split.
  - intros H. split; [intros i x Hx; by apply (H i)|]. intros i n. rewrite list_lookup_fmap.
    destruct (l !! i) as [x|] eqn:Hx; [|done]. cbn. intros [= <-]. by apply (H i).
  - intros [Hok Hd] i x Hx. split; [by eapply Hok|]. apply Hd. by rewrite list_lookup_fmap, Hx.
Qed.

Lemma inputs_nil l : concat (imap (input_problems l) l) = [] <-> Forall valid_input l /\ NoDup (i_name <$> l).
Proof.
  apply items_nil. intros i x. unfold input_problems. reflect. split; [|intros [[]]; naive_solver].
  intros (? & ? & ? & ? & ?). done.
Qed.

Lemma tools_nil l : concat (imap (tool_problems l) l) = [] <-> Forall valid_tool l /\ NoDup (tr_alias <$> l).
Proof.
  apply items_nil. intros i x. unfold tool_problems. reflect. split.
  - intros (? & ? & Hc & ?). split; [split|]; try done. intros c Hx. rewrite Hx in Hc. by apply negb_false_iff in Hc.
  - intros [[? ? Hc] ?]. split; [done|]. split; [done|]. split; [|done]. destruct (tr_closure x); [|done].
    apply negb_false_iff. by apply Hc.
Qed.

Lemma invocation_nil r : invocation_problems r = [] <-> forall v, invocation r = Some v ->
  v_alias v ∈ tr_alias <$> tool_refs r /\ Forall (fun a => has_nul a = false) (v_args v).
Proof.
  unfold invocation_problems. destruct (invocation r) as [v|]; [|done].
  assert (Hv : existsb (fun t => String.eqb (tr_alias t) (v_alias v)) (tool_refs r) = true <-> v_alias v ∈ tr_alias <$> tool_refs r).
  { rewrite existsb_exists, list_elem_of_fmap. setoid_rewrite String.eqb_eq. setoid_rewrite list_elem_of_In. naive_solver. }
  reflect. rewrite Hv, concat_imap_nil. setoid_rewrite when_nil.
  assert (Ha : (forall i a, v_args v !! i = Some a -> has_nul a = false) <-> Forall (fun a => has_nul a = false) (v_args v))
    by by rewrite Forall_lookup.
  rewrite Ha. naive_solver.
Qed.

Lemma egress_nil c : egress_problems c = [] <-> Forall (fun d => is_allowed_destination d (c_allow_insecure c) = true) (c_egress c).
Proof.
  unfold egress_problems. rewrite concat_imap_nil, Forall_lookup. setoid_rewrite when_nil. by setoid_rewrite negb_false_iff.
Qed.

(** C29: A request passes exactly when it is well formed: a known version with the
    harness that version needs, named identities, one execution source that is a
    declared immutable mote or a program for the agent lane with nothing declared,
    inputs and tools with valid immutable references and distinct names, an invocation
    of a declared tool, permitted destinations and nonzero limits. *)
Theorem request_admitted (r : ExecutionRequest) : request_problems r = [] <-> valid_request r.
Proof.
  unfold request_problems. reflect.
  rewrite known_version_spec, blanks_nil, zeros_nil, source_nil, inputs_nil, tools_nil, invocation_nil, egress_nil.
  rewrite !Forall_cons. split.
  - intros (? & ? & (? & ? & ? & _) & ? & ? & ? & ? & ? & ? & ? & ? & _). by split.
  - intros []. naive_solver.
Qed.

(** ** Receipts *)

Record valid_receipt (r : ExecutionReceipt) : Prop := {
  vc_version : rc_api_version r ∈ ["celln.dev/v1alpha1"; "celln.dev/v1alpha2"; "celln.dev/v1alpha3"];
  vc_names : Forall not_blank [rc_request_id r; rc_node r; rc_cell_id r; rc_started_at r; rc_completed_at r];
  vc_mote : forall h, rs_mote (rc_resolved r) = Some h -> immutable h;
  vc_tools : Forall immutable (rs_tools (rc_resolved r));
  vc_inputs : Forall immutable (rs_inputs (rc_resolved r));
  vc_output : forall o, rc_output r = Some o -> immutable (out_hash o) /\ not_blank (out_media_type o) /\ out_bytes o <> 0;
}.

Lemma resolved_nil name l : resolved_problems name l = [] <-> Forall immutable l.
Proof.
  unfold resolved_problems, immutable. rewrite concat_imap_nil, Forall_lookup. setoid_rewrite when_nil.
  by setoid_rewrite negb_false_iff.
Qed.

(** A receipt passes exactly when every reference it resolved is content-addressed,
    its identities and times are named, and its output, if any, is an immutable
    nonempty object with a media type. *)
Theorem receipt_admitted (r : ExecutionReceipt) : receipt_problems r = [] <-> valid_receipt r.
Proof.
  unfold receipt_problems. reflect. rewrite known_version_spec, blanks_nil, !resolved_nil. rewrite !Forall_cons. cbn [snd].
  assert (Hm : match rs_mote (rc_resolved r) with
               | Some h => when (negb (is_immutable_hash h)) (mutable_reference "resolved.mote")
               | None => []
               end = [] <-> forall h, rs_mote (rc_resolved r) = Some h -> immutable h).
  { unfold immutable. destruct (rs_mote _); [reflect; naive_solver|done]. }
  assert (Ho : match rc_output r with Some o => output_problems o | None => [] end = [] <->
               forall o, rc_output r = Some o -> immutable (out_hash o) /\ not_blank (out_media_type o) /\ out_bytes o <> 0).
  { unfold immutable, not_blank, output_problems. destruct (rc_output r); [reflect; naive_solver|done]. }
  rewrite Hm, Ho. split.
  - intros (? & (? & ? & ? & ? & ? & _) & ? & ? & ? & ?). split; try done. repeat constructor; done.
  - intros [? Hn]. rewrite !Forall_cons in Hn. naive_solver.
Qed.

(** ** The harness binding *)

Record valid_borrowed (t : BorrowedTool) : Prop := {
  vb_name : b_name t <> "" /\ str_len (b_name t) <= 64 /\
    all_bytes (fun c => is_alphanumeric c || one_of [x5f; x2d] c) (b_name t) = true;
  vb_path : harness_path (b_path t) = true;
  vb_hash : immutable (b_hash t);
  vb_description : b_description t <> "" /\ str_len (b_description t) <= 512;
}.

Lemma borrowed_ok_spec names paths l :
  borrowed_ok names paths l = true <->
  Forall valid_borrowed l /\ NoDup (b_name <$> l) /\ NoDup (b_path <$> l) /\
  (forall t, t ∈ l -> b_name t ∉ names /\ b_path t ∉ paths).
Proof.
  revert names paths. induction l as [|t l IH]; intros names paths.
  { cbn. split; [|done]. intros _. repeat split; try by constructor. all: by apply elem_of_nil in H. }
  cbn [borrowed_ok fmap list_fmap]. reflect. rewrite IH, Forall_cons, !NoDup_cons, !bool_decide_eq_false.
  assert (Hsplit : (forall u, u ∈ t :: l -> b_name u ∉ names /\ b_path u ∉ paths) <->
    (b_name t ∉ names /\ b_path t ∉ paths) /\ (forall u, u ∈ l -> b_name u ∉ names /\ b_path u ∉ paths)).
  { split; [intros H; split; [apply H; by left|intros u Hu; apply H; by right]|].
    intros [H1 H2] u [->|Hu]%elem_of_cons; auto. }
  assert (Hset : (forall u, u ∈ l -> b_name u ∉ {[b_name t]} ∪ names /\ b_path u ∉ {[b_path t]} ∪ paths) <->
    b_name t ∉ b_name <$> l /\ b_path t ∉ b_path <$> l /\ (forall u, u ∈ l -> b_name u ∉ names /\ b_path u ∉ paths)).
  { rewrite !list_elem_of_fmap. split.
    - intros H. split; [|split; [|intros u Hu; specialize (H u Hu); set_solver]];
        intros (u & Heq & Hu); specialize (H u Hu); set_solver.
    - intros (Hn & Hp & H) u Hu. specialize (H u Hu).
      assert (b_name u <> b_name t) by (intros E; apply Hn; by exists u).
      assert (b_path u <> b_path t) by (intros E; apply Hp; by exists u). set_solver. }
  assert (Ht : valid_borrowed t <-> (b_name t <> "" /\ str_len (b_name t) <= 64 /\
    all_bytes (fun c => is_alphanumeric c || one_of [x5f; x2d] c) (b_name t) = true) /\
    harness_path (b_path t) = true /\ immutable (b_hash t) /\ (b_description t <> "" /\ str_len (b_description t) <= 512)).
  { split; [by intros []|]. intros (? & ? & ? & ?). by split. }
  rewrite Hsplit, Hset, Ht. unfold immutable.
  assert (He : forall s, str_is_empty s = false <-> s <> "").
  { intros s. rewrite <- not_true_iff_false, str_is_empty_true. done. }
  rewrite !He. tauto.
Qed.

Definition contract_ok (v : string) (h : HarnessBinding) : Prop :=
  (v = "celln.dev/v1alpha2" /\ h_contract_version h = "celln.reference-functions/v1" /\ h_json h = None /\
     length (h_borrowed_tools h) = 2%nat /\ Forall (fun t => b_json_stdio t = None) (h_borrowed_tools h)) \/
  (v = "celln.dev/v1alpha3" /\ h_contract_version h = "celln.json-tools/v1" /\
     (exists j, h_json h = Some j /\ str_len (o_system j) <= 2048 /\ has_nul (o_system j) = false /\
        1 <= o_max_turns j <= 6 /\ o_max_calls j <= 16) /\
     (length (h_borrowed_tools h) <= 24)%nat /\
     Forall (fun t => b_path t <> "/pilot-fetch" /\ exists j, b_json_stdio t = Some j /\ valid_io j = true)
       (h_borrowed_tools h)).

Lemma is_Some_bool_false {A} (o : option A) : is_Some_bool o = false <-> o = None.
Proof. by destruct o. Qed.

Lemma forallb_Forall {A} (p : A -> bool) (P : A -> Prop) l :
  (forall a, p a = true <-> P a) -> forallb p l = true <-> Forall P l.
Proof. intros H. induction l as [|a l IH]; cbn; [by split; constructor|]. by rewrite andb_true_iff, H, IH, Forall_cons. Qed.

Lemma contract_spec v h : valid_contract v h = true <-> contract_ok v h.
Proof.
  unfold valid_contract, contract_ok. destruct (String.eqb_spec v "celln.dev/v1alpha2") as [->|Hv2]; cbn [andb].
  - destruct (String.eqb_spec (h_contract_version h) "celln.reference-functions/v1") as [->|Hc]; cbn.
    + reflect. rewrite is_Some_bool_false, bool_decide_eq_true.
      rewrite (forallb_Forall _ (fun t => b_json_stdio t = None)) by (intros; by rewrite negb_true_iff, is_Some_bool_false).
      split; [intros [[? ?] ?]; by left|]. by intros [(_ & _ & ? & ? & ?)|(? & _)].
    + split; [done|]. by intros [(_ & ? & _)|(? & _)].
  - destruct (String.eqb_spec v "celln.dev/v1alpha3") as [->|Hv3]; cbn [andb];
      [|split; [done|]; by intros [(? & _)|(? & _)]].
    destruct (String.eqb_spec (h_contract_version h) "celln.json-tools/v1") as [->|Hc];
      [|split; [done|]; by intros [(? & _)|(_ & ? & _)]].
    reflect. unfold between.
    rewrite (forallb_Forall _ (fun t => b_path t <> "/pilot-fetch" /\ exists j, b_json_stdio t = Some j /\ valid_io j = true)).
    2: { intros t. rewrite andb_true_iff, negb_true_iff, String.eqb_neq. destruct (b_json_stdio t); naive_solver. }
    destruct (h_json h); reflect; [|split; [by intros [[? _] _]|by intros [(? & _)|(_ & _ & (? & ? & _) & _)]]]. split.
    + intros [[? ?] ?]. right. repeat (split; [done|]). split; [|split; [lia|done]]. eexists. split; [done|]. tauto.
    + intros [(? & _)|(_ & _ & (? & [= <-] & ?) & ? & ?)]; [done|]. split; [|done]. split; [tauto|lia].
Qed.

(** A harness is bound exactly when its version's contract holds and it can do
    nothing else: an agent-lane request under hardware isolation, one declared mote and
    one closed tool invoked without arguments, no inputs, no workspace, one
    destination, a bounded task, and borrowed tools with distinct names and paths
    under immutable hashes. Without a harness the version must be v1alpha1. *)
Theorem harness_admitted (r : ExecutionRequest) :
  harness_valid r = true <->
  match harness r with
  | None => api_version r = "celln.dev/v1alpha1"
  | Some h =>
      contract_ok (api_version r) h /\ immutable (h_model_grant h) /\
      (h_model h <> "" /\ str_len (h_model h) <= 128) /\
      (not_blank (h_task h) /\ str_len (h_task h) <= 2048 /\ has_nul (h_task h) = false) /\
      is_Some (mote r) /\ forge r = None /\ inputs r = [] /\
      (exists t c, tool_refs r = [t] /\ tr_closure t = Some c) /\
      (exists v, invocation r = Some v /\ v_args v = []) /\
      e_lane (execution r) = LaneAgent /\ e_require_hardware_isolation (execution r) = true /\
      c_workspace (capabilities r) = WNone /\ length (c_egress (capabilities r)) = 1%nat /\
      Forall valid_borrowed (h_borrowed_tools h) /\ NoDup (b_name <$> h_borrowed_tools h) /\
      NoDup (b_path <$> h_borrowed_tools h)
  end.
Proof.
  unfold harness_valid, not_blank, immutable. destruct (harness r) as [h|]; [|apply String.eqb_eq].
  reflect. rewrite contract_spec, borrowed_ok_spec, !bool_decide_eq_true, is_Some_bool_false, !length_0.
  assert (Ht : match tool_refs r with [t] => is_Some_bool (tr_closure t) | _ => false end = true <->
               exists t c, tool_refs r = [t] /\ tr_closure t = Some c).
  { destruct (tool_refs r) as [|t []]; [naive_solver| |naive_solver]. destruct (tr_closure t) eqn:E; naive_solver. }
  assert (Hv : match invocation r with Some i => bool_decide (length (v_args i) = 0%nat) | None => false end = true <->
               exists v, invocation r = Some v /\ v_args v = []).
  { destruct (invocation r); [rewrite bool_decide_eq_true, length_0|]; naive_solver. }
  assert (Hm : is_Some_bool (mote r) = true <-> is_Some (mote r)).
  { destruct (mote r); [by split; eauto|]. split; [done|by intros []]. }
  assert (He : str_is_empty (h_model h) = false <-> h_model h <> "").
  { by rewrite <- not_true_iff_false, str_is_empty_true. }
  rewrite Ht, Hv, Hm, He. 
  assert (Hset : forall t, t ∈ h_borrowed_tools h -> b_name t ∉ (∅ : gset string) /\ b_path t ∉ (∅ : gset string)).
  { intros t _. split; apply not_elem_of_empty. }
  tauto.
Qed.

(** ** Cell specifications *)

Lemma split_once_spec c s h t : split_once c s = Some (h, t) <-> s = (h ++ String c t)%string /\ has_char c h = false.
Proof.
  revert h. induction s as [|a s IH]; intros h; cbn.
  { split; [done|]. intros [Hs _]. by destruct h. }
  destruct (Ascii.eqb_spec a c) as [->|Hne].
  - split; [by intros [= <- <-]|]. destruct h as [|b h]; cbn; [by intros [[= <-] _]|].
    intros [[= <- _] Hb]. by rewrite Ascii.eqb_refl in Hb.
  - rewrite bind_Some. split.
    + intros ([h' t'] & Hs & [= <- <-]). apply IH in Hs as [-> Hh]. cbn.
      rewrite (proj2 (Ascii.eqb_neq a c) Hne). done.
    + destruct h as [|b h]; cbn; [by intros [[= -> _] _]|]. intros [[= <- ->] Hb]. exists (h, t).
      split; [|done]. apply IH. by apply orb_false_iff in Hb as [_ Hb].
Qed.

Section spec.
Context (debug : string -> string) (exists_path : string -> bool).

(** A reference to immutable bytes: a catalogue name, or a name with a digest. *)
Definition pinned (reference : string) : Prop :=
  let r := trim_start_matches "docker://" reference in
  (has_char "@" r = false /\ has_char "/" r = false /\ has_char ":" r = false) \/
  exists n hex, r = (n ++ "@sha256:" ++ hex)%string /\ n <> "" /\ has_char "@" n = false /\
    str_len hex = 64 /\ all_bytes is_ascii_hexdigit hex = true.

Lemma check_digest_pinned_spec reference : check_digest_pinned debug reference = Ok tt <-> pinned reference.
Proof.
  unfold check_digest_pinned, pinned. set (r := trim_start_matches _ _).
  destruct (negb (has_char "@" r) && negb (has_char "/" r) && negb (has_char ":" r)) eqn:Hb.
  { reflect. split; [left; tauto|done]. }
  assert (Hn : ~ (has_char "@" r = false /\ has_char "/" r = false /\ has_char ":" r = false)).
  { intros (H1 & H2 & H3). by rewrite H1, H2, H3 in Hb. }
  clearbody r. clear Hb. rewrite result_bind_Ok. split.
  - intros ([n digest] & Hs%ok_or_Ok%split_once_spec & H). right. destruct Hs as [-> Hat].
    destruct (str_is_empty n) eqn:He; [done|]. apply result_bind_Ok in H as (hex & Hx%ok_or_Ok%strip_prefix_Some & H).
    destruct (negb (str_len hex =? 64) || negb (all_bytes is_ascii_hexdigit hex)) eqn:Hh; [done|]. reflect.
    exists n, hex. rewrite Hx. split; [done|]. split; [by intros ->|]. tauto.
  - intros [?|(n & hex & Hr & Hne & Hat & Hlen & Hhex)]; [done|]. exists (n, "sha256:" ++ hex)%string. split.
    + apply ok_or_Ok, split_once_spec. rewrite Hr. done.
    + assert (str_is_empty n = false) as -> by by rewrite <- not_true_iff_false, str_is_empty_true.
      rewrite strip_prefix_app. cbn [ok_or mbind result_bind]. by rewrite Hlen, Hhex.
Qed.

Definition valid_env (env : gmap string string) : Prop :=
  forall n v, env !! n = Some v -> n <> "" /\ has_char "=" n = false /\ has_nul n = false /\ has_nul v = false.

Lemma validate_env_nil f env : validate_env f env = [] <-> valid_env env.
Proof.
  unfold validate_env, valid_env. rewrite concat_fmap_nil. split.
  - intros H n v Hnv. specialize (H (n, v) (proj2 (btree_iter_elem _ _ _) Hnv)). cbn in H. reflect.
    destruct H as [[[He ?] ?] ?]. split; [|done]. by intros ->.
  - intros H [n v] Hnv%btree_iter_elem. destruct (H n v Hnv) as (Hn & ? & ? & ?). cbn. reflect.
    by repeat split.
Qed.

(** Where the bytes of a tool come from. *)
Definition valid_place (s : Spec) (t : Tool) : Prop :=
  match t_builtin t with
  | Some b => b = "fetch" /\ t_path t = None /\ t_image t = None /\ allow_hosts (cell s) <> []
  | None =>
      (exists p, t_path t = Some p /\ t_image t = None /\ t_exec t = None /\ exists_path p = true) \/
      (exists im, t_path t = None /\ t_image t = Some im /\ pinned im /\ is_Some (t_exec t))
  end.

Record valid_spec (s : Spec) : Prop := {
  vs_name : not_blank (name s);
  vs_memory : is_Some (parse_size (memory (cell s)));
  vs_tools : Forall (fun t => starts_with "/" (t_alias t) = true /\ valid_place s t) (tools s);
  vs_aliases : NoDup (t_alias <$> tools s);
  vs_agent : forall a, agent s = Some a -> valid_env (a_env a) /\ a_exec a ∈ t_alias <$> tools s /\ run s = None;
  vs_runs : Forall (fun r => valid_env (r_env r) /\ r_exec r ∈ t_alias <$> tools s) (run_list s);
}.

Lemma place_nil s at_ t : match t_builtin t with
     | Some b => builtin_problems debug s at_ t b
     | None => place_problems debug exists_path at_ t
         ++ when (negb (is_Some_bool (t_image t)) && is_Some_bool (t_exec t))
              (mkIssue (at_ ++ ".exec") "exec only applies to an image tool"
                 ("drop exec, or set image = " ++ quote ++ "name@sha256:…" ++ quote))
     end = [] <-> valid_place s t.
Proof.
  unfold valid_place, builtin_problems, place_problems. destruct (t_builtin t) as [b|].
  { reflect. rewrite bool_decide_eq_false, length_0, !is_Some_bool_false. tauto. }
  destruct (t_path t) as [p|], (t_image t) as [im|]; reflect.
  - split; [by intros [? _]|]. by intros [(? & _ & ? & _)|(? & ? & _)].
  - cbn. split; [|intros [(? & [= <-] & _ & -> & ?)|(? & ? & _)]; [by split; [|right]|done]].
    intros [? [?|He]]; [done|]. left. exists p. repeat (split; [done|]). split; [by apply is_Some_bool_false|done].
  - pose proof (check_digest_pinned_spec im) as Hp. destruct (check_digest_pinned debug im) as [[]|why].
    + cbn. split; [|intros [(? & ? & _)|(? & _ & [= <-] & _ & [e He])]; [done|by rewrite He; split; [|left]]].
      intros [[_ He] _]. right. exists im. repeat (split; [done|]). split; [by apply Hp|]. by destruct (t_exec t).
    + split; [by intros [[? _] _]|]. intros [(? & ? & _)|(? & _ & [= <-] & Hpin & _)]; [done|]. by apply Hp in Hpin.
  - split; [by intros [? _]|]. by intros [(? & ? & _)|(? & _ & ? & _)].
Qed.

(** A cell specification passes exactly when it is well formed: a name, a size, tools
    with distinct absolute aliases that each come from one existing file, one pinned
    image with something to execute, or the fetch capability with a host to reach, and
    either declared runs or a task, over declared tools with representable
    environments; and loading a file returns exactly the specifications that pass. *)
Theorem spec_admitted (s : Spec) (text : option string) (from_toml : string -> option Spec) :
  (spec_problems debug exists_path s = [] <-> valid_spec s) /\
  (load debug exists_path text from_toml = Ok s <-> exists t, text = Some t /\ from_toml t = Some s /\ valid_spec s).
Proof.
  assert (Hs : forall s, spec_problems debug exists_path s = [] <-> valid_spec s).
  { clear s. intros s. unfold spec_problems. reflect.
    assert (Ht : concat (imap (spec_tool_problems debug exists_path s) (tools s)) = [] <->
                 Forall (fun t => starts_with "/" (t_alias t) = true /\ valid_place s t) (tools s)).
    { rewrite concat_imap_nil, Forall_lookup. unfold spec_tool_problems. setoid_rewrite app_nil_iff.
      setoid_rewrite when_nil. setoid_rewrite place_nil. by setoid_rewrite negb_false_iff. }
    assert (Ha : concat (imap (alias_problems debug (t_alias <$> tools s)) (t_alias <$> tools s)) = [] <->
                 NoDup (t_alias <$> tools s)).
    { rewrite concat_imap_nil, <- repeated_first_NoDup. unfold alias_problems. by setoid_rewrite when_nil. }
    assert (Hag : match agent s with Some a => agent_problems debug s a | None => [] end = [] <->
                  forall a, agent s = Some a -> valid_env (a_env a) /\ a_exec a ∈ t_alias <$> tools s /\ run s = None).
    { destruct (agent s) as [a|]; [|done]. unfold agent_problems. reflect. rewrite validate_env_nil, is_Some_bool_false.
      assert (He : existsb (fun t => String.eqb (t_alias t) (a_exec a)) (tools s) = true <-> a_exec a ∈ t_alias <$> tools s).
      { rewrite existsb_exists, list_elem_of_fmap. setoid_rewrite String.eqb_eq. setoid_rewrite list_elem_of_In. naive_solver. }
      rewrite He. naive_solver. }
    assert (Hr : concat (imap (run_problems debug (t_alias <$> tools s)) (run_list s)) = [] <->
                 Forall (fun r => valid_env (r_env r) /\ r_exec r ∈ t_alias <$> tools s) (run_list s)).
    { rewrite concat_imap_nil, Forall_lookup. unfold run_problems. setoid_rewrite app_nil_iff.
      setoid_rewrite validate_env_nil. setoid_rewrite when_nil. setoid_rewrite negb_false_iff.
      by setoid_rewrite bool_decide_eq_true. }
    assert (Hm : is_Some_bool (parse_size (memory (cell s))) = true <-> is_Some (parse_size (memory (cell s)))).
    { destruct (parse_size _); [by split; eauto|]. split; [done|by intros []]. }
    rewrite Ht, Ha, Hag, Hr, Hm. split; [|intros []; done]. intros (? & ? & ? & ? & ? & ?). by split. }
  split; [apply Hs|]. unfold load. rewrite result_bind_Ok. setoid_rewrite ok_or_Ok. setoid_rewrite result_bind_Ok.
  setoid_rewrite ok_or_Ok. split.
  - intros (t & -> & s' & Hd & H). exists t. destruct (spec_problems debug exists_path s') eqn:Hp; [|done].
    injection H as ->. split; [done|]. split; [done|]. by apply Hs.
  - intros (t & -> & Hd & Hv). exists t. split; [done|]. exists s. split; [done|]. apply Hs in Hv. by rewrite Hv.
Qed.
End spec.

(** The memory of a cell is a machine word. *)
Lemma parse_size_u64 s n : parse_size s = Some n -> n <= u64_max.
Proof.
  unfold parse_size. destruct (span _ _) as [num u]. rewrite bind_Some. setoid_rewrite bind_Some.
  intros (? & _ & m & _ & H). unfold checked_mul_u64 in H. case_match eqn:Hle; [|done]. reflect. by injection H as <-.
Qed.
