(* ===== verification/Encoding.v ===== *)
(** * Canonical JSON encodings

    The walk that [configuration.rs] and [tenancy_contract.rs] share: a value is
    written with the entries of each object in an order of the encoder's choice. Such
    an encoding is injective whatever the order, so a digest of it names one value.
    [serde_json]'s writer of scalars and keys is a parameter. *)

From S2P Require Import Prelude Json Instances.

Section encoding.
Context (scalar : Value -> option bytes) (quoted : string -> option bytes).

Definition comma (first : bool) : bytes := if first then [] else [x2c].

(** The two loops of [canonical] over [write], itself: a comma before all but the
    first. Entries are sorted by key before they are written. *)
Section loops.
Context (write : Value -> option bytes).

Fixpoint elements (first : bool) (l : list Value) : option bytes :=
  match l with
  | [] => Some []
  | v :: l => b ← write v; rest ← elements false l; Some (comma first ++ b ++ rest)
  end.

Fixpoint entries (o : list (string * Value)) : option (list (string * bytes)) :=
  match o with
  | [] => Some []
  | (k, v) :: o => b ← write v; l ← entries o; Some ((k, b) :: l)
  end.
End loops.

Fixpoint members (first : bool) (l : list (string * bytes)) : option bytes :=
  match l with
  | [] => Some []
  | (k, v) :: l => q ← quoted k; rest ← members false l; Some (comma first ++ q ++ [x3a] ++ v ++ rest)
  end.

(** [order] arranges the written entries of an object. *)
Context (order : list (string * bytes) -> list (string * bytes)).

Fixpoint write_with (v : Value) : option bytes :=
  match v with
  | VObject o =>
      l ← entries write_with o;
      body ← members true (order l);
      Some (x7b :: body ++ [x7d])
  | VArray l => body ← elements write_with true l; Some (x5b :: body ++ [x5d])
  | v => scalar v
  end.
End encoding.


(** ** The encoding is injective *)

(** The values of [serde_json]: numbers in their own range, and keys in order. *)
Definition number_wf (n : Number) : bool :=
  match n with
  | PosInt u => 0 <=? u
  | NegInt i => i <? 0
  | Float bits => negb (Z.land (Z.shiftr bits 52) 2047 =? 2047)
  end.
Definition is_scalar (v : Value) : bool :=
  match v with VArray _ | VObject _ => false | VNumber n => number_wf n | _ => true end.

Inductive wf : Value -> Prop :=
| wf_scalar v : is_scalar v = true -> wf v
| wf_array l : Forall wf l -> wf (VArray l)
| wf_object o : Forall (fun kv => wf kv.2) o -> StronglySorted key_le o.*1 -> NoDup o.*1 -> wf (VObject o).

(** What may follow a value. *)
Definition delimiters : list byte := [x2c; x5d; x7d].
Definition delimited (r : bytes) : Prop := match r with [] => True | x :: _ => x ∈ delimiters end.

(** What the encoding relies on of [serde_json]'s compact writer: a written key ends
    where it says, and so does a scalar before a delimiter; and scalars and keys can
    be written to a vector. *)
Class JsonWriter (scalar : Value -> option bytes) (quoted : string -> option bytes) : Prop := {
  quoted_ends k k' b b' r r' : quoted k = Some b -> quoted k' = Some b' -> b ++ r = b' ++ r' -> k = k' /\ r = r';
  quoted_first k b : quoted k = Some b -> exists t, b = x22 :: t;
  scalar_ends v v' b b' r r' : is_scalar v = true -> is_scalar v' = true -> scalar v = Some b -> scalar v' = Some b' ->
    delimited r -> delimited r' -> b ++ r = b' ++ r' -> v = v' /\ r = r';
  scalar_first v b : is_scalar v = true -> scalar v = Some b -> exists x t, b = x :: t /\ x ∉ x5b :: x7b :: delimiters;
  scalar_total v : is_scalar v = true -> is_Some (scalar v);
  quoted_total k : is_Some (quoted k);
}.

Lemma sorted_keys_unique {V} (l l' : list (string * V)) :
  l ≡ₚ l' -> StronglySorted entry_le l -> StronglySorted entry_le l' -> NoDup l.*1 -> l = l'.
Proof.
  revert l'. induction l as [|x l IH]; intros l' Hp Hs Hs' Hn; [by apply Permutation_nil_l in Hp|].
  destruct l' as [|y l']; [by apply Permutation_nil_r in Hp|].
  assert (Hxy : x = y).
  { apply StronglySorted_inv in Hs as [_ Hx]. apply StronglySorted_inv in Hs' as [_ Hy].
    assert (Hinx : x ∈ y :: l') by (rewrite <- Hp; left). assert (Hiny : y ∈ x :: l) by (rewrite Hp; left).
    apply elem_of_cons in Hinx as [|Hinx]; [done|]. apply elem_of_cons in Hiny as [|Hiny]; [done|].
    rewrite Forall_forall in Hx, Hy. pose proof (Hx y Hiny) as H1. pose proof (Hy x Hinx) as H2.
    assert (x.1 = y.1) by by apply (anti_symm key_le). exfalso. apply NoDup_cons in Hn as [Hn _]. apply Hn.
    apply list_elem_of_fmap. by exists y. }
  subst y. f_equal. apply IH; [by eapply Permutation_cons_inv|by apply StronglySorted_inv in Hs as [? _]
    |by apply StronglySorted_inv in Hs' as [? _]|by apply NoDup_cons in Hn as [_ ?]].
Qed.

Lemma keys_sorted {V} (l : list (string * V)) : StronglySorted key_le l.*1 -> StronglySorted entry_le l.
Proof.
  induction l as [|x l IH]; intros Hs; [constructor|]. cbn in Hs. apply StronglySorted_inv in Hs as [Hs Hx].
  constructor; [by apply IH|]. rewrite Forall_fmap in Hx. exact Hx.
Qed.

Section injective.
Context {scalar : Value -> option bytes} {quoted : string -> option bytes} `{JsonWriter scalar quoted}.
Context (order : list (string * bytes) -> list (string * bytes)) (order_perm : forall l, order l ≡ₚ l).
Notation write := (write_with scalar quoted order).
Notation elements := (elements write).
Notation members := (members quoted).

Lemma write_first v b : wf v -> write v = Some b -> exists x t, b = x :: t /\ x ∉ delimiters.
Proof.
  intros [u Hu|l _|o _ _ _] Hb.
  - replace (write u) with (scalar u) in Hb by by destruct u.
    destruct (scalar_first u b Hu Hb) as (x & t & -> & Hx). exists x, t. set_solver.
  - cbn in Hb. apply bind_Some in Hb as (body & _ & [= <-]). eexists _, _. split; [done|]. by apply (bool_decide_unpack _).
  - cbn in Hb. apply bind_Some in Hb as (e & _ & Hb). apply bind_Some in Hb as (body & _ & [= <-]). eexists _, _.
    split; [done|]. by apply (bool_decide_unpack _).
Qed.

(** [v] ends where it says, before a delimiter. *)
Definition ends (v : Value) : Prop := forall w b b' r r',
  wf v -> wf w -> write v = Some b -> write w = Some b' -> delimited r -> delimited r' ->
  b ++ r = b' ++ r' -> v = w /\ r = r'.

Lemma elements_end l : Forall ends l -> forall first l' b b' r r',
  Forall wf l -> Forall wf l' -> elements first l = Some b -> elements first l' = Some b' ->
  b ++ x5d :: r = b' ++ x5d :: r' -> l = l' /\ r = r'.
Proof.
  induction 1 as [|v l Hv Hl IH]; intros first l' b b' r r' Hw Hw' Hb Hb' E.
  - injection Hb as <-. destruct l' as [|v' l']; [injection Hb' as <-; by injection E as <-|]. cbn in Hb'.
    apply bind_Some in Hb' as (b1 & Hb1 & Hb'). apply bind_Some in Hb' as (rest & _ & [= <-]).
    apply Forall_cons in Hw' as [Hwv _]. destruct (write_first v' b1 Hwv Hb1) as (x & t & -> & Hx).
    exfalso. destruct first; cbn in E; injection E as E _; [subst x; apply Hx; set_solver|done].
  - cbn in Hb. apply bind_Some in Hb as (b1 & Hb1 & Hb). apply bind_Some in Hb as (rest & Hrest & [= <-]).
    apply Forall_cons in Hw as [Hwv Hwl]. destruct l' as [|v' l'].
    { injection Hb' as <-. destruct (write_first v b1 Hwv Hb1) as (x & t & -> & Hx).
      exfalso. destruct first; cbn in E; injection E as E _; [subst x; apply Hx; set_solver|done]. }
    cbn in Hb'. apply bind_Some in Hb' as (b1' & Hb1' & Hb'). apply bind_Some in Hb' as (rest' & Hrest' & [= <-]).
    apply Forall_cons in Hw' as [Hwv' Hwl']. rewrite <- !app_assoc in E. apply app_inv_head in E.
    assert (Hdel : forall m c s, elements false m = Some c -> delimited (c ++ x5d :: s)).
    { intros [|u m] c s Hc; [injection Hc as <-; set_solver|]. cbn in Hc. apply bind_Some in Hc as (? & _ & Hc).
      apply bind_Some in Hc as (? & _ & [= <-]). set_solver. }
    destruct (Hv v' b1 b1' (rest ++ x5d :: r) (rest' ++ x5d :: r')) as [-> Er]; eauto.
    edestruct (IH false l' rest rest' r r') as [-> ->]; eauto.
Qed.

(** Arranging the written entries arranges the entries. *)
Lemma entries_perm o l l' : entries write o = Some l -> l' ≡ₚ l -> exists o', o' ≡ₚ o /\ entries write o' = Some l'.
Proof.
  intros Hl Hp. apply (symmetry (R := Permutation)) in Hp. revert o Hl.
  induction Hp as [|[k b] l l' Hp IH|[k1 b1] [k2 b2] l|l1 l2 l3 _ IH1 _ IH2]; intros o Hl.
  - exists o. by destruct o as [|[? ?] ?]; [|cbn in Hl; repeat (apply bind_Some in Hl as (? & _ & Hl))].
  - destruct o as [|[k' v] o]; [done|]. cbn in Hl. apply bind_Some in Hl as (c & Hc & Hl).
    apply bind_Some in Hl as (m & Hm & [= -> -> ->]). destruct (IH o Hm) as (o' & Ho & E).
    exists ((k, v) :: o'). split; [by constructor|]. cbn. by rewrite Hc, E.
  - destruct o as [|[k1' v1] [|[k2' v2] o]]; [done|cbn in Hl; destruct (write v1); done|]. cbn in Hl.
    apply bind_Some in Hl as (c1 & Hc1 & Hl). apply bind_Some in Hl as (m & Hm & [= -> -> ->]).
    apply bind_Some in Hm as (c2 & Hc2 & Hm). apply bind_Some in Hm as (m & Hm & [= -> -> ->]).
    exists ((k1, v2) :: (k2, v1) :: o). split; [apply perm_swap|]. cbn. by rewrite Hc1, Hc2, Hm.
  - destruct (IH1 o Hl) as (o1 & H1 & E1). destruct (IH2 o1 E1) as (o2 & H2 & E2). exists o2. split; [by rewrite H2|done].
Qed.

Lemma members_end o : Forall (fun kv => ends kv.2) o -> forall first o' l l' b b' r r',
  Forall (fun kv => wf kv.2) o -> Forall (fun kv => wf kv.2) o' ->
  entries write o = Some l -> entries write o' = Some l' ->
  members first l = Some b -> members first l' = Some b' ->
  b ++ x7d :: r = b' ++ x7d :: r' -> o = o' /\ r = r'.
Proof.
  assert (Hdel : forall m c s, members false m = Some c -> delimited (c ++ x7d :: s)).
  { intros [|[k u] m] c s Hc; [injection Hc as <-; set_solver|]. cbn in Hc. apply bind_Some in Hc as (? & _ & Hc).
    apply bind_Some in Hc as (? & _ & [= <-]). set_solver. }
  induction 1 as [|[k v] o Hv Ho IH]; intros first o' l l' b b' r r' Hw Hw' Hl Hl' Hb Hb' E.
  - injection Hl as <-. injection Hb as <-. destruct o' as [|[k' v'] o'].
    { injection Hl' as <-. injection Hb' as <-. by injection E as <-. }
    cbn in Hl'. apply bind_Some in Hl' as (? & _ & Hl'). apply bind_Some in Hl' as (? & _ & [= <-]). cbn in Hb'.
    apply bind_Some in Hb' as (q & Hq & Hb'). apply bind_Some in Hb' as (? & _ & [= <-]).
    destruct (quoted_first k' q Hq) as [t ->]. by destruct first.
  - cbn in Hl. apply bind_Some in Hl as (c & Hc & Hl). apply bind_Some in Hl as (m & Hm & [= <-]). cbn in Hb.
    apply bind_Some in Hb as (q & Hq & Hb). apply bind_Some in Hb as (rest & Hrest & [= <-]).
    destruct o' as [|[k' v'] o'].
    { injection Hl' as <-. injection Hb' as <-. destruct (quoted_first k q Hq) as [t ->]. by destruct first. }
    cbn in Hl'. apply bind_Some in Hl' as (c' & Hc' & Hl'). apply bind_Some in Hl' as (m' & Hm' & [= <-]). cbn in Hb'.
    apply bind_Some in Hb' as (q' & Hq' & Hb'). apply bind_Some in Hb' as (rest' & Hrest' & [= <-]).
    apply Forall_cons in Hw as [Hwv Hwo]. apply Forall_cons in Hw' as [Hwv' Hwo']. cbn in Hv, Hwv, Hwv'.
    rewrite <- !app_assoc in E. apply app_inv_head in E.
    destruct (quoted_ends k k' q q' _ _ Hq Hq' E) as [<- E']. cbn in E'. injection E' as E'. rewrite <- ?app_assoc in E'.
    destruct (Hv v' c c' (rest ++ x7d :: r) (rest' ++ x7d :: r')) as [-> Er]; eauto.
    edestruct (IH false o' m m' rest rest' r r') as [-> ->]; eauto.
Qed.

Lemma write_ends v : ends v.
Proof.
  assert (Hs : forall v, is_scalar v = true -> ends v).
  { intros u Hu w b b' r r' _ Hw Hb Hb' Hr Hr' E. replace (write u) with (scalar u) in Hb by by destruct u.
    destruct Hw as [w Hw|l _|o _ _ _].
    - replace (write w) with (scalar w) in Hb' by by destruct w. by eapply scalar_ends.
    - exfalso. destruct (scalar_first u b Hu Hb) as (x & t & -> & Hx). cbn in Hb'.
      apply bind_Some in Hb' as (? & _ & [= <-]). injection E as -> _. apply Hx. left.
    - exfalso. destruct (scalar_first u b Hu Hb) as (x & t & -> & Hx). cbn in Hb'.
      apply bind_Some in Hb' as (? & _ & Hb'). apply bind_Some in Hb' as (? & _ & [= <-]). injection E as -> _.
      apply Hx. right. left. }
  induction v as [|b|n|s|l IH|o IH] using value_ind'; try (by apply Hs).
  - intros w b b' r r' Hv. inversion Hv as [? Hn| |]; subst. by apply Hs.
  - intros w b b' r r' Hv Hw Hb Hb' Hr Hr' E. destruct Hw as [w Hw|l' Hw|o' _ _ _].
    + by edestruct (Hs w Hw (VArray l) b' b r' r) as [-> _]; eauto using wf_scalar.
    + cbn in Hb, Hb'. apply bind_Some in Hb as (c & Hc & [= <-]). apply bind_Some in Hb' as (c' & Hc' & [= <-]).
      injection E as E. rewrite <- !app_assoc in E. inversion Hv as [? Hn|? Hl|]; subst; [done|].
      edestruct (elements_end l IH true l' c c' r r') as [-> ->]; eauto.
    + exfalso. cbn in Hb, Hb'. apply bind_Some in Hb as (? & _ & [= <-]). apply bind_Some in Hb' as (? & _ & Hb').
      apply bind_Some in Hb' as (? & _ & [= <-]). done.
  - intros w b b' r r' Hv Hw Hb Hb' Hr Hr' E. destruct Hw as [w Hw|l' _|o' Hw Hk Hd].
    + by edestruct (Hs w Hw (VObject o) b' b r' r) as [-> _]; eauto using wf_scalar.
    + exfalso. cbn in Hb, Hb'. apply bind_Some in Hb' as (? & _ & [= <-]). apply bind_Some in Hb as (? & _ & Hb).
      apply bind_Some in Hb as (? & _ & [= <-]). done.
    + inversion Hv as [? Hn| |? Ho Hk' Hd']; subst; [done|]. cbn in Hb, Hb'.
      apply bind_Some in Hb as (l & Hl & Hb). apply bind_Some in Hb as (c & Hc & [= <-]).
      apply bind_Some in Hb' as (l' & Hl' & Hb'). apply bind_Some in Hb' as (c' & Hc' & [= <-]).
      injection E as E. rewrite <- !app_assoc in E.
      destruct (entries_perm o l (order l) Hl (order_perm l)) as (p & Hp & Ep).
      destruct (entries_perm o' l' (order l') Hl' (order_perm l')) as (p' & Hp' & Ep').
      edestruct (members_end p ltac:(by rewrite Hp) true p' (order l) (order l') c c' r r') as [-> ->];
        [by rewrite Hp|by rewrite Hp'|done..|].
      split; [|done]. f_equal. apply sorted_keys_unique; [by rewrite <- Hp, Hp'|by apply keys_sorted..|done].
Qed.

(** Every value is written. *)
Lemma write_total v : wf v -> is_Some (write v).
Proof.
  assert (Hs : forall u, is_scalar u = true -> is_Some (write u)).
  { intros u Hu. replace (write u) with (scalar u) by (by destruct u). by apply scalar_total. }
  induction v as [|b|n|s|l IH|o IH] using value_ind'; intros Hv; try (apply Hs; by inversion Hv).
  - assert (Hl : Forall wf l) by (inversion Hv; subst; done). cbn.
    enough (He : forall first, is_Some (elements first l)) by (destruct (He true) as [b Hb]; rewrite Hb; cbn; by eexists).
    clear Hv. induction IH as [|v l Hv _ IH]; intros first; [by eexists|]. apply Forall_cons in Hl as [Hw Hl].
    destruct (Hv Hw) as [c Hc]. destruct (IH Hl false) as [d Hd]. cbn. rewrite Hc, Hd. by eexists.
  - assert (Ho : Forall (fun kv => wf kv.2) o) by (inversion Hv; subst; done). cbn.
    assert (He : is_Some (entries write o)).
    { clear Hv. induction IH as [|[k v] o Hv _ IH]; [by eexists|]. apply Forall_cons in Ho as [Hw Ho].
      destruct (Hv Hw) as [c Hc]. destruct (IH Ho) as [d Hd]. cbn in *. rewrite Hc, Hd. by eexists. }
    destruct He as [l Hl]. rewrite Hl. cbn.
    enough (Hm : forall first m, is_Some (members first m)) by (destruct (Hm true (order l)) as [b Hb]; rewrite Hb; by eexists).
    intros first m. revert first. induction m as [|[k c] m IHm]; intros first; [by eexists|].
    destruct (quoted_total k) as [q Hq]. destruct (IHm false) as [d Hd]. cbn. rewrite Hq, Hd. by eexists.
Qed.

Lemma write_inj v w b : wf v -> wf w -> write v = Some b -> write w = Some b -> v = w.
Proof. intros. by edestruct (write_ends v w b b [] []) as [-> _]. Qed.

End injective.

(** ** A concrete writer *)

(** ** A concrete writer *)

Definition toy_quoted (k : string) : option bytes := Some (x22 :: pos_to_bytes (encode k) ++ [x22]).
Definition toy_scalar (v : Value) : option bytes :=
  match v with VString s => toy_quoted s | v => Some (x23 :: pos_to_bytes (encode v)) end.

Definition digit (b : byte) : Prop := b ∈ [x30; x31; x32; x33; x34; x35].
Lemma pos_digits p : Forall digit (pos_to_bytes p).
Proof. revert p. fix IH 1. intros [[p|p|]|[p|p|]|]; cbn; repeat constructor; apply IH. Qed.

Lemma pos_to_bytes_inj p q : pos_to_bytes p = pos_to_bytes q -> p = q.
Proof. intros E. apply (f_equal bytes_to_pos) in E. rewrite !bytes_to_pos_to_bytes in E. by injection E. Qed.

(** Digits end at the first other byte. *)
Lemma digits_end a a' r r' :
  Forall digit a -> Forall digit a' -> (forall x t, r = x :: t -> ~ digit x) -> (forall x t, r' = x :: t -> ~ digit x) ->
  a ++ r = a' ++ r' -> a = a' /\ r = r'.
Proof.
  intros Ha. revert a'. induction Ha as [|x a Hx Ha IH]; intros [|y a'] Ha' Hr Hr' E; cbn in E.
  - done.
  - exfalso. apply Forall_cons in Ha' as [Hy _]. by apply (Hr _ _ E).
  - exfalso. symmetry in E. by apply (Hr' _ _ E).
  - injection E as -> E. apply Forall_cons in Ha' as [_ Ha']. destruct (IH a' Ha' Hr Hr' E) as [-> ->]. done.
Qed.

Lemma delimited_digits r : delimited r -> forall x t, r = x :: t -> ~ digit x.
Proof. intros Hr x t -> Hx. cbn in Hr. unfold digit, delimiters in *. set_solver. Qed.
Lemma quote_digits (r : bytes) : forall x t, x22 :: r = x :: t -> ~ digit x.
Proof. intros x t [= <- _]. unfold digit. by apply (bool_decide_unpack _). Qed.

Lemma toy_quoted_ends k k' b b' r r' :
  toy_quoted k = Some b -> toy_quoted k' = Some b' -> b ++ r = b' ++ r' -> k = k' /\ r = r'.
Proof.
  intros [= <-] [= <-] E. cbn in E. injection E as E. rewrite <- !app_assoc in E.
  apply digits_end in E as [E [= ->]]; [|first [apply pos_digits|apply quote_digits]..].
  split; [|done]. apply pos_to_bytes_inj in E. by apply (inj encode).
Qed.

Lemma toy_scalar_cases v : (exists s, v = VString s) \/ (forall s, v <> VString s).
Proof. destruct v as [| | |s| |]; first [by right | left; by exists s]. Qed.
Lemma toy_scalar_other v : (forall s, v <> VString s) -> toy_scalar v = Some (x23 :: pos_to_bytes (encode v)).
Proof. intros Hv. destruct v as [| | |s| |]; first [done | by destruct (Hv s)]. Qed.

#[export] Instance toy_writer : JsonWriter toy_scalar toy_quoted.
Proof.
  split.
  - apply toy_quoted_ends.
  - intros k b [= <-]. by eexists.
  - intros v v' b b' r r' Hv Hv' Hb Hb' Hr Hr' E.
    assert (Hs : forall u w c c' t t', (forall s, u <> VString s) -> toy_scalar u = Some c -> toy_scalar w = Some c' ->
      delimited t -> delimited t' -> c ++ t = c' ++ t' -> u = w /\ t = t').
    { clear. intros u w c c' t t' Hu Hc Hc' Ht Ht' E. rewrite toy_scalar_other in Hc by done. injection Hc as <-.
      destruct (toy_scalar_cases w) as [[s ->]|Hw]; [by injection Hc' as <-|]. rewrite toy_scalar_other in Hc' by done.
      injection Hc' as <-. injection E as E.
      apply digits_end in E as [E ->]; [|first [apply pos_digits|by apply delimited_digits]..].
      split; [|done]. apply pos_to_bytes_inj in E. by apply (inj encode). }
    destruct (toy_scalar_cases v) as [[s ->]|Hn]; [|by eapply Hs].
    destruct (toy_scalar_cases v') as [[s' ->]|Hn]; [|symmetry in E; by destruct (Hs v' (VString s) b' b r' r Hn Hb' Hb Hr' Hr E)].
    destruct (toy_quoted_ends _ _ _ _ _ _ Hb Hb' E) as [-> ->]. done.
  - intros v b _ Hb. destruct v; injection Hb as <-; (eexists _, _; split; [done|by apply (bool_decide_unpack _)]).
  - intros v _. by destruct v; eexists.
  - intros k. by eexists.
Qed.
