(* ===== verification/Configuration.v ===== *)
(** * The fingerprint of an execution configuration ([crates/celln-spec/src/configuration.rs])

    A request is hashed with a protocol and a role domain over a canonical encoding of
    its JSON value. The encoding is injective, so a fingerprint names one request in
    one role. [serde_json]'s writer of scalars and keys is a parameter. *)

From S2P Require Import Prelude Json Instances Manifest Spec Encoding.

Inductive ConfigurationRole : Type := OneShot | Parent | Worker.

(** The derived encoding of a role. *)
Definition role_name (r : ConfigurationRole) : string :=
  match r with OneShot => "one-shot" | Parent => "parent" | Worker => "worker" end.

Section configuration.
Context (scalar : Value -> option bytes) (quoted : string -> option bytes).

(** The entries of an object sorted by key. *)
Definition canonical : Value -> option bytes := write_with scalar quoted (merge_sort entry_le).

Context `{Blake3} (to_value : ExecutionRequest -> option Value).

(** The value that is hashed: the protocol domain, the role domain and the request. *)
Definition configuration_value (role : ConfigurationRole) (v : Value) : Value :=
  VArray [VString "celln.execution-configuration/v1"; VString (role_name role); v].

Definition configuration_binding (r : ExecutionRequest) (role : ConfigurationRole) : result string hash :=
  match request_problems r with
  | _ :: _ => Err "invalid execution configuration"
  | [] =>
      v ← ok_or (to_value r) "invalid execution configuration";
      b ← ok_or (canonical (configuration_value role v)) "invalid execution configuration";
      Ok (hash_of b)
  end.
End configuration.

Section exact.
Context {scalar : Value -> option bytes} {quoted : string -> option bytes} `{JsonWriter scalar quoted}.
Notation canonical := (canonical scalar quoted).

(** A fingerprint names one configuration: if two requests have the same fingerprint,
    in whatever roles, then they are the same request in the same role, or their two
    encodings have the same digest; and only requests without problems have one. The derived encoding of
    requests is taken to be injective and to give values of [serde_json]. *)
Theorem binding_exact `{Blake3} (to_value : ExecutionRequest -> option Value) (r r' : ExecutionRequest)
    (role role' : ConfigurationRole) (h : hash) :
  (forall q v, to_value q = Some v -> wf v) ->
  (forall q q' v, to_value q = Some v -> to_value q' = Some v -> q = q') ->
  configuration_binding scalar quoted to_value r role = Ok h ->
  configuration_binding scalar quoted to_value r' role' = Ok h ->
  request_problems r = [] /\ (r = r' /\ role = role' \/
    exists v v' b b', to_value r = Some v /\ to_value r' = Some v' /\
      canonical (configuration_value role v) = Some b /\ canonical (configuration_value role' v') = Some b' /\ collides b b').
Proof.
  intros Hwf Hinj Hr Hr'. unfold configuration_binding in *.
  destruct (request_problems r); [|done]. destruct (request_problems r'); [|done]. split; [done|].
  apply result_bind_Ok in Hr as (v & Hv%ok_or_Ok & Hr). apply result_bind_Ok in Hr as (b & Hb%ok_or_Ok & Hr).
  apply result_bind_Ok in Hr' as (v' & Hv'%ok_or_Ok & Hr'). apply result_bind_Ok in Hr' as (b' & Hb'%ok_or_Ok & Hr').
  assert (Hh : hash_of b = hash_of b') by congruence. apply hash_of_inj in Hh as [<-|]; [left|right; by exists v, v', b, b'].
  assert (Hw : forall u n, wf u -> wf (VArray [VString "celln.execution-configuration/v1"; VString n; u])).
  { intros u n Hu. apply wf_array. repeat apply Forall_cons_2; [by apply wf_scalar..|done|constructor]. }
  pose proof (write_inj _ (merge_sort_Permutation entry_le) _ _ _ (Hw v (role_name role) (Hwf _ _ Hv)) (Hw v' (role_name role') (Hwf _ _ Hv')) Hb Hb') as E.
  injection E as Er <-. split; [by eapply Hinj|]. by destruct role, role'.
Qed.
End exact.
