(* ===== verification/Egress.v ===== *)
(** * Host-owned HTTP egress ([crates/celln-warden/src/egress.rs])

    The policy a cell's broker enforces before any program is started: which hosts,
    schemes, ports and addresses, how often, and how redirects are followed. DNS,
    [curl], staging files, the credential file and the relay are the environment:
    each answers the n-th call made to it as it likes. The broker keeps a trace of
    the connections it asks for. *)

From S2P Require Import Prelude Text Json Manifest ModelParams.
From S2P Require Control Workspace Broker.

(** ** Policy *)

Definition ANY_PUBLIC_HOST : string := "*".
Definition GET_DOWNLOAD_CAP : Z := 1048576.

Definition host_allowed (list : list string) (host : string) : bool :=
  if str_is_empty host then false
  else if match list with [h] => String.eqb h ANY_PUBLIC_HOST | _ => false end then true
  else existsb (fun allowed => negb (String.eqb allowed ANY_PUBLIC_HOST) && eq_ignore_ascii_case allowed host) list.

Inductive Reach : Type := Model | Tool (hosts : list string).

Inductive ModelProtocol : Type := OpenaiChat | AnthropicMessages.

Record GetGrant : Type := mkGet {
  g_allow_hosts : list string;
  g_max_requests : Z;
  g_max_response_bytes : Z;
  g_timeout : Z;
}.
Record PostGrant : Type := mkPost {
  p_allow_hosts : list string;
  p_max_requests : Z;
  p_max_body_bytes : Z;
  p_max_response_bytes : Z;
  p_timeout : Z;
}.
Record JsonPostGrant : Type := mkJsonPost {
  protocol : ModelProtocol;
  url : string;
  bearer_token_file : string;
  model : string;
  max_output_tokens : Z;
  max_total_output_tokens : Z;
  parameters : Map;
}.
Record HttpPolicy : Type := mkPolicy {
  allow_hosts : list string;
  max_requests : Z;
  max_response_bytes : Z;
  timeout : Z;
  json_posts : list JsonPostGrant;
  workspace : option Broker.Grant;
  get : option GetGrant;
  post : option PostGrant;
  allow_insecure : bool;
}.

Definition new_policy (hosts : list string) : HttpPolicy :=
  mkPolicy hosts 32 1048576 (10 * nanos_per_sec) [] None None None false.

(** What a broker is made of besides its counters: [new], [new_mediated] and the
    additions to a mediated transport. *)
Record Transport : Type := mkTransport { t_policy : HttpPolicy; t_mediated : bool }.

Inductive FetchDenied : Type :=
| Scheme
| Authority
| Host (h : string)
| Budget
| Address
| Fetch (s : string).

Definition direct (p : HttpPolicy) : Transport := mkTransport p false.

Definition new_mediated (p : HttpPolicy) : result FetchDenied Transport :=
  if allow_insecure p || negb (bool_decide (length (json_posts p) = 1%nat))
     || negb (match json_posts p with g :: _ => str_is_empty (bearer_token_file g) | [] => true end)
  then Err (Fetch "mediated model grant requires exactly one credential-free route")
  else Ok (mkTransport p true).

Definition with_scoped_artifacts (t : Transport) (g : Broker.Grant) : result FetchDenied Transport :=
  let p := t_policy t in
  if negb (t_mediated t) || is_Some_bool (workspace p) || negb (bool_decide (allow_hosts p = []))
     || is_Some_bool (get p) || is_Some_bool (post p)
  then Err (Fetch "invalid scoped artifact transport")
  else Ok (mkTransport (mkPolicy (allow_hosts p) (max_requests p) (max_response_bytes p) (timeout p) (json_posts p)
                          (Some g) (get p) (post p) (allow_insecure p)) (t_mediated t)).

Definition with_scoped_https (t : Transport) (g : option GetGrant) (po : option PostGrant) : result FetchDenied Transport :=
  let p := t_policy t in
  if negb (t_mediated t) || allow_insecure p || negb (bool_decide (allow_hosts p = []))
     || is_Some_bool (get p) || is_Some_bool (post p) || (negb (is_Some_bool g) && negb (is_Some_bool po))
  then Err (Fetch "invalid scoped HTTPS transport")
  else Ok (mkTransport (mkPolicy (allow_hosts p) (max_requests p) (max_response_bytes p) (timeout p) (json_posts p)
                          (workspace p) (Some (default (mkGet [] 0 0 nanos_per_sec) g)) po (allow_insecure p))
             (t_mediated t)).

Definition fits_mediated_turn (t : Transport) (requests output_tokens : Z) : bool :=
  let p := t_policy t in
  t_mediated t && bool_decide (allow_hosts p = []) && negb (is_Some_bool (workspace p))
  && negb (is_Some_bool (get p)) && negb (is_Some_bool (post p)) && (max_requests p <=? requests)
  && match json_posts p with
     | [g] => (max_total_output_tokens g <=? output_tokens) && (max_output_tokens g <=? max_total_output_tokens g)
     | _ => false
     end.

(** An [IpAddr]: four octets, or an IPv6 address. *)
Inductive Ip : Type := V4 (a b c d : Z) | V6.

#[export] Instance Ip_eq_dec : EqDecision Ip.
Proof. solve_decision. Defined.

Record Authorized : Type := mkAuthorized { a_scheme : string; a_host : string; a_port : Z; a_ip : Ip }.

(** [url_host]. *)
Definition url_host (u : string) : option string :=
  rest ← match strip_prefix "https://" u with Some r => Some r | None => strip_prefix "http://" u end;
  let authority := before_char "/" rest in
  if str_is_empty authority || has_char "@" authority then None else
  let host := match rsplit_once ":" authority with Some (h, _) => h | None => authority end in
  if str_is_empty host then None else Some (to_ascii_lowercase host).

Definition is_public_v4 (a b c d : Z) : bool :=
  negb ((a =? 0) || (a =? 10) || (a =? 127) || ((224 <=? a) && (a <=? 255))
        || (a =? 100) && ((64 <=? b) && (b <=? 127))
        || (a =? 169) && (b =? 254)
        || (a =? 172) && ((16 <=? b) && (b <=? 31))
        || (a =? 192) && ((b =? 0) || (b =? 168))
        || (a =? 192) && (b =? 88) && (c =? 99)
        || (a =? 198) && ((b =? 18) || (b =? 19))
        || (a =? 198) && (b =? 51) && (c =? 100)
        || (a =? 203) && (b =? 0) && (c =? 113)).

(** [addresses.find(V4)] and [addresses.find_map(public V4)]. *)
Definition find_v4 (l : list Ip) : option Ip := List.find (fun i => match i with V4 _ _ _ _ => true | V6 => false end) l.
Definition find_public (l : list Ip) : option Ip :=
  List.find (fun i => match i with V4 a b c d => is_public_v4 a b c d | V6 => false end) l.

(** [IpAddr::from_str] of the words of [getent]: four decimal octets of one to three
    digits without a leading zero. What parses as IPv6 is never used, so it may as
    well not parse. *)
Definition parse_octet (s : string) : option Z :=
  match as_bytes s with
  | [] => None
  | b :: r =>
      if negb (forallb is_digit (b :: r)) || (3 <? str_len s) || (bool_decide (b = x30) && negb (bool_decide (r = [])))
      then None else n ← parse_u64 (b :: r); if n <=? 255 then Some n else None
  end.
Definition parse_ip (b : bytes) : option Ip :=
  '(o1, r) ← split_once "." (from_utf8 b); '(o2, r) ← split_once "." r; '(o3, o4) ← split_once "." r;
  a ← parse_octet o1; b ← parse_octet o2; c ← parse_octet o3; d ← parse_octet o4; Some (V4 a b c d).

Definition getent_addresses (stdout : bytes) : list Ip :=
  omap (fun line => word ← head (split_whitespace line); parse_ip word) (Workspace.lines (from_utf8_lossy stdout)).

(** ** Responses *)

(** The blocks of [headers.split("\r\n\r\n")]. *)
Fixpoint blocks_from (cur b : bytes) : list bytes :=
  match b with
  | x0d :: x0a :: x0d :: x0a :: r => rev cur :: blocks_from [] r
  | x :: r => blocks_from (x :: cur) r
  | [] => [rev cur]
  end.

Definition location_of (line : bytes) : option bytes :=
  '(name, value) ← split_once ":" (from_utf8 line);
  if eq_ignore_ascii_case name "location" then Some (trim (as_bytes value)) else None.

Fixpoint find_map {A B} (f : A -> option B) (l : list A) : option B :=
  match l with [] => None | a :: l => match f a with Some b => Some b | None => find_map f l end end.

Definition response_status_and_location (headers : bytes) : option (Z * option string) :=
  block ← last (filter (fun b => starts_with "HTTP/" (from_utf8 b) = true) (blocks_from [] headers));
  word ← split_whitespace block !! 1%nat;
  status ← parse_u16 (from_utf8 word);
  Some (status, from_utf8 <$> find_map location_of (Workspace.lines block)).

Definition redirect_url (current location : string) : result FetchDenied string :=
  if starts_with "https://" location then Ok location else
  match strip_prefix "//" location with
  | Some host_relative => Ok ("https://" ++ host_relative)%string
  | None =>
      rest ← ok_or (strip_prefix "https://" current) Scheme;
      let authority := before_char "/" rest in
      if starts_with "/" location then Ok ("https://" ++ authority ++ location)%string else
      let base := match rsplit_once "/" current with Some (p, _) => p | None => current end in
      Ok (base ++ "/" ++ location)%string
  end.

(** The cut to [max_response_bytes] on a character boundary. *)
Fixpoint boundary (body : bytes) (stop : nat) : nat :=
  match stop with
  | O => O
  | S n => match body !! stop with
           | Some b => if Z.land (byte_val b) 192 =? 128 then boundary body n else stop
           | None => stop
           end
  end.
Definition cut_body (body : bytes) (max : Z) : bytes :=
  if max <? blen body then take (boundary body (Z.to_nat max)) body else body.

(** ** The environment and the broker *)

Inductive Kind : Type := Get | ModelPost | PlainPost | Relay.

(** One run of [curl], or one call of the relay ([at] is then [None]). *)
Record Call : Type := mkCall {
  c_kind : Kind;
  c_url : string;
  c_at : option Authorized;
  c_http : bool;                     (* [--proto =http,https] *)
  c_insecure : bool;                 (* [--insecure] *)
  c_header : option bytes;           (* the credential header file *)
  c_body : option bytes;
  c_tokens : Z;                      (* the output ceiling of a model request *)
  c_timeout : Z;                     (* in nanoseconds; [--max-time] is made of it *)
  c_max_filesize : Z;
}.

Record CurlOut : Type := mkCurl { success : bool; stdout : bytes; stderr : bytes; headers : option bytes }.

Record Net : Type := mkNet {
  getent : nat -> string -> result string (bool * bytes);
  socket_addrs : nat -> string -> Z -> option (list Ip);
  stage : nat -> option string;
  curl : nat -> Call -> result string CurlOut;
  token_file : nat -> string -> option bytes;
  invoke : nat -> bytes -> result FetchDenied bytes;
}.

(** [calls] counts every call to the environment; [conns] is the trace. *)
Record HttpBroker : Type := mkBroker {
  used : Z;
  get_used : Z;
  post_used : Z;
  post_output_reserved : gmap string Z;
  calls : nat;
  conns : list Call;
  heap : Broker.Heap;
}.

Definition new_broker (h : Broker.Heap) : HttpBroker := mkBroker 0 0 0 ∅ 0 [] h.

Definition M (A : Type) : Type := HttpBroker -> result FetchDenied A * HttpBroker.
#[export] Instance M_ret : MRet M := fun A a s => (Ok a, s).
#[export] Instance M_bind : MBind M := fun A B f m s =>
  match m s with (Ok a, s) => f a s | (Err e, s) => (Err e, s) end.
Definition fail {A} (e : FetchDenied) : M A := fun s => (Err e, s).
Definition lift {A} (r : result FetchDenied A) : M A := fun s => (r, s).
Definition require (c : bool) (e : FetchDenied) : M unit := lift (ensure c e).
Definition state : M HttpBroker := fun s => (Ok s, s).

Definition set_calls (s : HttpBroker) (n : nat) : HttpBroker :=
  mkBroker (used s) (get_used s) (post_used s) (post_output_reserved s) n (conns s) (heap s).
Definition set_heap (s : HttpBroker) (h : Broker.Heap) : HttpBroker :=
  mkBroker (used s) (get_used s) (post_used s) (post_output_reserved s) (calls s) (conns s) h.

(** The number of the next call to the environment. *)
Definition tick : M nat := fun s => (Ok (calls s), set_calls s (S (calls s))).
Definition connect (c : Call) : M unit := fun s =>
  (Ok tt, mkBroker (used s) (get_used s) (post_used s) (post_output_reserved s) (calls s) (conns s ++ [c]) (heap s)).
Definition spend_get : M unit := fun s =>
  (Ok tt, mkBroker (used s + 1) (get_used s + 1) (post_used s) (post_output_reserved s) (calls s) (conns s) (heap s)).
Definition spend_post : M unit := fun s =>
  (Ok tt, mkBroker (used s) (get_used s) (post_used s + 1) (post_output_reserved s) (calls s) (conns s) (heap s)).
Definition spend_model (u : string) (total : Z) : M unit := fun s =>
  (Ok tt, mkBroker (used s + 1) (get_used s) (post_used s) (<[u := total]> (post_output_reserved s)) (calls s)
     (conns s) (heap s)).

(** [celln_control::check()] of the thread's control. *)
Definition check_current (current : option nat) : M unit := fun s =>
  let '(r, w) := Control.check_current (Broker.controls (heap s)) current in
  (map_err Fetch r, set_heap s (Broker.with_controls (heap s) w)).

Section broker.
Context (net : Net) (policy : HttpPolicy) (current : option nat).

(** The name service: [getent] under a control, else [to_socket_addrs]. *)
Definition resolve (host : string) (port : Z) : M (list Ip) :=
  n ← tick;
  match current with
  | Some _ =>
      '(ok, out) ← lift (map_err Fetch (getent net n host));
      _ ← require ok Address;
      mret (getent_addresses out)
  | None => lift (ok_or (socket_addrs net n host port) Address)
  end.

(** [authorize]: the destination named by a URL, then its address. *)
Definition destination (raw : string) (reach : Reach) : result FetchDenied (string * string * Z) :=
  let insecure := match reach with Model => allow_insecure policy | Tool _ => false end in
  '(scheme, rest) ← match strip_prefix "https://" raw with
                    | Some rest => Ok ("https", rest)
                    | None => if insecure then r ← ok_or (strip_prefix "http://" raw) Scheme; Ok ("http", r)
                              else Err Scheme
                    end;
  let authority := before_char "/" rest in
  if str_is_empty authority || has_char "@" authority then Err Authority else
  '(host, port) ← match rsplit_once ":" authority with
                  | Some (host, port) =>
                      p ← ok_or (parse_u16 port) Authority;
                      if p =? 0 then Err Authority else Ok (to_ascii_lowercase host, p)
                  | None => Ok (to_ascii_lowercase authority, if String.eqb scheme "https" then 443 else 80)
                  end;
  if str_is_empty host || (negb insecure && negb (port =? 443)) then Err Authority else
  let admitted := match reach with
                  | Model => existsb (fun h => negb (String.eqb h ANY_PUBLIC_HOST) && eq_ignore_ascii_case h host)
                               (allow_hosts policy)
                  | Tool list => host_allowed list host
                  end in
  if negb admitted then Err (Host host) else Ok (scheme, host, port).

Definition authorize (raw : string) (reach : Reach) : M Authorized :=
  let insecure := match reach with Model => allow_insecure policy | Tool _ => false end in
  '(scheme, host, port) ← lift (destination raw reach);
  addresses ← resolve host port;
  ip ← lift (ok_or (if insecure then find_v4 addresses else find_public addresses) Address);
  mret (mkAuthorized scheme host port ip).

(** One hop of [fetch]: the body, or where to go next. *)
Definition get_hop (u : string) : M (bytes + string) :=
  s ← state;
  let '(max, max_bytes, limit, spent) :=
    match get policy with
    | Some g => (g_max_requests g, g_max_response_bytes g, g_timeout g, get_used s)
    | None => (max_requests policy, max_response_bytes policy, timeout policy, used s)
    end in
  _ ← require (negb (max <=? spent)) Budget;
  let hosts := match get policy with Some g => g_allow_hosts g | None => allow_hosts policy end in
  at_ ← authorize u (Tool hosts);
  _ ← spend_get;
  n ← tick;
  _ ← lift (match stage net n with Some e => Err (Fetch e) | None => Ok tt end);
  let call := mkCall Get u (Some at_) false false None None 0 limit GET_DOWNLOAD_CAP in
  _ ← connect call;
  n ← tick;
  out ← lift (map_err Fetch (curl net n call));
  _ ← require (success out) (Fetch (from_utf8 (trim (from_utf8_lossy (stderr out)))));
  '(status, location) ← lift (ok_or (response_status_and_location (default [] (headers out)))
                               (Fetch "missing HTTP response headers"));
  if negb ((300 <=? status) && (status <? 400)) then
    _ ← require (negb (400 <=? status)) (Fetch ("HTTP " ++ pretty.pretty status));
    mret (inl (cut_body (stdout out) max_bytes))
  else
    location ← lift (ok_or location (Fetch "redirect without Location"));
    next ← lift (redirect_url u location);
    mret (inr next).

(** [for _ in 0..=5]. *)
Fixpoint get_hops (hops : nat) (u : string) : M bytes :=
  match hops with
  | O => fail (Fetch "too many redirects (limit 5)")
  | S hops => r ← get_hop u; match r with inl body => mret body | inr next => get_hops hops next end
  end.
End broker.
