(* ===== verification/EgressPost.v ===== *)
(** * Model requests and JSON posts ([crates/celln-warden/src/egress_post.rs])

    The guest's requests in the broker's own JSON: a chat request to a granted model
    endpoint, translated for its provider and completed with the operator's
    parameters, or a credential-free post; and [fetch], which tells them from GETs
    and from workspace requests. *)

From S2P Require Import Prelude Text Json Manifest ModelParams Egress.
From S2P Require Control Workspace Broker.

(** ** The endpoint of a model *)

Record ModelEndpoint : Type := mkEndpoint { e_scheme : string; e_host : string; e_port : Z; e_origin : string }.

Definition label_byte (b : byte) : bool := is_lower b || is_digit b || bool_decide (b = x2d).
Definition bad_label (l : string) : bool :=
  str_is_empty l || (63 <? str_len l) || starts_with "-" l || ends_with "-" l || negb (all_bytes label_byte l).
Definition insecure_host_byte (b : byte) : bool := is_alnum b || bool_decide (b ∈ [x2e; x2d; x5b; x5d]).

Definition model_endpoint_target (u : string) (insecure : bool) : result string ModelEndpoint :=
  '(scheme, rest) ← match strip_prefix "https://" u with
                    | Some rest => Ok ("https", rest)
                    | None =>
                        if insecure
                        then r ← ok_or (strip_prefix "http://" u) "model endpoint requires HTTP or HTTPS"; Ok ("http", r)
                        else Err "model endpoint requires HTTPS"
                    end;
  if (2048 <? str_len u) || has_char "?" u || has_char "#" u || str_contains x0d u || str_contains x0a u || str_contains x00 u
  then Err "invalid model endpoint" else
  '(authority, path) ← ok_or (split_once "/" rest) "complete model endpoint required";
  if str_is_empty path || str_is_empty authority || has_char "@" authority then Err "invalid model endpoint" else
  '(host, port) ← match rsplit_once ":" authority with
                  | Some (host, port) =>
                      p ← ok_or (parse_u16 port) "invalid model endpoint port";
                      if p =? 0 then Err "invalid model endpoint port" else Ok (host, p)
                  | None => Ok (authority, if String.eqb scheme "https" then 443 else 80)
                  end;
  if negb insecure && negb (port =? 443) then Err "model endpoint requires port 443" else
  if str_is_empty host || (253 <? str_len host) then Err "invalid model endpoint" else
  let host_valid := if insecure then all_bytes insecure_host_byte host
                    else negb (existsb bad_label (split_char "." host)) in
  if negb host_valid then Err "invalid model endpoint" else
  let default_port := (String.eqb scheme "https" && (port =? 443)) || (String.eqb scheme "http" && (port =? 80)) in
  let origin := if default_port then (scheme ++ "://" ++ host)%string
                else (scheme ++ "://" ++ host ++ ":" ++ pretty.pretty port)%string in
  Ok (mkEndpoint scheme host port origin).

Definition model_endpoint_host (u : string) : result string string := e_host <$> model_endpoint_target u false.

(** ** The chat request of the guest *)

Record ChatFunctionCall : Type := mkFunctionCall { fc_name : string; fc_arguments : string }.
Record ChatToolCall : Type := mkToolCall { tc_id : string; tc_kind : string; tc_function : ChatFunctionCall }.
Record ChatFunction : Type := mkFunction { f_name : string; f_description : string; f_parameters : Value }.
Record ChatTool : Type := mkTool { t_kind : string; t_function : ChatFunction }.
Record ChatMessage : Type := mkMessage {
  role : string;
  content : option string;
  tool_calls : option (list ChatToolCall);
  tool_call_id : option string;
}.
Record ChatRequest : Type := mkChat {
  ch_model : string;
  ch_max_tokens : N;
  stream : bool;
  messages : list ChatMessage;
  tools : option (list ChatTool);
  tool_choice : option string;
}.

Definition max_tokens (c : ChatRequest) : Z := Z.of_N (ch_max_tokens c).

Definition refused (reason : string) : FetchDenied := Fetch reason.
Definition is_object (v : Value) : bool := match v with VObject _ => true | _ => false end.
Definition one_of (s : string) (l : list string) : bool := existsb (String.eqb s) l.
Definition opt_any {A} (f : A -> bool) (o : option A) : bool := match o with Some a => f a | None => false end.

Definition bad_call (c : ChatToolCall) : bool :=
  negb (String.eqb (tc_kind c) "function") || str_is_empty (tc_id c) || str_is_empty (fc_name (tc_function c))
  || (4096 <? str_len (fc_arguments (tc_function c))).
Definition bad_message (m : ChatMessage) : bool :=
  negb (one_of (role m) ["system"; "user"; "assistant"; "tool"])
  || (negb (is_Some_bool (content m)) && negb (is_Some_bool (tool_calls m)))
  || (is_Some_bool (tool_calls m) && negb (String.eqb (role m) "assistant"))
  || xorb (is_Some_bool (tool_call_id m)) (String.eqb (role m) "tool")
  || opt_any (fun calls => bool_decide (length calls = 0%nat) || (16 <? Z.of_nat (length calls)) || existsb bad_call calls)
       (tool_calls m).
Definition bad_tool (t : ChatTool) : bool :=
  negb (String.eqb (t_kind t) "function") || str_is_empty (f_name (t_function t))
  || (4096 <? str_len (f_description (t_function t))) || negb (is_object (f_parameters (t_function t))).
Definition bad_chat (c : ChatRequest) : bool :=
  stream c || bool_decide (length (messages c) = 0%nat) || (128 <? Z.of_nat (length (messages c)))
  || existsb bad_message (messages c)
  || opt_any (fun l => bool_decide (length l = 0%nat) || (24 <? Z.of_nat (length l)) || existsb bad_tool l) (tools c)
  || opt_any (fun choice => negb (one_of choice ["auto"; "required"; "none"])) (tool_choice c).

Record Request : Type := mkRequest { api_version : string; method : string; r_url : string; r_body : Value }.

Definition blank_line : string := String "010" (String "010" "").
Definition join (sep : string) (l : list string) : string := String.concat sep l.

Section post.
(** The derived decoders of [ChatRequest] and [Request], [serde_json]'s reader and
    writer of values, and its [Display]. *)
Context (chat_of : Value -> option ChatRequest) (request_of : string -> option Request).
Context (value_of : bytes -> option Value) (to_vec : Value -> option bytes) (to_vec_map : Map -> option bytes).
Context (render : Value -> string) (display : Z -> string).

Definition validate_chat (body : Value) (grant : JsonPostGrant) : result FetchDenied Z :=
  chat ← ok_or (chat_of body) (refused "unsupported model request parameters");
  if str_is_empty (model grant) || negb (String.eqb (ch_model chat) (model grant))
  then Err (refused "model not granted") else
  if (max_tokens chat =? 0) || (max_output_tokens grant <? max_tokens chat)
     || (max_total_output_tokens grant <? max_tokens chat)
  then Err (refused "model output token limit exceeded") else
  if bad_chat chat then Err (refused "unsupported model request parameters") else
  Ok (max_tokens chat).

Definition parse (raw : string) : result FetchDenied Request :=
  if 32768 <? str_len raw then Err (refused "request exceeds broker wire budget") else
  request ← ok_or (request_of raw) (refused "invalid JSON request");
  if negb (String.eqb (api_version request) "celln.fetch/v1") || negb (String.eqb (method request) "POST")
  then Err (refused "unsupported broker request version or method") else
  if negb (is_object (r_body request)) then Err (refused "POST body must be a JSON object") else
  Ok request.

(** ** The provider's protocol *)

(** The content blocks of one message. *)
Definition call_block (c : ChatToolCall) : result FetchDenied Value :=
  input ← ok_or (value_of (as_bytes (fc_arguments (tc_function c)))) (refused "invalid tool arguments");
  if negb (is_object input) then Err (refused "tool arguments must be an object") else
  Ok (VObject [("id", vstr (tc_id c)); ("input", input); ("name", vstr (fc_name (tc_function c))); ("type", vstr "tool_use")]).

Fixpoint call_blocks (l : list ChatToolCall) : result FetchDenied (list Value) :=
  match l with
  | [] => Ok []
  | c :: l => b ← call_block c; bs ← call_blocks l; Ok (b :: bs)
  end.

Definition opt_str (o : option string) : Value := match o with Some s => VString s | None => Null end.

Definition message_blocks (m : ChatMessage) : result FetchDenied (list Value) :=
  if String.eqb (role m) "tool" then
    Ok [VObject [("content", vstr (default "" (content m))); ("tool_use_id", opt_str (tool_call_id m)); ("type", vstr "tool_result")]]
  else
    let text := match content m with
                | Some t => if str_is_empty t then [] else [VObject [("text", vstr t); ("type", vstr "text")]]
                | None => []
                end in
    calls ← call_blocks (default [] (tool_calls m));
    Ok (text ++ calls).

(** One message of the loop: [system] texts apart, and the messages so far as pairs
    of a role and its blocks; a message of the same role extends the last one. *)
Definition add_message (acc : list string * list (string * list Value)) (m : ChatMessage) :
    result FetchDenied (list string * list (string * list Value)) :=
  let '(system, msgs) := acc in
  if String.eqb (role m) "system" then Ok (system ++ [default "" (content m)], msgs) else
  let r := if String.eqb (role m) "tool" then "user" else role m in
  blocks ← message_blocks m;
  match last msgs with
  | Some (r', bs) =>
      if String.eqb r' r then Ok (system, removelast msgs ++ [(r', bs ++ blocks)])
      else Ok (system, msgs ++ [(r, blocks)])
  | None => Ok (system, msgs ++ [(r, blocks)])
  end.

Fixpoint add_messages (acc : list string * list (string * list Value)) (l : list ChatMessage) :
    result FetchDenied (list string * list (string * list Value)) :=
  match l with
  | [] => Ok acc
  | m :: l => acc ← add_message acc m; add_messages acc l
  end.

Definition message_json (m : string * list Value) : Value := VObject [("content", VArray m.2); ("role", vstr m.1)].
Definition tool_json (t : ChatTool) : Value :=
  VObject [("description", vstr (f_description (t_function t))); ("input_schema", f_parameters (t_function t));
           ("name", vstr (f_name (t_function t)))].

Definition provider_request (body : Value) (p : ModelProtocol) : result FetchDenied Value :=
  match p with
  | OpenaiChat => Ok body
  | AnthropicMessages =>
      chat ← ok_or (chat_of body) (refused "invalid chat request");
      '(system, msgs) ← add_messages ([], []) (messages chat);
      let out := [("max_tokens", vnum (max_tokens chat)); ("messages", VArray (message_json <$> msgs));
                  ("model", vstr (ch_model chat)); ("stream", VBool false)] in
      let out := match system with [] => out | _ => oinsert "system" (vstr (join blank_line system)) out end in
      let out := match tools chat with
                 | Some l =>
                     if bool_decide (tool_choice chat = Some "none") then out else
                     let choice := if bool_decide (tool_choice chat = Some "required") then "any" else "auto" in
                     oinsert "tool_choice" (VObject [("type", vstr choice)]) (oinsert "tools" (VArray (tool_json <$> l)) out)
                 | None => out
                 end in
      Ok (VObject out)
  end.

Definition outgoing_body (body : Value) (grant : JsonPostGrant) : result FetchDenied Value :=
  out ← provider_request body (protocol grant);
  match merge to_vec_map display out (parameters grant) with
  | (Ok _, out) => Ok out
  | (Err _, _) => Err (refused "operator model parameters collide with the provider request; nothing sent")
  end.

(** ** The provider's answer *)

Definition add_block (acc : string * list Value) (block : Value) : result FetchDenied (string * list Value) :=
  let '(text, calls) := acc in
  match as_str (vget "type" block) with
  | Some "text" => t ← ok_or (as_str (vget "text" block)) (refused "invalid provider text"); Ok ((text ++ t)%string, calls)
  | Some "tool_use" =>
      id ← ok_or (as_str (vget "id" block)) (refused "missing tool id");
      name ← ok_or (as_str (vget "name" block)) (refused "missing tool name");
      if negb (is_object (vget "input" block)) then Err (refused "invalid tool input") else
      Ok (text, calls ++ [VObject [("function", VObject [("arguments", vstr (render (vget "input" block))); ("name", vstr name)]);
                                   ("id", vstr id); ("type", vstr "function")]])
  | Some "thinking" | Some "redacted_thinking" => Ok (text, calls)
  | _ => Err (refused "unsupported provider content block")
  end.

Fixpoint add_blocks (acc : string * list Value) (l : list Value) : result FetchDenied (string * list Value) :=
  match l with
  | [] => Ok acc
  | b :: l => acc ← add_block acc b; add_blocks acc l
  end.

Definition finish_reason (v : Value) : result FetchDenied string :=
  match as_str v with
  | Some "tool_use" => Ok "tool_calls"
  | Some "max_tokens" => Ok "length"
  | Some "end_turn" | Some "stop_sequence" => Ok "stop"
  | _ => Err (refused "unsupported provider stop reason")
  end.

Definition provider_response (raw : bytes) (p : ModelProtocol) : result FetchDenied bytes :=
  match p with
  | OpenaiChat => Ok raw
  | AnthropicMessages =>
      response ← ok_or (value_of raw) (refused "invalid provider response");
      blocks ← ok_or (match vget "content" response with VArray l => Some l | _ => None end)
                 (refused "provider response has no content");
      '(text, calls) ← add_blocks ("", []) blocks;
      let message := [("content", vstr text); ("role", vstr "assistant")] in
      let message := match calls with [] => message | _ => oinsert "tool_calls" (VArray calls) message end in
      finish ← finish_reason (vget "stop_reason" response);
      let input := default 0 (as_u64 (vget "input_tokens" (vget "usage" response))) in
      let output := default 0 (as_u64 (vget "output_tokens" (vget "usage" response))) in
      ok_or (to_vec (VObject
        [("choices", VArray [VObject [("finish_reason", vstr finish); ("index", vnum 0); ("message", VObject message)]]);
         ("usage", VObject [("completion_tokens", vnum output); ("prompt_tokens", vnum input);
                            ("total_tokens", vnum (Z.min (input + output) u64_max))])]))
        (refused "invalid normalized response")
  end.

(** ** Requests *)

Context (net : Net) (policy : HttpPolicy) (mediated : bool) (current : option nat).

(** [NamedTempFile::new()] and the writes to it. *)
Definition staged (reason : string) : M unit :=
  n ← tick; lift (match stage net n with Some _ => Err (refused reason) | None => Ok tt end).

Definition header_value (token : bytes) (p : ModelProtocol) : bytes :=
  match p with
  | OpenaiChat => as_bytes "Authorization: Bearer " ++ token
  | AnthropicMessages => as_bytes "x-api-key: " ++ token ++ [x0a] ++ as_bytes "anthropic-version: 2023-06-01"
  end.
Definition is_ascii_graphic : byte -> bool := in_range 33 126.

Definition credential_token (contents : bytes) : result FetchDenied bytes :=
  let b := take 4097 contents in
  if negb (utf8_valid b) then Err (refused "invalid provider credential") else
  let token := trim b in
  if (4096 <? blen b) || (blen token <? 24) || negb (forallb is_ascii_graphic token)
  then Err (refused "invalid provider credential") else Ok token.

Definition credential_header (path : string) (p : ModelProtocol) : M bytes :=
  n ← tick;
  contents ← lift (ok_or (token_file net n path) (refused "provider credential unavailable"));
  token ← lift (credential_token contents);
  _ ← staged "credential staging failed";
  _ ← staged "credential staging failed";
  mret (header_value token p ++ [x0a]).

Definition grant_for (r : Request) : option JsonPostGrant :=
  List.find (fun g => String.eqb (url g) (r_url r)) (json_posts policy).

(** [self.policy.timeout.as_secs().max(1)] is the [--max-time] of a post. *)
Definition run_curl (c : Call) (reason failed : string) : M CurlOut :=
  _ ← connect c;
  n ← tick;
  out ← lift (map_err (fun _ => refused reason) (curl net n c));
  _ ← require (success out) (refused failed);
  mret out.

Definition response_status (out : CurlOut) : result FetchDenied Z :=
  h ← ok_or (headers out) (refused "invalid response headers");
  fst <$> ok_or (response_status_and_location h) (refused "missing HTTP response headers").

Definition post_plain (r : Request) : M bytes :=
  grant ← lift (ok_or (post policy) (refused "JSON POST endpoint not granted"));
  host ← lift (ok_or (url_host (r_url r)) Authority);
  _ ← require (host_allowed (p_allow_hosts grant) host) (Host host);
  s ← state;
  _ ← require (negb (p_max_requests grant <=? post_used s)) Budget;
  body ← lift (ok_or (to_vec (r_body r)) (refused "request staging failed"));
  _ ← require (negb (p_max_body_bytes grant <? blen body)) (refused "POST body exceeds byte budget");
  at_ ← authorize net policy current (r_url r) (Tool (p_allow_hosts grant));
  _ ← spend_post;
  _ ← staged "request staging failed";
  _ ← staged "request staging failed";
  _ ← staged "response staging failed";
  out ← run_curl (mkCall PlainPost (r_url r) (Some at_) false false None (Some body) 0 (p_timeout grant)
                    (p_max_response_bytes grant))
          "JSON POST interrupted or unavailable" "JSON POST failed";
  _ ← require (negb (p_max_response_bytes grant <? blen (stdout out))) (refused "response exceeded byte budget");
  status ← lift (response_status out);
  lift (ok_or (to_vec (VObject [("content", vstr (from_utf8 (from_utf8_lossy (stdout out)))); ("status", vnum status)]))
          (refused "response encoding failed")).

Definition check_cancelled : M unit := fun s =>
  let '(a, s) := check_current current s in
  (map_err (fun _ => refused "mediated model invocation cancelled") a, s).

(** The relay's branch: the gateway's transport, without a destination. *)
Definition post_relay (grant : JsonPostGrant) (r : Request) (tokens next : Z) : M bytes :=
  _ ← check_cancelled;
  out ← lift (outgoing_body (r_body r) grant);
  body ← lift (ok_or (to_vec out) (refused "invalid mediated model request"));
  _ ← require (negb (262144 <? blen body)) (refused "mediated model request too large");
  _ ← spend_model (r_url r) next;
  _ ← connect (mkCall Relay (r_url r) None false false None (Some body) tokens 0 0);
  n ← tick;
  raw ← lift (map_err (fun e => match e with Budget => Budget | _ => refused "mediated model invocation failed" end)
                (invoke net n body));
  _ ← check_cancelled;
  _ ← require (negb (max_response_bytes policy <? blen raw)) (refused "mediated model response too large");
  response ← lift (map_err (fun _ => refused "invalid mediated model response") (provider_response raw (protocol grant)));
  _ ← require (negb (max_response_bytes policy <? blen response)) (refused "mediated model response too large");
  mret response.

Definition post_direct (grant : JsonPostGrant) (r : Request) (tokens next : Z) : M bytes :=
  at_ ← authorize net policy current (r_url r) Model;
  _ ← spend_model (r_url r) next;
  header ← credential_header (bearer_token_file grant) (protocol grant);
  _ ← staged "request staging failed";
  out ← lift (outgoing_body (r_body r) grant);
  body ← lift (ok_or (to_vec out) (refused "request staging failed"));
  _ ← staged "request staging failed";
  _ ← staged "response staging failed";
  out ← run_curl (mkCall ModelPost (r_url r) (Some at_) (allow_insecure policy)
                    (allow_insecure policy && String.eqb (a_scheme at_) "https") (Some header) (Some body) tokens
                    (timeout policy) (max_response_bytes policy))
          "HTTPS POST interrupted or unavailable" "HTTPS POST failed";
  _ ← require (negb (max_response_bytes policy <? blen (stdout out))) (refused "response exceeded byte budget");
  status ← lift (response_status out);
  _ ← require ((200 <=? status) && (status <? 300)) (refused ("HTTP " ++ pretty.pretty status ++ "; POST not replayed"));
  normalized ← lift (provider_response (stdout out) (protocol grant));
  _ ← require (negb (max_response_bytes policy <? blen normalized)) (refused "normalized response exceeded byte budget");
  mret normalized.

Definition post_json (raw : string) : M bytes :=
  request ← lift (parse raw);
  match grant_for request with
  | None => post_plain request
  | Some grant =>
      tokens ← lift (validate_chat (r_body request) grant);
      _ ← lift (map_err (fun _ => refused "operator model parameters violate host policy")
                  (validate to_vec_map display (parameters grant)));
      s ← state;
      let spent := if is_Some_bool (get policy) then used s - get_used s else used s in
      _ ← require (negb (max_requests policy <=? spent)) Budget;
      let reserved := default 0 (post_output_reserved s !! r_url request) in
      next ← lift (ok_or (total ← checked_add_u64 reserved tokens;
                          if total <=? max_total_output_tokens grant then Some total else None)
                     (refused "model cumulative output budget exhausted"));
      if mediated then post_relay grant request tokens next else post_direct grant request tokens next
  end.

(** ** [fetch] *)

Context (ws_request_of : string -> option Broker.Request).

Definition ask_workspace (grant : Broker.Grant) (raw : string) : M bytes := fun s =>
  let '(r, h) := Broker.request ws_request_of to_vec grant raw (heap s) in
  (map_err Fetch r, set_heap s h).
Definition workspace_request (raw : string) : M bytes :=
  grant ← lift (ok_or (workspace policy) (Fetch "workspace access not granted"));
  ask_workspace grant raw.

Definition fetch (raw : string) : M bytes :=
  if 32768 <? str_len raw then fail (Fetch "request exceeds broker wire budget") else
  if starts_with "{" raw then
    value ← lift (ok_or (value_of (as_bytes raw)) (Fetch "invalid broker request"));
    if bool_decide (as_str (vget "apiVersion" value) = Some "celln.workspace/v1") then workspace_request raw
    else post_json raw
  else get_hops net policy current 6 raw.

(** A cell's requests, with whatever else happens to the shared heap in between. *)
Inductive op : Type := OFetch (raw : string) | OHeap (h : Broker.Heap).
Definition step (s : HttpBroker) (o : op) : HttpBroker :=
  match o with OFetch raw => (fetch raw s).2 | OHeap h => set_heap s h end.
Definition run (s : HttpBroker) (ops : list op) : HttpBroker := foldl step s ops.
End post.

(** ** The provider's conversation *)

Section provider.
Context (chat_of : Value -> option ChatRequest) (value_of : bytes -> option Value).

Definition alternating (msgs : list (string * list Value)) : Prop :=
  forall i m m', msgs !! i = Some m -> msgs !! S i = Some m' -> m.1 <> m'.1.

(** What one message of the guest contributes to the conversation. *)
Definition contributes (m : ChatMessage) (bs : list Value) : Prop :=
  if String.eqb (role m) "system" then bs = [] else message_blocks value_of m = Ok bs.
Definition system_texts (l : list ChatMessage) : list string :=
  (fun m => default "" (content m)) <$> filter (fun m => role m = "system") l.

Lemma last_split {A} (l : list A) a : last l = Some a -> l = removelast l ++ [a].
Proof.
  induction l as [|x l IH]; [done|]. destruct l as [|y l]; [by intros [= ->]|]. intros H. cbn [removelast app].
  f_equal. by apply IH.
Qed.

Lemma alternating_snoc msgs m :
  alternating msgs -> (forall m', last msgs = Some m' -> m'.1 <> m.1) -> alternating (msgs ++ [m]).
Proof.
  intros Ha Hl i x y Hx Hy. assert (Hi : (S i < length (msgs ++ [m]))%nat) by by eapply lookup_lt_Some.
  rewrite length_app in Hi. cbn in Hi. rewrite lookup_app_l in Hx by lia.
  destruct (decide (S i < length msgs)%nat) as [Hlt|Hge].
  - rewrite lookup_app_l in Hy by done. by eapply Ha.
  - assert (E : S i = length msgs) by lia. rewrite E, list_lookup_middle in Hy by done. injection Hy as <-.
    apply Hl. rewrite last_lookup, <- E. done.
Qed.

Lemma alternating_same msgs r bs bs' : alternating (msgs ++ [(r, bs)]) -> alternating (msgs ++ [(r, bs')]).
Proof.
  intros Ha i x y Hx Hy.
  assert (H : forall j z, (msgs ++ [(r, bs')]) !! j = Some z -> exists z', (msgs ++ [(r, bs)]) !! j = Some z' /\ z'.1 = z.1).
  { intros j z [Hz|[Hge Hz]]%lookup_app_Some.
    - exists z. by rewrite lookup_app_l by by eapply lookup_lt_Some.
    - exists (r, bs). rewrite lookup_app_r by done. by destruct (j - length msgs)%nat as [|[]]; [injection Hz as <-|..]. }
  apply H in Hx as (x' & Hx & <-). apply H in Hy as (y' & Hy & <-). by eapply Ha.
Qed.

Lemma add_message_spec system msgs m system' msgs' :
  add_message value_of (system, msgs) m = Ok (system', msgs') -> alternating msgs ->
  alternating msgs' /\ system' = system ++ system_texts [m] /\
  exists bs, contributes m bs /\ concat msgs'.*2 = concat msgs.*2 ++ bs.
Proof.
  unfold add_message, contributes, system_texts. destruct (String.eqb_spec (role m) "system") as [Hr|Hr]; intros H Ha.
  { injection H as <- <-. rewrite filter_cons_True by done. split; [done|]. split; [done|]. exists []. by rewrite app_nil_r. }
  rewrite filter_cons_False by done. rewrite filter_nil. cbn [fmap list_fmap]. rewrite app_nil_r.
  set (r := if String.eqb (role m) "tool" then _ else _) in H.
  apply result_bind_Ok in H as (bs & Hb & H).
  assert (Hnew : alternating (msgs ++ [(r, bs)]) -> system' = system -> msgs' = msgs ++ [(r, bs)] ->
    alternating msgs' /\ system' = system /\ exists bs', message_blocks value_of m = Ok bs' /\ concat msgs'.*2 = concat msgs.*2 ++ bs').
  { intros Hn -> ->. split; [done|]. split; [done|]. exists bs. split; [done|]. rewrite fmap_app, concat_app. cbn. by rewrite app_nil_r. }
  destruct (last msgs) as [[r' bs0]|] eqn:Hlast.
  - destruct (String.eqb_spec r' r) as [->|Hne]; injection H as <- <-.
    + apply last_split in Hlast. split; [rewrite Hlast in Ha; by eapply alternating_same|]. split; [done|].
      exists bs. split; [done|]. rewrite Hlast at 2. rewrite !fmap_app, !concat_app. cbn. by rewrite !app_nil_r, app_assoc.
    + apply Hnew; [|done..]. apply alternating_snoc; [done|]. rewrite Hlast. by intros m' [= <-].
  - injection H as <- <-. apply Hnew; [|done..]. apply alternating_snoc; [done|]. by rewrite Hlast.
Qed.

Lemma add_messages_spec l : forall system msgs system' msgs',
  add_messages value_of (system, msgs) l = Ok (system', msgs') -> alternating msgs ->
  alternating msgs' /\ system' = system ++ system_texts l /\
  exists bss, Forall2 contributes l bss /\ concat msgs'.*2 = concat msgs.*2 ++ concat bss.
Proof.
  induction l as [|m l IH]; intros system msgs system' msgs' H Ha; cbn in H.
  { injection H as <- <-. split; [done|]. split; [by rewrite app_nil_r|]. exists []. by rewrite app_nil_r. }
  apply result_bind_Ok in H as ([system1 msgs1] & Hm & H).
  apply add_message_spec in Hm as (Ha1 & -> & bs & Hb & Hc); [|done].
  apply IH in H as (Ha' & -> & bss & Hbs & Hc'); [|done]. split; [done|]. split.
  - unfold system_texts. change (m :: l) with ([m] ++ l). by rewrite filter_app, fmap_app, app_assoc.
  - exists (bs :: bss). split; [by constructor|]. by rewrite Hc', Hc, <- app_assoc.
Qed.

(** The conversation sent to a Messages provider is the guest's: no two adjacent
    messages have the same role, their blocks are the blocks of the guest's messages
    in order, nothing lost or added, the system texts are collected apart, and the
    model and the token ceiling are the validated ones. *)
Theorem provider_conversation (body : Value) (chat : ChatRequest) (out : Value) :
  chat_of body = Some chat -> provider_request chat_of value_of body AnthropicMessages = Ok out ->
  exists o msgs bss, out = VObject o /\
    oget "messages" o = Some (VArray (message_json <$> msgs)) /\ alternating msgs /\
    Forall2 contributes (messages chat) bss /\ concat msgs.*2 = concat bss /\
    oget "model" o = Some (vstr (ch_model chat)) /\ oget "max_tokens" o = Some (vnum (max_tokens chat)) /\
    oget "system" o = match system_texts (messages chat) with [] => None | l => Some (vstr (join blank_line l)) end.
Proof.
  intros Hc H. unfold provider_request in H. rewrite Hc in H. cbn [ok_or mbind result_bind] in H.
  apply result_bind_Ok in H as ([system msgs] & Hm & H). apply add_messages_spec in Hm as (Ha & -> & bss & Hb & Hcc); [|by intros ??].
  injection H as <-. eexists _, msgs, bss. split; [done|]. cbn [app].
  destruct (tools chat) as [l|]; [case_bool_decide|]; destruct (system_texts (messages chat)); cbn [app];
    rewrite ?oget_oinsert; cbn [oget String.eqb Ascii.eqb Bool.eqb andb]; done.
Qed.
End provider.
