(* ===== verification/EgressLaws.v ===== *)
(** * What leaves the host ([egress.rs], [egress_post.rs])

    Properties of every history of requests of a cell, proved by a weakest
    precondition over the broker's ledger: its counters and the trace of the
    connections it asked for. *)

From Stdlib Require Import Btauto.
From S2P Require Import Prelude Text Json Manifest ModelParams Egress EgressPost.
From S2P Require Control Broker.

(** ** Public addresses *)

(** The blocks the comment of [is_public_v4] lists. *)
Definition address (a b c d : Z) : Z := a * 16777216 + b * 65536 + c * 256 + d.
Definition reserved_blocks : list (Z * Z) :=
  [(address 0 0 0 0, 8); (address 10 0 0 0, 8); (address 100 64 0 0, 10); (address 127 0 0 0, 8);
   (address 169 254 0 0, 16); (address 172 16 0 0, 12); (address 192 0 0 0, 16); (address 192 88 99 0, 24);
   (address 192 168 0 0, 16); (address 198 18 0 0, 15); (address 198 51 100 0, 24); (address 203 0 113 0, 24);
   (address 224 0 0 0, 3)].
Definition in_block (ip : Z) (block : Z * Z) : bool := Z.shiftr ip (32 - block.2) =? Z.shiftr block.1 (32 - block.2).
Definition octet (x : Z) : Prop := 0 <= x <= 255.

Lemma shiftr_is x n q : 0 <= n -> (Z.shiftr x n =? q) = (q * 2 ^ n <=? x) && (x <? (q + 1) * 2 ^ n).
Proof.
  intros. rewrite Z.shiftr_div_pow2 by lia. assert (0 < 2 ^ n) by (apply Z.pow_pos_nonneg; lia).
  apply eq_iff_eq_true. rewrite andb_true_iff, Z.eqb_eq, Z.leb_le, Z.ltb_lt. split.
  - intros <-. pose proof (Z.mul_div_le x (2 ^ n)). pose proof (Z.mul_succ_div_gt x (2 ^ n)). lia.
  - intros [Hl Hu]. symmetry. apply (Z.div_unique _ _ _ (x - q * 2 ^ n)); lia.
Qed.

(** A block of the list is a pattern of the function. *)
Ltac one_block :=
  intros; unfold in_block; cbn [fst snd];
  match goal with |- (Z.shiftr ?x ?n =? Z.shiftr ?y ?n) = ?r =>
    let m := eval vm_compute in n in let q := eval vm_compute in (Z.shiftr y n) in
    change ((Z.shiftr x m =? q) = r); rewrite (shiftr_is x m q) by lia;
    let k := eval vm_compute in (2 ^ m) in change (2 ^ m) with k end;
  unfold address; apply eq_iff_eq_true; rewrite ?andb_true_iff, ?orb_true_iff, ?andb_true_iff, ?Z.leb_le, ?Z.ltb_lt, ?Z.eqb_eq; lia.

Lemma blocks_match a b c d :
  octet a -> octet b -> octet c -> octet d ->
  (in_block (address a b c d) <$> reserved_blocks) =
  [a =? 0; a =? 10; (a =? 100) && ((64 <=? b) && (b <=? 127)); a =? 127; (a =? 169) && (b =? 254);
   (a =? 172) && ((16 <=? b) && (b <=? 31)); (a =? 192) && (b =? 0); (a =? 192) && ((b =? 88) && (c =? 99));
   (a =? 192) && (b =? 168); (a =? 198) && ((b =? 18) || (b =? 19)); (a =? 198) && ((b =? 51) && (c =? 100));
   (a =? 203) && ((b =? 0) && (c =? 113)); (224 <=? a) && (a <=? 255)].
Proof. unfold octet. intros. unfold reserved_blocks. cbn [fmap list_fmap]. repeat (apply (f_equal2 cons); [one_block|]). done. Qed.

(** The octets are bytes; no block contains the address. *)
Definition public_ip (i : Ip) : Prop :=
  match i with
  | V4 a b c d => octet a -> octet b -> octet c -> octet d -> Forall (fun block => in_block (address a b c d) block = false) reserved_blocks
  | V6 => False
  end.
Definition v4 (i : Ip) : Prop := match i with V4 _ _ _ _ => True | V6 => False end.

Lemma blocks_spec a b c d : octet a -> octet b -> octet c -> octet d ->
  is_public_v4 a b c d = negb (existsb (in_block (address a b c d)) reserved_blocks).
Proof.
  intros Ha Hb Hc Hd. unfold is_public_v4. f_equal.
  transitivity (existsb id (in_block (address a b c d) <$> reserved_blocks));
    [|by induction reserved_blocks as [|x l IH]; cbn; [|rewrite <- IH]].
  rewrite blocks_match by done. cbn [existsb id]. unfold id. rewrite orb_false_r.
  rewrite (andb_orb_distrib_r (a =? 192)), <- !andb_assoc, !orb_assoc.
  repeat match goal with |- context [?x =? ?y] => let e := fresh "e" in set (e := x =? y) end.
  clear. repeat match goal with e := _ : bool |- _ => clearbody e end. btauto.
Qed.

Lemma is_public_spec a b c d : is_public_v4 a b c d = true -> public_ip (V4 a b c d).
Proof.
  intros Hp Ha Hb Hc Hd. rewrite blocks_spec, negb_true_iff in Hp by done. apply Forall_forall. intros block Hin.
  apply not_true_iff_false. intros Ht. assert (existsb (in_block (address a b c d)) reserved_blocks = true); [|congruence].
  apply existsb_exists. exists block. split; [by apply list_elem_of_In|done].
Qed.

(** An address passes exactly when it lies in none of the blocks the documentation
    lists, for all the 2^32 addresses. *)
Theorem public_v4_blocks (a b c d : Z) :
  octet a -> octet b -> octet c -> octet d ->
  is_public_v4 a b c d = negb (existsb (in_block (address a b c d)) reserved_blocks).
Proof. apply blocks_spec. Qed.

(** ** Destinations *)

(** The host and the port that a URL names. *)
Definition names (raw scheme host : string) (port : Z) : Prop :=
  exists authority tail name, raw = (scheme ++ "://" ++ authority ++ tail)%string /\
    (tail = "" \/ exists t, tail = String "/" t) /\ has_char "/" authority = false /\ has_char "@" authority = false /\
    host = to_ascii_lowercase name /\ host <> "" /\
    (authority = name /\ has_char ":" name = false /\ port = (if String.eqb scheme "https" then 443 else 80) \/
     exists p, authority = (name ++ String ":" p)%string /\ has_char ":" p = false /\ parse_u16 p = Some port /\ port <> 0).

(** A host on a list, in any case; and what a list of a web grant admits. *)
Definition lists (hosts : list string) (host : string) : Prop :=
  exists h, h ∈ hosts /\ h <> ANY_PUBLIC_HOST /\ to_ascii_lowercase h = to_ascii_lowercase host.
Definition admits (hosts : list string) (host : string) : Prop :=
  host <> "" /\ (hosts = [ANY_PUBLIC_HOST] \/ lists hosts host).

Lemma lists_spec hosts host :
  existsb (fun h => negb (String.eqb h ANY_PUBLIC_HOST) && eq_ignore_ascii_case h host) hosts = true -> lists hosts host.
Proof.
  intros (h & Hin & Hh)%existsb_exists. apply andb_true_iff in Hh as [Hn He]. apply negb_true_iff, String.eqb_neq in Hn.
  apply String.eqb_eq in He. exists h. split; [by apply list_elem_of_In|done].
Qed.

Lemma admits_spec hosts host : host_allowed hosts host = true -> admits hosts host.
Proof.
  unfold host_allowed, admits. destruct (str_is_empty host) eqn:He; [done|]. intros H.
  assert (Hne : host <> "") by (intros ->; done). split; [done|].
  destruct (match hosts with [h] => _ | _ => _ end) eqn:Ea; [left|right; by apply lists_spec].
  destruct hosts as [|h [|]]; try done. by apply String.eqb_eq in Ea as ->.
Qed.

Lemma before_char_spec c s : exists tail, s = (before_char c s ++ tail)%string /\ (tail = "" \/ exists t, tail = String c t) /\
  has_char c (before_char c s) = false.
Proof.
  induction s as [|a s (tail & IH & Ht & Hn)]; [exists ""; by split; [|split; [left|]]|]. cbn.
  destruct (Ascii.eqb_spec a c) as [->|Hne].
  - exists (String c s). split; [done|]. split; [right; by eexists|done].
  - exists tail. cbn. split; [exact (f_equal (String a) IH)|]. split; [done|]. rewrite Hn. by destruct (Ascii.eqb_spec a c).
Qed.

Lemma rsplit_once_spec c s : match rsplit_once c s with
  | Some (h, t) => s = (h ++ String c t)%string /\ has_char c t = false
  | None => has_char c s = false
  end.
Proof.
  induction s as [|a s IH]; [done|]. cbn. destruct (rsplit_once c s) as [[h t]|].
  - destruct IH as [-> Ht]. done.
  - destruct (Ascii.eqb_spec a c) as [->|Hne]; [done|]. done.
Qed.

(** ** The ledger of a broker, and weakest preconditions over it *)

Record Ledger : Type := mkLedger {
  l_used : Z;
  l_get : Z;
  l_post : Z;
  l_reserved : gmap string Z;
  l_conns : list Call;
}.
Definition ledger (s : HttpBroker) : Ledger :=
  mkLedger (used s) (get_used s) (post_used s) (post_output_reserved s) (conns s).

(** [m] ends with [Q], or with an error and [I] of the ledger. *)
Definition ewp {A} (I : Ledger -> Prop) (m : M A) (Q : A -> HttpBroker -> Prop) (s : HttpBroker) : Prop :=
  match m s with (Ok a, s') => Q a s' | (Err _, s') => I (ledger s') end.

(** [m] only asks the environment and the heap. *)
Definition quiet {A} (m : M A) : Prop := forall s, ledger (m s).2 = ledger s.

Section ewp.
Context {A B : Type} (I : Ledger -> Prop).
Implicit Types (Q : A -> HttpBroker -> Prop) (R : B -> HttpBroker -> Prop) (s : HttpBroker).

Lemma ewp_bind (m : M A) (f : A -> M B) R s :
  ewp I m (fun a => ewp I (f a) R) s -> ewp I (m ≫= f) R s.
Proof. unfold ewp, mbind, M_bind. by destruct (m s) as [[a|e] s']. Qed.

Lemma ewp_ret (a : A) Q s : Q a s -> ewp I (mret a) Q s.
Proof. done. Qed.
Lemma ewp_lift (r : result FetchDenied A) Q s :
  I (ledger s) -> (forall a, r = Ok a -> Q a s) -> ewp I (lift r) Q s.
Proof. unfold ewp, lift. destruct r; auto. Qed.
Lemma ewp_fail (e : FetchDenied) Q s : I (ledger s) -> ewp I (fail e) Q s.
Proof. done. Qed.
Lemma ewp_quiet (m : M A) Q s :
  quiet m -> I (ledger s) -> (forall a s', m s = (Ok a, s') -> ledger s' = ledger s -> Q a s') -> ewp I m Q s.
Proof. intros Hm HI HQ. specialize (Hm s). unfold ewp. destruct (m s) as [[a|e] s']; cbn in Hm; [auto|congruence]. Qed.

Lemma quiet_bind (m : M A) (f : A -> M B) : quiet m -> (forall a, quiet (f a)) -> quiet (m ≫= f).
Proof.
  intros Hm Hf s. unfold mbind, M_bind. specialize (Hm s). destruct (m s) as [[a|e] s']; cbn in *; [|done].
  by rewrite Hf.
Qed.
Lemma quiet_lift (r : result FetchDenied A) : quiet (lift r).
Proof. done. Qed.
End ewp.

Lemma ewp_require I c e (Q : unit -> HttpBroker -> Prop) s :
  I (ledger s) -> (c = true -> Q tt s) -> ewp I (require c e) Q s.
Proof. unfold ewp, require, lift, ensure. destruct c; auto. Qed.
Lemma quiet_require c e : quiet (require c e).
Proof. done. Qed.
Lemma quiet_tick : quiet tick.
Proof. done. Qed.
Lemma quiet_ret {A} (a : A) : quiet (mret a).
Proof. done. Qed.
Lemma quiet_check current : quiet (check_current current).
Proof. intros s. unfold check_current. by destruct (Control.check_current _ _). Qed.
Lemma quiet_cancelled current : quiet (check_cancelled current).
Proof. intros s. unfold check_cancelled. pose proof (quiet_check current s) as H. by destruct (check_current _ _). Qed.

Create HintDb egress.
#[export] Hint Resolve quiet_bind quiet_lift quiet_require quiet_tick quiet_ret quiet_check quiet_cancelled : egress.

Ltac quiet :=
  repeat first [ progress intros | progress eauto with egress | apply quiet_bind
               | match goal with |- quiet (match ?x with _ => _ end) => destruct x end ].

Lemma ewp_conseq {A} I (m : M A) (Q Q' : A -> HttpBroker -> Prop) s :
  ewp I m Q s -> (forall a s', Q a s' -> Q' a s') -> ewp I m Q' s.
Proof. unfold ewp. destruct (m s) as [[a|e] s']; auto. Qed.

Section laws.
Context (net : Net) (policy : HttpPolicy) (current : option nat).

Lemma quiet_resolve host port : quiet (resolve net current host port).
Proof. unfold resolve. destruct current; by quiet. Qed.

Lemma quiet_authorize raw reach : quiet (authorize net policy current raw reach).
Proof. unfold authorize. pose proof quiet_resolve. by quiet. Qed.

(** What a destination admits. *)
Definition open (reach : Reach) : bool := match reach with Model => allow_insecure policy | Tool _ => false end.
Definition entitled (reach : Reach) (host : string) : Prop :=
  match reach with Model => lists (allow_hosts policy) host | Tool hosts => admits hosts host end.

Lemma destination_spec raw reach scheme host port :
  destination policy raw reach = Ok (scheme, host, port) ->
  names raw scheme host port /\ (scheme = "https" \/ open reach = true) /\ (open reach = false -> port = 443) /\ entitled reach host.
Proof.
  unfold destination. fold (open reach). intros ([sch rest] & Hs & H)%result_bind_Ok.
  assert (Hraw : raw = (sch ++ "://" ++ rest)%string /\ (sch = "https" \/ open reach = true)).
  { destruct (strip_prefix "https://" raw) as [r|] eqn:E1; [injection Hs as <- <-; apply strip_prefix_Some in E1; by split; [|left]|].
    destruct (open reach); [|done]. apply result_bind_Ok in Hs as (r & Hr%ok_or_Ok & [= <- <-]). apply strip_prefix_Some in Hr. by split; [|right]. }
  destruct Hraw as [-> Hsch]. cbv zeta in H. destruct (before_char_spec "/" rest) as (tail & Ht & Htail & Hslash).
  set (authority := before_char "/" rest) in *. clearbody authority. subst rest.
  destruct (str_is_empty authority || has_char "@" authority) eqn:Ea; [done|]. apply orb_false_iff in Ea as [Hne Hat].
  apply result_bind_Ok in H as ([h p] & Hh & H). destruct (str_is_empty h || _) eqn:Ep; [done|]. apply orb_false_iff in Ep as [Hh0 Hp].
  assert (Hent : entitled reach h /\ sch = scheme /\ h = host /\ p = port).
  { unfold entitled. destruct reach as [|hosts].
    - destruct (existsb _ _) eqn:El; [|done]. injection H as -> -> ->. split; [by apply lists_spec|done].
    - destruct (host_allowed hosts h) eqn:El; [|done]. injection H as -> -> ->. split; [by apply admits_spec|done]. }
  destruct Hent as (Hent & -> & -> & ->). split; [|split_and!; [done| |done]].
  - assert (Hname : exists name, host = to_ascii_lowercase name /\
      (authority = name /\ has_char ":" name = false /\ port = (if String.eqb scheme "https" then 443 else 80) \/
       exists p, authority = (name ++ String ":" p)%string /\ has_char ":" p = false /\ parse_u16 p = Some port /\ port <> 0)).
    { pose proof (rsplit_once_spec ":" authority) as Hr. destruct (rsplit_once ":" authority) as [[name q]|].
      - destruct Hr as [-> Hq]. apply result_bind_Ok in Hh as (x & Hx%ok_or_Ok & Hh). destruct (Z.eqb_spec x 0); [done|]. injection Hh as <- ->.
        exists name. split; [done|]. right. by exists q.
      - injection Hh as <- <-. exists authority. split; [done|]. by left. }
    destruct Hname as (name & -> & Hname). exists authority, tail, name. split_and!; try done. intros E. by rewrite E in Hh0.
  - intros Ho. rewrite Ho in Hp. cbn in Hp. by apply negb_false_iff, Z.eqb_eq in Hp.
Qed.

(** A resolved destination of a URL. *)
Definition authorized (raw : string) (reach : Reach) (a : Authorized) : Prop :=
  names raw (a_scheme a) (a_host a) (a_port a) /\ entitled reach (a_host a) /\ v4 (a_ip a) /\
  (open reach = false -> a_scheme a = "https" /\ a_port a = 443 /\ public_ip (a_ip a)).

Lemma authorize_spec raw reach s a s' :
  authorize net policy current raw reach s = (Ok a, s') -> authorized raw reach a.
Proof.
  unfold authorize. unfold mbind, M_bind, lift at 1.
  destruct (destination policy raw reach) as [[[scheme host] port]|e] eqn:Hd; [|done].
  destruct (resolve net current host port s) as [[l|e] s1]; [|done]. unfold lift.
  fold (open reach).
  destruct (if open reach then find_v4 l else find_public l) as [i|] eqn:Hf; [|done]. cbn.
  intros [= <- _]. apply destination_spec in Hd as (Hn & Hs & Hp & He). split; [done|]. split; [done|]. cbn [a_ip a_scheme a_port].
  destruct (open reach); apply List.find_some in Hf as [_ Hf]; destruct i as [a b c d|]; try done; (split; [done|]).
  intros _. split; [by destruct Hs|]. split; [by apply Hp|]. by apply is_public_spec.
Qed.
(** ** What a connection may be *)

Context (chat_of : Value -> option ChatRequest) (request_of : string -> option Request).
Context (value_of : bytes -> option Value) (to_vec : Value -> option bytes) (to_vec_map : Map -> option bytes).
Context (render : Value -> string) (display : Z -> string) (mediated : bool).
Context (ws_request_of : string -> option Broker.Request).

(** An HTTPS connection to port 443 of a public address, whose host the list admits,
    with a verified certificate and no credential. *)
Definition tool_call (hosts : list string) (c : Call) : Prop :=
  c_http c = false /\ c_insecure c = false /\ c_header c = None /\
  exists a, c_at c = Some a /\ names (c_url c) "https" (a_host a) 443 /\ a_scheme a = "https" /\ a_port a = 443 /\
    admits hosts (a_host a) /\ public_ip (a_ip a).

(** A request of the guest's for this URL, and its body. *)
Definition asked (u : string) (body : Value) : Prop :=
  exists raw r, request_of raw = Some r /\ r_url r = u /\ r_body r = body.

(** The body of a model request: the guest's, as the grant admits it, with the
    operator's parameters. *)
Definition model_body (g : JsonPostGrant) (c : Call) : Prop :=
  g ∈ json_posts policy /\ url g = c_url c /\
  exists body out, asked (c_url c) body /\ validate_chat chat_of body g = Ok (c_tokens c) /\
    outgoing_body chat_of value_of to_vec_map display body g = Ok out /\ c_body c = to_vec out /\ is_Some (c_body c).

Definition allowed (c : Call) : Prop :=
  match c_kind c with
  | Get => c_body c = None /\
      tool_call (match get policy with Some g => g_allow_hosts g | None => allow_hosts policy end) c
  | PlainPost => exists g body b, post policy = Some g /\ tool_call (p_allow_hosts g) c /\
      asked (c_url c) body /\ to_vec body = Some b /\ c_body c = Some b /\ blen b <= p_max_body_bytes g
  | ModelPost => mediated = false /\ exists g a n contents token,
      model_body g c /\ c_at c = Some a /\ authorized (c_url c) Model a /\
      c_http c = allow_insecure policy /\ (c_insecure c = true -> allow_insecure policy = true) /\
      token_file net n (bearer_token_file g) = Some contents /\ credential_token contents = Ok token /\
      c_header c = Some (header_value token (protocol g) ++ [x0a])
  | Relay => mediated = true /\ c_at c = None /\ c_header c = None /\
      exists g, model_body g c /\ default 0 (blen <$> c_body c) <= 262144
  end.

(** ** Budgets *)

Definition is_get (c : Call) : bool := match c_kind c with Get => true | _ => false end.
Definition is_post (c : Call) : bool := match c_kind c with PlainPost => true | _ => false end.
Definition is_model (c : Call) : bool := match c_kind c with ModelPost | Relay => true | _ => false end.
Definition count (p : Call -> bool) (l : list Call) : Z := Z.of_nat (length (List.filter p l)).
(** The output tokens asked of a model endpoint. *)
Definition tokens (u : string) (l : list Call) : Z :=
  foldr (fun c acc => (if is_model c && String.eqb (c_url c) u then c_tokens c else 0) + acc) 0 l.

Definition total_for (u : string) : Z :=
  match List.find (fun g => String.eqb (url g) u) (json_posts policy) with
  | Some g => max_total_output_tokens g
  | None => 0
  end.

Record spent (l : Ledger) : Prop := mkSpent {
  s_allowed : Forall allowed (l_conns l);
  s_get : count is_get (l_conns l) <= l_get l;
  s_post : count is_post (l_conns l) <= l_post l;
  s_model : count is_model (l_conns l) <= l_used l - l_get l;
  s_tokens : forall u, tokens u (l_conns l) <= default 0 (l_reserved l !! u);
  s_get_limit : match get policy with
                | Some g => l_get l <= Z.max 0 (g_max_requests g) /\ l_used l - l_get l <= Z.max 0 (max_requests policy)
                | None => l_used l <= Z.max 0 (max_requests policy)
                end;
  s_post_limit : l_post l <= Z.max 0 (match post policy with Some g => p_max_requests g | None => 0 end);
  s_total : forall u r, l_reserved l !! u = Some r -> r <= total_for u;
}.

Lemma count_snoc p l c : count p (l ++ [c]) = count p l + (if p c then 1 else 0).
Proof. unfold count. rewrite List.filter_app, length_app. cbn. destruct (p c); cbn; lia. Qed.
Lemma tokens_snoc u l c :
  tokens u (l ++ [c]) = tokens u l + (if is_model c && String.eqb (c_url c) u then c_tokens c else 0).
Proof. induction l as [|x l IH]; cbn; [lia|]. fold (tokens u (l ++ [c])) (tokens u l). rewrite IH. lia. Qed.

Lemma spent_new h : spent (ledger (new_broker h)).
Proof.
  split; cbn; try done; try by rewrite lookup_empty.
  - destruct (get policy); lia.
  - lia.
Qed.

(** Spending, then the one connection it pays for. *)
Definition pays (l l' : Ledger) (k : Call -> Prop) : Prop :=
  spent l' /\ forall c, allowed c -> k c ->
    spent (mkLedger (l_used l') (l_get l') (l_post l') (l_reserved l') (l_conns l' ++ [c])).

Ltac account :=
  split; cbn [l_conns l_used l_get l_post l_reserved]; intros; rewrite ?count_snoc, ?tokens_snoc;
  cbn [is_get is_post is_model c_kind c_url c_tokens andb];
  first [ lia | done | by apply Forall_app_2; [|apply Forall_singleton] | by auto
        | by (destruct (get policy); lia)
        | by (match goal with Ht : forall u, tokens u _ <= _, u : string |- _ => specialize (Ht u); lia end) | idtac ].

Lemma pay_get l :
  spent l -> match get policy with Some g => l_get l < g_max_requests g | None => l_used l < max_requests policy end ->
  pays l (mkLedger (l_used l + 1) (l_get l + 1) (l_post l) (l_reserved l) (l_conns l)) (fun c => c_kind c = Get).
Proof.
  intros [Ha Hg Hp Hm Ht Hgl Hpl Htot] Hlim. split; [account|].
  intros [] Hc Hk. cbn in Hk. subst. account.
Qed.

Lemma pay_post l g :
  spent l -> post policy = Some g -> l_post l < p_max_requests g ->
  pays l (mkLedger (l_used l) (l_get l) (l_post l + 1) (l_reserved l) (l_conns l)) (fun c => c_kind c = PlainPost).
Proof.
  intros [Ha Hg Hp Hm Ht Hgl Hpl Htot] Hpo Hlim. split; [account; rewrite Hpo; lia|].
  intros [] Hc Hk. cbn in Hk. subst. account; rewrite Hpo; lia.
Qed.

Lemma pay_model l g u n next :
  spent l -> (if is_Some_bool (get policy) then l_used l - l_get l else l_used l) < max_requests policy ->
  List.find (fun g => String.eqb (url g) u) (json_posts policy) = Some g ->
  default 0 (l_reserved l !! u) + n = next -> next <= max_total_output_tokens g -> 0 <= n ->
  pays l (mkLedger (l_used l + 1) (l_get l) (l_post l) (<[u := next]> (l_reserved l)) (l_conns l))
    (fun c => (c_kind c = ModelPost \/ c_kind c = Relay) /\ c_url c = u /\ c_tokens c = n).
Proof.
  intros [Ha Hg Hp Hm Ht Hgl Hpl Htot] Hlim Hf Hn Hle H0.
  assert (Hr : forall u', tokens u' (l_conns l) + (if String.eqb u u' then n else 0)
                 <= default 0 (<[u := next]> (l_reserved l) !! u')).
  { intros u'. specialize (Ht u'). destruct (String.eqb_spec u u') as [<-|Hne].
    - rewrite lookup_insert_eq. cbn. lia.
    - rewrite lookup_insert_ne by done. lia. }
  assert (Ht' : forall u' r, <[u := next]> (l_reserved l) !! u' = Some r -> r <= total_for u').
  { intros u' r. rewrite lookup_insert_Some. intros [[<- <-]|[_ H]]; [|by apply Htot]. unfold total_for. by rewrite Hf. }
  assert (Hgl' : match get policy with
                 | Some g => l_get l <= Z.max 0 (g_max_requests g) /\ l_used l + 1 - l_get l <= Z.max 0 (max_requests policy)
                 | None => l_used l + 1 <= Z.max 0 (max_requests policy)
                 end) by (destruct (get policy); cbn in Hlim; lia).
  split.
  - account. specialize (Hr u0). destruct (String.eqb u u0); lia.
  - intros [] Hc (Hk & Hu & Hc'). cbn in Hk, Hu, Hc'. subst. destruct Hk as [-> | ->]; account; apply Hr.
Qed.

(** ** Every request keeps the ledger *)

Notation keeps m := (forall s, spent (ledger s) -> ewp spent m (fun _ s' => spent (ledger s')) s).

Lemma keeps_quiet {A} (m : M A) : quiet m -> keeps m.
Proof. intros Hm s Hs. apply ewp_quiet; [done..|]. intros a s' _ E. by rewrite E. Qed.
Lemma ledger_bind {A B} (m : M A) (f : A -> M B) : keeps m -> (forall a, keeps (f a)) -> keeps (m ≫= f).
Proof. intros Hm Hf s Hs. apply ewp_bind. eapply ewp_conseq; [by apply Hm|]. intros. by apply Hf. Qed.

Lemma tool_call_ok raw hosts k body tokens limit size a s s' :
  authorize net policy current raw (Tool hosts) s = (Ok a, s') ->
  tool_call hosts (mkCall k raw (Some a) false false None body tokens limit size).
Proof.
  intros (Hn & He & _ & Hp)%authorize_spec. destruct (Hp eq_refl) as (Es & Ep & Hi). rewrite Es, Ep in Hn.
  unfold tool_call. cbn. repeat (split; [done|]). by exists a.
Qed.

(** After a payment: the ledger is [l'], and one connection is paid for. *)
Definition paid (k : Call -> Prop) (s : HttpBroker) : Prop := exists l, pays l (ledger s) k.

Lemma paid_spent k s : paid k s -> spent (ledger s).
Proof. by intros (? & ? & _). Qed.

Lemma ewp_connect k c s (Q : unit -> HttpBroker -> Prop) :
  paid k s -> allowed c -> k c -> (forall s', spent (ledger s') -> Q tt s') -> ewp spent (connect c) Q s.
Proof. intros (l & _ & Hp) Hc Hk HQ. unfold ewp. cbn [connect]. apply HQ. unfold ledger. cbn. by apply Hp. Qed.

Lemma ewp_quiet_paid {A} k (m : M A) (Q : A -> HttpBroker -> Prop) s :
  quiet m -> paid k s -> (forall a s', m s = (Ok a, s') -> paid k s' -> Q a s') -> ewp spent m Q s.
Proof.
  intros Hm Hp HQ. apply ewp_quiet; [done|by eapply paid_spent|]. intros a s' Ha E. apply HQ; [done|].
  unfold paid in *. by rewrite E.
Qed.

Lemma ewp_quiet_spent {A} (m : M A) (Q : A -> HttpBroker -> Prop) s :
  quiet m -> spent (ledger s) -> (forall a s', m s = (Ok a, s') -> ledger s' = ledger s -> spent (ledger s') -> Q a s') ->
  ewp spent m Q s.
Proof. intros Hm Hs HQ. apply ewp_quiet; [done..|]. intros a s' Ha E. apply HQ; [done..|]. by rewrite E. Qed.

Lemma ewp_spend_get s (Q : unit -> HttpBroker -> Prop) :
  spent (ledger s) ->
  match get policy with Some g => get_used s < g_max_requests g | None => used s < max_requests policy end ->
  (forall s', paid (fun c => c_kind c = Get) s' -> Q tt s') -> ewp spent spend_get Q s.
Proof. intros Hs Hl HQ. apply HQ. exists (ledger s). by apply pay_get. Qed.

Lemma ewp_spend_post s g (Q : unit -> HttpBroker -> Prop) :
  spent (ledger s) -> post policy = Some g -> post_used s < p_max_requests g ->
  (forall s', paid (fun c => c_kind c = PlainPost) s' -> Q tt s') -> ewp spent spend_post Q s.
Proof. intros Hs Hg Hl HQ. apply HQ. exists (ledger s). by eapply pay_post. Qed.

Definition model_kind (u : string) (n : Z) (c : Call) : Prop :=
  (c_kind c = ModelPost \/ c_kind c = Relay) /\ c_url c = u /\ c_tokens c = n.

Lemma ewp_spend_model s u g n next (Q : unit -> HttpBroker -> Prop) :
  spent (ledger s) -> (if is_Some_bool (get policy) then used s - get_used s else used s) < max_requests policy ->
  List.find (fun g => String.eqb (url g) u) (json_posts policy) = Some g ->
  default 0 (post_output_reserved s !! u) + n = next -> next <= max_total_output_tokens g -> 0 <= n ->
  (forall s', paid (model_kind u n) s' -> Q tt s') -> ewp spent (spend_model u next) Q s.
Proof. intros Hs Hl Hf Hn Hle H0 HQ. apply HQ. exists (ledger s). by eapply pay_model. Qed.

Ltac asking := apply ewp_bind; first
  [ apply ewp_require; [first [done | by eapply paid_spent]|intros ?]
  | apply ewp_lift; [first [done | by eapply paid_spent]|intros ? ?; split_ok]
  | eapply ewp_quiet_paid; [solve [quiet]|eassumption|intros ? ? ? ?]
  | apply ewp_quiet_spent; [solve [quiet]|done|intros ? ? ? ? ?] ].

Lemma get_hop_keeps u : keeps (get_hop net policy current u).
Proof.
  intros s Hs. unfold get_hop. apply ewp_bind. cbn [ewp state].
  set (budget := match get policy with Some g => _ | None => _ end).
  destruct budget as [[[max max_bytes] limit] n] eqn:Eb. subst budget.
  asking. apply ewp_bind, ewp_quiet_spent; [apply quiet_authorize|done|]. intros at_ s1 Ha E1 Hs1.
  injection E1 as Eu Eg _ _ _. apply ewp_bind, ewp_spend_get; [done| |intros s2 Hpaid].
  { reflect. rewrite Eu, Eg. destruct (get policy); injection Eb as <- <- <- <-; lia. }
  do 2 asking. apply ewp_bind. eapply ewp_connect; [done|split; [done|]; eapply tool_call_ok, Ha|done|].
  intros s4 H4. apply keeps_quiet; [|done]. quiet.
Qed.

Lemma run_curl_keeps k c reason failed s :
  paid k s -> allowed c -> k c -> ewp spent (run_curl net c reason failed) (fun _ s' => spent (ledger s')) s.
Proof.
  intros. unfold run_curl. apply ewp_bind. eapply ewp_connect; [done..|]. intros. apply keeps_quiet; [|done]. quiet.
Qed.

Lemma quiet_staged reason : quiet (staged net reason).
Proof. unfold staged. quiet. Qed.
Lemma quiet_credential path p : quiet (credential_header net path p).
Proof. unfold credential_header. pose proof quiet_staged. quiet. Qed.
#[local] Hint Resolve quiet_staged quiet_credential quiet_authorize : egress.

Lemma post_plain_keeps raw r : request_of raw = Some r -> keeps (post_plain to_vec net policy current r).
Proof.
  intros Hraw s Hs. unfold post_plain. do 3 asking. apply ewp_bind. cbn [ewp state].
  do 3 asking. apply ewp_bind, ewp_quiet_spent; [apply quiet_authorize|done|]. intros at_ s1 Ha E1 Hs1.
  injection E1 as _ _ Ep _ _. reflect.
  apply ewp_bind. eapply ewp_spend_post; [done|done|rewrite Ep; lia|]. intros s2 Hpaid.
  do 3 asking. apply ewp_bind. eapply ewp_conseq; [eapply run_curl_keeps; [done| |done]|].
  - do 3 eexists. split; [done|]. split; [eapply tool_call_ok, Ha|]. split; [by exists raw, r|]. split; [done|]. split; [done|]. lia.
  - intros. apply keeps_quiet; [|done]. quiet.
Qed.

Lemma validate_chat_nonneg body g n : validate_chat chat_of body g = Ok n -> 0 <= n.
Proof.
  unfold validate_chat. intros H. split_ok. repeat (case_match; [done|]). split_ok. unfold max_tokens. lia.
Qed.

Lemma quiet_cancel : quiet (check_cancelled current).
Proof. apply quiet_cancelled. Qed.
#[local] Hint Resolve quiet_cancel : egress.

(** What [post_json] knows when it spends. *)
Definition spendable (g : JsonPostGrant) (r : EgressPost.Request) (n next : Z) (s : HttpBroker) : Prop :=
  spent (ledger s) /\ (if is_Some_bool (get policy) then used s - get_used s else used s) < max_requests policy /\
  List.find (fun g => String.eqb (url g) (r_url r)) (json_posts policy) = Some g /\
  default 0 (post_output_reserved s !! r_url r) + n = next /\ next <= max_total_output_tokens g /\
  validate_chat chat_of (r_body r) g = Ok n /\ exists raw, request_of raw = Some r.

Lemma spendable_quiet g r n next s s' : ledger s' = ledger s -> spendable g r n next s -> spendable g r n next s'.
Proof. intros E. unfold spendable. rewrite E. by injection E as -> -> _ -> _. Qed.

Lemma spendable_spend g r n next s (Q : unit -> HttpBroker -> Prop) :
  spendable g r n next s -> (forall s', paid (model_kind (r_url r) n) s' -> Q tt s') ->
  ewp spent (spend_model (r_url r) next) Q s.
Proof.
  intros (Hs & Hl & Hf & Hn & Hle & Hv & _) HQ. eapply ewp_spend_model; try done. by eapply validate_chat_nonneg.
Qed.

Lemma granted_body g r n next out c s :
  spendable g r n next s -> outgoing_body chat_of value_of to_vec_map display (r_body r) g = Ok out ->
  c_url c = r_url r -> c_tokens c = n -> c_body c = to_vec out -> is_Some (c_body c) -> model_body g c.
Proof.
  intros (_ & _ & Hf & _ & _ & Hv & raw & Hraw) Ho Hu Hn Hb Hs. apply List.find_some in Hf as [Hin%list_elem_of_In Heq%String.eqb_eq].
  split; [done|]. split; [congruence|]. exists (r_body r), out. rewrite Hn. split; [by exists raw, r|done].
Qed.

Lemma post_relay_keeps g r n next s :
  mediated = true -> spendable g r n next s ->
  ewp spent (post_relay chat_of value_of to_vec to_vec_map render display net policy current g r n next)
    (fun _ s' => spent (ledger s')) s.
Proof.
  intros Hmed Hsp. pose proof (proj1 Hsp) as Hs. unfold post_relay. asking.
  eapply spendable_quiet in Hsp; [|done]. do 3 asking. apply ewp_bind. eapply spendable_spend; [done|]. intros s2 Hpaid.
  apply ewp_bind. eapply ewp_connect; [done| |split; [by right|done]|].
  - split; [done|]. split; [done|]. split; [done|]. exists g. split; [|cbn; reflect; lia].
    eapply granted_body; [done..|by symmetry|by eexists].
  - intros. apply keeps_quiet; [|done]. quiet.
Qed.

Lemma credential_header_ok path p s h s' :
  credential_header net path p s = (Ok h, s') ->
  exists n contents token, token_file net n path = Some contents /\ credential_token contents = Ok token /\
    h = header_value token p ++ [x0a].
Proof.
  unfold credential_header, mbind, M_bind, lift, staged, tick.
  destruct (token_file net (calls s) path) as [contents|] eqn:Hc; [|done]. cbn.
  destruct (credential_token contents) as [token|] eqn:Ht; [|done]. cbn. unfold mbind, M_bind, lift; cbn.
  destruct (stage net _); [done|]. destruct (stage net _); [done|]. cbn. intros [= <- _]. eauto 6.
Qed.

Lemma post_direct_keeps g r n next s :
  mediated = false -> spendable g r n next s ->
  ewp spent (post_direct chat_of value_of to_vec to_vec_map render display net policy current g r n next)
    (fun _ s' => spent (ledger s')) s.
Proof.
  intros Hmed Hsp. pose proof (proj1 Hsp) as Hs. unfold post_direct. asking.
  eapply spendable_quiet in Hsp; [|done]. apply ewp_bind. eapply spendable_spend; [done|]. intros s2 Hpaid.
  asking. match goal with H : credential_header _ _ _ _ = _ |- _ => apply credential_header_ok in H as (k & contents & token & Hf & Ht & ->) end.
  do 5 asking. apply ewp_bind. eapply ewp_conseq; [eapply run_curl_keeps; [done| |split; [by left|done]]|].
  - split; [done|]. eexists g, _, k, contents, token. split; [eapply granted_body; [done..|by symmetry|by eexists]|].
    split; [done|]. split; [by eapply authorize_spec|]. split; [done|].
    split; [cbn; intros; by reflect; tauto|done].
  - intros. apply keeps_quiet; [|done]. quiet.
Qed.

Lemma parse_request raw r : parse request_of raw = Ok r -> request_of raw = Some r.
Proof.
  unfold parse. destruct (_ <? _); [done|]. intros (q & Hq%ok_or_Ok & E)%result_bind_Ok.
  destruct (_ || _); [done|]. destruct (negb _); [done|]. by injection E as <-.
Qed.

Lemma post_json_keeps raw :
  keeps (post_json chat_of request_of value_of to_vec to_vec_map render display net policy mediated current raw).
Proof.
  intros s Hs. unfold post_json. asking.
  match goal with |- context [grant_for _ ?r] => rename r into rq end.
  assert (Hraw : request_of raw = Some rq).
  { match goal with H : parse _ _ = Ok _ |- _ => by apply parse_request in H end. }
  unfold grant_for. destruct (List.find _ _) as [g|] eqn:Hf; [|by eapply post_plain_keeps].
  do 2 asking. apply ewp_bind. cbn [ewp state]. do 2 asking.
  match goal with H : _ ≫= _ = Some _ |- _ => apply bind_Some in H as (total & Hc & Hle) end.
  destruct (_ <=? _) eqn:Ht in Hle; [|done]. injection Hle as <-. apply checked_add_u64_Some in Hc as [Hc _]. reflect.
  match goal with H : validate_chat _ (r_body ?r) _ = Ok ?n |- _ => assert (Hsp : spendable g r n total s) by (repeat (split; [done|]); by exists raw) end.
  destruct mediated eqn:Hm; [by apply post_relay_keeps|by apply post_direct_keeps].
Qed.

Lemma get_hops_keeps n u : keeps (get_hops net policy current n u).
Proof.
  revert u. induction n as [|n IH]; intros u; [done|]. cbn [get_hops]. apply ledger_bind; [apply get_hop_keeps|].
  intros [body|next]; [done|apply IH].
Qed.

Lemma quiet_workspace grant raw : quiet (ask_workspace to_vec ws_request_of grant raw).
Proof. intros s. unfold ask_workspace. by destruct (Broker.request _ _ _ _ _). Qed.
#[local] Hint Resolve quiet_workspace : egress.

Notation fetch := (fetch chat_of request_of value_of to_vec to_vec_map render display net policy mediated current ws_request_of).
Notation run := (run chat_of request_of value_of to_vec to_vec_map render display net policy mediated current ws_request_of).

Lemma fetch_keeps raw : keeps (fetch raw).
Proof.
  intros s Hs. unfold EgressPost.fetch. case_match; [done|]. case_match; [|by apply get_hops_keeps].
  asking. case_match; [|by apply post_json_keeps]. unfold workspace_request. apply keeps_quiet; [|done]. quiet.
Qed.

Lemma run_spent h ops : spent (ledger (run (new_broker h) ops)).
Proof.
  unfold EgressPost.run. apply (foldl_inv (fun s => spent (ledger s))); [|apply spent_new].
  intros s [raw|h'] _ Hs; [|exact Hs]. cbn [EgressPost.step].
  pose proof (fetch_keeps raw s Hs) as H. unfold ewp in H. by destruct (fetch raw s) as [[b|e] s'].
Qed.

Lemma run_confined h ops : Forall allowed (conns (run (new_broker h) ops)).
Proof. apply (s_allowed _ (run_spent h ops)). Qed.

Lemma run_budgets h ops :
  let l := conns (run (new_broker h) ops) in
  match get policy with
  | Some g => count is_get l <= Z.max 0 (g_max_requests g) /\ count is_model l <= Z.max 0 (max_requests policy)
  | None => count is_get l + count is_model l <= Z.max 0 (max_requests policy)
  end /\
  count is_post l <= Z.max 0 (match post policy with Some g => p_max_requests g | None => 0 end) /\
  forall u, tokens u l <= Z.max 0 (total_for u).
Proof.
  destruct (run_spent h ops) as [_ Hg Hp Hm Ht Hgl Hpl Htot]. cbn [ledger l_conns l_used l_get l_post l_reserved] in *.
  split; [|split].
  - destruct (get policy); lia.
  - lia.
  - intros u. specialize (Ht u). specialize (Htot u). destruct (_ !! u) as [r|]; cbn in Ht; [|lia].
    specialize (Htot _ eq_refl). lia.
Qed.

(** C24: Whatever a cell asks for, in any order and whatever DNS, the servers and the
    other users of the shared state answer, every connection its broker makes is one
    the policy permits: GETs and plain posts go over verified HTTPS to port 443 of a
    host that the URL names and the list admits, at an IPv4 address outside every
    reserved block, without a credential and with no body but the guest's own; a
    credential goes only to the granted model URL, in a request the grant validates,
    and never from a mediated broker, whose model requests go to the relay without
    naming a destination. *)
Theorem egress_confined (h : Broker.Heap) (ops : list op) :
  Forall (fun c => allowed c /\ (is_Some (c_header c) -> mediated = false /\ c_kind c = ModelPost) /\
                   (mediated = true -> is_model c = true -> c_kind c = Relay /\ c_at c = None))
    (conns (run (new_broker h) ops)).
Proof.
  eapply Forall_impl; [apply run_confined|]. intros c Hc. split; [done|]. unfold allowed, is_model in *.
  destruct (c_kind c).
  - destruct Hc as (_ & _ & _ & Hh & _). rewrite Hh. by split; [intros []|].
  - destruct Hc as (Hm & _). by split; [|congruence].
  - destruct Hc as (g & body & b & _ & (_ & _ & Hh & _) & _). rewrite Hh. by split; [intros []|].
  - destruct Hc as (_ & Ha & Hh & _). rewrite Hh. by split; [intros []|].
Qed.

(** C25: Budgets hold over every history and are never refunded: GETs, plain posts and
    model requests stay within their grants' counts, failed and refused ones included,
    and for each model URL the output tokens asked for, summed over all requests, stay
    within the grant's total. Without a GET grant, GETs and model requests share one
    budget. *)
Theorem egress_budgets (h : Broker.Heap) (ops : list op) :
  let l := conns (run (new_broker h) ops) in
  match get policy with
  | Some g => count is_get l <= Z.max 0 (g_max_requests g) /\ count is_model l <= Z.max 0 (max_requests policy)
  | None => count is_get l + count is_model l <= Z.max 0 (max_requests policy)
  end /\
  count is_post l <= Z.max 0 (match post policy with Some g => p_max_requests g | None => 0 end) /\
  forall u, tokens u l <= Z.max 0 (total_for u).
Proof. apply run_budgets. Qed.
End laws.
(** ** A mediated turn *)

Lemma all_relays u l :
  Forall (fun c => c_kind c = Relay /\ c_url c = u) l ->
  count is_get l = 0 /\ count is_model l = Z.of_nat (length l) /\ tokens u l = foldr (fun c acc => c_tokens c + acc) 0 l.
Proof.
  induction 1 as [|c l [Hk Hu] _ (IH1 & IH2 & IH3)]; [done|]. unfold count in *. cbn.
  fold (tokens u l). unfold is_get, is_model in *. rewrite Hk, Hu, String.eqb_refl. cbn. split; [done|]. lia.
Qed.

Section mediated.
Context (net : Net) (t : Transport) (current : option nat).
Context (chat_of : Value -> option ChatRequest) (request_of : string -> option Request).
Context (value_of : bytes -> option Value) (to_vec : Value -> option bytes) (to_vec_map : Map -> option bytes).
Context (render : Value -> string) (display : Z -> string).
Context (ws_request_of : string -> option Broker.Request).

Definition cell_run : HttpBroker -> list op -> HttpBroker :=
  run chat_of request_of value_of to_vec to_vec_map render display net (t_policy t) (t_mediated t) current ws_request_of.

(** A transport that fits a reserved turn only ever calls the relay, for its one
    granted model and without a credential or destination, at most as often as the
    turn reserved, and with output ceilings that sum to at most the turn's tokens. *)
Theorem mediated_turn (requests output_tokens : Z) (h : Broker.Heap) (ops : list op) :
  fits_mediated_turn t requests output_tokens = true -> 0 <= requests -> 0 <= output_tokens ->
  exists g, json_posts (t_policy t) = [g] /\
    let l := conns (cell_run (new_broker h) ops) in
    Forall (fun c => c_kind c = Relay /\ c_url c = url g /\ c_at c = None /\ c_header c = None) l /\
    Z.of_nat (length l) <= requests /\ foldr (fun c acc => c_tokens c + acc) 0 l <= output_tokens.
Proof.
  intros Hfit HR HT. unfold fits_mediated_turn in Hfit.
  destruct (json_posts (t_policy t)) as [|g []] eqn:Hg; try by rewrite andb_false_r in Hfit.
  reflect. destruct Hfit as ((((((Hm & Hh) & _) & Hget) & Hpost) & Hreq) & Htot & _).
  apply bool_decide_eq_true in Hh. exists g. split; [done|]. cbv zeta.
  set (l := conns _).
  pose proof (run_confined net (t_policy t) current chat_of request_of value_of to_vec to_vec_map render display
    (t_mediated t) ws_request_of h ops) as Hc.
  pose proof (run_budgets net (t_policy t) current chat_of request_of value_of to_vec to_vec_map render display
    (t_mediated t) ws_request_of h ops) as Hb.
  fold cell_run in Hc, Hb. fold l in Hc, Hb. clearbody l.
  destruct (get (t_policy t)) eqn:Eget; [done|]. destruct (post (t_policy t)) eqn:Epost; [done|].
  assert (Hall : Forall (fun c => c_kind c = Relay /\ c_url c = url g /\ c_at c = None /\ c_header c = None) l).
  { eapply Forall_impl; [exact Hc|]. intros c Hall. unfold allowed in Hall. rewrite Eget, Epost, Hh, Hm in Hall.
    destruct (c_kind c).
    - destruct Hall as (_ & _ & _ & _ & a & _ & _ & _ & _ & (_ & [Ha|(x & Ha%elem_of_nil & _)]) & _); done.
    - by destruct Hall.
    - by destruct Hall as (? & ? & ? & ? & _).
    - destruct Hall as (_ & Hat & Hhd & g' & (Hin & Hu & _) & _). rewrite Hg in Hin.
      apply list_elem_of_singleton in Hin as ->. done. }
  destruct Hb as (Hn & _ & Ht). split; [done|]. specialize (Ht (url g)). unfold total_for in Ht. rewrite Hg in Ht.
  cbn in Ht. rewrite String.eqb_refl in Ht.
  destruct (all_relays (url g) l) as (Hr1 & Hr2 & Hr3); [eapply Forall_impl; [exact Hall|naive_solver]|].
  rewrite Hr1, Hr2 in Hn. rewrite Hr3 in Ht. lia.
Qed.
End mediated.
(** ** One fetch *)

(** [m] adds at most [n] connections to the trace. *)
Definition adds {A} (n : nat) (m : M A) : Prop :=
  forall s, exists l, conns (m s).2 = conns s ++ l /\ (length l <= n)%nat.

Lemma adds_quiet {A} (m : M A) : quiet m -> adds 0 m.
Proof. intros Hm s. exists []. rewrite app_nil_r. split; [|done]. by injection (Hm s). Qed.
Lemma adds_bind {A B} n k (m : M A) (f : A -> M B) : adds n m -> (forall a, adds k (f a)) -> adds (n + k) (m ≫= f).
Proof.
  intros Hm Hf s. destruct (Hm s) as (l & Hl & Hn). unfold mbind, M_bind. destruct (m s) as [[a|e] s']; cbn in *.
  - destruct (Hf a s') as (l' & -> & Hk). exists (l ++ l'). rewrite Hl, app_assoc, length_app. split; [done|lia].
  - exists l. split; [done|lia].
Qed.
Lemma adds_0 {A B} k (m : M A) (f : A -> M B) : quiet m -> (forall a, adds k (f a)) -> adds k (m ≫= f).
Proof. intros Hm. apply (adds_bind 0). by apply adds_quiet. Qed.
Lemma adds_le {A} n k (m : M A) : (n <= k)%nat -> adds n m -> adds k m.
Proof. intros ? Hm s. destruct (Hm s) as (l & ? & ?). exists l. split; [done|lia]. Qed.
Lemma adds_spend {A} k (sp : M unit) (f : unit -> M A) :
  (forall s, conns (sp s).2 = conns s) -> (forall a, adds k (f a)) -> adds k (sp ≫= f).
Proof. intros Hs. apply (adds_bind 0). intros s. exists []. by rewrite app_nil_r, Hs. Qed.
Lemma adds_connect {A} c (f : unit -> M A) : (forall a, quiet (f a)) -> adds 1 (connect c ≫= f).
Proof. intros Hf. apply (adds_bind 1 0). - intros s. by exists [c]. - intros a. by apply adds_quiet. Qed.

(** ** The cut of a body *)

Lemma cont_mask b : (Z.land (byte_val b) 192 =? 128) = cont b.
Proof. by destruct b. Qed.

Lemma boundary_spec (b : bytes) n :
  boundary b n = O \/ match b !! boundary b n with Some y => cont y = false | None => True end.
Proof.
  induction n as [|n IH]; [by left|]. cbn [boundary]. destruct (b !! S n) as [y|] eqn:E; [|by right; rewrite E].
  rewrite cont_mask. destruct (cont y) eqn:Hc; [done|]. right. by rewrite E.
Qed.

Lemma in_range_cont lo hi y : 128 <= lo -> hi <= 191 -> in_range lo hi y = true -> cont y = true.
Proof. unfold cont, in_range. rewrite !andb_true_iff, !Z.leb_le. lia. Qed.

(** The first character: its [k] continuation bytes, before any rest. *)
Lemma utf8_first x r : utf8_valid (x :: r) = true -> exists k,
  length (take k r) = k /\ Forall (fun y => cont y = true) (take k r) /\
  forall r', utf8_valid (x :: take k r ++ r') = utf8_valid r'.
Proof.
  pose proof in_range_cont as Hc. intros H.
  destruct (in_range 0 127 x) eqn:H1; [exists 0%nat; cbn; by rewrite H1|]. cbn in H. rewrite H1 in H.
  destruct r as [|y r1]; [done|]. destruct (in_range 194 223 x) eqn:H2.
  { reflect. exists 1%nat. cbn. split; [done|]. rewrite take_0. destruct H as [Hy _]. split; [by repeat constructor; auto|]. intros r'.
    by rewrite H1, H2, Hy. }
  destruct r1 as [|z r2]; [done|].
  assert (H3 : forall p, (p && cont z && utf8_valid r2 = true -> p = true -> cont y = true) ->
    p && cont z && utf8_valid r2 = true ->
    (forall r', utf8_valid (x :: y :: z :: r') = p && cont z && utf8_valid r') -> exists k,
    length (take k (y :: z :: r2)) = k /\ Forall (fun y => cont y = true) (take k (y :: z :: r2)) /\
    forall r', utf8_valid (x :: take k (y :: z :: r2) ++ r') = utf8_valid r').
  { intros p Hy Hp Heq. exists 2%nat. specialize (Hy Hp). reflect. destruct Hp as [[-> Hz] _]. split; [done|].
    cbn [take]. rewrite take_0. split; [by repeat constructor; auto|]. intros r'. cbn [app]. by rewrite Heq, Hz. }
  destruct (bool_decide (x = xe0)) eqn:H4.
  { eapply H3; [|exact H|]; [intros _ Hp; by eapply Hc; [| |exact Hp]|]. intros r'. cbn. by rewrite H1, H2, H4. }
  destruct (bool_decide (x = xed)) eqn:H5.
  { eapply H3; [|exact H|]; [intros _ Hp; by eapply Hc; [| |exact Hp]|]. intros r'. cbn. by rewrite H1, H2, H4, H5. }
  destruct (in_range 225 239 x) eqn:H6.
  { eapply H3; [|exact H|]; [done|]. intros r'. cbn. by rewrite H1, H2, H4, H5, H6. }
  clear H3. destruct r2 as [|w r3]; [done|]. exists 3%nat.
  set (p := if bool_decide (x = xf0) then _ else _) in H.
  assert (Hy : p = true -> cont y = true).
  { unfold p. repeat case_match; intros Hp; [by eapply Hc; [| |exact Hp]..|]. by apply andb_true_iff in Hp as [_ ?]. }
  reflect. destruct H as [[[Hp Hz] Hw] _]. cbn [take]. rewrite take_0. split; [done|]. split; [by repeat constructor; auto|].
  intros r'. cbn. rewrite H1, H2, H4, H5, H6. fold p. by rewrite Hp, Hz, Hw.
Qed.

(** Cutting between characters keeps the text valid. *)
Lemma utf8_take fuel : forall b i, (length b <= fuel)%nat -> utf8_valid b = true ->
  match b !! i with Some y => cont y = false | None => True end -> utf8_valid (take i b) = true.
Proof.
  induction fuel as [|fuel IH]; intros b i Hl Hv Hi; [by destruct b; [destruct i|cbn in Hl; lia]|].
  destruct b as [|x r]; [by destruct i|]. destruct i as [|i]; [done|]. cbn [length] in Hl.
  change ((x :: r) !! S i) with (r !! i) in Hi.
  destruct (utf8_first _ _ Hv) as (k & Hk & Hc & Heq).
  assert (Hki : (k <= i)%nat).
  { destruct (decide (k <= i)%nat) as [|Hlt]; [done|]. exfalso.
    destruct (lookup_lt_is_Some_2 (take k r) i) as [y Hy]; [lia|]. pose proof (Forall_lookup_1 _ _ _ _ Hc Hy) as Hcy.
    cbn in Hcy. rewrite lookup_take_lt in Hy by lia. rewrite Hy in Hi. congruence. }
  pose proof (take_drop k r) as Hr. rewrite <- Hr in Hv. rewrite Heq in Hv. rewrite <- Hr. cbn [take].
  rewrite take_app, take_take, Hk, Nat.min_r, Heq by lia. apply IH; [rewrite length_drop; lia|done|].
  rewrite lookup_drop. by replace (k + (i - k))%nat with i by lia.
Qed.

Lemma cut_body_utf8 b n : utf8_valid b = true -> utf8_valid (cut_body b n) = true.
Proof.
  intros Hv. unfold cut_body. case_match; [|done]. destruct (boundary_spec b (Z.to_nat n)) as [->|H']; [by destruct b|].
  by eapply utf8_take.
Qed.

Lemma ewp_any {A B} (m : M A) (f : A -> M B) (Q : B -> HttpBroker -> Prop) s :
  (forall a s', ewp (fun _ => True) (f a) Q s') -> ewp (fun _ => True) (m ≫= f) Q s.
Proof. intros H. apply ewp_bind. unfold ewp at 1. destruct (m s) as [[a|e] s']; [apply H|done]. Qed.

Section fetch.
Context (net : Net) (policy : HttpPolicy) (current : option nat).
Context (chat_of : Value -> option ChatRequest) (request_of : string -> option EgressPost.Request).
Context (value_of : bytes -> option Value) (to_vec : Value -> option bytes) (to_vec_map : Map -> option bytes).
Context (render : Value -> string) (display : Z -> string) (mediated : bool).
Context (ws_request_of : string -> option Broker.Request).

#[local] Hint Resolve quiet_staged quiet_credential quiet_authorize quiet_cancel : egress.

Ltac one_call :=
  repeat first
    [ apply adds_connect; intros; solve [quiet]
    | apply adds_spend; [by intros|intros]
    | apply adds_0; [solve [quiet]|intros] ].

Lemma get_hop_adds u : adds 1 (get_hop net policy current u).
Proof.
  unfold get_hop. apply (adds_bind 0); [by apply adds_quiet|]. intros s.
  destruct (match get policy with Some _ => _ | None => _ end) as [[[max max_bytes] limit] n]. one_call.
Qed.

Lemma get_hops_adds n u : adds n (get_hops net policy current n u).
Proof.
  revert u. induction n as [|n IH]; intros u; [by apply adds_quiet|]. cbn [get_hops].
  apply (adds_bind 1 n); [apply get_hop_adds|]. intros [body|next]; [|apply IH].
  eapply (adds_le 0); [lia|]. by apply adds_quiet.
Qed.

Lemma run_curl_then {A} c reason failed (f : CurlOut -> M A) :
  (forall o, quiet (f o)) -> adds 1 (run_curl net c reason failed ≫= f).
Proof.
  intros Hf. apply (adds_bind 1 0); [|intros; by apply adds_quiet]. unfold run_curl. apply adds_connect. intros. quiet.
Qed.

Lemma post_json_adds raw :
  adds 1 (post_json chat_of request_of value_of to_vec to_vec_map render display net policy mediated current raw).
Proof.
  unfold post_json. one_call. case_match; [one_call; case_match|].
  - unfold post_relay. one_call.
  - unfold post_direct. one_call. apply run_curl_then. intros. quiet.
  - unfold post_plain. one_call. apply run_curl_then. intros. quiet.
Qed.

(** [b] is [out] up to [n] bytes: all of it when it fits, else its longest prefix that
    fits and ends between characters. *)
Definition cut_at (out : bytes) (n : Z) (b : bytes) : Prop :=
  (blen out <= n -> b = out) /\
  (n < blen out -> exists k, b = take k out /\ (k <= Z.to_nat n)%nat /\
     (k = 0%nat \/ exists y, out !! k = Some y /\ cont y = false) /\
     forall j, (k < j <= Z.to_nat n)%nat -> exists y, out !! j = Some y /\ cont y = true).

Lemma boundary_least (b : bytes) n : (boundary b n <= n)%nat /\
  forall j, (boundary b n < j <= n)%nat -> exists y, b !! j = Some y /\ cont y = true.
Proof.
  induction n as [|n [IH1 IH2]]; [split; [done|cbn; lia]|]. cbn [boundary].
  destruct (b !! S n) as [y|] eqn:E; [|split; [done|lia]]. rewrite cont_mask. destruct (cont y) eqn:Hc; [|split; [done|lia]].
  split; [lia|]. intros j Hj. destruct (decide (j = S n)) as [->|]; [by exists y|]. apply IH2. lia.
Qed.

Lemma cut_body_cut out n : cut_at out n (cut_body out n).
Proof.
  unfold cut_body, cut_at. destruct (Z.ltb_spec n (blen out)) as [Hlt|Hge]; split; try done; try lia.
  intros _. exists (boundary out (Z.to_nat n)). destruct (boundary_least out (Z.to_nat n)) as [Hle Hall]. split_and!; try done.
  destruct (boundary_spec out (Z.to_nat n)) as [->|Hb]; [by left|].
  destruct (out !! boundary out (Z.to_nat n)) as [y|] eqn:E; [right; by exists y|].
  apply lookup_ge_None in E. destruct (decide (boundary out (Z.to_nat n) = 0%nat)); [by left|]. unfold blen in Hlt. lia.
Qed.

Lemma cut_at_len out n b : cut_at out n b -> blen b <= Z.max 0 n.
Proof.
  intros [Hs Hl]. destruct (Z.le_gt_cases (blen out) n) as [Hle|Hgt]; [rewrite (Hs Hle); lia|].
  destruct (Hl Hgt) as (k & -> & Hk & _). unfold blen. rewrite length_take. lia.
Qed.

(** What the server of the last connection sent, and that it was no failure. *)
Definition served (s : HttpBroker) (out : bytes) : Prop :=
  exists n c o status location, last (conns s) = Some c /\ c_kind c = Get /\ calls s = S n /\ curl net n c = Ok o /\ success o = true /\
    stdout o = out /\ response_status_and_location (default [] (headers o)) = Some (status, location) /\ status < 300.

Definition get_limit : Z := match get policy with Some g => g_max_response_bytes g | None => max_response_bytes policy end.

Lemma get_hop_body u s b s' :
  get_hop net policy current u s = (Ok (inl b), s') -> exists out, served s' out /\ b = cut_body out get_limit.
Proof.
  unfold get_hop. unfold mbind at 1, M_bind at 1, state at 1.
  destruct (match get policy with Some _ => _ | None => _ end) as [[[max max_bytes] limit] k] eqn:Eb.
  assert (Hm : max_bytes = get_limit) by (unfold get_limit; destruct (get policy); by injection Eb). rewrite <- Hm. clear Eb Hm.
  unfold mbind, M_bind, require, lift, spend_get, tick, connect, mret, M_ret.
  destruct (ensure _ Budget); [|done]. destruct (authorize _ _ _ _ _ _) as [[at_|] s1]; [|done]. cbn [calls set_calls].
  destruct (stage net _); [done|]. cbn [calls set_calls].
  set (c := mkCall Get _ _ _ _ _ _ _ _ _). destruct (curl net (S (calls s1)) c) as [o|] eqn:Ec; [|done]. cbn [map_err].
  destruct (success o) eqn:Es; [|done]. cbn [ensure].
  destruct (response_status_and_location _) as [[status location]|] eqn:Er; [|done]. cbn [ok_or].
  destruct (negb _) eqn:E3.
  - destruct (400 <=? status) eqn:E4; [done|]. cbn. intros [= <- <-]. exists (stdout o). split; [|done].
    exists (S (calls s1)), c, o, status, location. cbn. rewrite last_snoc. split_and!; try done. reflect. lia.
  - destruct location as [l|]; [|done]. cbn. destruct (redirect_url _ _); done.
Qed.

Lemma get_hops_body n u s b s' :
  get_hops net policy current n u s = (Ok b, s') -> exists out, served s' out /\ b = cut_body out get_limit.
Proof.
  revert u s. induction n as [|n IH]; intros u s; [done|]. cbn [get_hops]. unfold mbind, M_bind.
  destruct (get_hop net policy current u s) as [[[body|next]|e] s1] eqn:E; [|apply IH|done].
  intros [= <- <-]. by eapply get_hop_body.
Qed.

Notation fetch := (fetch chat_of request_of value_of to_vec to_vec_map render display net policy mediated current ws_request_of).

(** C37: A fetch ends after at most six connections, and after at most one when it is not
    a GET, adding them to those made before; what a GET returns is what the server of
    its last connection sent, with a status below 300: all of it when it is within the
    grant's bytes, else its longest prefix within them that does not end inside a
    character - so valid UTF-8 stays valid. *)
Theorem fetch_bounded (raw : string) (s : HttpBroker) :
  let '(r, s') := fetch raw s in
  (exists l, conns s' = conns s ++ l /\ (length l <= if starts_with "{" raw then 1 else 6)%nat) /\
  (starts_with "{" raw = false -> forall b, r = Ok b ->
     let limit := match get policy with Some g => g_max_response_bytes g | None => max_response_bytes policy end in
     blen b <= Z.max 0 limit /\
     exists out, served s' out /\ cut_at out limit b /\ (utf8_valid out = true -> utf8_valid b = true)).
Proof.
  destruct (fetch raw s) as [r s'] eqn:E. split.
  - assert (H : adds (if starts_with "{" raw then 1 else 6) (fetch raw)).
    { unfold EgressPost.fetch. destruct (_ <? _). { eapply (adds_le 0); [lia|]. by apply adds_quiet. }
      destruct (starts_with "{" raw); [|apply get_hops_adds]. one_call. case_match; [|apply post_json_adds].
      eapply (adds_le 0); [lia|]. apply adds_quiet. unfold workspace_request. pose proof quiet_workspace. quiet. }
    specialize (H s). by rewrite E in H.
  - intros Hraw b ->. unfold EgressPost.fetch in E. destruct (_ <? _); [done|]. rewrite Hraw in E.
    apply get_hops_body in E as (out & Hs & ->). fold get_limit. cbv zeta. pose proof (cut_body_cut out get_limit) as Hc.
    split; [by eapply cut_at_len|]. exists out. split; [done|]. split; [done|]. apply cut_body_utf8.
Qed.
End fetch.
