(* ===== verification/ScopedPolicy.v ===== *)
(** * Authority of scoped tools ([dispatch_scoped_artifacts.rs], [dispatch_scoped_https.rs])

    What a scoped operation's tools may do with run data and with the web, derived from the
    limits that the decision signs and the material declares, and never more than either. *)

From S2P Require Import Prelude Text Json.
From S2P Require Import Manifest.
From S2P Require Lease Workspace Broker Egress.

Definition says (v : Value) (s : string) : bool := value_eqb v (VString s).
Definition null (v : Value) : bool := value_eqb v Null.
Definition array (v : Value) : option (list Value) := match v with VArray l => Some l | _ => None end.
Definition UNSUPPORTED : string := "AUTH_PROTOCOL_UNSUPPORTED".
Definition MISMATCH : string := "AUTH_REQUEST_BINDING_MISMATCH".
Definition RANGE : string := "AUTH_LIMIT_OUT_OF_RANGE".
Definition between (lo hi n : Z) : bool := (lo <=? n) && (n <=? hi).

(** The materials and the signed tools, in order. *)
Definition tool_pairs (execution decision : Value) : result string (list (Value * Value)) :=
  materials ← ok_or (array (vget "tools" execution)) UNSUPPORTED;
  tools ← ok_or (array (vget "tools" decision)) UNSUPPORTED;
  _ ← ensure (Nat.eqb (length materials) (length tools)) MISMATCH;
  Ok (zip materials tools).
Definition declared_limits (p : Value * Value) : Value := vget "limits" (vget "spec" p.1).
Definition signed_limits (p : Value * Value) : Value := vget "limits" p.2.

Module Artifacts.

Inductive Operation : Type := Read | Write | List | Append | Search | Delete.
Definition name (o : Operation) : string :=
  match o with Read => "read" | Write => "write" | List => "list" | Append => "append" | Search => "search" | Delete => "delete" end.
Definition effects (o : Operation) : string :=
  match o with Write | Append | Delete => "external-side-effects" | Read | List | Search => "none" end.
#[export] Instance Operation_eq_dec : EqDecision Operation.
Proof. solve_decision. Defined.

Record Limits : Type := mkLimits { operation : Operation; max_operations : Z; max_files : Z; max_file_bytes : Z; max_total_bytes : Z }.
Record Policy : Type := mkPolicy { granted : Broker.ArtifactOperations; operations : Z; files : Z; file_bytes : Z; total_bytes : Z }.

Section artifacts.
Context (limits_of : Value -> option Limits).

Definition limits (v : Value) : result string Limits :=
  l ← ok_or (limits_of v) UNSUPPORTED;
  _ ← ensure (between 1 64 (max_operations l) && between 1 256 (max_files l) && between 1 4096 (max_file_bytes l)
              && (max_file_bytes l <=? max_total_bytes l) && (max_total_bytes l <=? 1048576)) RANGE;
  Ok l.

Definition wider (signed declared : Limits) : bool :=
  negb (bool_decide (operation signed = operation declared)) || (max_operations declared <? max_operations signed)
  || (max_files declared <? max_files signed) || (max_file_bytes declared <? max_file_bytes signed)
  || (max_total_bytes declared <? max_total_bytes signed).

Definition intersect (policy : option Policy) (l : Limits) : Policy :=
  let p := default (mkPolicy (Broker.mkOps false false false false false false) (max_operations l) (max_files l) (max_file_bytes l) (max_total_bytes l)) policy in
  mkPolicy (Broker.grant_operation (granted p) (name (operation l))).2 (Z.min (operations p) (max_operations l))
    (Z.min (files p) (max_files l)) (Z.min (file_bytes p) (max_file_bytes l)) (Z.min (total_bytes p) (max_total_bytes l)).

(** One tool of [derive]. *)
Definition derive_tool (decision : Value) (policy : option Policy) (p : Value * Value) : result string (option Policy) :=
  let signed := signed_limits p in
  let declared := declared_limits p in
  if null (vget "artifacts" signed) && null (vget "artifacts" declared) then Ok policy else
  _ ← ensure (negb (says (vget "provider" (vget "route" decision)) "none" || negb (says (vget "workspace" signed) "none")
              || negb (says (vget "workspace" declared) "none") || negb (null (vget "https" signed)) || negb (null (vget "https" declared)))) UNSUPPORTED;
  s ← limits (vget "artifacts" signed);
  d ← limits (vget "artifacts" declared);
  _ ← ensure (says (vget "effects" signed) (effects (operation s)) && says (vget "effects" declared) (effects (operation s))) UNSUPPORTED;
  _ ← ensure (negb (wider s d)) MISMATCH;
  Ok (Some (intersect policy s)).
Fixpoint derive_tools (decision : Value) (policy : option Policy) (l : list (Value * Value)) : result string (option Policy) :=
  match l with
  | [] => Ok policy
  | p :: l => policy ← derive_tool decision policy p; derive_tools decision policy l
  end.
Definition derive (execution decision : Value) : result string (option Policy) :=
  l ← tool_pairs execution decision; derive_tools decision None l.

Definition store_limits (p : Policy) : Workspace.Limits := Workspace.mkLimits (files p) (file_bytes p) (total_bytes p).
End artifacts.

(** What the broker makes of a policy: a parent's owner, the lease of a turn, and the
    private store of a run. *)
Definition owner (p : Policy) (incarnation : hash) (s : Broker.Heap) : result string Broker.Owner * Broker.Heap :=
  Broker.new incarnation (store_limits p) s.
Definition begin `{Blake3} `{Json (string * string)} (p : Policy) (o : Broker.Owner) (t : Lease.ReservedTurn) (control : nat) (s : Broker.Heap) :
    result string Broker.Grant * Broker.Owner * Broker.Heap := Broker.begin_artifacts o t (granted p) (operations p) control s.
Definition one_shot (p : Policy) (run : hash) (control : nat) (s : Broker.Heap) : result string Broker.Grant * Broker.Heap :=
  Broker.ephemeral run (store_limits p) (granted p) (operations p) control s.
End Artifacts.

Module Https.

Definition GET_ENTRY : string := "/https-fetch".
Definition POST_ENTRY : string := "/https-post-json".
Definition POST_BODY_BYTES : Z := 4096.

Record Limits : Type := mkLimits { allow_hosts : list string; max_requests : Z; max_response_bytes : Z; timeout_millis : Z }.
Record Grant : Type := mkGrant { hosts : list string; requests : Z; response_bytes : Z; timeout_ms : Z; body_bytes : Z }.
Record Policy : Type := mkPolicy { get : option Grant; post : option Grant }.

Definition any (l : list string) : bool := match l with [h] => String.eqb h Egress.ANY_PUBLIC_HOST | _ => false end.

Definition label_byte (b : byte) : bool := in_range 97 122 b || is_digit b || bool_decide (b = x2d).
Definition label_ok (label : string) : bool :=
  negb (str_is_empty label) && (str_len label <=? 63) && negb (starts_with "-" label) && negb (ends_with "-" label) && all_bytes label_byte label.
Fixpoint hosts_ok (seen : gset string) (l : list string) : bool :=
  match l with
  | [] => true
  | host :: l =>
      (str_len host <=? 253) && has_char "." host && negb (bool_decide (host ∈ seen)) && forallb label_ok (split_char "." host)
      && hosts_ok ({[host]} ∪ seen) l
  end.
Definition valid_hosts (l : list string) : bool :=
  if bool_decide (l = []) || (16 <? length l)%nat then false else if any l then true else hosts_ok ∅ l.

(** Every signed host must be admitted by the material. *)
Definition within (signed declared : list string) : bool :=
  any declared || (negb (any signed) && forallb (fun h => bool_decide (h ∈ declared)) signed).

Definition intersect (g other : Grant) : result string Grant :=
  let l := if any (hosts other) then hosts g
           else if any (hosts g) then hosts other
           else filter (fun h => h ∈ hosts other) (hosts g) in
  _ ← ensure (negb (bool_decide (l = []))) MISMATCH;
  Ok (mkGrant l (Z.min (requests g) (requests other)) (Z.min (response_bytes g) (response_bytes other))
        (Z.min (timeout_ms g) (timeout_ms other)) (Z.min (body_bytes g) (body_bytes other))).

Section https.
Context (limits_of : Value -> option Limits).

Definition limits (v tool_timeout : Value) : result string Limits :=
  l ← ok_or (limits_of v) UNSUPPORTED;
  t ← ok_or (as_u64 tool_timeout) UNSUPPORTED;
  _ ← ensure (valid_hosts (allow_hosts l)) UNSUPPORTED;
  _ ← ensure (between 1 16 (max_requests l) && between 1 65536 (max_response_bytes l) && between 1 30000 (timeout_millis l)
              && (timeout_millis l <=? t)) RANGE;
  Ok l.

Definition put (slot : option Grant) (g : Grant) : result string Grant :=
  match slot with Some existing => intersect existing g | None => Ok g end.

Definition derive_tool (decision : Value) (policy : option Policy) (p : Value * Value) : result string (option Policy) :=
  let signed := signed_limits p in
  let declared := declared_limits p in
  if null (vget "https" signed) && null (vget "https" declared) then Ok policy else
  _ ← ensure (negb (says (vget "provider" (vget "route" decision)) "none" || negb (says (vget "workspace" signed) "none")
              || negb (says (vget "workspace" declared) "none") || negb (null (vget "artifacts" signed)) || negb (null (vget "artifacts" declared))
              || negb (says (vget "effects" signed) "external-side-effects") || negb (says (vget "effects" declared) "external-side-effects"))) UNSUPPORTED;
  s ← limits (vget "https" signed) (vget "timeoutMillis" signed);
  d ← limits (vget "https" declared) (vget "timeoutMillis" declared);
  _ ← ensure (negb (negb (within (allow_hosts s) (allow_hosts d)) || (max_requests d <? max_requests s)
              || (max_response_bytes d <? max_response_bytes s) || (timeout_millis d <? timeout_millis s))) MISMATCH;
  n ← ok_or (as_u64 (vget "argumentBytes" signed)) UNSUPPORTED;
  let g := mkGrant (allow_hosts s) (max_requests s) (max_response_bytes s) (timeout_millis s) (Z.min n POST_BODY_BYTES) in
  let current := default (mkPolicy None None) policy in
  if says (vget "entryPoint" (vget "spec" p.1)) GET_ENTRY then g ← put (get current) g; Ok (Some (mkPolicy (Some g) (post current)))
  else if says (vget "entryPoint" (vget "spec" p.1)) POST_ENTRY then g ← put (post current) g; Ok (Some (mkPolicy (get current) (Some g)))
  else Err UNSUPPORTED.
Fixpoint derive_tools (decision : Value) (policy : option Policy) (l : list (Value * Value)) : result string (option Policy) :=
  match l with
  | [] => Ok policy
  | p :: l => policy ← derive_tool decision policy p; derive_tools decision policy l
  end.
Definition derive (execution decision : Value) : result string (option Policy) :=
  l ← tool_pairs execution decision; derive_tools decision None l.

(** The grants of a turn, each also bounded by the time that is left, in milliseconds. *)
Definition grants (p : Policy) (remaining : Z) : option Egress.GetGrant * option Egress.PostGrant :=
  ((fun g => Egress.mkGet (hosts g) (requests g) (response_bytes g) (Z.min (timeout_ms g) remaining)) <$> get p,
   (fun g => Egress.mkPost (hosts g) (requests g) (body_bytes g) (response_bytes g) (Z.min (timeout_ms g) remaining)) <$> post p).
End https.
End Https.
