(* ===== verification/ScopedPolicyLaws.v ===== *)
(** * Scoped tools never have more than was signed and declared

    The authority that is derived for the tools of an operation, against each tool's own
    limits and against what the brokers make of it. *)

From S2P Require Import Prelude Text Json Manifest ScopedPolicy.
From S2P Require Lease Workspace Broker Egress.

Section artifacts.
Import Artifacts.
Context (limits_of : Value -> option Limits).

(** A tool that works with run data, and its limits. *)
Definition data_tool (p : Value * Value) : bool := negb (null (vget "artifacts" (signed_limits p)) && null (vget "artifacts" (declared_limits p))).
Definition data_limits (p : Value * Value) (s d : Limits) : Prop :=
  limits limits_of (vget "artifacts" (signed_limits p)) = Ok s /\ limits limits_of (vget "artifacts" (declared_limits p)) = Ok d /\ wider s d = false.

(** The kind of a request of the workspace broker. *)
Definition kind (o : Broker.Operation) : Operation :=
  match o with
  | Broker.Read _ => Read | Broker.Write _ _ _ => Write | Broker.List => List
  | Broker.Append _ _ _ => Append | Broker.Search _ => Search | Broker.Delete _ _ => Delete
  end.

(** No more than any tool's ceilings, and only operations that some tool was given. *)
Definition within_data (pol : Policy) (done : list (Value * Value)) : Prop :=
  (forall p, p ∈ done -> data_tool p = true -> exists s d, data_limits p s d /\
     operations pol <= max_operations s <= max_operations d /\ files pol <= max_files s <= max_files d /\
     file_bytes pol <= max_file_bytes s <= max_file_bytes d /\ total_bytes pol <= max_total_bytes s <= max_total_bytes d) /\
  (forall o, Broker.allows (granted pol) o = true -> exists p s d, p ∈ done /\ data_tool p = true /\ data_limits p s d /\
     operation s = kind o /\ operation d = kind o).

Lemma wider_false s d : wider s d = false -> operation s = operation d /\ max_operations s <= max_operations d /\ max_files s <= max_files d /\
  max_file_bytes s <= max_file_bytes d /\ max_total_bytes s <= max_total_bytes d.
Proof.
  unfold wider. rewrite !orb_false_iff, negb_false_iff, bool_decide_eq_true, !Z.ltb_ge. tauto.
Qed.

Lemma allows_grant ops op o : Broker.allows (Broker.grant_operation ops (name op)).2 o = true -> Broker.allows ops o = true \/ op = kind o.
Proof. destruct op, o; cbn; auto. Qed.

Lemma derive_tool_data decision policy p policy' done : derive_tool limits_of decision policy p = Ok policy' ->
  match policy with Some pol => within_data pol done | None => forall q, q ∈ done -> data_tool q = false end ->
  match policy' with Some pol => within_data pol (done ++ [p]) | None => forall q, q ∈ done ++ [p] -> data_tool q = false end.
Proof.
  unfold derive_tool. cbv zeta. destruct (null _ && null _) eqn:En.
  - intros [= <-] Hp. assert (Hd : data_tool p = false) by (unfold data_tool; by rewrite En). destruct policy as [pol|].
    + destruct Hp as [H1 H2]. split.
      * intros q [Hq|Hq%list_elem_of_singleton]%elem_of_app Ht; [by apply H1|congruence].
      * intros o Ho. destruct (H2 o Ho) as (q & s & d & Hq & ?). exists q, s, d. split; [apply elem_of_app; by left|done].
    + intros q [Hq|Hq%list_elem_of_singleton]%elem_of_app; [by apply Hp|congruence].
  - intros E Hp. assert (Hd : data_tool p = true) by (unfold data_tool; by rewrite En). split_ok.
    match goal with Hs : limits _ (vget _ (signed_limits p)) = Ok ?x, Hdl : limits _ (vget _ (declared_limits p)) = Ok ?y |- _ =>
      rename x into s, y into d; rename Hs into Hls, Hdl into Hld end.
    match goal with Hw : negb (wider s d) = true |- _ => apply negb_true_iff in Hw; pose proof (wider_false _ _ Hw) as (Hop & Ho1 & Ho2 & Ho3 & Ho4); rename Hw into Hwd end.
    split.
    + intros q [Hq|Hq%list_elem_of_singleton]%elem_of_app Ht.
      * destruct policy as [pol|]; [|by rewrite Hp in Ht]. destruct Hp as [Hp _]. destruct (Hp q Hq Ht) as (s' & d' & Hl & ?).
        exists s', d'. split; [done|]. cbn. lia.
      * subst q. exists s, d. split; [done|]. cbn. destruct policy; cbn; lia.
    + intros o Ho. cbn in Ho. apply allows_grant in Ho as [Ho|Ho].
      * destruct policy as [pol|]; [|by destruct o]. destruct Hp as [_ Hp]. destruct (Hp o Ho) as (q & s' & d' & Hq & ?).
        exists q, s', d'. split; [apply elem_of_app; by left|done].
      * exists p, s, d. split; [apply elem_of_app; right; left|]. split_and!; try done. congruence.
Qed.

Lemma derive_tools_data decision l : forall policy policy' done, derive_tools limits_of decision policy l = Ok policy' ->
  match policy with Some pol => within_data pol done | None => forall q, q ∈ done -> data_tool q = false end ->
  match policy' with Some pol => within_data pol (done ++ l) | None => forall q, q ∈ done ++ l -> data_tool q = false end.
Proof.
  induction l as [|p l IH]; intros policy policy' done E Hp; cbn in E.
  - injection E as <-. by rewrite app_nil_r.
  - apply result_bind_Ok in E as (policy1 & E1 & E). replace (done ++ p :: l) with ((done ++ [p]) ++ l) by (by rewrite <- app_assoc).
    eapply IH; [exact E|]. by eapply derive_tool_data.
Qed.

(** The broker's grants of a policy carry exactly its operations. *)
Definition carries (h : Broker.Heap) (g : Broker.Grant) (pol : Policy) : Prop :=
  exists a, Broker.authorities h !! Broker.g_authority g = Some a /\ Broker.a_only a = Some (granted pol) /\ Broker.a_remaining a = operations pol /\
    0 <= operations pol.

Lemma one_shot_carries pol run c h g h' : one_shot pol run c h = (Ok g, h') -> carries h' g pol.
Proof.
  unfold one_shot, Broker.ephemeral. destruct (_ || _) eqn:Hb; [done|]. unfold Broker.bounds in Hb. reflect. destruct (Broker.check_control h c) as [alive h1] eqn:Ec.
  apply Broker.check_control_heap in Ec as [-> ->]. destruct (Control.check _ _).1; [|done]. destruct (Workspace.new _ _) as [w|]; [|done].
  intros [= <- <-]. eexists. cbn. rewrite lookup_app_r, Nat.sub_diag by lia. split_and!; try done. lia.
Qed.

Lemma begin_carries `{Blake3} `{Json (string * string)} pol o t c h g o' h' : begin pol o t c h = (Ok g, o', h') -> carries h' g pol.
Proof.
  intros E. apply Broker.begin_artifacts_spec in E as (h1 & Eb & ->). apply Broker.begin_spec in Eb as (_ & [(? & _)|(a & Eg & Ea & Er & Hm & _)]); [done|].
  injection Eg as ->. eexists. cbn. rewrite Ea, list_lookup_alter_eq, lookup_app_r, Nat.sub_diag by lia. split_and!; try done. lia.
Qed.

Context (from_str : string -> option Broker.Request) (encode_response : Value -> option bytes).

(** Whatever is answered was an operation that some tool was signed for: a grant keeps
    its list, whatever the broker does. *)
Lemma answered_signed `{Blake3} `{Json (string * string)} pol done g st ops raw out st' : within_data pol done -> carries (Broker.heap st) g pol ->
  Broker.step from_str encode_response (Broker.run from_str encode_response st ops) (Broker.ORequest g raw) = (st', Some (Ok out)) ->
  exists q p s d, from_str raw = Some q /\ p ∈ done /\ data_tool p = true /\ data_limits p s d /\ operation s = kind (Broker.body q) /\ operation d = kind (Broker.body q).
Proof.
  intros [_ Hw] (a0 & Ha0 & Ho0 & _) E. destruct (Broker.run_heap_le from_str encode_response ops st _ _ Ha0) as (a & Ha & Hsh).
  assert (Ho : Broker.a_only a = Some (granted pol)) by (by rewrite (Broker.sh_only _ _ Hsh)).
  cbn in E. destruct (Broker.held _ g); [|done]. destruct (Broker.request _ _ _ _ _) as [r h'] eqn:Er. injection E as _ ->. rename Er into E. apply Broker.request_cases in E as [(? & _)|(a' & h1 & (Ha' & _) & Hs)]; [done|].
  rewrite Ha in Ha'. injection Ha' as <-. apply Broker.serve_spec in Hs as (_ & _ & [(? & _)|(q & w & Hq & _ & _ & Hall & _)]); [done|].
  rewrite Ho in Hall. destruct (Hw _ Hall) as (p & s & d & ?). exists q, p, s, d. by split.
Qed.
End artifacts.

(** ** The web *)

Definition covers (l l' : list string) : Prop := forall h, Egress.host_allowed l h = true -> Egress.host_allowed l' h = true.
Definition proper (l : list string) : Prop := Https.any l = true \/ Egress.ANY_PUBLIC_HOST ∉ l.

Lemma host_allowed_any l h : Https.any l = true -> Egress.host_allowed l h = negb (str_is_empty h).
Proof. unfold Https.any, Egress.host_allowed. intros ->. by destruct (str_is_empty h). Qed.
Lemma host_allowed_named l h : Https.any l = false -> Egress.host_allowed l h = true <->
  str_is_empty h = false /\ exists a, a ∈ l /\ a <> Egress.ANY_PUBLIC_HOST /\ eq_ignore_ascii_case a h = true.
Proof.
  unfold Https.any, Egress.host_allowed. intros ->. destruct (str_is_empty h); [naive_solver|]. rewrite existsb_exists. split.
  - intros (a & Ha & E). apply andb_true_iff in E as [E1 E2]. split; [done|]. exists a. split_and!; [by apply list_elem_of_In| |done].
    intros ->. by rewrite String.eqb_refl in E1.
  - intros [_ (a & Ha & E1 & E2)]. exists a. split; [by apply list_elem_of_In|]. rewrite E2, andb_true_r. apply negb_true_iff, String.eqb_neq, E1.
Qed.
Lemma covers_any l l' : Https.any l' = true -> covers l l'.
Proof. intros Ha h. rewrite (host_allowed_any l') by done. unfold Egress.host_allowed. by destruct (str_is_empty h). Qed.
Lemma covers_subset l l' : Https.any l = false -> l ⊆ l' -> covers l l'.
Proof.
  intros Hl Hs h. destruct (Https.any l') eqn:Hl'; [by apply covers_any|]. rewrite !host_allowed_named by done. naive_solver.
Qed.
Lemma any_star l : Https.any l = true -> Egress.ANY_PUBLIC_HOST ∈ l.
Proof. unfold Https.any. destruct l as [|x [|]]; try done. intros ->%String.eqb_eq. left. Qed.

Lemma hosts_ok_named seen l : Https.hosts_ok seen l = true -> Egress.ANY_PUBLIC_HOST ∉ l.
Proof.
  revert seen. induction l as [|x l IH]; intros seen E; [by intros ?%elem_of_nil|]. cbn in E. intros [<-|Hl]%elem_of_cons; [done|].
  apply andb_true_iff in E as [_ E]. by eapply IH.
Qed.
Lemma valid_hosts_proper l : Https.valid_hosts l = true -> proper l.
Proof.
  unfold Https.valid_hosts, proper. destruct (_ || _); [done|]. destruct (Https.any l); [by left|]. intros E. right. by eapply hosts_ok_named.
Qed.
Lemma within_covers s d : Https.within s d = true -> covers s d.
Proof.
  unfold Https.within. rewrite orb_true_iff, andb_true_iff, negb_true_iff, forallb_forall. intros [H|[Hs Hf]]; [by apply covers_any|].
  apply covers_subset; [done|]. intros x Hx. apply (bool_decide_eq_true (x ∈ d)), Hf. by apply list_elem_of_In.
Qed.

Section https.
Import Https.
Context (limits_of : Value -> option Limits).

(** A tool that works with the web, its limits and its largest argument. *)
Definition web_tool (p : Value * Value) : bool := negb (null (vget "https" (signed_limits p)) && null (vget "https" (declared_limits p))).
Definition web_limits (p : Value * Value) (s d : Limits) (n : Z) : Prop :=
  limits limits_of (vget "https" (signed_limits p)) (vget "timeoutMillis" (signed_limits p)) = Ok s /\
  limits limits_of (vget "https" (declared_limits p)) (vget "timeoutMillis" (declared_limits p)) = Ok d /\
  as_u64 (vget "argumentBytes" (signed_limits p)) = Some n.
Definition entry (p : Value * Value) (e : string) : bool := says (vget "entryPoint" (vget "spec" p.1)) e.
Definition slot (pol : Policy) (e : string) : option Grant := if String.eqb e GET_ENTRY then get pol else post pol.

(** What a grant may be, for a tool of the given limits. *)
Definition bounded (g : Grant) (s d : Limits) (n : Z) : Prop :=
  covers (hosts g) (allow_hosts s) /\ covers (allow_hosts s) (allow_hosts d) /\ requests g <= max_requests s <= max_requests d /\
  response_bytes g <= max_response_bytes s <= max_response_bytes d /\ timeout_ms g <= timeout_millis s <= timeout_millis d /\
  body_bytes g <= Z.min n POST_BODY_BYTES.
Definition within_slot (pol : Policy) (done : list (Value * Value)) (e : string) : Prop :=
  (forall p, p ∈ done -> web_tool p = true -> entry p e = true -> exists s d n g, web_limits p s d n /\ slot pol e = Some g /\ bounded g s d n) /\
  (forall g, slot pol e = Some g -> proper (hosts g) /\ exists p, p ∈ done /\ web_tool p = true /\ entry p e = true).

Lemma intersect_Ok g other g' : intersect g other = Ok g' -> proper (hosts g) -> proper (hosts other) -> proper (hosts g') /\
  covers (hosts g') (hosts g) /\ covers (hosts g') (hosts other) /\ requests g' = Z.min (requests g) (requests other) /\
  response_bytes g' = Z.min (response_bytes g) (response_bytes other) /\ timeout_ms g' = Z.min (timeout_ms g) (timeout_ms other) /\
  body_bytes g' = Z.min (body_bytes g) (body_bytes other).
Proof.
  unfold intersect. intros E Hg Ho. split_ok. cbn.
  destruct (any (hosts other)) eqn:Eo; [split_and!; try done; first [by intros ?|by apply covers_any]|].
  destruct (any (hosts g)) eqn:Eg; [split_and!; try done; first [by intros ?|by apply covers_any]|].
  assert (Hn : Egress.ANY_PUBLIC_HOST ∉ filter (fun h => h ∈ hosts other) (hosts g)).
  { intros [_ Hm]%list_elem_of_filter. destruct Hg as [Hg|Hg]; [congruence|done]. }
  assert (Ha : any (filter (fun h => h ∈ hosts other) (hosts g)) = false) by (apply not_true_is_false; intros Hm%any_star; done).
  split_and!; try done; [by right|apply covers_subset; [done|]..]; intros y Hy%list_elem_of_filter; naive_solver.
Qed.

Lemma covers_trans a b c : covers a b -> covers b c -> covers a c.
Proof. unfold covers. auto. Qed.
Lemma bounded_below g g' s d n : bounded g s d n -> covers (hosts g') (hosts g) -> requests g' <= requests g -> response_bytes g' <= response_bytes g ->
  timeout_ms g' <= timeout_ms g -> body_bytes g' <= body_bytes g -> bounded g' s d n.
Proof. intros (? & ? & ? & ? & ? & ?) ?????. split_and!; try done; try lia. by eapply covers_trans. Qed.

(** What one tool puts into its slot. *)
Lemma put_slot old g g' s d n : put old g = Ok g' -> proper (hosts g) -> bounded g s d n -> (forall x, old = Some x -> proper (hosts x)) ->
  proper (hosts g') /\ bounded g' s d n /\ (forall x s' d' n', old = Some x -> bounded x s' d' n' -> bounded g' s' d' n').
Proof.
  unfold put. intros E Hg Hb Ho. destruct old as [x|]; [|injection E as <-; by split_and!].
  apply intersect_Ok in E as (Hp & H1 & H2 & E1 & E2 & E3 & E4); [|by apply Ho|done].
  split_and!; [done|eapply bounded_below; [exact Hb|done|lia..]|]. intros y s' d' n' [= <-] Hy. eapply bounded_below; [exact Hy|done|lia..].
Qed.

Lemma slot_kept pol pol' done p e : within_slot pol done e -> web_tool p && entry p e = false -> slot pol' e = slot pol e -> within_slot pol' (done ++ [p]) e.
Proof.
  intros [H1 H2] Hp Hs. unfold within_slot. rewrite Hs. split.
  - intros q [Hq| ->%list_elem_of_singleton]%elem_of_app Hw He; [by apply H1|]. by rewrite Hw, He in Hp.
  - intros g Hg. destruct (H2 g Hg) as [? (q & Hq & ?)]. split; [done|]. exists q. split; [apply elem_of_app; by left|done].
Qed.
Lemma slot_put pol pol' done p e g g' s d n : within_slot pol done e -> web_tool p = true -> entry p e = true -> web_limits p s d n ->
  put (slot pol e) g = Ok g' -> slot pol' e = Some g' -> proper (hosts g) -> bounded g s d n -> within_slot pol' (done ++ [p]) e.
Proof.
  intros [H1 H2] Hw He Hl Hput Hs Hg Hb. destruct (put_slot _ _ _ _ _ _ Hput Hg Hb) as (Hp & Hb' & Hold); [intros x Hx; by apply H2|].
  unfold within_slot. rewrite Hs. split.
  - intros q [Hq| ->%list_elem_of_singleton]%elem_of_app Hwq Heq; [|by exists s, d, n, g'].
    destruct (H1 q Hq Hwq Heq) as (s' & d' & n' & x & Hl' & Hx & Hbx). exists s', d', n', g'. split_and!; [done..|]. by eapply Hold.
  - intros x [= <-]. split; [done|]. exists p. split_and!; try done. apply elem_of_app. right. left.
Qed.

(** Each slot is within its tools, and every tool of the web has a slot. *)
Definition within_web (pol : Policy) (done : list (Value * Value)) : Prop :=
  within_slot pol done GET_ENTRY /\ within_slot pol done POST_ENTRY /\
  (forall p, p ∈ done -> web_tool p = true -> entry p GET_ENTRY = true \/ entry p POST_ENTRY = true).

Lemma entry_other p : entry p GET_ENTRY = true -> entry p POST_ENTRY = true -> False.
Proof. unfold entry, says. intros E1%value_eqb_eq E2%value_eqb_eq. by rewrite E1 in E2. Qed.

Lemma limits_Ok v t l : limits limits_of v t = Ok l -> proper (allow_hosts l).
Proof. unfold limits. intros E. split_ok. by apply valid_hosts_proper. Qed.

Lemma signed_within s d : negb (negb (within (allow_hosts s) (allow_hosts d)) || (max_requests d <? max_requests s) ||
  (max_response_bytes d <? max_response_bytes s) || (timeout_millis d <? timeout_millis s)) = true ->
  covers (allow_hosts s) (allow_hosts d) /\ max_requests s <= max_requests d /\ max_response_bytes s <= max_response_bytes d /\ timeout_millis s <= timeout_millis d.
Proof.
  rewrite negb_true_iff, !orb_false_iff, negb_false_iff, !Z.ltb_ge. intros [[[Hw ?] ?] ?]. split_and!; try done. by apply within_covers.
Qed.

Lemma derive_tool_web decision policy p policy' done : derive_tool limits_of decision policy p = Ok policy' ->
  within_web (default (mkPolicy None None) policy) done -> within_web (default (mkPolicy None None) policy') (done ++ [p]).
Proof.
  unfold derive_tool. cbv zeta. intros E (Hg & Hp & Ht). destruct (null _ && null _) eqn:En.
  - injection E as <-. assert (Hw : web_tool p = false) by (unfold web_tool; by rewrite En).
    split_and!; [eapply slot_kept; [done|by rewrite Hw|done]..|]. intros q [Hq| ->%list_elem_of_singleton]%elem_of_app; [by apply Ht|by rewrite Hw].
  - assert (Hw : web_tool p = true) by (unfold web_tool; by rewrite En).
    apply result_bind_Ok in E as (_ & _ & E). apply result_bind_Ok in E as (s & Es & E). apply result_bind_Ok in E as (d & Ed & E).
    apply result_bind_Ok in E as (u & Ew & E). apply ensure_Ok, signed_within in Ew as (Hc & Hr & Hb & Hm).
    apply result_bind_Ok in E as (n & Hn & E). apply ok_or_Ok in Hn.
    assert (Hl : web_limits p s d n) by done. pose proof (limits_Ok _ _ _ Es) as Hs.
    assert (Hbd : bounded (mkGrant (allow_hosts s) (max_requests s) (max_response_bytes s) (timeout_millis s) (Z.min n POST_BODY_BYTES)) s d n)
      by (split_and!; cbn; try done; by intros ?).
    destruct (says _ GET_ENTRY) eqn:Eg; [|destruct (says _ POST_ENTRY) eqn:Ep; [|done]]; apply result_bind_Ok in E as (g & Eput & E); injection E as <-.
    + split_and!.
      * by eapply slot_put.
      * eapply slot_kept; [done| |done]. rewrite Hw. apply not_true_is_false. intros Hpost. by eapply entry_other.
      * intros q [Hq| ->%list_elem_of_singleton]%elem_of_app; [by apply Ht|intros _; by left].
    + split_and!.
      * eapply slot_kept; [done| |done]. by rewrite Hw.
      * by eapply slot_put.
      * intros q [Hq| ->%list_elem_of_singleton]%elem_of_app; [by apply Ht|intros _; by right].
Qed.

Lemma derive_tools_web decision l : forall policy policy' done, derive_tools limits_of decision policy l = Ok policy' ->
  within_web (default (mkPolicy None None) policy) done -> within_web (default (mkPolicy None None) policy') (done ++ l).
Proof.
  induction l as [|p l IH]; intros policy policy' done E Hp; cbn in E.
  - injection E as <-. by rewrite app_nil_r.
  - apply result_bind_Ok in E as (policy1 & E1 & E). replace (done ++ p :: l) with ((done ++ [p]) ++ l) by (by rewrite <- app_assoc).
    eapply IH; [exact E|]. by eapply derive_tool_web.
Qed.

(** The grants of the broker against the limits of a tool. *)
Definition get_within (g : Egress.GetGrant) (s d : Limits) (remaining : Z) : Prop :=
  covers (Egress.g_allow_hosts g) (allow_hosts s) /\ covers (allow_hosts s) (allow_hosts d) /\
  Egress.g_max_requests g <= max_requests s <= max_requests d /\ Egress.g_max_response_bytes g <= max_response_bytes s <= max_response_bytes d /\
  Egress.g_timeout g <= timeout_millis s <= timeout_millis d /\ Egress.g_timeout g <= remaining.
Definition post_within (g : Egress.PostGrant) (s d : Limits) (n remaining : Z) : Prop :=
  covers (Egress.p_allow_hosts g) (allow_hosts s) /\ covers (allow_hosts s) (allow_hosts d) /\
  Egress.p_max_requests g <= max_requests s <= max_requests d /\ Egress.p_max_response_bytes g <= max_response_bytes s <= max_response_bytes d /\
  Egress.p_timeout g <= timeout_millis s <= timeout_millis d /\ Egress.p_timeout g <= remaining /\ Egress.p_max_body_bytes g <= Z.min n POST_BODY_BYTES.

Lemma grants_within pol remaining l : within_web pol l ->
  (forall p, p ∈ l -> web_tool p = true -> exists s d n, web_limits p s d n /\
     (entry p GET_ENTRY = true /\ (exists g, (grants pol remaining).1 = Some g /\ get_within g s d remaining) \/
      entry p POST_ENTRY = true /\ (exists g, (grants pol remaining).2 = Some g /\ post_within g s d n remaining))) /\
  (is_Some (grants pol remaining).1 -> exists p, p ∈ l /\ web_tool p = true /\ entry p GET_ENTRY = true) /\
  (is_Some (grants pol remaining).2 -> exists p, p ∈ l /\ web_tool p = true /\ entry p POST_ENTRY = true).
Proof.
  intros ([Hg1 Hg2] & [Hp1 Hp2] & Ht). split_and!.
  - intros p Hp Hw. destruct (Ht p Hp Hw) as [He|He].
    + destruct (Hg1 p Hp Hw He) as (s & d & n & g & Hl & Hs & Hb). exists s, d, n. split; [done|]. left. split; [done|].
      unfold slot in Hs. rewrite String.eqb_refl in Hs. unfold grants. rewrite Hs. eexists. split; [done|]. destruct Hb as (? & ? & ? & ? & ? & ?).
      unfold get_within; cbn. split_and!; done || lia.
    + destruct (Hp1 p Hp Hw He) as (s & d & n & g & Hl & Hs & Hb). exists s, d, n. split; [done|]. right. split; [done|].
      change (post pol = Some g) in Hs. unfold grants. rewrite Hs. eexists. split; [done|]. destruct Hb as (? & ? & ? & ? & ? & ?).
      unfold post_within; cbn. split_and!; done || lia.
  - intros [g Hg]. cbn in Hg. apply fmap_Some in Hg as (x & Hx & _). by destruct (Hg2 x Hx) as [_ ?].
  - intros [g Hg]. cbn in Hg. apply fmap_Some in Hg as (x & Hx & _). by destruct (Hp2 x Hx) as [_ ?].
Qed.

(** A tool of the web has nothing to do with run data. *)
Lemma derive_tools_apart decision l : forall policy policy' p, derive_tools limits_of decision policy l = Ok policy' ->
  p ∈ l -> web_tool p = true -> data_tool p = false.
Proof.
  induction l as [|q l IH]; intros policy policy' p E Hp Hw; [by apply elem_of_nil in Hp|]. cbn in E. apply result_bind_Ok in E as (policy1 & E1 & E).
  apply elem_of_cons in Hp as [->|Hp]; [|by eapply IH]. unfold derive_tool in E1. cbv zeta in E1. unfold web_tool in Hw. unfold data_tool.
  destruct (null _ && null _); [done|]. apply result_bind_Ok in E1 as (u & Ec & _). apply ensure_Ok in Ec.
  rewrite negb_true_iff, !orb_false_iff, !negb_false_iff in Ec. destruct Ec as [[[[_ H1] H2] _] _]. by rewrite H1, H2.
Qed.
End https.

Section authority.
Context (data_of : Value -> option Artifacts.Limits) (web_of : Value -> option Https.Limits).
Context (from_str : string -> option Broker.Request) (encode_response : Value -> option bytes).

(** C21: The tools of a scoped operation never get more than each of them was signed for,
    and none is signed for more than it declared. From an admitted decision and its
    material: no tool works with both run data and the web; the run-data policy is
    within every such tool's ceilings (never a sum), and through a grant that the
    broker makes of it, for a run or for a turn, whatever is asked and done afterwards,
    only operations some tool was signed for are ever answered, and no more of them than
    the policy has; the web grants reach only hosts that every tool of that
    method allows, within all their ceilings, the argument bound and the time that is
    left; and there is no authority of a kind that no tool asked for. *)
Theorem scoped_authority (execution decision : Value) (l : list (Value * Value)) (data : option Artifacts.Policy) (web : option Https.Policy) (remaining : Z) :
  tool_pairs execution decision = Ok l ->
  Artifacts.derive data_of execution decision = Ok data -> Https.derive web_of execution decision = Ok web ->
  (forall p, p ∈ l -> data_tool p && web_tool p = false) /\
  match data with
  | None => forall p, p ∈ l -> data_tool p = false
  | Some pol => within_data data_of pol l /\
      forall (B : Blake3) (J : Json (string * string)) g h holder others ops,
      (exists run c h0, Artifacts.one_shot pol run c h0 = (Ok g, h)) \/
      (exists o o' t c h0, Artifacts.begin pol o t c h0 = (Ok g, o', h)) ->
      let granted := Broker.mkState h holder others in
      Broker.answers from_str encode_response (Broker.g_authority g) granted ops <= Artifacts.operations pol /\
      forall raw out s', Broker.step from_str encode_response (Broker.run from_str encode_response granted ops) (Broker.ORequest g raw) = (s', Some (Ok out)) ->
      exists q p s d, from_str raw = Some q /\ p ∈ l /\ data_tool p = true /\ data_limits data_of p s d /\
        Artifacts.operation s = kind (Broker.body q) /\ Artifacts.operation d = kind (Broker.body q)
  end /\
  let granted := Https.grants (default (Https.mkPolicy None None) web) remaining in
  (forall p, p ∈ l -> web_tool p = true -> exists s d n, web_limits web_of p s d n /\
     (entry p Https.GET_ENTRY = true /\ (exists g, granted.1 = Some g /\ get_within g s d remaining) \/
      entry p Https.POST_ENTRY = true /\ (exists g, granted.2 = Some g /\ post_within g s d n remaining))) /\
  (is_Some granted.1 -> exists p, p ∈ l /\ web_tool p = true /\ entry p Https.GET_ENTRY = true) /\
  (is_Some granted.2 -> exists p, p ∈ l /\ web_tool p = true /\ entry p Https.POST_ENTRY = true).
Proof.
  intros El Ed Ew. unfold Artifacts.derive in Ed. unfold Https.derive in Ew. rewrite El in Ed, Ew. cbn in Ed, Ew. split_and!.
  - intros p Hp. destruct (web_tool p) eqn:Hw; [|by rewrite andb_false_r]. by rewrite (derive_tools_apart _ _ _ _ _ _ Ew Hp Hw).
  - apply (derive_tools_data _ _ _ _ _ []) in Ed; [|by intros q ?%elem_of_nil]. cbn in Ed. destruct data as [pol|]; [|done]. split; [done|].
    intros B J g h holder others ops Hg. assert (Hc : carries h g pol).
    { destruct Hg as [(run & c & h0 & E)|(o & o' & t & c & h0 & E)]; [by eapply one_shot_carries|by eapply begin_carries]. }
    split; [|intros raw out s' E; by eapply answered_signed; [| |exact E]].
    destruct Hc as (a & Ha & _ & <- & Hr). by apply Broker.answers_bound.
  - apply (derive_tools_web _ _ _ _ _ []) in Ew; [by apply grants_within|].
    unfold within_web, within_slot. by split_and!; intros p Hp; try (apply elem_of_nil in Hp).
Qed.
End authority.
