(* ===== verification/Harness.v ===== *)
(** * The model loop of a guest ([crates/celln-pilot/src/json_harness.rs])

    A bounded conversation between a model and the tools it was lent. The model and the
    tools answer as they like; the loop decides what is sent to each. [serde_json]'s
    reader and writer of values are the interface [Json Value], its tokenizer is
    [JsonText], the derived decoder of a schema is [from_value]. *)

From S2P Require Import Prelude Text Json Manifest.
From S2P Require Protocol ToolSchema Closure Egress.

Definition CONTRACT : string := "celln.json-tools/v1".
Definition DIRECT_CONTRACT : string := "celln.json-direct/v1".
Definition ARGV_OUTPUT_CHARS : Z := 4096.
Definition MODEL_WIRE_BYTES : Z := 32768.
Definition TOOL_ROUND_WIRE_RESERVE : Z := MODEL_WIRE_BYTES / 2.
Definition MAX_ANSWER_BYTES : Z := Protocol.MAX_ANSWER_BYTES.
Definition DEFAULT_MAX_TOKENS : Z := 512.

Record Exchange : Type := mkExchange { user : string; assistant : string }.
Record Schema : Type := mkSchema { s_bytes : string; s_hash : string }.
Record Argv : Type := mkArgv { args : list string; stdin : option string }.
Record Tool : Type := mkTool {
  name : string;
  path : string;
  t_hash : string;
  description : string;
  input_schema : Schema;
  output_schema : Schema;
  input_bytes : Z;
  output_bytes : Z;
  timeout_ms : Z;
  argv : option Argv;
}.
Record Config : Type := mkConfig {
  contract : string;
  task : string;
  system : string;
  url : string;
  model : string;
  tools : list Tool;
  max_turns : Z;
  max_calls : Z;
  require_tool_call : bool;
  allow_insecure : bool;
  max_tokens : Z;
}.
Record DirectConfig : Type := mkDirect { d_contract : string; d_tool : Tool; d_arguments : string }.

(** [json!({..})] with literal keys: the map keeps them increasing. *)
Definition jobject (l : list (string * Value)) : Value := VObject (foldl (fun o kv => oinsert kv.1 kv.2 o) [] l).
Definition as_array (v : Value) : option (list Value) := match v with VArray l => Some l | _ => None end.
Definition as_object (v : Value) : list (string * Value) := match v with VObject o => o | _ => [] end.
Definition is_null (v : Value) : bool := match v with Null => true | _ => false end.

Definition empty_at_length (n : Z) : string :=
  ("final answer is empty: the model used its whole output budget (" ++ pretty.pretty n ++ " tokens) without answering; for a reasoning model, disable thinking in the backend's model parameters or raise the backend's maxOutputTokens")%string.
Definition answer_too_long : string :=
  ("final answer exceeds " ++ pretty.pretty MAX_ANSWER_BYTES ++ " bytes: ask for a shorter answer or lower the backend's maxOutputTokens")%string.

(** ** Tools that are command lines *)

Definition argv_output_schema : Value :=
  jobject [("type", vstr "object");
    ("properties", jobject
      [("output", jobject [("type", vstr "string"); ("minLength", vnum 0); ("maxLength", vnum ARGV_OUTPUT_CHARS)]);
       ("exit", jobject [("type", vstr "integer"); ("minimum", VNumber (NegInt (-1))); ("maximum", vnum 255)])]);
    ("required", VArray [vstr "output"; vstr "exit"]); ("additionalProperties", VBool false)].

Inductive Placeholder : Type := PValue | Switch (flag : string) | Option_ (flag : string).

(** [{field}], [{field?FLAG}] or [{field:FLAG}]; anything else is a literal. *)
Definition placeholder (entry : string) : option (string * Placeholder) :=
  inner ← strip_prefix "{" entry ≫= strip_suffix "}";
  if str_is_empty inner || has_char "{" inner || has_char "}" inner then None else
  match split_once "?" inner with
  | Some (field, flag) => Some (field, Switch flag)
  | None =>
      match split_once ":" inner with
      | Some (field, flag) => Some (field, Option_ flag)
      | None => Some (inner, PValue)
      end
  end.

Section argv.
Context `{Json Value} (number_text : Number -> string).

(** The string form of a scalar argument; [number_text] is [Number::to_string]. *)
Definition arg_text (input : list (string * Value)) (field : string) : result string (option string) :=
  match oget field input with
  | None | Some Null => Ok None
  | Some (VString s) => Ok (Some s)
  | Some (VNumber n) => Ok (Some (number_text n))
  | Some (VBool b) => Ok (Some (if b : bool then "true" else "false"))
  | Some _ => Err ("argument " ++ field ++ " is not a scalar")%string
  end.

Definition no_nul (field value : string) : result string unit :=
  ensure (negb (str_contains x00 value)) ("argument " ++ field ++ " contains NUL")%string.

(** What one entry of a binding becomes. *)
Definition entry_args (input : list (string * Value)) (entry : string) : result string (list string) :=
  match placeholder entry with
  | Some (field, Switch flag) =>
      Ok (if bool_decide (oget field input = Some (VBool true)) then [flag] else [])
  | Some (field, Option_ flag) =>
      v ← arg_text input field;
      match v with Some value => _ ← no_nul field value; Ok [flag; value] | None => Ok [] end
  | Some (field, PValue) =>
      v ← arg_text input field;
      match v with Some value => _ ← no_nul field value; Ok [value] | None => Ok [] end
  | None => Ok [entry]
  end.

Fixpoint all_args (input : list (string * Value)) (entries : list string) : result string (list string) :=
  match entries with
  | [] => Ok []
  | e :: es => a ← entry_args input e; l ← all_args input es; Ok (a ++ l)
  end.

Definition argv_invocation (tool : Tool) (arguments : bytes) : result string (list string * bytes) :=
  binding ← ok_or (argv tool) "tool has no argv binding";
  v ← ok_or (from_slice arguments) "invalid JSON";
  input ← (match v with VObject o => Ok o | _ => Err "invalid type" end);
  l ← all_args input (args binding);
  fed ← (match stdin binding with Some field => arg_text input field | None => Ok None end);
  Ok (l, as_bytes (default "" fed)).

(** [cut_body] is the same cut at a character boundary. *)
Definition argv_output (exit : Z) (stdout : bytes) : bytes :=
  let text := Egress.cut_body (from_utf8_lossy stdout) ARGV_OUTPUT_CHARS in
  to_vec (jobject [("output", vstr (from_utf8 text)); ("exit", from_i64 exit)]).
End argv.

(** ** The contract *)

Section harness.
Context `{Blake3} `{JsonText} `{Json Value} (from_value : Value -> option ToolSchema.Node).

Record CheckedTool : Type := mkChecked {
  ct_tool : Tool;
  ct_input : ToolSchema.ToolSchema;
  ct_output : ToolSchema.ToolSchema;
  ct_definition : Value;
}.

Definition within (lo hi n : Z) : bool := (lo <=? n) && (n <=? hi).
Definition name_byte (b : byte) : bool := is_alnum b || bool_decide (b ∈ [x5f; x2d]).
Definition hash_shape (h : string) : bool :=
  (str_len h =? 71) && match strip_prefix "blake3:" h with Some r => all_bytes is_lower_hex r | None => false end.

(** One placeholder of a binding against the properties of the input schema. *)
Definition check_placeholder (properties : list (string * Value)) (entry : string) : result string unit :=
  match placeholder entry with
  | None => Ok tt
  | Some (field, shape) =>
      let kind := match oget field properties with Some p => vget "type" p | None => Null end in
      _ ← ensure (negb (is_null kind)) ("argv placeholder " ++ field ++ " is not an input field")%string;
      match shape with
      | Switch _ => ensure (bool_decide (kind = vstr "boolean")) ("argv flag placeholder " ++ field ++ " must be a boolean field")%string
      | _ =>
          ensure (bool_decide (kind ∈ [vstr "string"; vstr "integer"; vstr "number"; vstr "boolean"]))
            ("argv placeholder " ++ field ++ " must be a scalar field")%string
      end
  end.
Fixpoint check_placeholders (properties : list (string * Value)) (entries : list string) : result string unit :=
  match entries with
  | [] => Ok tt
  | e :: es => _ ← check_placeholder properties e; check_placeholders properties es
  end.
Definition check_argv (t : Tool) (parameters : Value) (a : Argv) : result string unit :=
  let properties := as_object (vget "properties" parameters) in
  _ ← ensure ((length (args a) <=? 32)%nat && forallb (fun x => (str_len x <=? 1024) && negb (str_contains x00 x)) (args a))
        "argv binding exceeds contract";
  _ ← check_placeholders properties (args a);
  _ ← (match stdin a with
       | Some field =>
           ensure (match oget field properties with Some p => bool_decide (vget "type" p = vstr "string") | None => false end)
             "argv stdin field must be a string input field"
       | None => Ok tt
       end);
  output ← ok_or (from_slice (as_bytes (s_bytes (output_schema t)))) "invalid JSON";
  ensure (bool_decide (output = argv_output_schema)) "argv tool output schema must be the argv result shape".

(** One step of the map of [compile_tools], with the names and the paths so far. *)
Definition compile_tool (names paths : gset string) (t : Tool) : result string CheckedTool :=
  _ ← ensure (negb (str_is_empty (name t)) && (str_len (name t) <=? 64) && all_bytes name_byte (name t)
              && negb (bool_decide (name t ∈ names)) && negb (bool_decide (path t ∈ paths)))
        "invalid or duplicate tool identity";
  _ ← ensure (Closure.canonical_path (path t) && (str_len (path t) <=? 256) && negb (String.eqb (path t) "/pilot-fetch")
              && hash_shape (t_hash t)) "invalid tool path/hash";
  _ ← ensure (negb (str_is_empty (description t)) && (str_len (description t) <=? 512)
              && within 1 65536 (input_bytes t) && within 1 65536 (output_bytes t) && within 1 30000 (timeout_ms t))
        "invalid tool ceilings";
  input ← ToolSchema.parse from_value (as_bytes (s_bytes (input_schema t))) (s_hash (input_schema t));
  output ← ToolSchema.parse from_value (as_bytes (s_bytes (output_schema t))) (s_hash (output_schema t));
  parameters ← ok_or (from_slice (as_bytes (s_bytes (input_schema t)))) "invalid JSON";
  _ ← ensure (bool_decide (vget "type" parameters = vstr "object")) "JSON-tool inputs must use an object schema";
  _ ← (match argv t with Some a => check_argv t parameters a | None => Ok tt end);
  Ok (mkChecked t input output
    (jobject [("type", vstr "function");
      ("function", jobject [("name", vstr (name t)); ("description", vstr (description t)); ("parameters", parameters)])])).

Fixpoint compile_from (names paths : gset string) (l : list Tool) : result string (list CheckedTool) :=
  match l with
  | [] => Ok []
  | t :: l =>
      c ← compile_tool names paths t;
      cs ← compile_from ({[name t]} ∪ names) ({[path t]} ∪ paths) l;
      Ok (c :: cs)
  end.
Definition compile_tools : list Tool -> result string (list CheckedTool) := compile_from ∅ ∅.

Definition compile (c : Config) : result string (list CheckedTool) :=
  _ ← ensure (String.eqb (contract c) CONTRACT) "unsupported Harness contract";
  _ ← ensure (negb (blank (task c)) && (str_len (task c) <=? 2048) && (str_len (system c) <=? 2048))
        "task/persona exceeds contract";
  _ ← ensure (negb (str_is_empty (model c)) && (str_len (model c) <=? 128)
              && (starts_with "https://" (url c) || (allow_insecure c && starts_with "http://" (url c)))
              && (str_len (url c) <=? 512)) "invalid model selection";
  _ ← ensure (within 1 6 (max_turns c) && (max_calls c <=? 16) && (length (tools c) <=? 24)%nat)
        "turn/call/tool limit exceeds contract";
  _ ← ensure (within 256 4096 (max_tokens c)) "max_tokens must be 256..=4096";
  _ ← ensure (negb (require_tool_call c)
              || (negb (bool_decide (tools c = [])) && (0 <? max_calls c) && (2 <=? max_turns c)))
        "required tool call needs a selected tool and call/result budgets";
  compile_tools (tools c).

(** ** The conversation *)

Definition message (role content : string) : Value := jobject [("role", vstr role); ("content", vstr content)].
Definition initial_messages (c : Config) : list Value :=
  (if str_is_empty (system c) then [] else [message "system" (system c)]) ++ [message "user" (task c)].

(** The bytes of the texts of a history, each of which is checked first. *)
Fixpoint history_bytes (n : Z) (texts : list string) : result string Z :=
  match texts with
  | [] => Ok n
  | t :: ts =>
      _ ← ensure (negb (blank t) && negb (str_contains x00 t)) "invalid parent history text";
      _ ← ensure (n + str_len t <=? Protocol.MAX_TASK_BYTES) "parent history exceeds byte limit";
      history_bytes (n + str_len t) ts
  end.
Definition contextual_messages (c : Config) (history : list Exchange) : result string (list Value) :=
  _ ← ensure (length history <=? 16)%nat "parent history count exceeds limit";
  _ ← history_bytes 0 (concat ((fun e => [user e; assistant e]) <$> history));
  let initial := initial_messages c in
  Ok (removelast initial
      ++ concat ((fun e => [message "user" (user e); message "assistant" (assistant e)]) <$> history)
      ++ [message "user" (task c)]).

Definition model_wire (c : Config) (cts : list CheckedTool) (messages : list Value) (calls : Z) : bytes :=
  let body :=
    [("model", vstr (model c)); ("stream", VBool false); ("max_tokens", vnum (max_tokens c)); ("messages", VArray messages)]
    ++ (if bool_decide (cts = []) then []
        else [("tools", VArray (ct_definition <$> cts));
              ("tool_choice", vstr (if require_tool_call c && (calls =? 0) then "required" else "auto"))]) in
  to_vec (jobject [("apiVersion", vstr "celln.fetch/v1"); ("method", vstr "POST"); ("url", vstr (url c)); ("body", jobject body)]).
Definition model_request (c : Config) (cts : list CheckedTool) (messages : list Value) (calls : Z) : result string bytes :=
  let wire := model_wire c cts messages calls in
  _ ← ensure (blen wire <=? MODEL_WIRE_BYTES) "conversation/schema envelope exceeds broker byte limit";
  Ok wire.

(** The loop of [fit_history] over the starts of what is kept. *)
Fixpoint fit_from (c : Config) (cts : list CheckedTool) (reserve : Z) (history : list Exchange) : result string (list Exchange) :=
  match history with
  | [] => Ok []
  | _ :: rest =>
      messages ← contextual_messages c history;
      if blen (model_wire c cts messages 0) <=? MODEL_WIRE_BYTES - reserve then Ok history
      else fit_from c cts reserve rest
  end.
Definition fit_history (c : Config) (cts : list CheckedTool) (history : list Exchange) : result string (list Exchange) :=
  fit_from c cts (if bool_decide (cts = []) || (max_calls c =? 0) then 0 else TOOL_ROUND_WIRE_RESERVE) history.

Definition validate_with_history (c : Config) (history : list Exchange) : result string unit :=
  cts ← compile c;
  history ← fit_history c cts history;
  messages ← contextual_messages c history;
  _ ← model_request c cts messages 0;
  Ok tt.
Definition validate (c : Config) : result string unit := validate_with_history c [].

(** ** The loop *)

(** What a run does to the world: it asks the broker, calls a tool, reports an event.
    [replies] and [outputs] are what the broker and the tools will answer. *)
Inductive Act : Type := Ask (wire : bytes) | Call (t : Tool) (arguments : bytes) | Event (v : Value).
Record Env : Type := mkEnv {
  replies : list (result string bytes);
  outputs : list (result string bytes);
  acts : list Act;
}.
Definition Run (A : Type) : Type := Env -> result string A * Env.
#[local] Instance run_ret : MRet Run := fun A a e => (Ok a, e).
#[local] Instance run_bind : MBind Run := fun A B f m e => match m e with (Ok a, e) => f a e | (Err x, e) => (Err x, e) end.
Definition lift {A} (r : result string A) : Run A := fun e => (r, e).
Definition ask (wire : bytes) : Run bytes := fun e =>
  match replies e with
  | r :: rs => (r, mkEnv rs (outputs e) (acts e ++ [Ask wire]))
  | [] => (Err "broker unavailable", mkEnv [] (outputs e) (acts e ++ [Ask wire]))
  end.
Definition execute (t : Tool) (arguments : bytes) : Run bytes := fun e =>
  match outputs e with
  | r :: rs => (r, mkEnv (replies e) rs (acts e ++ [Call t arguments]))
  | [] => (Err "tool unavailable", mkEnv (replies e) [] (acts e ++ [Call t arguments]))
  end.
Definition event (v : Value) : Run unit := fun e => (Ok tt, mkEnv (replies e) (outputs e) (acts e ++ [Event v])).

Record Pending : Type := mkPending { p_id : string; p_tool : CheckedTool; p_arguments : string }.

(** One call of the batch that a model asked for, before any side effect. *)
Definition check_call (cts : list CheckedTool) (ids : gset string) (call : Value) : result string (Pending * Value) :=
  id ← ok_or (as_str (vget "id" call)) "missing tool-call ID";
  _ ← ensure (negb (str_is_empty id) && (str_len id <=? 128) && negb (bool_decide (id ∈ ids))
              && bool_decide (vget "type" call = vstr "function")) "duplicate or invalid tool call";
  n ← ok_or (as_str (vget "name" (vget "function" call))) "missing tool name";
  ct ← ok_or (List.find (fun ct => String.eqb (name (ct_tool ct)) n) cts) "unselected tool requested";
  arguments ← ok_or (as_str (vget "arguments" (vget "function" call))) "missing JSON arguments";
  _ ← ToolSchema.validate (ct_input ct) (as_bytes arguments) (input_bytes (ct_tool ct));
  Ok (mkPending id ct arguments,
      jobject [("id", vstr id); ("type", vstr "function");
        ("function", jobject [("name", vstr n); ("arguments", vstr arguments)])]).
Fixpoint check_calls (cts : list CheckedTool) (ids : gset string) (calls : list Value) :
    result string (gset string * list Pending * list Value) :=
  match calls with
  | [] => Ok (ids, [], [])
  | call :: calls =>
      '(p, v) ← check_call cts ids call;
      '(ids, ps, vs) ← check_calls cts ({[p_id p]} ∪ ids) calls;
      Ok (ids, p :: ps, v :: vs)
  end.

Definition parse_value (b : bytes) : result string Value := ok_or (from_slice b) "invalid JSON".

Fixpoint run_calls (ps : list Pending) (calls : Z) (messages : list Value) : Run (Z * list Value) :=
  match ps with
  | [] => mret (calls, messages)
  | p :: ps =>
      let t := ct_tool (p_tool p) in
      output ← execute t (as_bytes (p_arguments p));
      _ ← lift (ToolSchema.validate (ct_output (p_tool p)) output (output_bytes t));
      _ ← lift (ensure (utf8_valid output) "invalid UTF-8");
      arguments ← lift (parse_value (as_bytes (p_arguments p)));
      result ← lift (parse_value output);
      _ ← event (jobject [("type", vstr "tool"); ("id", vstr (p_id p)); ("name", vstr (name t)); ("hash", vstr (t_hash t));
            ("inputSchema", vstr (s_hash (input_schema t))); ("outputSchema", vstr (s_hash (output_schema t)));
            ("arguments", arguments); ("result", result)]);
      run_calls ps (calls + 1)
        (messages ++ [jobject [("role", vstr "tool"); ("tool_call_id", vstr (p_id p)); ("content", vstr (from_utf8 output))]])
  end.

Definition tool_calls_of (m : Value) : result string (list Value) :=
  match vget "tool_calls" m with Null => Ok [] | VArray l => Ok l | _ => Err "invalid tool call list" end.

(** A model that stopped at the length of its output without a text. *)
Definition starved (choice : Value) : bool :=
  bool_decide (vget "finish_reason" choice = vstr "length")
  && match vget "content" (vget "message" choice) with VString text => blank text | Null => true | _ => false end.

(** The end of a conversation: the model called nothing. *)
Definition final_answer (c : Config) (choice : Value) (calls : Z) : result string string :=
  _ ← ensure (negb (require_tool_call c) || (0 <? calls)) "model completed without required tool execution";
  _ ← ensure (negb (starved choice)) (empty_at_length (max_tokens c));
  answer ← ok_or (as_str (vget "content" (vget "message" choice))) "missing final answer";
  _ ← ensure (negb (blank answer)) "final answer is empty";
  _ ← ensure (str_len answer <=? MAX_ANSWER_BYTES) answer_too_long;
  Ok answer.

(** The one choice of a response, and the calls it asks for, within the budget left. *)
Definition read_response (c : Config) (response : bytes) (calls : Z) : result string (Value * list Value) :=
  _ ← ensure (blen response <=? 1048576) "model response exceeds limit";
  v ← parse_value response;
  choices ← ok_or (as_array (vget "choices" v)) "missing model choices";
  match choices with
  | [choice] =>
      _ ← ensure (bool_decide (vget "role" (vget "message" choice) = vstr "assistant")) "invalid response role";
      l ← tool_calls_of (vget "message" choice);
      _ ← ensure (Z.of_nat (length l) <=? Z.max 0 (max_calls c - calls)) "tool call budget exhausted";
      Ok (choice, l)
  | _ => Err "exactly one model choice required"
  end.

(** The turns that are left, the first of which is [turn]. *)
Fixpoint run_turns (c : Config) (cts : list CheckedTool) (left_ : nat) (turn : Z) (messages : list Value)
    (ids : gset string) (calls : Z) : Run string :=
  match left_ with
  | O => lift (Err "model turn budget exhausted")
  | S left_ =>
      wire ← lift (model_request c cts messages calls);
      response ← ask wire;
      '(choice, l) ← lift (read_response c response calls);
      _ ← event (jobject [("type", vstr "model"); ("turn", vnum turn); ("model", vstr (model c))]);
      if bool_decide (l = []) then
        answer ← lift (final_answer c choice calls);
        _ ← event (jobject [("type", vstr "completed"); ("answer", vstr answer); ("calls", vnum calls); ("answerLimit", vnum MAX_ANSWER_BYTES)]);
        mret answer
      else
        _ ← lift (ensure (turn + 1 <? max_turns c) "model budget leaves no tool result turn");
        '(ids, ps, vs) ← lift (check_calls cts ids l);
        let content := vget "content" (vget "message" choice) in
        _ ← lift (ensure (is_null content || is_Some_bool (as_str content)) "invalid assistant content");
        '(calls, messages) ← run_calls ps calls
          (messages ++ [jobject [("role", vstr "assistant"); ("content", content); ("tool_calls", VArray vs)]]);
        run_turns c cts left_ (turn + 1) messages ids calls
  end.

Definition run_with_history (c : Config) (history : list Exchange) : Run string :=
  cts ← lift (compile c);
  _ ← event (jobject [("type", vstr "ready"); ("tools", vnum (Z.of_nat (length cts)))]);
  kept ← lift (fit_history c cts history);
  _ ← (if (length kept <? length history)%nat
       then event (jobject [("type", vstr "context"); ("historyKept", vnum (Z.of_nat (length kept)));
              ("historyDropped", vnum (Z.of_nat (length history - length kept)))])
       else mret tt);
  messages ← lift (contextual_messages c kept);
  run_turns c cts (Z.to_nat (max_turns c)) 0 messages ∅ 0.
Definition run (c : Config) : Run string := run_with_history c [].

(** ** One tool without a model *)

Definition direct_tool (d : DirectConfig) : result string CheckedTool :=
  _ ← ensure (String.eqb (d_contract d) DIRECT_CONTRACT) "unsupported direct contract";
  _ ← ensure (negb (is_Some_bool (argv (d_tool d)))) "direct contract does not support argv-bound tools";
  ct ← compile_tool ∅ ∅ (d_tool d);
  _ ← ToolSchema.validate (ct_input ct) (as_bytes (d_arguments d)) (input_bytes (ct_tool ct));
  Ok ct.
Definition validate_direct (d : DirectConfig) : result string unit := _ ← direct_tool d; Ok tt.
Definition run_direct (d : DirectConfig) : Run bytes :=
  ct ← lift (direct_tool d);
  output ← execute (ct_tool ct) (as_bytes (d_arguments d));
  _ ← lift (ToolSchema.validate (ct_output ct) output (output_bytes (ct_tool ct)));
  mret output.
End harness.
