(* ===== verification/HarnessLaws.v ===== *)
(** * What a model can make a guest do

    The trace of a run against an acceptor of what the configuration allows, and the
    command lines that a model's arguments become. *)

From S2P Require Import Prelude Text Json Manifest Harness.
From S2P Require Protocol ToolSchema Closure.

(** ** Command lines *)

(** What an entry may become: a literal as it stands, a flag, a value of its own, which
    has no NUL, or nothing. *)
Inductive binds `{Json Value} (number_text : Number -> string) (input : list (string * Value)) : string -> list string -> Prop :=
| binds_literal e : placeholder e = None -> binds number_text input e [e]
| binds_switch e f flag : placeholder e = Some (f, Switch flag) -> oget f input = Some (VBool true) -> binds number_text input e [flag]
| binds_off e f flag : placeholder e = Some (f, Switch flag) -> oget f input <> Some (VBool true) -> binds number_text input e []
| binds_value e f v : placeholder e = Some (f, PValue) -> arg_text number_text input f = Ok (Some v) ->
    str_contains x00 v = false -> binds number_text input e [v]
| binds_option e f flag v : placeholder e = Some (f, Option_ flag) -> arg_text number_text input f = Ok (Some v) ->
    str_contains x00 v = false -> binds number_text input e [flag; v]
| binds_absent e f s : placeholder e = Some (f, s) -> match s with Switch _ => False | _ => True end ->
    arg_text number_text input f = Ok None -> binds number_text input e [].

Section laws.
Context `{Blake3} `{JsonText} `{Json Value} (from_value : Value -> option ToolSchema.Node).

Lemma entry_binds number_text input e l : entry_args number_text input e = Ok l <-> binds number_text input e l.
Proof.
  unfold entry_args. split.
  - destruct (placeholder e) as [[f [|flag|flag]]|] eqn:Ep.
    + rewrite result_bind_Ok. intros ([v|] & Et & Hl); [|injection Hl as <-; by eapply binds_absent].
      rewrite result_bind_Ok in Hl. destruct Hl as ([] & Hn%ensure_Ok & [= <-]). apply negb_true_iff in Hn. by eapply binds_value.
    + intros [= <-]. case_bool_decide; [by eapply binds_switch|by eapply binds_off].
    + rewrite result_bind_Ok. intros ([v|] & Et & Hl); [|injection Hl as <-; by eapply binds_absent].
      rewrite result_bind_Ok in Hl. destruct Hl as ([] & Hn%ensure_Ok & [= <-]). apply negb_true_iff in Hn. by eapply binds_option.
    + intros [= <-]. by apply binds_literal.
  - intros [e' Ep|e' f flag Ep Eg|e' f flag Ep Eg|e' f v Ep Et Hn|e' f flag v Ep Et Hn|e' f s Ep Hs Et]; rewrite Ep; try done.
    + by rewrite bool_decide_eq_true_2.
    + by rewrite bool_decide_eq_false_2.
    + rewrite Et. cbn. unfold no_nul. by rewrite Hn.
    + rewrite Et. cbn. unfold no_nul. by rewrite Hn.
    + destruct s; [|done|]; by rewrite Et.
Qed.

Lemma all_binds number_text input es l :
  all_args number_text input es = Ok l <-> exists ls, Forall2 (binds number_text input) es ls /\ l = concat ls.
Proof.
  revert l. induction es as [|e es IH]; intros l; cbn.
  - split; [intros [= <-]; by exists []|]. by intros (ls & ->%Forall2_nil_inv_l & ->).
  - rewrite result_bind_Ok. setoid_rewrite result_bind_Ok. setoid_rewrite IH. split.
    + intros (a & Ha%entry_binds & l' & (ls & Hls & ->) & [= <-]). exists (a :: ls). by split; [constructor|].
    + intros (ls & Hls & ->). apply Forall2_cons_inv_l in Hls as (a & ls' & Ha & Hls & ->).
      exists a. split; [by apply entry_binds|]. exists (concat ls'). split; [by exists ls'|done].
Qed.

(** A model's arguments become a command line only through the binding of the tool:
    each entry of the binding gives its own part of the command line, in order, and an
    argument of the model is one whole element of it, never split, joined or read as an
    option of its own, and never cut by a NUL byte. *)
Theorem argv_exact number_text (t : Tool) (arguments : bytes) l fed :
  argv_invocation number_text t arguments = Ok (l, fed) <->
  exists binding input ls text,
    argv t = Some binding /\ from_slice arguments = Some (VObject input) /\
    Forall2 (binds number_text input) (args binding) ls /\ l = concat ls /\
    match stdin binding with Some field => arg_text number_text input field = Ok text | None => text = None end /\
    fed = as_bytes (default "" text).
Proof.
  unfold argv_invocation. destruct (argv t) as [binding|]; cbn; [|split; [done|naive_solver]].
  destruct (from_slice arguments) as [v|]; cbn; [|split; [done|naive_solver]].
  destruct v as [| | | | |input]; cbn; try (split; [done|naive_solver]). rewrite result_bind_Ok. setoid_rewrite result_bind_Ok. split.
  - intros (l' & (ls & Hls & ->)%all_binds & text & Hf & [= <- <-]). exists binding, input, ls, text. split_and!; try done.
    destruct (stdin binding); [done|by injection Hf].
  - intros (b & i & ls & text & [= <-] & [= <-] & Hls & -> & Hf & ->). exists (concat ls). split; [apply all_binds; by exists ls|].
    exists text. split; [|done]. destruct (stdin binding); [done|by subst].
Qed.

(** ** The loop *)

(** A tool that was lent, with arguments of its input schema. *)
Definition lent (c : Config) (t : Tool) (arguments : bytes) : Prop :=
  t ∈ tools c /\ exists schema,
    ToolSchema.parse from_value (as_bytes (s_bytes (input_schema t))) (s_hash (input_schema t)) = Ok schema /\
    ToolSchema.validate schema arguments (input_bytes t) = Ok tt.

(** The traces that a configuration allows after [asked] requests and [called] calls: a
    request is within the budget and the size of the wire, and a call is of a lent tool,
    within the budget, after a request and before the last one. *)
Fixpoint allowed (c : Config) (asked called : Z) (l : list Act) : Prop :=
  match l with
  | [] => True
  | Ask wire :: l => asked < max_turns c /\ blen wire <= MODEL_WIRE_BYTES /\ allowed c (asked + 1) called l
  | Call t arguments :: l =>
      0 < asked < max_turns c /\ called < max_calls c /\ lent c t arguments /\ allowed c asked (called + 1) l
  | Event _ :: l => allowed c asked called l
  end.
Definition is_ask (a : Act) : bool := match a with Ask _ => true | _ => false end.
Definition is_call (a : Act) : bool := match a with Call _ _ => true | _ => false end.
Definition asks (l : list Act) : Z := Z.of_nat (length (filter (fun a => is_ask a = true) l)).
Definition calls_in (l : list Act) : Z := Z.of_nat (length (filter (fun a => is_call a = true) l)).

Lemma asks_cons a l : asks (a :: l) = asks l + match a with Ask _ => 1 | _ => 0 end.
Proof. unfold asks. destruct a; rewrite ?filter_cons_True, ?filter_cons_False by done; cbn [length]; lia. Qed.
Lemma calls_cons a l : calls_in (a :: l) = calls_in l + match a with Call _ _ => 1 | _ => 0 end.
Proof. unfold calls_in. destruct a; rewrite ?filter_cons_True, ?filter_cons_False by done; cbn [length]; lia. Qed.

Lemma allowed_app c a n l k : allowed c a n (l ++ k) <-> allowed c a n l /\ allowed c (a + asks l) (n + calls_in l) k.
Proof.
  revert a n. induction l as [|x l IH]; intros a n.
  - cbn. unfold asks, calls_in. cbn. rewrite !Z.add_0_r. tauto.
  - rewrite asks_cons, calls_cons. cbn [app]. destruct x; cbn [allowed]; rewrite IH; rewrite ?Z.add_0_r.
    + replace (a + 1 + asks l) with (a + (asks l + 1)) by lia. tauto.
    + replace (n + 1 + calls_in l) with (n + (calls_in l + 1)) by lia. tauto.
    + tauto.
Qed.

Lemma counts_nonneg l : 0 <= asks l /\ 0 <= calls_in l.
Proof. unfold asks, calls_in. lia. Qed.
Lemma allowed_counts c a n l : allowed c a n l -> a <= max_turns c -> n <= Z.max 0 (max_calls c) ->
  a + asks l <= max_turns c /\ n + calls_in l <= Z.max 0 (max_calls c).
Proof.
  revert a n. induction l as [|x l IH]; intros a n Hl Ha Hn.
  - unfold asks, calls_in. cbn. lia.
  - rewrite asks_cons, calls_cons. destruct x; cbn in Hl.
    + destruct Hl as (? & _ & Hl). apply IH in Hl; lia.
    + destruct Hl as (? & ? & _ & Hl). apply IH in Hl; lia.
    + apply IH in Hl; lia.
Qed.

(** [m] adds a trace to what was done, and its result and that trace satisfy [Q]. *)
Definition does {A} (m : Run A) (Q : result string A -> list Act -> Prop) : Prop :=
  forall e, exists l, acts (m e).2 = acts e ++ l /\ Q (m e).1 l.

Lemma does_bind {A B} (m : Run A) (f : A -> Run B) Q :
  does m (fun r l => match r with Ok a => does (f a) (fun r' l' => Q r' (l ++ l')) | Err x => Q (Err x) l end) ->
  does (run_bind _ _ f m) Q.
Proof.
  intros Hm e. destruct (Hm e) as (l & E & HQ). unfold run_bind. destruct (m e) as [[a|x] e']; cbn in *; [|by exists l].
  destruct (HQ e') as (l' & E' & HQ'). exists (l ++ l'). by rewrite E', E, app_assoc.
Qed.
Lemma does_mono {A} (m : Run A) (Q Q' : result string A -> list Act -> Prop) :
  does m Q -> (forall r l, Q r l -> Q' r l) -> does m Q'.
Proof. intros Hm HQ e. destruct (Hm e) as (l & E & H'). exists l. auto. Qed.
Lemma does_ret {A} (a : A) (Q : result string A -> list Act -> Prop) : Q (Ok a) [] -> does (run_ret _ a) Q.
Proof. intros HQ e. exists []. by rewrite app_nil_r. Qed.
Lemma does_lift {A} (r : result string A) Q : Q r [] -> does (lift r) Q.
Proof. intros HQ e. exists []. by rewrite app_nil_r. Qed.
Lemma does_event v Q : Q (Ok tt) [Event v] -> does (event v) Q.
Proof. intros HQ e. by exists [Event v]. Qed.
Lemma does_ask wire Q : (forall r, Q r [Ask wire]) -> does (ask wire) Q.
Proof. intros HQ e. exists [Ask wire]. unfold ask. by destruct (replies e). Qed.
Lemma does_execute t b Q : (forall r, Q r [Call t b]) -> does (execute t b) Q.
Proof. intros HQ e. exists [Call t b]. unfold execute. by destruct (outputs e). Qed.

(** ** What was compiled *)

Definition compiled (c : Config) (ct : CheckedTool) : Prop :=
  ct_tool ct ∈ tools c /\
  ToolSchema.parse from_value (as_bytes (s_bytes (input_schema (ct_tool ct)))) (s_hash (input_schema (ct_tool ct))) = Ok (ct_input ct).

Lemma compile_tool_Ok names paths t ct : compile_tool from_value names paths t = Ok ct ->
  ct_tool ct = t /\ ToolSchema.parse from_value (as_bytes (s_bytes (input_schema t))) (s_hash (input_schema t)) = Ok (ct_input ct).
Proof.
  unfold compile_tool. intros Hc. split_ok. done.
Qed.
Lemma compile_from_Ok l : forall names paths cts, compile_from from_value names paths l = Ok cts ->
  Forall (fun ct => ct_tool ct ∈ l /\
    ToolSchema.parse from_value (as_bytes (s_bytes (input_schema (ct_tool ct)))) (s_hash (input_schema (ct_tool ct))) = Ok (ct_input ct)) cts.
Proof.
  induction l as [|t l IH]; intros names paths cts; cbn.
  - by intros [= <-].
  - intros Hc. apply result_bind_Ok in Hc as (ct & [<- Hp]%compile_tool_Ok & Hc). apply result_bind_Ok in Hc as (cts' & Hcs & [= <-]).
    constructor; [by split; [left|]|]. eapply Forall_impl; [by eapply IH|]. intros x [Hx ?]. by split; [right|].
Qed.
Lemma compile_Ok c cts : compile from_value c = Ok cts -> Forall (compiled c) cts.
Proof. unfold compile. intros Hc. split_ok. by eapply compile_from_Ok.
Qed.

Lemma compile_limits c cts : compile from_value c = Ok cts -> 1 <= max_turns c <= 6 /\ max_calls c <= 16.
Proof. unfold compile, within. intros Hc. split_ok. reflect. lia. Qed.

Definition checked (c : Config) (p : Pending) : Prop :=
  lent c (ct_tool (p_tool p)) (as_bytes (p_arguments p)).

Lemma check_call_Ok c cts ids call p v : Forall (compiled c) cts -> check_call cts ids call = Ok (p, v) -> checked c p.
Proof.
  intros Hc. unfold check_call. intros Hp. split_ok.
  match goal with E : List.find _ _ = Some _ |- _ => apply List.find_some in E as [Hin%list_elem_of_In _] end.
  pose proof (proj1 (Forall_forall _ _) Hc _ Hin) as [? ?]. split; [done|]. cbn. eexists. split; [done|]. match goal with E : ToolSchema.validate _ _ _ = Ok ?u |- _ => by destruct u end.
Qed.
Lemma check_calls_Ok c cts calls : Forall (compiled c) cts -> forall ids ids' ps vs,
  check_calls cts ids calls = Ok (ids', ps, vs) -> Forall (checked c) ps /\ length ps = length calls.
Proof.
  intros Hc. induction calls as [|call calls IH]; intros ids ids' ps vs; cbn.
  - by intros [= <- <- <-].
  - intros Hp. apply result_bind_Ok in Hp as ([p v] & Hcall & Hp). apply result_bind_Ok in Hp as ([[ids1 ps1] vs1] & Hcs & [= <- <- <-]).
    apply IH in Hcs as [? ?]. split; [constructor; [by eapply check_call_Ok|done]|cbn; lia].
Qed.

(** ** The loop keeps to its configuration *)

Lemma asks_app l k : asks (l ++ k) = asks l + asks k.
Proof. unfold asks. rewrite filter_app, length_app. lia. Qed.
Lemma calls_app l k : calls_in (l ++ k) = calls_in l + calls_in k.
Proof. unfold calls_in. rewrite filter_app, length_app. lia. Qed.

(** A call that is lent, followed by what does not depend on it. *)
Lemma does_bind_ret {A B} (m : Run A) (f : A -> Run B) Q :
  does m (fun r l => l = [] /\ match r with Ok a => does (f a) Q | Err x => Q (Err x) [] end) -> does (run_bind _ _ f m) Q.
Proof. intros Hm. apply does_bind. eapply does_mono; [exact Hm|]. intros [a|x] l [-> ?]; done. Qed.
Lemma does_lift_bind {A B} (r : result string A) (f : A -> Run B) Q :
  match r with Ok a => does (f a) Q | Err x => Q (Err x) [] end -> does (run_bind _ _ f (lift r)) Q.
Proof. intros HQ. apply does_bind_ret, does_lift. done. Qed.

(** The calls of a batch: each was checked before the first one was made. *)
Lemma run_calls_does c ps : forall calls messages,
  Forall (checked c) ps -> calls + Z.of_nat (length ps) <= max_calls c ->
  does (run_calls ps calls messages) (fun r l =>
    (forall a, 0 < a < max_turns c -> allowed c a calls l) /\ asks l = 0 /\
    match r with Ok (n, _) => n = calls + Z.of_nat (length ps) /\ calls_in l = Z.of_nat (length ps) | Err _ => True end).
Proof.
  induction ps as [|p ps IH]; intros calls messages Hps Hn; cbn [run_calls].
  - apply does_ret. split; [done|]. split; [done|]. unfold calls_in. cbn. lia.
  - apply Forall_cons in Hps as [Hp Hps]. cbn [length] in *.
    assert (Hcall : forall a, 0 < a < max_turns c -> allowed c a calls [Call (ct_tool (p_tool p)) (as_bytes (p_arguments p))]).
    { intros a Ha. cbn. split_and!; try done; lia. }
    apply does_bind, does_execute. intros [output|x]; [|by split_and!].
    do 4 (apply does_lift_bind; match goal with |- match ?r with _ => _ end => destruct r; [|by split_and!] end).
    apply does_bind, does_event. eapply does_mono; [apply IH; [done|lia]|]. cbn [app]. intros r l (Hl & Ha & Hr). split_and!.
    + intros a' Ha'. cbn. split_and!; try lia; [done|by apply Hl].
    + rewrite !asks_cons. lia.
    + rewrite !calls_cons. destruct r as [[n ?]|]; [|done]. cbn [length] in *. lia.
Qed.

(** What a finished conversation gives, after [calls] calls that were made before it. *)
Definition answered (c : Config) (calls : Z) (answer : string) (l : list Act) : Prop :=
  blank answer = false /\ str_len answer <= MAX_ANSWER_BYTES /\
  (require_tool_call c = true -> 0 < calls + calls_in l) /\
  exists k, l = k ++ [Event (jobject [("type", vstr "completed"); ("answer", vstr answer);
                               ("calls", vnum (calls + calls_in l)); ("answerLimit", vnum MAX_ANSWER_BYTES)])].

Lemma final_answer_Ok c choice calls answer : final_answer c choice calls = Ok answer ->
  blank answer = false /\ str_len answer <= MAX_ANSWER_BYTES /\ (require_tool_call c = true -> 0 < calls).
Proof.
  unfold final_answer. intros Hf. split_ok. reflect. split_and!; try done. intros Hr. rewrite Hr in *. naive_solver.
Qed.

Lemma read_response_Ok c response calls choice l : read_response c response calls = Ok (choice, l) ->
  Z.of_nat (length l) <= Z.max 0 (max_calls c - calls).
Proof.
  unfold read_response. intros Hr. split_ok. destruct x1 as [|? [|]]; try done. split_ok. by reflect.
Qed.

Lemma answered_app c calls answer l k : answered c (calls + calls_in l) answer k -> answered c calls answer (l ++ k).
Proof.
  intros (? & ? & Hr & j & E). unfold answered. rewrite calls_app, Z.add_assoc. split_and!; try done.
  exists (l ++ j). by rewrite <- app_assoc, <- E.
Qed.

Lemma run_turns_does c cts left_ : Forall (compiled c) cts -> forall turn messages ids calls,
  0 <= turn -> turn + Z.of_nat left_ = max_turns c ->
  does (run_turns c cts left_ turn messages ids calls) (fun r l =>
    allowed c turn calls l /\ match r with Ok answer => answered c calls answer l | Err _ => True end).
Proof.
  intros Hcts. induction left_ as [|left_ IH]; intros turn messages ids calls Ht Hm; cbn [run_turns].
  - by apply does_lift.
  - apply does_lift_bind. destruct (model_request c cts messages calls) as [wire|] eqn:Ew; [|done].
    assert (Hask : allowed c turn calls [Ask wire]).
    { unfold model_request in Ew. split_ok. reflect. cbn. split_and!; [lia|done|done]. }
    apply does_bind, does_ask. intros [response|]; [|done].
    apply does_lift_bind. destruct (read_response c response calls) as [[choice l]|] eqn:Er; [|done]. apply read_response_Ok in Er.
    apply does_bind, does_event. case_bool_decide as Hl.
    + apply does_lift_bind. destruct (final_answer c choice calls) as [answer|] eqn:Ef; [|done]. apply final_answer_Ok in Ef as (? & ? & ?).
      apply does_bind, does_event, does_ret. split; [exact Hask|]. apply (answered_app c calls answer [Ask wire; Event _]).
      unfold answered. change (calls_in [_; _]) with 0. change (calls_in [_]) with 0. rewrite !Z.add_0_r. split_and!; try done. by exists [].
    + apply does_lift_bind. destruct (ensure _ _) eqn:Et; [|done]. apply ensure_Ok in Et. apply Z.ltb_lt in Et.
      apply does_lift_bind. destruct (check_calls cts ids l) as [[[ids' ps] vs]|] eqn:Ec; [|done]. apply (check_calls_Ok _ _ _ Hcts) in Ec as [Hps Hlen].
      apply does_lift_bind. destruct (ensure _ _); [|done].
      assert (0 < Z.of_nat (length l)) by (destruct l; [done|cbn; lia]).
      apply does_bind. eapply does_mono; [apply run_calls_does; [exact Hps|lia]|]. cbn beta. intros [[n messages']|x] k (Hk & Hk0 & Hr).
      * destruct Hr as [-> Hkn]. eapply does_mono; [apply IH; lia|]. cbn beta. intros r k' [Hk' Hr].
        split.
        -- cbn in Hask |- *. split_and!; [lia|apply Hask|]. apply allowed_app. split; [apply Hk; lia|]. by rewrite Hk0, Hkn, Z.add_0_r.
        -- destruct r as [answer|]; [|done]. apply (answered_app c calls answer [Ask wire; Event _]), answered_app.
           change (calls_in [_; _]) with 0. by rewrite Z.add_0_r, Hkn.
      * split; [|done]. cbn in Hask |- *. split_and!; [lia|apply Hask|]. apply Hk. lia.
Qed.

Lemma run_does c history : does (run_with_history from_value c history) (fun r l => allowed c 0 0 l /\
    match compile from_value c, r with
    | Err x, _ => l = [] /\ r = Err x
    | Ok _, Ok answer => answered c 0 answer l
    | Ok _, Err _ => True
    end).
Proof.
  unfold run_with_history. apply does_lift_bind. destruct (compile from_value c) as [cts|] eqn:Ec; [|done].
  pose proof (compile_Ok _ _ Ec) as Hcts. pose proof (compile_limits _ _ Ec) as [Hm _]. apply does_bind, does_event.
  apply does_lift_bind. destruct (fit_history c cts history) as [kept|]; [|done].
  apply does_bind. apply (does_mono _ (fun r l => r = Ok tt /\ allowed c 0 0 l /\ asks l = 0 /\ calls_in l = 0)).
  { destruct (_ <? _)%nat; [by apply does_event|by apply does_ret]. }
  intros r l (-> & Hl & Ha & Hn). apply does_lift_bind.
  destruct (contextual_messages c kept) as [messages|]; [|by rewrite app_nil_r].
  eapply does_mono; [apply run_turns_does; [done|lia|lia]|]. cbn beta. intros r k [Hk Hr]. split.
  - cbn. apply allowed_app. by rewrite Ha, Hn.
  - destruct r; [|done]. apply (answered_app c 0 _ [Event _]), answered_app. change (calls_in [_]) with 0. by rewrite Hn.
Qed.

(** C8: Whatever the model, the tools and the broker answer, a conversation does only what
    its configuration allows: at most as many requests as it has turns (and never more
    than six), each within the size of the wire; at most as many calls as its budget (and
    never more than sixteen), each of a tool that was lent, with arguments that its
    declared input schema accepts, after a request and with a turn left for its result.
    An answer is never blank or over its limit, comes only after a call where one is
    required, and is reported exactly at the end, with the number of calls that were made.
    A configuration that does not compile does nothing. *)
Theorem harness_bounded (c : Config) (history : list Exchange) (e : Env) :
  let '(r, e') := run_with_history from_value c history e in
  exists l, acts e' = acts e ++ l /\ allowed c 0 0 l /\ asks l <= Z.min 6 (Z.max 0 (max_turns c)) /\
    calls_in l <= Z.min 16 (Z.max 0 (max_calls c)) /\
    match compile from_value c, r with
    | Err x, _ => l = [] /\ r = Err x
    | Ok _, Ok answer => answered c 0 answer l
    | Ok _, Err _ => True
    end.
Proof.
  destruct (run_does c history e) as (l & E & Hl & Hr). destruct (run_with_history from_value c history e) as [r e']. cbn in *.
  exists l. split; [done|]. split; [done|]. destruct (compile from_value c) as [cts|x] eqn:Ec.
  - apply compile_limits in Ec. pose proof (allowed_counts c 0 0 l Hl). split_and!; [lia|lia|done].
  - destruct Hr as [-> ->]. unfold asks, calls_in. cbn. split_and!; (lia || done).
Qed.

(** ** What of a history is kept *)

Definition fits (c : Config) (cts : list CheckedTool) (history : list Exchange) : Prop :=
  exists messages, contextual_messages c history = Ok messages /\
    blen (model_wire c cts messages 0) <=
    MODEL_WIRE_BYTES - (if bool_decide (cts = []) || (max_calls c =? 0) then 0 else TOOL_ROUND_WIRE_RESERVE).

Lemma history_bytes_tail n m texts k : history_bytes n texts = Ok k -> 0 <= m <= n -> exists k', history_bytes m texts = Ok k'.
Proof.
  revert n m. induction texts as [|t ts IH]; intros n m; cbn; [by eexists|]. intros Hk Hm. split_ok. reflect.
  unfold ensure at 1.
  replace (negb (blank t) && negb (str_contains x00 t)) with true by (symmetry; reflect; naive_solver). cbn.
  rewrite (proj2 (Z.leb_le _ _)) by lia. cbn. eapply IH; [done|]. unfold str_len, blen in *. lia.
Qed.
Lemma contextual_tail c x history m : contextual_messages c (x :: history) = Ok m -> exists m', contextual_messages c history = Ok m'.
Proof.
  unfold contextual_messages. intros Hm. apply result_bind_Ok in Hm as (u & Hl%ensure_Ok & Hm). apply result_bind_Ok in Hm as (k & Hk & _).
  apply Nat.leb_le in Hl. cbn [length] in Hl. rewrite (proj2 (Nat.leb_le _ _)) by lia. cbn in Hk |- *. split_ok. reflect.
  match goal with E : history_bytes ?n _ = Ok _ |- _ => destruct (history_bytes_tail n 0 _ _ E) as [k' ->] end.
  { unfold str_len. lia. }
  by eexists.
Qed.

Lemma fit_from_longest c cts reserve history m : contextual_messages c history = Ok m ->
  let fitting h := exists m, contextual_messages c h = Ok m /\ blen (model_wire c cts m 0) <= MODEL_WIRE_BYTES - reserve in
  exists dropped kept, fit_from c cts reserve history = Ok kept /\ history = dropped ++ kept /\ (kept = [] \/ fitting kept) /\
    forall d k, history = d ++ k -> (length kept < length k)%nat -> ~ fitting k.
Proof.
  intros Hm fitting. revert m Hm. induction history as [|x history IH]; intros m Hm; cbn [fit_from].
  - exists [], []. split_and!; [done|done|by left|]. intros d k [-> ->]%eq_sym%app_nil. cbn. lia.
  - rewrite Hm. cbn [mbind result_bind]. destruct (Z.leb_spec (blen (model_wire c cts m 0)) (MODEL_WIRE_BYTES - reserve)) as [Hfit|Hover].
    + exists [], (x :: history). split_and!; [done|done|right; by exists m|]. intros d k E Hk. apply (f_equal length) in E.
      rewrite length_app in E. cbn in E, Hk. lia.
    + destruct (contextual_tail _ _ _ _ Hm) as [m' Hm']. destruct (IH m' Hm') as (dropped & kept & Hf & -> & Hkept & Hmax).
      exists (x :: dropped), kept. split_and!; [done|done|done|]. intros [|y d] k E Hk.
      * cbn in E. subst k. intros (m2 & Hm2 & Hle). rewrite Hm in Hm2. injection Hm2 as <-. lia.
      * injection E as <- E. by eapply Hmax.
Qed.

(** The loop drops as few of the oldest exchanges of a conversation as it must: what it
    keeps of a history is the longest ending of it whose first request fits the wire, with
    half of the wire kept free where a tool may be called, and is never empty unless no
    ending fits; a history that is too long or has a text that is blank, has a NUL or is
    over the byte limit is refused whole. *)
Theorem history_longest (c : Config) (cts : list CheckedTool) (history : list Exchange) :
  match contextual_messages c history with
  | Err x => fit_history c cts history = Err x
  | Ok _ => exists dropped kept, fit_history c cts history = Ok kept /\ history = dropped ++ kept /\ (kept = [] \/ fits c cts kept) /\
      forall d k, history = d ++ k -> (length kept < length k)%nat -> ~ fits c cts k
  end.
Proof.
  destruct (contextual_messages c history) as [m|x] eqn:Hm; [by eapply fit_from_longest|].
  destruct history as [|e history]; [done|]. unfold fit_history. cbn [fit_from]. by rewrite Hm.
Qed.
End laws.
