(* ===== verification/ParentContext.v ===== *)
(** * The context of an enduring parent ([crates/celln-pilot/src/parent_harness.rs])

    The conversation that a parent's guest keeps: it turns a message of the host into
    the request of a worker, and the worker's result into memory. The tasks of workers
    are packed into a byte bound. *)

From S2P Require Import Prelude Text Protocol.
From S2P Require Mailbox Harness.

Definition VERSION : string := "celln.parent-context/v1".
Definition MAX_SEED_EXCHANGES : Z := 16.
Definition SEED_HEADROOM_BYTES : Z := 512.
Definition MAX_TASK_EXCHANGES : Z := MAX_SEED_EXCHANGES.
Definition TRUNCATION_MARKER : string := "…[truncated]".

Notation Exchange := Harness.Exchange.
Notation mkExchange := Harness.mkExchange.
Notation user := Harness.user.
Notation assistant := Harness.assistant.

(** [{"history":[..],"message":..}], written here and read by the turn worker. *)
Record ContextInput : Type := mkContext { c_history : list Exchange; c_message : string }.

Inductive HostMessage : Type :=
| HTurn (version turn message : string)
| HResult (version turn : string) (succeeded : bool) (answer : string)
| HSeed (version : string) (history : list Exchange).
Inductive ParentReply : Type :=
| Spawn (request : TurnRequest)
| Completed (version turn : string) (succeeded : bool) (answer : string)
| Seeded (version : string) (exchanges : Z).

Record ParentContext : Type := mkParent {
  history : list Exchange;
  pending : option (string * string);
  seen : gset string;
}.
Definition default : ParentContext := mkParent [] None ∅.

(** ** Packing a task *)

(** The bytes at which a character of a UTF-8 text starts; the first one always does. *)
Fixpoint char_starts (i : nat) (b : bytes) : list nat :=
  match b with [] => [] | x :: b => (if cont x then [] else [i]) ++ char_starts (S i) b end.
Definition char_indices (b : bytes) : list nat := match b with [] => [] | _ :: b => O :: char_starts 1 b end.

(** The binary search of [pack_task]; [fuel] bounds its steps. *)
Fixpoint search (fits : nat -> bool) (fuel : nat) (low high : nat) : nat :=
  match fuel with
  | O => low
  | S fuel =>
      if (low <? high)%nat
      then let middle := ((low + high + 1) / 2)%nat in
           if fits middle then search fits fuel middle high else search fits fuel low (middle - 1)
      else low
  end.

Section context.
Context `{Json Exchange} `{Json ContextInput} `{Json HostMessage} `{Json ParentReply} `{Json TurnRequest}.

Definition encode_task (h : list Exchange) (message : string) : string := from_utf8 (to_vec (mkContext h message)).

(** The newest exchanges that fit the room, with the room that is left. *)
Fixpoint pack_loop (room : Z) (kept older : list Exchange) : Z * list Exchange :=
  match older with
  | [] => (room, kept)
  | e :: older =>
      if Z.of_nat (length kept) <? MAX_TASK_EXCHANGES then
        let cost := blen (to_vec e) + (if bool_decide (kept = []) then 0 else 1) in
        if room <? cost then (room, kept) else pack_loop (room - cost) (e :: kept) older
      else (room, kept)
  end.

Definition cut_exchange (newest : Exchange) (stop : nat) : Exchange :=
  mkExchange (user newest) (from_utf8 (take stop (as_bytes (assistant newest))) ++ TRUNCATION_MARKER)%string.
Definition fits_room (newest : Exchange) (room : Z) (stop : nat) : bool := blen (to_vec (cut_exchange newest stop)) <=? room.

Definition pack_task (h : list Exchange) (message : string) (bound : Z) : result string string :=
  let empty := encode_task [] message in
  if bound <? str_len empty then Err "message exceeds the worker task bound" else
  let '(room, kept) := pack_loop (bound - str_len empty) [] (rev h) in
  match last h, kept with
  | None, _ | _, _ :: _ => Ok (encode_task kept message)
  | Some newest, [] =>
      let boundaries := char_indices (as_bytes (assistant newest)) in
      let low := search (fun i => fits_room newest room (nth i boundaries O)) (length boundaries) 0 (length boundaries - 1) in
      let stop := nth low boundaries O in
      if Nat.eqb stop 0 then Ok empty else Ok (encode_task [cut_exchange newest stop] message)
  end.

(** ** Seeds and messages *)

Definition empty_side (e : Exchange) : bool :=
  blank (user e) || blank (assistant e) || str_contains x00 (user e) || str_contains x00 (assistant e).

Definition validate_seed (h : list Exchange) : result string unit :=
  _ ← ensure (Z.of_nat (length h) <=? MAX_SEED_EXCHANGES) "seed exceeds exchange count";
  _ ← ensure (negb (existsb empty_side h)) "seed exchanges must be non-empty text";
  ensure (str_len (encode_task h "") + SEED_HEADROOM_BYTES <=? MAX_TASK_BYTES) "seed leaves no room for a first message".

Definition refused (turn reason : string) : ParentReply :=
  Completed VERSION turn false ("Turn refused; no worker started: " ++ reason)%string.

(** The last [n] of a list: what [drain] leaves of it. *)
Definition newest {A} (n : nat) (l : list A) : list A := drop (length l - n) l.

Definition take_seed (s : ParentContext) (version : string) (h : list Exchange) : result string ParentReply * ParentContext :=
  if negb (String.eqb version VERSION) then (Err "unsupported parent version", s) else
  if negb (bool_decide (history s = [])) || is_Some_bool (pending s) || negb (bool_decide (seen s = ∅))
  then (Err "seed refused: context already in use", s) else
  match validate_seed h with
  | Err x => (Err x, s)
  | Ok _ => (Ok (Seeded VERSION (Z.of_nat (length h))), mkParent h (pending s) (seen s))
  end.

Definition take_turn (s : ParentContext) (version turn message : string) : result string ParentReply * ParentContext :=
  if negb (String.eqb version VERSION) then (Err "unsupported parent version", s) else
  if is_Some_bool (pending s) then (Err "turn still pending", s) else
  if bool_decide (turn ∈ seen s) || (1024 <=? Z.of_nat (size (seen s))) then (Err "turn replay or count exhausted", s) else
  if blank message || str_contains x00 message then (Ok (refused turn "the message is empty or contains NUL"), s) else
  if MAX_MESSAGE_BYTES <? str_len message then (Ok (refused turn "the message exceeds 2048 bytes"), s) else
  match pack_task (history s) message MAX_TASK_BYTES with
  | Err _ => (Ok (refused turn "the message does not fit a worker task"), s)
  | Ok t =>
      let request := mkTurnRequest Protocol.VERSION turn t in
      match decode (to_vec request) with
      | Err _ => (Err "invalid turn identity or worker context full", s)
      | Ok _ => (Ok (Spawn request), mkParent (history s) (Some (turn, message)) ({[turn]} ∪ seen s))
      end
  end.

Definition take_result (s : ParentContext) (version turn : string) (succeeded : bool) (answer : string) :
    result string ParentReply * ParentContext :=
  if negb (String.eqb version VERSION) then (Err "unsupported parent version", s) else
  match pending s with
  | None => (Err "no pending turn", s)
  | Some (id, message) =>
      if negb (String.eqb id turn) then (Err "result identity mismatch", s) else
      if (MAX_ANSWER_BYTES <? str_len answer) || str_contains x00 answer || (succeeded && blank answer)
      then (Err "invalid worker answer", s) else
      let h := if succeeded then newest (Z.to_nat MAX_TASK_EXCHANGES) (history s ++ [mkExchange message answer]) else history s in
      (Ok (Completed VERSION turn succeeded answer), mkParent h None (seen s))
  end.

Definition exchange (s : ParentContext) (b : bytes) : result string ParentReply * ParentContext :=
  if bool_decide (b = []) || (Mailbox.MAX_FRAME_BYTES <? blen b) then (Err "message bound exceeded", s) else
  match from_slice b with
  | None => (Err "invalid parent message", s)
  | Some (HSeed version h) => take_seed s version h
  | Some (HTurn version turn message) => take_turn s version turn message
  | Some (HResult version turn succeeded answer) => take_result s version turn succeeded answer
  end.

(** ** What a turn worker reads ([crates/celln-pilot/src/turn_worker.rs]) *)

Definition decode_context (raw : string) : result string ContextInput :=
  _ ← ensure (str_len raw <=? MAX_TASK_BYTES) "parent context exceeds worker contract";
  c ← ok_or (from_slice (as_bytes raw)) "invalid context";
  _ ← ensure (negb (blank (c_message c)) && negb (str_contains x00 (c_message c))) "invalid turn message";
  _ ← ensure (length (c_history c) <=? 16)%nat "parent history count exceeds limit";
  _ ← ensure (negb (existsb empty_side (c_history c))) "invalid parent history text";
  Ok c.
End context.
