(* ===== verification/ParentContextLaws.v ===== *)
(** * What a parent remembers, and what it asks of its workers

    The packing of a task into its bound, and the context of a parent as a refinement of
    a conversation with an unbounded memory. *)

From S2P Require Import Prelude Instances Text Protocol ParentContext.
From S2P Require Mailbox Harness EgressLaws.

(** What the code relies on of [serde_json]'s compact writer: a task is its envelope,
    its exchanges and the commas between them. *)
Class TaskJson `{Json Exchange} `{Json ContextInput} : Prop :=
  task_len : forall h m, h <> [] ->
    blen (to_vec (mkContext h m)) =
    blen (to_vec (mkContext [] m)) + foldr Z.add 0 ((fun e : Exchange => blen (to_vec e)) <$> h) + (Z.of_nat (length h) - 1).

(** ** The binary search *)

Lemma search_spec fits fuel : forall low high, (high - low <= fuel)%nat -> (low <= high)%nat ->
  let r := search fits fuel low high in
  (low <= r <= high)%nat /\ (r = low \/ fits r = true) /\ (r = high \/ fits (S r) = false).
Proof.
  induction fuel as [|fuel IH]; intros low high Hf Hlh; cbn [search].
  - assert (high = low) as -> by lia. auto.
  - destruct (Nat.ltb_spec low high) as [Hlt|Hge]; [|assert (high = low) as -> by lia; auto].
    assert (Hm : (low < (low + high + 1) / 2 <= high)%nat).
    { split; [apply Nat.div_le_lower_bound; lia|apply Nat.Div0.div_le_upper_bound; lia]. }
    set (m := ((low + high + 1) / 2)%nat) in *. destruct (fits m) eqn:E.
    + destruct (IH m high) as (Hr & Hl & Hh); [lia|lia|]. split_and!; [lia|lia| |done].
      right. destruct Hl as [->|]; done.
    + destruct (IH low (m - 1)%nat) as (Hr & Hl & Hh); [lia|lia|]. split_and!; [lia|lia|done|].
      destruct Hh as [Hh|]; [|by right]. right. rewrite Hh. by replace (S (m - 1)) with m by lia.
Qed.

Lemma char_starts_in b : forall n i, i ∈ char_starts n b -> (n <= i < n + length b)%nat /\ cont_at b (i - n) = false.
Proof.
  induction b as [|x b IH]; intros n i; cbn [char_starts]; [by intros ?%elem_of_nil|].
  rewrite elem_of_app. intros [Hi|Hi].
  - destruct (cont x) eqn:Hx; [by apply elem_of_nil in Hi|]. apply list_elem_of_singleton in Hi as ->. cbn [length].
    split; [lia|]. rewrite Nat.sub_diag. exact Hx.
  - apply IH in Hi as [Hi Hc]. cbn [length]. split; [lia|]. replace (i - n)%nat with (S (i - S n)) by lia. exact Hc.
Qed.
(** Every start but the first is inside the text and not inside a character. *)
Lemma char_indices_later b i stop : char_indices b !! i = Some stop -> (0 < i)%nat <-> (0 < stop)%nat.
Proof.
  destruct b as [|x b]; [done|]. cbn [char_indices]. destruct i as [|i]; [intros [= <-]; lia|]. cbn. intros Hs%list_elem_of_lookup_2.
  apply char_starts_in in Hs. lia.
Qed.
Lemma char_indices_cut b i stop : char_indices b !! i = Some stop -> (0 < stop)%nat -> (stop < length b)%nat /\ cont_at b stop = false.
Proof.
  destruct b as [|x b]; [done|]. cbn [char_indices]. destruct i as [|i]; [intros [= <-]; lia|]. cbn. intros Hs%list_elem_of_lookup_2 _.
  apply char_starts_in in Hs as [Hs Hc]. destruct stop as [|stop]; [lia|]. split; [lia|]. by replace (S stop - 1)%nat with stop in Hc by lia.
Qed.

Section packing.
Context `{Json Exchange} `{Json ContextInput} `{!TaskJson}.

Lemma encode_task_len h m : str_len (encode_task h m) = blen (to_vec (mkContext h m)).
Proof. unfold encode_task. by rewrite <- str_len_as_bytes, as_bytes_from_utf8. Qed.

(** What exchanges cost beside the envelope. *)
Definition cost (h : list Exchange) : Z :=
  foldr Z.add 0 ((fun e : Exchange => blen (to_vec e)) <$> h) + (if bool_decide (h = []) then 0 else Z.of_nat (length h) - 1).
Lemma encode_cost h m : str_len (encode_task h m) = str_len (encode_task [] m) + cost h.
Proof.
  rewrite !encode_task_len. unfold cost. destruct h as [|e h]; [cbn; lia|]. rewrite bool_decide_eq_false_2 by done.
  rewrite task_len by done. lia.
Qed.
Lemma cost_cons e h : cost (e :: h) = blen (to_vec e) + (if bool_decide (h = []) then 0 else 1) + cost h.
Proof. unfold cost. rewrite bool_decide_eq_false_2 by done. case_bool_decide; [subst; cbn; lia|]. cbn [fmap list_fmap foldr length]. lia. Qed.
Lemma blen_min b : 0 <= blen b.
Proof. unfold blen. lia. Qed.
Lemma cost_app d k : cost k <= cost (d ++ k).
Proof.
  induction d as [|e d IH]; [done|]. cbn [app]. rewrite cost_cons. pose proof (blen_min (to_vec e)). case_bool_decide; lia.
Qed.

Lemma pack_loop_spec older : forall room kept room' kept', pack_loop room kept older = (room', kept') ->
  0 <= room -> Z.of_nat (length kept) <= 16 ->
  exists taken rest, older = taken ++ rest /\ kept' = rev taken ++ kept /\ room' = room - (cost kept' - cost kept) /\ 0 <= room' /\
    Z.of_nat (length kept') <= 16 /\
    (rest = [] \/ Z.of_nat (length kept') = 16 \/ exists e, head rest = Some e /\ room' < cost (e :: kept') - cost kept').
Proof.
  induction older as [|e older IH]; intros room kept room' kept' E Hr Hk; cbn [pack_loop] in E.
  - injection E as <- <-. exists [], []. cbn. split_and!; try done; try lia. by left.
  - change MAX_TASK_EXCHANGES with 16 in E. destruct (Z.ltb_spec (Z.of_nat (length kept)) 16) as [Hlt|Hge].
    + pose proof (cost_cons e kept) as Hc.
      destruct (Z.ltb_spec room (blen (to_vec e) + (if bool_decide (kept = []) then 0 else 1))) as [Hover|Hfit].
      * injection E as <- <-. exists [], (e :: older). cbn [rev app]. split_and!; try done; try lia. right. right. exists e. split; [done|lia].
      * apply IH in E as (taken & rest & -> & -> & Hroom & Hnn & H16 & Hmax); [|lia|cbn [length]; lia].
        exists (e :: taken), rest. cbn [rev]. rewrite <- app_assoc. cbn [app]. split_and!; try done; lia.
    + injection E as <- <-. exists [], (e :: older). cbn [rev app]. split_and!; try done; lia.
Qed.

(** The cuts of an answer that fit beside the message are searched by bisection. *)
Definition overflows (m : string) (bound : Z) (h : list Exchange) : Prop := bound < str_len (encode_task h m).

(** The tasks that may be packed: the newest exchanges that fit, at most sixteen; or,
    when not even the newest one does, that exchange with its answer cut between two
    characters where one more does not fit; or no exchange. *)
Inductive packed (h : list Exchange) (m : string) (bound : Z) : string -> Prop :=
| packed_recent d k : h = d ++ k -> (k <> [] \/ h = []) -> Z.of_nat (length k) <= 16 ->
    (forall d' k', h = d' ++ k' -> (length k < length k')%nat -> 16 < Z.of_nat (length k') \/ overflows m bound k') ->
    packed h m bound (encode_task k m)
| packed_cut e i stop : last h = Some e -> overflows m bound [e] ->
    char_indices (as_bytes (assistant e)) !! i = Some stop -> (0 < stop)%nat -> cont_at (as_bytes (assistant e)) stop = false ->
    (forall stop', char_indices (as_bytes (assistant e)) !! S i = Some stop' -> overflows m bound [cut_exchange e stop']) ->
    packed h m bound (encode_task [cut_exchange e stop] m)
| packed_none e : last h = Some e -> overflows m bound [e] ->
    (forall stop', char_indices (as_bytes (assistant e)) !! 1%nat = Some stop' -> (0 < stop')%nat -> overflows m bound [cut_exchange e stop']) ->
    packed h m bound (encode_task [] m).

(** C31: A task always fits its bound and keeps as much of the conversation as it can: the new
    message whole, and the newest exchanges that fit, at most sixteen, where one more would
    not fit; when not even the newest one does, that one with its answer cut between two
    characters and marked, where one character more would not fit, or none. Only a message
    that does not fit alone is refused. *)
Theorem pack_exact (h : list Exchange) (m : string) (bound : Z) :
  match pack_task h m bound with
  | Ok t => packed h m bound t /\ str_len t <= bound
  | Err _ => overflows m bound []
  end.
Proof.
  unfold pack_task. destruct (Z.ltb_spec bound (str_len (encode_task [] m))) as [Hover|Hfit]; [done|].
  destruct (pack_loop (bound - str_len (encode_task [] m)) [] (rev h)) as [room kept] eqn:E.
  apply pack_loop_spec in E as (taken & rest & Er & Ek & Hroom & Hnn & H16 & Hmax); [|lia|cbn; lia].
  rewrite app_nil_r in Ek. change (cost []) with 0 in Hroom.
  assert (Eh : h = rev rest ++ kept) by (rewrite Ek, <- rev_app_distr, <- Er; by rewrite rev_involutive).
  pose proof (encode_cost kept m) as Hc.
  assert (Hrecent : kept <> [] \/ h = [] -> packed h m bound (encode_task kept m) /\ str_len (encode_task kept m) <= bound).
  { intros Hk. split; [|lia]. apply (packed_recent h m bound (rev rest)); try done. intros d' k' E' Hlt.
    destruct Hmax as [-> | [Hfull | (e & He & Hcost)]].
    - apply (f_equal length) in Eh. apply (f_equal length) in E'. rewrite length_app in E'. cbn in Eh. lia.
    - left. lia.
    - right. destruct rest as [|e' rest]; [done|]. injection He as ->. cbn [rev] in Eh. rewrite Eh, <- app_assoc in E'. cbn [app] in E'.
      assert (exists z, k' = z ++ e :: kept) as [z ->].
      { apply app_eq_inv in E' as [(z & _ & E')|(z & _ & E')]; [by exists z|]. exists []. apply (f_equal length) in E' as Hl'.
        rewrite length_app in Hl'. cbn [length] in Hl'. destruct z; [done|cbn in Hl'; lia]. }
      unfold overflows. rewrite encode_cost. pose proof (cost_app z (e :: kept)). lia. }
  destruct (last h) as [e|] eqn:El; [|apply last_None in El; apply Hrecent; by right].
  destruct kept as [|k ks]; [|apply Hrecent; by left].
  clear Hrecent. rewrite app_nil_r in Eh. assert (Hlone : overflows m bound [e]).
  { destruct Hmax as [-> | [Hfull | (e' & He & Hcost)]]; [by rewrite Eh in El|done|]. destruct rest as [|? rest]; [done|]. injection He as ->.
    rewrite Eh in El. cbn [rev] in El. rewrite last_snoc in El. injection El as ->. unfold overflows. rewrite encode_cost. lia. }
  set (cs := char_indices (as_bytes (assistant e))).
  pose proof (search_spec (fun i => fits_room e room (nth i cs O)) (length cs) 0 (length cs - 1) ltac:(lia) ltac:(lia)) as Hs.
  destruct Hs as (Hr & Hl & Hh). set (r := search _ _ _ _) in *.
  assert (Hcut : forall stop, fits_room e room stop = negb (bound <? str_len (encode_task [cut_exchange e stop] m))).
  { intros stop. unfold fits_room. rewrite encode_cost, cost_cons. change (cost []) with 0. cbn in Hc. rewrite Z.ltb_antisym, negb_involutive.
    apply eq_true_iff_eq. rewrite !Z.leb_le. cbn. lia. }
  assert (Hnext : forall stop', cs !! S r = Some stop' -> overflows m bound [cut_exchange e stop']).
  { intros stop' Hstop. apply lookup_lt_Some in Hstop as Hlt. destruct Hh as [Hh|Hh]; [lia|]. rewrite Hcut, (nth_lookup_Some _ _ _ _ Hstop) in Hh.
    apply negb_false_iff, Z.ltb_lt in Hh. done. }
  destruct (nth r cs 0%nat) as [|stop] eqn:Es; cbn [Nat.eqb].
  - split; [|lia]. apply (packed_none h m bound e); [done|done|]. fold cs. intros stop' Hstop' Hpos.
    destruct (decide (r = 0%nat)) as [E0|Hr0]; [rewrite E0 in Hnext; by apply Hnext|]. exfalso.
    destruct (lookup_lt_is_Some_2 cs r) as [y Hy]; [lia|]. pose proof (char_indices_later _ _ _ Hy).
    rewrite (nth_lookup_Some _ _ _ _ Hy) in Es. lia.
  - assert (Hstop : cs !! r = Some (S stop)).
    { destruct (cs !! r) as [y|] eqn:Hy; [by rewrite (nth_lookup_Some _ _ _ _ Hy) in Es; subst|].
      apply lookup_ge_None in Hy. rewrite nth_overflow in Es by done. done. }
    split.
    + apply (packed_cut h m bound e r); try done; [lia|]. by eapply char_indices_cut; [|lia].
    + destruct Hl as [Hl|Hl]; [|rewrite Hcut in Hl; apply negb_true_iff, Z.ltb_ge in Hl; done].
      exfalso. rewrite Hl in Hstop. apply char_indices_later in Hstop. lia.
Qed.
End packing.

(** ** A conversation *)

(** The memory of a parent that forgets nothing. *)
Record Memory : Type := mkMemory {
  remembered : list Exchange;
  asked : option (string * string);
  used : gset string;
}.
Definition fresh : Memory := mkMemory [] None ∅.

(** The last sixteen exchanges, which is all that a worker is told. *)
Definition recent (l : list Exchange) : list Exchange := newest 16 l.

Section conversation.
Context `{Json Exchange} `{Json ContextInput} `{Json HostMessage} `{Json ParentReply} `{Json TurnRequest}.

(** A message that a worker may be given, and its request. *)
Definition sayable (message : string) : bool :=
  negb (blank message || str_contains x00 message) && (str_len message <=? MAX_MESSAGE_BYTES).
Definition answerable (succeeded : bool) (answer : string) : bool :=
  (str_len answer <=? MAX_ANSWER_BYTES) && negb (str_contains x00 answer) && negb (succeeded && blank answer).
(** What becomes of a message when the last exchanges are [h]. *)
Inductive asks (h : list Exchange) (turn message : string) : option TurnRequest -> Prop :=
| asks_worker t : sayable message = true -> pack_task h message MAX_TASK_BYTES = Ok t ->
    valid (mkTurnRequest Protocol.VERSION turn t) ->
    0 < blen (to_vec (mkTurnRequest Protocol.VERSION turn t)) <= MAX_REQUEST_BYTES ->
    asks h turn message (Some (mkTurnRequest Protocol.VERSION turn t))
| asks_nothing : sayable message = false \/ is_err (pack_task h message MAX_TASK_BYTES) = true -> asks h turn message None.

(** The exchanges of a conversation: a seed of an unused memory, a turn of a free parent,
    with a worker or refused, and the result of the turn that is pending. *)
Inductive converse (M : Memory) : HostMessage -> ParentReply -> Memory -> Prop :=
| converse_seed h : remembered M = [] -> asked M = None -> used M = ∅ -> validate_seed h = Ok tt ->
    converse M (HSeed VERSION h) (Seeded VERSION (Z.of_nat (length h))) (mkMemory h None ∅)
| converse_turn turn message request : asked M = None -> turn ∉ used M -> Z.of_nat (size (used M)) < 1024 ->
    asks (recent (remembered M)) turn message (Some request) ->
    converse M (HTurn VERSION turn message) (Spawn request) (mkMemory (remembered M) (Some (turn, message)) ({[turn]} ∪ used M))
| converse_refused turn message reason : asked M = None -> turn ∉ used M -> Z.of_nat (size (used M)) < 1024 ->
    asks (recent (remembered M)) turn message None ->
    converse M (HTurn VERSION turn message) (refused turn reason) M
| converse_result turn message succeeded answer : asked M = Some (turn, message) -> answerable succeeded answer = true ->
    converse M (HResult VERSION turn succeeded answer) (Completed VERSION turn succeeded answer)
      (mkMemory (remembered M ++ if succeeded then [mkExchange message answer] else []) None (used M)).

Definition represents (s : ParentContext) (M : Memory) : Prop :=
  history s = recent (remembered M) /\ pending s = asked M /\ seen s = used M.
Definition readable (b : bytes) (m : HostMessage) : Prop := 0 < blen b <= Mailbox.MAX_FRAME_BYTES /\ from_slice b = Some m.

Lemma newest_app {A} n (l k : list A) : newest n (newest n l ++ k) = newest n (l ++ k).
Proof.
  unfold newest. rewrite !length_app, length_drop. destruct (decide (length l <= n)%nat) as [Hl|Hl].
  - replace (length l - n)%nat with 0%nat by lia. rewrite drop_0. f_equal. lia.
  - rewrite <- drop_app_le by lia. rewrite drop_drop. f_equal. lia.
Qed.
Lemma recent_nil l : recent l = [] <-> l = [].
Proof.
  unfold recent, newest. split; [|by intros ->]. intros E. apply (f_equal length) in E. rewrite length_drop in E. cbn in E.
  destruct l; [done|]. cbn [length] in E. lia.
Qed.
Lemma recent_length l : (length (recent l) <= 16)%nat.
Proof. unfold recent, newest. rewrite length_drop. lia. Qed.
Lemma recent_short l : (length l <= 16)%nat -> recent l = l.
Proof. intros Hl. unfold recent, newest. rewrite (proj2 (Nat.sub_0_le _ _)) by lia. by rewrite drop_0. Qed.

(** What the code answers to a message, against what the conversation allows. *)
Definition simulates (s : ParentContext) (M : Memory) (m : HostMessage) (r : result string ParentReply * ParentContext) : Prop :=
  match r with
  | (Ok reply, s') => exists M', converse M m reply M' /\ represents s' M'
  | (Err _, s') => s' = s /\ forall reply M', ~ converse M m reply M'
  end.

Lemma seed_simulates s M v h : represents s M -> simulates s M (HSeed v h) (take_seed s v h).
Proof.
  intros (Hh & Hp & Hs). unfold take_seed. destruct (String.eqb_spec v VERSION) as [->|Hv]; cbn [negb].
  2: { split; [done|]. intros reply M' Hc. by inversion Hc. }
  destruct (negb _ || _ || _) eqn:Hg.
  - split; [done|]. intros reply M' Hc. inversion Hc as [h' Hm Ha Hu| | |]; subst.
    rewrite Hh, Hp, Hs, Hm, Ha, Hu in Hg. by rewrite !bool_decide_eq_true_2 in Hg.
  - reflect. destruct Hg as [[Hg1%bool_decide_eq_true Hg2] Hg3%bool_decide_eq_true].
    rewrite Hh, recent_nil in Hg1. rewrite Hp in Hg2. rewrite Hs in Hg3. destruct (asked M) eqn:Ha; [done|].
    destruct (validate_seed h) as [[]|x] eqn:Hv; cbn.
    + exists (mkMemory h None ∅). split; [by constructor|]. unfold represents; cbn. split; [|split; congruence].
      unfold validate_seed in Hv. split_ok. reflect. symmetry. apply recent_short. change MAX_SEED_EXCHANGES with 16 in *. lia.
    + split; [done|]. intros reply M' Hc. inversion Hc; congruence.
Qed.

Lemma pack_request turn t r : decode (to_vec (mkTurnRequest Protocol.VERSION turn t)) = Ok r <->
  r = mkTurnRequest Protocol.VERSION turn t /\ valid r /\ 0 < blen (to_vec r) <= MAX_REQUEST_BYTES.
Proof.
  rewrite decode_Ok, from_to. split; [intros (? & [= <-] & ?); done|]. intros (-> & ? & ?). done.
Qed.

Lemma turn_simulates s M v turn message : represents s M -> simulates s M (HTurn v turn message) (take_turn s v turn message).
Proof.
  intros (Hh & Hp & Hs). unfold take_turn. destruct (String.eqb_spec v VERSION) as [->|Hv]; cbn [negb].
  2: { split; [done|]. intros reply M' Hc. by inversion Hc. }
  rewrite Hp, Hs, Hh. destruct (asked M) eqn:Ha; cbn [is_Some_bool].
  { split; [done|]. intros reply M' Hc. inversion Hc; congruence. }
  destruct (bool_decide (turn ∈ used M) || _) eqn:Hg.
  { split; [done|]. intros reply M' Hc. rewrite orb_true_iff, bool_decide_eq_true, Z.leb_le in Hg. inversion Hc; subst; destruct Hg; solve [done | lia]. }
  rewrite orb_false_iff, bool_decide_eq_false, Z.leb_gt in Hg. destruct Hg as [Hg1 Hg2].
  assert (Hrefuse : forall reason, asks (recent (remembered M)) turn message None ->
    simulates s M (HTurn VERSION turn message) (Ok (refused turn reason), s)).
  { intros reason Hn. exists M. split; [by apply converse_refused|]. split_and!; congruence. }
  destruct (blank message || str_contains x00 message) eqn:Hb.
  { apply Hrefuse. constructor. left. unfold sayable. by rewrite Hb. }
  destruct (Z.ltb_spec MAX_MESSAGE_BYTES (str_len message)) as [Hl|Hl].
  { apply Hrefuse. constructor. left. unfold sayable. rewrite Hb. cbn. by apply Z.leb_gt. }
  assert (Hsay : sayable message = true) by (unfold sayable; rewrite Hb; by apply Z.leb_le).
  destruct (pack_task (recent (remembered M)) message MAX_TASK_BYTES) as [t|x] eqn:Et.
  2: { apply Hrefuse. constructor. right. by rewrite Et. }
  destruct (decode _) as [r|x] eqn:Ed.
  - apply pack_request in Ed as (-> & Hv & Hlen). eexists. split.
    + apply converse_turn; [done|done|done|]. by constructor.
    + split_and!; cbn; try done; congruence.
  - split; [done|]. intros reply M' Hc. inversion Hc as [|? ? ? ? ? ? Hasks|? ? ? ? ? ? Hasks|]; subst; inversion Hasks as [t' ? Et' Hv Hlen|Hor]; subst.
    + rewrite Et in Et'. injection Et' as <-. rewrite (decode_encode _ Hv Hlen) in Ed. done.
    + rewrite Et, Hsay in Hor. by destruct Hor.
Qed.

Lemma result_simulates s M v turn succeeded answer : represents s M ->
  simulates s M (HResult v turn succeeded answer) (take_result s v turn succeeded answer).
Proof.
  intros (Hh & Hp & Hs). unfold take_result. destruct (String.eqb_spec v VERSION) as [->|Hv]; cbn [negb].
  2: { split; [done|]. intros reply M' Hc. by inversion Hc. }
  rewrite Hp, Hs, Hh. destruct (asked M) as [[id message]|] eqn:Ha.
  2: { split; [done|]. intros reply M' Hc. inversion Hc; congruence. }
  destruct (String.eqb_spec id turn) as [->|Hid]; cbn [negb].
  2: { split; [done|]. intros reply M' Hc. inversion Hc; congruence. }
  destruct (_ || _ || _) eqn:Hg.
  - split; [done|]. intros reply M' Hc. inversion Hc as [| | |? ? ? ? ? Hok]; subst. unfold answerable in Hok. reflect.
    destruct Hok as [[? ?] Hok]. destruct Hg as [[?|?]|Hg]; [lia|congruence|]. destruct Hok; destruct Hg; congruence.
  - eexists. split; [apply converse_result; [done|]|].
    + unfold answerable. reflect. destruct Hg as [[? ?] ?]. naive_solver.
    + split_and!; cbn; try done. destruct succeeded; [apply newest_app|by rewrite app_nil_r].
Qed.

Lemma exchange_refines (s : ParentContext) (M : Memory) (b : bytes) : represents s M ->
  match exchange s b with
  | (Ok reply, s') => exists m M', readable b m /\ converse M m reply M' /\ represents s' M'
  | (Err _, s') => s' = s /\ forall m reply M', readable b m -> ~ converse M m reply M'
  end.
Proof.
  intros Hr. unfold exchange, readable.
  destruct (bool_decide (b = []) || (Mailbox.MAX_FRAME_BYTES <? blen b)) eqn:Hg.
  { split; [done|]. intros m reply M' [Hb _] _. rewrite orb_true_iff, bool_decide_eq_true, Z.ltb_lt in Hg.
    destruct Hg as [->|]; [change (blen []) with 0 in Hb|]; lia. }
  rewrite orb_false_iff, bool_decide_eq_false, Z.ltb_ge, blen_pos in Hg.
  destruct (from_slice b) as [m|]; [|split; [done|]; naive_solver].
  assert (Hsim : simulates s M m match m with HSeed v h => take_seed s v h | HTurn v t x => take_turn s v t x | HResult v t ok a => take_result s v t ok a end).
  { destruct m; [by apply turn_simulates|by apply result_simulates|by apply seed_simulates]. }
  destruct m; (match goal with |- match ?r with _ => _ end => destruct r as [[reply|x] s'] end); cbn in Hsim; naive_solver.
Qed.

(** C35: The context of a parent implements a conversation that forgets nothing: a message
    is answered exactly as the conversation allows, with the memory that follows, and a
    message that is refused with an error changes nothing and is one that the conversation
    does not allow. What is kept is always the last sixteen exchanges of that memory. *)
Theorem context_refines (s : ParentContext) (M : Memory) (b : bytes) : represents s M ->
  match exchange s b with
  | (Ok reply, s') => exists m M', readable b m /\ converse M m reply M' /\ represents s' M'
  | (Err _, s') => s' = s /\ forall m reply M', readable b m -> ~ converse M m reply M'
  end.
Proof. apply exchange_refines. Qed.

(** ** The whole of a conversation *)

Definition Said : Type := HostMessage * ParentReply.
(** What a parent accepted of the messages it was given, and its context after them. *)
Definition hear (st : list Said * ParentContext) (b : bytes) : list Said * ParentContext :=
  match exchange st.2 b, from_slice b with
  | (Ok reply, s'), Some m => (st.1 ++ [(m, reply)], s')
  | (_, s'), _ => (st.1, s')
  end.
Definition talk (bs : list bytes) : list Said * ParentContext := foldl hear ([], default) bs.

(** The exchanges that were said: the seed, then each message whose worker succeeded,
    with the worker's answer. *)
Definition recall_step (st : list Exchange * string) (o : Said) : list Exchange * string :=
  match o with
  | (HSeed _ h, Seeded _ _) => (h, st.2)
  | (HTurn _ _ message, Spawn _) => (st.1, message)
  | (HResult _ _ true answer, Completed _ _ _ _) => (st.1 ++ [mkExchange st.2 answer], st.2)
  | _ => st
  end.
Definition recall (l : list Said) : list Exchange * string := foldl recall_step ([], EmptyString) l.
(** The turns that were given to a worker, and those whose result was accepted. *)
Definition worker_of (o : Said) : list string := match o with (HTurn _ turn _, Spawn _) => [turn] | _ => [] end.
Definition result_of (o : Said) : list string := match o with (HResult _ turn _ _, Completed _ _ _ _) => [turn] | _ => [] end.
Definition workers (l : list Said) : list string := l ≫= worker_of.
Definition results (l : list Said) : list string := l ≫= result_of.

Record said (l : list Said) (s : ParentContext) : Prop := {
  said_memory : represents s (mkMemory (recall l).1 (pending s) (list_to_set (workers l)));
  said_message : forall turn message, pending s = Some (turn, message) -> (recall l).2 = message;
  said_once : NoDup (workers l);
  said_bound : (length (workers l) <= 1024)%nat;
  said_serial : workers l = results l ++ option_list (fst <$> pending s);
}.

Lemma recall_snoc l o : recall (l ++ [o]) = recall_step (recall l) o.
Proof. unfold recall. by rewrite foldl_app. Qed.
Lemma workers_snoc l o : workers (l ++ [o]) = workers l ++ worker_of o.
Proof. unfold workers. by rewrite bind_app, bind_singleton. Qed.
Lemma results_snoc l o : results (l ++ [o]) = results l ++ result_of o.
Proof. unfold results. by rewrite bind_app, bind_singleton. Qed.

Lemma said_hear l s b : said l s -> said (hear (l, s) b).1 (hear (l, s) b).2.
Proof.
  intros Hs. pose proof Hs as [Hm Hmsg Ho Hb Hser]. pose proof (exchange_refines s _ b Hm) as Hx. unfold hear. cbn [fst snd].
  destruct (exchange s b) as [[reply|x] s']; [|by destruct Hx as [-> _]]. destruct Hx as (m & M' & [_ Hr] & Hc & Hrep). rewrite Hr. cbn [fst snd].
  destruct Hrep as (Hh' & Hp' & Hs').
  inversion Hc as [h Hrem Ha Hu|turn message request Ha Hnew Hsize Hasks|turn message reason Ha Hnew Hsize Hasks|turn message ok answer Ha Hok]; subst; cbn in *.
  - constructor; rewrite ?recall_snoc, ?workers_snoc, ?results_snoc; cbn; rewrite ?app_nil_r; try done.
    + split_and!; cbn; [done|congruence|congruence].
    + congruence.
    + by rewrite Hser, Hp', Ha.
  - constructor; rewrite ?recall_snoc, ?workers_snoc, ?results_snoc; cbn; rewrite ?app_nil_r; try done.
    + split_and!; cbn; [done|done|]. rewrite Hs', list_to_set_app_L. set_solver.
    + congruence.
    + apply NoDup_app. split_and!; [done| |apply NoDup_singleton]. rewrite elem_of_list_to_set in Hnew. set_solver.
    + rewrite size_list_to_set in Hsize by done. rewrite length_app. cbn. lia.
    + rewrite Hser, Hp', Ha. cbn. by rewrite app_nil_r.
  - constructor; rewrite ?recall_snoc, ?workers_snoc, ?results_snoc; cbn; rewrite ?app_nil_r; try done.
    + congruence.
    + by rewrite Hser, Hp', Ha.
  - constructor; rewrite ?recall_snoc, ?workers_snoc, ?results_snoc; cbn; rewrite ?app_nil_r; try done.
    + split_and!; cbn; [|done|done]. rewrite Hh', <- (Hmsg _ _ Ha). destruct ok; [done|by rewrite app_nil_r].
    + congruence.
    + rewrite Hser, Hp', Ha. cbn. by rewrite app_nil_r.
Qed.

(** Whatever bytes a host sends to a new parent, the parent remembers exactly what was
    said: its history is the last sixteen exchanges of the seed followed by each message
    whose worker succeeded with that worker's answer. No turn is given to a worker twice,
    at most 1024 ever are, and their results are taken one at a time, in their order. *)
Theorem parent_remembers (bs : list bytes) :
  let '(l, s) := talk bs in
  history s = recent (recall l).1 /\ (length (history s) <= 16)%nat /\ NoDup (workers l) /\ (length (workers l) <= 1024)%nat /\
  workers l = results l ++ option_list (fst <$> pending s).
Proof.
  assert (said (talk bs).1 (talk bs).2) as Hs.
  { unfold talk. assert (said [] default) as H0s.
    { constructor; cbn; try done; [apply NoDup_nil_2|lia]. }
    revert H0s. generalize (@nil Said) as l, default as s. induction bs as [|b bs IH]; intros l s Hs; [done|].
    cbn [foldl]. pose proof (said_hear l s b Hs). destruct (hear (l, s) b) as [l' s']. by apply IH. }
  destruct (talk bs) as [l s]. destruct Hs as [(Hh & _) _ Ho Hb Hser]. cbn in *. split_and!; try done. rewrite Hh. apply recent_length.
Qed.
End conversation.
