(* ===== verification/Session.v ===== *)
(** * The session of a parent ([crates/celln-pilot/src/parent_session.rs])

    The host's sequencing of one turn: the parent's request, the lease, the journal, the
    control of the child, the worker and the parent's acknowledgement. The parent's
    mailbox and the executor of workers answer as they like; so do the clock, the file
    system, and whoever else holds the tree of controls. *)

From S2P Require Import Prelude Text Manifest Protocol ParentContext.
From S2P Require Mailbox Harness Control Lease Journal ChildControl.

Notation ReservedTurn := Lease.ReservedTurn.
Notation ParentJournal := Journal.ParentJournal.

(** The executor's result, given only after the child was torn down. *)
Record DestroyedChild : Type := mkDestroyed { child : hash; succeeded : bool; answer : string }.

Inductive Failure : Type :=
| Message (s : string)
| OfLease (e : Lease.LeaseError)
| OfJournal (e : Journal.ErrorKind).

(** What a session does: it writes to the parent, which answers, runs a worker, adds a
    record. *)
Inductive Act : Type :=
| ToParent (b : bytes) (r : result string bytes)
| Work (t : ReservedTurn)
| WroteReserved (t : ReservedTurn)
| WroteDestroyed (turn : string) (d : DestroyedChild)
| WroteCommitted (turn : string) (child : hash).

(** [ParentSession]; the journal's directory, the tree of controls and the answers of
    the rest of the world are beside it. [meddling] is what others do to the tree. *)
Record Session : Type := mkSession {
  lease : Lease.ParentLease;
  journal : ParentJournal;
  closed : bool;
  child_control : option ChildControl.Slot;
  fs : Journal.FS;
  tree : Control.World;
  clocks : list Z;
  replies : list (result string bytes);
  outcomes : list (result string DestroyedChild);
  meddling : list (list Control.op);
  acts : list Act;
}.
Definition set_lease (s : Session) l := mkSession l (journal s) (closed s) (child_control s) (fs s) (tree s) (clocks s) (replies s) (outcomes s) (meddling s) (acts s).
Definition set_journal (s : Session) j f := mkSession (lease s) j (closed s) (child_control s) f (tree s) (clocks s) (replies s) (outcomes s) (meddling s) (acts s).
Definition set_closed (s : Session) := mkSession (lease s) (journal s) true (child_control s) (fs s) (tree s) (clocks s) (replies s) (outcomes s) (meddling s) (acts s).
Definition set_slot (s : Session) k w := mkSession (lease s) (journal s) (closed s) k (fs s) w (clocks s) (replies s) (outcomes s) (meddling s) (acts s).
Definition set_answers (s : Session) c r o m := mkSession (lease s) (journal s) (closed s) (child_control s) (fs s) (tree s) c r o m (acts s).
Definition log (s : Session) a := mkSession (lease s) (journal s) (closed s) (child_control s) (fs s) (tree s) (clocks s) (replies s) (outcomes s) (meddling s) (acts s ++ [a]).

Definition M (A : Type) : Type := Session -> result Failure A * Session.
#[export] Instance session_ret : MRet M := fun A a s => (Ok a, s).
#[export] Instance session_bind : MBind M := fun A B f m s => match m s with (Ok a, s) => f a s | (Err e, s) => (Err e, s) end.
(** A step of the session as a function. *)
Definition step {A} (f : Session -> result Failure A * Session) : M A := f.
Definition lift {A} (r : result Failure A) : M A := fun s => (r, s).
Definition require (c : bool) (e : string) : M unit := lift (ensure c (Message e)).
Definition want {A} (o : option A) (e : string) : M A := lift (ok_or o (Message e)).

(** A reading of the clock; [Instant::now]. *)
Definition now : M Z := fun s =>
  (Ok (hd 0 (clocks s)), set_answers s (tl (clocks s)) (replies s) (outcomes s) (meddling s)).
Definition parent (b : bytes) : M bytes := fun s =>
  let r := hd (Err "mailbox closed") (replies s) in
  (map_err Message r, log (set_answers s (clocks s) (tl (replies s)) (outcomes s) (meddling s)) (ToParent b r)).
Definition worker (t : ReservedTurn) : M DestroyedChild := fun s =>
  (map_err Message (hd (Err "executor closed") (outcomes s)), log (set_answers s (clocks s) (replies s) (tl (outcomes s)) (meddling s)) (Work t)).
(** The others' turn. *)
Definition meddle : M unit := fun s =>
  (Ok tt, set_answers (set_slot s (child_control s) (Control.run (hd [] (meddling s)) (tree s))) (clocks s) (replies s) (outcomes s) (tl (meddling s))).

Section session.
Context `{Blake3} `{Json TurnRequest} `{Json (string * string)} `{Json HostMessage} `{Json ParentReply}
  `{Json Exchange} `{Json ContextInput} `{Json Journal.Reservation} `{Json Journal.DestroyedRecord} `{Json Journal.CommittedRecord}.

Definition expired : M bool := t ← now; step (fun s => let '(b, l) := Lease.expired (lease s) t in (Ok b, set_lease s l)).
Definition reserve (b : bytes) : M ReservedTurn :=
  t ← now; step (fun s => let '(r, l) := Lease.reserve_at (lease s) b t in (map_err OfLease r, set_lease s l)).
Definition confirm (c : hash) : M unit := fun s =>
  let '(r, l) := Lease.confirm_child_destroyed (lease s) c in (map_err OfLease r, set_lease s l).

(** Records; a record that was added is an act. *)
Definition journal_reserve (t : ReservedTurn) : M unit := fun s =>
  match Journal.reserve (journal s) t (fs s) with
  | (Ok _, j, f) => (Ok tt, log (set_journal s j f) (WroteReserved t))
  | (Err e, j, f) => (Err (OfJournal e), set_journal s j f)
  end.
Definition journal_destroyed (turn : string) (d : DestroyedChild) : M unit := fun s =>
  match Journal.child_destroyed (journal s) turn (child d) (succeeded d) (answer d) (fs s) with
  | (Ok _, f) => (Ok tt, log (set_journal s (journal s) f) (WroteDestroyed turn d))
  | (Err e, f) => (Err (OfJournal e), set_journal s (journal s) f)
  end.
Definition journal_committed (turn : string) (c : hash) : M unit := fun s =>
  match Journal.parent_committed (journal s) turn c (fs s) with
  | (Ok _, f) => (Ok tt, log (set_journal s (journal s) f) (WroteCommitted turn c))
  | (Err e, f) => (Err (OfJournal e), set_journal s (journal s) f)
  end.

(** The registration of the child's control, when there is one, and its end. *)
Definition register (t : ReservedTurn) : M (option ChildControl.Identity) :=
  _ ← meddle; step (fun s =>
  match child_control s with
  | None => (Ok None, s)
  | Some k =>
      let '(r, (w, k)) := ChildControl.register (tree s) k t in
      (map_err Message (match r with Ok (i, _) => Ok (Some i) | Err e => Err e end), set_slot s (Some k) w)
  end).
Definition retire (i : option ChildControl.Identity) : M unit := fun s =>
  match i, child_control s with
  | Some i, Some k => let '(r, k) := ChildControl.retire k i in (map_err Message r, set_slot s (Some k) (tree s))
  | _, _ => (Ok tt, s)
  end.

(** A frame for the parent, and its reply. *)
Definition exchange_with (b : bytes) (overflow : string) : M (bytes * ParentReply) :=
  response ← parent b;
  _ ← require (blen response <=? Mailbox.MAX_FRAME_BYTES) overflow;
  reply ← want (from_slice response) "invalid parent reply";
  mret (response, reply).

Definition too_long : string := "Turn refused; no worker started: the message exceeds 2048 bytes".

(** The input of a client: a turn, with its message. *)
Definition read_turn (input : bytes) : M (string * string) :=
  _ ← require (negb (bool_decide (input = [])) && (blen input <=? MAX_TURN_INPUT_BYTES)) "invalid input bound";
  m ← want (from_slice input) "invalid turn";
  match m with
  | HTurn version turn message =>
      _ ← require (String.eqb version VERSION && negb (blank message)) "invalid user turn";
      mret (turn, message)
  | _ => lift (Err (Message "clients cannot inject child results"))
  end.

(** A reserved turn, from its worker to the record of its destroyed child. *)
Definition run_child (t : ReservedTurn) (turn : string) : M (DestroyedChild * option ChildControl.Identity) :=
  i ← register t;
  d ← worker t;
  _ ← require (String.eqb (child d) (Lease.rt_child t)) "child result owner mismatch";
  _ ← confirm (child d);
  _ ← journal_destroyed turn d;
  mret (d, i).

(** The parent's acknowledgement of the result, and the record of it. *)
Definition commit (turn : string) (d : DestroyedChild) (i : option ChildControl.Identity) : M bytes :=
  late ← expired;
  _ ← require (negb late) "parent expired before result commit";
  '(response, reply) ← exchange_with (to_vec (HResult VERSION turn (succeeded d) (answer d))) "parent acknowledgement overflow";
  match reply with
  | Completed version acknowledged ok a =>
      _ ← require (String.eqb version VERSION && String.eqb acknowledged turn && Bool.eqb ok (succeeded d) && String.eqb a (answer d))
            "parent acknowledgement mismatch";
      _ ← journal_committed turn (child d);
      _ ← retire i;
      mret response
  | _ => lift (Err (Message "parent did not acknowledge result"))
  end.

Definition turn_body (input : bytes) (turn : string) : M bytes :=
  '(response, reply) ← exchange_with input "parent response overflow";
  match reply with
  | Spawn request =>
      _ ← require (String.eqb (turn_id request) turn) "parent changed turn identity";
      t ← reserve (to_vec request);
      _ ← journal_reserve t;
      '(d, i) ← run_child t turn;
      commit turn d i
  | Completed version refused false _ =>
      if String.eqb version VERSION && String.eqb refused turn then mret response
      else lift (Err (Message "parent did not request a worker"))
  | _ => lift (Err (Message "parent did not request a worker"))
  end.

Definition turn (input : bytes) : M bytes :=
  late ← expired;
  _ ← require (negb late) "parent lease closed";
  '(id, message) ← read_turn input;
  if MAX_MESSAGE_BYTES <? str_len message then mret (to_vec (Completed VERSION id false too_long)) else turn_body input id.

(** [submit]: a failure closes the session and stops the lease. *)
Definition submit (input : bytes) : M bytes := fun s =>
  if closed s then (Err (Message "parent session closed; reconcile original owner"), s) else
  match turn input s with
  | (Ok b, s) => (Ok b, s)
  | (Err e, s) => (Err e, set_closed (set_lease s (Lease.stop (lease s)).2))
  end.

(** The memory that a new parent is given before its first turn. *)
Definition seed (h : list Exchange) : M unit :=
  _ ← step (fun s => (ensure (negb (closed s)) (Message "parent session closed"), s));
  _ ← lift (map_err Message (validate_seed h));
  '(_, reply) ← exchange_with (to_vec (HSeed VERSION h)) "parent response overflow";
  match reply with
  | Seeded version n => require (String.eqb version VERSION && (n =? Z.of_nat (length h))) "parent seed acknowledgement mismatch"
  | _ => lift (Err (Message "parent did not accept the seed"))
  end.

(** The inputs of a client, one after another, and what each was answered. *)
Fixpoint serve (inputs : list bytes) (s : Session) : list (result Failure bytes) * Session :=
  match inputs with
  | [] => ([], s)
  | b :: inputs => let '(r, s) := submit b s in let '(rs, s) := serve inputs s in (r :: rs, s)
  end.
End session.
