(* ===== verification/SessionLaws.v ===== *)
(** * What a session of a parent does

    The trace of every turn, whatever the parent, the worker, the clock and the file
    system answer, and what the lease and the journal hold after it. *)

From S2P Require Import Prelude Text Manifest Protocol ParentContext Session.
From S2P Require Json Mailbox Harness Control Lease Journal ChildControl.

(** The six acts of a whole turn: the parent's answer [b0] to the input, and [r] to the
    result of its child. *)
Definition full `{Json HostMessage} (input b0 : bytes) (t : ReservedTurn) (d : DestroyedChild) (r : result string bytes) : list Act :=
  let id := turn_id (Lease.rt_request t) in
  [ToParent input (Ok b0); WroteReserved t; Work t; WroteDestroyed id d;
   ToParent (to_vec (HResult VERSION id (succeeded d) (answer d))) r; WroteCommitted id (child d)].
Definition work_of (a : Act) : list ReservedTurn := match a with Work t => [t] | _ => [] end.
Definition works (l : list Act) : list ReservedTurn := l ≫= work_of.

Section laws.
Context `{Blake3} `{Json TurnRequest} `{Json (string * string)} `{Json HostMessage} `{Json ParentReply}
  `{Json Exchange} `{Json ContextInput} `{Json Journal.Reservation} `{Json Journal.DestroyedRecord} `{Json Journal.CommittedRecord}
  `{Json Journal.ParentRecord} `{Json Journal.OwnerRecord} `{Json Journal.ProcessRecord} `{Json Json.Value}.

(** The journal of a session, without the count of its reservations. *)
Definition book (s : Session) : ParentJournal := Journal.mkJournal (Journal.directory (journal s)) (Journal.j_parent (journal s)) 0.

(** What a record that was added reads as. *)
Definition recorded (n : gmap string Journal.Node) (j : ParentJournal) (a : Act) : Prop :=
  match a with
  | WroteReserved t => Journal.reservation_at n j (turn_id (Lease.rt_request t)) = Ok (Journal.reservation_of t)
  | WroteDestroyed turn d => Journal.destroyed_at n j turn (child d) =
      Ok (Journal.mkDestroyed 1 (Journal.j_parent j) (child d) turn (succeeded d) (answer d))
  | WroteCommitted turn c => Journal.committed_at n j turn c = Ok true
  | _ => True
  end.

(** From one state of a lease to another, with the turns reserved between them. *)
Definition moves (l : Lease.ParentLease) (ts : list ReservedTurn) (l' : Lease.ParentLease) : Prop :=
  exists ops, forall r c, let h := foldl Lease.step (Lease.mkHistory l r c) ops in Lease.state h = l' /\ Lease.reserved h = r ++ ts.

(** The effect of a computation: acts, whose records can be read, and reserved turns. *)
Record effect (s s' : Session) (l : list Act) (ts : list ReservedTurn) : Prop := {
  eff_acts : acts s' = acts s ++ l;
  eff_lease : moves (lease s) ts (lease s');
  eff_fs : exists ops, fs s' = Journal.run (fs s) ops;
  eff_book : book s' = book s;
  eff_records : Forall (recorded (Journal.nodes (fs s')) (book s')) l;
  eff_open : closed s' = closed s;
}.

Lemma moves_refl l : moves l [] l.
Proof. exists []. intros r c. cbn. by rewrite app_nil_r. Qed.
Lemma moves_trans l ts l' ts' l'' : moves l ts l' -> moves l' ts' l'' -> moves l (ts ++ ts') l''.
Proof.
  intros [ops Hops] [ops' Hops']. exists (ops ++ ops'). intros r c. rewrite foldl_app. destruct (Hops r c) as [Hl Hr].
  destruct (foldl Lease.step (Lease.mkHistory l r c) ops) as [l1 r1 c1]. cbn in Hl, Hr. subst. destruct (Hops' (r ++ ts) c1) as [Hl' Hr'].
  split; [done|]. by rewrite Hr', app_assoc.
Qed.

Lemma recorded_run f ops j a : recorded (Journal.nodes f) j a -> recorded (Journal.nodes (Journal.run f ops)) j a.
Proof.
  destruct a as [|t|t|turn d|turn c]; cbn; try done.
  - rewrite !Journal.reservation_at_Ok. intros [Hl ?]. split; [|done]. by apply Journal.look_run.
  - rewrite !Journal.destroyed_at_Ok. intros [Hl ?]. split; [|done]. by apply Journal.look_run.
  - rewrite !Journal.committed_at_cases. intros (cm & Hl & ?). exists cm. split; [|done]. by apply Journal.look_run.
Qed.

Lemma effect_refl s : effect s s [] [].
Proof. constructor; [by rewrite app_nil_r|apply moves_refl|by exists []|done|done|done]. Qed.
Lemma effect_trans s s1 s2 l l' ts ts' : effect s s1 l ts -> effect s1 s2 l' ts' -> effect s s2 (l ++ l') (ts ++ ts').
Proof.
  intros [Ha Hl [ops Hf] Hb Hr Ho] [Ha' Hl' [ops' Hf'] Hb' Hr' Ho']. constructor; [by rewrite Ha', Ha, app_assoc|by eapply moves_trans| |congruence| |congruence].
  - exists (ops ++ ops'). unfold Journal.run. rewrite foldl_app. by rewrite Hf', Hf.
  - apply Forall_app. split; [|done]. rewrite Hf', Hb'. eapply Forall_impl; [exact Hr|]. intros a. apply recorded_run.
Qed.

(** ** A logic of effects *)

Definition does {A} (m : M A) (Q : result Failure A -> list Act -> list ReservedTurn -> Prop) : Prop :=
  forall s, exists l ts, effect s (m s).2 l ts /\ Q (m s).1 l ts.

Lemma session_does_bind {A B} (m : M A) (f : A -> M B) Q :
  does m (fun r l ts => match r with Ok a => does (f a) (fun r' l' ts' => Q r' (l ++ l') (ts ++ ts')) | Err e => Q (Err e) l ts end) ->
  does (m ≫= f) Q.
Proof.
  intros Hm s. destruct (Hm s) as (l & ts & He & HQ). unfold mbind, session_bind. destruct (m s) as [[a|e] s']; cbn in *; [|by exists l, ts].
  destruct (HQ s') as (l' & ts' & He' & HQ'). exists (l ++ l'), (ts ++ ts'). split; [by eapply effect_trans|done].
Qed.
Lemma session_does_mono {A} (m : M A) (Q Q' : result Failure A -> list Act -> list ReservedTurn -> Prop) :
  does m Q -> (forall r l ts, Q r l ts -> Q' r l ts) -> does m Q'.
Proof. intros Hm HQ s. destruct (Hm s) as (l & ts & He & H'). eauto. Qed.
Lemma session_does_pure {A} (m : M A) (Q : result Failure A -> list Act -> list ReservedTurn -> Prop) :
  (forall s, effect s (m s).2 [] [] /\ Q (m s).1 [] []) -> does m Q.
Proof. intros Hm s. exists [], []. apply Hm. Qed.
Lemma session_does_ret {A} (a : A) (Q : result Failure A -> list Act -> list ReservedTurn -> Prop) : Q (Ok a) [] [] -> does (mret a) Q.
Proof. intros HQ. apply session_does_pure. intros s. split; [apply effect_refl|done]. Qed.
Lemma session_does_lift {A} (r : result Failure A) (Q : result Failure A -> list Act -> list ReservedTurn -> Prop) : Q r [] [] -> does (lift r) Q.
Proof. intros HQ. apply session_does_pure. intros s. split; [apply effect_refl|done]. Qed.
Lemma session_does_lift_bind {A B} (r : result Failure A) (f : A -> M B) Q :
  match r with Ok a => does (f a) Q | Err e => Q (Err e) [] [] end -> does (lift r ≫= f) Q.
Proof. intros Hr. apply session_does_bind, session_does_lift. by destruct r. Qed.

(** ** The effects of the steps *)

Lemma moves_expired l t : moves l [] (Lease.expired l t).2.
Proof. exists [Lease.OExpired t]. intros r c. cbn. by rewrite app_nil_r. Qed.
Lemma moves_confirm l c : moves l [] (Lease.confirm_child_destroyed l c).2.
Proof. exists [Lease.OConfirm c]. intros r k. cbn. destruct (Lease.confirm_child_destroyed l c) as [[]]; cbn; by rewrite app_nil_r. Qed.
Lemma moves_stop l : moves l [] (Lease.stop l).2.
Proof. exists [Lease.OStop]. intros r c. cbn. by rewrite app_nil_r. Qed.
Lemma moves_reserve l b t : moves l (match (Lease.reserve_at l b t).1 with Ok x => [x] | Err _ => [] end) (Lease.reserve_at l b t).2.
Proof. exists [Lease.OReserve b t]. intros r c. cbn. destruct (Lease.reserve_at l b t) as [[]]; cbn; by rewrite ?app_nil_r. Qed.

(** A step that is not seen outside, one that moves the lease, one that writes a file. *)
Lemma effect_quiet s s' : acts s' = acts s -> lease s' = lease s -> fs s' = fs s -> journal s' = journal s -> closed s' = closed s -> effect s s' [] [].
Proof.
  intros Ha Hl Hf Hj Ho. constructor; [by rewrite Ha, app_nil_r|rewrite Hl; apply moves_refl|by exists []|unfold book; by rewrite Hj|done|done].
Qed.
Lemma effect_lease s ts l' : moves (lease s) ts l' -> effect s (set_lease s l') [] ts.
Proof. intros Hm. constructor; [by rewrite app_nil_r|done|by exists []|done|done|done]. Qed.
Lemma effect_write s s' l op : acts s' = acts s ++ l -> lease s' = lease s -> fs s' = Journal.step (fs s) op -> book s' = book s -> closed s' = closed s ->
  Forall (recorded (Journal.nodes (fs s')) (book s')) l -> effect s s' l [].
Proof. intros Ha Hl Hf Hb Ho Hr. constructor; [done|rewrite Hl; apply moves_refl|by exists [op]|done|done|done]. Qed.

Lemma session_does_now Q : (forall t, Q (Ok t) [] []) -> does now Q.
Proof. intros HQ. apply session_does_pure. intros s. split; [by apply effect_quiet|apply HQ]. Qed.
Lemma session_does_meddle Q : Q (Ok tt) [] [] -> does meddle Q.
Proof. intros HQ. apply session_does_pure. intros s. split; [by apply effect_quiet|apply HQ]. Qed.
Lemma session_does_parent b Q : (forall r, Q (map_err Message r) [ToParent b r] []) -> does (parent b) Q.
Proof.
  intros HQ s. exists [ToParent b (hd (Err "mailbox closed") (replies s))], []. split; [|apply HQ]. constructor; [done|apply moves_refl|by exists []|done| |done]. by apply Forall_singleton.
Qed.
Lemma session_does_worker t Q : (forall r, Q r [Work t] []) -> does (worker t) Q.
Proof.
  intros HQ s. exists [Work t], []. split; [|apply HQ]. constructor; [done|apply moves_refl|by exists []|done| |done]. by apply Forall_singleton.
Qed.
Lemma session_does_expired Q : (forall b, Q (Ok b) [] []) -> does expired Q.
Proof.
  intros HQ. unfold expired. apply session_does_bind, session_does_now. intros t. apply session_does_pure. intros s. unfold step.
  pose proof (moves_expired (lease s) t) as Hm. destruct (Lease.expired (lease s) t) as [b l]. split; [by apply effect_lease|apply HQ].
Qed.
Lemma session_does_confirm c Q : (forall r, Q r [] []) -> does (confirm c) Q.
Proof.
  intros HQ. apply session_does_pure. intros s. unfold confirm.
  pose proof (moves_confirm (lease s) c) as Hm. destruct (Lease.confirm_child_destroyed (lease s) c) as [r l]. split; [by apply effect_lease|apply HQ].
Qed.
Lemma session_does_reserve request Q : (forall e, Q (Err e) [] []) ->
  (forall t, Lease.rt_request t = request -> Q (Ok t) [] [t]) -> does (reserve (to_vec request)) Q.
Proof.
  intros He Hok. unfold reserve. apply session_does_bind, session_does_now. intros now s. unfold step.
  pose proof (moves_reserve (lease s) (to_vec request) now) as Hm.
  destruct (Lease.reserve_at (lease s) (to_vec request) now) as [[t|e] l] eqn:E; cbn in *.
  - exists [], [t]. split; [by apply effect_lease|]. apply Hok. apply Lease.reserve_at_Ok in E as (_ & _ & Hd & _).
    apply decode_Ok in Hd as (_ & Hd & _). rewrite from_to in Hd. congruence.
  - exists [], []. split; [by apply effect_lease|apply He].
Qed.
Lemma session_does_register t Q : (forall r, Q r [] []) -> does (register t) Q.
Proof.
  intros HQ. unfold register. apply session_does_bind, session_does_meddle, session_does_pure. intros s. unfold step.
  destruct (child_control s) as [k|]; [|split; [by apply effect_quiet|apply HQ]].
  destruct (ChildControl.register (tree s) k t) as [r [w k']]. split; [by apply effect_quiet|apply HQ].
Qed.
Lemma session_does_retire i Q : (forall r, Q r [] []) -> does (retire i) Q.
Proof.
  intros HQ. apply session_does_pure. intros s. unfold retire.
  destruct i as [i|], (child_control s) as [k|]; try (split; [by apply effect_quiet|apply HQ]).
  destruct (ChildControl.retire k i) as [r k']. split; [by apply effect_quiet|apply HQ].
Qed.

Lemma publish_reads {A} `{Json A} d name (v : A) f f' : Journal.publish d name v f = (Ok tt, f') -> Journal.look (Journal.nodes f') d name = Ok v.
Proof.
  intros E. pose proof (Journal.publish_effect d name v f) as He. rewrite E in He. destruct He as [[Hn _]|[Hl Ha]]; [done|].
  rewrite (Journal.look_added _ _ _ _ _ _ _ Ha Hl). by rewrite decide_True.
Qed.
Lemma child_destroyed_Ok j turn c ok a f f' : Journal.child_destroyed j turn c ok a f = (Ok tt, f') ->
  Journal.destroyed_at (Journal.nodes f') j turn c = Ok (Journal.mkDestroyed 1 (Journal.j_parent j) c turn ok a).
Proof.
  unfold Journal.child_destroyed. intros E. apply Journal.bind_Ok in E as (r & f1 & _ & E). apply Journal.bind_Ok in E as (u & f2 & Eg & E).
  injection Eg as Eg _. apply ensure_Ok in Eg. apply publish_reads in E. apply Journal.destroyed_at_Ok. split; [done|].
  unfold Journal.bad_destroyed. cbn. rewrite !String.eqb_refl. cbn. reflect. apply Z.ltb_ge. lia.
Qed.
Lemma parent_committed_Ok j turn c f f' : Journal.parent_committed j turn c f = (Ok tt, f') ->
  Journal.committed_at (Journal.nodes f') j turn c = Ok true.
Proof.
  unfold Journal.parent_committed. intros E. apply Journal.bind_Ok in E as (r & f1 & _ & E). apply Journal.bind_Ok in E as (u & f2 & _ & E).
  apply Journal.bind_Ok in E as (dr & f3 & _ & E). apply publish_reads in E. apply Journal.committed_at_cases. eexists. split; [done|].
  unfold Journal.bad_committed. cbn. by rewrite !String.eqb_refl.
Qed.

Lemma session_does_journal_reserve t Q : (forall e, Q (Err e) [] []) -> Q (Ok tt) [WroteReserved t] [] -> does (journal_reserve t) Q.
Proof.
  intros He Hok s. unfold journal_reserve.
  assert (Hj : forall r j f, Journal.reserve (journal s) t (fs s) = (r, j, f) -> f = Journal.step (fs s) (Journal.OReserve (journal s) t) /\
    Journal.directory j = Journal.directory (journal s) /\ Journal.j_parent j = Journal.j_parent (journal s)).
  { intros r j f E. cbn. rewrite E. split; [done|]. unfold Journal.reserve in E. destruct (_ || _ || _ || _); [by injection E as <- <- <-|].
    destruct (Journal.publish _ _ _ _). by injection E as <- <- <-. }
  destruct (Journal.reserve (journal s) t (fs s)) as [[[[]|e] j] f] eqn:E; destruct (Hj _ _ _ eq_refl) as (Hf & Hd & Hp).
  - exists [WroteReserved t], []. split; [|exact Hok]. eapply effect_write; [done|done|exact Hf|unfold book; cbn; by rewrite Hd, Hp|done|].
    apply Forall_singleton. cbn. apply Journal.reserve_Ok in E as (_ & _ & Hl & Hb). apply Journal.reservation_at_Ok. cbn. rewrite Hd.
    split; [done|]. unfold Journal.bad_reservation in *. cbn. by rewrite Hp.
  - exists [], []. split; [|apply He]. eapply effect_write; [by rewrite app_nil_r|done|exact Hf|unfold book; cbn; by rewrite Hd, Hp|done|done].
Qed.
Lemma session_does_journal_destroyed turn d Q : (forall e, Q (Err e) [] []) -> Q (Ok tt) [WroteDestroyed turn d] [] -> does (journal_destroyed turn d) Q.
Proof.
  intros He Hok s. unfold journal_destroyed.
  destruct (Journal.child_destroyed (journal s) turn (child d) (succeeded d) (answer d) (fs s)) as [[[]|e] f] eqn:E;
    assert (Hf : f = Journal.step (fs s) (Journal.OChildDestroyed (journal s) turn (child d) (succeeded d) (answer d))) by (cbn; by rewrite E).
  - exists [WroteDestroyed turn d], []. split; [|exact Hok]. eapply effect_write; [done|done|exact Hf|done|done|].
    apply Forall_singleton. cbn. by apply child_destroyed_Ok in E.
  - exists [], []. split; [|apply He]. eapply effect_write; [by rewrite app_nil_r|done|exact Hf|done|done|done].
Qed.
Lemma session_does_journal_committed turn c Q : (forall e, Q (Err e) [] []) -> Q (Ok tt) [WroteCommitted turn c] [] -> does (journal_committed turn c) Q.
Proof.
  intros He Hok s. unfold journal_committed.
  destruct (Journal.parent_committed (journal s) turn c (fs s)) as [[[]|e] f] eqn:E;
    assert (Hf : f = Journal.step (fs s) (Journal.OParentCommitted (journal s) turn c)) by (cbn; by rewrite E).
  - exists [WroteCommitted turn c], []. split; [|exact Hok]. eapply effect_write; [done|done|exact Hf|done|done|].
    apply Forall_singleton. cbn. by apply parent_committed_Ok in E.
  - exists [], []. split; [|apply He]. eapply effect_write; [by rewrite app_nil_r|done|exact Hf|done|done|done].
Qed.

(** ** A turn *)

(** What one turn may do and answer: nothing; a refusal of the host, for a message that is
    too long, or of the parent; a beginning of a whole turn, which the parent asked for,
    and a failure; or a whole turn and the parent's acknowledgement of its worker's
    answer. *)
Inductive turned (input : bytes) : result Failure bytes -> list Act -> list ReservedTurn -> Prop :=
| turned_nothing e : turned input (Err e) [] []
| turned_long id m : from_slice input = Some (HTurn VERSION id m) -> MAX_MESSAGE_BYTES < str_len m ->
    turned input (Ok (to_vec (Completed VERSION id false too_long))) [] []
| turned_refused b id m a : from_slice input = Some (HTurn VERSION id m) -> from_slice b = Some (Completed VERSION id false a) ->
    turned input (Ok b) [ToParent input (Ok b)] []
| turned_unasked e r : turned input (Err e) [ToParent input r] []
| turned_stopped e l b0 t d r : from_slice b0 = Some (Spawn (Lease.rt_request t)) -> l `prefix_of` full input b0 t d r -> turned input (Err e) l [t]
| turned_whole b0 b t d m : from_slice input = Some (HTurn VERSION (turn_id (Lease.rt_request t)) m) ->
    from_slice b0 = Some (Spawn (Lease.rt_request t)) ->
    from_slice b = Some (Completed VERSION (turn_id (Lease.rt_request t)) (succeeded d) (answer d)) ->
    child d = Lease.rt_child t -> turned input (Ok b) (full input b0 t d (Ok b)) [t].

Lemma session_does_exchange b o Q : (forall e r, Q (Err e) [ToParent b r] []) ->
  (forall response reply, from_slice response = Some reply -> Q (Ok (response, reply)) [ToParent b (Ok response)] []) -> does (exchange_with b o) Q.
Proof.
  intros He Hok. unfold exchange_with. apply session_does_bind, session_does_parent. intros [response|]; [|apply He].
  apply session_does_lift_bind. destruct (ensure _ _); [|apply He]. apply session_does_lift_bind. destruct (ok_or _ _) as [reply|] eqn:E; [|apply He].
  apply ok_or_Ok in E. apply session_does_ret. by apply Hok.
Qed.

Lemma session_does_run_child t turn Q : (forall e l d, l `prefix_of` [Work t; WroteDestroyed turn d] -> Q (Err e) l []) ->
  (forall d i, child d = Lease.rt_child t -> Q (Ok (d, i)) [Work t; WroteDestroyed turn d] []) -> does (run_child t turn) Q.
Proof.
  intros He Hok. unfold run_child. pose (d0 := mkDestroyed EmptyString false EmptyString).
  apply session_does_bind, session_does_register. intros [i|]; [|apply (He _ [] d0), prefix_nil].
  apply session_does_bind, session_does_worker. intros [d|]; [|apply (He _ [Work t] d0); by exists [WroteDestroyed turn d0]].
  assert (Hw : forall e, Q (Err e) [Work t] []) by (intros e; apply (He _ [Work t] d); by exists [WroteDestroyed turn d]).
  apply session_does_lift_bind. destruct (ensure _ _) eqn:Ec; [|apply Hw]. apply ensure_Ok, String.eqb_eq in Ec.
  apply session_does_bind, session_does_confirm. intros [[]|]; [|apply Hw].
  apply session_does_bind, session_does_journal_destroyed; [apply Hw|]. apply session_does_ret. by apply Hok.
Qed.

Lemma session_does_commit turn d i Q : let l r := [ToParent (to_vec (HResult VERSION turn (succeeded d) (answer d))) r; WroteCommitted turn (child d)] in
  (forall e k r, k `prefix_of` l r -> Q (Err e) k []) ->
  (forall b, from_slice b = Some (Completed VERSION turn (succeeded d) (answer d)) -> Q (Ok b) (l (Ok b)) []) -> does (commit turn d i) Q.
Proof.
  intros l He Hok. unfold commit. assert (H0l : forall e, Q (Err e) [] []) by (intros e; apply (He _ _ (Err EmptyString)), prefix_nil).
  assert (H1l : forall e r, Q (Err e) [ToParent (to_vec (HResult VERSION turn (succeeded d) (answer d))) r] []) by (intros e r; apply (He _ _ r); by eexists [_]).
  apply session_does_bind, session_does_expired. intros late. apply session_does_lift_bind. destruct (ensure _ _); [|apply H0l].
  apply session_does_bind, session_does_exchange; [apply H1l|]. intros response reply Hr. destruct reply as [|version acknowledged ok said|]; try (apply session_does_lift, H1l).
  apply session_does_lift_bind. destruct (ensure _ _) eqn:Ec; [|apply H1l]. apply ensure_Ok in Ec.
  rewrite !andb_true_iff, !String.eqb_eq, Bool.eqb_true_iff in Ec. destruct Ec as [[[-> ->] ->] ->].
  apply session_does_bind, session_does_journal_committed; [intros e; apply H1l|].
  apply session_does_bind, session_does_retire. intros [[]|]; [|by apply (He _ _ (Ok response))].
  apply session_does_ret. by apply Hok.
Qed.

Lemma session_does_turn_body input turn m : from_slice input = Some (HTurn VERSION turn m) -> does (turn_body input turn) (turned input).
Proof.
  intros Hin. unfold turn_body. apply session_does_bind, session_does_exchange; [constructor|]. intros response reply Hr.
  assert (Hbad : does (lift (Err (Message "parent did not request a worker")) : M bytes) (fun r l ts => turned input r ([ToParent input (Ok response)] ++ l) ([] ++ ts)))
    by (apply session_does_lift; constructor).
  destruct reply as [request|version refused ok a|]; [|destruct ok; [exact Hbad|]|exact Hbad].
  - apply session_does_lift_bind. destruct (ensure _ _) eqn:Ei; [|apply turned_unasked]. apply ensure_Ok, String.eqb_eq in Ei.
    apply session_does_bind, session_does_reserve; [intros; apply turned_unasked|]. intros t Ht. rewrite <- Ht in Ei, Hr. pose (d0 := mkDestroyed EmptyString false EmptyString).
    pose (r0 := Err EmptyString : result string bytes).
    apply session_does_bind, session_does_journal_reserve; [intros e; apply (turned_stopped _ _ _ response t d0 r0 Hr); by eexists|].
    apply session_does_bind, session_does_run_child.
    + intros e l d [k Hk]. apply (turned_stopped _ _ _ response t d r0 Hr). unfold full. rewrite Ei. cbn. apply prefix_cons, prefix_cons.
      eexists (k ++ _). rewrite app_assoc, <- Hk. reflexivity.
    + intros d i Hd. rewrite <- Ei. apply session_does_commit.
      * intros e l r Hl. apply (turned_stopped _ _ _ response t d r Hr). cbn. by do 4 apply prefix_cons.
      * intros b Hb. rewrite <- Ei in Hin. by eapply turned_whole.
  - destruct (_ && _) eqn:Ec; [|exact Hbad]. rewrite andb_true_iff, !String.eqb_eq in Ec. destruct Ec as [-> ->].
    apply session_does_ret. by eapply turned_refused.
Qed.

Lemma session_does_turn input : does (turn input) (turned input).
Proof.
  unfold turn. apply session_does_bind, session_does_expired. intros late. apply session_does_lift_bind. destruct (ensure _ _); [|constructor].
  apply session_does_bind. apply (session_does_mono _ (fun r l ts => l = [] /\ ts = [] /\
    match r with Ok (id, m) => from_slice input = Some (HTurn VERSION id m) | Err _ => True end)).
  { unfold read_turn. apply session_does_lift_bind. destruct (ensure _ _); [|done]. apply session_does_lift_bind. destruct (ok_or _ _) as [m|] eqn:Em; [|done].
    apply ok_or_Ok in Em. destruct m; try (by apply session_does_lift). apply session_does_lift_bind. destruct (ensure _ _) eqn:Ev; [|done].
    apply ensure_Ok, andb_true_iff in Ev as [Ev%String.eqb_eq _]. subst. by apply session_does_ret. }
  intros [[id message]|e] l ts (-> & -> & Hin); [|constructor]. cbn. destruct (Z.ltb_spec MAX_MESSAGE_BYTES (str_len message)).
  - apply session_does_ret. by eapply turned_long.
  - by eapply session_does_turn_body.
Qed.

(** What [submit] does: what its turn does, and a failure closes the session and stops
    its lease; a closed session does nothing. *)
Lemma submit_effect input s : let '(r, s') := submit input s in
  if closed s then s' = s /\ is_err r = true
  else exists l ts, turned input r l ts /\ acts s' = acts s ++ l /\ moves (lease s) ts (lease s') /\
    (exists ops, fs s' = Journal.run (fs s) ops) /\ book s' = book s /\ Forall (recorded (Journal.nodes (fs s')) (book s')) l /\
    closed s' = is_err r /\ (is_err r = true -> Lease.stopped (lease s') = true).
Proof.
  unfold submit. destruct (closed s) eqn:Ec; [done|].
  destruct (session_does_turn input s) as (l & ts & [Ha Hl Hf Hb Hr Ho] & Ht). destruct (turn input s) as [[b|e] s']; cbn in *.
  - exists l, ts. split_and!; try done. congruence.
  - exists l, ts. split_and!; try done. rewrite <- (app_nil_r ts). eapply moves_trans; [exact Hl|apply moves_stop].
Qed.

(** ** A whole session *)

(** The turns of a session up to the first that fails, after which nothing is done. *)
Inductive served : list bytes -> list (result Failure bytes) -> list Act -> list ReservedTurn -> Prop :=
| served_nil : served [] [] [] []
| served_ok b inputs r l ts rs k us : turned b (Ok r) l ts -> served inputs rs k us -> served (b :: inputs) (Ok r :: rs) (l ++ k) (ts ++ us)
| served_failed b inputs e l ts rs : turned b (Err e) l ts -> Forall (fun r => is_err r = true) rs -> length rs = length inputs ->
    served (b :: inputs) (Err e :: rs) l ts.

Lemma serve_closed inputs : forall s, closed s = true ->
  let '(rs, s') := serve inputs s in s' = s /\ Forall (fun r => is_err r = true) rs /\ length rs = length inputs.
Proof.
  induction inputs as [|b inputs IH]; intros s Hc; cbn [serve]; [done|].
  pose proof (submit_effect b s) as He. destruct (submit b s) as [r s1]. rewrite Hc in He. destruct He as [-> Hr].
  specialize (IH s Hc). destruct (serve inputs s) as [rs s2]. destruct IH as (-> & Hrs & Hlen). split_and!; [done|by constructor|cbn; lia].
Qed.

Lemma serve_served inputs : forall s, closed s = false ->
  let '(rs, s') := serve inputs s in exists k ts, served inputs rs k ts /\ acts s' = acts s ++ k /\ moves (lease s) ts (lease s') /\
    (exists ops, fs s' = Journal.run (fs s) ops) /\ book s' = book s /\ Forall (recorded (Journal.nodes (fs s')) (book s')) k.
Proof.
  induction inputs as [|b inputs IH]; intros s Hc; cbn [serve].
  { exists [], []. split_and!; [constructor|by rewrite app_nil_r|apply moves_refl|by exists []|done|done]. }
  pose proof (submit_effect b s) as He. destruct (submit b s) as [r s1]. rewrite Hc in He.
  destruct He as (l & ts & Ht & Ha & Hl & [ops Hf] & Hb & Hrec & Hcl & _). destruct r as [r|e]; cbn in Hcl.
  - specialize (IH s1 Hcl). destruct (serve inputs s1) as [rs s2]. destruct IH as (k & us & Hs & Ha' & Hl' & [ops' Hf'] & Hb' & Hrec').
    exists (l ++ k), (ts ++ us). split_and!; [by constructor|by rewrite Ha', Ha, app_assoc|by eapply moves_trans| |congruence|].
    + exists (ops ++ ops'). unfold Journal.run. rewrite foldl_app. by rewrite Hf', Hf.
    + apply Forall_app. split; [|done]. rewrite Hf', Hb'. eapply Forall_impl; [exact Hrec|]. intros a. apply recorded_run.
  - pose proof (serve_closed inputs s1 Hcl) as Hs. destruct (serve inputs s1) as [rs s2]. destruct Hs as (-> & Hrs & Hlen).
    exists l, ts. split_and!; [by constructor|done|done|by exists ops|done|done].
Qed.

Lemma works_app l k : works (l ++ k) = works l ++ works k.
Proof. unfold works. by rewrite bind_app. Qed.
Lemma works_full input b0 t d r : works (full input b0 t d r) = [t].
Proof. done. Qed.
Lemma turned_works input r l ts : turned input r l ts -> sublist (works l) ts.
Proof.
  intros Ht. destruct Ht as [e|id m|b id m a|e r|e l b0 t d r Hs [k Hk]|b0 b t d m]; try done. rewrite <- (works_full input b0 t d r), Hk, works_app.
  by apply sublist_inserts_r.
Qed.
Lemma served_works inputs rs k ts : served inputs rs k ts -> sublist (works k) ts.
Proof.
  induction 1 as [|b inputs r l ts rs k us Ht Hs IH|b inputs e l ts rs Ht Hrs Hlen]; [done| |by eapply turned_works].
  rewrite works_app. apply sublist_app; [by eapply turned_works|done].
Qed.

(** An answer with its child's result: the six acts of its whole turn are among those of
    the session, one after the other, and the journal holds the turn as committed. *)
Definition committed (s : Session) (k : list Act) (input b : bytes) (id : string) (ok : bool) (a : string) : Prop :=
  exists b0 t d k1 k2, k = k1 ++ full input b0 t d (Ok b) ++ k2 /\ from_slice b0 = Some (Spawn (Lease.rt_request t)) /\
    turn_id (Lease.rt_request t) = id /\ child d = Lease.rt_child t /\ succeeded d = ok /\ answer d = a /\
    Journal.status_at (Journal.nodes (fs s)) (book s) id =
      Ok (Journal.ParentCommitted (Journal.mkDestroyed 1 (Journal.j_parent (book s)) (Lease.rt_child t) id ok a)).

(** Where an answer to an input comes from. *)
Definition answered (s : Session) (k : list Act) (input b : bytes) : Prop :=
  exists id m, from_slice input = Some (HTurn VERSION id m) /\
    ((MAX_MESSAGE_BYTES < str_len m /\ b = to_vec (Completed VERSION id false too_long)) \/
     (exists a, from_slice b = Some (Completed VERSION id false a) /\ ToParent input (Ok b) ∈ k) \/
     (exists ok a, from_slice b = Some (Completed VERSION id ok a) /\ committed s k input b id ok a)).

Lemma full_committed s k1 k2 input b0 b t d : Forall (recorded (Journal.nodes (fs s)) (book s)) (k1 ++ full input b0 t d (Ok b) ++ k2) ->
  from_slice b0 = Some (Spawn (Lease.rt_request t)) -> child d = Lease.rt_child t ->
  committed s (k1 ++ full input b0 t d (Ok b) ++ k2) input b (turn_id (Lease.rt_request t)) (succeeded d) (answer d).
Proof.
  intros Hrec Hb0 Hd. exists b0, t, d, k1, k2. split_and!; try done.
  apply Forall_app in Hrec as [_ [Hrec _]%Forall_app]. unfold full in Hrec.
  do 6 (apply Forall_cons in Hrec as [? Hrec]).
  match goal with Hx : recorded _ _ (WroteReserved _), Hy : recorded _ _ (WroteDestroyed _ _), Hz : recorded _ _ (WroteCommitted _ _) |- _ =>
    rename Hx into Hr, Hy into Hde, Hz into Hc end. cbn in Hr, Hde, Hc. rewrite Hd in Hde, Hc.
  unfold Journal.status_at. rewrite Hr. cbn [mbind result_bind Journal.rs_child Journal.reservation_of]. by rewrite Hc, Hde.
Qed.

Lemma served_answers inputs rs k ts s : served inputs rs k ts -> forall k1 k2, Forall (recorded (Journal.nodes (fs s)) (book s)) (k1 ++ k ++ k2) ->
  Forall2 (fun input r => match r with Ok b => answered s (k1 ++ k ++ k2) input b | Err _ => True end) inputs rs.
Proof.
  induction 1 as [|input inputs r l ts rs k us Ht Hs IH|input inputs e l ts rs Ht Hrs Hlen]; intros k1 k2 Hrec.
  - constructor.
  - constructor; [|specialize (IH (k1 ++ l) k2); rewrite <- !app_assoc in IH, Hrec |- *; by apply IH].
    rewrite <- !app_assoc in Hrec |- *.
    inversion Ht as [|id m Hin Hlong E|b id m a Hin Hb E| | |b0 b t d m Hin Hb0 Hb Hd E]; subst; eexists _, m; (split; [exact Hin|]).
    + by left.
    + right; left. eexists. split; [exact Hb|]. set_solver.
    + do 2 right. eexists _, _. split; [exact Hb|]. by apply full_committed.
  - constructor; [done|]. clear -Hrs Hlen. revert rs Hrs Hlen. induction inputs as [|x inputs IH]; intros [|r rs] Hrs Hlen; try done.
    apply Forall_cons in Hrs as [Hr Hrs]. constructor; [by destruct r|]. apply IH; [done|]. cbn in Hlen. lia.
Qed.

(** A worker is run only after the record of its reservation was written, in its turn. *)
Lemma full_reserved input b0 t d r k x k' : k ++ Work x :: k' `prefix_of` full input b0 t d r -> WroteReserved x ∈ k.
Proof.
  intros [m Hm]. unfold full in Hm. destruct k as [|a1 [|a2 [|a3 [|a4 [|a5 [|a6 [|a7 k]]]]]]]; cbn in Hm; try discriminate Hm.
  simplify_eq. right. by left.
Qed.
Lemma turned_reserved input r l ts k x k' : turned input r l ts -> l = k ++ Work x :: k' -> WroteReserved x ∈ k.
Proof.
  intros Ht El. assert (Hpre : exists b0 t d r, l `prefix_of` full input b0 t d r).
  { destruct Ht as [e|id m|b id m a|e r|e l b0 t d r Hs Hl|b0 b t d m]; try (by destruct k as [|? [|]]); by eexists _, _, _, _. }
  destruct Hpre as (b0 & t & d & r' & Hpre). rewrite El in Hpre. by eapply full_reserved.
Qed.
Lemma served_reserved inputs rs k ts : served inputs rs k ts -> forall k1 x k2, k = k1 ++ Work x :: k2 -> WroteReserved x ∈ k1.
Proof.
  induction 1 as [|b inputs r l ts rs k us Ht Hs IH|b inputs e l ts rs Ht Hrs Hlen]; intros k1 x k2 E; [by destruct k1| |by eapply turned_reserved].
  destruct (app_eq_inv _ _ _ _ E) as [(m & -> & Em)|(m & -> & Em)].
  - destruct m as [|y m]; cbn in Em.
    + specialize (IH [] x k2 (eq_sym Em)). by apply elem_of_nil in IH.
    + injection Em as <- Em. by eapply turned_reserved.
  - apply elem_of_app. right. by eapply IH.
Qed.

(** C3: A parent's session runs a worker at most once for a turn, and never more workers
    than its lease has turns, whatever the parent, the workers, the clock and the disk
    answer: every worker that was run has a reservation that is on disk and was put there
    before the worker started, of a valid request and with the lease's own ceilings of
    memory, requests and tokens and a timeout within that of the lease, and the ceilings
    of all of them together are within the lease's budgets of requests and of tokens. The
    first failure ends the session: every later input is refused and does nothing. *)
Theorem session_bounded (p : hash) (life : Z) (lim : Lease.TurnLimits) (max_turns : nat) (total_requests total_tokens time : Z)
    (s : Session) (inputs : list bytes) :
  0 <= Lease.timeout lim -> 0 <= Lease.model_requests lim -> 0 <= Lease.output_tokens lim ->
  Lease.new p life lim max_turns total_requests total_tokens time = Ok (lease s) -> closed s = false ->
  let '(rs, s') := serve inputs s in
  exists k ts, acts s' = acts s ++ k /\ served inputs rs k ts /\
    (length (works k) <= max_turns <= 1024)%nat /\ NoDup ((fun t => turn_id (Lease.rt_request t)) <$> works k) /\
    Lease.requests_reserved (works k) <= total_requests /\ Lease.tokens_reserved (works k) <= total_tokens /\
    (forall k1 t k2, k = k1 ++ Work t :: k2 -> WroteReserved t ∈ k1) /\
    Forall (fun t => Lease.rt_parent t = p /\ valid (Lease.rt_request t) /\ Lease.memory_bytes (Lease.rt_limits t) = Lease.memory_bytes lim /\
      0 < Lease.timeout (Lease.rt_limits t) <= Lease.timeout lim /\
      Lease.model_requests (Lease.rt_limits t) = Lease.model_requests lim /\
      Lease.output_tokens (Lease.rt_limits t) = Lease.output_tokens lim /\
      Journal.reservation_at (Journal.nodes (fs s')) (book s) (turn_id (Lease.rt_request t)) = Ok (Journal.reservation_of t)) (works k).
Proof.
  intros Ht Hm Ho Hn Hc. pose proof (serve_served inputs s Hc) as Hs. destruct (serve inputs s) as [rs s'].
  destruct Hs as (k & ts & Hs & Ha & [ops Hops] & _ & Hb & Hrec). exists k, ts.
  destruct (Hops [] []) as [_ Hts]. cbn in Hts. pose proof (served_works _ _ _ _ Hs) as Hsub.
  destruct (Lease.ledger_bounds p life lim max_turns total_requests total_tokens time (lease s) ops Ht Hm Ho Hn)
    as (Hlen & Hreq & Htok & Hnd & Heach & _). unfold Lease.run in *. rewrite Hts in *.
  pose proof (sublist_length _ _ Hsub) as Hle. pose proof (served_reserved _ _ _ _ Hs) as Hres.
  assert (Hin : Forall (Lease.within_lease p lim) (works k)).
  { apply Forall_forall. intros t Hin. by apply (proj1 (Forall_forall _ _) Heach), (elem_of_sublist _ _ _ Hin Hsub). }
  destruct (Lease.reserved_sums lim (works k)) as [-> ->]; [eapply Forall_impl; [exact Hin|]; unfold Lease.within_lease; cbn; tauto|].
  split_and!; try done; [lia|lia| |nia|nia|].
  - eapply sublist_NoDup; [exact Hnd|]. by apply fmap_sublist.
  - apply Forall_forall. intros t Ht'. pose proof (proj1 (Forall_forall _ _) Hin t Ht') as (? & ? & _ & ? & ? & ? & ?). split_and!; try done; try lia.
    apply list_elem_of_bind in Ht' as (a & Ha1 & (k1 & k2 & ->)%list_elem_of_split). destruct a; cbn in Ha1; try by apply elem_of_nil in Ha1.
    apply list_elem_of_singleton in Ha1 as <-. rewrite <- Hb. refine (proj1 (Forall_forall _ _) Hrec (WroteReserved t) _).
    apply elem_of_app. left. by eapply Hres.
Qed.

End laws.
