(* ===== verification/TurnWorker.v ===== *)
(** * The worker of a turn ([crates/celln-pilot/src/turn_worker.rs])

    The arguments of a turn worker: an immutable template of the host's policy, and the
    task that the parent packed. What a worker with those arguments may do is within what
    the lease reserved for the turn. *)

From S2P Require Import Prelude Text Json Instances Manifest Protocol Harness HarnessLaws ParentContext.
From S2P Require ToolSchema Lease.

Definition VERSION : string := "celln.native-turn-template/v1".

(** [config.task = task]. *)
Definition with_task (c : Config) (t : string) : Config :=
  mkConfig (contract c) t (system c) (url c) (model c) (tools c) (max_turns c) (max_calls c) (require_tool_call c)
    (allow_insecure c) (max_tokens c).

Record Template : Type := mkTemplate { policy : Config; binding : hash }.

Section worker.
Context `{Blake3} `{JsonText} `{Json Value} (from_value : Value -> option ToolSchema.Node).
Context `{Json (string * Config)} `{Json Config} `{Json ContextInput}.

Definition new (c : Config) : result string Template :=
  _ ← ensure (str_is_empty (Harness.task c)) "worker template must not contain a turn task";
  _ ← validate from_value (with_task c "template validation");
  let c := with_task c EmptyString in
  Ok (mkTemplate c (hash_of (to_vec (VERSION, c)))).

(** What a turn's worker is started with: its configuration and the parent's task. *)
Definition arguments (p : Template) (t : Lease.ReservedTurn) : result string (string * string) :=
  context ← decode_context (Protocol.task (Lease.rt_request t));
  _ ← ensure ((max_turns (policy p) <=? Lease.model_requests (Lease.rt_limits t))
              && (max_turns (policy p) * max_tokens (policy p) <=? Lease.output_tokens (Lease.rt_limits t)))
        "worker template exceeds reserved model budget";
  let config := with_task (policy p) (c_message context) in
  _ ← validate_with_history from_value config (c_history context);
  Ok (from_utf8 (to_vec config), Protocol.task (Lease.rt_request t)).

(** ** A worker stays within its reservation *)

Lemma compile_tokens c cts : compile from_value c = Ok cts -> 256 <= max_tokens c <= 4096.
Proof. unfold compile, within. intros Hc. split_ok. reflect. lia. Qed.

(** The requests of a trace, and what each one says that it asks for. *)
Definition wires (l : list Act) : list bytes := l ≫= fun a => match a with Ask wire => [wire] | _ => [] end.
Definition body_of (wire : bytes) : option Value := vget "body" <$> from_slice wire.
Definition wire_tokens (wire : bytes) : option Z := body_of wire ≫= fun b => as_u64 (vget "max_tokens" b).

Lemma wires_asks l : Z.of_nat (length (wires l)) = asks l.
Proof. induction l as [|x l IH]; [done|]. rewrite asks_cons, <- IH. destruct x; unfold wires; cbn; lia. Qed.

(** The wire of a request is an envelope for the configured model, with its budget. *)
Definition asks_for (c : Config) (wire : bytes) : Prop := blen wire <= MODEL_WIRE_BYTES /\
  exists v, from_slice wire = Some v /\ vget "url" v = vstr (url c) /\ vget "method" v = vstr "POST" /\
    vget "model" (vget "body" v) = vstr (model c) /\ vget "max_tokens" (vget "body" v) = vnum (max_tokens c).

Lemma model_request_asks c cts messages calls wire : model_request c cts messages calls = Ok wire -> asks_for c wire.
Proof.
  unfold model_request, model_wire. intros Hw. split_ok. split; [by apply Z.leb_le|]. rewrite from_to. eexists. split; [reflexivity|].
  case_bool_decide; by split_and!.
Qed.
Lemma asks_for_tokens c wire : 0 <= max_tokens c <= u64_max -> asks_for c wire -> wire_tokens wire = Some (max_tokens c).
Proof. intros Hm (_ & v & Ev & _ & _ & _ & Ht). unfold wire_tokens, body_of. rewrite Ev. cbn. by rewrite Ht. Qed.

Lemma wires_tokens c ws : 0 <= max_tokens c <= u64_max -> Forall (asks_for c) ws ->
  mapM wire_tokens ws = Some (replicate (length ws) (max_tokens c)).
Proof. intros Hm. induction 1 as [|w ws Hw _ IH]; [done|]. cbn. rewrite (asks_for_tokens c) by done. cbn. by rewrite IH. Qed.

(** Every request of a run is such a wire, and the loop starts with that of its first turn. *)
Definition all_ask (c : Config) (l : list Act) : Prop := Forall (asks_for c) (wires l).
Lemma all_ask_nil c : all_ask c [].
Proof. constructor. Qed.
#[local] Hint Resolve all_ask_nil : core.
Lemma all_ask_event c v l : all_ask c l -> all_ask c (Event v :: l).
Proof. done. Qed.
Ltac asking H := apply H; repeat apply all_ask_event; done.
Lemma wires_app l k : wires (l ++ k) = wires l ++ wires k.
Proof. apply bind_app. Qed.
Lemma all_ask_app c l k : all_ask c (l ++ k) <-> all_ask c l /\ all_ask c k.
Proof. unfold all_ask. by rewrite wires_app, Forall_app. Qed.

Lemma run_calls_wires ps : forall calls messages, does (run_calls ps calls messages) (fun _ l => wires l = []).
Proof.
  induction ps as [|p ps IH]; intros calls messages; cbn [run_calls]; [by apply does_ret|].
  apply does_bind, does_execute. intros [output|]; [|done].
  do 4 (apply does_lift_bind; match goal with |- match ?r with _ => _ end => destruct r; [|done] end).
  apply does_bind, does_event. eapply does_mono; [apply IH|done].
Qed.
Lemma run_turns_wires c cts left_ : forall turn messages ids calls, does (run_turns c cts left_ turn messages ids calls)
  (fun _ l => all_ask c l /\ match left_, model_request c cts messages calls with S _, Ok wire => head l = Some (Ask wire) | _, _ => True end).
Proof.
  induction left_ as [|left_ IH]; intros turn messages ids calls; cbn [run_turns]; [by apply does_lift|].
  apply does_lift_bind. destruct (model_request c cts messages calls) as [wire|] eqn:Ew; [|done].
  assert (Hask : forall k, all_ask c k -> all_ask c (Ask wire :: k)).
  { intros k Hk. change (Forall (asks_for c) (wire :: wires k)). constructor; [by eapply model_request_asks|done]. }
  apply does_bind, does_ask. intros [response|]; [|split; [asking Hask|done]].
  apply does_lift_bind. destruct (read_response c response calls) as [[choice l]|]; [|split; [asking Hask|done]].
  apply does_bind, does_event. case_bool_decide.
  - apply does_lift_bind. destruct (final_answer c choice calls); [|split; [asking Hask|done]].
    apply does_bind, does_event, does_ret. split; [asking Hask|done].
  - apply does_lift_bind. destruct (ensure _ _); [|split; [asking Hask|done]].
    apply does_lift_bind. destruct (check_calls cts ids l) as [[[ids' ps] vs]|]; [|split; [asking Hask|done]].
    apply does_lift_bind. destruct (ensure _ _); [|split; [asking Hask|done]].
    apply does_bind. eapply does_mono; [apply run_calls_wires|]. cbn beta. intros r k Hk.
    assert (Hev : forall v j, all_ask c j -> all_ask c ([Ask wire] ++ [Event v] ++ k ++ j)).
    { intros v j Hj. apply (Hask (Event v :: k ++ j)). change (all_ask c (k ++ j)). apply all_ask_app. split; [|done]. unfold all_ask. by rewrite Hk. }
    destruct r as [[n ms]|]; [|split; [|done]; specialize (Hev (jobject [("type", vstr "model"); ("turn", vnum turn); ("model", vstr (model c))]) []); rewrite app_nil_r in Hev; by apply Hev].
    eapply does_mono; [apply IH|]. cbn beta. intros r' j [Hj _]. split; [by apply Hev|done].
Qed.

(** A configuration that the host validated with a history is one whose loop starts. *)
Lemma validated_starts c history : validate_with_history from_value c history = Ok tt ->
  exists wire, does (run_with_history from_value c history) (fun _ l => Ask wire ∈ l /\ all_ask c l).
Proof.
  unfold validate_with_history. intros Hv. apply result_bind_Ok in Hv as (cts & Hc & Hv). apply result_bind_Ok in Hv as (kept & Hk & Hv).
  apply result_bind_Ok in Hv as (messages & Hm & Hv). apply result_bind_Ok in Hv as (wire & Hw & _).
  exists wire. unfold run_with_history. apply does_lift_bind. rewrite Hc. apply does_bind, does_event. apply does_lift_bind. rewrite Hk.
  apply does_bind. apply (does_mono _ (fun r l => r = Ok tt /\ wires l = [])); [destruct (_ <? _)%nat; [by apply does_event|by apply does_ret]|].
  intros r l [-> Hl]. apply does_lift_bind. rewrite Hm. apply compile_limits in Hc as [Hc _]. destruct (Z.to_nat (max_turns c)) eqn:En; [lia|].
  eapply does_mono; [apply run_turns_wires|]. cbn beta iota. rewrite Hw. intros _ k [Hall Hk']. split.
  - right. apply elem_of_app. right. destruct k; [done|]. injection Hk' as ->. left.
  - unfold all_ask. cbn. by rewrite wires_app, Hl.
Qed.

Lemma allowed_each c l : forall a n, allowed from_value c a n l ->
  Forall (fun x => match x with Ask wire => blen wire <= MODEL_WIRE_BYTES | Call tool b => lent from_value c tool b | Event _ => True end) l.
Proof.
  induction l as [|x l IH]; intros a n Hl; [constructor|]. destruct x; cbn in Hl; constructor; try tauto; eapply IH; apply Hl.
Qed.

(** C12: A turn's worker stays within its reservation. When the host gives arguments to the
    worker of a reserved turn, they are its template with the parent's message as the task,
    and the parent's task itself; and whatever the model, the tools and the broker answer,
    the worker's loop sends a request, sends no more requests than the turn reserved, each
    to the template's own endpoint and model, and the output tokens that the requests name
    on the wire sum to no more than the turn reserved; every call is of a tool of the
    template with arguments that its schema accepts. *)
Theorem worker_within_reservation (p : Template) (t : Lease.ReservedTurn) (config raw : string) (e : Env) :
  arguments p t = Ok (config, raw) ->
  exists context c, decode_context raw = Ok context /\ c = with_task (policy p) (c_message context) /\
    from_slice (as_bytes config) = Some c /\ raw = Protocol.task (Lease.rt_request t) /\
    let e' := (run_with_history from_value c (c_history context) e).2 in
    exists l ns, acts e' = acts e ++ l /\ 0 < asks l <= Lease.model_requests (Lease.rt_limits t) /\
      mapM wire_tokens (wires l) = Some ns /\ sum_of ns <= Lease.output_tokens (Lease.rt_limits t) /\
      Forall (fun a => match a with Ask wire => asks_for (policy p) wire | Call tool b => lent from_value (policy p) tool b | Event _ => True end) l.
Proof.
  unfold arguments. intros Ha. apply result_bind_Ok in Ha as (context & Hd & Ha). apply result_bind_Ok in Ha as (u & Hg%ensure_Ok & Ha).
  apply result_bind_Ok in Ha as ([] & Hv & [= <- <-]). rewrite andb_true_iff, !Z.leb_le in Hg. destruct Hg as [Hg1 Hg2].
  set (c := with_task (policy p) (c_message context)) in *. exists context, c. split_and!; [done|done| |done|].
  { by rewrite as_bytes_from_utf8, from_to. }
  destruct (validated_starts _ _ Hv) as (wire & Hstart). destruct (Hstart e) as (l & E & Hin & Hall).
  destruct (run_does from_value c (c_history context) e) as (l' & E' & Hl & _). assert (l' = l) as -> by (rewrite E in E'; by apply app_inv_head in E').
  assert (Hc : exists cts, compile from_value c = Ok cts) by (unfold validate_with_history in Hv; split_ok; eauto).
  destruct Hc as [cts Hc]. pose proof (compile_limits _ _ _ Hc) as [Hmt _]. pose proof (compile_tokens _ _ Hc) as Htok.
  pose proof (allowed_counts from_value c 0 0 l Hl) as Hcount. destruct Hcount as [Hask _]; [lia|lia|].
  change (max_turns c) with (max_turns (policy p)) in *. change (max_tokens c) with (max_tokens (policy p)) in *.
  exists l, (replicate (length (wires l)) (max_tokens (policy p))). split_and!; [done| |lia| | |].
  - unfold asks. assert (Ask wire ∈ filter (fun a => is_ask a = true) l) as Hf by (by apply list_elem_of_filter).
    destruct (filter _ l); [by apply elem_of_nil in Hf|cbn; lia].
  - apply wires_tokens; [unfold u64_max; lia|exact Hall].
  - rewrite (sum_of_const (max_tokens (policy p))), length_replicate, wires_asks by (by apply Forall_replicate). nia.
  - apply Forall_forall. intros a Ha. pose proof (proj1 (Forall_forall _ _) (allowed_each c l 0 0 Hl) a Ha) as Hx. destruct a as [w| |]; try done.
    apply (proj1 (Forall_forall _ _) Hall). apply list_elem_of_bind. exists (Ask w). split; [by left|done].
Qed.
End worker.
