(* ===== verification/Http.v ===== *)
(** * Requests and answers of the router ([crates/celln-cli/src/router.rs],
    [dispatch_http.rs])

    The bytes of a request become its head, one bounded line at a time, and everything
    ambiguous in it is refused before any credential is looked at. The credentials are
    files that are read again for every request. *)

From S2P Require Import Prelude Text Json Manifest Host.

Definition MAX_REQUEST_LINE : Z := 8192.
Definition MAX_HEADER_LINE : Z := 8192.
Definition MAX_HEADER_COUNT : nat := 64.

(** ** Lines *)

(** What is left of a connection: its bytes, and whether reading past them fails
    instead of finding the end. *)
Record Input : Type := mkInput { data : bytes; broken : bool }.

(** [byte as char], pushed on a [String]. *)
Definition latin1 (b : byte) : bytes :=
  let v := byte_val b in
  let byte_of z := default x00 (Byte.of_N (Z.to_N z)) in
  if v <? 128 then [b] else [byte_of (192 + v / 64); byte_of (128 + v mod 64)].

(** The loop of [read_bounded_line]; [len] is the length of the line so far. *)
Fixpoint line_from (cap len : Z) (b : bytes) (broken : bool) : option (bytes * bytes) :=
  match b with
  | [] => if broken then None else Some ([], [])
  | x :: r =>
      if bool_decide (x = x0a) then Some (latin1 x, r) else
      let len := len + blen (latin1 x) in
      if cap <=? len then None else
      '(line, rest) ← line_from cap len r broken; Some (latin1 x ++ line, rest)
  end.
Definition read_bounded_line (cap : Z) (i : Input) : option (bytes * Input) :=
  '(line, rest) ← line_from cap 0 (data i) (broken i); Some (line, mkInput rest (broken i)).

(** [reader.read_exact(&mut vec![0; n])]. *)
Definition read_exact (n : Z) (i : Input) : option (bytes * Input) :=
  if blen (data i) <? n then None
  else Some (take (Z.to_nat n) (data i), mkInput (drop (Z.to_nat n) (data i)) (broken i)).

Definition trim_str (s : string) : string := from_utf8 (trim (as_bytes s)).

(** ** Heads *)

Record Permits : Type := mkPermits { execution : option string; model : option string }.

(** The locals of [handle_request] that the header loop sets. *)
Record Head : Type := mkHead {
  length_ : Z;
  seen_length : bool;
  authorization : option string;
  pinned_backend : option string;
  parent_incarnation : option string;
  async : bool;
  permits_ : Permits;
}.
Definition no_head : Head := mkHead 0 false None None None false (mkPermits None None).

(** How a stage of [handle_request] ends early: with a reply, or with an error that
    drops the connection. *)
Inductive Stop : Type := Refuse (status : Z) (body : Value) | Drop.

Definition refusal (e : string) : Value := VObject [("error", VString e)].
Definition refusal_final (e : string) : Value := VObject [("error", VString e); ("retryAuthorized", VBool false)].
Definition refuse {A} (status : Z) (e : string) : result Stop A := Err (Refuse status (refusal e)).

Definition is_graphic (b : byte) : bool := in_range 33 126 b.

(** A permit header, in its slot. *)
Definition permit_slot (slot : option string) (value : string) : result Stop (option string) :=
  let value := trim_str value in
  if is_Some_bool slot || str_is_empty value || negb (all_bytes is_graphic value)
  then refuse 400 "invalid or duplicate permit header" else Ok (Some value).

(** One header of the loop. *)
Definition header_step (h : Head) (name value : string) : result Stop Head :=
  let '(mkHead len seen auth pin inc asy pm) := h in
  let named n := eq_ignore_ascii_case name n in
  if named "authorization" then
    if is_Some_bool auth then refuse 400 "duplicate authorization"
    else Ok (mkHead len seen (Some (trim_str value)) pin inc asy pm)
  else if named "x-celln-backend" then
    if is_Some_bool pin then refuse 400 "duplicate backend pin"
    else Ok (mkHead len seen auth (Some (trim_str value)) inc asy pm)
  else if named "x-celln-parent-incarnation" then
    if is_Some_bool inc then refuse 400 "duplicate parent identity"
    else Ok (mkHead len seen auth pin (Some (trim_str value)) asy pm)
  else if named "x-celln-execution-permit" then
    s ← permit_slot (execution pm) value; Ok (mkHead len seen auth pin inc asy (mkPermits s (model pm)))
  else if named "x-celln-model-permit" then
    s ← permit_slot (model pm) value; Ok (mkHead len seen auth pin inc asy (mkPermits (execution pm) s))
  else if named "prefer" then
    if negb (String.eqb (trim_str value) "respond-async") || asy then refuse 400 "unsupported or duplicate preference"
    else Ok (mkHead len seen auth pin inc true pm)
  else if named "content-length" then
    if seen || negb (all_bytes is_digit (trim_str value)) then refuse 400 "invalid content length" else
    match parse_u64 (as_bytes (trim_str value)) with
    | None => refuse 400 "invalid content length"
    | Some n => Ok (mkHead n true auth pin inc asy pm)
    end
  else if named "transfer-encoding" then refuse 400 "transfer encoding unsupported"
  else Ok h.

(** The header loop: [remaining] headers may still come. *)
Fixpoint read_headers (remaining : nat) (h : Head) (i : Input) : result Stop (Head * Input) :=
  match read_bounded_line MAX_HEADER_LINE i with
  | None => Err Drop
  | Some (line, i) =>
      match line with [] => Err Drop | _ =>
        let header := from_utf8 (trim_end_ws line) in
        if str_is_empty header then Ok (h, i) else
        match remaining with
        | O => Err Drop
        | S remaining =>
            match split_once ":" header with
            | None => refuse 400 "invalid header"
            | Some (name, value) => h ← header_step h name value; read_headers remaining h i
            end
        end
      end
  end.

Record Request : Type := mkRequest { method : string; path_ : string; head : Head; rest : Input }.

Definition read_request (i : Input) : result Stop Request :=
  match read_bounded_line MAX_REQUEST_LINE i with
  | None => Err Drop
  | Some (line, i) =>
      match split_once " " (from_utf8 (trim_end_ws line)) with
      | None => refuse 400 "malformed request line"
      | Some (method, raw_path) =>
          let path := match split_whitespace (as_bytes raw_path) with w :: _ => from_utf8 w | [] => "" end in
          '(h, i) ← read_headers MAX_HEADER_COUNT no_head i;
          Ok (mkRequest method path h i)
      end
  end.

(** The bearer token a request presents. *)
Definition presented (h : Head) : option string :=
  v ← authorization h;
  '(scheme, token) ← split_once " " v;
  if eq_ignore_ascii_case scheme "bearer" then Some token else None.

(** ** Credentials *)

(** [constant_time_eq]: the fold over the pairs of bytes. *)
Definition constant_time_eq (l r : bytes) : bool :=
  if negb (blen l =? blen r) then false
  else foldl (fun acc ab => Z.lor acc (Z.lxor (byte_val ab.1) (byte_val ab.2))) 0 (zip l r) =? 0.
Definition same_token (a b : string) : bool := constant_time_eq (as_bytes a) (as_bytes b).

(** [read_bearer_token]. *)
Definition read_token (p : Path) : IO string :=
  f ← open_file p;
  match f with
  | None => fail NotFound
  | Some f =>
      b ← read_file f 4097;
      _ ← guard (utf8_valid b) Failed;
      let token := from_utf8 (trim b) in
      _ ← guard (negb ((4096 <? blen b) || (str_len token <? 24) || negb (all_bytes is_graphic token))) Failed;
      mret token
  end.

(** ** Answers of a backend *)

(** [find(p)], and what follows the first occurrence. *)
Fixpoint after_first (p : string) (s : string) : option string :=
  match strip_prefix p s with
  | Some r => Some r
  | None => match s with EmptyString => None | String _ s => after_first p s end
  end.

Definition crlf : string := from_utf8 [x0d; x0a; x0d; x0a].
Definition lflf : string := from_utf8 [x0a; x0a].

(** [read_response_limit] on the bytes of a connection. *)
Definition read_response_limit (max : Z) (response : string) : option string :=
  let b := take_bytes (max + 1) (as_bytes response) in
  if (max <? blen b) || negb (is_Some_bool (after_first crlf (from_utf8 b))) || negb (utf8_valid b) then None
  else Some (from_utf8 b).
Definition read_response : string -> option string := read_response_limit (16 * 1024 * 1024).

(** [lines().next()] and [parse::<u16>()]. *)
Definition first_line (s : string) : string :=
  let l := before_char "010" s in
  match rsplit_once "013" l with Some (a, "") => if has_char "010" s then a else l | _ => l end.
Definition parse_status (response : string) : Z :=
  match split_whitespace (as_bytes (first_line response)) with
  | _ :: code :: _ => default 502 (parse_u16 (from_utf8 code))
  | _ => 502
  end.

Definition extract_body (response : string) : string :=
  match after_first crlf response with
  | Some b => b
  | None => default "" (after_first lflf response)
  end.

(** What reaches the code of one exchange: an error for a lost connection or an answer
    that is not one. *)
Definition received (a : Answer) : option string :=
  match a with Answered r => read_response r | _ => None end.

(** ** What an accepted head says *)

(** The values of the headers of a name, in their order. *)
Definition values (n : string) (hs : list (string * string)) : list string :=
  omap (fun kv => if String.eqb (to_ascii_lowercase kv.1) n then Some kv.2 else None) hs.

(** The head is that of the headers [hs], none of which is ambiguous. *)
Record summarises (h : Head) (hs : list (string * string)) : Prop := {
  sum_authorization : trim_str <$> values "authorization" hs = option_list (authorization h);
  sum_backend : trim_str <$> values "x-celln-backend" hs = option_list (pinned_backend h);
  sum_incarnation : trim_str <$> values "x-celln-parent-incarnation" hs = option_list (parent_incarnation h);
  sum_execution : trim_str <$> values "x-celln-execution-permit" hs = option_list (execution (permits_ h));
  sum_model : trim_str <$> values "x-celln-model-permit" hs = option_list (model (permits_ h));
  sum_prefer : trim_str <$> values "prefer" hs = if async h then ["respond-async"] else [];
  sum_length : if seen_length h
    then exists v, values "content-length" hs = [v] /\ digits (trim_str v) /\ length_ h = decimal (as_bytes (trim_str v)) /\ length_ h <= u64_max
    else values "content-length" hs = [];
  sum_no_length : seen_length h = false -> length_ h = 0;
  sum_transfer : values "transfer-encoding" hs = [];
}.

Lemma values_snoc n hs name v :
  values n (hs ++ [(name, v)]) = values n hs ++ if String.eqb (to_ascii_lowercase name) n then [v] else [].
Proof. unfold values. rewrite omap_app. cbn. by destruct (String.eqb _ n). Qed.

Lemma summarises_nil : summarises no_head [].
Proof. by split. Qed.

Lemma permit_slot_Ok slot v s : permit_slot slot v = Ok s -> slot = None /\ s = Some (trim_str v).
Proof. unfold permit_slot. destruct slot; cbn; [done|]. case_match; [done|]. intros [= <-]. done. Qed.

(** What the step of a header with the lower-case name [low] does. *)
Lemma header_step_summarises h hs name v h' :
  header_step h name v = Ok h' -> summarises h hs -> summarises h' (hs ++ [(name, v)]).
Proof.
  destruct h as [len seen auth pin inc asy [ex mo]]. unfold header_step, eq_ignore_ascii_case, refuse. cbv zeta.
  intros Hs [HA HB HC HD HE HF HG HH HI]. cbn [authorization pinned_backend parent_incarnation permits_ execution model async seen_length length_] in *.
  assert (HV : forall n, values n (hs ++ [(name, v)]) = values n hs ++ if String.eqb (to_ascii_lowercase name) n then [v] else [])
    by (intros n; apply values_snoc).
  set (low := to_ascii_lowercase name) in *. clearbody low.
  change (to_ascii_lowercase "authorization") with "authorization" in Hs.
  change (to_ascii_lowercase "x-celln-backend") with "x-celln-backend" in Hs.
  change (to_ascii_lowercase "x-celln-parent-incarnation") with "x-celln-parent-incarnation" in Hs.
  change (to_ascii_lowercase "x-celln-execution-permit") with "x-celln-execution-permit" in Hs.
  change (to_ascii_lowercase "x-celln-model-permit") with "x-celln-model-permit" in Hs.
  change (to_ascii_lowercase "prefer") with "prefer" in Hs.
  change (to_ascii_lowercase "content-length") with "content-length" in Hs.
  change (to_ascii_lowercase "transfer-encoding") with "transfer-encoding" in Hs.
  repeat match type of Hs with
  | (if String.eqb low ?c then _ else _) = _ => destruct (String.eqb_spec low c) as [E|?]; [rewrite E in HV; clear E|]
  end.
  - destruct auth; cbn in Hs; [done|]. injection Hs as <-. split; rewrite ?HV; cbn; rewrite ?app_nil_r, ?fmap_app, ?HA; done.
  - destruct pin; cbn in Hs; [done|]. injection Hs as <-. split; rewrite ?HV; cbn; rewrite ?app_nil_r, ?fmap_app, ?HB; done.
  - destruct inc; cbn in Hs; [done|]. injection Hs as <-. split; rewrite ?HV; cbn; rewrite ?app_nil_r, ?fmap_app, ?HC; done.
  - apply result_bind_Ok in Hs as (s & Hs & [= <-]). apply permit_slot_Ok in Hs as [-> ->].
    split; rewrite ?HV; cbn; rewrite ?app_nil_r, ?fmap_app, ?HD; done.
  - apply result_bind_Ok in Hs as (s & Hs & [= <-]). apply permit_slot_Ok in Hs as [-> ->].
    split; rewrite ?HV; cbn; rewrite ?app_nil_r, ?fmap_app, ?HE; done.
  - destruct (negb _ || asy) eqn:E; [done|]. apply orb_false_iff in E as [E ->]. apply negb_false_iff, String.eqb_eq in E.
    injection Hs as <-. split; rewrite ?HV; cbn; rewrite ?app_nil_r, ?fmap_app, ?HF; cbn; rewrite ?E; done.
  - destruct (seen || _) eqn:E; [done|]. apply orb_false_iff in E as [-> Hdig%negb_false_iff].
    destruct (parse_u64 _) as [len'|] eqn:En; [|done]. injection Hs as <-.
    destruct (parse_u64_digits _ _ Hdig En) as (Hne & Hval & Hmax).
    split; rewrite ?HV; cbn; rewrite ?app_nil_r, ?fmap_app, ?HG; try done.
    exists v. split; [done|]. split; [split; [by intros E; rewrite E in Hne|done]|]. split; [done|lia].
  - done.
  - injection Hs as <-. split; rewrite ?HV; cbn;
      repeat match goal with |- context [String.eqb low ?c] => rewrite (proj2 (String.eqb_neq low c)) by done end;
      rewrite ?app_nil_r; done.
Qed.

(** One line of the input: up to its newline, or to the end of the input. *)
Definition is_line (raw rest : bytes) : Prop :=
  (exists l, raw = l ++ [x0a] /\ x0a ∉ l) \/ (rest = [] /\ x0a ∉ raw).
Definition decode (raw : bytes) : bytes := mjoin (latin1 <$> raw).

Lemma latin1_length b : 1 <= blen (latin1 b).
Proof. unfold latin1, blen. case_match; cbn; lia. Qed.

Lemma line_from_spec cap len b br line r : len < cap -> line_from cap len b br = Some (line, r) ->
  exists raw, b = raw ++ r /\ line = decode raw /\ is_line raw r /\ len + blen raw <= cap.
Proof.
  revert len line r. induction b as [|x b IH]; intros len line r Hlen; cbn [line_from].
  { destruct br; [done|]. intros [= <- <-]. exists []. split; [done|]. split; [done|]. split; [|unfold blen; cbn; lia].
    right. split; [done|apply not_elem_of_nil]. }
  destruct (bool_decide (x = x0a)) eqn:Ex.
  - apply bool_decide_eq_true in Ex as ->. intros [= <- <-]. exists [x0a]. split; [done|]. split; [done|].
    split; [left; exists []; by split; [|apply not_elem_of_nil]|unfold blen; cbn; lia].
  - apply bool_decide_eq_false in Ex. cbv zeta. pose proof (latin1_length x) as Hx.
    destruct (cap <=? _) eqn:Ec; [done|]. apply Z.leb_gt in Ec.
    destruct (line_from cap _ b br) as [[line' r']|] eqn:El; [|done]. intros [= <- <-].
    apply IH in El as (raw & -> & -> & Hl & Hn); [|done]. exists (x :: raw). split; [done|]. split; [done|]. split.
    + destruct Hl as [(l & -> & Hl)|[-> Hl]].
      * left. exists (x :: l). split; [done|]. rewrite not_elem_of_cons. by split.
      * right. rewrite not_elem_of_cons. by repeat split.
    + unfold blen in *. cbn [length]. lia.
Qed.

(** The bytes of a head whose headers are [hs], up to and with the blank line; each line
    is within its bound. *)
Inductive head_bytes : bytes -> list (string * string) -> bytes -> Prop :=
| head_blank raw r : is_line raw r -> blen raw <= MAX_HEADER_LINE -> trim_end_ws (decode raw) = [] -> head_bytes raw [] r
| head_line raw more name value hs r :
    is_line raw (more ++ r) -> blen raw <= MAX_HEADER_LINE -> split_once ":" (from_utf8 (trim_end_ws (decode raw))) = Some (name, value) ->
    head_bytes more hs r -> head_bytes (raw ++ more) ((name, value) :: hs) r.

Lemma from_utf8_nil b : from_utf8 b = "" -> b = [].
Proof. by destruct b. Qed.

Lemma read_headers_spec n h i h' i' hs0 : read_headers n h i = Ok (h', i') -> summarises h hs0 ->
  exists raw hs, data i = raw ++ data i' /\ broken i' = broken i /\ head_bytes raw hs (data i') /\ (length hs <= n)%nat /\
    blen raw <= Z.of_nat (S n) * MAX_HEADER_LINE /\ summarises h' (hs0 ++ hs).
Proof.
  revert h i hs0. induction n as [|n IH]; intros h i hs0; cbn [read_headers]; unfold read_bounded_line;
    (destruct (line_from MAX_HEADER_LINE 0 (data i) (broken i)) as [[line r]|] eqn:El; [|done]); cbn [mbind option_bind];
    apply line_from_spec in El as (raw & Ed & -> & Hl & Hn); try done;
    (destruct (decode raw) as [|x l] eqn:Edec; [done|]); rewrite <- Edec in *;
    (destruct (str_is_empty (from_utf8 (trim_end_ws (decode raw)))) eqn:Eb).
  1, 3: apply str_is_empty_true, from_utf8_nil in Eb; intros [= <- <-] Hs; exists raw, []; cbn [data broken];
    (split_and!; [done|done|by constructor|cbn; lia|unfold MAX_HEADER_LINE in *; lia|by rewrite app_nil_r]).
  - done.
  - destruct (split_once ":" _) as [[name value]|] eqn:Es; [|done]. intros Hr Hs.
    apply result_bind_Ok in Hr as (h1 & Hst & Hr). pose proof (header_step_summarises _ _ _ _ _ Hst Hs) as Hs1.
    destruct (IH _ _ _ Hr Hs1) as (raw' & hs & Ed' & Eb' & Hb & Hln & Hbl & Hs'). cbn [data broken] in *.
    exists (raw ++ raw'), ((name, value) :: hs). split_and!.
    + by rewrite Ed, Ed', app_assoc.
    + done.
    + econstructor; [by rewrite <- Ed'|done|done|done].
    + cbn. lia.
    + unfold blen, MAX_HEADER_LINE in *. rewrite length_app. lia.
    + by rewrite <- app_assoc in Hs'.
Qed.

