(* ===== verification/Contract.v ===== *)
(** * Canonical contract documents ([crates/celln-cli/src/tenancy_contract.rs])

    The strict reader of authorisation documents (no duplicate keys, no floats, only
    integers that every JSON reader keeps exact) and their canonical encoding, with
    the keys of an object in UTF-16 order. Digests of this encoding are what the
    credentials bind and what the admission journal compares. The SHA-256 function,
    [serde_json]'s tokenizer and its writer of scalars are parameters. *)

From S2P Require Import Prelude Json Encoding.

Definition MAX_BYTES : Z := 262144.
Definition MAX_INTEGER : Z := 9007199254740991.

Class Sha256 := {
  sha256_hex : bytes -> string;
  sha256_hex_wf : forall b, is_hex64 (sha256_hex b) = true;
}.

(** ** The strict reader *)

(** The loops of [visit_seq] and [visit_map], over the visitor of their elements. *)
Section loops.
Context (seed : Raw -> option Value).

Fixpoint strict_seq (out : list Value) (l : list Raw) : option Value :=
  match l with
  | [] => Some (VArray out)
  | r :: l => v ← seed r; strict_seq (out ++ [v]) l
  end.

Fixpoint strict_map (out : list (string * Value)) (o : list (string * Raw)) : option Value :=
  match o with
  | [] => Some (VObject out)
  | (key, r) :: o =>
      if contains_key key out then None else
      v ← seed r; strict_map (oinsert key v out) o
  end.
End loops.

(** [Strict::deserialize]; [canonical] forgets which error occurred. *)
Fixpoint strict (r : Raw) : option Value :=
  match r with
  | RUnit => Some Null
  | RBool b => Some (VBool b)
  | RI64 v => if (- MAX_INTEGER <=? v) && (v <=? MAX_INTEGER) then Some (from_i64 v) else None
  | RU64 v => if MAX_INTEGER <? v then None else Some (VNumber (PosInt v))
  | RF64 _ => None
  | RStr s => Some (VString s)
  | RSeq l => strict_seq strict [] l
  | RMap o => strict_map strict [] o
  end.

(** ** The canonical encoding *)

(** [s.encode_utf16()] of a string of UTF-8. *)
Definition low6 (b : byte) : Z := Z.land (byte_val b) 63.
Fixpoint encode_utf16 (b : bytes) : list Z :=
  match b with
  | [] => []
  | x :: r =>
      let v := byte_val x in
      if v <? 128 then v :: encode_utf16 r else
      match r with
      | y :: r1 =>
          if v <? 224 then Z.land v 31 * 64 + low6 y :: encode_utf16 r1 else
          match r1 with
          | z :: r2 =>
              if v <? 240 then (Z.land v 15 * 64 + low6 y) * 64 + low6 z :: encode_utf16 r2 else
              match r2 with
              | w :: r3 =>
                  let c := ((Z.land v 7 * 64 + low6 y) * 64 + low6 z) * 64 + low6 w - 65536 in
                  55296 + Z.shiftr c 10 :: 56320 + Z.land c 1023 :: encode_utf16 r3
              | [] => []
              end
          | [] => []
          end
      | [] => []
      end
  end.

(** [Iterator::cmp] of two sequences of code units. *)
Fixpoint units_leb (a b : list Z) : bool :=
  match a, b with
  | [], _ => true
  | _, [] => false
  | x :: a, y :: b => (x <? y) || ((x =? y) && units_leb a b)
  end.
Definition utf16_le {V} (a b : string * V) : Prop :=
  units_leb (encode_utf16 (as_bytes a.1)) (encode_utf16 (as_bytes b.1)) = true.
#[export] Instance utf16_le_dec {V} (a b : string * V) : Decision (utf16_le a b) := bool_dec _ _.

(** The hash of [Sha256::digest] with its prefix. *)
Definition digest `{Sha256} (raw : bytes) : string := ("sha256:" ++ sha256_hex raw)%string.

Section contract.
Context (scalar : Value -> option bytes) (quoted : string -> option bytes) `{JsonText}.

(** Writing to a vector does not fail: the [unwrap]s are [encode_total]. *)
Definition encode : Value -> option bytes := write_with scalar quoted (merge_sort utf16_le).

Definition canonical (raw : bytes) : result string bytes :=
  if bool_decide (raw = []) || (MAX_BYTES <? blen raw) then Err "size exceeded" else
  '(r, ended) ← ok_or (read_raw raw) "invalid I-JSON";
  value ← ok_or (strict r) "invalid I-JSON";
  _ ← ensure ended "trailing JSON";
  Ok (default [] (encode value)).

(** [operation["resolution"]["execution"]["source"]] and the identity tuple. *)
Definition identity_tuple (operation decision : Value) : Value :=
  let source := vget "source" (vget "execution" (vget "resolution" operation)) in
  VArray [vstr "celln.scoped-operation/v1"; vget "clusterId" source; vget "namespaceUid" source;
    vget "runUid" source; vget "incarnation" (vget "parent" decision); vget "turnId" (vget "parent" decision)].

Context `{Sha256} `{Json Value}.

Definition scoped_operation_id (operation decision : Value) : result string string :=
  b ← canonical (to_vec (identity_tuple operation decision)); Ok (digest b).
End contract.

(** ** Specifications and lemmas *)

(** Integer-only I-JSON: what the reader admits. *)
Fixpoint ijson (r : Raw) : bool :=
  match r with
  | RI64 v => (- MAX_INTEGER <=? v) && (v <=? MAX_INTEGER)
  | RU64 v => v <=? MAX_INTEGER
  | RF64 _ => false
  | RSeq l => forallb ijson l
  | RMap o => bool_decide (NoDup o.*1) && forallb (fun kr => ijson kr.2) o
  | _ => true
  end.

Definition reads (r : Raw) : Prop := forall v, strict r = Some v <-> ijson r = true /\ v = raw_value r.

Lemma strict_seq_spec out l v : Forall reads l ->
  strict_seq strict out l = Some v <-> forallb ijson l = true /\ v = VArray (out ++ (raw_value <$> l)).
Proof.
  intros Hl. revert out. induction Hl as [|r l Hr _ IH]; intros out; cbn [strict_seq forallb].
  - rewrite app_nil_r. naive_solver.
  - rewrite bind_Some, andb_true_iff, fmap_cons. setoid_rewrite IH. setoid_rewrite (Hr _).
    setoid_rewrite <- (assoc app). naive_solver.
Qed.

Lemma strict_map_spec out o v : Forall (fun kr => reads kr.2) o ->
  strict_map strict out o = Some v <->
  fresh_keys out o /\ forallb (fun kr => ijson kr.2) o = true /\ v = VObject (insert_all out o).
Proof.
  intros Ho. revert out. induction Ho as [|[k r] o Hr _ IH]; intros out; cbn [strict_map forallb].
  - unfold fresh_keys, insert_all. cbn. split.
    + intros [= <-]. split; [split; [constructor|by intros k ?%elem_of_nil]|done].
    + intros (_ & _ & ->). done.
  - rewrite fresh_cons. destruct (contains_key k out); [naive_solver|]. cbn in Hr.
    rewrite bind_Some, andb_true_iff. setoid_rewrite IH. setoid_rewrite (Hr _). cbn. naive_solver.
Qed.

Lemma strict_spec r : reads r.
Proof.
  induction r as [|b|i|u|f|s|l IH|o IH] using raw_ind'; intros v; cbn [strict ijson raw_value].
  1,2,6: naive_solver.
  - destruct (_ && _); naive_solver.
  - rewrite Z.leb_antisym. destruct (_ <? _); naive_solver.
  - naive_solver.
  - by rewrite (strict_seq_spec [] l v IH).
  - rewrite (strict_map_spec [] o v IH), andb_true_iff, bool_decide_eq_true. unfold fresh_keys, insert_all. cbn.
    assert (forall k, k ∈ o.*1 -> k ∉ []) by (intros ? _ ?%elem_of_nil; done). naive_solver.
Qed.

(** Insertion keeps keys distinct and in order. *)
Lemma oinsert_sorted k v o : StronglySorted key_le o.*1 -> StronglySorted key_le (oinsert k v o).*1.
Proof.
  assert (Hin : forall x o, x ∈ (oinsert k v o).*1 -> x = k \/ x ∈ o.*1).
  { intros x l. rewrite <- !oget_is_Some, oget_oinsert. destruct (String.eqb_spec x k); [by left|by right]. }
  induction o as [|[k1 v1] o IH]; intros Hs; cbn [oinsert]; [repeat constructor|].
  rewrite fmap_cons in Hs. apply StronglySorted_inv in Hs as [Hs Hk]. cbn [fst] in Hk.
  destruct (String.eqb_spec k k1) as [->|Hne]; [by constructor|].
  destruct (String.ltb k k1) eqn:Hlt; rewrite !fmap_cons; cbn [fst].
  - assert (Hle : key_le k k1) by (unfold key_le, String.leb; unfold String.ltb in Hlt; by destruct (String.compare k k1)).
    constructor; [by constructor|]. constructor; [done|]. eapply Forall_impl; [exact Hk|]. intros x Hx. by transitivity k1.
  - constructor; [by apply IH|]. apply Forall_forall. intros x [->|Hx]%Hin; [|by eapply Forall_forall in Hk].
    destruct (key_le_total k k1) as [H|]; [|done]. unfold key_le, String.leb in H. unfold String.ltb in Hlt.
    destruct (String.compare k k1) eqn:E; [by apply String.compare_eq_iff in E|done|done].
Qed.

Lemma insert_all_wf out o : fresh_keys out o -> Forall (fun kr => wf (raw_value kr.2)) o ->
  Forall (fun kv => wf kv.2) out -> StronglySorted key_le out.*1 -> NoDup out.*1 ->
  wf (VObject (insert_all out o)).
Proof.
  intros Hf Ho. revert out Hf. induction Ho as [|[k r] o Hr _ IH]; intros out Hf Hw Hs Hn; [by apply wf_object|].
  apply fresh_cons in Hf as [Hk Hf]. assert (Hp : k ∉ out.*1) by by rewrite <- contains_key_spec, Hk.
  apply (IH (oinsert k (raw_value r) out) Hf).
  - rewrite oinsert_perm by done. by constructor.
  - by apply oinsert_sorted.
  - rewrite oinsert_perm by done. by constructor.
Qed.

(** What the reader admits is a value of [serde_json]. *)
Lemma ijson_wf r : raw_typed r = true -> ijson r = true -> wf (raw_value r).
Proof.
  induction r as [|b|i|u|f|s|l IH|o IH] using raw_ind'; cbn; intros Ht Hi; try by apply wf_scalar.
  - apply wf_scalar. unfold from_i64. destruct (Z.ltb_spec i 0); cbn; lia.
  - apply wf_scalar. cbn. lia.
  - apply wf_array. rewrite forallb_forall in Ht, Hi. apply Forall_fmap, Forall_forall. intros x Hx.
    rewrite Forall_forall in IH. apply IH; [done|..]; [apply Ht|apply Hi]; by apply list_elem_of_In.
  - apply andb_true_iff in Hi as [Hd%bool_decide_eq_true Hi]. rewrite forallb_forall in Ht, Hi.
    apply (insert_all_wf [] o); [by split; [|intros ? _ ?%elem_of_nil]| |constructor..].
    apply Forall_forall. intros x Hx. rewrite Forall_forall in IH.
    apply IH; [done|..]; [apply Ht|apply Hi]; by apply list_elem_of_In.
Qed.

(** ** Properties *)

(** Two given encodings that SHA-256 cannot tell apart. *)
Definition sha_collides `{Sha256} (a b : bytes) : Prop := a <> b /\ sha256_hex a = sha256_hex b.

Section laws.
Context {scalar : Value -> option bytes} {quoted : string -> option bytes} `{JsonWriter scalar quoted}.
Context `{JsonText} `{Sha256}.
Notation canonical := (canonical scalar quoted).
Notation encode := (encode scalar quoted).

(** The [unwrap]s of the encoder never panic. *)
Lemma encode_total r : raw_typed r = true -> ijson r = true -> is_Some (encode (raw_value r)).
Proof. intros. apply write_total. by apply ijson_wf. Qed.

Lemma canonical_Ok raw b : canonical raw = Ok b <->
  0 < blen raw <= MAX_BYTES /\
  exists r, read_raw raw = Some (r, true) /\ ijson r = true /\ encode (raw_value r) = Some b.
Proof.
  assert (0 <= blen raw) by (unfold blen; lia).
  assert (Hz : raw <> [] -> blen raw <> 0) by (destruct raw; unfold blen; cbn [length]; intros; first [done|lia]).
  unfold Contract.canonical. case_bool_decide as Hn; cbn [orb]; [subst; split; [done|intros [[? _] _]; done]|].
  destruct (Z.ltb_spec MAX_BYTES (blen raw)); [split; [done|lia]|].
  destruct (read_raw raw) as [[r ended]|] eqn:Hr; cbn [ok_or mbind result_bind]; [|naive_solver].
  destruct (strict r) as [v|] eqn:Hs; cbn [ok_or mbind result_bind].
  - apply strict_spec in Hs as [Hi ->]. destruct (encode_total r (read_typed _ _ _ Hr) Hi) as [c Hc]. rewrite Hc.
    destruct ended; cbn; [|naive_solver]. split.
    + intros [= <-]. specialize (Hz Hn). split; [lia|]. by exists r.
    + intros (_ & r' & [= <-] & _ & E). congruence.
  - split; [done|]. intros (_ & r' & [= <- ->] & Hi & _). rewrite (proj2 (strict_spec r (raw_value r))) in Hs; done.
Qed.

Lemma digest_inj a b : digest a = digest b -> a = b \/ sha_collides a b.
Proof. intros E%string_app_inj_r. destruct (decide (a = b)); [by left|by right]. Qed.

(** What a canonical digest binds. Only whole integer-only documents without repeated
    keys and within the size limit have a canonical form, and two of them have the
    same digest exactly when they denote the same value, however they are spelled,
    unless SHA-256 collides on their two encodings. *)
Theorem canonical_exact (raw raw' b b' : bytes) :
  canonical raw = Ok b -> canonical raw' = Ok b' ->
  blen raw <= MAX_BYTES /\
  exists r r', read_raw raw = Some (r, true) /\ ijson r = true /\ read_raw raw' = Some (r', true) /\ ijson r' = true /\
    (digest b = digest b' <-> raw_value r = raw_value r' \/ sha_collides b b').
Proof.
  intros (Hl & r & Hr & Hi & Hb)%canonical_Ok (_ & r' & Hr' & Hi' & Hb')%canonical_Ok. split; [lia|].
  exists r, r'. split_and!; try done. split.
  - intros [<-|]%digest_inj; [left|by right].
    eapply (write_inj (merge_sort utf16_le) (merge_sort_Permutation utf16_le)); eauto using ijson_wf, read_typed.
  - intros [E|[_ E]]; [|unfold digest; congruence]. rewrite E in Hb. congruence.
Qed.
End laws.
