(* ===== verification/Router.v ===== *)
(** * The router ([crates/celln-cli/src/router.rs], [router_parents.rs],
    [router_scoped.rs])

    A request is handled in two stages: [handle_request] authenticates it, binds it to
    an owner in a ledger and returns a plan; [deliver] sends the one request of the plan,
    if it has one, and makes the reply of what comes back. Requests of any number of
    threads and replicas interleave between the stages. *)

From S2P Require Import Prelude Text Json Manifest Encoding Contract Host Ownership Http.

(** ** State *)

Inductive RoutingMode : Type := RoundRobin | Random.

Record RouterState : Type := mkState {
  static_backends : list string;
  discovery : bool;
  mode : RoutingMode;
  executions : Ledger;
  parents : Ledger;
  provisions : Ledger;
  scoped_parents : Ledger;
  scoped_ops : Ledger;
  parent_token_file : option Path;
  scoped_token_file : option Path;
  token_file : Path;
  client_token_file : Path;
  capability_token_file : option Path;
}.

(** The ledgers that [serve] opens. *)
Definition ledgers (ownership_dir : string) : Ledger * Ledger * Ledger * Ledger * Ledger :=
  (mkLedger ownership_dir 100000, mkLedger (ownership_dir ++ "/parents") 100000,
   mkLedger (ownership_dir ++ "/provisions") 100000, mkLedger (ownership_dir ++ "/scoped-parents") 100000,
   mkLedger (ownership_dir ++ "/scoped-ops") 100000).

(** [state.backends()]: the static list and what discovery currently resolves. *)
Definition push_new (urls : list string) (url : string) : list string :=
  if existsb (String.eqb url) urls then urls else urls ++ [url].
Definition backends (st : RouterState) : IO (list string) :=
  if discovery st then v ← view; mret (foldl push_new (static_backends st) v) else mret (static_backends st).

Definition member (x : string) (l : list string) : bool := existsb (String.eqb x) l.

(** ** Plans *)

(** [Fleet] and [Cells] are the read-only reports of the whole fleet, and
    [ScopedFleet] the one for the scoped operator. *)
Inductive Reply : Type :=
| Replied (status : Z) (body : Value)
| Raw (response : string)
| Dropped
| Fleet
| ScopedFleet
| Cells (target : string).

Inductive Plan : Type :=
| Done (r : Reply)
| Send (d : Delivery) (finish : Answer -> IO Reply).

Definition reply (status : Z) (e : string) : IO Plan := mret (Done (Replied status (refusal e))).
Definition reply_final (status : Z) (e : string) : IO Plan := mret (Done (Replied status (refusal_final e))).
Definition dropped : IO Plan := mret (Done Dropped).
Definition stopped (s : Stop) : IO Plan := mret (Done (match s with Refuse n b => Replied n b | Drop => Dropped end)).

Definition deliver (p : Plan) : IO Reply :=
  match p with Done r => mret r | Send d finish => a ← exchange d; finish a end.

(** A request that is sent when the backend's address parses, else fails like a
    connection. *)
Definition send_to (d : Delivery) (finish : option string -> Reply) : Plan :=
  match backend_to_addr (to d) with
  | None => Done (finish None)
  | Some _ => Send d (fun a => mret (finish (received a)))
  end.

Definition get_delivery (backend path : string) (token : option string) : Delivery :=
  mkDelivery backend "GET" path token [] false [].
Definition post_delivery (backend path : string) (token : option string) (b : bytes) : Delivery :=
  mkDelivery backend "POST" path token [] false b.

(** ** Placement *)

Definition fnv1a (b : bytes) : Z :=
  foldl (fun h x => (Z.lxor h (byte_val x) * 1099511628211) mod 2 ^ 64) 14695981039346656037 b.

Record HealthNode : Type := mkHealthNode { live_cells : Z; max_cells : Z; memory_bytes : Z }.
Record Health : Type := mkHealth { ok : bool; kvm : bool; node : option HealthNode }.

Definition spare (h : Health) : Z * Z :=
  let n := default (mkHealthNode 0 0 0) (node h) in (Z.max 0 (max_cells n - live_cells n), memory_bytes n).

(** [(u32, u64)::gt]. *)
Definition more_spare (a b : Z * Z) : bool := (b.1 <? a.1) || ((a.1 =? b.1) && (b.2 <? a.2)).

(** [backends[(start + offset) % n]] for every offset. *)
Definition candidates (start : Z) (bs : list string) : list string :=
  let n := Z.of_nat (length bs) in
  omap (fun offset => bs !! Z.to_nat ((start + Z.of_nat offset) mod n)) (seq 0 (length bs)).

Definition hash_valid (h : string) : bool :=
  match strip_prefix "blake3:" h with Some s => is_hex64 s | None => false end.

Definition execution_byte (b : byte) : bool := is_alnum b || existsb (fun c => bool_decide (b = c)) [x2d; x5f; x2e].
Definition valid_path_id (id : string) : bool :=
  negb (str_is_empty id) && (str_len id <=? 512) && negb (String.eqb id ".") && negb (String.eqb id "..")
  && all_bytes execution_byte id.

Definition execution_path_id (path : string) (cancel : bool) : option string :=
  suffix ← strip_prefix "/v1/executions/" path;
  id ← (if cancel then strip_suffix "/cancel" suffix else Some (default suffix (strip_suffix "/audit" suffix)));
  if valid_path_id id then Some id else None.

Definition turn_byte (b : byte) : bool := is_alnum b || existsb (fun c => bool_decide (b = c)) [x2d; x5f].
Definition parent_id (method path : string) : option string :=
  tail ← strip_prefix "/v1/parents/" path;
  match split_char "/" tail with
  | id :: parts =>
      let turn_ok t := negb (str_is_empty t) && (str_len t <=? 64) && all_bytes turn_byte t in
      let valid :=
        match parts with
        | [] => String.eqb method "GET"
        | [a] => String.eqb method "POST" && member a ["stop"; "cancel"; "turns"]
        | [a; turn] => String.eqb method "GET" && String.eqb a "turns" && turn_ok turn
        | [a; turn; c] => String.eqb method "POST" && String.eqb a "turns" && String.eqb c "cancel" && turn_ok turn
        | _ => false
        end in
      if hash_valid id && valid then Some id else None
  | [] => None
  end.

(** ** The fleet's cells: [ListQuery] *)

Definition report_query (target : string) : option (option string) :=
  match split_once "?" target with
  | None => if String.eqb target "/v1/cells" then Some None else None
  | Some (p, q) => if String.eqb p "/v1/cells" then Some (Some q) else None
  end.

Definition list_param (acc : result string (option bool * option Z)) (pair : string) : result string (option bool * option Z) :=
  '(all, limit) ← acc;
  let unsupported := Err "unsupported or repeated cells query parameter" in
  match split_once "=" pair with
  | Some (k, v) =>
      if String.eqb k "all" && negb (is_Some_bool all) then
        if String.eqb v "true" then Ok (Some true, limit)
        else if String.eqb v "false" then Ok (Some false, limit)
        else Err "all must be true or false"
      else if String.eqb k "limit" && negb (is_Some_bool limit) then
        match parse_u64 (as_bytes v) with
        | Some n =>
            if (1 <=? n) && (n <=? 500) && negb (starts_with "+" v) then Ok (all, Some n)
            else Err "limit must be an integer from 1 to 500"
        | None => Err "limit must be an integer from 1 to 500"
        end
      else unsupported
  | None => unsupported
  end.
Definition parse_list (query : option string) : result string (bool * Z) :=
  let pairs := List.filter (fun p => negb (str_is_empty p)) (split_char "&" (default "" query)) in
  '(all, limit) ← foldl list_param (Ok (None, None)) pairs;
  Ok (default false all, default 100 limit).
Definition list_target (q : bool * Z) : string :=
  ("/v1/cells?all=" ++ (if q.1 then "true" else "false") ++ "&limit=" ++ pretty.pretty q.2)%string.

(** ** Credentials *)

Definition optional_token (p : option Path) : IO (option string) :=
  match p with None => mret None | Some p => t ← read_token p; mret (Some t) end.

Definition capability_credential (st : RouterState) (client backend : string) : IO (option string) :=
  token ← optional_token (capability_token_file st);
  _ ← guard (negb (match token with Some t => same_token t client || same_token t backend | None => false end)) Failed;
  mret token.

Definition credentials (st : RouterState) : IO (string * string * option string) :=
  client ← read_token (client_token_file st);
  backend ← read_token (token_file st);
  _ ← guard (negb (same_token client backend)) Failed;
  capability ← capability_credential st client backend;
  mret (client, backend, capability).

Definition scoped_credential (st : RouterState) : IO (option string) :=
  match scoped_token_file st with
  | None => mret None
  | Some p =>
      token ← read_token p;
      '(client, backend, capability) ← credentials st;
      parent ← optional_token (parent_token_file st);
      let others := [client; backend] ++ option_list capability ++ option_list parent in
      _ ← guard (negb (existsb (same_token token) others)) Failed;
      mret (Some token)
  end.

(** [initial_backends]: the static list is normalised and checked once. *)
Definition initial_backends (l : list string) (srv : bool) : option (list string) :=
  let urls := trim_end_char "/" <$> l in
  if forallb (fun u => is_Some_bool (backend_to_addr u)) urls && negb (negb srv && match urls with [] => true | _ => false end)
  then Some urls else None.

Record Create : Type := mkCreate { api_version : string; launch_profile : string }.

Section router.
Context `{Blake3} `{Json Owner} `{Json Value} `{Json Health} `{Json Create}.
Context (scalar : Value -> option bytes) (quoted : string -> option bytes) `{JsonText} `{Sha256}.

Definition from_str {A} `{Json A} (s : string) : option A := from_slice (as_bytes s).

Definition forward_get (backend path : string) (token : option string) : IO string :=
  _ ← need (backend_to_addr backend);
  a ← exchange (get_delivery backend path token);
  need (received a).

Definition health_of (backend : string) (token : option string) : IO (option Health) :=
  resp ← forward_get backend "/v1/health" token;
  mret (if negb (parse_status resp =? 200) then None else
        match from_str (extract_body resp) with Some h => if ok h && kvm h then Some h else None | None => None end).

(** The loops of [pick_owner] and [pick_backend]. *)
Fixpoint best_owner (token : option string) (l : list string) (best : option (string * (Z * Z))) : IO (option (string * (Z * Z))) :=
  match l with
  | [] => mret best
  | b :: l =>
      h ← catch (health_of b token);
      match h with
      | Ok (Some h) =>
          let better := match best with None => true | Some (_, current) => more_spare (spare h) current end in
          best_owner token l (if better then Some (b, spare h) else best)
      | _ => best_owner token l best
      end
  end.

Definition pick_owner (st : RouterState) (action_id : string) (token : option string) : IO string :=
  bs ← backends st;
  if Z.of_nat (length bs) =? 0 then fail Failed else
  best ← best_owner token (candidates (fnv1a (as_bytes action_id) mod Z.of_nat (length bs)) bs) None;
  need (fst <$> best).

Definition is_healthy (backend : string) (token : option string) : IO bool :=
  h ← health_of backend token; mret (is_Some_bool h).

Fixpoint first_healthy (token : option string) (l : list string) : IO string :=
  match l with
  | [] => fail Failed
  | b :: l =>
      h ← catch (is_healthy b token);
      match h with Ok true => mret b | _ => first_healthy token l end
  end.

Definition pick_backend (st : RouterState) (action_id : string) (token : option string) : IO string :=
  bs ← backends st;
  let n := Z.of_nat (length bs) in
  if n =? 0 then fail Failed else
  start ← match mode st with RoundRobin => mret (fnv1a (as_bytes action_id) mod n) | Random => z ← draw; mret (z mod n) end;
  first_healthy token (candidates start bs).

(** ** Executions *)

Definition extract_id (body : bytes) : option string :=
  v ← from_slice body;
  match v with VObject o => v ← oget "id" o; as_str v | _ => None end.

Definition answered (status : Z) (e : string) (r : option string) : Reply :=
  match r with Some resp => Raw resp | None => Replied status (refusal e) end.

Definition forward_owned (st : RouterState) (backend method path : string) (token : string) : IO Plan :=
  bs ← backends st;
  if negb (member backend bs) then reply 503 "recorded owner removed from configured backends; no reroute" else
  let d := if String.eqb method "POST" then post_delivery backend path (Some token) [] else get_delivery backend path (Some token) in
  mret (send_to d (fun r => match r with
    | Some resp => if negb (parse_status resp =? 404) then Raw resp
                   else Replied 503 (refusal "recorded owner unavailable or outcome lost; no reroute or replay")
    | None => Replied 503 (refusal "recorded owner unavailable or outcome lost; no reroute or replay")
    end)).

Definition forward_submission (st : RouterState) (i : Input) (length : Z) (endpoint token : string)
    (pinned : option string) : IO Plan :=
  if (length =? 0) || (65536 <? length) then reply 413 "request body exceeds 64 KiB or is empty" else
  match read_exact length i with
  | None => dropped
  | Some (body, _) =>
      match extract_id body with
      | Some id =>
          if negb (valid_path_id id) then reply 400 "id must be a nonempty ASCII alphanumeric, dash, underscore or dot path component" else
          c ← catch (claim (executions st) id body
                       (match pinned with Some b => mret b | None => pick_backend st id (Some token) end));
          match c with
          | Err _ => reply 503 "ownership unavailable; retry same request without changing id"
          | Ok Conflict => reply 409 "execution id already binds different request bytes"
          | Ok Full => reply 503 "ownership capacity exhausted; operator reconciliation required"
          | Ok (Existing owner) =>
              if match pinned with Some pin => negb (String.eqb pin (backend owner)) | None => false end
              then reply 409 "execution already binds a different backend; no reroute"
              else forward_owned st (backend owner) "GET" ("/v1/executions/" ++ id)%string token
          | Ok (New owner) =>
              mret (send_to (post_delivery (backend owner) endpoint (Some token) body)
                (answered 503 "submission outcome unknown; owner retained; POST will not be replayed"))
          end
      | None => reply 400 "id must be a nonempty ASCII alphanumeric, dash, underscore or dot path component"
      end
  end.

Definition forward_prewarm (i : Input) (length : Z) (pinned : option string) (token : string) : IO Plan :=
  match pinned with
  | None => reply 400 "prewarm requires an explicit backend pin"
  | Some backend =>
      if (length =? 0) || (65536 <? length) then reply 413 "prewarm body exceeds 64 KiB or is empty" else
      match read_exact length i with
      | None => dropped
      | Some (body, _) =>
          mret (send_to (post_delivery backend "/v1/artifacts/prewarm" (Some token) body)
            (answered 503 "pinned prewarm unavailable; no fallback"))
      end
  end.

Definition forward_existing (st : RouterState) (method path : string) (cancel : bool) (token : string) : IO Plan :=
  match execution_path_id path cancel with
  | None => dropped
  | Some id =>
      o ← catch (lookup (executions st) id);
      match o with
      | Err _ => reply 503 "execution ownership unavailable"
      | Ok (Some owner) => forward_owned st (backend owner) method path token
      | Ok None => reply 404 "unknown execution"
      end
  end.

(** ** Parents *)

(** The parent credential, distinct from every other. *)
Definition parent_token (st : RouterState) : IO (result (Z * string) string) :=
  t ← catch (optional_token (parent_token_file st));
  match t with
  | Ok (Some token) =>
      '(client, backend, capability) ← credentials st;
      s ← match scoped_token_file st with
          | None => mret None
          | Some p => r ← catch (read_token p); mret (to_option r)
          end;
      let others := [client; backend] ++ option_list capability ++ option_list s in
      mret (if existsb (same_token token) others then Err (503, "parent credential must be distinct") else Ok token)
  | _ => mret (Err (503, "parent routing is not configured"))
  end.

(** The owner of a provision, a creation or a request for an existing parent. *)
Definition parent_backend (st : RouterState) (id : string) (body : bytes) (create provision : bool) (token : string) :
    IO (result (Z * Value) string) :=
  let unavailable := mret (Err (503, refusal_final "parent ownership unavailable")) in
  if provision then
    let version := v ← from_slice body; match v with VObject o => v ← oget "apiVersion" o; as_str v | _ => None end in
    if negb (bool_decide (version = Some "celln.parent-provision-plan/v1"))
    then mret (Err (400, refusal "invalid parent provision plan")) else
    c ← catch (claim (provisions st) id body (pick_owner st id (Some token)));
    match c with
    | Ok (New owner) | Ok (Existing owner) => mret (Ok (backend owner))
    | Ok Conflict => mret (Err (409, refusal_final "parent identity already provisioned with another plan; reconcile original owner"))
    | _ => unavailable
    end
  else if create then
    match from_slice body with
    | None => mret (Err (400, refusal "invalid parent create"))
    | Some parsed =>
        if negb (String.eqb (api_version parsed) "celln.parent-create/v1") || negb (hash_valid (launch_profile parsed))
        then mret (Err (400, refusal "invalid parent create")) else
        c ← catch (claim (parents st) id body
              (o ← lookup (provisions st) id;
               match o with Some owner => mret (backend owner) | None => pick_owner st id (Some token) end));
        match c with
        | Ok (New owner) => mret (Ok (backend owner))
        | Ok (Existing _) | Ok Conflict =>
            mret (Err (409, refusal_final "parent identity already claimed; reconcile original owner"))
        | _ => unavailable
        end
    end
  else
    o ← catch (lookup (parents st) id);
    match o with
    | Ok (Some owner) => mret (Ok (backend owner))
    | Ok None => mret (Err (404, refusal_final "parent owner unknown"))
    | Err _ => unavailable
    end.

Definition uncertain_parent : Reply := Replied 502 (refusal_final "parent outcome uncertain; reconcile original owner").

(** What a creation or provision may answer: its own incarnation. *)
Definition parent_answer (checks : bool) (id : string) (r : option string) : Reply :=
  match r with
  | None => uncertain_parent
  | Some response =>
      if checks && (200 <=? parse_status response) && (parse_status response <? 300) then
        match from_str (extract_body response) with
        | None => Dropped
        | Some v =>
            if bool_decide (as_str (vget "incarnation" v) = Some id) then Raw response
            else Replied 502 (refusal_final "parent owner returned another incarnation")
        end
      else Raw response
  end.

(** [forward] of [router_parents.rs] once it has its credential. *)
Definition forward_parent_as (token : string) (st : RouterState) (i : Input) (method path : string) (length : Z)
    (incarnation : option string) (asy : bool) (backend_token : string) : IO Plan :=
  let create := String.eqb method "POST" && String.eqb path "/v1/parents" in
  let provision := String.eqb method "POST" && String.eqb path "/v1/parents/provision" in
  let id := if create || provision
            then x ← incarnation; if hash_valid x then Some x else None
            else parent_id method path in
  match id with
  | None => reply 400 "invalid parent route or missing immutable incarnation"
  | Some id =>
      if (65536 <? length) || (String.eqb method "GET" && negb (length =? 0)) then reply 400 "invalid parent body length" else
      match read_exact length i with
      | None => dropped
      | Some (body, _) =>
          b ← parent_backend st id body create provision backend_token;
          match b with
          | Err (n, v) => mret (Done (Replied n v))
          | Ok backend =>
              bs ← backends st;
              if negb (member backend bs) then reply_final 503 "original parent backend removed" else
              mret (send_to (mkDelivery backend method path (Some token) [] asy body)
                (parent_answer (create || provision) id))
          end
      end
  end.

Definition forward_parent (st : RouterState) (i : Input) (method path : string) (length : Z)
    (incarnation : option string) (asy : bool) (backend_token : string) : IO Plan :=
  t ← parent_token st;
  match t with
  | Err (n, e) => reply n e
  | Ok token => forward_parent_as token st i method path length incarnation asy backend_token
  end.

(** ** Scoped operations *)

Definition MAX_BODY : Z := 262144.
Definition QUARANTINE : Z := 600 * nanos_per_sec.

Definition context_lost : Value :=
  VObject [("error", VString "scoped admission refused"); ("reason", VString "AUTH_CONTEXT_LOST")].

Inductive Route : Type := Prepare | Start | Read | Cleanup.
Inductive Lifecycle : Type := OneShot | Initial (parent : string) | Turn (parent : string).

#[export] Instance Route_eq_dec : EqDecision Route.
Proof. solve_decision. Defined.

(** A full ledger first reclaims retired bindings that finished quarantine. *)
Definition claim_or_sweep (l : Ledger) (id : string) (body : bytes) (choose : IO string) : IO Claim :=
  c ← claim l id body choose;
  match c with
  | Full => _ ← sweep_retired l QUARANTINE; claim l id body choose
  | c => mret c
  end.

Definition bounded_str (v : Value) : option string := s ← as_str v; if str_len s <=? 512 then Some s else None.

Definition lifecycle_of (decision : Value) : option Lifecycle :=
  let parent := vget "parent" decision in
  match as_str (vget "lifecycle" decision), bounded_str (vget "incarnation" parent) with
  | Some l, None => if String.eqb l "one-shot" && bool_decide (parent = Null) then Some OneShot else None
  | Some l, Some p =>
      if String.eqb l "enduring-initial" then Some (Initial p)
      else if String.eqb l "enduring-turn" then Some (Turn p) else None
  | None, _ => None
  end.

(** The closure [choose] of [place]; setting [lost] and failing is [Absent]. *)
Definition choose_scoped (st : RouterState) (id : string) (l : Lifecycle) (token : option string) : IO string :=
  match l with
  | OneShot => pick_owner st id token
  | Initial p =>
      c ← claim_or_sweep (scoped_parents st) p (as_bytes p) (pick_owner st p token);
      match c with
      | New owner | Existing owner => mret (backend owner)
      | _ => fail Failed
      end
  | Turn p =>
      o ← lookup (scoped_parents st) p;
      match o with Some owner => mret (backend owner) | None => fail Absent end
  end.

(** The members of a preparation, which has these two and no other. *)
Definition preparation (request : Value) : option (Value * Value) :=
  match request with
  | VObject o =>
      op ← oget "operation" o; d ← oget "decision" o;
      if Nat.eqb (length o) 2 then Some (op, d) else None
  | _ => None
  end.

Definition place (st : RouterState) (request : Value) (body : bytes) (token : option string) : IO (result (Z * Value) string) :=
  match preparation request with
  | None => mret (Err (400, refusal "invalid scoped preparation"))
  | Some (operation, decision) =>
      match scoped_operation_id scalar quoted operation decision with
      | Err _ => mret (Err (422, refusal "scoped preparation refused"))
      | Ok id =>
          match lifecycle_of decision with
          | None => mret (Err (422, VObject [("error", VString "scoped preparation refused");
                                             ("reason", VString "unsupported scoped lifecycle operation")]))
          | Some l =>
              c ← catch (claim_or_sweep (scoped_ops st) id body (choose_scoped st id l token));
              mret (match c with
                    | Ok (New owner) | Ok (Existing owner) => Ok (backend owner)
                    | Ok Conflict => Err (409, refusal "operation identity already has different prepared material")
                    | Err Absent => Err (409, context_lost)
                    | _ => Err (503, refusal "scoped ownership unavailable")
                    end)
          end
      end
  end.

(** [retire]: failures only leave a binding in place. *)
Definition retire_scoped (st : RouterState) (request : Value) (response : string) : IO unit :=
  let confirmed := match from_str response with
    | Some status => bool_decide (vget "cleanupConfirmed" status = VBool true) | None => false end in
  match as_str (vget "id" request) with
  | Some id =>
      if negb (confirmed : bool) then mret tt else
      _ ← catch (retire (scoped_ops st) id QUARANTINE);
      let d := vget "decision" request in
      if bool_decide (vget "lifecycle" d = VString "enduring-initial") then
        match as_str (vget "incarnation" (vget "parent" d)) with
        | Some p => _ ← catch (retire (scoped_parents st) p QUARANTINE); mret tt
        | None => mret tt
        end
      else mret tt
  | None => mret tt
  end.

Definition scoped_route (method path : string) : option Route :=
  if negb (String.eqb method "POST") then None
  else if String.eqb path "/v1/scoped/prepare" then Some Prepare
  else if String.eqb path "/v1/scoped/start" then Some Start
  else if String.eqb path "/v1/scoped/read" then Some Read
  else if String.eqb path "/v1/scoped/cleanup" then Some Cleanup
  else None.

Definition scoped_permits (p : Permits) : list (string * string) :=
  option_list ((fun t => ("X-Celln-Execution-Permit", t)) <$> execution p)
  ++ option_list ((fun t => ("X-Celln-Model-Permit", t)) <$> model p).

(** The node that an operation is bound to. *)
Definition scoped_backend (st : RouterState) (r : Route) (request : Value) (body : bytes) (token : option string) :
    IO (result (Z * Value) string) :=
  match r with
  | Prepare => place st request body token
  | _ =>
      match bounded_str (vget "id" request) with
      | None => mret (Err (400, refusal (if bool_decide (r = Start) then "invalid scoped start" else "invalid scoped access")))
      | Some id =>
          o ← catch (lookup (scoped_ops st) id);
          mret (match o with
                | Ok (Some owner) => Ok (backend owner)
                | Ok None => Err (404, refusal "unknown prepared operation")
                | Err _ => Err (503, refusal "scoped ownership unavailable")
                end)
      end
  end.

(** What follows a scoped exchange; [Lost] of the source is a node that is gone or
    refused the connection. *)
Definition scoped_answer (st : RouterState) (r : Route) (request : Value) (a : Answer) : IO Reply :=
  match a with
  | NoConnection => mret (Replied 409 context_lost)
  | _ =>
      match received a with
      | None => mret (Replied 502 (refusal "scoped outcome uncertain; retry the same request"))
      | Some response =>
          _ ← (if bool_decide (r = Cleanup) && (parse_status response =? 200)
               then retire_scoped st request (extract_body response) else mret tt);
          mret (Raw response)
      end
  end.

(** [forward] of [router_scoped.rs] for the holder of its credential. *)
Definition forward_scoped_as (token : string) (st : RouterState) (i : Input) (method path : string) (length : Z)
    (permits : Permits) (pinned : bool) : IO Plan :=
  if pinned then reply 400 "backend pin only applies to submission or prewarm" else
  match scoped_route method path with
  | None => reply 404 "not found"
  | Some r =>
      if MAX_BODY <? length then reply 413 "scoped request body exceeds 256 KiB" else
      match read_exact length i with
      | None => dropped
      | Some (raw, _) =>
          match canonical scalar quoted raw with
          | Err _ => reply 400 "scoped request must be bounded unambiguous I-JSON"
          | Ok body =>
              c ← catch (credentials st);
              let backend_token := match c with Ok (_, b, _) => Some b | Err _ => None end in
              request ← need (from_slice body);
              b ← scoped_backend st r request body backend_token;
              match b with
              | Err (n, v) => mret (Done (Replied n v))
              | Ok backend =>
                  bs ← backends st;
                  if negb (member backend bs) || negb (is_Some_bool (backend_to_addr backend))
                  then mret (Done (Replied 409 context_lost))
                  else mret (Send (mkDelivery backend "POST" path (Some token) (scoped_permits permits) false body)
                               (scoped_answer st r request))
              end
          end
      end
  end.

Definition forward_scoped (st : RouterState) (i : Input) (method path : string) (length : Z)
    (presented : option string) (permits : Permits) (pinned : bool) : IO Plan :=
  if negb (is_Some_bool (scoped_token_file st)) then reply 404 "scoped receiver disabled" else
  t ← catch (scoped_credential st);
  match t with
  | Ok (Some token) =>
      if negb (match presented with Some got => same_token got token | None => false end) then reply 401 "unauthorized"
      else forward_scoped_as token st i method path length permits pinned
  | _ => reply 503 "scoped receiver unavailable"
  end.

(** ** Requests *)

(** The pin of a trusted controller: an exact configured backend, and only for a
    submission or a prewarm. *)
Definition check_pin (st : RouterState) (method path : string) (pinned : option string) : IO (option (Z * string)) :=
  match pinned with
  | None => mret None
  | Some backend =>
      bs ← (if 1024 <? str_len backend then mret [] else backends st);
      mret (if (1024 <? str_len backend) || negb (member backend bs) then Some (400, "backend pin is not configured")
            else if negb (String.eqb method "POST") || negb (member path ["/v1/executions"; "/v1/artifacts/prewarm"])
            then Some (400, "backend pin only applies to submission or prewarm") else None)
  end.

Definition dispatch (st : RouterState) (rq : Request) (backend_token : string) : IO Plan :=
  let h := head rq in let m := method rq in let p := path_ rq in
  if String.eqb p "/v1/parents" || starts_with "/v1/parents/" p
  then forward_parent st (rest rq) m p (length_ h) (parent_incarnation h) (async h) backend_token else
  if String.eqb m "GET" && String.eqb p "/v1/capabilities" then mret (Done Fleet) else
  if String.eqb m "GET" && is_Some_bool (report_query p) then
    match parse_list (default None (report_query p)) with
    | Err e => reply 400 e
    | Ok q => mret (Done (Cells (list_target q)))
    end else
  if String.eqb m "POST" && String.eqb p "/v1/artifacts/prewarm"
  then forward_prewarm (rest rq) (length_ h) (pinned_backend h) backend_token else
  if String.eqb m "POST" && String.eqb p "/v1/executions"
  then forward_submission st (rest rq) (length_ h) "/v1/executions" backend_token (pinned_backend h) else
  if String.eqb m "POST" && is_Some_bool (execution_path_id p true) then
    if negb (length_ h =? 0) then reply 400 "cancel body must be empty"
    else forward_existing st "POST" p true backend_token else
  if String.eqb m "GET" && is_Some_bool (execution_path_id p false)
  then forward_existing st "GET" p false backend_token
  else reply 404 "not found".

(** The scoped bearer also opens the scoped report of the fleet. *)
Definition scoped_discovery (st : RouterState) (rq : Request) : IO bool :=
  if negb (String.eqb (method rq) "GET" && String.eqb (path_ rq) "/v1/capabilities") then mret false else
  s ← catch (scoped_credential st);
  c ← catch (credentials st);
  mret (match presented (head rq), s, c with
        | Some got, Ok (Some scoped), Ok _ => same_token got scoped
        | _, _, _ => false
        end).

(** The client credential opens everything, the capability credential the two reports. *)
Definition authorized (rq : Request) (client : string) (capability : option string) : bool :=
  let discovery_read := String.eqb (method rq) "GET"
    && (String.eqb (path_ rq) "/v1/capabilities" || is_Some_bool (report_query (path_ rq))) in
  match presented (head rq) with
  | Some token =>
      same_token token client
      || (discovery_read && match capability with Some read => same_token token read | None => false end)
  | None => false
  end.

Definition route_request (st : RouterState) (rq : Request) : IO Plan :=
  if starts_with "/v1/scoped/" (path_ rq)
  then forward_scoped st (rest rq) (method rq) (path_ rq) (length_ (head rq)) (presented (head rq)) (permits_ (head rq))
         (is_Some_bool (pinned_backend (head rq))) else
  s ← scoped_discovery st rq;
  if s : bool then mret (Done ScopedFleet) else
  c ← catch (credentials st);
  match c with
  | Err _ => reply 503 "router credentials unavailable"
  | Ok (client, backend_token, capability) =>
      if negb (authorized rq client capability) then reply 401 "unauthorized" else
      p ← check_pin st (method rq) (path_ rq) (pinned_backend (head rq));
      match p with
      | Some (n, e) => reply n e
      | None => dispatch st rq backend_token
      end
  end.

Definition handle_request (st : RouterState) (i : Input) : IO Plan :=
  match read_request i with Err s => stopped s | Ok rq => route_request st rq end.

(** One request from its bytes to its reply, an error dropping the connection. *)
Definition handle (st : RouterState) (i : Input) : IO Reply :=
  r ← catch (p ← handle_request st i; deliver p); mret (match r with Ok r => r | Err _ => Dropped end).
End router.
