(* ===== verification/RouterLaws.v ===== *)
(** * What the router guarantees

    Requests of any number of threads and replicas interleave, any system call or
    connection may fail, and still a submission is sent at most once, to its recorded
    owner, and the requests of a scoped operation all go to one node. *)

From S2P Require Import Prelude Text Json Manifest Encoding Contract Host Ownership Http Router.

(** ** What a step leaves of the records *)

(** A file that was there still is, or it was in one of the directories [ds] that retire
    their records and its quarantine is over. *)
Definition sheds (ds : list string) (p : Path) (f : File) (w w' : World) : Prop :=
  (files w !! p = Some f -> files w' !! p = Some f \/ (p.1 ∈ ds /\ expired QUARANTINE f w)) /\ dated p w w' /\ since w w'.

#[export] Instance sheds_frame ds p f : Frame p (sheds ds p f).
Proof.
  split.
  - split; [intros w; split; [by left|split; [by left|done]]|]. intros a b c (F & D & S) (F' & D' & S').
    split; [|split; [by eapply dated_trans|by transitivity b]].
    intros Hf. destruct (F Hf) as [Hb|]; [|by right]. destruct (F' Hb) as [|[Hd He]]; [by left|].
    right. split; [done|]. by eapply expired_mono.
  - intros w w' [F S]. split; [|done]. intros Hf. left. by apply F.
  - by intros w w' (_ & _ & ?).
Qed.

Lemma shed_sheds ds d p f w w' : d ∈ ds -> shed d QUARANTINE p f w w' -> sheds ds p f w w'.
Proof. intros Hd [F S]. split; [|done]. intros Hf. destruct (F Hf) as [|[<- ?]]; [by left|by right]. Qed.

Section mild.
Context (R : relation World) (p : Path) `{HR : !Frame p R}.

(** A program that only takes steps of [R]. *)
Definition mild {A} (m : IO A) : Prop := forall w, wp m w (fun _ w' => R w w').

#[local] Instance mild_order : PreOrder R := frame_order.
Lemma later_R w w' : later w w' -> R w w'.
Proof. intros L. by apply (frame_kept (p := p)), later_kept. Qed.

Lemma mild_ret {A} (a : A) : mild (mret a).
Proof. intros w. by apply wp_ret. Qed.
Lemma mild_fail {A} e : mild (@fail A e).
Proof. intros w. by apply wp_fail. Qed.
Lemma mild_lift {A} (r : result Error A) : mild (lift r).
Proof. intros w. by apply wp_lift. Qed.
Lemma mild_guard c e : mild (guard c e).
Proof. intros w. by apply wp_guard. Qed.
Lemma mild_need {A} (o : option A) : mild (need o).
Proof. intros w. by apply wp_need. Qed.
Lemma mild_bind {A B} (m : IO A) (f : A -> IO B) : mild m -> (forall a, mild (f a)) -> mild (m ≫= f).
Proof.
  intros Hm Hf w. apply wp_bind. eapply wp_mono; [apply Hm|]. intros [a|e] w' Hw; [|done].
  eapply wp_mono; [apply Hf|]. intros r w'' Hw'. by transitivity w'.
Qed.
Lemma mild_catch {A} (m : IO A) : mild m -> mild (catch m).
Proof. intros Hm w. by apply wp_catch, Hm. Qed.
Lemma mild_open q : mild (open_file q).
Proof. intros w. apply wp_open; intros; by apply later_R. Qed.
Lemma mild_read f n : mild (read_file f n).
Proof. intros w. apply wp_read; intros; by apply later_R. Qed.

Lemma mild_net {A} (g : Network -> A * Network) :
  (forall n, exists l, sent (g n).2 = sent n ++ l /\ Forall probe l) -> mild (on_net g).
Proof.
  intros Hg w. apply wp_on_net. apply (frame_kept (p := p)). split; [done|].
  split; [by left|]. split; [done|]. apply Hg.
Qed.
Lemma mild_view : mild view.
Proof. apply mild_net. intros n. exists []. rewrite app_nil_r. by destruct (Host.views n). Qed.
Lemma mild_draw : mild draw.
Proof. apply mild_net. intros n. exists []. rewrite app_nil_r. by destruct (Host.draws n). Qed.
Lemma mild_probe d : probe d -> mild (exchange d).
Proof.
  intros Hd. apply mild_net. intros n. destruct (Host.answers n) as [|[| |r] rest].
  1, 2: by exists []; rewrite app_nil_r.
  all: exists [d]; split; [done|by apply Forall_singleton].
Qed.
End mild.

Create HintDb mild.
#[export] Hint Resolve mild_ret mild_fail mild_lift mild_guard mild_need mild_catch mild_open mild_read mild_view mild_draw : mild.
Ltac mild :=
  repeat match goal with
  | |- mild _ (_ ≫= _) => eapply mild_bind; [apply _| |intros ?]
  | |- mild _ (match ?x with _ => _ end) => destruct x
  | |- mild _ (let _ := _ in _) => cbv zeta
  | |- mild _ (catch _) => apply mild_catch
  | |- mild _ _ => solve [eauto with mild typeclass_instances]
  end.

Section router.
Context `{Blake3} `{Json Owner} `{Json Value} `{Json Health} `{Json Create}.
Context (scalar : Value -> option bytes) (quoted : string -> option bytes) `{JsonText} `{Sha256}.

Section frame.
Context (ds : list string) (p : Path) (f : File) (Hp : record_path p).
Notation R := (sheds ds p f).

Lemma mild_chooses m : mild R m -> chooses m R (fun _ => True).
Proof. intros Hm w. eapply wp_mono; [apply Hm|]. intros [] w' Hw; by split. Qed.

Lemma mild_lookup l id : mild R (lookup l id).
Proof. intros w. apply wp_lookup; intros; by apply (later_R R p). Qed.

Lemma mild_claim l id body choose : mild R choose -> mild R (claim l id body choose).
Proof.
  intros Hm w. eapply wp_mono; [apply (wp_claim l id body choose (fun _ => True) p R w Hp _ (mild_chooses _ Hm))|]. by intros r w' [].
Qed.

Lemma mild_sweep l : dir l ∈ ds -> mild R (sweep_retired l QUARANTINE).
Proof. intros Hd w. eapply wp_mono; [by apply (wp_sweep l QUARANTINE p f w)|]. intros r w'. by apply shed_sheds. Qed.
Lemma mild_retire l id : dir l ∈ ds -> mild R (retire l id QUARANTINE).
Proof. intros Hd w. eapply wp_mono; [by apply (wp_retire l id QUARANTINE p f w)|]. intros r w'. by apply shed_sheds. Qed.
#[local] Hint Resolve mild_lookup mild_claim mild_sweep mild_retire : mild.

Lemma mild_read_token q : mild R (read_token q).
Proof. unfold read_token. mild. Qed.
#[local] Hint Resolve mild_read_token : mild.
Lemma mild_optional q : mild R (optional_token q).
Proof. unfold optional_token. mild. Qed.
#[local] Hint Resolve mild_optional : mild.
Lemma mild_credentials st : mild R (credentials st).
Proof. unfold credentials, capability_credential. mild. Qed.
#[local] Hint Resolve mild_credentials : mild.
Lemma mild_scoped_credential st : mild R (scoped_credential st).
Proof. unfold scoped_credential. mild. Qed.
#[local] Hint Resolve mild_scoped_credential : mild.

Lemma mild_backends st : mild R (backends st).
Proof. unfold backends. mild. Qed.
#[local] Hint Resolve mild_backends : mild.
Lemma mild_health b t : mild R (health_of b t).
Proof. unfold health_of, forward_get. mild. all: by apply (mild_probe R p). Qed.
#[local] Hint Resolve mild_health : mild.
Lemma mild_best t l b : mild R (best_owner t l b).
Proof. revert b. induction l as [|x l IH]; intros b; cbn [best_owner]; mild. Qed.
#[local] Hint Resolve mild_best : mild.
Lemma mild_pick_owner st id t : mild R (pick_owner st id t).
Proof. unfold pick_owner. mild. Qed.
Lemma mild_first t l : mild R (first_healthy t l).
Proof. induction l as [|x l IH]; cbn [first_healthy]; unfold is_healthy; mild. Qed.
#[local] Hint Resolve mild_first : mild.
Lemma mild_pick_backend st id t : mild R (pick_backend st id t).
Proof. unfold pick_backend. mild. Qed.
#[local] Hint Resolve mild_pick_owner mild_pick_backend : mild.
Lemma mild_claim_or_sweep l id body choose : dir l ∈ ds -> mild R choose -> mild R (claim_or_sweep l id body choose).
Proof. intros. unfold claim_or_sweep. mild. Qed.
#[local] Hint Resolve mild_claim_or_sweep : mild.

Lemma mild_deliveries d fin : mild R (mret (send_to d fin)).
Proof. apply (mild_ret R p). Qed.
Lemma mild_owned st b m q t : mild R (forward_owned st b m q t).
Proof. unfold forward_owned, reply. mild. Qed.
#[local] Hint Resolve mild_owned : mild.
Lemma mild_submission st i n e t pin : mild R (forward_submission st i n e t pin).
Proof. unfold forward_submission, reply, dropped. mild; apply mild_claim; mild. Qed.
Lemma mild_prewarm i n pin t : mild R (forward_prewarm i n pin t).
Proof. unfold forward_prewarm, reply, dropped. mild. Qed.
Lemma mild_existing st m q c t : mild R (forward_existing st m q c t).
Proof. unfold forward_existing, reply, dropped. mild. Qed.
Lemma mild_parent_token st : mild R (parent_token st).
Proof. unfold parent_token. mild. Qed.
Lemma mild_parent_backend st id b c v t : mild R (parent_backend st id b c v t).
Proof. unfold parent_backend. mild; apply mild_claim; mild. Qed.
#[local] Hint Resolve mild_submission mild_prewarm mild_existing mild_parent_token mild_parent_backend : mild.
Lemma mild_parent st i m q n inc a t : mild R (forward_parent st i m q n inc a t).
Proof. unfold forward_parent, forward_parent_as, reply, reply_final, dropped. mild. Qed.
#[local] Hint Resolve mild_parent : mild.

Context (st : RouterState) (Hops : dir (scoped_ops st) ∈ ds) (Hpar : dir (scoped_parents st) ∈ ds).

Lemma mild_choose id l t : mild R (choose_scoped st id l t).
Proof. unfold choose_scoped. mild. Qed.
#[local] Hint Resolve mild_choose : mild.
Lemma mild_scoped_backend r q b t : mild R (scoped_backend scalar quoted st r q b t).
Proof. unfold scoped_backend, place. mild. Qed.
Lemma mild_retire_scoped q s : mild R (retire_scoped st q s).
Proof. unfold retire_scoped. mild. Qed.
#[local] Hint Resolve mild_scoped_backend mild_retire_scoped : mild.
Lemma mild_scoped_answer r q a : mild R (scoped_answer st r q a).
Proof. unfold scoped_answer. mild. Qed.
Lemma mild_scoped i m q n pr pm pin : mild R (forward_scoped scalar quoted st i m q n pr pm pin).
Proof. unfold forward_scoped, forward_scoped_as, reply, dropped. mild. Qed.
#[local] Hint Resolve mild_scoped : mild.

Lemma mild_dispatch rq t : mild R (dispatch st rq t).
Proof. unfold dispatch, reply. mild. Qed.
#[local] Hint Resolve mild_dispatch : mild.
Lemma mild_route rq : mild R (route_request scalar quoted st rq).
Proof. unfold route_request, reply, scoped_discovery, check_pin. mild. Qed.
#[local] Hint Resolve mild_route : mild.
Lemma mild_handle_request i : mild R (handle_request scalar quoted st i).
Proof. unfold handle_request, stopped. mild. Qed.
End frame.

(** ** Where the request of a plan comes from *)

(** The directories whose records retire. *)
Definition retiring (st : RouterState) : list string := [dir (scoped_ops st); dir (scoped_parents st)].

(** A program that leaves every record, except retired ones. *)
Definition tame {A} (ds : list string) (m : IO A) : Prop := forall p f, record_path p -> mild (sheds ds p f) m.
Definition leaves (ds : list string) (w w' : World) : Prop := forall p f, record_path p -> sheds ds p f w w'.

Lemma tame_wp {A} ds (m : IO A) w Q : tame ds m -> wp m w Q -> wp m w (fun r w' => leaves ds w w' /\ Q r w').
Proof. intros Hm HQ. split; [|exact HQ]. intros p f Hp. by apply Hm. Qed.

(** Run a tame step first. *)
Lemma wp_tame {A B} ds (m : IO A) (f : A -> IO B) w Q :
  tame ds m -> (forall e w', leaves ds w w' -> Q (Err e) w') -> (forall a w', leaves ds w w' -> wp (f a) w' Q) -> wp (m ≫= f) w Q.
Proof.
  intros Hm HE HQ. apply wp_bind. eapply wp_mono; [apply (tame_wp ds m w (fun _ _ => True) Hm); by destruct (m w)|].
  intros [a|e] w' [L _]; auto.
Qed.

Lemma leaves_none ds w w' p : leaves ds w w' -> record_path p -> p.1 ∉ ds -> files w' !! p = None -> files w !! p = None.
Proof.
  intros L Hp Hd Hn. destruct (files w !! p) as [f|] eqn:E; [|done].
  destruct (L p f Hp) as [[Hf|[? _]] _]; [done|congruence|done].
Qed.

#[export] Instance leaves_trans ds : Transitive (leaves ds).
Proof. intros a b c L1 L2 p f Hp. pose proof (frame_order (R := sheds ds p f)). transitivity b; auto. Qed.

(** A submission of [id]. *)
Definition submission (id : string) (d : Delivery) : Prop :=
  d_method d = "POST" /\ target d = "/v1/executions" /\ extract_id (body d) = Some id.

(** A request of the scoped operation [id]. *)
Definition scoped_request (id : string) (d : Delivery) : Prop :=
  exists v, from_slice (body d) = Some v /\
    ((target d = "/v1/scoped/prepare" /\ exists op dec, preparation v = Some (op, dec) /\ scoped_operation_id scalar quoted op dec = Ok id)
     \/ (target d ∈ ["/v1/scoped/start"; "/v1/scoped/read"; "/v1/scoped/cleanup"] /\ bounded_str (vget "id" v) = Some id)).

(** The record of [id], which names the backend. *)
Definition bound (l : Ledger) (id : string) (b : string) (w : World) : Prop :=
  exists o, stored (files w) (path l id) = Some o /\ backend o = b.

Definition is_submission (d : Delivery) : bool := String.eqb (d_method d) "POST" && String.eqb (target d) "/v1/executions".
Definition is_scoped (d : Delivery) : bool := starts_with "/v1/scoped/" (target d).

(** What a plan made from [w] to [w'] may send. *)
Definition origin (st : RouterState) (w w' : World) (d : Delivery) : Prop :=
  (is_scoped d = false /\ is_submission d = true /\ exists id, extract_id (body d) = Some id /\
     files w !! path (executions st) id = None /\
     exists o m, files w' !! path (executions st) id = Some (mkFile (to_vec o) m) /\ backend o = to d /\ body_hash o = hash_of (body d))
  \/ (is_submission d = false /\ is_scoped d = true /\ exists id, scoped_request id d /\ bound (scoped_ops st) id (to d) w')
  \/ (is_submission d = false /\ is_scoped d = false).

Definition plan_ok (st : RouterState) (w w' : World) (p : Plan) : Prop :=
  match p with Done _ => True | Send d fin => (forall a, tame (retiring st) (fin a)) /\ origin st w w' d end.

(** The directories of the ledgers are different. *)
Definition apart (st : RouterState) : Prop :=
  dir (executions st) ∉ retiring st /\ dir (scoped_parents st) <> dir (scoped_ops st).

(** A stage that ends in a plan. *)
Definition plans (st : RouterState) (m : IO Plan) : Prop :=
  apart st -> forall w, wp m w (fun r w' => match r with Ok p => plan_ok st w w' p | Err _ => True end).

Lemma origin_leaves st w w1 w' d : apart st -> leaves (retiring st) w w1 -> origin st w1 w' d -> origin st w w' d.
Proof.
  intros [Hd _] L [(HA & HB & id & E & Hn & Ho)|Ho]; [left|by right]. split_and!; [done..|]. exists id. split_and!; [done| |done].
  eapply leaves_none; [exact L|apply path_record|done|done].
Qed.

Lemma plans_done st r : plans st (mret (Done r)).
Proof. intros Hd w. by apply wp_ret. Qed.
Lemma plans_reply st n e : plans st (reply n e).
Proof. apply plans_done. Qed.
Lemma plans_reply_final st n e : plans st (reply_final n e).
Proof. apply plans_done. Qed.
Lemma plans_dropped st : plans st dropped.
Proof. apply plans_done. Qed.

Lemma plans_bind {A} st (m : IO A) (f : A -> IO Plan) :
  tame (retiring st) m -> (forall a, plans st (f a)) -> plans st (m ≫= f).
Proof.
  intros Hm Hf Hd w. eapply wp_tame; [exact Hm|done|]. intros a w1 L. eapply wp_mono; [by apply Hf|].
  intros [[r|d fin]|e] w' Hp; [done| |done]. destruct Hp as [Ht Ho]. split; [done|]. by eapply origin_leaves.
Qed.

(** A request that is neither a submission nor scoped. *)
Lemma plans_other st d fin : is_submission d = false -> is_scoped d = false -> plans st (mret (send_to d fin)).
Proof.
  intros HA HB Hd w. apply wp_ret. unfold send_to. destruct (backend_to_addr (to d)); [|done]. split; [|by right; right].
  intros a p f Hp. apply (mild_ret _ p).
Qed.
End router.

#[export] Hint Resolve mild_lookup mild_claim mild_sweep mild_retire mild_read_token mild_optional mild_credentials mild_scoped_credential mild_backends mild_health mild_best mild_first mild_pick_owner mild_pick_backend mild_claim_or_sweep mild_owned mild_submission mild_prewarm mild_existing mild_parent_token mild_parent_backend mild_parent mild_choose mild_scoped_backend mild_retire_scoped mild_scoped mild_dispatch mild_route mild_scoped_answer mild_handle_request : mild.

Create HintDb plans.
#[export] Hint Resolve plans_done plans_reply plans_reply_final plans_dropped : plans.
Ltac tame := intros ? ? Hp; unfold reply, reply_final, dropped, check_pin, scoped_discovery; mild.
Ltac plans :=
  repeat match goal with
  | |- plans _ _ _ (_ ≫= _) => apply plans_bind; [tame|intros ?]
  | |- plans _ _ _ (match ?x with _ => _ end) => destruct x eqn:?
  | |- plans _ _ _ (let _ := _ in _) => cbv zeta
  | |- plans _ _ _ _ => solve [auto with plans]
  end.

Section plans.
Context `{Blake3} `{Json Owner} `{Json Value} `{Json Health} `{Json Create}.
Context {scalar : Value -> option bytes} {quoted : string -> option bytes} `{JsonText} `{Sha256}.
Notation plans := (plans scalar quoted).
Notation plan_ok := (plan_ok scalar quoted).

Lemma execution_target q c id : execution_path_id q c = Some id -> String.eqb q "/v1/executions" = false /\ starts_with "/v1/scoped/" q = false.
Proof.
  unfold execution_path_id. destruct (strip_prefix "/v1/executions/" q) as [r|] eqn:E; [|done].
  apply strip_prefix_Some in E as ->. by destruct r.
Qed.

Lemma plans_owned st b m q t : is_submission (mkDelivery b m q t [] false []) = false -> starts_with "/v1/scoped/" q = false ->
  m = "GET" \/ m = "POST" -> plans st (forward_owned st b m q (default "" t)).
Proof.
  intros HA HB Hm. unfold forward_owned. plans. apply plans_other; destruct Hm as [-> | ->]; cbn in *; try done.
Qed.

Lemma plans_existing st m q c t id : execution_path_id q c = Some id -> m = "GET" \/ m = "POST" -> plans st (forward_existing st m q c t).
Proof.
  intros E Hm. apply execution_target in E as [HA HB]. unfold forward_existing. plans.
  apply (plans_owned st _ m q (Some t)); [|done..]. unfold is_submission. cbn [d_method target]. by rewrite HA, andb_false_r.
Qed.

Lemma plans_prewarm st i n pin t : plans st (forward_prewarm i n pin t).
Proof. unfold forward_prewarm. plans. by apply plans_other. Qed.

Lemma parent_target q m : String.eqb q "/v1/parents" || starts_with "/v1/parents/" q = true ->
  String.eqb m "POST" && String.eqb q "/v1/executions" = false /\ starts_with "/v1/scoped/" q = false.
Proof.
  rewrite orb_true_iff, String.eqb_eq. unfold starts_with at 1. intros [-> | Hq]; [by rewrite andb_false_r|].
  destruct (strip_prefix "/v1/parents/" q) as [r|] eqn:E; [|done]. apply strip_prefix_Some in E as ->.
  by rewrite andb_false_r.
Qed.

Lemma plans_parent st i m q n inc a t : String.eqb q "/v1/parents" || starts_with "/v1/parents/" q = true ->
  plans st (forward_parent st i m q n inc a t).
Proof.
  intros Hq. destruct (parent_target q m Hq) as [HA HB]. unfold forward_parent, forward_parent_as. plans. by apply plans_other.
Qed.

(** A plan made after a step that found something. *)
Definition plans_from (st : RouterState) (w w1 : World) (m : IO Plan) : Prop :=
  wp m w1 (fun r w' => match r with Ok p => plan_ok st w w' p | Err _ => True end).

Lemma plans_then {A} st (m : IO A) (f : A -> IO Plan) (C : A -> World -> World -> Prop) :
  tame (retiring st) m -> (forall w, wp m w (fun r w1 => match r with Ok a => C a w w1 | Err _ => True end)) ->
  (forall a w w1, apart st -> leaves (retiring st) w w1 -> C a w w1 -> plans_from st w w1 (f a)) ->
  plans st (m ≫= f).
Proof.
  intros Hm HC Hf Hd w. apply wp_bind. eapply wp_mono; [apply (tame_wp _ _ _ _ Hm (HC w))|].
  intros [a|e] w1 [L Ha]; [by apply Hf|done].
Qed.

Lemma plans_weaken st w w1 m : apart st -> leaves (retiring st) w w1 -> plans st m -> plans_from st w w1 m.
Proof.
  intros Hd L Hm. eapply wp_mono; [by apply Hm|]. intros [[r|d fin]|e] w' Hp; [done| |done].
  destruct Hp as [Ht Ho]. split; [done|]. by eapply origin_leaves.
Qed.

(** A submission is sent only for a record that this claim made. *)
Lemma plans_submission st i n t pin : plans st (forward_submission st i n "/v1/executions" t pin).
Proof.
  unfold forward_submission. destruct (_ || _); [apply plans_reply|].
  destruct (read_exact n i) as [[raw ?]|]; [|apply plans_dropped]. destruct (extract_id raw) as [id|] eqn:Eid; [|apply plans_reply].
  destruct (negb _); [apply plans_reply|].
  set (choose := match pin with Some b => mret b | None => pick_backend st id (Some t) end).
  assert (Hch : forall ds p f, record_path p -> mild (sheds ds p f) choose) by (intros ds p f Hp; subst choose; mild).
  set (P := path (executions st) id). set (f0 := mkFile [] 0).
  eapply (plans_then _ _ _ (fun r w w1 => match r with Ok c => claimed (executions st) id raw (fun _ => True) w w1 c | Err _ => True end)).
  - intros p f Hp. apply mild_catch, mild_claim; [done|]. by apply Hch.
  - intros w. apply wp_catch. eapply wp_mono; [apply (wp_claim (executions st) id raw choose (fun _ => True) P (sheds [] P f0) w);
      [apply path_record|apply _|]|].
    + apply (mild_chooses [] P f0), Hch, path_record.
    + by intros r w1 [_ Hr].
  - intros [[o|o| |]|e] w w1 Hd L Hc; try by apply wp_ret.
    + apply wp_ret. unfold send_to. destruct (backend_to_addr _); [|done]. split; [intros a p f Hp; apply (mild_ret _ p)|].
      left. split; [done|]. split; [done|]. exists id. destruct Hc as (Hn & _ & Hb & m & _ & Hf).
      split; [done|]. split; [done|]. by exists o, m.
    + apply plans_weaken; [done..|]. plans; apply (plans_owned st _ "GET" _ (Some t)); by try left.
Qed.

(** *** Scoped plans *)

Lemma bound_leaves ds l id b w w' : dir l ∉ ds -> leaves ds w w' -> bound l id b w -> bound l id b w'.
Proof.
  intros Hd L (o & Ho & E). exists o. split; [|done]. unfold stored in *. destruct (files w !! path l id) as [f|] eqn:Ef; [|done].
  destruct (L (path l id) f (path_record l id)) as [[->|[? _]] _]; done.
Qed.

(** A claim that returns an owner leaves its record. *)
Lemma wp_claim_bound ds l id raw choose w : dir l ∉ ds -> tame ds choose ->
  wp (claim l id raw choose) w (fun r w' => match r with Ok (New o) | Ok (Existing o) => bound l id (backend o) w' | _ => True end).
Proof.
  intros Hd Hc. set (f := default (mkFile [] 0) (files w !! path l id)).
  eapply wp_mono; [apply (wp_claim l id raw choose (fun _ => True) (path l id) (sheds ds (path l id) f) w (path_record l id) _);
    apply (mild_chooses ds (path l id) f), Hc, path_record|].
  intros [[o|o| |]|] w' [[L _] Hr]; try done.
  - destruct Hr as (_ & _ & _ & m & _ & Hf). exists o. split; [|done]. unfold stored. rewrite Hf. apply from_to.
  - destruct Hr as [Ho _]. exists o. split; [|done]. unfold stored in *. subst f.
    destruct (files w !! path l id) as [g|]; [|done]. by destruct (L eq_refl) as [->|[? _]].
Qed.

Lemma wp_claim_or_sweep_bound ds l id raw choose w : dir l ∉ ds -> tame ds choose ->
  wp (claim_or_sweep l id raw choose) w (fun r w' => match r with Ok (New o) | Ok (Existing o) => bound l id (backend o) w' | _ => True end).
Proof.
  intros Hd Hc. apply wp_bind. eapply wp_mono; [by eapply wp_claim_bound|]. intros [[o|o| |]|e] w1 Hb; try by apply wp_ret.
  apply wp_bind. destruct (sweep_retired l QUARANTINE w1) as [[n|e] w2] eqn:E; unfold wp; rewrite E; cbn; [|done].
  by eapply wp_claim_bound.
  done.
Qed.

(** The operation that a request of a route names. *)
Definition names (r : Route) (request : Value) (id : string) : Prop :=
  match r with
  | Prepare => exists op dec, preparation request = Some (op, dec) /\ scoped_operation_id scalar quoted op dec = Ok id
  | _ => bounded_str (vget "id" request) = Some id
  end.

Lemma wp_scoped_backend st r request raw t w : apart st ->
  wp (scoped_backend scalar quoted st r request raw t) w
    (fun x w' => match x with Ok (Ok b) => exists id, names r request id /\ bound (scoped_ops st) id b w' | _ => True end).
Proof.
  intros [_ Hd].
  assert (HL : r <> Prepare -> wp (scoped_backend scalar quoted st r request raw t) w
    (fun x w' => match x with Ok (Ok b) => exists id, names r request id /\ bound (scoped_ops st) id b w' | _ => True end)).
  { intros Hr. assert (E : scoped_backend scalar quoted st r request raw t =
      match bounded_str (vget "id" request) with
      | None => mret (Err (400, refusal (if bool_decide (r = Start) then "invalid scoped start" else "invalid scoped access")))
      | Some id => o ← catch (lookup (scoped_ops st) id);
          mret (match o with Ok (Some owner) => Ok (backend owner) | Ok None => Err (404, refusal "unknown prepared operation")
                | Err _ => Err (503, refusal "scoped ownership unavailable") end)
      end) by (by destruct r). rewrite E.
    destruct (bounded_str _) as [id|] eqn:Eid; [|by apply wp_ret]. apply wp_bind, wp_catch, wp_lookup; intros; apply wp_ret; try done.
    exists id. split; [by destruct r|]. eexists. split; [|done]. unfold stored in *. by rewrite (later_files _ _ ltac:(eassumption)). }
  destruct r; [|by apply HL..]. clear HL. cbn [scoped_backend]. unfold place.
  destruct (preparation request) as [[op dec]|] eqn:Ep; [|by apply wp_ret].
  destruct (scoped_operation_id _ _ op dec) as [id|] eqn:Eid; [|by apply wp_ret].
  destruct (lifecycle_of dec) as [l|]; [|by apply wp_ret].
  apply wp_bind, wp_catch. eapply wp_mono; [apply (wp_claim_or_sweep_bound [dir (scoped_parents st)])|].
  - intros E%list_elem_of_singleton. by apply Hd.
  - intros p f Hp. apply mild_choose; [done|]. by apply list_elem_of_singleton.
  - intros [[o|o| |]|[]] w1 Hb; apply wp_ret; try done; exists id; (split; [|exact Hb]); by exists op, dec.
Qed.

Lemma scoped_target m q r : scoped_route m q = Some r ->
  m = "POST" /\ q = match r with Prepare => "/v1/scoped/prepare" | Start => "/v1/scoped/start" | Read => "/v1/scoped/read" | Cleanup => "/v1/scoped/cleanup" end.
Proof.
  unfold scoped_route. destruct (String.eqb_spec m "POST") as [->|]; [cbn [negb]|done].
  repeat (case_match; [match goal with E : String.eqb _ _ = true |- _ => apply String.eqb_eq in E as -> end; by intros [= <-]|]). done.
Qed.

Lemma plans_scoped st i m q n pr pm pin : plans st (forward_scoped scalar quoted st i m q n pr pm pin).
Proof.
  unfold forward_scoped. destruct (negb _); [apply plans_reply|]. apply plans_bind; [tame|intros [[token|]|]]; try apply plans_reply.
  destruct (negb _); [apply plans_reply|]. unfold forward_scoped_as. destruct pin; [apply plans_reply|].
  destruct (scoped_route m q) as [r|] eqn:Er; [|apply plans_reply]. destruct (MAX_BODY <? n); [apply plans_reply|].
  destruct (read_exact n i) as [[raw ?]|]; [|apply plans_dropped].
  destruct (canonical _ _ raw) as [bd|]; [|apply plans_reply]. apply plans_bind; [tame|intros c]. cbv zeta.
  set (bt := match c with Ok _ => _ | Err _ => _ end).
  intros Hap w. apply wp_bind, wp_need; [intros request Hrq|done].
  apply wp_bind. eapply wp_mono; [by apply wp_scoped_backend|]. intros [[b|[k v]]|e] w1 Hb; [|by apply wp_ret|done].
  destruct Hb as (id & Hn & Hbd).
  eapply (wp_tame []); [tame|done|intros bs w2 L]. destruct (_ || _); [by apply wp_ret|]. apply wp_ret. split.
  - intros a p f Hp. apply mild_scoped_answer; set_solver.
  - right; left. apply scoped_target in Er as [-> ->]. split; [by destruct r|]. split; [by destruct r|].
    exists id. split; [|eapply bound_leaves; [|exact L|exact Hbd]; set_solver].
    exists request. split; [done|]. destruct r; [by left|right..]; (split; [cbn [target]; set_solver|exact Hn]).
Qed.

Lemma plans_dispatch st rq t : plans st (dispatch st rq t).
Proof.
  unfold dispatch. cbv zeta. destruct (_ || _) eqn:E0; [by apply plans_parent|].
  destruct (_ && _); [apply plans_done|]. destruct (_ && _); [plans|]. destruct (_ && _); [apply plans_prewarm|].
  destruct (_ && _); [apply plans_submission|].
  destruct (_ && is_Some_bool (execution_path_id _ true)) eqn:E1.
  { destruct (negb _); [apply plans_reply|]. apply andb_true_iff in E1 as [_ E1].
    destruct (execution_path_id _ true) eqn:E; [|done]. eapply plans_existing; [exact E|by right]. }
  destruct (_ && is_Some_bool (execution_path_id _ false)) eqn:E2; [|apply plans_reply].
  apply andb_true_iff in E2 as [_ E2]. destruct (execution_path_id _ false) eqn:E; [|done]. eapply plans_existing; [exact E|by left].
Qed.

Lemma plans_handle st i : plans st (handle_request scalar quoted st i).
Proof.
  unfold handle_request. destruct (read_request i) as [rq|s]; [|apply plans_done]. unfold route_request.
  destruct (starts_with _ _); [apply plans_scoped|]. apply plans_bind; [tame|intros s]. destruct s; [apply plans_done|].
  apply plans_bind; [tame|intros [[[client bt] cap]|]]; [|apply plans_reply]. destruct (negb _); [apply plans_reply|].
  apply plans_bind; [tame|intros [[k e]|]]; [apply plans_reply|apply plans_dispatch].
Qed.
End plans.

(** ** Interleaved requests *)

Record System : Type := mkSystem { world : World; pending : list Plan }.

(** A request arrives at a replica; the request of the [n]th plan is sent. *)
Inductive action : Type := Arrive (st : RouterState) (i : Input) | Deliver (n : nat).

Section system.
Context `{Blake3} `{Json Owner} `{Json Value} `{Json Health} `{Json Create}.
Context {scalar : Value -> option bytes} {quoted : string -> option bytes} `{JsonText} `{Sha256}.
Notation plan_ok := (plan_ok scalar quoted).
Notation origin := (origin scalar quoted).
Notation scoped_request := (scoped_request scalar quoted).

Definition act (s : System) (a : action) : System :=
  match a with
  | Arrive st i =>
      let '(r, w) := handle_request scalar quoted st i (world s) in
      mkSystem w (pending s ++ match r with Ok p => [p] | Err _ => [] end)
  | Deliver n =>
      match pending s !! n with
      | Some p => mkSystem (deliver p (world s)).2 (delete n (pending s))
      | None => s
      end
  end.
Definition acts (s : System) (l : list action) : System := foldl act s l.

(** The replicas share their ledgers. *)
Definition shares (st : RouterState) (a : action) : Prop :=
  match a with
  | Arrive st' _ => dir (executions st') = dir (executions st) /\ dir (scoped_ops st') = dir (scoped_ops st)
                    /\ dir (scoped_parents st') = dir (scoped_parents st)
  | Deliver _ => True
  end.

Definition send_of (p : Plan) : option Delivery := match p with Send d _ => Some d | Done _ => None end.

(** What was sent and what may still be. *)
Definition outstanding (s : System) : list Delivery := sent (net (world s)) ++ omap send_of (pending s).

Definition finishes (ds : list string) (p : Plan) : Prop :=
  match p with Send _ fin => forall a, tame ds (fin a) | Done _ => True end.

(** Sending takes a request from what may still be sent, or loses it. *)
Lemma deliver_steps p w ds : finishes ds p -> exists w1,
  files w1 = files w /\ (forall t, shown w1 t <-> shown w t) /\ leaves ds w1 (deliver p w).2 /\
  (sent (net w1) = sent (net w) \/ sent (net w1) = sent (net w) ++ option_list (send_of p)).
Proof.
  destruct p as [r|d fin]; cbn [finishes deliver].
  { intros _. exists w. split; [done|]. split; [done|]. split; [|by left]. intros p f Hp. apply frame_order. }
  intros Ht. unfold exchange, on_net, mbind, IO_bind.
  destruct (Host.answers (net w)) as [|[| |x] rest] eqn:E; cbn -[leaves];
    (eexists; split; [|split; [|split; [intros p f Hp; by apply Ht|]]]; [done|done|]); cbn; auto.
Qed.

(** What a step leaves of the records, whatever it sends. *)
Definition lasts (ds : list string) (w w' : World) : Prop :=
  (forall p f, record_path p -> files w !! p = Some f -> files w' !! p = Some f \/ (p.1 ∈ ds /\ expired QUARANTINE f w)) /\
  (forall p, record_path p -> dated p w w') /\ (forall t, shown w' t -> shown w t).

Lemma leaves_lasts ds w w' : leaves ds w w' -> lasts ds w w'.
Proof.
  intros L. split; [intros p f Hp; by apply L|]. split; [intros p Hp; by apply (L p (mkFile [] 0))|].
  apply (L ("", "n") (mkFile [] 0) eq_refl).
Qed.

Lemma leaves_sent ds w w' : leaves ds w w' -> exists l, sent (net w') = sent (net w) ++ l /\ Forall probe l.
Proof. intros L. apply (L ("", "n") (mkFile [] 0) eq_refl). Qed.

(** One step: at most one request is added to what may be sent, and it has an origin. *)
Record stepped (st : RouterState) (s s' : System) : Prop := {
  st_lasts : lasts (retiring st) (world s) (world s');
  st_finishes : Forall (finishes (retiring st)) (pending s) -> Forall (finishes (retiring st)) (pending s');
  st_outstanding : exists probes extra, Forall probe probes /\
    outstanding s' ⊆+ outstanding s ++ probes ++ option_list extra /\
    forall d, extra = Some d -> exists st', shares st (Arrive st' (mkInput [] false)) /\ origin st' (world s) (world s') d;
}.

Lemma shares_apart st st' i : shares st (Arrive st' i) -> apart st -> apart st' /\ retiring st' = retiring st.
Proof. intros (E1 & E2 & E3). unfold apart, retiring. by rewrite E1, E2, E3. Qed.

Lemma deliver_step st s n : Forall (finishes (retiring st)) (pending s) -> stepped st s (act s (Deliver n)).
Proof.
  intros Hfin. cbn [act]. destruct (pending s !! n) as [p|] eqn:E.
  - assert (Hp : finishes (retiring st) p) by (by eapply Forall_lookup_1).
    destruct (deliver_steps p (world s) (retiring st) Hp) as (w1 & Ef & Es & L & Hs).
    destruct (leaves_sent _ _ _ L) as (l & El & Hl). split; cbn [world pending].
    + apply leaves_lasts in L as (F & D & S). split; [|split].
      * intros q f Hq Hf. rewrite <- Ef in Hf. destruct (F q f Hq Hf) as [|[Hd (t & Ht & Hx)]]; [by left|].
        right. split; [done|]. exists t. split; [by apply Es|done].
      * intros q Hq f Hf. destruct (D q Hq f Hf) as [Hf'|Ht]; [left; by rewrite <- Ef|right; by apply Es].
      * intros t Ht. by apply Es, S.
    + intros _. by apply Forall_delete.
    + exists l, None. split; [done|]. split; [|done]. unfold outstanding. cbn [world pending option_list]. rewrite El, app_nil_r.
      assert (Hperm : omap send_of (pending s) ≡ₚ option_list (send_of p) ++ omap send_of (delete n (pending s))).
      { rewrite (delete_Permutation _ _ _ E) at 1. cbn. by destruct (send_of p). }
      rewrite Hperm. destruct Hs as [-> | ->]; rewrite <- !app_assoc; apply submseteq_skips_l; [|apply submseteq_skips_l].
      * rewrite (Permutation_app_comm l). apply submseteq_inserts_l, reflexivity.
      * by rewrite (Permutation_app_comm l).
  - split; [|done|]; [split; [by left|split; [by left|done]]|].
    exists [], None. split; [done|]. split; [by rewrite app_nil_r|done].
Qed.

Lemma tame_handle st i : tame (retiring st) (handle_request scalar quoted st i).
Proof. intros p f Hp. apply mild_handle_request; [done|unfold retiring; set_solver..]. Qed.

Lemma arrive_step st s st' i : apart st -> shares st (Arrive st' i) -> stepped st s (act s (Arrive st' i)).
Proof.
  intros Ha Hs. destruct (shares_apart st st' i Hs Ha) as [Ha' Er]. cbn [act].
  pose proof (tame_wp (retiring st') (handle_request scalar quoted st' i) (world s) _ (tame_handle st' i) (plans_handle st' i Ha' (world s))) as Hw.
  destruct (handle_request scalar quoted st' i (world s)) as [r w] eqn:E. apply wp_run with (1 := Hw) in E as [L Hp]. clear Hw.
  rewrite Er in *. destruct (leaves_sent _ _ _ L) as (l & El & Hl). split; cbn [world pending].
  - by apply leaves_lasts.
  - intros Hf. apply Forall_app. split; [done|]. destruct r as [[r|d fin]|e]; [by apply Forall_singleton| |by constructor].
    apply Forall_singleton. destruct Hp as [Ht _]. by rewrite Er in Ht.
  - exists l, (match r with Ok p => send_of p | Err _ => None end). split; [done|]. split.
    + unfold outstanding. cbn [world pending]. rewrite El, omap_app. rewrite <- !app_assoc. apply submseteq_skips_l.
      rewrite (Permutation_app_comm l), <- app_assoc. apply submseteq_skips_l.
      rewrite (Permutation_app_comm l). apply submseteq_skips_r. by destruct r as [[r|d fin]|e].
    + intros d Hd. exists st'. split; [exact Hs|]. destruct r as [[r|d' fin]|e]; try done. injection Hd as ->. apply Hp.
Qed.

Lemma act_step st s a : apart st -> shares st a -> Forall (finishes (retiring st)) (pending s) -> stepped st s (act s a).
Proof. intros Ha Hs Hf. destruct a; [by apply arrive_step|by apply deliver_step]. Qed.

(** An invariant of the steps holds along a history. *)
Lemma acts_invariant (st : RouterState) (I : System -> Prop) s l : apart st -> Forall (shares st) l ->
  (forall s s', I s -> stepped st s s' -> I s') -> Forall (finishes (retiring st)) (pending s) -> I s -> I (acts s l).
Proof.
  intros Ha Hl HI. revert s. induction Hl as [|a l Hs _ IH]; intros s Hf Hi; [done|]. cbn.
  pose proof (act_step st s a Ha Hs Hf) as Hst. apply IH; [by apply Hst|]. by eapply HI.
Qed.

(** *** Submissions *)

#[export] Instance submission_dec id d : Decision (submission id d).
Proof. unfold submission. apply _. Defined.

Definition submitted (id : string) (l : list Delivery) : nat := length (filter (submission id) l).

Lemma submitted_app id l l' : submitted id (l ++ l') = (submitted id l + submitted id l')%nat.
Proof. unfold submitted. by rewrite filter_app, length_app. Qed.
Lemma submitted_probes id l : Forall probe l -> submitted id l = 0%nat.
Proof.
  unfold submitted. induction 1 as [|d l [Hm _] _ IH]; [done|]. rewrite filter_cons_False; [done|]. intros [Hp _]. congruence.
Qed.
Lemma submitted_le id l l' : l ⊆+ l' -> (submitted id l <= submitted id l')%nat.
Proof.
  unfold submitted. induction 1; rewrite ?filter_cons; repeat case_decide; cbn; lia.
Qed.

Lemma submitted_one id d : submitted id [d] = if decide (submission id d) then 1%nat else 0%nat.
Proof. unfold submitted. rewrite filter_cons. by case_decide. Qed.

Lemma submission_is id d : submission id d -> is_submission d = true /\ is_scoped d = false.
Proof. unfold is_submission, is_scoped. by intros (-> & -> & _). Qed.

(** The record of a submission. *)
Definition recorded (st : RouterState) (id : string) (d : Delivery) (w : World) : Prop :=
  exists o m, files w !! path (executions st) id = Some (mkFile (to_vec o) m) /\ backend o = to d /\ body_hash o = hash_of (body d).

Definition posted (st : RouterState) (id : string) (s : System) : Prop :=
  (submitted id (outstanding s) <= if is_Some_bool (files (world s) !! path (executions st) id) then 1 else 0)%nat /\
  forall d, d ∈ outstanding s -> submission id d -> recorded st id d (world s).

Lemma lasts_keeps st w w' id f : apart st -> lasts (retiring st) w w' ->
  files w !! path (executions st) id = Some f -> files w' !! path (executions st) id = Some f.
Proof. intros [Hd _] [L _] Hf. by destruct (L _ f (path_record (executions st) id) Hf) as [|[? _]]. Qed.

Lemma recorded_lasts st id d w w' : apart st -> lasts (retiring st) w w' -> recorded st id d w -> recorded st id d w'.
Proof. intros Ha L (o & m & Hf & Ho). exists o, m. split; [by eapply lasts_keeps|done]. Qed.

Lemma posted_step st id s s' : apart st -> posted st id s -> stepped st s s' -> posted st id s'.
Proof.
  intros Ha [Hn Hr] [L _ (probes & extra & Hp & Hsub & Hx)].
  assert (HX : forall d, extra = Some d -> submission id d ->
    files (world s) !! path (executions st) id = None /\ recorded st id d (world s')).
  { intros d -> Hd. destruct (Hx d eq_refl) as (st' & (E & _) & Ho). destruct (submission_is id d Hd) as [HA HB].
    destruct Ho as [(_ & _ & id' & Eid & Hnone & Hsome)|[(E' & _)|(E' & _)]]; [|congruence..].
    assert (id' = id) as -> by (destruct Hd as (_ & _ & Hd); congruence).
    assert (EP : path (executions st') id = path (executions st) id) by (unfold path; by rewrite E).
    rewrite EP in *. by split. }
  split.
  - pose proof (submitted_le id _ _ Hsub) as Hle. rewrite !submitted_app, (submitted_probes id probes Hp) in Hle.
    destruct extra as [d|].
    + change (option_list (Some d)) with [d] in Hle. rewrite submitted_one in Hle. destruct (decide (submission id d)) as [Hd|Hd].
      * destruct (HX d eq_refl Hd) as [Hnone (o & m & Hf & _)]. rewrite Hf. rewrite Hnone in Hn. cbn in *. lia.
      * destruct (files (world s) !! _) as [f|] eqn:E; [rewrite (lasts_keeps _ _ _ _ f Ha L E); cbn in *; lia|].
        cbn in Hn. destruct (is_Some_bool _); lia.
    + change (submitted id (option_list None)) with 0%nat in Hle. destruct (files (world s) !! _) as [f|] eqn:E; [rewrite (lasts_keeps _ _ _ _ f Ha L E); cbn in *; lia|].
      cbn in Hn. destruct (is_Some_bool _); lia.
  - intros d Hd Hs. eapply elem_of_submseteq in Hd; [|exact Hsub]. rewrite !elem_of_app in Hd. destruct Hd as [Hd|[Hd|Hd]].
    + eapply recorded_lasts; [done|exact L|]. by apply Hr.
    + rewrite Forall_forall in Hp. destruct (Hp d Hd) as [Hm _], Hs as [Hs _]. congruence.
    + destruct extra as [x|]; [|by apply elem_of_nil in Hd]. apply list_elem_of_singleton in Hd as ->. by apply (HX x).
Qed.

(** C4: a submission is never replayed. Requests of any number of threads and replicas
    that share the ledgers interleave between the binding of an identity and the sending
    of its request, and every system call and every connection may fail: the body of an
    execution identity is posted to a backend at most once over the whole history. When
    it is, the identity's record names exactly that backend and that body. *)
Theorem post_once (st : RouterState) (w : World) (l : list action) (id : string) :
  apart st -> Forall (shares st) l -> sent (net w) = [] ->
  let s := acts (mkSystem w []) l in
  (submitted id (sent (net (world s))) <= 1)%nat /\
  forall d, d ∈ sent (net (world s)) -> submission id d -> recorded st id d (world s).
Proof.
  intros Ha Hl Hw s. assert (Hp : posted st id s).
  { apply (acts_invariant st); [done..| |constructor|].
    - intros s1 s2 H1' H2'. by eapply posted_step.
    - split; unfold outstanding; cbn; rewrite Hw; [cbn; lia|]. by intros d ?%elem_of_nil. }
  destruct Hp as [Hn Hr]. unfold outstanding in *. split.
  - rewrite submitted_app in Hn. destruct (is_Some_bool _); lia.
  - intros d Hd. apply Hr, elem_of_app. by left.
Qed.

(** *** Scoped operations *)

Lemma scoped_request_is id d : scoped_request id d -> is_scoped d = true.
Proof.
  unfold is_scoped. intros (v & _ & [[-> _]|[Ht _]]); [done|].
  repeat (apply elem_of_cons in Ht as [-> |Ht]; [done|]). by apply elem_of_nil in Ht.
Qed.

Lemma scoped_request_det id id' d : scoped_request id d -> scoped_request id' d -> id = id'.
Proof.
  intros (v & Ev & Hv) (v' & Ev' & Hv'). rewrite Ev in Ev'. injection Ev' as <-.
  assert (HN : "/v1/scoped/prepare" ∉ ["/v1/scoped/start"; "/v1/scoped/read"; "/v1/scoped/cleanup"]).
  { rewrite !not_elem_of_cons. by repeat (split; [done|]); apply not_elem_of_nil. }
  destruct Hv as [[Et (op & dec & Ep & Ei)]|[Ht Eb]], Hv' as [[Et' (op' & dec' & Ep' & Ei')]|[Ht' Eb']].
  - rewrite Ep in Ep'. injection Ep' as <- <-. congruence.
  - by rewrite Et in Ht'.
  - by rewrite Et' in Ht.
  - congruence.
Qed.

(** No clock reading of the history is a quarantine after another one or after the time
    of the record of [id]. *)
Definition within_quarantine (st : RouterState) (id : string) (w : World) : Prop :=
  (forall t t', shown w t -> shown w t' -> t - t' < QUARANTINE) /\
  (forall f t, files w !! path (scoped_ops st) id = Some f -> shown w t -> t - modified f < QUARANTINE).

Record placed (st : RouterState) (id : string) (s : System) : Prop := {
  placed_within : within_quarantine st id (world s);
  placed_bound d : d ∈ outstanding s -> scoped_request id d -> bound (scoped_ops st) id (to d) (world s);
}.

Lemma within_lasts st id w w' : lasts (retiring st) w w' -> within_quarantine st id w -> within_quarantine st id w'.
Proof.
  intros (_ & D & S) [Hw Hf]. split; [by eauto|]. intros f t Hf' Ht.
  destruct (D _ (path_record (scoped_ops st) id) f Hf') as [Hold|Hs]; [by eapply Hf; [|apply S]|]. apply Hw; [by apply S|done].
Qed.

Lemma bound_lasts st id b w w' : lasts (retiring st) w w' -> within_quarantine st id w ->
  bound (scoped_ops st) id b w -> bound (scoped_ops st) id b w'.
Proof.
  intros (F & _ & _) [_ Hf] (o & Ho & E). exists o. split; [|done]. unfold stored in *.
  destruct (files w !! path (scoped_ops st) id) as [f|] eqn:Ef; [|done].
  destruct (F _ f (path_record (scoped_ops st) id) Ef) as [->|[_ (t & Ht & Hq)]]; [done|].
  specialize (Hf f t eq_refl Ht). lia.
Qed.

Lemma placed_step st id s s' : placed st id s -> stepped st s s' -> placed st id s'.
Proof.
  intros [Hw Hb] [L _ (probes & extra & Hp & Hsub & Hx)]. split; [by eapply within_lasts|].
  intros d Hd Hs. eapply elem_of_submseteq in Hd; [|exact Hsub]. rewrite !elem_of_app in Hd. destruct Hd as [Hd|[Hd|Hd]].
  - eapply bound_lasts; [exact L|done|]. by apply Hb.
  - apply scoped_request_is in Hs. rewrite Forall_forall in Hp. destruct (Hp d Hd) as [_ Ht]. unfold is_scoped in Hs. by rewrite Ht in Hs.
  - destruct extra as [x|]; [|by apply elem_of_nil in Hd]. apply list_elem_of_singleton in Hd as ->.
    destruct (Hx x eq_refl) as (st' & (_ & E & _) & Ho). pose proof (scoped_request_is id x Hs) as HA.
    destruct Ho as [(E' & _)|[(_ & _ & id' & Hr & Hbd)|(_ & E')]]; [congruence| |congruence].
    rewrite (scoped_request_det id' id x Hr Hs) in Hbd. unfold bound, path in *. by rewrite <- E.
Qed.

(** C11: a scoped operation meets one node. While the clock stays within the quarantine
    of its record, and whatever else the replicas bind, retire or sweep, however their
    requests interleave and whatever fails, every request that names the operation (its
    preparation and every start, read and cleanup of it) goes to one backend, the one its
    record names. *)
Theorem scoped_one_node (st : RouterState) (w : World) (l : list action) (id : string) :
  apart st -> Forall (shares st) l -> sent (net w) = [] -> within_quarantine st id w ->
  let s := acts (mkSystem w []) l in
  forall d, d ∈ sent (net (world s)) -> scoped_request id d ->
    bound (scoped_ops st) id (to d) (world s) /\
    forall d', d' ∈ sent (net (world s)) -> scoped_request id d' -> to d' = to d.
Proof.
  intros Ha Hl Hw Hq s. assert (Hp : placed st id s).
  { apply (acts_invariant st); [done..| |constructor|].
    - intros s1 s2 HA HB. by eapply placed_step.
    - split; [done|]. unfold outstanding. cbn. rewrite Hw. by intros d ?%elem_of_nil. }
  assert (Hb : forall d, d ∈ sent (net (world s)) -> scoped_request id d -> bound (scoped_ops st) id (to d) (world s))
    by (intros d Hd; apply Hp, elem_of_app; by left).
  intros d Hd Hs. split; [by apply Hb|]. intros d' Hd' Hs'.
  destruct (Hb d Hd Hs) as (o & Ho & <-), (Hb d' Hd' Hs') as (o' & Ho' & <-). congruence.
Qed.
End system.

(** ** Credentials *)

Lemma byte_val_inj a b : byte_val a = byte_val b -> a = b.
Proof.
  unfold byte_val. intros E%N2Z.inj. apply (f_equal Byte.of_N) in E. rewrite !Byte.of_to_N in E. congruence.
Qed.

Lemma xor_fold_zero l acc : 0 <= acc ->
  foldl (fun acc ab => Z.lor acc (Z.lxor (byte_val ab.1) (byte_val ab.2))) acc l = 0 <-> acc = 0 /\ Forall (fun ab => ab.1 = ab.2) l.
Proof.
  revert acc. induction l as [|[a b] l IH]; intros acc Hacc; cbn [foldl].
  { split; [|by intros [-> _]]. intros ->. split; [done|constructor]. }
  assert (Hab : 0 <= Z.lxor (byte_val a) (byte_val b)) by (apply Z.lxor_nonneg; unfold byte_val; lia).
  rewrite IH by (by apply Z.lor_nonneg). rewrite Z.lor_eq_0_iff, Z.lxor_eq_0_iff, Forall_cons. cbn [fst snd].
  split; [intros [[-> E%byte_val_inj] Hl]; done|intros (-> & -> & Hl); done].
Qed.

(** The fold over the pairs of bytes decides equality. *)
Lemma constant_time_eq_spec l r : constant_time_eq l r = true <-> l = r.
Proof.
  unfold constant_time_eq, blen. destruct (Z.eqb_spec (Z.of_nat (length l)) (Z.of_nat (length r))) as [E|E]; cbn [negb].
  - rewrite Z.eqb_eq, xor_fold_zero by done. assert (E' : length l = length r) by lia. clear E.
    revert r E'. induction l as [|a l IH]; intros [|b r] E'; cbn in E'; try done; cbn [zip zip_with].
    injection E' as E'. rewrite Forall_cons. cbn [fst snd]. specialize (IH r E'). cbn in *. naive_solver.
  - split; [done|]. intros ->. done.
Qed.

Lemma as_bytes_inj a b : as_bytes a = as_bytes b -> a = b.
Proof.
  intros E. apply (f_equal String.string_of_list_byte) in E. unfold as_bytes in E.
  by rewrite !String.string_of_list_byte_of_string in E.
Qed.

Lemma same_token_spec a b : same_token a b = true <-> a = b.
Proof. unfold same_token. rewrite constant_time_eq_spec. split; [apply as_bytes_inj|by intros ->]. Qed.

(** The credential that a file holds. *)
Definition credential_of (f : File) : option string :=
  let b := take_bytes 4097 (content f) in
  let token := from_utf8 (trim b) in
  if utf8_valid b && negb ((4096 <? blen b) || (str_len token <? 24) || negb (all_bytes is_graphic token)) then Some token else None.
Definition token_at (fs : gmap Path File) (p : Path) (t : string) : Prop := fs !! p ≫= credential_of = Some t.

Lemma token_at_det fs p t t' : token_at fs p t -> token_at fs p t' -> t = t'.
Proof. unfold token_at. congruence. Qed.

Lemma wp_read_token p w Q :
  (forall t w', token_at (files w) p t -> later w w' -> Q (Ok t) w') -> (forall e w', later w w' -> Q (Err e) w') -> wp (read_token p) w Q.
Proof.
  intros HQ HE. apply wp_bind, wp_open; [intros w1 L1|auto]. destruct (files w !! p) as [f|] eqn:Ef; [|by apply wp_fail, HE].
  apply wp_bind, wp_read; [intros w2 L2|intros; apply HE; by etransitivity]. assert (L : later w w2) by (by etransitivity).
  apply wp_bind, wp_guard; [intros Hu|auto]. cbv zeta. apply wp_bind, wp_guard; [intros Hg|auto].
  apply wp_ret, HQ; [|done]. unfold token_at. rewrite Ef. cbn. unfold credential_of. by rewrite Hu, Hg.
Qed.

(** A result found by reading the credential files only. *)
Definition reads {A} (m : IO A) (C : gmap Path File -> A -> Prop) : Prop :=
  forall w, wp m w (fun r w' => later w w' /\ match r with Ok a => C (files w) a | Err _ => True end).

Lemma reads_bind {A B} (m : IO A) (f : A -> IO B) C D :
  reads m C -> (forall a, reads (f a) (fun fs b => C fs a -> D fs b)) -> reads (m ≫= f) D.
Proof.
  intros Hm Hf w. apply wp_bind. eapply wp_mono; [apply Hm|]. intros [a|e] w1 [L Ha]; [|done].
  eapply wp_mono; [apply Hf|]. intros [b|e] w2 [L2 Hb]; (split; [by etransitivity|]); [|done].
  rewrite (later_files _ _ L) in Hb. by apply Hb.
Qed.
Lemma reads_ret {A} (a : A) (C : gmap Path File -> A -> Prop) : (forall fs, C fs a) -> reads (mret a) C.
Proof. intros HC w. apply wp_ret. by split. Qed.
Lemma reads_guard (c : bool) (e : Error) (C : gmap Path File -> unit -> Prop) : (c = true -> forall fs, C fs tt) -> reads (guard c e) C.
Proof. intros HC w. apply wp_guard; intros Hc; split; [done|by apply HC|done|done]. Qed.
Lemma reads_mono {A} (m : IO A) (C D : gmap Path File -> A -> Prop) : reads m C -> (forall fs a, C fs a -> D fs a) -> reads m D.
Proof. intros Hm HD w. eapply wp_mono; [apply Hm|]. intros [a|e] w1 [L Ha]; (split; [done|]); auto. Qed.
Lemma reads_catch {A} (m : IO A) C : reads m C -> reads (catch m) (fun fs r => match r with Ok a => C fs a | Err _ => True end).
Proof. intros Hm w. apply wp_catch. eapply wp_mono; [apply Hm|]. intros [a|e] w1 [L Ha]; by split. Qed.

Lemma reads_token p : reads (read_token p) (fun fs t => token_at fs p t).
Proof. intros w. apply wp_read_token; intros; by split. Qed.
Lemma reads_optional p : reads (optional_token p) (fun fs o => match o with Some t => exists q, p = Some q /\ token_at fs q t | None => p = None end).
Proof.
  destruct p as [p|]; cbn [optional_token]; [|by apply reads_ret]. eapply reads_bind; [apply reads_token|]. intros t.
  apply reads_ret. intros fs Ht. by exists p.
Qed.

(** What [credentials] returns: the credentials of the files, pairwise different. *)
Definition credentials_of (st : RouterState) (fs : gmap Path File) (c : string * string * option string) : Prop :=
  token_at fs (client_token_file st) c.1.1 /\ token_at fs (token_file st) c.1.2 /\ c.1.1 <> c.1.2 /\
  match c.2 with Some r => r <> c.1.1 /\ r <> c.1.2 | None => True end.

Lemma reads_credentials st : reads (credentials st) (credentials_of st).
Proof.
  unfold credentials. eapply reads_bind; [apply reads_token|intros client]. eapply reads_bind; [apply reads_token|intros backend].
  eapply reads_bind with (C := fun _ _ => client <> backend).
  { apply reads_guard. intros Hn _ E. by rewrite negb_true_iff, <- not_true_iff_false, same_token_spec in Hn. }
  intros []. eapply reads_bind with (C := fun _ o => match o with Some r => r <> client /\ r <> backend | None => True end).
  - unfold capability_credential. eapply reads_bind; [apply reads_optional|intros o]. eapply reads_bind with
      (C := fun _ _ => match o with Some r => r <> client /\ r <> backend | None => True end).
    + apply reads_guard. intros Hn _. destruct o as [r|]; [|done].
      rewrite negb_true_iff, orb_false_iff, <- !not_true_iff_false, !same_token_spec in Hn. done.
    + intros []. apply reads_ret. auto.
  - intros o. apply reads_ret. intros fs Ho Hcb Hb Hc. done.
Qed.

Lemma reads_scoped st : reads (scoped_credential st) (fun fs o => match o with
  | Some t => (exists q, scoped_token_file st = Some q /\ token_at fs q t) /\
              exists c, credentials_of st fs c /\ t <> c.1.1 /\ t <> c.1.2
  | None => True end).
Proof.
  unfold scoped_credential. destruct (scoped_token_file st) as [p|]; [|by apply reads_ret].
  eapply reads_bind; [apply reads_token|intros t]. eapply reads_bind; [apply reads_credentials|intros [[client backend] cap]].
  eapply reads_bind with (C := fun _ _ => True); [eapply reads_mono; [apply reads_optional|done]|intros parent].
  cbv zeta. eapply reads_bind with (C := fun _ _ => t <> client /\ t <> backend).
  { apply reads_guard. intros Hn _. rewrite negb_true_iff in Hn. cbn [existsb app] in Hn.
    rewrite !orb_false_iff in Hn. destruct Hn as (HA & HB & _). split; intros E; subst.
    - by rewrite (proj2 (same_token_spec client client) eq_refl) in HA.
    - by rewrite (proj2 (same_token_spec backend backend) eq_refl) in HB. }
  intros []. apply reads_ret. intros fs Hne _ Hc Ht. split; [by exists p|]. by exists (client, backend, cap).
Qed.

(** ** Who may have a request forwarded *)

Section authority.
Context `{Blake3} `{Json Owner} `{Json Value} `{Json Health} `{Json Create}.
Context (scalar : Value -> option bytes) (quoted : string -> option bytes) `{JsonText} `{Sha256}.

(** Every request that a plan of [m] sends satisfies [P]. *)
Definition sends (P : Delivery -> Prop) (m : IO Plan) : Prop :=
  forall w, wp m w (fun r _ => match r with Ok (Send d _) => P d | _ => True end).

Lemma sends_done P r : sends P (mret (Done r)).
Proof. intros w. by apply wp_ret. Qed.
Lemma sends_to (P : Delivery -> Prop) d fin : P d -> sends P (mret (send_to d fin)).
Proof. intros Hd w. apply wp_ret. unfold send_to. by destruct (backend_to_addr _). Qed.
Lemma sends_send (P : Delivery -> Prop) d fin : P d -> sends P (mret (Send d fin)).
Proof. intros Hd w. by apply wp_ret. Qed.
Lemma sends_bind {A} P (m : IO A) f : (forall a, sends P (f a)) -> sends P (m ≫= f).
Proof.
  intros Hf w. apply wp_bind. unfold wp at 1. destruct (m w) as [[a|e] w1]; cbn; [apply Hf|done].
Qed.

Ltac sends :=
  unfold reply, reply_final, dropped;
  repeat match goal with
  | |- sends _ (_ ≫= _) => apply sends_bind; intros ?
  | |- sends _ (mret (Done _)) => apply sends_done
  | |- sends _ (mret (send_to _ _)) => apply sends_to
  | |- sends _ (mret (Send _ _)) => apply sends_send
  | |- sends _ (match ?x with _ => _ end) => destruct x
  | |- sends _ (let _ := _ in _) => cbv zeta
  end.

Lemma sends_owned st b m q t : sends (fun d => bearer d = Some t) (forward_owned st b m q t).
Proof. unfold forward_owned. sends. by destruct (String.eqb m "POST"). Qed.
Lemma sends_submission st i n e t pin : sends (fun d => bearer d = Some t) (forward_submission st i n e t pin).
Proof. unfold forward_submission. sends. all: try done. all: apply sends_owned. Qed.
Lemma sends_prewarm i n pin t : sends (fun d => bearer d = Some t) (forward_prewarm i n pin t).
Proof. unfold forward_prewarm. sends. done. Qed.
Lemma sends_existing st m q c t : sends (fun d => bearer d = Some t) (forward_existing st m q c t).
Proof. unfold forward_existing. sends. apply sends_owned. Qed.

(** The credential that parent requests carry. *)
Definition parent_credential (st : RouterState) (fs : gmap Path File) (t : string) : Prop :=
  (exists q, parent_token_file st = Some q /\ token_at fs q t) /\ exists c, credentials_of st fs c /\ t <> c.1.1 /\ t <> c.1.2.

Lemma reads_parent_token st : reads (parent_token st) (fun fs r => match r with Ok t => parent_credential st fs t | Err _ => True end).
Proof.
  unfold parent_token. eapply reads_bind; [apply reads_catch, reads_optional|intros [[t|]|]]; try (by apply reads_ret).
  eapply reads_bind; [apply reads_credentials|intros [[client backend] cap]].
  eapply reads_bind with (C := fun _ _ => True).
  { destruct (scoped_token_file st); [|by apply reads_ret]. eapply reads_bind; [apply reads_catch, reads_token|intros; by apply reads_ret]. }
  intros o. apply reads_ret. intros fs _ Hc Ht. destruct (existsb _ _) eqn:E; [done|]. split; [done|]. exists (client, backend, cap).
  split; [done|]. cbn [existsb app] in E. rewrite !orb_false_iff in E. destruct E as (HA & HB & _). split; intros E; cbn in E; subst.
  - by rewrite (proj2 (same_token_spec client client) eq_refl) in HA.
  - by rewrite (proj2 (same_token_spec backend backend) eq_refl) in HB.
Qed.

Lemma wp_reads {A} (m : IO A) C (f : A -> IO Plan) w P : reads m C ->
  (forall a w1, C (files w) a -> files w1 = files w -> wp (f a) w1 (fun r _ => match r with Ok (Send d _) => P d | _ => True end)) ->
  wp (m ≫= f) w (fun r _ => match r with Ok (Send d _) => P d | _ => True end).
Proof.
  intros Hm Hf. apply wp_bind. eapply wp_mono; [apply Hm|]. intros [a|e] w1 [L Ha]; [|done]. apply Hf; [done|apply (later_files _ _ L)].
Qed.

Lemma sends_parent st i m q n inc a t w :
  wp (forward_parent st i m q n inc a t) w
    (fun r _ => match r with Ok (Send d _) => exists t', bearer d = Some t' /\ parent_credential st (files w) t' | _ => True end).
Proof.
  unfold forward_parent. eapply (wp_reads _ _ _ w (fun d => exists t', bearer d = Some t' /\ parent_credential st (files w) t'));
    [apply reads_parent_token|]. intros [tok|[k e]] w1 Ht _; [|by apply wp_ret]. cbn in Ht.
  assert (HS : sends (fun d => bearer d = Some tok) (forward_parent_as tok st i m q n inc a t)) by (unfold forward_parent_as; sends; done).
  eapply wp_mono; [apply HS|]. intros [[r|d fin]|e] w2 Hd; [done| |done]. by exists tok.
Qed.

Lemma sends_scoped st i m q n got pm pin w :
  wp (forward_scoped scalar quoted st i m q n got pm pin) w
    (fun r _ => match r with
     | Ok (Send d _) => exists t p, got = Some t /\ bearer d = Some t /\ scoped_token_file st = Some p /\ token_at (files w) p t
     | _ => True end).
Proof.
  unfold forward_scoped. destruct (negb _); [by apply wp_ret|].
  eapply (wp_reads _ _ _ w (fun d => exists t p, got = Some t /\ bearer d = Some t /\ scoped_token_file st = Some p /\ token_at (files w) p t));
    [apply reads_catch, reads_scoped|].
  intros [[tok|]|e] w1 Ht _; try by apply wp_ret. destruct Ht as [(p & Ep & Hp) _].
  destruct got as [g|]; [|by apply wp_ret]. destruct (same_token g tok) eqn:Eg; [|by apply wp_ret]. apply same_token_spec in Eg as ->.
  assert (HS : sends (fun d => bearer d = Some tok) (forward_scoped_as scalar quoted tok st i m q n pm pin))
    by (unfold forward_scoped_as; sends; done).
  eapply wp_mono; [apply HS|]. intros [[r|d fin]|?] w2 Hd; [done| |done]. by exists tok, p.
Qed.

(** What a caller that presents [got] may have forwarded on a path. *)
Definition authority (st : RouterState) (fs : gmap Path File) (path got : string) (d : Delivery) : Prop :=
  (starts_with "/v1/scoped/" path = true /\ bearer d = Some got /\
   exists q, scoped_token_file st = Some q /\ token_at fs q got) \/
  (starts_with "/v1/scoped/" path = false /\ token_at fs (client_token_file st) got /\
   exists t, bearer d = Some t /\ t <> got /\
     (token_at fs (token_file st) t \/ exists q, parent_token_file st = Some q /\ token_at fs q t)).

Lemma wp_check_pin st m q pin w Q :
  (forall r w', files w' = files w -> Q (Ok r) w') -> wp (check_pin st m q pin) w Q.
Proof.
  intros HQ. unfold check_pin. destruct pin as [b|]; [|by apply wp_ret, HQ]. apply wp_bind.
  destruct (1024 <? str_len b); [by apply wp_ret, wp_ret, HQ|]. unfold backends. destruct (discovery st); [|by apply wp_ret, wp_ret, HQ].
  apply wp_bind, wp_on_net, wp_ret, wp_ret. by apply HQ.
Qed.

Lemma reads_discovery st rq : reads (scoped_discovery st rq) (fun _ _ => True).
Proof.
  unfold scoped_discovery. destruct (negb _); [by apply reads_ret|].
  eapply reads_bind with (C := fun _ _ => True); [eapply reads_mono; [apply reads_catch, reads_scoped|done]|intros s].
  eapply reads_bind with (C := fun _ _ => True); [eapply reads_mono; [apply reads_catch, reads_credentials|done]|intros c].
  by apply reads_ret.
Qed.

(** The two reports forward nothing. *)
Lemma dispatch_discovery st rq t w :
  String.eqb (method rq) "GET" && (String.eqb (path_ rq) "/v1/capabilities" || is_Some_bool (report_query (path_ rq))) = true ->
  wp (dispatch st rq t) w (fun r _ => match r with Ok (Send _ _) => False | _ => True end).
Proof.
  intros [Hm Hp]%andb_true_iff. unfold dispatch. cbv zeta.
  assert (Hpar : String.eqb (path_ rq) "/v1/parents" || starts_with "/v1/parents/" (path_ rq) = false).
  { apply not_true_iff_false. intros E. rewrite orb_true_iff in E, Hp. rewrite String.eqb_eq in E, Hp. destruct E as [E|E].
    - rewrite E in Hp. by destruct Hp.
    - unfold starts_with in E. destruct (strip_prefix "/v1/parents/" (path_ rq)) as [r|] eqn:Er; [|done]. apply strip_prefix_Some in Er. rewrite Er in Hp.
      destruct Hp as [Hp|Hp]; [done|]. unfold report_query, String.append in Hp. cbn in Hp.
      by destruct (split_once "?" r) as [[x y]|]. }
  rewrite Hpar, Hm. cbn [andb]. destruct (String.eqb (path_ rq) "/v1/capabilities"); [by apply wp_ret|].
  cbn [orb] in Hp. rewrite Hp. destruct (parse_list _); by apply wp_ret.
Qed.

Lemma sends_dispatch st rq t w :
  wp (dispatch st rq t) w (fun r _ => match r with
    | Ok (Send d _) => exists t', bearer d = Some t' /\ (t' = t \/ parent_credential st (files w) t') | _ => True end).
Proof.
  assert (HB : forall m : IO Plan, sends (fun d => bearer d = Some t) m -> wp m w (fun r _ => match r with
    | Ok (Send d _) => exists t', bearer d = Some t' /\ (t' = t \/ parent_credential st (files w) t') | _ => True end)).
  { intros m Hm. eapply wp_mono; [apply Hm|]. intros [[r|d fin]|e] w1 Hd; [done| |done]. exists t. auto. }
  unfold dispatch. cbv zeta. destruct (_ || _).
  { eapply wp_mono; [apply sends_parent|]. intros [[r|d fin]|e] w1 Hd; [done| |done]. naive_solver. }
  apply HB. unfold reply. repeat match goal with
  | |- sends _ (mret (Done _)) => apply sends_done
  | |- sends _ (match ?x with _ => _ end) => destruct x
  end; first [apply sends_prewarm|apply sends_submission|apply sends_existing].
Qed.

Lemma sends_route st rq w :
  wp (route_request scalar quoted st rq) w (fun r _ => match r with
    | Ok (Send d _) => exists got, presented (head rq) = Some got /\ authority st (files w) (path_ rq) got d | _ => True end).
Proof.
  unfold route_request. destruct (starts_with "/v1/scoped/" (path_ rq)) eqn:Es.
  { eapply wp_mono; [apply sends_scoped|]. intros [[r|d fin]|e] w1 Hd; [done| |done].
    destruct Hd as (t & p & Hg & Hb & Ep & Hp). exists t. split; [done|]. left. split; [done|]. split; [done|]. by exists p. }
  eapply (wp_reads _ _ _ w (fun d => exists got, presented (head rq) = Some got /\ authority st (files w) (path_ rq) got d));
    [apply reads_discovery|]. intros s w1 _ F1. destruct s; [by apply wp_ret|].
  rewrite <- F1. eapply (wp_reads _ _ _ w1 (fun d => exists got, presented (head rq) = Some got /\ authority st (files w1) (path_ rq) got d));
    [apply reads_catch, reads_credentials|]. intros [[[client backend] cap]|e] w2 Hc F2; [|by apply wp_ret].
  destruct (authorized rq client cap) eqn:Ea; [|by apply wp_ret]. cbn [negb].
  apply wp_bind, wp_check_pin. intros [[k e]|] w3 F3; [by apply wp_ret|].
  unfold authorized in Ea. destruct (presented (head rq)) as [got|]; [|done]. apply orb_true_iff in Ea as [Ea|Ea].
  - apply same_token_spec in Ea as ->. eapply wp_mono; [apply sends_dispatch|]. intros [[r|d fin]|e] w4 Hd; [done| |done].
    exists client. split; [done|]. right. destruct Hc as (Hc & Hb & Hne & _). cbn in *. split; [done|]. split; [done|].
    destruct Hd as (t & Ht & Hor). exists t. split; [done|]. destruct Hor as [->|[(q & Eq & Hq) (c & (Hc' & _) & Hne' & _)]].
    + split; [done|]. by left.
    + rewrite F3, F2 in Hq, Hc'. split; [|right; by exists q]. intros ->. apply Hne'. exact (token_at_det _ _ _ _ Hc Hc').
  - apply andb_true_iff in Ea as [Ed _]. eapply wp_mono; [by apply dispatch_discovery|]. by intros [[r|d fin]|e] w4 Hd.
Qed.

(** C19: who may have a request forwarded, and with what. A request is forwarded only for
    a caller that presents the scoped credential, on a scoped route, or the client's
    credential, on any other; never for the read-only capability credential, never
    without one. What it carries to the backend is the scoped credential itself in the
    first case, and in the second the dispatcher's or the parents' credential, which
    differs from the caller's: the client's credential is never passed on. The
    credentials are those of the files at the time of the request. *)
Theorem forward_authorised (st : RouterState) (i : Input) (w w' : World) (d : Delivery) (fin : Answer -> IO Reply) :
  handle_request scalar quoted st i w = (Ok (Send d fin), w') ->
  exists rq got, read_request i = Ok rq /\ presented (head rq) = Some got /\ authority st (files w) (path_ rq) got d.
Proof.
  unfold handle_request. destruct (read_request i) as [rq|[]] eqn:Erq; [|done..]. intros Hrun.
  destruct (wp_run _ _ _ _ _ (sends_route st rq w) Hrun) as (got & Hg & Hd). by exists rq, got.
Qed.
End authority.
