(* ===== verification/Timestamp.v ===== *)
(** * Calendar timestamps ([rfc3339_utc] of [crates/celln-cli/src/dispatch.rs])

    Seconds of the Unix clock as a date and a time of day in UTC, and what makes the
    conversion right: the Gregorian calendar, counted independently. *)

From S2P Require Import Prelude Text.

(** A date and a time of day. *)
Record DateTime : Type := mkDateTime {
  year : Z; month : Z; day : Z; hour : Z; minute : Z; second : Z;
}.

(** The day's number, counted from the 1st of March of year 0, split into eras of 400
    years; [as u64] is exact on it, and no step leaves 64 bits. *)
Definition era_of (z : Z) : Z := Z.quot (if 0 <=? z then z else z - 146096) 146097.
Definition civil_of_era (era doe : Z) : Z * Z * Z :=
  let yoe := (doe - doe / 1460 + doe / 36524 - doe / 146096) / 365 in
  let y := yoe + era * 400 in
  let doy := doe - (365 * yoe + yoe / 4 - yoe / 100) in
  let mp := (5 * doy + 2) / 153 in
  let day := doy - (153 * mp + 2) / 5 + 1 in
  let month := if mp <? 10 then mp + 3 else mp - 9 in
  (if month <=? 2 then y + 1 else y, month, day).

Definition date_time (unix_seconds : Z) : DateTime :=
  let days := unix_seconds / 86400 in
  let secs_of_day := unix_seconds mod 86400 in
  let z := days + 719468 in
  let era := era_of z in
  let '(y, m, d) := civil_of_era era (z - era * 146097) in
  mkDateTime y m d (secs_of_day / 3600) ((secs_of_day / 60) mod 60) (secs_of_day mod 60).

(** [{n:0w}]. *)
Definition padded (w : nat) (n : Z) : string :=
  let sign := if n <? 0 then "-" else "" in
  let digits := pretty.pretty (Z.abs n) in
  (sign ++ String.concat "" (replicate (w - String.length sign - String.length digits) "0") ++ digits)%string.

Definition rfc3339_utc (unix_seconds : Z) : string :=
  let t := date_time unix_seconds in
  (padded 4 (year t) ++ "-" ++ padded 2 (month t) ++ "-" ++ padded 2 (day t) ++ "T"
   ++ padded 2 (hour t) ++ ":" ++ padded 2 (minute t) ++ ":" ++ padded 2 (second t) ++ "Z")%string.

(** ** The calendar *)

Definition leap (y : Z) : bool := (y mod 4 =? 0) && (negb (y mod 100 =? 0) || (y mod 400 =? 0)).
Definition days_in_month (y m : Z) : Z :=
  if m =? 2 then (if leap y then 29 else 28) else if existsb (Z.eqb m) [4; 6; 9; 11] then 30 else 31.

(** The days before a year, a month of a year. *)
Definition before_year (y : Z) : Z := 365 * (y - 1) + (y - 1) / 4 - (y - 1) / 100 + (y - 1) / 400.
Definition before_month (y m : Z) : Z := foldr Z.add 0 (days_in_month y <$> seqZ 1 (m - 1)).
(** Days since the 1st of January 1970. *)
Definition days_since (y m d : Z) : Z := before_year y - before_year 1970 + before_month y m + (d - 1).

Lemma before_year_next y : before_year (y + 1) - before_year y = if leap y then 366 else 365.
Proof.
  unfold before_year, leap. replace (y + 1 - 1) with y by lia.
  destruct (Z.eqb_spec (y mod 4) 0), (Z.eqb_spec (y mod 100) 0), (Z.eqb_spec (y mod 400) 0); cbn; Z.div_mod_to_equations; lia.
Qed.

Lemma before_year_era y e : before_year (y + e * 400) = before_year y + 146097 * e.
Proof.
  unfold before_year. replace (y + e * 400 - 1) with (y - 1 + e * 400) by lia.
  replace (e * 400) with (e * 100 * 4) at 2 by lia. replace (e * 400) with (e * 4 * 100) at 2 by lia.
  rewrite !Z.div_add by lia. lia.
Qed.

Lemma leap_era y e : leap (y + e * 400) = leap y.
Proof.
  unfold leap. replace (y + e * 400) with (y + e * 100 * 4) at 1 by lia. replace (y + e * 400) with (y + e * 4 * 100) at 1 by lia.
  by rewrite !Z.mod_add by lia.
Qed.

Lemma days_in_month_era y e m : days_in_month (y + e * 400) m = days_in_month y m.
Proof. unfold days_in_month. by rewrite leap_era. Qed.

Lemma before_month_era y e m : before_month (y + e * 400) m = before_month y m.
Proof. unfold before_month. f_equal. apply list_fmap_ext. intros. apply days_in_month_era. Qed.

(** [p] on [n] successive numbers. *)
Fixpoint all_from (p : Z -> bool) (n : nat) (z : Z) : bool :=
  match n with O => true | S n => p z && all_from p n (z + 1) end.
Lemma all_from_spec p n z : all_from p n z = true -> forall x, z <= x < z + Z.of_nat n -> p x = true.
Proof.
  revert z. induction n as [|n IH]; intros z; cbn [all_from]; [lia|]. rewrite andb_true_iff. intros [Hp Hn] x Hx.
  destruct (decide (x = z)) as [->|]; [done|]. apply (IH _ Hn). lia.
Qed.

(** The month and the day of a day of the year that starts in March. *)
Definition month_of (doy : Z) : Z * Z :=
  let mp := (5 * doy + 2) / 153 in
  (if mp <? 10 then mp + 3 else mp - 9, doy - (153 * mp + 2) / 5 + 1).

(** Only whether the year is a leap year matters for its months. *)
Definition kind (y : Z) : Z := if leap y then 4 else 1.
Lemma days_in_month_kind y m : days_in_month y m = days_in_month (kind y) m.
Proof. unfold days_in_month, kind. by destruct (leap y). Qed.
Lemma leap_kind y : leap (kind y) = leap y.
Proof. unfold kind. by destruct (leap y) eqn:E. Qed.
Lemma before_month_3 y : before_month y 3 = 59 + if leap y then 1 else 0.
Proof. cbv -[leap Z.add Z.mul]. by destruct (leap y). Qed.
Lemma before_month_kind y m : before_month y m = before_month (kind y) m.
Proof. unfold before_month. f_equal. apply list_fmap_ext. intros. apply days_in_month_kind. Qed.

(** January and February of a year of kind [y] end the year that started in the March
    before it; the other months start one. *)
Definition month_ok (y doy : Z) : bool :=
  let '(m, d) := month_of doy in
  (1 <=? m) && (m <=? 12) && (1 <=? d) &&
  (if m <=? 2
   then (before_month y m + (d - 1) + 306 =? doy) && ((d <=? days_in_month y m) || ((doy =? 365) && negb (leap y)))
   else (before_month y m + (d - 1) - before_month y 3 =? doy) && (d <=? days_in_month y m)).
Lemma months_ok : forallb (fun y => all_from (month_ok y) 366 0) [1; 4] = true.
Proof. vm_compute. reflexivity. Qed.

Lemma month_of_ok y doy : 0 <= doy <= 365 -> month_ok (kind y) doy = true.
Proof.
  intros Hd. pose proof months_ok as H. cbn [forallb] in H. rewrite !andb_true_iff in H. destruct H as (H1 & H4 & _).
  unfold kind. destruct (leap y); [apply (all_from_spec _ _ _ H4)|apply (all_from_spec _ _ _ H1)]; lia.
Qed.

Lemma year_of_era doe : 0 <= doe < 146097 ->
  let yoe := (doe - doe / 1460 + doe / 36524 - doe / 146096) / 365 in
  let doy := doe - (365 * yoe + yoe / 4 - yoe / 100) in
  0 <= yoe < 400 /\ 0 <= doy <= 365 /\ (doy = 365 -> (yoe + 1) mod 4 = 0 /\ ((yoe + 1) mod 100 <> 0 \/ yoe = 399)).
Proof.
  intros Hd. cbn zeta.
  assert (doe / 36524 = 0 \/ doe / 36524 = 1 \/ doe / 36524 = 2 \/ doe / 36524 = 3 \/ doe / 36524 = 4) as Hc by (Z.div_mod_to_equations; lia).
  assert ((doe / 146096 = 0 /\ doe < 146096) \/ (doe / 146096 = 1 /\ doe = 146096)) as [[-> Hl]|[-> ->]] by (Z.div_mod_to_equations; lia);
  [|vm_compute; naive_solver].
  assert (exists k r, 0 <= r < 1461 /\ 0 <= k /\ doe = 36524 * (doe / 36524) + 1461 * k + r /\ k < 25 /\ (k = 24 -> r < 1460)) as (k & r & Hr & Hk & E & Hk' & H24).
  { exists ((doe mod 36524) / 1461), ((doe mod 36524) mod 1461). Z.div_mod_to_equations; lia. }
  set (c := doe / 36524) in *.
  assert (exists j, 0 <= j < 4 /\ (doe - doe / 1460 + c - 0) / 365 = 100 * c + 4 * k + j /\ 0 <= r - 365 * j <= 365 /\ (r - 365 * j = 365 -> j = 3)) as (j & Hj & -> & Hrj & H3).
  { exists ((doe - doe / 1460 + c - 0) / 365 - 100 * c - 4 * k). destruct Hc as [->|[->|[->|[->| ->]]]]; Z.div_mod_to_equations; lia. }
  assert ((100 * c + 4 * k + j) / 4 = 25 * c + k) as -> by (Z.div_mod_to_equations; lia).
  assert ((100 * c + 4 * k + j) / 100 = c) as -> by (Z.div_mod_to_equations; lia).
  repeat split; Z.div_mod_to_equations; lia.
Qed.

Lemma civil_era e doe : civil_of_era e doe = let '(y, m, d) := civil_of_era 0 doe in (y + e * 400, m, d).
Proof.
  unfold civil_of_era. cbn zeta. set (yoe := (_ - _) / 365). generalize (doe - (365 * yoe + yoe / 4 - yoe / 100)); intros doy.
  set (mp := (5 * doy + 2) / 153). destruct (_ <=? 2); do 2 f_equal; lia.
Qed.

(** A valid date that is [n] days after the 1st of March of year 0. *)
Definition dated (c : Z * Z * Z) (n : Z) : Prop :=
  let '(y, m, d) := c in 1 <= m <= 12 /\ 1 <= d <= days_in_month y m /\ days_since y m d + 719468 = n.

Lemma first_era doe : 0 <= doe < 146097 -> dated (civil_of_era 0 doe) doe.
Proof.
  intros Hd. pose proof (year_of_era doe Hd) as Hy. cbn zeta in Hy. unfold civil_of_era. cbn zeta.
  set (yoe := (doe - doe / 1460 + doe / 36524 - doe / 146096) / 365) in *. set (doy := doe - (365 * yoe + yoe / 4 - yoe / 100)) in *.
  destruct Hy as (Hy & Hdoy & Hleap). replace (yoe + 0 * 400) with yoe by lia.
  pose proof (month_of_ok (if (fst (month_of doy)) <=? 2 then yoe + 1 else yoe) doy Hdoy) as Hm. unfold month_ok, month_of in Hm. cbn [fst] in Hm.
  set (m := if _ <? 10 then _ else _) in *. set (d := doy - _ + 1) in *.
  unfold dated, days_since. change (before_year 1970) with 719162. rewrite leap_kind, <- !before_month_kind, <- days_in_month_kind in Hm.
  assert (before_year (yoe + 1) = 365 * yoe + yoe / 4 - yoe / 100) as Hby.
  { unfold before_year. replace (yoe + 1 - 1) with yoe by lia. rewrite (Z.div_small yoe 400) by lia. lia. }
  clearbody m d. destruct (Z.leb_spec m 2) as [Hm2|Hm2].
  - assert (doy = 365 -> leap (yoe + 1) = true) as Hl.
    { intros E. unfold leap. destruct (Hleap E) as [H4 [H100| ->]]; [|done].
      rewrite H4. by destruct (Z.eqb_spec ((yoe + 1) mod 100) 0). }
    destruct (leap (yoe + 1)); lia.
  - pose proof (before_year_next yoe) as Hn. rewrite before_month_3 in Hm. destruct (leap yoe); lia.
Qed.

Lemma civil_dated e doe : 0 <= doe < 146097 -> dated (civil_of_era e doe) (e * 146097 + doe).
Proof.
  intros Hd. pose proof (first_era doe Hd) as Hf. rewrite civil_era.
  destruct (civil_of_era 0 doe) as [[y m] d]. revert Hf. unfold dated, days_since.
  rewrite before_year_era, before_month_era, days_in_month_era. lia.
Qed.

Lemma era_floor z : era_of z = z / 146097.
Proof.
  unfold era_of. destruct (Z.leb_spec 0 z); [apply Z.quot_div_nonneg; lia|].
  pose proof (Z.quot_rem' (z - 146096) 146097). pose proof (Z.rem_bound_pos (146096 - z) 146097 ltac:(lia) ltac:(lia)).
  rewrite <- (Z.opp_involutive (z - 146096)), Z.quot_opp_l, Z.rem_opp_l in * by lia. replace (- (z - 146096)) with (146096 - z) in * by lia.
  apply Z.div_unique with (146096 - Z.rem (146096 - z) 146097); lia.
Qed.

(** Every field of the date is within its bounds, and counts. *)
Lemma date_time_exact (unix_seconds : Z) :
  let t := date_time unix_seconds in
  1 <= month t <= 12 /\ 1 <= day t <= days_in_month (year t) (month t) /\
  0 <= hour t < 24 /\ 0 <= minute t < 60 /\ 0 <= second t < 60 /\
  unix_seconds = 86400 * days_since (year t) (month t) (day t) + 3600 * hour t + 60 * minute t + second t.
Proof.
  unfold date_time. rewrite era_floor. set (z := unix_seconds / 86400 + 719468).
  pose proof (civil_dated (z / 146097) (z - z / 146097 * 146097) ltac:(Z.div_mod_to_equations; lia)) as Hc.
  destruct (civil_of_era _ _) as [[y m] d]; cbn [year month day hour minute second]. destruct Hc as (Hm & Hd & Hc).
  do 2 (split; [done|]). repeat (split; [Z.div_mod_to_equations; lia|]). subst z. Z.div_mod_to_equations. lia.
Qed.

(** ** The text *)

(** Two digits; and a year, of at least four characters with its sign, and of exactly
    four from 0 to 9999. *)
Definition two_digits (s : string) (n : Z) : Prop := digits s /\ String.length s = 2%nat /\ decimal (as_bytes s) = n.
Definition writes_year (s : string) (y : Z) : Prop :=
  (4 <= String.length s)%nat /\ (0 <= y <= 9999 -> String.length s = 4%nat) /\
  if 0 <=? y then digits s /\ decimal (as_bytes s) = y
  else exists r, s = ("-" ++ r)%string /\ digits r /\ decimal (as_bytes r) = - y.

Lemma zeros_digits k s : digits s -> digits (String.concat "" (replicate k "0") ++ s) /\
  decimal (as_bytes (String.concat "" (replicate k "0") ++ s)) = decimal (as_bytes s) /\
  String.length (String.concat "" (replicate k "0") ++ s) = (k + String.length s)%nat.
Proof.
  intros Hs. assert (E : forall k, String.concat "" (replicate (S k) "0") = String "0" (String.concat "" (replicate k "0"))) by (by intros [|?]).
  induction k as [|k (IH1 & IH2 & IH3)]; [done|]. rewrite E. set (z := String.concat "" (replicate k "0")) in *.
  change (String "0" z ++ s)%string with (String "0" (z ++ s)). destruct IH1 as [_ IH1]. split_and!.
  - split; [done|]. unfold all_bytes. rewrite as_bytes_cons. exact IH1.
  - rewrite as_bytes_cons. change (Ascii.byte_of_ascii "0" :: as_bytes (z ++ s)) with ([x30] ++ as_bytes (z ++ s)).
    rewrite decimal_app. exact IH2.
  - cbn. by rewrite IH3.
Qed.

Lemma padded_nonneg w n : 0 <= n -> digits (padded w n) /\ decimal (as_bytes (padded w n)) = n /\ (w <= String.length (padded w n))%nat.
Proof.
  intros Hn. unfold padded. rewrite (proj2 (Z.ltb_ge n 0) Hn), Z.abs_eq by done. cbn [String.length].
  change ("" ++ ?s)%string with s. destruct (pretty_decimal n Hn) as [Hd Hv]. cbv zeta.
  destruct (zeros_digits (w - 0 - String.length (pretty.pretty n)) (pretty.pretty n) Hd) as (H1 & H2 & H3). split_and!; [done|congruence|lia].
Qed.

Lemma width_ok w n : (w = 2%nat /\ 0 <= n <= 99) \/ (w = 4%nat /\ 0 <= n <= 9999) -> String.length (padded w n) = w.
Proof.
  assert (H : forall w k, all_from (fun n => Nat.eqb (String.length (padded w n)) w) k 0 = true ->
    forall n, 0 <= n < Z.of_nat k -> String.length (padded w n) = w).
  { intros w' k Hk n' Hn. apply Nat.eqb_eq. by apply (all_from_spec (fun n => Nat.eqb (String.length (padded w' n)) w') k 0 Hk). }
  intros [[-> Hn]|[-> Hn]].
  - apply (H 2%nat 100%nat); [vm_compute; reflexivity|lia].
  - apply (H 4%nat (Z.to_nat 10000)); [vm_compute; reflexivity|lia].
Qed.

Lemma padded_two n : 0 <= n <= 99 -> two_digits (padded 2 n) n.
Proof. intros Hn. destruct (padded_nonneg 2 n ltac:(lia)) as (H1 & H2 & _). split; [done|]. split; [by apply width_ok; left|done]. Qed.

Lemma padded_year y : writes_year (padded 4 y) y.
Proof.
  unfold writes_year. destruct (Z.leb_spec 0 y) as [Hy|Hy].
  - destruct (padded_nonneg 4 y Hy) as (H1 & H2 & H3). split_and!; try done. intros ?. by apply width_ok; right.
  - unfold padded. rewrite (proj2 (Z.ltb_lt y 0) Hy), Z.abs_neq by lia. cbv zeta. change (String.length "-") with 1%nat.
    destruct (pretty_decimal (- y) ltac:(lia)) as [Hd Hv].
    destruct (zeros_digits (4 - 1 - String.length (pretty.pretty (- y))) (pretty.pretty (- y)) Hd) as (H1 & H2 & H3).
    set (r := (String.concat "" _ ++ pretty.pretty (- y))%string) in *. split; [change (4 <= S (String.length r))%nat; lia|].
    split; [lia|]. exists r. split; [done|]. split; [done|congruence].
Qed.

(** C32: a timestamp names the second it was made from. For every clock value, before or
    after 1970, the text is a year of at least four characters, and a month, a day, an
    hour, a minute and a second of exactly two digits, in this order and with the
    separators of RFC 3339 in UTC; read back as decimals, the month and the day exist in
    that year of the Gregorian calendar, the time of day is within its bounds, and
    counting the days of the years and months before it and the seconds of the day gives
    the clock value back. *)
Theorem timestamp_exact (unix_seconds : Z) :
  exists ys ms ds hs mins ss y m d h min s,
    rfc3339_utc unix_seconds = (ys ++ "-" ++ ms ++ "-" ++ ds ++ "T" ++ hs ++ ":" ++ mins ++ ":" ++ ss ++ "Z")%string /\
    writes_year ys y /\ two_digits ms m /\ two_digits ds d /\ two_digits hs h /\ two_digits mins min /\ two_digits ss s /\
    1 <= m <= 12 /\ 1 <= d <= days_in_month y m /\ 0 <= h < 24 /\ 0 <= min < 60 /\ 0 <= s < 60 /\
    unix_seconds = 86400 * days_since y m d + 3600 * h + 60 * min + s.
Proof.
  destruct (date_time_exact unix_seconds) as (Hm & Hd & Hh & Hmin & Hs & E). set (t := date_time unix_seconds) in *.
  assert (Hdm : days_in_month (year t) (month t) <= 31).
  { unfold days_in_month. destruct (_ =? 2); [by destruct (leap _)|]. by destruct (existsb _ _). }
  exists (padded 4 (year t)), (padded 2 (month t)), (padded 2 (day t)), (padded 2 (hour t)), (padded 2 (minute t)), (padded 2 (second t)).
  exists (year t), (month t), (day t), (hour t), (minute t), (second t). split; [done|].
  split; [apply padded_year|]. do 5 (split; [apply padded_two; lia|]). done.
Qed.
