(* ===== verification/Outcome.v ===== *)
(** * What a cell reported ([crates/celln-cli/src/dispatch_outcome.rs], [dispatch.rs])

    The guest's pilot prints frames on the console; the dispatcher reads them back once
    the cell is gone and decides what happened. The frames are those of
    [celln-pilot/src/dispatch_report.rs]. What [serde_json]'s stream reader makes of the
    start of a line is the parameter [next_frame]; the debug form of strings is
    [debug]. *)

From S2P Require Import Prelude Text Spec.
From S2P Require Closure Control.

(** ** The guest's frames *)

Definition PREFIX : string := "CELLN:dispatch=".
Definition PROTOCOL : string := "CELLN:dispatch-protocol=5".
Definition ALIVE : string := "CELLN:pilot=alive".

Record ExecutionGrant : Type := mkGrant { tool : string; lane : string; workspace : option string; fetch : bool }.
Inductive Frame : Type :=
| Started (grant : ExecutionGrant)
| Inputs (hashes : list string)
| Output (data : bytes)
| Exit (code : Z)
| Signal (signal : Z)
| FrameFailed (reason : string).

Definition frame_kind (f : Frame) : string :=
  match f with
  | Started _ => "started"
  | Inputs _ => "inputs"
  | Output _ => "output"
  | Exit _ => "exit"
  | Signal _ => "signal"
  | FrameFailed _ => "failed"
  end.

(** ** The outcome of a launch *)

Record Provenance : Type := mkProvenance {
  p_hash : string;
  p_publisher : string;
  p_toolfs : string;
  p_members : gmap string Closure.Member;
}.
Record SubstrateIdentity : Type := mkIdentity {
  s_closure : option Provenance;
  s_kernel : string;
  s_initrd : string;
  s_toolfs : string;
  s_invocation : string;
}.
Record BrokerActivity : Type := mkActivity { requests : Z; denied : Z; response_bytes : Z }.
Record CellEvent : Type := mkEvent { e_phase : string; e_at : string; e_observed : Z }.
Record LaunchOutcome : Type := mkOutcome {
  execution : option ExecutionGrant;
  substrate : option SubstrateIdentity;
  broker : BrokerActivity;
  lifecycle : list CellEvent;
  input_hashes : list string;
  cell_id : string;
  output : option bytes;
  denial : option string;
  exit_code : option Z;
  signal : option Z;
  timed_out : bool;
}.

Definition succeeded (o : LaunchOutcome) : bool :=
  bool_decide (exit_code o = Some 0) && negb (is_Some_bool (signal o)) && negb (timed_out o)
  && negb (is_Some_bool (denial o)).

(** ** Console text *)

Definition newline : ascii := "010".
Definition carriage : string := String "013" "".

(** [s.lines()]: a final line without its end keeps its carriage return. *)
Fixpoint line_ends (l : list string) : list string :=
  match l with
  | [] => []
  | [s] => if str_is_empty s then [] else [s]
  | s :: l => default s (strip_suffix carriage s) :: line_ends l
  end.
Definition lines (s : string) : list string := line_ends (split_char newline s).

(** [s.chars()], each as its bytes. *)
Fixpoint chars_fuel (fuel : nat) (b : bytes) : list bytes :=
  match fuel, b with
  | S fuel, _ :: _ => let n := (char_at b).2 in take n b :: chars_fuel fuel (drop n b)
  | _, _ => []
  end.
Definition chars (s : string) : list bytes := chars_fuel (String.length s) (as_bytes s).
Definition ellipsis : bytes := [xe2; x80; xa6].

Definition excerpt (line : string) : string :=
  let text := (fun c => if has_control c then [x20] else c) <$> chars line in
  from_utf8 (if (160 <? length text)%nat then concat (take 160 text) ++ ellipsis else concat text).

(** The characters from the [column - 100]th on; past the end, the whole line. *)
Definition excerpt_around (line : string) (column : option Z) : string :=
  match column with
  | Some c =>
      if 100 <? c then
        let l := chars line in
        let at_ := Z.to_nat (c - 100) in
        let rest := if (at_ <? length l)%nat then concat (drop at_ l) else as_bytes line in
        from_utf8 (ellipsis ++ as_bytes (excerpt (from_utf8 rest)))
      else excerpt line
  | None => excerpt line
  end.

(** [s.contains(p)] for a text. *)
Fixpoint contains_str (p s : string) : bool :=
  starts_with p s || match s with EmptyString => false | String _ s => contains_str p s end.

Definition extends_marker (b : byte) : bool := is_alnum b || bool_decide (b ∈ [x3d; x2d; x5f; x2e]).
Definition marker (line expected : string) : bool :=
  match strip_prefix expected line with
  | Some rest => match as_bytes rest with b :: _ => negb (extends_marker b) | [] => true end
  | None => false
  end.

Fixpoint skip_while {A} (p : A -> bool) (l : list A) : list A :=
  match l with x :: r => if p x then skip_while p r else l | [] => [] end.

Section report.
Context (next_frame : string -> option (result (string * Z) (Frame * Z))) (debug : string -> string).

(** [{:?}] of an [Option<String>] and of a [Vec<String>]. *)
Definition debug_option (o : option string) : string :=
  match o with Some s => ("Some(" ++ debug s ++ ")")%string | None => "None" end.
Definition debug_list (l : list string) : string := ("[" ++ String.concat ", " (debug <$> l) ++ "]")%string.

Definition negotiated (console : string) : result string unit :=
  let pilot := skip_while (fun l => negb (marker l ALIVE))
    (filter (fun l => starts_with "CELLN:" l = true) (lines console)) in
  let first := head pilot in
  let second := head (tail pilot) in
  if is_Some_bool first && match second with Some l => marker l PROTOCOL | None => false end then Ok tt else
  let head := excerpt <$> take 3 (filter (fun l => blank l = false) (lines console)) in
  Err ("pilot startup negotiation missing or unreadable (" ++ pretty.pretty (length (lines console))
       ++ " console lines; first pilot lines " ++ debug_option (excerpt <$> first) ++ ", "
       ++ debug_option (excerpt <$> second) ++ "; console head " ++ debug_list head ++ ")")%string.

(** [parse_frame_at]: text after a frame may not carry another one. *)
Definition parse_frame_at (json : string) : result (string * option Z) Frame :=
  match next_frame json with
  | None => Err ("empty frame", None)
  | Some (Err (error, column)) => Err (error, Some column)
  | Some (Ok (frame, offset)) =>
      let rest := from_utf8 (drop (Z.to_nat offset) (as_bytes json)) in
      let b := as_bytes rest in
      if contains_str PREFIX rest || bool_decide (head (trim_start_ws (length b) b) = Some x7b)
      then Err ("trailing frame data", Some offset) else Ok frame
  end.

Definition parse_frame (json : string) : result string Frame := map_err fst (parse_frame_at json).

Definition REPORT_DENIAL : string := "missing, ambiguous, or incomplete pilot execution report".

(** The state of the loop of [parse_report]. *)
Record Reading : Type := mkReading {
  r_execution : option ExecutionGrant;
  r_inputs : list string;
  r_output : bytes;
  r_denial : option string;
  r_exit : option Z;
  r_signal : option Z;
  terminal : bool;
  inputs_seen : bool;
  output_seen : bool;
  defect : option string;
}.

(** [defect.get_or_insert(cause)]. *)
Definition flaw (r : Reading) (cause : string) : Reading :=
  let '(mkReading e i o d x s t sn os f) := r in mkReading e i o d x s t sn os (Some (default cause f)).

Definition read_frame (limit : Z) (r : Reading) (frame : Frame) : Reading :=
  let '(mkReading e i o d x s t sn os f) := r in
  let odd := flaw r (frame_kind frame ++ " frame out of order or out of range")%string in
  match frame with
  | Started grant =>
      if negb (is_Some_bool e) && negb os then mkReading (Some grant) i o d x s t sn os f else odd
  | Inputs hashes =>
      if negb sn && negb os && negb (is_Some_bool e) && (length hashes <=? 16)%nat
      then mkReading e hashes o d x s t true os f else odd
  | Output data =>
      mkReading e i (o ++ take_bytes (Z.max 0 (limit - blen o)) data) d x s t sn true f
  | Exit code =>
      if (0 <=? code) && (code <=? 255) then
        mkReading e i o (if code =? 0 then d else Some ("guest exited with code " ++ pretty.pretty code)%string)
          (Some code) s true sn os f
      else odd
  | Signal n =>
      if (1 <=? n) && (n <=? 64) then
        mkReading e i o (Some ("guest terminated by signal " ++ pretty.pretty n)%string) x (Some n) true sn os f
      else odd
  | FrameFailed reason => mkReading e i o (Some reason) x s true sn os f
  end.

Definition read_line (limit : Z) (r : Reading) (line : string) : Reading :=
  match strip_prefix PREFIX line with
  | None => r
  | Some json =>
      if terminal r then flaw r ("frame after the terminal frame: " ++ excerpt json)%string else
      match parse_frame_at json with
      | Ok frame => read_frame limit r frame
      | Err (error, column) =>
          flaw r ("unreadable dispatch frame (" ++ error ++ "): " ++ excerpt_around json column)%string
      end
  end.

Definition parse_report (console cell_id : string) (limit : Z) (timed_out shutdown : bool) : LaunchOutcome :=
  let start := mkReading None [] [] None None None false false false
    (match negotiated console with Err cause => Some cause | Ok _ => None end) in
  let r := foldl (read_line limit) start (lines console) in
  let denial :=
    if timed_out then Some "guest execution timed out" else
    match defect r with
    | Some defect => Some (REPORT_DENIAL ++ ": " ++ defect)%string
    | None =>
        if negb (terminal r) then Some (REPORT_DENIAL ++ ": no terminal frame")%string
        else if negb shutdown then Some (REPORT_DENIAL ++ ": guest ended without a clean shutdown")%string
        else r_denial r
    end in
  let invalid := is_Some_bool (defect r) in
  mkOutcome (if invalid then None else r_execution r) None (mkActivity 0 0 0) []
    (if invalid then [] else r_inputs r) cell_id (Some (r_output r)) denial
    (if invalid then None else r_exit r) (if invalid then None else r_signal r) timed_out.

(** ** The verdict of the host ([dispatch.rs]) *)

(** How a boot run ended. *)
Inductive BootEnd : Type := Shutdown | TimedOut | Halted | Parked.

(** The workspace right as the guest names it. *)
Definition workspace_name (w : WorkspaceAccess) : string :=
  match w with WNone => "none" | ReadOnly => "read-only" | ReadWrite => "read-write" end.

(** The grant that the pilot installed is the one that was requested. *)
Definition grant_agrees (request : ExecutionRequest) (broker_attached : bool) (g : ExecutionGrant) : bool :=
  bool_decide (workspace g = Some (workspace_name (c_workspace (capabilities request))))
  && Bool.eqb (fetch g) (broker_attached || negb (bool_decide (c_egress (capabilities request) = [])))
  && (String.eqb (lane g) "agent" || String.eqb (lane g) "tool")
  && negb (bool_decide (e_lane (Spec.execution request) = LaneAgent) && negb (String.eqb (lane g) "agent")).

(** What [run_cell_with_broker] makes of the report once the cell has run. *)
Definition adjudicate (request : ExecutionRequest) (broker_attached : bool) (activity : BrokerActivity)
    (stopped : option Control.Stopped) (lifecycle : list CellEvent) (outcome : LaunchOutcome) : LaunchOutcome :=
  let '(mkOutcome grant sub _ _ inputs id out why code sig late) := outcome in
  let why := match stopped with Some reason => Some (Control.stopped_to_string reason) | None => why end in
  let '(grant, why) :=
    match grant with
    | Some g =>
        if grant_agrees request broker_attached g then (grant, why)
        else (None, Some "executed authority report mismatch")
    | None =>
        (None, if is_Some_bool code || is_Some_bool sig then Some "missing pilot execution grant report" else why)
    end in
  let '(inputs, why) :=
    if bool_decide (inputs = i_hash <$> Spec.inputs request) then (inputs, why)
    else ([], Some (default "input delivery report mismatch" why)) in
  mkOutcome grant sub activity lifecycle inputs id out why code sig late.

Definition run_cell_with_broker (request : ExecutionRequest) (broker_attached : bool) (cell_id console : string)
    (ended : BootEnd) (activity : BrokerActivity) (stopped : option Control.Stopped)
    (lifecycle : list CellEvent) : LaunchOutcome :=
  adjudicate request broker_attached activity stopped lifecycle
    (parse_report console cell_id (c_output_bytes (capabilities request))
      (match ended with TimedOut => true | _ => false end) (match ended with Shutdown => true | _ => false end)).

Definition validate_executed_tool (outcome : LaunchOutcome) (expected : string) : LaunchOutcome :=
  let '(mkOutcome grant sub act life inputs id out why code sig late) := outcome in
  match grant with
  | Some g =>
      if String.eqb (tool g) expected then outcome
      else mkOutcome None sub act life inputs id out (Some "executed tool report mismatch") code sig late
  | None => outcome
  end.

(** The end of [run_prepared]: the substrate that ran is recorded, then the program. *)
Definition run_prepared (identity : SubstrateIdentity) (program_hash : string) (outcome : LaunchOutcome) : LaunchOutcome :=
  let '(mkOutcome grant _ act life inputs id out why code sig late) := outcome in
  validate_executed_tool (mkOutcome grant (Some identity) act life inputs id out why code sig late) program_hash.

(** [collect_result] of [dispatch_http.rs]: guest success and the persistence of its
    output are separate facts; [put] stores bytes and answers their hash. *)
Definition collect_result (put : bytes -> option string) (outcome : LaunchOutcome)
    : ExecutionPhase * option ExecutionOutput * option string :=
  let verdict := if succeeded outcome then Succeeded else Failed in
  match output outcome with
  | Some ((_ :: _) as b) =>
      match put b with
      | Some hash => (verdict, Some (mkOutput hash "application/octet-stream" (blen b)), denial outcome)
      | None =>
          let prefix := match denial outcome with Some s => (s ++ "; ")%string | None => "" end in
          (Failed, None, Some (prefix ++ "output persistence failed")%string)
      end
  | _ => (verdict, None, denial outcome)
  end.

(** ** What a successful report looks like *)

(** The line is the marker, alone or before a character that cannot extend it. *)
Definition name_chars : string := "0123456789abcdefghijklmnopqrstuvwxyzABCDEFGHIJKLMNOPQRSTUVWXYZ=-_.".
Definition announces (line expected : string) : Prop :=
  exists rest, line = (expected ++ rest)%string /\ forall c r, rest = String c r -> c ∉ String.list_ascii_of_string name_chars.

(** The first line that announces the pilot is followed by the protocol's before the
    guest says anything else, a frame or another line; only the kernel may speak between.
    What comes before is the guest's init, before the pilot runs. *)
Definition negotiation (console : string) : Prop :=
  exists before alive kernel protocol after, lines console = before ++ alive :: kernel ++ protocol :: after /\
    Forall (fun l => ~ announces l ALIVE) before /\ announces alive ALIVE /\
    Forall (fun l => forall r, l <> ("CELLN:" ++ r)%string) kernel /\ announces protocol PROTOCOL.

Lemma extends_marker_spec c : extends_marker (Ascii.byte_of_ascii c) = true <-> c ∈ String.list_ascii_of_string name_chars.
Proof.
  rewrite <- (bool_decide_eq_true (c ∈ _)). apply eq_iff_eq_true. destruct c as [[] [] [] [] [] [] [] []]; vm_compute; reflexivity.
Qed.

Lemma marker_spec line expected : marker line expected = true <-> announces line expected.
Proof.
  unfold marker, announces. destruct (strip_prefix expected line) as [rest|] eqn:E.
  - apply strip_prefix_Some in E as ->. assert (Hr : forall r', (expected ++ rest = expected ++ r')%string <-> r' = rest).
    { intros r'. split; [|by intros ->]. intros E. pose proof (strip_prefix_app expected r') as Ha. rewrite <- E, strip_prefix_app in Ha. congruence. }
    setoid_rewrite Hr. destruct rest as [|c rest]; [naive_solver|]. change (as_bytes (String c rest)) with (Ascii.byte_of_ascii c :: as_bytes rest).
    rewrite negb_true_iff, <- not_true_iff_false, extends_marker_spec. naive_solver.
  - split; [done|]. intros (rest & -> & _). by rewrite strip_prefix_app in E.
Qed.

Lemma guest_line l : starts_with "CELLN:" l = false <-> forall r, l <> ("CELLN:" ++ r)%string.
Proof.
  unfold starts_with. destruct (strip_prefix "CELLN:" l) as [r|] eqn:E.
  - apply strip_prefix_Some in E. split; [done|]. intros H. by destruct (H r).
  - split; [|done]. intros _ r ->. by rewrite strip_prefix_app in E.
Qed.

Lemma announces_guest l : announces l ALIVE -> starts_with "CELLN:" l = true.
Proof. intros (r & -> & _). done. Qed.

(** The first two elements that a filter keeps, from the first that meets a test. *)
Lemma first_two {A} (p q : A -> bool) (l : list A) a b r : (forall x, q x = true -> p x = true) ->
  skip_while (fun x => negb (q x)) (filter (fun x => p x = true) l) = a :: b :: r ->
  exists before between after, l = before ++ a :: between ++ b :: after /\ Forall (fun x => q x = false) before /\ q a = true /\
    Forall (fun x => p x = false) between.
Proof.
  intros Hpq. induction l as [|x l IH]; [done|]. rewrite filter_cons. destruct (decide (p x = true)) as [Hp|Hp]; cbn.
  - destruct (q x) eqn:Eq; cbn.
    + intros [= -> Hb]. clear IH. exists []. cut (exists between after, l = between ++ b :: after /\ Forall (fun x => p x = false) between).
      { intros (bt & af & -> & Hf). exists bt, af. split_and!; try done. }
      clear Hp Eq. induction l as [|y l IH]; [done|]. rewrite filter_cons in Hb. destruct (decide (p y = true)) as [Hy|Hy].
      * injection Hb as -> _. by exists [], l.
      * destruct (IH Hb) as (bt & af & -> & Hf). exists (y :: bt), af. split; [done|]. constructor; [by apply not_true_iff_false|done].
    + intros (bf & bt & af & -> & Hf & ? & ?)%IH. exists (x :: bf), bt, af. split_and!; try done. by constructor.
  - intros (bf & bt & af & -> & Hf & ? & ?)%IH. exists (x :: bf), bt, af. split_and!; try done. constructor; [|done].
    apply not_true_iff_false. auto.
Qed.
Lemma two_first {A} (p q : A -> bool) before a between b after : (forall x, q x = true -> p x = true) ->
  Forall (fun x => q x = false) before -> q a = true -> Forall (fun x => p x = false) between -> p b = true ->
  skip_while (fun x => negb (q x)) (filter (fun x => p x = true) (before ++ a :: between ++ b :: after)) =
  a :: b :: filter (fun x => p x = true) after.
Proof.
  intros Hpq Hf Ha Hb Hp. induction Hf as [|x bf Hx _ IH]; cbn [app].
  - rewrite filter_cons_True by auto. cbn. rewrite Ha. cbn. f_equal. induction Hb as [|y bt Hy _ IH]; cbn [app].
    + by rewrite filter_cons_True.
    + rewrite filter_cons_False by congruence. done.
  - rewrite filter_cons. destruct (decide _); [|done]. cbn. by rewrite Hx.
Qed.

(** The frames of a console, when each of its frame lines can be read. *)
Definition reported (console : string) (fs : list Frame) : Prop :=
  Forall2 (fun json f => parse_frame_at json = Ok f) (omap (strip_prefix PREFIX) (lines console)) fs.

(** The acknowledgement of the inputs, which may be missing when there are none. *)
Definition acknowledges (pre : list Frame) (hashes : list string) : Prop :=
  (pre = [] /\ hashes = []) \/ (pre = [Inputs hashes] /\ (length hashes <= 16)%nat).

(** [read_line] on the text after the prefix. *)
Definition read_json (limit : Z) (r : Reading) (json : string) : Reading :=
  if terminal r then flaw r ("frame after the terminal frame: " ++ excerpt json)%string else
  match parse_frame_at json with
  | Ok frame => read_frame limit r frame
  | Err (error, column) =>
      flaw r ("unreadable dispatch frame (" ++ error ++ "): " ++ excerpt_around json column)%string
  end.

Lemma read_lines limit l r : foldl (read_line limit) r l = foldl (read_json limit) r (omap (strip_prefix PREFIX) l).
Proof. revert r. induction l as [|x l IH]; intros r; cbn [foldl]; [done|]. rewrite IH. unfold omap. cbn [list_omap]. unfold read_line. by destruct (strip_prefix PREFIX x). Qed.

(** What was read when nothing was wrong: the acknowledgement, the grant, the output,
    one terminal frame, in this order. *)
Record shape (limit : Z) (fs : list Frame) (r : Reading) : Prop := {
  shape_frames : exists pre st outs term,
    fs = pre ++ st ++ (Output <$> outs) ++ term /\
    acknowledges pre (r_inputs r) /\ (inputs_seen r = false -> pre = [] /\ r_inputs r = []) /\
    st = option_list (Started <$> r_execution r) /\
    output_seen r = negb (bool_decide (outs = [])) /\ r_output r = take_bytes limit (concat outs) /\
    match term with
    | [] => terminal r = false /\ r_denial r = None /\ r_exit r = None /\ r_signal r = None
    | [Exit c] => terminal r = true /\ r_exit r = Some c /\ r_signal r = None /\ (r_denial r = None <-> c = 0)
    | [t] => terminal r = true /\ r_exit r = None
    | _ => False
    end
}.

Lemma take_more limit (a b : bytes) :
  take_bytes limit a ++ take_bytes (Z.max 0 (limit - blen (take_bytes limit a))) b = take_bytes limit (a ++ b).
Proof.
  unfold take_bytes, blen. rewrite take_app. f_equal. f_equal. rewrite length_take. lia.
Qed.

Lemma flaw_defect r cause : defect (flaw r cause) <> None.
Proof. by destruct r. Qed.

Lemma read_json_sticky limit r json : defect (read_json limit r json) = None -> defect r = None.
Proof.
  destruct r as [e i o d x s t sn os [f|]]; [|done]. unfold read_json; cbn. destruct t; [done|].
  destruct (parse_frame_at json) as [fr|[er col]]; [|done].
  destruct fr; cbn; repeat case_match; done.
Qed.
Lemma shape_step limit fs r f json :
  shape limit fs r -> parse_frame_at json = Ok f -> defect (read_json limit r json) = None ->
  shape limit (fs ++ [f]) (read_json limit r json).
Proof.
  intros [(pre & st & outs & term & -> & Ha & Hi & -> & Ho & Hout & Ht)] Hp.
  destruct r as [e i o d x s t sn os df]; cbn in *. unfold read_json; cbn. destruct t; [by destruct df|].
  assert (term = []) as -> by (destruct term as [|[] [|]]; naive_solver). destruct Ht as (_ & -> & -> & ->). rewrite Hp, app_nil_r.
  destruct f as [g|h|data|c|n|why]; cbn.
  - destruct e, os; cbn; try by destruct df. intros _. destruct outs; [|done]. split.
    exists pre, [Started g], [], []; cbn. by rewrite app_nil_r.
  - destruct sn, os, e, (length h <=? 16)%nat eqn:El; cbn; try by destruct df. intros _. destruct outs; [|done].
    destruct (Hi eq_refl) as [-> ->]. split. exists [Inputs h], [], [], []; cbn. apply Nat.leb_le in El.
    split; [done|]. split; [by right|]. by split.
  - intros _. split. exists pre, (option_list (Started <$> e)), (outs ++ [data]), []; cbn. rewrite fmap_app, app_nil_r, <- !app_assoc.
    split; [done|]. split; [done|]. split; [done|]. split; [done|]. split; [by destruct outs|]. split; [|done].
    rewrite Hout, concat_app; cbn. rewrite app_nil_r. apply take_more.
  - destruct (_ && _) eqn:E; [|by destruct df]. intros _. split. exists pre, (option_list (Started <$> e)), outs, [Exit c]; cbn.
    rewrite <- !app_assoc. repeat (split; [done|]).
    destruct (Z.eqb_spec c 0); naive_solver.
  - destruct (_ && _) eqn:E; [|by destruct df]. intros _. split. exists pre, (option_list (Started <$> e)), outs, [Signal n]; cbn.
    by rewrite <- !app_assoc.
  - intros _. split. exists pre, (option_list (Started <$> e)), outs, [FrameFailed why]; cbn. by rewrite <- !app_assoc.
Qed.
(** The reading before any frame, of a console that was negotiated or not. *)
Definition begun (f : option string) : Reading := mkReading None [] [] None None None false false false f.

Lemma shape_all limit f jsons : defect (foldl (read_json limit) (begun f) jsons) = None ->
  exists fs, Forall2 (fun json f => parse_frame_at json = Ok f) jsons fs /\ shape limit fs (foldl (read_json limit) (begun f) jsons).
Proof.
  induction jsons as [|json l IH] using rev_ind.
  - intros _. exists []. split; [done|]. split. exists [], [], [], []. cbn. unfold take_bytes. rewrite firstn_nil.
    split; [done|]. split; [by left|]. done.
  - rewrite foldl_app. cbn. intros Hd. pose proof (read_json_sticky _ _ _ Hd) as Hd'. destruct (IH Hd') as (fs & Hf & Hs).
    destruct (parse_frame_at json) as [fr|[er col]] eqn:E.
    + exists (fs ++ [fr]). split; [apply Forall2_app; [done|by constructor]|by apply shape_step].
    + exfalso. revert Hd. unfold read_json. rewrite E. destruct (terminal _); apply flaw_defect.
Qed.

Lemma begun_defect limit f jsons : defect (foldl (read_json limit) (begun f) jsons) = None -> f = None.
Proof.
  induction jsons as [|json l IH] using rev_ind; [done|]. rewrite foldl_app. cbn. intros H%read_json_sticky. auto.
Qed.

Lemma read_outputs limit e i base d x s sn os jsons outs :
  Forall2 (fun json f => parse_frame_at json = Ok f) jsons (Output <$> outs) ->
  foldl (read_json limit) (mkReading e i (take_bytes limit base) d x s false sn os None) jsons =
  mkReading e i (take_bytes limit (base ++ concat outs)) d x s false sn (os || negb (bool_decide (outs = []))) None.
Proof.
  revert base os jsons. induction outs as [|data outs IH]; intros base os jsons Hf; cbn in Hf.
  - apply Forall2_nil_inv_r in Hf as ->. cbn. by rewrite app_nil_r, orb_false_r.
  - apply Forall2_cons_inv_r in Hf as (json & l & Hp & Hf & ->). cbn [foldl].
    unfold read_json at 2; cbn [terminal]. rewrite Hp. cbn [read_frame]. rewrite take_more, (IH _ _ _ Hf). cbn.
    by rewrite app_assoc, orb_true_r.
Qed.

Lemma read_session limit jsons pre hs g outs c :
  Forall2 (fun json f => parse_frame_at json = Ok f) jsons (pre ++ Started g :: (Output <$> outs) ++ [Exit c]) ->
  acknowledges pre hs -> 0 <= c <= 255 ->
  foldl (read_json limit) (begun None) jsons =
  mkReading (Some g) hs (take_bytes limit (concat outs))
    (if c =? 0 then None else Some ("guest exited with code " ++ pretty.pretty c)%string) (Some c) None true
    (negb (bool_decide (pre = []))) (negb (bool_decide (outs = []))) None.
Proof.
  intros Hf Ha Hc. apply Forall2_app_inv_r in Hf as (j1 & j & H1 & Hf & ->).
  apply Forall2_cons_inv_r in Hf as (js & j2 & Hs & Hf & ->).
  apply Forall2_app_inv_r in Hf as (jo & jx & Ho & Hx & ->). apply Forall2_cons_inv_r in Hx as (x & n & Hx & Hn & ->).
  apply Forall2_nil_inv_r in Hn as ->.
  assert (foldl (read_json limit) (begun None) j1 = mkReading None hs (take_bytes limit []) None None None false (negb (bool_decide (pre = []))) false None) as E.
  { unfold take_bytes. rewrite firstn_nil. destruct Ha as [[-> ->]|[-> Hl]].
    - by apply Forall2_nil_inv_r in H1 as ->.
    - apply Forall2_cons_inv_r in H1 as (a & n & Hp & Hn & ->). apply Forall2_nil_inv_r in Hn as ->.
      cbn. unfold read_json, begun; cbn. rewrite Hp. cbn. by apply Nat.leb_le in Hl as ->. }
  rewrite foldl_app, E. cbn [foldl]. unfold read_json at 2; cbn [terminal]. rewrite Hs. cbn [read_frame is_Some_bool negb andb].
  rewrite foldl_app, (read_outputs _ _ _ _ _ _ _ _ _ _ _ Ho). cbn [foldl app]. unfold read_json; cbn [terminal]. rewrite Hx.
  cbn [read_frame]. replace ((0 <=? c) && (c <=? 255)) with true by lia. done.
Qed.
(** The grant that the pilot says it installed is within what was requested and ran the
    program that was resolved. *)
Record entitled (request : ExecutionRequest) (broker_attached : bool) (program : string) (g : ExecutionGrant) : Prop := {
  entitled_workspace : workspace g = Some (workspace_name (c_workspace (capabilities request)));
  entitled_fetch : fetch g = true <-> broker_attached = true \/ c_egress (capabilities request) <> [];
  entitled_lane : lane g = "agent" \/ (lane g = "tool" /\ e_lane (Spec.execution request) = LaneTool);
  entitled_tool : tool g = program;
}.

Lemma grant_agrees_spec request attached program g :
  grant_agrees request attached g = true /\ tool g = program <-> entitled request attached program g.
Proof.
  unfold grant_agrees. rewrite !andb_true_iff, negb_true_iff, andb_false_iff, orb_true_iff, bool_decide_eq_true,
    bool_decide_eq_false, negb_false_iff, !String.eqb_eq, eqb_true_iff.
  split.
  - intros ((((Hw & Hf) & Hl) & Hx) & Ht). split; [done| | |done].
    + rewrite Hf, orb_true_iff, negb_true_iff, bool_decide_eq_false. done.
    + destruct Hx as [Hx|Hx]; [|by left]. destruct (e_lane _); [tauto|done].
  - intros [Hw Hf Hl Ht]. split; [|done]. split; [split; [split; [done|]|]|].
    + apply eq_true_iff_eq. by rewrite Hf, orb_true_iff, negb_true_iff, bool_decide_eq_false.
    + tauto.
    + destruct Hl as [Hl|[_ Hl]]; [by right|left; by rewrite Hl].
Qed.

Lemma succeeded_spec o :
  succeeded o = true <-> exit_code o = Some 0 /\ signal o = None /\ timed_out o = false /\ denial o = None.
Proof.
  unfold succeeded. rewrite !andb_true_iff, !negb_true_iff, bool_decide_eq_true.
  destruct (signal o), (denial o); cbn; naive_solver.
Qed.

(** The host's verdict only takes success away. *)
Lemma verdict_success identity program request attached activity stopped life o :
  let o' := run_prepared identity program (adjudicate request attached activity stopped life o) in
  output o' = output o /\
  (succeeded o' = true <->
   succeeded o = true /\ stopped = None /\ input_hashes o = i_hash <$> Spec.inputs request /\
   exists g, execution o = Some g /\ entitled request attached program g).
Proof.
  destruct o as [e sub act l i id out d x sg late]. cbn.
  destruct (bool_decide_reflect (i = i_hash <$> Spec.inputs request)) as [Hi|Hi];
    (destruct e as [g|]; cbn;
      [pose proof (grant_agrees_spec request attached program g);
       destruct (grant_agrees request attached g) eqn:Eg; cbn; [destruct (String.eqb_spec (tool g) program) as [Et|Et]|]|]);
    (split; [done|]); rewrite !succeeded_spec; cbn; destruct stopped; naive_solver.
Qed.

Lemma negotiated_spec console : negotiated console = Ok tt <-> negotiation console.
Proof.
  assert (Hpq : forall l, marker l ALIVE = true -> starts_with "CELLN:" l = true) by (intros l Hl; by apply announces_guest, marker_spec).
  assert (Hnot : forall l, ~ announces l ALIVE <-> marker l ALIVE = false) by (intros l; by rewrite <- marker_spec, not_true_iff_false).
  unfold negotiated, negotiation. setoid_rewrite <- marker_spec. setoid_rewrite <- marker_spec in Hnot.
  setoid_rewrite (Forall_iff _ _ _ (fun l => iff_sym (guest_line l))). split.
  - destruct (skip_while _ _) as [|a [|b r]] eqn:E; [done|done|]. cbn. destruct (marker b PROTOCOL) eqn:Eb; [|done]. intros _.
    destruct (first_two _ _ _ _ _ _ Hpq E) as (bf & bt & af & -> & Hf & Ha & Hb). exists bf, a, bt, b, af. split_and!; try done.
    eapply Forall_impl; [exact Hf|]. cbn. intros l. by rewrite not_true_iff_false.
  - intros (bf & a & bt & b & af & -> & Hf & Ha & Hb & Eb). rewrite (two_first _ _ _ _ _ _ _ Hpq); [|..|].
    + cbn. by rewrite Eb.
    + eapply Forall_impl; [exact Hf|]. cbn. intros l. by rewrite not_true_iff_false.
    + done.
    + done.
    + apply marker_spec in Eb as (r & -> & _). done.
Qed.

(** What a report that parses to a success says. *)
Lemma parse_success console id limit late shutdown :
  let o := parse_report console id limit late shutdown in
  succeeded o = true ->
    negotiated console = Ok tt /\ late = false /\ shutdown = true /\
    exists pre outs, reported console (pre ++ option_list (Started <$> execution o) ++ (Output <$> outs) ++ [Exit 0]) /\
      acknowledges pre (input_hashes o) /\ output o = Some (take_bytes limit (concat outs)).
Proof.
  cbn zeta. rewrite succeeded_spec. unfold parse_report. rewrite read_lines.
  fold (begun (match negotiated console with Err cause => Some cause | Ok _ => None end)).
  set (f := match negotiated console with Err cause => Some cause | Ok _ => None end).
  pose proof (shape_all limit f (omap (strip_prefix PREFIX) (lines console))) as Hs.
  pose proof (begun_defect limit f (omap (strip_prefix PREFIX) (lines console))) as Hb.
  destruct (foldl _ _ _) as [e i out d x sg t sn os [df|]]; cbn in *; [naive_solver|].
  destruct (Hs eq_refl) as (fs & Hf & [(pre & st & outs & term & -> & Ha & _ & Hst & _ & Hout & Ht)]). cbn in *. subst st out.
  intros (-> & -> & -> & Hd). destruct t; [|done]. destruct shutdown; [|done].
  split; [unfold f in Hb; destruct (negotiated console) as [[]|]; [done|by specialize (Hb eq_refl)]|].
  do 2 (split; [done|]). exists pre, outs. destruct term as [|[] [|]]; naive_solver.
Qed.

(** C18: a launch counts as a success exactly when the guest's report says so in full: the
    first line that announces the pilot is followed by its protocol line before any frame
    or other line of the guest, every frame on the console can
    be read, and the frames are the acknowledgement of exactly the requested inputs, one
    grant within the request for exactly the resolved program, output, and an exit with
    code 0 as the only terminal frame and the last one; the guest shut down cleanly
    within its time, and nobody stopped the execution. The output is then what the guest
    wrote, up to the limit. *)
Theorem report_success (identity : SubstrateIdentity) (program : string) (request : ExecutionRequest) (attached : bool)
    (id console : string) (ended : BootEnd) (activity : BrokerActivity) (stopped : option Control.Stopped)
    (life : list CellEvent) :
  let o := run_prepared identity program
    (run_cell_with_broker request attached id console ended activity stopped life) in
  succeeded o = true <->
    negotiation console /\ ended = Shutdown /\ stopped = None /\
    exists pre g outs,
      reported console (pre ++ Started g :: (Output <$> outs) ++ [Exit 0]) /\
      acknowledges pre (i_hash <$> Spec.inputs request) /\ entitled request attached program g /\
      output o = Some (take_bytes (c_output_bytes (capabilities request)) (concat outs)).
Proof.
  cbn zeta. unfold run_cell_with_broker. set (r := parse_report _ _ _ _ _).
  rewrite <- negotiated_spec.
  destruct (verdict_success identity program request attached activity stopped life r) as [-> ->]. split.
  - intros (Hs & -> & Hi & g & Hg & He). destruct (parse_success _ _ _ _ _ Hs) as (En & _ & Hd & pre & outs & Hr & Ha & Ho).
    fold r in Hr, Ha, Ho. rewrite Hg, Hi in *. split; [done|]. split; [by destruct ended|]. split; [done|]. by exists pre, g, outs.
  - intros (En & -> & -> & pre & g & outs & Hr & Ha & He & _).
    assert (r = mkOutcome (Some g) None (mkActivity 0 0 0) [] (i_hash <$> Spec.inputs request) id
      (Some (take_bytes (c_output_bytes (capabilities request)) (concat outs))) None (Some 0) None false) as ->.
    { unfold r, parse_report. rewrite En, read_lines, (read_session _ _ _ _ _ _ _ Hr Ha) by lia. done. }
    split; [done|]. split; [done|]. split; [done|]. by exists g.
Qed.
End report.
