(* ===== verification/Node.v ===== *)
(** * What a node can take ([crates/celln-cli/src/node.rs], parts of [dispatch.rs],
    [dispatch_inputs.rs] and [dispatch_http.rs])

    The report of a node's free capacity, the decision to admit a request on it, and the
    reservations of the work that is already admitted. What the host probes (KVM, the
    kernel, the stores) is a record of facts. *)

From S2P Require Import Prelude Text Spec.
From S2P Require Control.

(** The configured node, and what its host is found to offer. *)
Record NodeProbeArgs : Type := mkProbe {
  node_name : string; max_cells : Z; memory_bytes : Z; egress_slots : Z;
}.
Record Facts : Type := mkFacts {
  has_kvm : bool; has_virtualization : bool; has_kernel : bool; has_motes : bool; has_tools : bool;
}.

Record NodeEligibility : Type := mkNode {
  n_name : string;
  kvm : bool;
  cpu_virtualization : bool;
  guest_kernel : bool;
  mote_store : bool;
  tool_store : bool;
  live_cells : Z;
  n_max_cells : Z;
  n_memory_bytes : Z;
  n_egress_slots : Z;
}.

Definition from_probe (a : NodeProbeArgs) (f : Facts) (live : Z) : NodeEligibility :=
  mkNode (node_name a) (has_kvm f) (has_virtualization f) (has_kernel f) (has_motes f) (has_tools f) live (max_cells a)
    (if live =? 0 then memory_bytes a else 0) (if live =? 0 then egress_slots a else 0).

Definition eligible (n : NodeEligibility) : bool :=
  kvm n && cpu_virtualization n && guest_kernel n && mote_store n && tool_store n
  && (live_cells n <? n_max_cells n) && (0 <? n_memory_bytes n).

Inductive RefusalCode : Type := InvalidRequest | Unsupported | NoEligibleNode | AtCapacity.
Inductive Admission : Type :=
| Accepted (request_id : string) (node : NodeEligibility)
| Refused (request_id : string) (node : NodeEligibility) (reason : RefusalCode) (problems : list ExecutionProblem).

(** ** Authority that can be delivered *)

Definition MAX_INPUT_BYTES : Z := 65536.

(** [inputs::validate]. *)
Definition add_input (n : option Z) (i : ExecutionInput) : option Z := n ← n; checked_add_u64 n (i_bytes i).
Definition validate_inputs (r : ExecutionRequest) : result string unit :=
  if negb (bool_decide (inputs r = [])) && bool_decide (c_workspace (capabilities r) = WNone)
  then Err "inputs require read-only or read-write workspace authority" else
  if match foldl add_input (Some 0) (inputs r) with None => true | Some n => MAX_INPUT_BYTES <? n end
     || (16 <? length (inputs r))%nat
  then Err "input budget exceeded: at most 16 inputs and 65536 bytes total" else Ok tt.

(** [check_supported_authority]; [stopped] is what [celln_control::check] finds. *)
Definition check_supported_authority (stopped : option Control.Stopped) (r : ExecutionRequest) : result string unit :=
  match stopped with
  | Some s => Err (Control.stopped_to_string s)
  | None =>
      _ ← validate_inputs r;
      if is_Some_bool (harness r) then
        (if bool_decide (request_problems r = []) then Ok tt else Err "invalid Harness binding")
      else if existsb (fun t => is_Some_bool (tr_closure t)) (tool_refs r)
              && (is_Some_bool (forge r) || negb (bool_decide (inputs r = []))
                  || negb (bool_decide (c_egress (capabilities r) = [])))
      then Err "unsupported authority: closure delivery with forge, inputs or egress"
      else if (1 <? length (tool_refs r))%nat
      then Err "unsupported authority: only the invoked tool can be delivered" else Ok tt
  end.

Definition admit_request (stopped : option Control.Stopped) (r : ExecutionRequest) (n : NodeEligibility) : Admission :=
  let refused := Refused (id r) n in
  if negb (bool_decide (request_problems r = [])) then refused InvalidRequest (request_problems r) else
  if is_err (check_supported_authority stopped r)
     || (e_require_hardware_isolation (execution r) && (negb (kvm n) || negb (cpu_virtualization n)))
  then refused Unsupported [] else
  if (n_max_cells n <=? live_cells n) || (n_memory_bytes n <? c_memory_bytes (capabilities r))
     || (negb (bool_decide (c_egress (capabilities r) = [])) && (n_egress_slots n =? 0))
  then refused AtCapacity [] else
  if negb (eligible n) then refused NoEligibleNode [] else Accepted (id r) n.

(** ** Reservations *)

Record Reservation : Type := mkReservation { r_memory : Z; r_slots : Z }.
Definition for_request (r : ExecutionRequest) : Reservation :=
  mkReservation (c_memory_bytes (capabilities r)) (if bool_decide (c_egress (capabilities r) = []) then 0 else 1).

(** [saturating_add] and [saturating_sub] of [u32] and [u64]. *)
Definition sat_add_u32 (a b : Z) : Z := Z.min (a + b) u32_max.
Definition sat_mul_u32 (a b : Z) : Z := Z.min (a * b) u32_max.
Definition sat_sub (a b : Z) : Z := Z.max 0 (a - b).

Definition charge (n : NodeEligibility) (cells memory slots : Z) : NodeEligibility :=
  let '(mkNode name a b c d e live most mem free) := n in
  mkNode name a b c d e (sat_add_u32 live cells) most (sat_sub mem memory) (sat_sub free slots).

(** One active entry of the loop of [apply_reservations]; its capacity is unknown when
    it carries no reservation. *)
Definition reserve (n : NodeEligibility) (r : option Reservation) : NodeEligibility :=
  match r with
  | Some r => charge n 1 (r_memory r) (r_slots r)
  | None =>
      let '(mkNode name a b c d e live most _ _) := n in mkNode name a b c d e (sat_add_u32 live 1) most 0 0
  end.

Definition apply_reservations (n : NodeEligibility) (active : list (option Reservation)) (other_live_cells : Z) : NodeEligibility :=
  let '(mkNode name a b c d e _ most mem free) := n in
  let known := other_live_cells =? 0 in
  foldl reserve
    (mkNode name a b c d e other_live_cells most (if known then mem else 0) (if known then free else 0)) active.

(** [current_node]: the cells of other processes, the active executions, a prewarm, and
    the parents, each with its one possible child; [parents] is what their registry
    answers: owners, memory, slots. *)
Definition current_node (a : NodeProbeArgs) (f : Facts) (other : Z) (active : list (option Reservation))
    (prewarm : option Reservation) (parents : result string (Z * Z * Z)) : NodeEligibility :=
  let n := apply_reservations (from_probe a f 0) active other in
  let n := match prewarm with Some r => charge n 1 (r_memory r) 0 | None => n end in
  match parents with
  | Ok (owners, memory, slots) => charge n (sat_mul_u32 owners 2) memory slots
  | Err _ =>
      let '(mkNode name a b c d e _ most _ _) := n in mkNode name a b c d e most most 0 0
  end.

(** ** What a report of capacity means *)

(** The memory and the slots that known reservations take. *)
Definition memory_of (l : list Reservation) : Z := foldr Z.add 0 (r_memory <$> l).
Definition slots_of (l : list Reservation) : Z := foldr Z.add 0 (r_slots <$> l).

(** Reservations that a node of this configuration can hold together. *)
Record fits (a : NodeProbeArgs) (active : list Reservation) (prewarm : option Reservation) (parents : Z * Z * Z) : Prop := {
  fits_cells : Z.of_nat (length active) + (if prewarm then 1 else 0) + 2 * parents.1.1 <= max_cells a;
  fits_memory : memory_of active + (match prewarm with Some r => r_memory r | None => 0 end) + parents.1.2 <= memory_bytes a;
  fits_slots : slots_of active + parents.2 <= egress_slots a;
}.
Definition sane (r : Reservation) : Prop := 0 <= r_memory r /\ 0 <= r_slots r.

Lemma charge_charge n c m s c' m' s' : 0 <= c' -> 0 <= m' -> 0 <= s' ->
  charge (charge n c m s) c' m' s' = charge n (c + c') (m + m') (s + s').
Proof. destruct n; cbn. intros. unfold sat_add_u32, sat_sub. f_equal; lia. Qed.

Lemma reserve_all n l : Forall sane l -> live_cells n <= u32_max -> 0 <= n_memory_bytes n -> 0 <= n_egress_slots n ->
  foldl reserve n (Some <$> l) = charge n (Z.of_nat (length l)) (memory_of l) (slots_of l).
Proof.
  induction l as [|r l IH] using rev_ind; intros Hs Hl Hm He; cbn.
  - destruct n; cbn in *. unfold sat_add_u32, sat_sub. f_equal; lia.
  - apply Forall_app in Hs as [Hs Hr]. apply Forall_singleton in Hr as [? ?].
    rewrite fmap_app, foldl_app, (IH Hs Hl Hm He). cbn. rewrite charge_charge by lia.
    unfold memory_of, slots_of. rewrite length_app, !fmap_app, !foldr_app; cbn.
    assert (forall (x : Z) k, foldr Z.add x k = foldr Z.add 0 k + x) as Hf by (intros x k; induction k; cbn; lia).
    rewrite (Hf (r_memory r + 0)), (Hf (r_slots r + 0)). f_equal; lia.
Qed.

Lemma memory_nonneg l : Forall sane l -> 0 <= memory_of l /\ 0 <= slots_of l.
Proof. unfold memory_of, slots_of. induction 1 as [|r l [? ?] _ IH]; cbn; lia. Qed.

(** A configuration and parents within machine integers. *)
Record proper (a : NodeProbeArgs) : Prop := {
  proper_cells : in_u32 (max_cells a); proper_memory : in_u64 (memory_bytes a); proper_slots : in_u32 (egress_slots a);
}.

(** The report of a node whose reservations fit is exact when no other process has a
    cell, and offers no memory otherwise. *)
Lemma current_exact a f other active prewarm parents : proper a -> 0 <= other -> Forall sane active ->
  (match prewarm with Some r => sane r | None => True end) ->
  0 <= parents.1.1 -> 0 <= parents.1.2 -> 0 <= parents.2 -> fits a active prewarm parents ->
  let n := current_node a f other (Some <$> active) prewarm (Ok parents) in
  n_max_cells n = max_cells a /\
  (other <> 0 -> n_memory_bytes n = 0) /\
  (other = 0 ->
   live_cells n = Z.of_nat (length active) + (if prewarm then 1 else 0) + 2 * parents.1.1 /\
   n_memory_bytes n = memory_bytes a - (memory_of active + (match prewarm with Some r => r_memory r | None => 0 end) + parents.1.2) /\
   n_egress_slots n = egress_slots a - (slots_of active + parents.2)).
Proof.
  destruct parents as [[owners mem] slots]. intros [Hc Hm He] Ho Hs Hp H1 H2 H3 [F1 F2 F3]. cbn in *.
  destruct (memory_nonneg active Hs) as [N1 N2].
  assert (Hw : match prewarm with Some r => 0 <= r_memory r | None => True end) by (destruct prewarm; [apply Hp|done]).
  unfold current_node, apply_reservations, from_probe. cbn -[Z.eqb].
  unfold in_u32, in_u64 in *. destruct (Z.eqb_spec other 0) as [->|Hne].
  - rewrite reserve_all by (cbn; unfold u32_max; lia || done).
    split; [by destruct prewarm|]. split; [done|]. intros _.
    destruct prewarm; cbn; unfold sat_add_u32, sat_sub, sat_mul_u32; lia.
  - assert (exists live, foldl reserve (mkNode (node_name a) (has_kvm f) (has_virtualization f) (has_kernel f) (has_motes f)
      (has_tools f) other (max_cells a) 0 0) (Some <$> active) = mkNode (node_name a) (has_kvm f) (has_virtualization f)
      (has_kernel f) (has_motes f) (has_tools f) live (max_cells a) 0 0) as (live & ->).
    { generalize other. clear -Hs. induction Hs as [|r l [? ?] _ IH]; intros o; cbn; [by eexists|].
      replace (sat_sub 0 (r_memory r)) with 0 by (unfold sat_sub; lia).
      replace (sat_sub 0 (r_slots r)) with 0 by (unfold sat_sub; lia). apply IH. }
    split; [by destruct prewarm|]. split; [|done]. intros _.
    destruct prewarm; cbn; unfold sat_sub; lia.
Qed.

Lemma request_sane r : in_u64 (c_memory_bytes (capabilities r)) -> sane (for_request r).
Proof. intros [? ?]. split; cbn; [done|]. by case_bool_decide. Qed.

(** ** Room for one more *)

Record room (n : NodeEligibility) (m s : Z) : Prop := {
  room_cell : live_cells n < n_max_cells n;
  room_memory : m <= n_memory_bytes n;
  room_open : 0 < n_memory_bytes n;
  room_slots : s <= n_egress_slots n;
}.

Lemma admit_room stopped r n i n' : 0 <= n_egress_slots n -> admit_request stopped r n = Accepted i n' ->
  room n (c_memory_bytes (capabilities r)) (r_slots (for_request r)).
Proof.
  intros Hs. unfold admit_request, eligible, for_request. cbn.
  destruct (negb _); [done|]. destruct (_ || _); [done|].
  case_bool_decide; cbn; destruct (n_max_cells n <=? live_cells n) eqn:E1; cbn; try done;
    destruct (n_memory_bytes n <? _) eqn:E2; cbn; try done; destruct (n_egress_slots n =? 0) eqn:E3; cbn; try done;
    destruct (kvm n), (cpu_virtualization n), (guest_kernel n), (mote_store n), (tool_store n); cbn; try done;
    destruct (live_cells n <? n_max_cells n) eqn:E4; cbn; try done; destruct (0 <? n_memory_bytes n) eqn:E5; cbn; try done;
    intros _; split; lia.
Qed.

Section taken.
Context (a : NodeProbeArgs) (f : Facts) (other : Z) (active : list Reservation) (prewarm : option Reservation)
  (parents : Z * Z * Z).
Context (Ha : proper a) (Ho : 0 <= other) (Hs : Forall sane active)
  (Hp : match prewarm with Some r => sane r | None => True end)
  (H1 : 0 <= parents.1.1) (H2 : 0 <= parents.1.2) (H3 : 0 <= parents.2) (Hf : fits a active prewarm parents).
Let n := current_node a f other (Some <$> active) prewarm (Ok parents).

Lemma room_exact m s : room n m s ->
  Z.of_nat (length active) + (if prewarm then 1 else 0) + 2 * parents.1.1 < max_cells a /\
  memory_of active + (match prewarm with Some r => r_memory r | None => 0 end) + parents.1.2 + m <= memory_bytes a /\
  slots_of active + parents.2 + s <= egress_slots a.
Proof.
  intros [R1 R2 R3 R4]. destruct (current_exact a f other active prewarm parents Ha Ho Hs Hp H1 H2 H3 Hf) as (E1 & E2 & E3).
  fold n in E1, E2, E3. destruct (Z.eq_dec other 0) as [E|E]; [|specialize (E2 E); lia]. destruct (E3 E) as (E4 & E5 & E6). lia.
Qed.

Lemma slots_nonneg : 0 <= n_egress_slots n.
Proof.
  unfold n, current_node. destruct parents as [[o m] s]. unfold charge. destruct prewarm; destruct (apply_reservations _ _ _); cbn; unfold sat_sub; lia.
Qed.

Lemma fits_execution m s : room n m s -> fits a (mkReservation m s :: active) prewarm parents.
Proof.
  intros (R1 & R2 & R3)%room_exact. unfold memory_of, slots_of in *. split; cbn; lia.
Qed.

Lemma fits_prewarm r : prewarm = None -> room n (r_memory r) 0 -> fits a active (Some r) parents.
Proof. intros E R. destruct (room_exact _ _ R) as (R1 & R2 & R3). rewrite E in R1, R2. split; cbn in *; lia. Qed.

Lemma fits_parent m s : 2 <= n_max_cells n - live_cells n -> 0 < m -> m <= n_memory_bytes n -> s <= n_egress_slots n ->
  fits a active prewarm (parents.1.1 + 1, parents.1.2 + m, parents.2 + s).
Proof.
  intros R1 R2 R3 R4. destruct (current_exact a f other active prewarm parents Ha Ho Hs Hp H1 H2 H3 Hf) as (E1 & E2 & E3).
  fold n in E1, E2, E3. destruct (Z.eq_dec other 0) as [E|E]; [|specialize (E2 E); lia]. destruct (E3 E) as (E4 & E5 & E6).
  split; cbn; lia.
Qed.
End taken.
