(* ===== verification/ExecJournal.v ===== *)
(** * The dispatcher's journal ([crates/celln-cli/src/dispatch_journal.rs])

    One record for each execution identity: the claim written before anything runs,
    and the terminal record that replaces it. Records are never removed, and neither is
    an admitted identity: an interrupted claim is not evidence of teardown and never
    authorises another execution. *)

From S2P Require Import Prelude Text Json Manifest Spec Host.

(** [ExecutionRecord] of [dispatch_http.rs]. *)
Record ExecutionRecord : Type := mkRecord {
  request_id : string;
  phase : string;
  reason : option string;
  output : option string;
  receipt : option ExecutionReceipt;
}.
Record Snapshot : Type := mkSnapshot {
  version : Z;
  request_hash : string;
  record : ExecutionRecord;
  audit : Value;
}.

(** [execution_is_active]. *)
Definition terminal_phase (p : string) : bool := existsb (String.eqb p) ["Succeeded"; "Failed"; "Refused"; "Cancelled"].
Definition execution_is_active (r : ExecutionRecord) : bool := negb (terminal_phase (phase r)).

(** [{:?}] of a receipt's phase. *)
Definition phase_name (p : ExecutionPhase) : string :=
  match p with Succeeded => "Succeeded" | Spec.Failed => "Failed" | Cancelled => "Cancelled" end.

Definition CAPACITY : Z := 100000.
Definition MAX_BYTES : Z := 16 * 1024 * 1024.

Definition directory (root : string) : string := (root ++ "/execution-journal")%string.

Section journal.
Context `{Blake3} `{Json Snapshot}.

Definition path (root id : string) : Path :=
  (directory root, (trim_start_matches "blake3:" (hash_of (as_bytes id)) ++ ".json")%string).

(** [prepare]: the directory is made, and it and its ancestors are synced. *)
Definition prepare : IO unit := _ ← sys; _ ← sys; sys.

(** A snapshot that belongs to the identity that it was found under. *)
Definition belongs (id : string) (s : Snapshot) : bool :=
  (version s =? 1) && String.eqb (request_id (record s)) id
  && match receipt (record s) with
     | Some r => String.eqb (rc_request_id r) id && String.eqb (phase_name (rc_phase r)) (phase (record s))
     | None => true
     end.

Definition read (root id : string) : IO (option Snapshot) :=
  f ← open_file (path root id);
  match f with
  | None => mret None
  | Some f =>
      b ← read_file f (MAX_BYTES + 1);
      _ ← guard (negb (MAX_BYTES <? blen b)) Failed;
      s ← need (from_slice b);
      _ ← guard (belongs id s) Failed;
      _ ← sys; _ ← sys; mret (Some s)
  end.

Definition publish (root : string) (s : Snapshot) (fresh : bool) : IO unit :=
  let b := to_vec s in
  _ ← guard (negb (MAX_BYTES <? blen b)) Failed;
  persist (path root (request_id (record s))) b fresh.

Definition claim_with_capacity (root : string) (body : bytes) (r : ExecutionRecord) (audit : Value) (capacity : Z) : IO unit :=
  _ ← prepare;
  _ ← sys; fs ← get_files;
  count ← count_records capacity 0 (names_in (directory root) fs);
  _ ← guard (negb (capacity <=? count)) Failed;
  publish root (mkSnapshot 1 (hash_of body) r audit) true.
Definition claim (root : string) (body : bytes) (r : ExecutionRecord) (audit : Value) : IO unit :=
  claim_with_capacity root body r audit CAPACITY.

Definition complete (root : string) (r : ExecutionRecord) (audit : Value) : IO unit :=
  _ ← guard (negb (execution_is_active r)) Failed;
  o ← read root (request_id r);
  previous ← need o;
  let s := mkSnapshot 1 (request_hash previous) r audit in
  if negb (execution_is_active (record previous)) then
    _ ← guard (bool_decide (to_vec previous = to_vec s)) Failed;
    _ ← sys; sys
  else publish root s false.

(** ** What a journal keeps *)

(** The file of an identity reads as this snapshot. *)
Definition holds (root id : string) (s : Snapshot) (fs : gmap Path File) : Prop :=
  exists f, fs !! path root id = Some f /\ from_slice (content f) = Some s.

(** A terminal record stays as it is; a claim stays or is completed with a terminal
    record of the same identity and the same request. *)
Definition succeeds (s s' : Snapshot) : Prop :=
  s' = s \/
  (execution_is_active (record s) = true /\ execution_is_active (record s') = false /\
   request_hash s' = request_hash s /\ request_id (record s') = request_id (record s)).

(** Every file of the journal stays, and what a snapshot of it becomes succeeds it. *)
Definition forward (root : string) (fs fs' : gmap Path File) : Prop :=
  (forall p, p.1 = directory root -> is_Some (fs !! p) -> is_Some (fs' !! p)) /\
  forall id s, holds root id s fs -> exists s', holds root id s' fs' /\ succeeds s s'.

#[export] Instance forward_refl root : Reflexive (forward root).
Proof. intros fs. split; [done|]. intros id s Hs. exists s. split; [done|by left]. Qed.

Lemma succeeds_trans s1 s2 s3 : succeeds s1 s2 -> succeeds s2 s3 -> succeeds s1 s3.
Proof. unfold succeeds. intros [->|(A & B & C & D)] [->|(A' & B' & C' & D')]; try tauto; congruence. Qed.

#[export] Instance forward_trans root : Transitive (forward root).
Proof.
  intros a b c [K1 F1] [K2 F2]. split; [auto|]. intros id s Hs. destruct (F1 id s Hs) as (s2 & H2 & S2).
  destruct (F2 id s2 H2) as (s3 & H3 & S3). exists s3. split; [done|by eapply succeeds_trans].
Qed.

Lemma holds_det root id s s' fs : holds root id s fs -> holds root id s' fs -> s = s'.
Proof. intros (f & E & Hf) (f' & E' & Hf'). congruence. Qed.

Lemma holds_put root id s fs t : holds root id s (<[path root id := mkFile (to_vec s) t]> fs).
Proof. exists (mkFile (to_vec s) t). rewrite lookup_insert_eq. split; [done|]. apply from_to. Qed.

Lemma belongs_spec id s : belongs id s = true ->
  version s = 1 /\ request_id (record s) = id /\
  forall r, receipt (record s) = Some r -> rc_request_id r = id /\ phase_name (rc_phase r) = phase (record s).
Proof.
  unfold belongs. rewrite !andb_true_iff, Z.eqb_eq, String.eqb_eq. intros [[Hv Hi] Hr]. split; [done|]. split; [done|].
  intros r Er. rewrite Er, andb_true_iff, !String.eqb_eq in Hr. done.
Qed.

(** Filing under a free name, and completing a claim, carry the journal forward. *)
Lemma forward_fresh root p b t fs : fs !! p = None -> forward root fs (<[p := mkFile b t]> fs).
Proof.
  intros Hp. split.
  - intros q _ Hq. destruct (decide (q = p)) as [->|Hne]; [by rewrite lookup_insert_eq|by rewrite lookup_insert_ne].
  - intros id s (f & E & Hf). exists s. split; [|by left]. exists f. split; [rewrite lookup_insert_ne; [done|congruence]|done].
Qed.

Lemma forward_complete root id s s' t fs : holds root id s fs -> succeeds s s' ->
  forward root fs (<[path root id := mkFile (to_vec s') t]> fs).
Proof.
  intros Hs Hn. split.
  - intros q _ Hq. destruct (decide (q = path root id)) as [->|Hne]; [by rewrite lookup_insert_eq|by rewrite lookup_insert_ne].
  - intros id2 s2 (f & E & Hf). destruct (decide (path root id2 = path root id)) as [Ep|Hne].
    + exists s'. split; [rewrite <- Ep; apply holds_put|].
      destruct Hs as (f' & E' & Hf'). replace s2 with s by congruence. done.
    + exists s2. split; [|by left]. exists f. by rewrite lookup_insert_ne.
Qed.

(** ** What the operations do *)

Lemma wp_read_journal root id w :
  wp (read root id) w (fun r w' => later w w' /\ match r with
    | Ok (Some s) => holds root id s (files w) /\ belongs id s = true
    | Ok None => files w !! path root id = None
    | Err _ => True
    end).
Proof.
  apply wp_bind, wp_open; [|by split]. intros w1 H1. destruct (files w !! path root id) as [f|] eqn:E; [|apply wp_ret; by split].
  apply wp_bind, wp_read; [|intros w2 H2; split; [by etransitivity|done]]. intros w2 H2.
  assert (later w w2) as H02 by (by etransitivity).
  apply wp_bind, wp_guard; [|by split]. intros Hl. apply wp_bind, wp_need; [|by split]. intros s Hs.
  apply wp_bind, wp_guard; [|by split]. intros Hb.
  apply wp_bind, wp_sys; intros w3 H3; (assert (later w w3) as H03 by (by etransitivity)); [|by split].
  apply wp_bind, wp_sys; intros w4 H4; (assert (later w w4) as H04 by (by etransitivity)); [|by split].
  apply wp_ret. split; [done|]. split; [|done]. exists f. split; [done|].
  assert (blen (content f) <= MAX_BYTES) by (apply (take_bytes_le MAX_BYTES (MAX_BYTES + 1)); lia).
  rewrite take_bytes_all in Hs; [done|lia].
Qed.

Lemma wp_publish (root : string) (s : Snapshot) (fresh : bool) (w : World) (P : gmap Path File -> Prop) :
  (forall t : Z, (fresh = true -> files w !! path root (request_id (record s)) = None) ->
     P (<[path root (request_id (record s)) := mkFile (to_vec s) t]> (files w))) ->
  wp (publish root s fresh) w (fun r w' =>
    (P (files w') /\ holds root (request_id (record s)) s (files w')) \/ (files w' = files w /\ r <> Ok tt)).
Proof.
  intros HP. apply wp_bind, wp_guard; [|by right]. intros _. apply wp_persist.
  - intros w' t _ Hf [E _ _]. split; left; rewrite E; (split; [by apply HP|apply holds_put]).
  - intros w' e H'. right. split; [apply (later_files _ _ H')|done].
Qed.

(** A claim that succeeds found no file for its identity; its record is there, whatever
    the caller learns. *)
Lemma wp_claim_journal root body r audit w :
  let s := mkSnapshot 1 (hash_of body) r audit in
  wp (claim root body r audit) w (fun res w' => forward root (files w) (files w') /\
    (res = Ok tt -> files w !! path root (request_id r) = None /\ holds root (request_id r) s (files w'))).
Proof.
  cbn zeta. set (Q := fun res w' => _).
  assert (HE : forall w' e, later w w' -> Q (Err e) w') by (intros w' e H'; split; [by rewrite (later_files _ _ H')|done]).
  apply wp_bind, wp_bind, wp_sys; [intros w1 H1|by intros; apply HE].
  apply wp_bind, wp_sys; [intros w2 H2|intros w2 H2; apply HE; by etransitivity].
  assert (H02 : later w w2) by (by etransitivity).
  apply wp_sys; [intros w3 H3|intros w3 H3; apply HE; by etransitivity]. assert (H03 : later w w3) by (by etransitivity).
  apply wp_bind, wp_sys; [intros w4 H4|intros w4 H4; apply HE; by etransitivity]. assert (H04 : later w w4) by (by etransitivity).
  apply wp_bind, wp_files, wp_bind, wp_count. intros k w5 H5. assert (H05 : later w w5) by (by etransitivity).
  apply wp_bind, wp_guard; [|by intros; apply HE]. intros _.
  eapply wp_mono; [apply (wp_publish root _ true w5 (fun fs => files w !! path root (request_id r) = None /\ forward root (files w) fs))|].
  - cbn. rewrite (later_files _ _ H05). intros t Hf. split; [by apply Hf|]. by apply forward_fresh, Hf.
  - intros res w' [[[Hn Hf] Hh]|[E Hr]]; [by split|]. split; [by rewrite E, (later_files _ _ H05)|done].
Qed.

(** A completion that succeeds leaves exactly this terminal record, for the request that
    was claimed. *)
Lemma wp_complete root r audit w :
  wp (complete root r audit) w (fun res w' => forward root (files w) (files w') /\
    (res = Ok tt -> execution_is_active r = false /\ exists h s, holds root (request_id r) s (files w) /\ request_hash s = h /\
       holds root (request_id r) (mkSnapshot 1 h r audit) (files w'))).
Proof.
  apply wp_bind, wp_guard; [|by intros; split]. intros Ht%negb_true_iff.
  apply wp_bind. eapply wp_mono; [apply wp_read_journal|]. intros [o|e] w1 [H1 Ho]; [|split; [by rewrite (later_files _ _ H1)|done]].
  apply wp_bind, wp_need; [|intros _; split; [by rewrite (later_files _ _ H1)|done]]. intros s ->. destruct Ho as [Hh Hb].
  destruct (belongs_spec _ _ Hb) as (_ & Hid & _). destruct (execution_is_active (record s)) eqn:Ea; cbn [negb].
  - eapply wp_mono; [apply (wp_publish root _ false w1 (fun fs => forward root (files w) fs))|].
    + cbn. rewrite (later_files _ _ H1). intros t _. apply (forward_complete _ _ _ _ _ _ Hh). right. by cbn.
    + cbn. intros res w' [[Hf Hn]|[E Hr]]; [|split; [by rewrite E, (later_files _ _ H1)|done]].
      split; [done|]. intros _. split; [done|]. by exists (request_hash s), s.
  - apply wp_bind, wp_guard; [|intros _; split; [by rewrite (later_files _ _ H1)|done]]. intros E%bool_decide_eq_true%to_vec_inj.
    assert (HE : forall w2 w3, later w1 w2 -> later w2 w3 -> files w3 = files w).
    { intros w2 w3 H2 H3. by rewrite (later_files _ _ H3), (later_files _ _ H2), (later_files _ _ H1). }
    apply wp_bind, wp_sys; intros w2 H2; [|split; [by rewrite (HE _ _ H2 ltac:(reflexivity))|done]].
    apply wp_sys; intros w3 H3; rewrite (HE _ _ H2 H3); (split; [done|]); [|done]. intros _. split; [done|].
    exists (request_hash s), s. split; [done|]. split; [done|]. by rewrite <- E.
Qed.
End journal.
