(* ===== verification/Executions.v ===== *)
(** * Executions of the dispatcher ([crates/celln-cli/src/dispatch_http.rs],
    [dispatch_audit.rs], [dispatch_prewarm.rs])

    The registry of executions behind its lock, the audit of each, and the handlers of
    the routes that submit, cancel and inspect them. Each definition that takes a state
    and gives one back is one section under the lock; workers move in between. What the
    clocks show, what the host's probes find and what the file system does vary from
    step to step. *)

From S2P Require Import Prelude Text Json Manifest Spec Host ExecJournal Node.
From S2P Require Control Outcome Timestamp Registry.

(** ** Audits *)

Record Event : Type := mkEvent { sequence : Z; ev_at : string; ev_phase : string; observed : Z }.
Record Executed : Type := mkExecuted {
  x_cell_id : string;
  x_substrate : option Outcome.SubstrateIdentity;
  x_pilot : option Outcome.ExecutionGrant;
  x_granted : option CapabilityRequest;
  x_model_grant : option string;
  x_inputs : list string;
  x_broker : Outcome.BrokerActivity;
  x_exit_code : option Z;
  x_signal : option Z;
  x_watchdog_stopped : bool;
}.
Record Audit : Type := mkAudit {
  a_request_id : string;
  a_caller : string;
  a_workload : string;
  a_node : string;
  events : list Event;
  a_execution : option Executed;
  a_receipt : option ExecutionReceipt;
}.

(** [now_rfc3339]: a clock before 1970 counts as 1970. *)
Definition now_rfc3339 : IO string := t ← clock; mret (Timestamp.rfc3339_utc (Z.max 0 t / nanos_per_sec)).

(** [Audit::phase]: the phase the audit is in already is not repeated, and at most 32
    events are kept. *)
Definition audit_phase (a : Audit) (phase : string) (cw : Control.World) : IO (Audit * Control.World) :=
  if match last (events a) with Some e => String.eqb (ev_phase e) phase | None => false end then mret (a, cw) else
  if (length (events a) <? 32)%nat then
    t ← now_rfc3339;
    let '(o, cw) := Control.read_clock cw in
    mret (mkAudit (a_request_id a) (a_caller a) (a_workload a) (a_node a)
      (events a ++ [mkEvent (Z.of_nat (length (events a))) t phase o]) (a_execution a) (a_receipt a), cw)
  else mret (a, cw).

(** [Audit::new]. *)
Definition new_audit (r : ExecutionRequest) (node : string) (cw : Control.World) : IO (Audit * Control.World) :=
  audit_phase (mkAudit (id r) (w_caller (workload r)) (w_id (workload r)) node [] None None) "Admitting" cw.

(** [sort_by_key] is stable, and so is [merge_sort]. *)
Definition observed_le (a b : Event) : Prop := observed a <= observed b.
#[export] Instance observed_le_dec a b : Decision (observed_le a b).
Proof. unfold observed_le. apply _. Defined.
Definition add_event (l : list Event) (e : Outcome.CellEvent) : list Event :=
  if (length l <? 32)%nat
  then l ++ [mkEvent (Z.of_nat (length l)) (Outcome.e_at e) (Outcome.e_phase e) (Outcome.e_observed e)] else l.
Definition executed (a : Audit) (r : ExecutionRequest) (o : Outcome.LaunchOutcome) : Audit :=
  let sorted := merge_sort observed_le (foldl add_event (events a) (Outcome.lifecycle o)) in
  let numbered := imap (fun i e => mkEvent (Z.of_nat i) (ev_at e) (ev_phase e) (observed e)) sorted in
  let granted := is_Some_bool (Outcome.execution o) in
  mkAudit (a_request_id a) (a_caller a) (a_workload a) (a_node a) numbered
    (Some (mkExecuted (Outcome.cell_id o) (Outcome.substrate o) (Outcome.execution o)
      (if granted then Some (capabilities r) else None)
      (if granted then h_model_grant <$> harness r else None)
      (Outcome.input_hashes o) (Outcome.broker o) (Outcome.exit_code o) (Outcome.signal o) (Outcome.timed_out o)))
    (a_receipt a).

(** ** The registry *)

Record Entry : Type := mkEntry {
  at_ : Z;
  value : ExecutionRecord;
  control : option nat;
  reservation : option Reservation;
  e_audit : option Audit;
  journal_root : option string;
}.
Definition RECORD_TTL : Z := 3600 * nanos_per_sec.
Definition is_active (e : Entry) : bool := execution_is_active (value e).

(** [Entry::new]. *)
Definition new_entry (v : ExecutionRecord) (at_ : Z) : Entry := mkEntry at_ v None None None None.

Definition admitting (r : ExecutionRequest) : ExecutionRecord := mkRecord (id r) "Admitting" None None None.

(** ** Egress policy *)

Definition host_byte (b : byte) : bool := is_alnum b || bool_decide (b ∈ [x2e; x2d]).
(** [EgressPolicy::new]. *)
Definition egress_policy (allow_hosts : list string) : option (gset string) :=
  foldr (fun h acc => s ← acc;
    let h := to_ascii_lowercase h in
    if str_is_empty h || negb (all_bytes host_byte h) then None else Some ({[h]} ∪ s)) (Some ∅) allow_hosts.
Definition destination_host (d : string) : option string :=
  rest ← (match strip_prefix "https://" d with Some r => Some r | None => strip_prefix "http://" d end);
  if str_is_empty rest then None else Some (before_char ":" (before_char "/" rest)).
Definition permitted_destination (policy : gset string) (d : string) : bool :=
  match destination_host d with
  | Some host => negb (str_is_empty host) && bool_decide (to_ascii_lowercase host ∈ policy)
  | None => false
  end.
(** [EgressPolicy::check]: the first destination that is refused. *)
Definition refused_destination (policy : gset string) (r : ExecutionRequest) : option string :=
  head (filter (fun d => permitted_destination policy d = false) (c_egress (capabilities r))).

(** ** Answers *)

Inductive Body : Type :=
| BError (error : string)
| BProblems (problems : list ExecutionProblem)
| BUnsupported (detail : string)
| BEgress (destination : string)
| BRefused (error : string) (reason : RefusalCode)
| BRecord (r : ExecutionRecord)
| BAudit (v : Value)
| BVerification (report : Value).
Inductive Reply : Type := Answer (status : Z) (b : Body) | Dropped.

Definition NOT_DURABLE : string := "terminal record not durable; do not replay".
Definition INTERRUPTED : string :=
  "interrupted execution requires operator reconciliation; teardown is unproven; do not replay".
Definition JOURNAL_UNAVAILABLE : string := "execution journal unavailable; do not replay".

Section executions.
Context {O : Type} `{Registry.OwnerApi O}.

Record State : Type := mkState {
  executions : gmap string Entry;
  controls : Control.World;
  prewarm : option Reservation;
  parents : Registry.Registry O;
}.
Definition set_executions (st : State) (m : gmap string Entry) : State := mkState m (controls st) (prewarm st) (parents st).
Definition set_controls (st : State) (cw : Control.World) : State := mkState (executions st) cw (prewarm st) (parents st).

Context `{Blake3} `{Json Snapshot} (audit_value : Audit -> Value).
Context (root : string) (probe : NodeProbeArgs) (policy : gset string).

Definition persist_terminal (e : Entry) : IO unit :=
  if is_active e then mret tt else
  match journal_root e with
  | Some root => a ← need (e_audit e); complete root (value e) (audit_value a)
  | None => mret tt
  end.

Definition reply_entry (e : Entry) (audit : bool) : IO Reply :=
  p ← catch (persist_terminal e);
  match p with
  | Err _ => mret (Answer 503 (BError NOT_DURABLE))
  | Ok _ =>
      mret (if audit then
              match e_audit e with
              | Some a => Answer 200 (BAudit (audit_value a))
              | None => Answer 404 (BError "unknown execution audit")
              end
            else Answer 200 (BRecord (value e)))
  end.

Definition reply_snapshot (s : Snapshot) (want_audit : bool) : Reply :=
  if execution_is_active (record s) then Answer 503 (BError INTERRUPTED) else
  if want_audit then Answer 200 (BAudit (audit s)) else Answer 200 (BRecord (record s)).

Definition reply_archived (id : string) (want_audit : bool) : IO Reply :=
  s ← catch (read root id);
  mret (match s with
        | Ok (Some s) => reply_snapshot s want_audit
        | Ok None => Answer 404 (BError "unknown execution")
        | Err _ => Answer 503 (BError JOURNAL_UNAVAILABLE)
        end).

(** ** Updates by workers *)

(** What a worker writes to its record; [Ran] writes to the audit alone, [Report] is the
    last word of a scoped worker. *)
Inductive Update : Type :=
| Phase (phase : string)
| Refuse (reason : string)
| Fail (reason : string)
| Ran (r : ExecutionRequest) (o : Outcome.LaunchOutcome)
| Finish (phase : ExecutionPhase) (reason : option string) (output : option string) (receipt : ExecutionReceipt)
| Report (phase : string) (reason : option string) (output : option string).

Definition apply_update (u : Update) (r : ExecutionRecord) : ExecutionRecord :=
  let '(mkRecord id phase reason output receipt) := r in
  match u with
  | Phase p => mkRecord id p reason output receipt
  | Refuse why => mkRecord id "Refused" (Some why) output receipt
  | Fail why => mkRecord id "Failed" (Some why) output receipt
  | Ran _ _ => r
  | Finish p why out rc => mkRecord id (phase_name p) why out (Some rc)
  | Report p why out => mkRecord id p why out receipt
  end.

(** A stop that the control observed decides the terminal phase. *)
Definition stop_phase (s : Control.Stopped) : ExecutionPhase :=
  match s with Control.Cancelled => Cancelled | Control.Deadline => Spec.Failed end.
Definition with_phase (p : ExecutionPhase) (r : ExecutionReceipt) : ExecutionReceipt :=
  mkReceipt (rc_api_version r) (rc_request_id r) p (rc_node r) (rc_cell_id r) (rc_resolved r) (rc_output r)
    (rc_started_at r) (rc_completed_at r).
Definition settle (stopped : option Control.Stopped) (r : ExecutionRecord) : ExecutionRecord :=
  let '(mkRecord id phase reason output receipt) := r in
  match stopped with
  | Some s =>
      if negb (execution_is_active r) then
        mkRecord id (phase_name (stop_phase s)) (Some (Control.stopped_to_string s)) output
          (with_phase (stop_phase s) <$> receipt)
      else match s with
           | Control.Cancelled => mkRecord id "Cancelling" reason output receipt
           | Control.Deadline => r
           end
  | None => r
  end.

Definition control_reason (e : Entry) (cw : Control.World) : option Control.Stopped * Control.World :=
  match control e with Some c => Control.reason cw c | None => (None, cw) end.

(** [audit.phase(..); audit.receipt = ..]. *)
Definition note_phase (a : option Audit) (v : ExecutionRecord) (cw : Control.World) : IO (option Audit * Control.World) :=
  match a with
  | Some a =>
      '(a, cw) ← audit_phase a (phase v) cw;
      mret (Some (mkAudit (a_request_id a) (a_caller a) (a_workload a) (a_node a) (events a) (a_execution a) (receipt v)), cw)
  | None => mret (None, cw)
  end.

Definition update_execution (eid : string) (u : Update) (st : State) : IO State :=
  match executions st !! eid with
  | None => mret st
  | Some (mkEntry at_ v c res a j) =>
      match u with
      | Ran r o => mret (set_executions st (<[eid := mkEntry at_ v c res ((fun a => executed a r o) <$> a) j]> (executions st)))
      | _ =>
          let e := mkEntry at_ (apply_update u v) c res a j in
          let '(stopped, cw) := control_reason e (controls st) in
          let v := settle stopped (value e) in
          let '(at_, cw) := if execution_is_active v then (at_, cw) else Control.read_clock cw in
          '(a, cw) ← note_phase a v cw;
          let e := mkEntry at_ v c res a j in
          _ ← catch (persist_terminal e);
          mret (mkState (<[eid := e]> (executions st)) cw (prewarm st) (parents st))
      end
  end.

(** ** Capacity *)

(** What the probes find during one section under the lock. *)
Record Env : Type := mkEnv { facts : Facts; other_live_cells : Z }.

Definition active_reservations (m : gmap string Entry) : list (option Reservation) :=
  reservation <$> filter (fun e => is_active e = true) (map_to_list m).*2.
Definition node_of (env : Env) (st : State) : NodeEligibility :=
  current_node probe (facts env) (other_live_cells env) (active_reservations (executions st)) (prewarm st)
    (Ok (Registry.reserved_capacity (parents st))).

(** [evict_expired]: the loop of [retain], in the order of the map. *)
Definition evictable (now : Z) (e : Entry) : IO bool :=
  if is_active e || (duration_since now (at_ e) <? RECORD_TTL) then mret false else
  match journal_root e with
  | Some root =>
      s ← catch (read root (request_id (value e)));
      mret (match s with Ok (Some s) => negb (execution_is_active (record s)) | _ => false end)
  | None => mret true
  end.
Fixpoint evict (now : Z) (l : list (string * Entry)) (m : gmap string Entry) : IO (gmap string Entry) :=
  match l with
  | [] => mret m
  | (eid, e) :: l => gone ← evictable now e; evict now l (if gone : bool then delete eid m else m)
  end.
Definition evict_expired (st : State) : IO State :=
  let '(now, cw) := Control.read_clock (controls st) in
  m ← evict now (map_to_list (executions st)) (executions st);
  mret (mkState m cw (prewarm st) (parents st)).

(** ** Submission *)

(** What [thread::Builder::spawn] starts. *)
Record Launch : Type := mkLaunch { l_request : ExecutionRequest; l_body : bytes; l_control : nat }.

Definition refusal_reply (reason : RefusalCode) (other : string) : Reply :=
  match reason with
  | AtCapacity => Answer 503 (BRefused "node at capacity" reason)
  | _ => Answer 422 (BRefused other reason)
  end.

(** From the admission check to the start of the worker. *)
Definition admit_execution (env : Env) (r : ExecutionRequest) (body : bytes) (c : nat) (st : State) :
    IO (Reply * option Launch * State) :=
  match admit_request None r (node_of env st) with
  | Refused _ _ reason _ => mret (refusal_reply reason "request refused", None, st)
  | Accepted _ _ =>
      let '(t, cw) := Control.read_clock (controls st) in
      '(a, cw) ← new_audit r (node_name probe) cw;
      let st := set_controls st cw in
      let e := mkEntry t (admitting r) (Some c) (Some (for_request r)) (Some a) None in
      p ← catch (claim root body (value e) (audit_value a));
      match p with
      | Err _ => mret (Answer 503 (BError "durable admission unavailable; retry same id"), None, st)
      | Ok _ =>
          let e := mkEntry t (admitting r) (Some c) (Some (for_request r)) (Some a) (Some root) in
          let st := set_executions st (<[id r := e]> (executions st)) in
          f ← call;
          if f : bool then
            st ← update_execution (id r) (Fail "execution worker unavailable") st;
            mret (Answer 503 (BError "execution worker unavailable"), None, st)
          else mret (Answer 202 (BRecord (admitting r)), Some (mkLaunch r body c), st)
      end
  end.

(** [POST /v1/executions] with the body that was read. *)
Definition submit (parse_request : bytes -> result string ExecutionRequest) (env : Env) (body : bytes) (st : State) :
    IO (Reply * option Launch * State) :=
  match parse_request body with
  | Err e => mret (Answer 400 (BError e), None, st)
  | Ok r =>
      if negb (bool_decide (request_problems r = [])) then mret (Answer 400 (BProblems (request_problems r)), None, st) else
      match check_supported_authority None r with
      | Err detail => mret (Answer 422 (BUnsupported detail), None, st)
      | Ok _ =>
          let '(c, cw) := Control.new (controls st) (c_timeout_ms (capabilities r) * nanos_per_milli) in
          let st := set_controls st cw in
          match c with
          | None => mret (Dropped, None, st)
          | Some c =>
              match refused_destination policy r with
              | Some d => mret (Answer 403 (BEgress d), None, st)
              | None =>
                  s ← catch (read root (id r));
                  match s with
                  | Err _ => mret (Answer 503 (BError JOURNAL_UNAVAILABLE), None, st)
                  | Ok (Some s) =>
                      if negb (String.eqb (request_hash s) (hash_of body))
                      then mret (Answer 409 (BError "execution id already bound to different request bytes"), None, st)
                      else match executions st !! id r with
                      | Some e =>
                          if is_active e then mret (Answer 202 (BRecord (value e)), None, st)
                          else (a ← reply_entry e false; mret (a, None, st))
                      | None => mret (reply_snapshot s false, None, st)
                      end
                  | Ok None =>
                      match executions st !! id r with
                      | Some e => mret (Answer 202 (BRecord (value e)), None, st)
                      | None => st ← evict_expired st; admit_execution env r body c st
                      end
                  end
              end
          end
      end
  end.

(** ** Cancellation and inspection *)

(** [POST /v1/executions/<id>/cancel]: the reservation stays until the worker is done. *)
Definition cancel (eid : string) (st : State) : IO (Reply * State) :=
  match executions st !! eid with
  | None => a ← reply_archived eid false; mret (a, st)
  | Some e =>
      if is_active e then
        let cw := match control e with Some c => Control.cancel (controls st) c | None => controls st end in
        let '(mkRecord rid _ _ out rc) := value e in
        let v := mkRecord rid "Cancelling" (Some "cancellation requested; cleanup pending") out rc in
        '(a, cw) ← (match e_audit e with
                    | Some a => '(a, cw) ← audit_phase a "Cancelling" cw; mret (Some a, cw)
                    | None => mret (None, cw)
                    end);
        let e := mkEntry (at_ e) v (control e) (reservation e) a (journal_root e) in
        mret (Answer 202 (BRecord v), mkState (<[eid := e]> (executions st)) cw (prewarm st) (parents st))
      else (a ← reply_entry e false; mret (a, st))
  end.

(** [GET /v1/executions/<id>] and [.../audit]. *)
Definition inspect (eid : string) (want_audit : bool) (st : State) : IO Reply :=
  match executions st !! eid with
  | Some e => reply_entry e want_audit
  | None => reply_archived eid want_audit
  end.

(** ** The other admissions under the same lock *)

(** [validate_member_request] of [dispatch_substrate.rs]. *)
Definition validate_member_request (r : ExecutionRequest) : result string unit :=
  if negb (bool_decide (request_problems r = [])) || is_Some_bool (harness r) || is_Some_bool (forge r)
     || negb (bool_decide (inputs r = [])) || negb (bool_decide (c_egress (capabilities r) = []))
     || negb (bool_decide (c_workspace (capabilities r) = WNone))
     || match invocation r with Some i => negb (bool_decide (v_args i = [])) | None => true end
  then Err "member check requires a valid closure request with no args, inputs, workspace, forge, harness or egress"
  else check_supported_authority None r.

(** [prewarm::handle] up to the verification, which runs without the lock while its
    reservation is held; [prewarm_end] is the drop of its lease. *)
Definition prewarm_begin (env : Env) (r : ExecutionRequest) (st : State) : option Reply * State :=
  match validate_member_request r with
  | Err reason => (Some (Answer 422 (BError reason)), st)
  | Ok _ =>
      if is_Some_bool (prewarm st) then (Some (Answer 503 (BError "prewarm already in progress")), st) else
      match admit_request None r (node_of env st) with
      | Refused _ _ reason _ => (Some (refusal_reply reason "prewarm admission refused"), st)
      | Accepted _ _ => (None, mkState (executions st) (controls st) (Some (for_request r)) (parents st))
      end
  end.
Definition prewarm_end (st : State) : State := mkState (executions st) (controls st) None (parents st).

(** [spawn_after_check] of [dispatch_parents.rs]: [claimed] is what the caller claims
    durably once there is room, [spawn] the thread of the owner. *)
Definition spawn_after_check (env : Env) (principal incarnation : string) (res : Reservation)
    (claimed : result string unit) (spawn : result string O) (st : State) : result string unit * State :=
  let n := node_of env st in
  if (sat_sub (n_max_cells n) (live_cells n) <? 2) || (r_memory res =? 0)
     || (n_memory_bytes n <? r_memory res) || (n_egress_slots n <? r_slots res)
  then (Err "parent capacity exhausted", st) else
  match claimed with
  | Err e => (Err e, st)
  | Ok _ =>
      let '(a, ps) := Registry.spawn_admitted (parents st) principal incarnation (r_memory res) (r_slots res) spawn in
      (a, mkState (executions st) (controls st) (prewarm st) ps)
  end.

(** The one-shot admission of [dispatch_scoped.rs]: [broker] is whether the operation has
    one, [c] the control it runs under. *)
Definition scoped_admit (env : Env) (eid : string) (r : ExecutionRequest) (broker : bool) (c : nat) (st : State) :
    result string unit * State :=
  let n := node_of env st in
  if broker && (n_egress_slots n =? 0) then (Err "AUTH_CAPACITY", st) else
  match admit_request None r n with
  | Refused _ _ _ _ => (Err "native admission refused", st)
  | Accepted _ _ =>
      let '(t, cw) := Control.read_clock (controls st) in
      let v := mkRecord eid "Admitted" None None None in
      let res := mkReservation (c_memory_bytes (capabilities r)) (if broker then 1 else 0) in
      (Ok tt, mkState (<[eid := mkEntry t v (Some c) (Some res) None None]> (executions st)) cw (prewarm st) (parents st))
  end.
(** The entry is taken back when its status cannot be made durable. *)
Definition scoped_withdraw (eid : string) (st : State) : State :=
  set_executions st (delete eid (executions st)).

(** The cancellation of a scoped one-shot by its cleanup. *)
Definition scoped_cancel (eid : string) (st : State) : State :=
  match executions st !! eid with
  | Some e =>
      if is_active e then
        let cw := match control e with Some c => Control.cancel (controls st) c | None => controls st end in
        let '(mkRecord rid _ _ out rc) := value e in
        let v := mkRecord rid "Cancelling" (Some "cancellation requested; teardown pending") out rc in
        mkState (<[eid := mkEntry (at_ e) v (control e) (reservation e) (e_audit e) (journal_root e)]> (executions st)) cw
          (prewarm st) (parents st)
      else st
  | None => st
  end.

(** The admission of a scoped parent: its memory, its child's cell, one broker. *)
Definition scoped_spawn (env : Env) (principal incarnation : string) (parent worker : ExecutionRequest)
    (reserved_memory_bytes : Z) (admitted : result string unit) (spawn : result string O) (st : State) :
    result string unit * State :=
  let floor := (c_memory_bytes (capabilities parent) + c_memory_bytes (capabilities worker)) * 2 in
  if (u64_max <? c_memory_bytes (capabilities parent) + c_memory_bytes (capabilities worker)) || (u64_max <? floor)
  then (Err "parent reservation overflow", st) else
  if reserved_memory_bytes <=? floor then (Err "AUTH_CAPACITY", st) else
  let n := node_of env st in
  if (n_max_cells n <? sat_add_u32 (live_cells n) 2) || (n_memory_bytes n <? reserved_memory_bytes) || (n_egress_slots n =? 0)
  then (Err "AUTH_CAPACITY", st) else
  if existsb (fun r => match admit_request None r n with Refused _ _ _ _ => true | Accepted _ _ => false end) [parent; worker]
  then (Err "native admission refused", st) else
  match admitted with
  | Err e => (Err e, st)
  | Ok _ =>
      let '(a, ps) := Registry.spawn_admitted_with_child_broker (parents st) principal incarnation reserved_memory_bytes spawn in
      (a, mkState (executions st) (controls st) (prewarm st) ps)
  end.

(** ** The worker *)

(** What the calls of [run_execution] answer. *)
Record Parts : Type := mkParts {
  p_stopped : option Control.Stopped;
  p_supported : result string unit;
  p_inputs : result string unit;
  p_forge : result string string;
  p_runtime : result string unit;
  p_launch : result string Outcome.LaunchOutcome;
  p_declared : result string (Outcome.LaunchOutcome * (string * string));
  p_put : bytes -> option string;
  p_started : string;
  p_completed : string;
}.

(** The end of [run_execution]: the audit, the output, the receipt. *)
Definition conclude (r : ExecutionRequest) (p : Parts) (mote : option string) (program : string) (o : Outcome.LaunchOutcome) : list Update :=
  let '(phase, stored, reason) := Outcome.collect_result (p_put p) o in
  let text := b ← Outcome.output o; if bool_decide (b = []) then None else Some (from_utf8 (from_utf8_lossy b)) in
  [Ran r o;
   Finish phase reason text
     (mkReceipt (api_version r) (id r) phase (node_name probe) (Outcome.cell_id o)
       (mkResolved mote [program] (Outcome.input_hashes o)) stored (p_started p) (p_completed p))].

Definition run_execution (r : ExecutionRequest) (p : Parts) : list Update :=
  match p_stopped p with
  | Some s => [Fail (Control.stopped_to_string s)]
  | None =>
      match p_supported p with
      | Err why => [Refuse why]
      | Ok _ =>
          match p_inputs p with
          | Err why => [Refuse why]
          | Ok _ =>
              if is_Some_bool (forge r) then
                Phase "Forging" ::
                match p_forge p with
                | Err e => [Fail e]
                | Ok hash =>
                    match p_runtime p with
                    | Err e => [Fail e]
                    | Ok _ =>
                        Phase "Preparing" ::
                        match p_launch p with Err e => [Fail e] | Ok o => conclude r p None hash o end
                    end
                end
              else
                Phase "Resolving" ::
                match p_declared p with
                | Err e => [Fail e]
                | Ok (o, (bundle, program)) => conclude r p (Some bundle) program o
                end
          end
      end
  end.

(** [run_scoped] of [dispatch_scoped.rs], as far as its record goes: [launched] is what
    the launch answered, or that it panicked; [stopped] whether the operation was
    cancelled; [completion] reads the answer out of the transcript of a model. A panic
    leaves the record active: its teardown is unconfirmed. *)
Definition no_text (o : option string) : bool := match o with Some s => str_is_empty s | None => true end.
Definition scoped_result (launched : option (result string Outcome.LaunchOutcome)) (cancelled : bool) :
    string * option string * option string * option string * bool :=
  let failed := if cancelled then "Cancelled" else "Failed" in
  match launched with
  | Some (Ok o) =>
      (if Outcome.succeeded o then "Succeeded" else failed, Outcome.denial o,
       (fun b => from_utf8 (from_utf8_lossy b)) <$> Outcome.output o, Some (Outcome.cell_id o),
       is_Some_bool (Outcome.execution o) && is_Some_bool (Outcome.substrate o))
  | Some (Err reason) => (failed, Some reason, None, None, false)
  | None => ("Uncertain", Some "execution worker panicked; native teardown is unconfirmed", None, None, false)
  end.
Definition run_scoped (completion : string -> result string string) (model_backed : bool)
    (launched : option (result string Outcome.LaunchOutcome)) (cancelled : bool) : list Update :=
  let '(phase, reason, output, cell, proven) := scoped_result launched cancelled in
  let '(phase, reason, output) :=
    if String.eqb phase "Succeeded" && model_backed then
      match completion (default "" output) with
      | Ok answer => (phase, reason, Some answer)
      | Err error => ("Failed", Some error, None)
      end
    else (phase, reason, output) in
  let '(phase, reason) :=
    if String.eqb phase "Succeeded" && (no_text cell || negb proven)
    then ("Failed", Some "native execution provenance is incomplete") else (phase, reason) in
  [Phase "Running"; Report phase reason output].

(** ** What the sections do to the files *)

(** The record that an answer carries. *)
Definition record_of (a : Reply) : option ExecutionRecord := match a with Answer _ (BRecord r) => Some r | _ => None end.

(** The journal holds this record for its identity. *)
Definition durable (r : ExecutionRecord) (fs : gmap Path File) : Prop :=
  exists s, holds root (request_id r) s fs /\ record s = r.

(** Every terminal record in the answer is durable. *)
Definition answers_durably (a : Reply) (fs : gmap Path File) : Prop :=
  forall r, record_of a = Some r -> execution_is_active r = false -> durable r fs.

(** An entry whose record is kept in the journal of this dispatcher, or nowhere. *)
Definition rooted (e : Entry) : Prop := journal_root e = None \/ journal_root e = Some root.

Lemma wp_persist_terminal e w : rooted e ->
  wp (persist_terminal e) w (fun r w' => forward root (files w) (files w') /\
    (r = Ok tt -> is_active e = false -> journal_root e = Some root -> durable (value e) (files w'))).
Proof.
  intros Hr. unfold persist_terminal. destruct (is_active e) eqn:Ea; [by apply wp_ret|].
  destruct Hr as [->| ->]; [by apply wp_ret|].
  apply wp_bind, wp_need; [|intros _; split; [done|done]]. intros a _. eapply wp_mono; [apply wp_complete|].
  intros r w' [Hf Hd]. split; [done|]. intros Hok _ _. destruct (Hd Hok) as (_ & h & s & _ & _ & Hh). by eexists.
Qed.

Lemma wp_reply_entry e want w : rooted e ->
  wp (reply_entry e want) w (fun r w' => forward root (files w) (files w') /\
    exists a, r = Ok a /\ (forall v, record_of a = Some v -> v = value e) /\
      (journal_root e = Some root -> answers_durably a (files w'))).
Proof.
  intros Hr. apply wp_bind, wp_catch. eapply wp_mono; [by apply wp_persist_terminal|].
  intros [[]|err] w' [Hf Hd]; apply wp_ret; (split; [done|]); eexists; (split; [done|]); [|by split].
  destruct want; [by destruct (e_audit e)|]. split; [by intros v [= ->]|].
  intros Hj v [= <-] Ht. by apply Hd.
Qed.

Lemma reply_snapshot_spec s want v : record_of (reply_snapshot s want) = Some v ->
  v = record s /\ execution_is_active v = false.
Proof. unfold reply_snapshot. destruct (execution_is_active (record s)) eqn:E; [done|]. destruct want; [done|]. by intros [= <-]. Qed.

Lemma wp_reply_archived eid want w :
  wp (reply_archived eid want) w (fun r w' => files w' = files w /\
    exists a, r = Ok a /\ answers_durably a (files w')).
Proof.
  apply wp_bind, wp_catch. eapply wp_mono; [apply wp_read_journal|]. intros [[s|]|e] w' [Hl Hs]; apply wp_ret; rewrite (later_files _ _ Hl);
    (split; [done|]); eexists; (split; [done|]); [|done..].
  intros v [-> Ht]%reply_snapshot_spec _. destruct Hs as [Hh Hb]. destruct (belongs_spec _ _ Hb) as (_ & Hi & _).
  exists s. by rewrite Hi.
Qed.

(** ** What the sections do to the registry *)

Lemma wp_audit_phase a p cw w Q : (forall a' cw', Q (Ok (a', cw')) w) -> wp (audit_phase a p cw) w Q.
Proof.
  intros HQ. unfold audit_phase. destruct (match last _ with Some _ => _ | None => _ end); [apply wp_ret, HQ|].
  destruct (_ <? _)%nat; [|apply wp_ret, HQ]. apply wp_bind, wp_bind, wp_clock, wp_ret.
  destruct (Control.read_clock cw). apply wp_ret, HQ.
Qed.

(** An update keeps what an entry reserves and how it is journalled. *)
Record kept (e e' : Entry) : Prop := {
  kept_id : request_id (value e') = request_id (value e);
  kept_reservation : reservation e' = reservation e;
  kept_root : journal_root e' = journal_root e;
}.

(** An update after which the worker still has something to do. *)
Definition keeps_active (u : Update) : bool :=
  match u with Phase p => negb (terminal_phase p) | Ran _ _ => true | _ => false end.

Lemma settle_active stopped r : execution_is_active r = true -> execution_is_active (settle stopped r) = true.
Proof. intros Hr. destruct r as [i p why out rc], stopped as [[]|]; unfold settle; rewrite ?Hr; done. Qed.

Lemma update_id u stopped r : request_id (settle stopped (apply_update u r)) = request_id r.
Proof. destruct r as [i p why out rc], u, stopped as [s|]; unfold settle, apply_update; try done; by destruct (negb _), s. Qed.

Lemma update_active u stopped r : keeps_active u = true -> execution_is_active r = true ->
  execution_is_active (settle stopped (apply_update u r)) = true.
Proof. intros Hu Hr. apply settle_active. destruct r as [i p why out rc], u; cbn in *; done. Qed.

Lemma wp_update eid u st w : (forall e, executions st !! eid = Some e -> rooted e) ->
  wp (update_execution eid u st) w (fun r w' => forward root (files w) (files w') /\
    exists st', r = Ok st' /\ prewarm st' = prewarm st /\ parents st' = parents st /\
      match executions st !! eid with
      | None => st' = st
      | Some e => exists e', executions st' = <[eid := e']> (executions st) /\ kept e e' /\
          (keeps_active u = true -> is_active e = true -> is_active e' = true)
      end).
Proof.
  intros Hr. unfold update_execution. destruct (executions st !! eid) as [e|] eqn:E; [|apply wp_ret; split; [done|by eexists]].
  specialize (Hr e eq_refl). destruct e as [t v c res a j].
  assert (wp (let '(stopped, cw) := control_reason (mkEntry t (apply_update u v) c res a j) (controls st) in
              let v := settle stopped (apply_update u v) in
              let '(at_, cw) := if execution_is_active v then (t, cw) else Control.read_clock cw in
              '(a, cw) ← note_phase a v cw;
              _ ← catch (persist_terminal (mkEntry at_ v c res a j));
              mret (mkState (<[eid := mkEntry at_ v c res a j]> (executions st)) cw (prewarm st) (parents st))) w
    (fun r w' => forward root (files w) (files w') /\
    exists st', r = Ok st' /\ prewarm st' = prewarm st /\ parents st' = parents st /\
      exists e', executions st' = <[eid := e']> (executions st) /\ kept (mkEntry t v c res a j) e' /\
        (keeps_active u = true -> execution_is_active v = true -> is_active e' = true))) as HW.
  { destruct (control_reason _ _) as [stopped cw]. cbn zeta. set (v' := settle stopped (apply_update u v)).
    destruct (if execution_is_active v' then (t, cw) else Control.read_clock cw) as [t' cw'].
    apply wp_bind. assert (forall Q, (forall a' cw'', Q (Ok (a', cw'')) w) -> wp (note_phase a v' cw') w Q) as Hn.
    { intros Q HQ. destruct a as [a|]; [|apply wp_ret, HQ]. apply wp_bind, wp_audit_phase. intros. apply wp_ret, HQ. }
    apply Hn. intros a' cw''. apply wp_bind, wp_catch. eapply wp_mono; [by apply wp_persist_terminal|].
    intros r w' [Hf _]. apply wp_ret. split; [done|]. eexists. split; [done|]. do 2 (split; [done|]).
    eexists. split; [done|]. split; [split; [apply update_id|done..]|]. apply update_active. }
  destruct u; try exact HW.
  apply wp_ret. split; [done|]. eexists. split; [done|]. do 2 (split; [done|]). eexists. split; [done|]. by split.
Qed.

(** Eviction only reads files, and only drops entries that are not active. *)
Definition sheds (m m' : gmap string Entry) : Prop :=
  forall eid, m' !! eid = m !! eid \/ (m' !! eid = None /\ exists e, m !! eid = Some e /\ is_active e = false).

Lemma wp_evictable now e w :
  wp (evictable now e) w (fun r w' => later w w' /\ exists b, r = Ok b /\ (b = true -> is_active e = false)).
Proof.
  unfold evictable. destruct (is_active e); cbn [orb]; [apply wp_ret; split; [done|]; by eexists|].
  destruct (_ <? _); [apply wp_ret; split; [done|]; by eexists|].
  destruct (journal_root e); [|apply wp_ret; split; [done|]; by eexists].
  apply wp_bind, wp_catch. eapply wp_mono; [apply wp_read_journal|]. intros r w' [Hl _]. apply wp_ret.
  split; [done|]. by eexists.
Qed.

Lemma wp_evict now l m0 m w : (forall eid e, (eid, e) ∈ l -> m0 !! eid = Some e) -> sheds m0 m ->
  wp (evict now l m) w (fun r w' => later w w' /\ exists m', r = Ok m' /\ sheds m0 m').
Proof.
  revert m w. induction l as [|[eid e] l IH]; intros m w Hl Hs; [apply wp_ret; split; [done|by eexists]|].
  apply wp_bind. eapply wp_mono; [apply wp_evictable|]. intros r w1 (Hw1 & b & -> & Hb).
  eapply wp_mono; [apply (IH (if b then delete eid m else m) w1)|].
  - intros eid' e' Hin. apply Hl. by right.
  - destruct b; [|done]. intros eid'. destruct (decide (eid = eid')) as [<-|Hne].
    + right. rewrite lookup_delete_eq. split; [done|]. exists e. split; [apply Hl; by left|by apply Hb].
    + rewrite lookup_delete_ne by done. apply Hs.
  - intros r w' [Hw2 Hm]. split; [by etransitivity|done].
Qed.

Lemma wp_evict_expired st w :
  wp (evict_expired st) w (fun r w' => later w w' /\ exists st', r = Ok st' /\ sheds (executions st) (executions st') /\
    prewarm st' = prewarm st /\ parents st' = parents st).
Proof.
  unfold evict_expired. destruct (Control.read_clock _). apply wp_bind. eapply wp_mono.
  - apply (wp_evict _ _ (executions st)); [|intros eid; by left]. intros eid e. by rewrite elem_of_map_to_list.
  - intros r w' (Hl & m & -> & Hm). apply wp_ret. split; [done|]. by eexists.
Qed.

(** What every section needs of the registry and keeps: entries are filed under the
    identity of their record, and the claim of a journalled one is in the journal. *)
Record sound (m : gmap string Entry) (fs : gmap Path File) : Prop := {
  sound_keys eid e : m !! eid = Some e -> request_id (value e) = eid;
  sound_rooted eid e : m !! eid = Some e -> rooted e;
  sound_filed eid e : m !! eid = Some e -> journal_root e = Some root -> is_Some (fs !! path root eid);
}.

(** A terminal record is told only when it is durable, or has no journal at all. *)
Definition told (a : Reply) (m : gmap string Entry) (fs : gmap Path File) : Prop :=
  forall v, record_of a = Some v -> execution_is_active v = false ->
  durable v fs \/ exists eid e, m !! eid = Some e /\ value e = v /\ journal_root e = None.

(** What a submission may have done: dropped what may be dropped; or made one new entry,
    and then perhaps started a worker for it. *)
Inductive submitted (parse_request : bytes -> result string ExecutionRequest) (env : Env) (body : bytes) (st : State) (fs fs' : gmap Path File) : Reply -> option Launch -> State -> Prop :=
| answered a st' :
    sheds (executions st) (executions st') -> prewarm st' = prewarm st -> parents st' = parents st ->
    told a (executions st) fs' -> submitted parse_request env body st fs fs' a None st'
| enrolled a l r i n st1 st' e : parse_request body = Ok r ->
    sheds (executions st) (executions st1) -> prewarm st1 = prewarm st -> parents st1 = parents st ->
    executions st !! id r = None -> fs !! path root (id r) = None -> admit_request None r (node_of env st1) = Accepted i n ->
    (exists s, holds root (id r) s fs' /\ request_hash s = hash_of body) ->
    executions st' = <[id r := e]> (executions st1) -> prewarm st' = prewarm st -> parents st' = parents st ->
    request_id (value e) = id r -> reservation e = Some (for_request r) -> journal_root e = Some root ->
    (forall v, record_of a = Some v -> execution_is_active v = true) ->
    match l with Some l => l_request l = r /\ l_body l = body /\ is_active e = true | None => True end ->
    submitted parse_request env body st fs fs' a l st'.

Lemma sheds_refl m : sheds m m.
Proof. intros eid. by left. Qed.

Lemma told_plain a m fs : record_of a = None -> told a m fs.
Proof. intros E v. by rewrite E. Qed.

Lemma wp_admit_execution parse_request env r body c st0 st w : parse_request body = Ok r ->
  sheds (executions st0) (executions st) -> prewarm st = prewarm st0 -> parents st = parents st0 ->
  executions st0 !! id r = None -> files w !! path root (id r) = None ->
  wp (admit_execution env r body c st) w (fun res w' => forward root (files w) (files w') /\
    exists a l st', res = Ok (a, l, st') /\ submitted parse_request env body st0 (files w) (files w') a l st').
Proof.
  intros Hparse Hs Hp Hps He Hf. unfold admit_execution. destruct (admit_request None r (node_of env st)) as [i n|i n reason l] eqn:Ea.
  2: { apply wp_ret. split; [done|]. do 3 eexists. split; [done|]. apply answered; [done..|]. apply told_plain. by destruct reason. }
  destruct (Control.read_clock _) as [t cw]. apply wp_bind, wp_audit_phase. intros a cw'. cbn -[update_execution].
  apply wp_bind, wp_catch. eapply wp_mono; [apply wp_claim_journal|]. cbn -[update_execution]. intros [[]|err] w1 [Hf1 Hc].
  2: { apply wp_ret. split; [done|]. do 3 eexists. split; [done|]. by apply answered. }
  destruct (Hc eq_refl) as [_ Hh]. set (e := mkEntry t (admitting r) _ _ _ _). set (st' := mkState (<[id r := e]> (executions st)) cw' (prewarm st) (parents st)).
  apply wp_bind, wp_call. intros f w2 Hw2. assert (Hf2 : forward root (files w) (files w2)) by (by rewrite (later_files _ _ Hw2)).
  rewrite <- (later_files _ _ Hw2) in Hh. destruct f.
  - assert (E : executions st' !! id r = Some e) by apply lookup_insert_eq.
    apply wp_bind. eapply wp_mono; [apply (wp_update (id r) _ st')|].
    + intros e' [= <-]%(eq_trans (eq_sym E)). by right.
    + rewrite E. intros res w3 (Hf3 & st'' & -> & Ep & Eps & e' & Em & [K1 K2 K3] & _). apply wp_ret.
      assert (Hf03 : forward root (files w) (files w3)) by (by etransitivity). split; [done|]. do 3 eexists. split; [done|].
      destruct (proj2 Hf3 _ _ Hh) as (s & Hs3 & Hss).
      eapply (enrolled _ _ _ _ _ _ _ _ r i n st _ e'); try done.
      * exists s. split; [done|]. by destruct Hss as [->|(_ & _ & -> & _)].
      * rewrite Em. subst st'; cbn. by rewrite insert_insert_eq.
      * by rewrite Ep.
      * by rewrite Eps.
  - apply wp_ret. split; [done|]. do 3 eexists. split; [done|].
    eapply (enrolled _ _ _ _ _ _ _ _ r i n st _ e); try done.
    + eexists. split; [exact Hh|done].
    + by intros v [= <-].
Qed.

Lemma wp_submit parse_request env body st w : sound (executions st) (files w) ->
  wp (submit parse_request env body st) w (fun res w' => forward root (files w) (files w') /\
    exists a l st', res = Ok (a, l, st') /\ submitted parse_request env body st (files w) (files w') a l st').
Proof.
  intros [Sk Sr Sf].
  assert (HA : forall st' w' a, executions st' = executions st -> prewarm st' = prewarm st -> parents st' = parents st ->
    forward root (files w) (files w') -> told a (executions st) (files w') ->
    forward root (files w) (files w') /\ exists a' l st'', Ok (E := Error) (a, None (A := Launch), st') = Ok (a', l, st'') /\
      submitted parse_request env body st (files w) (files w') a' l st'').
  { intros st' w' a E1 E2 E3 Hf Ht. split; [done|]. do 3 eexists. split; [done|]. apply answered; [rewrite E1; apply sheds_refl|done..]. }
  assert (HN : forall st' w' a, executions st' = executions st -> prewarm st' = prewarm st -> parents st' = parents st ->
    files w' = files w -> record_of a = None ->
    forward root (files w) (files w') /\ exists a' l st'', Ok (E := Error) (a, None (A := Launch), st') = Ok (a', l, st'') /\
      submitted parse_request env body st (files w) (files w') a' l st'').
  { intros st' w' a E1 E2 E3 Ef Ht. apply HA; try done; [by rewrite Ef|by apply told_plain]. }
  unfold submit. destruct (parse_request body) as [r|e] eqn:Eparse; [|by apply wp_ret, HN].
  destruct (negb _); [by apply wp_ret, HN|]. destruct (check_supported_authority None r); [|by apply wp_ret, HN].
  destruct (Control.new _ _) as [[c|] cw]; [|by apply wp_ret, HN].
  destruct (refused_destination policy r); [by apply wp_ret, HN|].
  apply wp_bind, wp_catch. eapply wp_mono; [apply wp_read_journal|]. intros [[s|]|e] w1 [Hw1 Hs].
  3: { by apply wp_ret, HN; [..|apply (later_files _ _ Hw1)|]. }
  - destruct (negb _); [by apply wp_ret, HN; [..|apply (later_files _ _ Hw1)|]|]. cbn.
    destruct Hs as [Hh Hb]. destruct (executions st !! id r) as [e|] eqn:Ee.
    + destruct (is_active e) eqn:Ea.
      * apply wp_ret, HA; try done; [by rewrite (later_files _ _ Hw1)|]. intros v [= <-] Ht. unfold is_active in Ea. congruence.
      * apply wp_bind. eapply wp_mono; [apply wp_reply_entry; by eapply Sr|]. intros res w2 (Hf & ans & -> & Hv & Hd).
        apply wp_ret, HA; try done; [by rewrite (later_files _ _ Hw1) in Hf|].
        intros v Ev Ht. destruct (Sr _ _ Ee) as [Ej|Ej]; [right; exists (id r), e; rewrite (Hv _ Ev); done|left; by apply (Hd Ej)].
    + apply wp_ret, HA; try done; [by rewrite (later_files _ _ Hw1)|].
      intros v [-> Ht]%reply_snapshot_spec _. left. destruct (belongs_spec _ _ Hb) as (_ & Hi & _).
      exists s. by rewrite Hi, (later_files _ _ Hw1).
  - cbn. destruct (executions st !! id r) as [e|] eqn:Ee.
    + apply wp_ret, HA; try done; [by rewrite (later_files _ _ Hw1)|]. intros v [= <-] Ht. right. exists (id r), e.
      split; [done|]. split; [done|]. destruct (Sr _ _ Ee) as [Ej|Ej]; [done|]. destruct (Sf _ _ Ee Ej) as [f Ef]. congruence.
    + apply wp_bind. eapply wp_mono; [apply wp_evict_expired|]. intros res w2 (Hw2 & st2 & -> & Hsh & Ep & Eps).
      eapply wp_mono; [apply (wp_admit_execution parse_request _ _ _ _ st)|]; try done.
      * by rewrite (later_files _ _ Hw2), (later_files _ _ Hw1).
      * by rewrite (later_files _ _ Hw2), (later_files _ _ Hw1).
Qed.

(** One entry is replaced by one that is kept, and stays active if it was; or none. *)
Definition rewrites (m m' : gmap string Entry) (eid : string) : Prop :=
  m' = m \/ exists e e', m !! eid = Some e /\ m' = <[eid := e']> m /\ kept e e' /\ is_active e = true /\ is_active e' = true.

Lemma wp_inspect eid want st w : sound (executions st) (files w) ->
  wp (inspect eid want st) w (fun r w' => forward root (files w) (files w') /\
    exists a, r = Ok a /\ told a (executions st) (files w')).
Proof.
  intros [Sk Sr Sf]. unfold inspect. destruct (executions st !! eid) as [e|] eqn:Ee.
  - eapply wp_mono; [apply wp_reply_entry; by eapply Sr|]. intros r w' (Hf & ans & -> & Hv & Hd). split; [done|].
    exists ans. split; [done|]. intros v Ev Ht. destruct (Sr _ _ Ee) as [Ej|Ej]; [right; exists eid, e; rewrite (Hv _ Ev); done|left; by apply (Hd Ej)].
  - eapply wp_mono; [apply wp_reply_archived|]. intros r w' (Hf & ans & -> & Hd). split; [by rewrite Hf|].
    exists ans. split; [done|]. intros v Ev Ht. left. by apply Hd.
Qed.

Lemma wp_cancel eid st w : sound (executions st) (files w) ->
  wp (cancel eid st) w (fun r w' => forward root (files w) (files w') /\
    exists a st', r = Ok (a, st') /\ told a (executions st) (files w') /\
      rewrites (executions st) (executions st') eid /\ prewarm st' = prewarm st /\ parents st' = parents st).
Proof.
  intros Hs. unfold cancel. destruct (executions st !! eid) as [e|] eqn:Ee.
  - destruct (is_active e) eqn:Ea.
    + destruct (value e) as [rid p why out rc] eqn:Ev. cbn -[audit_phase].
      assert (forall Q, (forall a' cw', Q (Ok (a', cw')) w) -> wp (match e_audit e with
        | Some a => '(a, cw) ← audit_phase a "Cancelling" (match control e with Some c => Control.cancel (controls st) c | None => controls st end);
                    mret (Some a, cw)
        | None => mret (None, match control e with Some c => Control.cancel (controls st) c | None => controls st end) end) w Q) as Hn.
      { intros Q HQ. destruct (e_audit e); [|apply wp_ret, HQ]. apply wp_bind, wp_audit_phase. intros. apply wp_ret, HQ. }
      apply wp_bind, Hn. intros a' cw'. apply wp_ret. split; [done|]. do 2 eexists. split; [done|].
      split; [intros v [= <-]; done|]. split; [|done]. right. exists e. eexists. split; [done|]. split; [done|].
      split; [split; cbn; by rewrite ?Ev|]. by split.
    + pose proof (wp_inspect eid false st w Hs) as Hi. unfold inspect in Hi. rewrite Ee in Hi.
      apply wp_bind. eapply wp_mono; [exact Hi|]. intros r w' (Hf & ans & -> & Ht). apply wp_ret. split; [done|].
      do 2 eexists. split; [done|]. split; [done|]. split; [by left|done].
  - pose proof (wp_inspect eid false st w Hs) as Hi. unfold inspect in Hi. rewrite Ee in Hi.
    apply wp_bind. eapply wp_mono; [exact Hi|]. intros r w' (Hf & ans & -> & Ht). apply wp_ret. split; [done|].
    do 2 eexists. split; [done|]. split; [done|]. split; [by left|done].
Qed.

Lemma scoped_cancel_rewrites eid st :
  rewrites (executions st) (executions (scoped_cancel eid st)) eid /\
  prewarm (scoped_cancel eid st) = prewarm st /\ parents (scoped_cancel eid st) = parents st.
Proof.
  unfold scoped_cancel. destruct (executions st !! eid) as [e|] eqn:Ee; [|split; [by left|done]].
  destruct (is_active e) eqn:Ea; [|split; [by left|done]]. destruct (value e) as [rid p why out rc] eqn:Ev. cbn.
  split; [|done]. right. exists e. eexists. split; [done|]. split; [done|]. split; [split; cbn; by rewrite ?Ev|]. by split.
Qed.

(** ** Soundness through the sections *)

Lemma filed_forward m fs fs' : sound m fs -> forward root fs fs' -> sound m fs'.
Proof.
  intros [Sk Sr Sf] [Hk _]. split; [done..|]. intros eid e Ee Ej. apply Hk; [done|]. by eapply Sf.
Qed.
Lemma sound_sheds m m' fs : sound m fs -> sheds m m' -> sound m' fs.
Proof.
  intros [Sk Sr Sf] Hs. assert (forall eid e, m' !! eid = Some e -> m !! eid = Some e) as Hsub.
  { intros eid e E. destruct (Hs eid) as [E'|[E' _]]; congruence. }
  split; [intros eid e E%Hsub; by apply Sk|intros eid e E%Hsub; by eapply Sr|intros eid e E%Hsub; by apply Sf].
Qed.
Lemma sound_insert m fs eid e : sound m fs -> request_id (value e) = eid -> rooted e ->
  (journal_root e = Some root -> is_Some (fs !! path root eid)) -> sound (<[eid := e]> m) fs.
Proof.
  intros [Sk Sr Sf] Hk Hr Hf. split; intros eid' e' [[<- <-]|[_ E]]%lookup_insert_Some; eauto.
Qed.
Lemma sound_kept m fs eid e e' : sound m fs -> m !! eid = Some e -> kept e e' -> sound (<[eid := e']> m) fs.
Proof.
  intros Hs Ee [K1 K2 K3]. pose proof Hs as [Sk Sr Sf]. apply sound_insert; [done|rewrite K1; by apply Sk| |].
  - unfold rooted. rewrite K3. by eapply Sr.
  - rewrite K3. by apply Sf.
Qed.
Lemma sound_rewrites m m' fs eid : sound m fs -> rewrites m m' eid -> sound m' fs.
Proof. intros Hs [->|(e & e' & Ee & -> & Hk & _)]; [done|]. by eapply sound_kept. Qed.
End executions.

Arguments State O : clear implicits.
