(* ===== verification/ExecutionsLaws.v ===== *)
(** * Executions happen once, answers stay, capacity holds

    The dispatcher as a system: sections under its lock in any order, workers and panics
    in between, crashes and restarts that keep only the file system, and system calls
    that fail as they like. *)

From S2P Require Import Prelude Text Json Manifest Spec Host ExecJournal Node Executions.
From S2P Require Control Outcome Registry.

Section laws.
Context {O : Type} `{Registry.OwnerApi O} `{Blake3} `{Json Snapshot} (audit_value : Audit -> Value).
Context (root : string) (probe : NodeProbeArgs) (policy : gset string).
Context (parse_request : bytes -> result string ExecutionRequest) (completion : string -> result string string).

(** A running dispatcher and its host. [pending] are the scoped operations that are
    admitted and have no worker yet; [launched], [replied] and [scoped_ids] remember what
    ever happened, over every restart. *)
Record System : Type := mkSystem {
  state : State O;
  world : World;
  workers : list (string * list Update);
  pending : list string;
  launched : list (string * bytes);
  replied : list Reply;
  scoped_ids : gset string;
}.

(** The parents' registry changes in any way but insertion, which goes through the two
    admissions. *)
(** How a scoped admission goes on: its status cannot be made durable, its thread does
    not start, or it runs. *)
Inductive Conclusion : Type :=
| Withdrawn
| NoThread
| Runs (model_backed : bool) (result : option (result string Outcome.LaunchOutcome)) (cancelled : bool).

Inductive action : Type :=
| Submit (env : Env) (body : bytes) (p : Parts)
| Cancel (eid : string)
| Inspect (eid : string) (want_audit : bool)
| Work (i : nat)
| Panic (i : nat)
| PrewarmBegin (env : Env) (r : ExecutionRequest)
| PrewarmEnd
| SpawnParent (env : Env) (principal incarnation : string) (res : Reservation) (claimed : result string unit) (spawn : result string O)
| Parents (x : @Registry.op O)
| ScopedAdmit (env : Env) (eid : string) (r : ExecutionRequest) (broker : bool) (c : nat)
| ScopedConclude (i : nat) (c : Conclusion)
| ScopedCancel (eid : string)
| ScopedSpawn (env : Env) (principal incarnation : string) (parent worker : ExecutionRequest) (reserved : Z)
    (admitted : result string unit) (spawn : result string O)
| Restart.

Definition set_state (s : System) (st : State O) (w : World) : System :=
  mkSystem st w (workers s) (pending s) (launched s) (replied s) (scoped_ids s).

(** The [i]-th worker makes its next update; a worker that is done is gone. *)
Definition work (s : System) (i : nat) (eid : string) (us : list Update) : System :=
  match us with
  | [] => s
  | u :: rest =>
      let '(r, w) := update_execution audit_value eid u (state s) (world s) in
      let ws := match rest with [] => delete i (workers s) | _ => <[i := (eid, rest)]> (workers s) end in
      mkSystem (match r with Ok st => st | Err _ => state s end) w ws (pending s) (launched s) (replied s) (scoped_ids s)
  end.

Definition act (s : System) (a : action) : System :=
  let st := state s in let w := world s in
  match a with
  | Submit env body p =>
      match submit audit_value root probe policy parse_request env body st w with
      | (Ok (reply, l, st'), w') =>
          mkSystem st' w'
            (match l with Some l => workers s ++ [(id (l_request l), run_execution probe (l_request l) p)] | None => workers s end)
            (pending s)
            (match l with Some l => (id (l_request l), l_body l) :: launched s | None => launched s end)
            (reply :: replied s) (scoped_ids s)
      | (Err _, w') => set_state s st w'
      end
  | Cancel eid =>
      match cancel audit_value root eid st w with
      | (Ok (reply, st'), w') => mkSystem st' w' (workers s) (pending s) (launched s) (reply :: replied s) (scoped_ids s)
      | (Err _, w') => set_state s st w'
      end
  | Inspect eid want_audit =>
      match inspect audit_value root eid want_audit st w with
      | (Ok reply, w') => mkSystem st w' (workers s) (pending s) (launched s) (reply :: replied s) (scoped_ids s)
      | (Err _, w') => set_state s st w'
      end
  | Work i => match workers s !! i with Some (eid, us) => work s i eid us | None => s end
  | Panic i =>
      match workers s !! i with
      | Some (eid, _) =>
          if bool_decide (eid ∈ scoped_ids s) then s else work s i eid [Fail "execution worker panicked during cleanup"]
      | None => s
      end
  | PrewarmBegin env r => set_state s (prewarm_begin probe env r st).2 w
  | PrewarmEnd => set_state s (prewarm_end st) w
  | SpawnParent env p inc res claimed spawn => set_state s (spawn_after_check probe env p inc res claimed spawn st).2 w
  | Parents (Registry.OInsert _ _ _ _ _) => s
  | Parents x => set_state s (mkState (executions st) (controls st) (prewarm st) (Registry.step (parents st) x)) w
  | ScopedAdmit env eid r broker c =>
      match scoped_admit probe env eid r broker c st with
      | (Ok _, st') => mkSystem st' w (workers s) (eid :: pending s) (launched s) (replied s) ({[eid]} ∪ scoped_ids s)
      | (Err _, _) => s
      end
  | ScopedConclude i c =>
      match pending s !! i with
      | Some eid =>
          let s := mkSystem st w (workers s) (delete i (pending s)) (launched s) (replied s) (scoped_ids s) in
          match c with
          | Withdrawn => set_state s (scoped_withdraw eid st) w
          | NoThread => work s (length (workers s)) eid [Fail "execution worker unavailable"]
          | Runs model_backed result cancelled =>
              mkSystem st w (workers s ++ [(eid, run_scoped completion model_backed result cancelled)]) (pending s)
                (launched s) (replied s) (scoped_ids s)
          end
      | None => s
      end
  | ScopedCancel eid => set_state s (scoped_cancel eid st) w
  | ScopedSpawn env p inc parent worker reserved admitted spawn =>
      set_state s (scoped_spawn probe env p inc parent worker reserved admitted spawn st).2 w
  | Restart =>
      match Registry.new 1024 (Z.max (memory_bytes probe) 1) with
      | Ok fresh =>
          mkSystem (mkState ∅ (Control.mkWorld [] (Control.now (controls st)) (Control.ticks (controls st))) None fresh) w [] []
            (launched s) (replied s) (scoped_ids s)
      | Err _ => s
      end
  end.
Definition acts (s : System) (l : list action) : System := foldl act s l.

(** ** The journal decides *)

(** Entries without a journal are those of scoped operations. *)
Definition unjournalled (m : gmap string Entry) (ids : gset string) : Prop :=
  forall eid e, m !! eid = Some e -> journal_root e = None -> eid ∈ ids.

Record inv (s : System) : Prop := {
  inv_sound : sound root (executions (state s)) (files (world s));
  inv_scoped : unjournalled (executions (state s)) (scoped_ids s);
  inv_launched eid body : (eid, body) ∈ launched s ->
    exists sn, holds root eid sn (files (world s)) /\ request_hash sn = hash_of body;
  inv_once : NoDup (launched s).*1;
  inv_told a v : a ∈ replied s -> record_of a = Some v -> execution_is_active v = false -> request_id v ∉ scoped_ids s ->
    durable root v (files (world s));
}.

Lemma durable_forward v fs fs' : execution_is_active v = false -> forward root fs fs' -> durable root v fs -> durable root v fs'.
Proof.
  intros Ht [_ Hf] (sn & Hh & <-). destruct (Hf _ _ Hh) as (sn' & Hh' & [->|(Ha & _)]); [by exists sn|congruence].
Qed.

Lemma unjournalled_sheds m m' ids : unjournalled m ids -> sheds m m' -> unjournalled m' ids.
Proof. intros Hu Hs eid e E. apply Hu. destruct (Hs eid) as [E'|[E' _]]; congruence. Qed.
Lemma unjournalled_insert m ids eid e : unjournalled m ids -> (journal_root e = None -> eid ∈ ids) -> unjournalled (<[eid := e]> m) ids.
Proof. intros Hu He eid' e' [[<- <-]|[_ E]]%lookup_insert_Some; eauto. Qed.
Lemma unjournalled_kept m ids eid e e' : unjournalled m ids -> m !! eid = Some e -> kept e e' -> unjournalled (<[eid := e']> m) ids.
Proof. intros Hu Ee [_ _ K]. apply unjournalled_insert; [done|]. rewrite K. by apply Hu. Qed.
Lemma unjournalled_rewrites m m' ids eid : unjournalled m ids -> rewrites m m' eid -> unjournalled m' ids.
Proof. intros Hu [->|(e & e' & Ee & -> & Hk & _)]; [done|]. by eapply unjournalled_kept. Qed.

(** What a step adds to a history. *)
Definition more {A} (o : option A) (l : list A) : list A := match o with Some a => a :: l | None => l end.

(** Any step: what it starts is claimed for the first time, and what it tells is kept. *)
Lemma inv_step s st' w' ws ps launch reply ids : inv s ->
  forward root (files (world s)) (files w') -> sound root (executions st') (files w') ->
  scoped_ids s ⊆ ids -> unjournalled (executions st') ids ->
  (forall eid body, launch = Some (eid, body) -> files (world s) !! path root eid = None /\
     exists sn, holds root eid sn (files w') /\ request_hash sn = hash_of body) ->
  (forall a, reply = Some a -> told root a (executions (state s)) (files w') \/
     forall v, record_of a = Some v -> execution_is_active v = true) ->
  inv (mkSystem st' w' ws ps (more launch (launched s)) (more reply (replied s)) ids).
Proof.
  intros [I1 I2 I3 I4 I5] Hf Hs Hi Hu Hl Ht.
  assert (Hlaunched : forall eid body, (eid, body) ∈ launched s ->
    exists sn, holds root eid sn (files w') /\ request_hash sn = hash_of body).
  { intros eid body Hin. destruct (I3 _ _ Hin) as (sn & Hh & Hb). destruct (proj2 Hf _ _ Hh) as (sn' & Hh' & Hs').
    exists sn'. split; [done|]. by destruct Hs' as [->|(_ & _ & -> & _)]. }
  split; cbn; [done|done| | |].
  - intros eid body Hin. destruct launch as [l|]; [|by apply Hlaunched].
    apply elem_of_cons in Hin as [<-|Hin]; [by apply (Hl eid body)|by apply Hlaunched].
  - destruct launch as [[eid body]|]; [|done]. cbn. apply NoDup_cons. split; [|done].
    intros ([eid' b'] & -> & Hin)%list_elem_of_fmap. destruct (Hl _ _ eq_refl) as [Hn _].
    destruct (I3 _ _ Hin) as (sn & (f & Ef & _) & _). cbn in Hn. congruence.
  - intros a v Ha Hv Hv' Hn.
    assert (Hold : a ∈ replied s -> durable root v (files w')).
    { intros Hin. eapply durable_forward; [done|done|]. eapply I5; [done..|]. set_solver. }
    destruct reply as [a0|]; [|by apply Hold]. apply elem_of_cons in Ha as [->|Ha]; [|by apply Hold].
    destruct (Ht a0 eq_refl) as [Htold|Ha]; [|rewrite (Ha v Hv) in Hv'; congruence].
    destruct (Htold v Hv Hv') as [Hd|(eid & e & Ee & <- & Ej)]; [done|].
    exfalso. apply Hn. rewrite (sound_keys _ _ _ I1 _ _ Ee). by apply Hi, (I2 _ _ Ee).
Qed.

(** A step that neither starts nor tells anything. *)
Lemma inv_quiet s st' w' ws ps ids : inv s ->
  forward root (files (world s)) (files w') -> sound root (executions st') (files w') ->
  scoped_ids s ⊆ ids -> unjournalled (executions st') ids ->
  inv (mkSystem st' w' ws ps (launched s) (replied s) ids).
Proof. intros Hi Hf Hs Hids Hu. by apply (inv_step s st' w' ws ps None None). Qed.

Lemma inv_work s i eid us : inv s -> inv (work s i eid us).
Proof.
  intros Hi. pose proof Hi as [I1 I2 _ _ _]. destruct us as [|u us]; [done|]. unfold work.
  pose proof (wp_update audit_value root eid u (state s) (world s) (fun e He => sound_rooted _ _ _ I1 _ _ He)) as Hw.
  destruct (update_execution _ _ _ _ _) as [r w'] eqn:E. apply (wp_run _ _ _ _ _ Hw) in E as (Hf & st' & -> & _ & _ & Hm).
  pose proof (filed_forward _ _ _ _ I1 Hf) as Hs. apply inv_quiet; [done..| |done|].
  - destruct (executions (state s) !! eid) as [e|] eqn:Ee; [|by subst].
    destruct Hm as (e' & -> & Hk & _). by eapply sound_kept.
  - destruct (executions (state s) !! eid) as [e|] eqn:Ee; [|by subst]. destruct Hm as (e' & -> & Hk & _). by eapply unjournalled_kept.
Qed.

Lemma prewarm_begin_same env r (st : State O) : executions (prewarm_begin probe env r st).2 = executions st.
Proof. unfold prewarm_begin. by repeat case_match. Qed.
Lemma spawn_after_check_same env p inc res claimed spawn (st : State O) :
  executions (spawn_after_check probe env p inc res claimed spawn st).2 = executions st.
Proof. unfold spawn_after_check. by repeat case_match. Qed.
Lemma scoped_spawn_same env p inc parent worker m claimed spawn (st : State O) :
  executions (scoped_spawn probe env p inc parent worker m claimed spawn st).2 = executions st.
Proof. unfold scoped_spawn. by repeat case_match. Qed.

(** A section that leaves the files and the entries alone. *)
Lemma inv_unchanged s st' ws ps : inv s -> executions st' = executions (state s) ->
  inv (mkSystem st' (world s) ws ps (launched s) (replied s) (scoped_ids s)).
Proof. intros Hi E. apply inv_quiet; [done|done| |done|]; rewrite E; apply Hi. Qed.

Lemma inv_submit s env body p : inv s -> inv (act s (Submit env body p)).
Proof.
  intros Hi. cbn -[submit]. pose proof (wp_submit audit_value root probe policy parse_request env body _ _ (inv_sound _ Hi)) as Hw.
  destruct (submit _ _ _ _ _ _ _ _ _) as [res w'] eqn:E.
  apply (wp_run _ _ _ _ _ Hw) in E as (Hf & a & l & st' & -> & Hsub).
  pose proof (filed_forward _ _ _ _ (inv_sound _ Hi) Hf) as Hs.
  destruct Hsub as [a st' Hsh _ _ Ht|a l r i n st1 st' e _ Hsh _ _ Hn Hfree _ Hh Em _ _ Hid _ Hj Hv Hl].
  - apply (inv_step s st' w' _ _ None (Some a)); [done|done|by eapply sound_sheds|done| |done|].
    + by eapply unjournalled_sheds, Hsh; apply Hi.
    + intros a' [= <-]. by left.
  - assert (Hs' : sound root (executions st') (files w')).
    { rewrite Em. apply sound_insert; [by eapply sound_sheds|done|by right|]. intros _. destruct Hh as (sn & (f & Ef & _) & _). by exists f. }
    assert (Hu : unjournalled (executions st') (scoped_ids s)).
    { rewrite Em. apply unjournalled_insert; [eapply unjournalled_sheds, Hsh; apply Hi|by rewrite Hj]. }
    destruct l as [l|].
    + destruct Hl as (<- & <- & _). apply (inv_step s st' w' _ _ (Some (id (l_request l), l_body l)) (Some a)); try done.
      * by intros eid b [= <- <-].
      * intros a' [= <-]. by right.
    + apply (inv_step s st' w' _ _ None (Some a)); try done. intros a' [= <-]. by right.
Qed.

Lemma inv_replied s st' w' a ws ps : inv s -> forward root (files (world s)) (files w') ->
  told root a (executions (state s)) (files w') -> sound root (executions st') (files w') ->
  unjournalled (executions st') (scoped_ids s) ->
  inv (mkSystem st' w' ws ps (launched s) (a :: replied s) (scoped_ids s)).
Proof.
  intros Hi Hf Ht Hs Hu. apply (inv_step s st' w' ws ps None (Some a)); try done. intros a' [= <-]. by left.
Qed.

Lemma inv_cancel s eid : inv s -> inv (act s (Cancel eid)).
Proof.
  intros Hi. cbn. pose proof (wp_cancel audit_value root eid _ _ (inv_sound _ Hi)) as Hw.
  destruct (cancel _ _ _ _ _) as [res w'] eqn:E. apply (wp_run _ _ _ _ _ Hw) in E as (Hf & a & st' & -> & Ht & Hr & _).
  apply inv_replied; try done.
  - eapply sound_rewrites, Hr. eapply filed_forward, Hf. apply Hi.
  - eapply unjournalled_rewrites, Hr. apply Hi.
Qed.

Lemma inv_inspect s eid want : inv s -> inv (act s (Inspect eid want)).
Proof.
  intros Hi. cbn. pose proof (wp_inspect audit_value root eid want _ _ (inv_sound _ Hi)) as Hw.
  destruct (inspect _ _ _ _ _ _) as [res w'] eqn:E. apply (wp_run _ _ _ _ _ Hw) in E as (Hf & a & -> & Ht).
  apply inv_replied; try done; [|apply Hi]. eapply filed_forward, Hf. apply Hi.
Qed.

Lemma scoped_admit_Ok env eid r broker c (st st' : State O) : scoped_admit probe env eid r broker c st = (Ok tt, st') ->
  (exists i n, admit_request None r (node_of probe env st) = Accepted i n) /\
  (broker = true -> n_egress_slots (node_of probe env st) <> 0) /\
  prewarm st' = prewarm st /\ parents st' = parents st /\
  exists e, executions st' = <[eid := e]> (executions st) /\ request_id (value e) = eid /\ is_active e = true /\
    reservation e = Some (mkReservation (c_memory_bytes (capabilities r)) (if broker then 1 else 0)) /\ journal_root e = None.
Proof.
  unfold scoped_admit. destruct (broker && _) eqn:Eb; [done|]. destruct (admit_request _ _ _) as [i n|]; [|done].
  destruct (Control.read_clock _). intros [= <-]. split; [by do 2 eexists|]. split.
  { intros ->. by apply Z.eqb_neq in Eb. }
  do 2 (split; [done|]). by eexists.
Qed.

Lemma inv_scoped_admit s env eid r broker c : inv s -> inv (act s (ScopedAdmit env eid r broker c)).
Proof.
  intros Hi. cbn -[scoped_admit]. destruct (scoped_admit _ _ _ _ _ _ _) as [[[]|err] st'] eqn:E; [|done].
  apply scoped_admit_Ok in E as (_ & _ & _ & _ & e & Em & Hid & _ & _ & Hj).
  apply inv_quiet; [done|done| |set_solver|]; rewrite Em.
  - apply sound_insert; [apply Hi|done|by left|by rewrite Hj].
  - apply unjournalled_insert; [|set_solver]. intros eid' e' E1 E2. apply elem_of_union_r. by eapply Hi.
Qed.

Lemma inv_withdraw s eid : inv s -> inv (set_state s (scoped_withdraw eid (state s)) (world s)).
Proof.
  intros Hi. apply inv_quiet; [done|done| |done|]; cbn.
  - pose proof (inv_sound _ Hi) as [Sk Sr Sf]. split; intros eid' e' [_ E]%lookup_delete_Some; eauto.
  - intros eid' e' [_ E]%lookup_delete_Some. by apply Hi.
Qed.

Lemma inv_conclude s i c : inv s -> inv (act s (ScopedConclude i c)).
Proof.
  intros Hi. cbn -[work]. destruct (pending s !! i) as [eid|]; [|done].
  assert (Hi' : inv (mkSystem (state s) (world s) (workers s) (delete i (pending s)) (launched s) (replied s) (scoped_ids s)))
    by by apply inv_unchanged.
  destruct c; [by apply (inv_withdraw _ eid Hi')|by apply inv_work|by apply inv_unchanged].
Qed.

Lemma inv_act s a : inv s -> inv (act s a).
Proof.
  intros Hi. destruct a.
  - by apply inv_submit.
  - by apply inv_cancel.
  - by apply inv_inspect.
  - cbn -[work]. destruct (workers s !! i) as [[eid us]|]; [by apply inv_work|done].
  - cbn -[work]. destruct (workers s !! i) as [[eid us]|]; [|done]. destruct (bool_decide _); [done|by apply inv_work].
  - apply inv_unchanged; [done|apply prewarm_begin_same].
  - by apply inv_unchanged.
  - apply inv_unchanged; [done|apply spawn_after_check_same].
  - cbn. destruct x; try done; by apply inv_unchanged.
  - by apply inv_scoped_admit.
  - by apply inv_conclude.
  - destruct (scoped_cancel_rewrites eid (state s)) as [Hr _]. apply inv_quiet; [done|done| |done|]; cbn.
    + eapply sound_rewrites, Hr. apply Hi.
    + eapply unjournalled_rewrites, Hr. apply Hi.
  - apply inv_unchanged; [done|apply scoped_spawn_same].
  - cbn. destruct (Registry.new _ _) as [fresh|]; [|done]. apply inv_quiet; [done|done| |done|]; cbn; done.
Qed.

Lemma inv_acts s l : inv s -> inv (acts s l).
Proof. revert s. induction l as [|a l IH]; intros s Hi; [done|]. by apply IH, inv_act. Qed.

(** A dispatcher that starts on any file system, with nothing remembered. *)
Definition boot (st : State O) (w : World) : System := mkSystem st w [] [] [] [] ∅.
Lemma inv_boot st w : executions st = ∅ -> inv (boot st w).
Proof. intros E. split; cbn; rewrite ?E; try done; [intros ?? []%not_elem_of_nil|apply NoDup_nil_2|intros ?? []%not_elem_of_nil]. Qed.
(** C6: An execution starts at most once for ever: whatever is submitted, replayed,
    cancelled or inspected in any order, whichever system calls fail, whichever workers
    panic, and however often the dispatcher dies and starts again over its files, no
    identity is launched twice, and each launch left a claim in the journal that still
    binds the identity to the exact bytes of its request. *)
Theorem executed_once st w l : executions st = ∅ ->
  let s := acts (boot st w) l in
  NoDup (launched s).*1 /\
  forall eid body, (eid, body) ∈ launched s ->
    exists sn, holds root eid sn (files (world s)) /\ request_hash sn = hash_of body.
Proof. intros E s. assert (Hi : inv s) by by apply inv_acts, inv_boot. split; apply Hi. Qed.

(** C15: A terminal answer is final: the terminal record that any reply carries for a
    journalled execution is what the journal holds for it, then and ever after, so two
    such replies about one execution, from before and after any number of restarts,
    are the same record. *)
Theorem terminal_answers st w l a v : executions st = ∅ ->
  let s := acts (boot st w) l in
  a ∈ replied s -> record_of a = Some v -> execution_is_active v = false -> request_id v ∉ scoped_ids s ->
  durable root v (files (world s)) /\
  forall a' v', a' ∈ replied s -> record_of a' = Some v' -> execution_is_active v' = false ->
    request_id v' = request_id v -> v' = v.
Proof.
  intros E s Ha Hv Ht Hn. assert (Hi : inv s) by by apply inv_acts, inv_boot.
  pose proof (inv_told _ Hi _ _ Ha Hv Ht Hn) as Hd. split; [done|]. intros a' v' Ha' Hv' Ht' Hid.
  rewrite <- Hid in Hn. destruct (inv_told _ Hi _ _ Ha' Hv' Ht' Hn) as (sn' & H' & <-). destruct Hd as (sn & Hs & <-).
  rewrite Hid in H'. by rewrite (holds_det _ _ _ _ _ H' Hs).
Qed.
End laws.
