(* ===== verification/NodeCapacity.v ===== *)
(** * A node is never overcommitted

    The reservations of the executions, of a prewarm and of the parents, as the
    dispatcher's admissions grant them, against the configured capacity of the node,
    through any history of its sections. *)

From S2P Require Import Prelude Text Json Manifest Spec Host ExecJournal Node Executions ExecutionsLaws.
From S2P Require Control Outcome Registry.

(** What one entry takes of the node, while it is active. *)
Definition cells_of (e : Entry) : Z := if is_active e then 1 else 0.
Definition memory_taken (e : Entry) : Z := if is_active e then from_option r_memory 0 (reservation e) else 0.
Definition slots_taken (e : Entry) : Z := if is_active e then from_option r_slots 0 (reservation e) else 0.

(** What one entry takes is known, and no less than nothing. *)
Definition known (e : Entry) : Prop := is_active e = true -> exists r, reservation e = Some r /\ sane r.
Definition knowns (m : gmap string Entry) : Prop := forall eid e, m !! eid = Some e -> known e.

Lemma total_foldr (f : Entry -> Z) m : total f m = foldr (fun e acc => f e + acc) 0 (map_to_list m).*2.
Proof. unfold total. rewrite map_fold_foldr. induction (map_to_list m) as [|[k e] l IH]; cbn; [done|by rewrite IH]. Qed.

Lemma taken_active e r : is_active e = true -> reservation e = Some r ->
  cells_of e = 1 /\ memory_taken e = r_memory r /\ slots_taken e = r_slots r.
Proof. intros Ea Er. unfold cells_of, memory_taken, slots_taken. by rewrite Ea, Er. Qed.
Lemma taken_idle e : is_active e = false -> cells_of e = 0 /\ memory_taken e = 0 /\ slots_taken e = 0.
Proof. intros Ea. unfold cells_of, memory_taken, slots_taken. by rewrite Ea. Qed.

(** The list that the report of capacity walks adds up to the totals over the registry. *)
Lemma active_totals m : knowns m -> exists l, active_reservations m = Some <$> l /\ Forall sane l /\
  Z.of_nat (length l) = total cells_of m /\ memory_of l = total memory_taken m /\ slots_of l = total slots_taken m.
Proof.
  intros Hm. rewrite !total_foldr. unfold active_reservations.
  assert (Hl : Forall known (map_to_list m).*2).
  { apply Forall_forall. intros e ([k e'] & -> & Hin%elem_of_map_to_list)%list_elem_of_fmap. by eapply Hm. }
  induction Hl as [|e l He _ (rs & E & Hs & H1 & H2 & H3)].
  - exists []. by split_and!.
  - destruct (is_active e) eqn:Ea.
    + destruct (He Ea) as (r & Er & Hr). exists (r :: rs). rewrite filter_cons_True by done.
      destruct (taken_active e r Ea Er) as (T1 & T2 & T3). unfold memory_of, slots_of in *.
      cbn [fmap list_fmap foldr length] in *. rewrite E, Er, T1, T2, T3, H2, H3. split_and!; [done|by constructor|lia|done..].
    + exists rs. rewrite filter_cons_False by congruence.
      destruct (taken_idle e Ea) as (T1 & T2 & T3). cbn [foldr]. rewrite T1, T2, T3, H1, H2, H3. by split_and!.
Qed.

Lemma total_active (f : Entry -> Z) m m' : (forall e, is_active e = false -> f e = 0) -> sheds m m' -> total f m' = total f m.
Proof.
  intros Hf. assert (HF : forall n : gmap string Entry, total f n = total f (filter (fun ie => is_active ie.2 = true) n)).
  { induction n as [|k e n Hk IH] using map_ind; [by rewrite map_filter_empty|]. destruct (is_active e) eqn:Ea.
    - rewrite map_filter_insert_True, !total_insert_None, IH; [done| |done|done]. rewrite map_lookup_filter_None. by left.
    - rewrite map_filter_insert_False by (cbn; congruence). rewrite delete_id by done.
      by rewrite total_insert_None, Hf, IH. }
  intros Hs. rewrite (HF m), (HF m'). f_equal. apply map_eq. intros k. apply option_eq. intros e.
  rewrite !map_lookup_filter_Some. cbn. destruct (Hs k) as [->|(-> & e0 & -> & Ea)]; [done|].
  split; [by intros [? _]|]. intros [[= <-] Ea']. congruence.
Qed.

Section capacity.
Context {O : Type} `{Registry.OwnerApi O} `{Blake3} `{Json Snapshot} (audit_value : Audit -> Value).
Context (root : string) (probe : NodeProbeArgs) (policy : gset string).
Context (parse_request : bytes -> result string ExecutionRequest) (completion : string -> result string string).
Context (Hprobe : proper probe) (Hmax : max_cells probe < u32_max).
Context (Hparse : forall body r, parse_request body = Ok r -> in_u64 (c_memory_bytes (capabilities r))).

(** What is reserved on the node: cells, memory, egress slots. A parent counts for two
    cells, its own and that of its one child. *)
Definition cells_reserved (st : State O) : Z :=
  total cells_of (executions st) + (if prewarm st then 1 else 0) + 2 * (Registry.reserved_capacity (parents st)).1.1.
Definition memory_reserved (st : State O) : Z :=
  total memory_taken (executions st) + from_option r_memory 0 (prewarm st) + (Registry.reserved_capacity (parents st)).1.2.
Definition slots_reserved (st : State O) : Z :=
  total slots_taken (executions st) + (Registry.reserved_capacity (parents st)).2.

Record good (st : State O) : Prop := {
  good_parents : Registry.inv (parents st);
  good_known : knowns (executions st);
  good_prewarm : match prewarm st with Some r => sane r | None => True end;
  good_cells : cells_reserved st <= max_cells probe;
  good_memory : memory_reserved st <= memory_bytes probe;
  good_slots : slots_reserved st <= egress_slots probe;
}.

(** The node that an admission sees offers no more than what is free. *)
Lemma good_node env st : good st -> 0 <= other_live_cells env -> exists l,
  node_of probe env st = current_node probe (facts env) (other_live_cells env) (Some <$> l) (prewarm st)
    (Ok (Registry.reserved_capacity (parents st))) /\
  Forall sane l /\ fits probe l (prewarm st) (Registry.reserved_capacity (parents st)) /\
  Z.of_nat (length l) = total cells_of (executions st) /\ memory_of l = total memory_taken (executions st) /\
  slots_of l = total slots_taken (executions st).
Proof.
  intros [G1 G2 G3 G4 G5 G6] Ho. destruct (active_totals _ G2) as (l & E & Hs & H1' & H2 & H3). exists l.
  unfold node_of. rewrite E. unfold cells_reserved, memory_reserved, slots_reserved in *.
  split_and!; try done. split; rewrite ?H1', ?H2, ?H3; done.
Qed.

Lemma good_room env st m s : good st -> 0 <= other_live_cells env -> room (node_of probe env st) m s ->
  cells_reserved st + 1 <= max_cells probe /\ memory_reserved st + m <= memory_bytes probe /\
  slots_reserved st + s <= egress_slots probe.
Proof.
  intros Hg Ho. destruct (good_node env st Hg Ho) as (l & -> & Hs & Hf & E1 & E2 & E3).
  destruct (Registry.capacity_nonneg _ (good_parents _ Hg)) as (N1 & N2 & N3).
  intros Hr. pose proof (room_exact _ _ _ _ _ _ Hprobe Ho Hs (good_prewarm _ Hg) N1 N2 N3 Hf _ _ Hr) as (R1 & R2 & R3).
  unfold cells_reserved, memory_reserved, slots_reserved. rewrite E1, E2, E3 in *. destruct (prewarm st); cbn in *; lia.
Qed.

Lemma good_admitted env st r i n : good st -> 0 <= other_live_cells env -> admit_request None r (node_of probe env st) = Accepted i n ->
  room (node_of probe env st) (c_memory_bytes (capabilities r)) (r_slots (for_request r)).
Proof.
  intros Hg Ho. apply admit_room. destruct (good_node env st Hg Ho) as (l & -> & _ & Hf & _).
  destruct (Registry.capacity_nonneg _ (good_parents _ Hg)) as (N1 & N2 & N3).
  by apply slots_nonneg; [apply (good_prewarm _ Hg)|..].
Qed.

(** ** The entries change *)

Lemma good_sheds st st' : good st -> sheds (executions st) (executions st') -> prewarm st' = prewarm st -> parents st' = parents st ->
  good st'.
Proof.
  intros [G1 G2 G3 G4 G5 G6] Hs Ep Eps. unfold cells_reserved, memory_reserved, slots_reserved in *.
  split; unfold cells_reserved, memory_reserved, slots_reserved; rewrite ?Ep, ?Eps; try done.
  - intros eid e E. destruct (Hs eid) as [E'|[E' _]]; [|congruence]. apply (G2 eid). congruence.
  - rewrite (total_active cells_of _ _ (fun e He => proj1 (taken_idle e He)) Hs). done.
  - rewrite (total_active memory_taken _ _ (fun e He => proj1 (proj2 (taken_idle e He))) Hs). done.
  - rewrite (total_active slots_taken _ _ (fun e He => proj2 (proj2 (taken_idle e He))) Hs). done.
Qed.

(** An entry that takes no more than before. *)
Definition lighter (e e' : Entry) : Prop :=
  cells_of e' <= cells_of e /\ memory_taken e' <= memory_taken e /\ slots_taken e' <= slots_taken e.

Lemma kept_lighter e e' : known e -> is_active e = true -> kept e e' -> known e' /\ lighter e e'.
Proof.
  intros Hk Ea [_ K _]. destruct (Hk Ea) as (r & Er & Hr & Hr'). rewrite Er in K. split; [intros _; by exists r|].
  destruct (taken_active e r Ea Er) as (T1 & T2 & T3). unfold lighter. rewrite T1, T2, T3.
  destruct (is_active e') eqn:Ea'; [destruct (taken_active e' r Ea' K) as (-> & -> & ->); lia|].
  destruct (taken_idle e' Ea') as (-> & -> & ->). lia.
Qed.

Lemma good_lighter st st' eid e e' : good st -> executions st !! eid = Some e -> known e' -> lighter e e' ->
  executions st' = <[eid := e']> (executions st) -> prewarm st' = prewarm st -> parents st' = parents st -> good st'.
Proof.
  intros [G1 G2 G3 G4 G5 G6] Ee Hk (L1 & L2 & L3) Em Ep Eps. unfold cells_reserved, memory_reserved, slots_reserved in *.
  split; unfold cells_reserved, memory_reserved, slots_reserved; rewrite ?Em, ?Ep, ?Eps, ?(total_insert_Some _ _ e) by done; try done; try lia.
  intros eid' e0 [[<- <-]|[_ E]]%lookup_insert_Some; [done|by eapply G2].
Qed.

Lemma good_insert st st' eid e m s : good st -> executions st !! eid = None ->
  cells_reserved st + 1 <= max_cells probe /\ memory_reserved st + m <= memory_bytes probe /\ slots_reserved st + s <= egress_slots probe ->
  reservation e = Some (mkReservation m s) -> sane (mkReservation m s) ->
  executions st' = <[eid := e]> (executions st) -> prewarm st' = prewarm st -> parents st' = parents st -> good st'.
Proof.
  intros [G1 G2 G3 G4 G5 G6] En (R1 & R2 & R3) Er Hr Em Ep Eps.
  assert (cells_of e <= 1 /\ memory_taken e <= m /\ slots_taken e <= s) as (T1 & T2 & T3).
  { destruct Hr as [? ?]; cbn in *. unfold cells_of, memory_taken, slots_taken. rewrite Er. destruct (is_active e); cbn; lia. }
  unfold cells_reserved, memory_reserved, slots_reserved in *.
  split; unfold cells_reserved, memory_reserved, slots_reserved; rewrite ?Em, ?Ep, ?Eps, ?total_insert_None by done; try done; try lia.
  intros eid' e0 [[<- <-]|[_ E]]%lookup_insert_Some; [by eexists|by eapply G2].
Qed.

Lemma sheds_fresh m m' eid : sheds m m' -> m !! eid = None -> m' !! eid = None.
Proof. intros Hs E. destruct (Hs eid) as [E'|[E' _]]; congruence. Qed.

Lemma good_rewrites st st' eid : good st -> rewrites (executions st) (executions st') eid ->
  prewarm st' = prewarm st -> parents st' = parents st -> good st'.
Proof.
  intros Hg [E|(e & e' & Ee & Em & Hk & Ea & _)] Ep Eps.
  - apply (good_sheds st); try done. rewrite E. apply sheds_refl.
  - destruct (kept_lighter _ _ (good_known _ Hg _ _ Ee) Ea Hk). by eapply good_lighter.
Qed.

(** ** The parents and the prewarm change *)

Lemma good_set_prewarm env st r i n : good st -> 0 <= other_live_cells env -> prewarm st = None -> in_u64 (c_memory_bytes (capabilities r)) ->
  admit_request None r (node_of probe env st) = Accepted i n ->
  good (mkState (executions st) (controls st) (Some (for_request r)) (parents st)).
Proof.
  intros Hg Ho Ep Hr Ha. destruct (good_room _ _ _ _ Hg Ho (good_admitted _ _ _ _ _ Hg Ho Ha)) as (R1 & R2 & R3).
  destruct Hg as [G1 G2 G3 G4 G5 G6]. unfold cells_reserved, memory_reserved, slots_reserved in *. rewrite Ep in *.
  split; unfold cells_reserved, memory_reserved, slots_reserved; cbn in *; try done; [by apply request_sane|lia..].
Qed.

Lemma good_end_prewarm st : good st -> good (prewarm_end st).
Proof.
  intros [G1 G2 G3 G4 G5 G6]. unfold cells_reserved, memory_reserved, slots_reserved in *.
  split; unfold cells_reserved, memory_reserved, slots_reserved; cbn in *; try done; destruct (prewarm st) as [[m s]|]; cbn in *; try lia.
  destruct G3 as [? _]. cbn in *. lia.
Qed.

Lemma good_step st x : good st -> (match x with Registry.OInsert _ _ _ _ _ => False | _ => True end) ->
  good (mkState (executions st) (controls st) (prewarm st) (Registry.step (parents st) x)).
Proof.
  intros [G1 G2 G3 G4 G5 G6] Hx. pose proof (Registry.step_releases _ x G1 Hx) as Hr.
  unfold cells_reserved, memory_reserved, slots_reserved in *.
  destruct (Registry.reserved_capacity (parents st)) as [[o m] s], (Registry.reserved_capacity (Registry.step _ _)) as [[o' m'] s'] eqn:E.
  destruct Hr as (H1' & H2 & H3).
  split; unfold cells_reserved, memory_reserved, slots_reserved; cbn -[Registry.reserved_capacity]; rewrite ?E; cbn in *; try done; try lia.
  apply Registry.step_inv; [by destruct x|done].
Qed.

Lemma good_insert_parent env st p inc m s spawn : good st -> 0 <= other_live_cells env -> 0 < m -> in_u64 m -> in_u32 s ->
  2 <= n_max_cells (node_of probe env st) - live_cells (node_of probe env st) -> m <= n_memory_bytes (node_of probe env st) ->
  s <= n_egress_slots (node_of probe env st) ->
  good (mkState (executions st) (controls st) (prewarm st) (Registry.insert_admitted (parents st) p inc m s spawn).2).
Proof.
  intros Hg Ho Hm Hm' Hs' C1 C2 C3. destruct (good_node env st Hg Ho) as (l & En & Hs & Hf & E1 & E2 & E3). rewrite En in C1, C2, C3.
  destruct (Registry.capacity_nonneg _ (good_parents _ Hg)) as (N1 & N2 & N3).
  destruct (fits_parent _ _ _ _ _ _ Hprobe Ho Hs (good_prewarm _ Hg) N1 N2 N3 Hf m s C1 Hm C2 C3) as [F1 F2 F3].
  destruct Hg as [G1 G2 G3 G4 G5 G6]. unfold cells_reserved, memory_reserved, slots_reserved in *. rewrite E1, E2, E3 in *.
  assert (Hi : Registry.inv (Registry.insert_admitted (parents st) p inc m s spawn).2).
  { by apply (Registry.step_inv (parents st) (Registry.OInsert p inc m s spawn)). }
  destruct (Registry.insert_capacity (parents st) p inc m s spawn Hm) as [E|E];
    (split; unfold cells_reserved, memory_reserved, slots_reserved; cbn -[Registry.reserved_capacity Registry.insert_admitted];
     rewrite ?E; cbn -[Registry.reserved_capacity] in *; done).
Qed.

(** ** Workers *)

(** The updates of a worker: only after the last may its record be terminal. *)
Fixpoint orderly (us : list Update) : Prop :=
  match us with [] => False | [_] => True | u :: us => keeps_active u = true /\ orderly us end.

Lemma run_execution_orderly r p : orderly (run_execution probe r p).
Proof. unfold run_execution, conclude. repeat case_match; cbn; done. Qed.
Lemma run_scoped_orderly model_backed result cancelled : orderly (run_scoped completion model_backed result cancelled).
Proof. unfold run_scoped. repeat case_match; done. Qed.

Notation System := (System (O := O)).
Notation action := (action (O := O)).
Notation inv := (inv root).
Notation act := (act audit_value root probe policy parse_request completion).
Notation work := (work audit_value).

(** Everything that will still write to an entry. *)
Definition hands (s : System) : list string := (workers s).*1 ++ pending s.
Definition live (m : gmap string Entry) (eid : string) : Prop := exists e, m !! eid = Some e /\ is_active e = true.

(** Each hand holds an entry of its own, and the entry stays active until it is done. *)
Record capacity (s : System) : Prop := {
  cap_inv : inv s;
  cap_good : good (state s);
  cap_orderly : Forall (fun w => orderly w.2) (workers s);
  cap_once : NoDup (hands s);
  cap_live eid : eid ∈ hands s -> live (executions (state s)) eid;
}.

Lemma live_sheds m m' eid : live m eid -> sheds m m' -> live m' eid.
Proof. intros (e & E & Ea) Hs. exists e. destruct (Hs eid) as [->|(_ & e' & E' & Ea')]; [done|congruence]. Qed.
Lemma live_rewrites m m' x eid : live m eid -> rewrites m m' x -> live m' eid.
Proof.
  intros Hl [->|(e & e' & Ee & -> & _ & _ & Ea')]; [done|]. destruct (decide (x = eid)) as [<-|Hne].
  - exists e'. by rewrite lookup_insert_eq.
  - destruct Hl as (e0 & E & Ea). exists e0. by rewrite lookup_insert_ne.
Qed.
Lemma live_insert_fresh m m' x eid e : live m eid -> sheds m m' -> m !! x = None -> live (<[x := e]> m') eid.
Proof.
  intros Hl Hs Hx. destruct (live_sheds _ _ _ Hl Hs) as (e0 & E & Ea). exists e0. rewrite lookup_insert_ne; [done|].
  intros ->. destruct Hl as (e1 & E1 & _). congruence.
Qed.

(** The hands that are left after one of them wrote. *)
Lemma cap_work s s' i eid u us : capacity s -> eid ∈ hands s ->
  s' = work s i eid (u :: us) -> inv s' ->
  let ws := match us with [] => delete i (workers s) | _ => <[i := (eid, us)]> (workers s) end in
  forall ps, Forall (fun w => orderly w.2) ws -> NoDup (ws.*1 ++ ps) -> ps ⊆ pending s ->
  (forall x, x ∈ ws.*1 ++ ps -> x ∈ hands s /\ (x = eid -> keeps_active u = true)) ->
  capacity (mkSystem (state s') (world s') ws ps (launched s') (replied s') (scoped_ids s')).
Proof.
  intros [I G Co N L] Hin -> Hi ws ps Hws Hn Hps Hx. revert Hi. unfold ExecutionsLaws.work.
  pose proof (wp_update audit_value root eid u (state s) (world s) (fun e He => sound_rooted _ _ _ (inv_sound _ _ I) _ _ He)) as Hw.
  destruct (update_execution _ _ _ _ _) as [r w'] eqn:E. apply (wp_run _ _ _ _ _ Hw) in E as (Hf & st' & -> & Ep & Eps & Hm).
  destruct (L _ Hin) as (e & Ee & Ea). rewrite Ee in Hm. destruct Hm as (e' & Em & Hk & Hact).
  destruct (kept_lighter _ _ (good_known _ G _ _ Ee) Ea Hk) as [Hk' Hl].
  intros Hi. split; cbn in *.
  - destruct Hi as [S1 S2 S3 S4 S5]. by split.
  - by eapply good_lighter.
  - done.
  - done.
  - intros x Hxin. destruct (Hx x Hxin) as [Hold Hka]. rewrite Em. destruct (decide (eid = x)) as [<-|Hne].
    + exists e'. rewrite lookup_insert_eq. auto.
    + destruct (L x Hold) as (e0 & E0 & A0). exists e0. by rewrite lookup_insert_ne.
Qed.

Lemma hands_delete (l : list (string * list Update)) i eid us ps : l !! i = Some (eid, us) ->
  l.*1 ++ ps ≡ₚ eid :: (delete i l).*1 ++ ps.
Proof.
  intros E. change (l.*1 ++ ps ≡ₚ ((eid, us) :: delete i l).*1 ++ ps). apply Permutation_app_tail, fmap_Permutation, delete_Permutation, E.
Qed.

Lemma cap_act_work s i eid us0 us : capacity s -> workers s !! i = Some (eid, us0) -> orderly us -> capacity (work s i eid us).
Proof.
  intros Hc Ei Ho. pose proof Hc as [I G Co N L]. destruct us as [|u us]; [done|].
  assert (Hin : eid ∈ hands s) by (unfold hands; rewrite (hands_delete _ _ _ _ _ Ei); by left).
  assert (Hi : inv (work s i eid (u :: us))) by by apply inv_work.
  pose proof (cap_work s _ i eid u us Hc Hin eq_refl Hi (pending s)) as Hcap. revert Hcap.
  unfold ExecutionsLaws.work. destruct (update_execution _ _ _ _ _) as [r w']. cbn. intros Hcap. apply Hcap; clear Hcap; [| |done|].
  - destruct us as [|u' us]; [by apply Forall_delete|]. apply Forall_insert; [done|]. by destruct Ho.
  - unfold hands in N. destruct us as [|u' us].
    + rewrite (hands_delete _ _ _ _ _ Ei) in N. by apply NoDup_cons in N as [_ N].
    + rewrite list_fmap_insert, list_insert_id; [done|]. by rewrite list_lookup_fmap, Ei.
  - intros x. unfold hands in *. destruct us as [|u' us].
    + rewrite (hands_delete _ _ _ _ _ Ei) in N |- *. apply NoDup_cons in N as [N _]. intros Hx. split; [by right|]. by intros ->.
    + rewrite list_fmap_insert, list_insert_id by (by rewrite list_lookup_fmap, Ei). intros Hx. split; [done|]. intros _. by destruct Ho.
Qed.

(** A section that leaves the hands alone and no hand without its entry. *)
Lemma cap_step s st' w' la re ids : capacity s -> good st' -> inv (mkSystem st' w' (workers s) (pending s) la re ids) ->
  (forall eid, live (executions (state s)) eid -> live (executions st') eid) ->
  capacity (mkSystem st' w' (workers s) (pending s) la re ids).
Proof. intros [I G Co N L] Hg Hi Hl. split; cbn; try done. intros eid Hin. by apply Hl, L. Qed.

(** A section that adds an entry, and perhaps hands for it. *)
Lemma cap_add s st' w' ws ps la re ids x : capacity s -> good st' -> inv (mkSystem st' w' (workers s ++ ws) (ps ++ pending s) la re ids) ->
  (forall eid, live (executions (state s)) eid -> live (executions st') eid) ->
  executions (state s) !! x = None -> ws.*1 ++ ps ∈ [[]; [x]] -> Forall (fun w => orderly w.2) ws ->
  (ws.*1 ++ ps = [x] -> live (executions st') x) ->
  capacity (mkSystem st' w' (workers s ++ ws) (ps ++ pending s) la re ids).
Proof.
  intros [I G Co N L] Hg Hi Hl Hx Hadd Hws Hlive. unfold hands in *.
  assert (Hp : (workers s ++ ws).*1 ++ (ps ++ pending s) ≡ₚ (ws.*1 ++ ps) ++ (workers s).*1 ++ pending s) by (rewrite fmap_app; solve_Permutation).
  assert (Hfresh : x ∉ (workers s).*1 ++ pending s).
  { intros Hin. destruct (L _ Hin) as (e & E & _). congruence. }
  split; cbn; try done.
  - by apply Forall_app.
  - unfold hands; cbn. rewrite Hp. repeat (apply elem_of_cons in Hadd as [->|Hadd]; cbn); [done|by apply NoDup_cons|by apply not_elem_of_nil in Hadd].
  - intros eid. unfold hands; cbn. rewrite Hp, elem_of_app. intros [Hin|Hin]; [|by apply Hl, L].
    repeat (apply elem_of_cons in Hadd as [E|Hadd]); [by rewrite E in Hin; apply not_elem_of_nil in Hin| |by apply not_elem_of_nil in Hadd].
    rewrite E in Hin. apply list_elem_of_singleton in Hin as ->. by apply Hlive.
Qed.

(** ** Histories *)

(** What the widths of the code's integers give, and that a scoped operation is admitted
    under an identity of its own. *)
Definition admissible (s : System) (a : action) : Prop :=
  match a with
  | Submit env _ _ => 0 <= other_live_cells env
  | PrewarmBegin env r => 0 <= other_live_cells env /\ in_u64 (c_memory_bytes (capabilities r))
  | SpawnParent env _ _ res _ _ => 0 <= other_live_cells env /\ in_u64 (r_memory res) /\ in_u32 (r_slots res)
  | ScopedAdmit env eid r _ _ =>
      0 <= other_live_cells env /\ in_u64 (c_memory_bytes (capabilities r)) /\ executions (state s) !! eid = None
  | ScopedSpawn env _ _ parent worker m _ _ =>
      0 <= other_live_cells env /\ in_u64 m /\
      in_u64 (c_memory_bytes (capabilities parent)) /\ in_u64 (c_memory_bytes (capabilities worker))
  | _ => True
  end.
Fixpoint history (s : System) (l : list action) : Prop :=
  match l with [] => True | a :: l => admissible s a /\ history (act s a) l end.

Lemma cap_submit s env body p : capacity s -> 0 <= other_live_cells env -> capacity (act s (Submit env body p)).
Proof.
  intros Hc Ho. pose proof Hc as [I G _ _ _]. assert (Hi : inv (act s (Submit env body p))) by by apply inv_act.
  revert Hi. cbn -[submit]. pose proof (wp_submit audit_value root probe policy parse_request env body _ _ (inv_sound _ _ I)) as Hw.
  destruct (submit _ _ _ _ _ _ _ _ _) as [res w'] eqn:E.
  apply (wp_run _ _ _ _ _ Hw) in E as (Hf & a & l & st' & -> & Hsub). intros Hi.
  destruct Hsub as [a st' Hsh Ep Eps _|a l r i n st1 st' e Hr Hsh Ep1 Eps1 Hn _ Ha _ Em Ep Eps _ Er _ _ Hl].
  - apply (cap_step s st'); [done|by eapply good_sheds|done|]. intros eid Hlv. by eapply live_sheds.
  - assert (G1 : good st1) by by eapply good_sheds.
    pose proof (good_room _ _ _ _ G1 Ho (good_admitted _ _ _ _ _ G1 Ho Ha)) as R.
    assert (G' : good st').
    { eapply (good_insert st1 st' (id r) e _ _ G1); [by eapply sheds_fresh|exact R|done|apply request_sane; by eapply Hparse|done|congruence..]. }
    assert (Hlv : forall eid, live (executions (state s)) eid -> live (executions st') eid).
    { intros eid Hlv. rewrite Em. by eapply live_insert_fresh. }
    destruct l as [l|].
    + destruct Hl as (El & _ & Ea). apply (cap_add s st' w' _ [] _ _ _ (id r)); try done.
      * cbn. rewrite El. set_solver.
      * apply Forall_singleton, run_execution_orderly.
      * intros _. exists e. by rewrite Em, lookup_insert_eq.
    + by apply (cap_step s st').
Qed.

Lemma cap_scoped_admit s env eid r broker c : capacity s -> admissible s (ScopedAdmit env eid r broker c) ->
  capacity (act s (ScopedAdmit env eid r broker c)).
Proof.
  intros Hc (Ho & Hm & Hn). pose proof Hc as [I G _ _ _].
  assert (Hi : inv (act s (ScopedAdmit env eid r broker c))) by by apply inv_act. revert Hi. cbn -[scoped_admit].
  destruct (scoped_admit _ _ _ _ _ _ _) as [[[]|err] st'] eqn:E; [|done].
  apply scoped_admit_Ok in E as ((i & n & Ha) & Hb & Ep & Eps & e & Em & _ & Ea & Er & _).
  pose proof (good_admitted _ _ _ _ _ G Ho Ha) as [R1 R2 R3 R4].
  destruct (good_node env (state s) G Ho) as (l & En & _ & Hfit & _).
  destruct (Registry.capacity_nonneg _ (good_parents _ G)) as (N1 & N2 & N3).
  assert (Hslots : 0 <= n_egress_slots (node_of probe env (state s))).
  { rewrite En. by apply slots_nonneg; [apply (good_prewarm _ G)|..]. }
  assert (R : room (node_of probe env (state s)) (c_memory_bytes (capabilities r)) (if broker then 1 else 0)).
  { split; try done. destruct broker; [|done]. specialize (Hb eq_refl). lia. }
  assert (G' : good st').
  { eapply (good_insert (state s) st' eid e _ _ G Hn (good_room _ _ _ _ G Ho R)); try done. destruct Hm. by split; destruct broker. }
  intros Hi. rewrite <- (app_nil_r (workers s)). apply (cap_add s st' _ [] [eid] _ _ _ eid); try done.
  - by rewrite app_nil_r.
  - intros x Hlv. rewrite Em. by eapply live_insert_fresh; [|apply sheds_refl|].
  - set_solver.
  - intros _. exists e. by rewrite Em, lookup_insert_eq.
Qed.

Lemma good_delete st eid : good st -> good (scoped_withdraw eid st).
Proof.
  intros [G1 G2 G3 G4 G5 G6]. unfold scoped_withdraw, set_executions.
  assert (Ht : forall f : Entry -> Z, (forall e, known e -> 0 <= f e) -> total f (delete eid (executions st)) <= total f (executions st)).
  { intros f Hf. destruct (executions st !! eid) as [e|] eqn:Ee; [|by rewrite delete_id].
    rewrite <- (insert_delete_id _ _ _ Ee) at 2. rewrite total_insert_None by apply lookup_delete_eq.
    specialize (Hf e (G2 _ _ Ee)). lia. }
  assert (Hc : forall e, known e -> 0 <= cells_of e /\ 0 <= memory_taken e /\ 0 <= slots_taken e).
  { intros e Hk. destruct (is_active e) eqn:Ea; [|destruct (taken_idle e Ea) as (-> & -> & ->); lia].
    destruct (Hk Ea) as (r & Er & ? & ?). destruct (taken_active e r Ea Er) as (-> & -> & ->). lia. }
  pose proof (Ht cells_of (fun e He => proj1 (Hc e He))). pose proof (Ht memory_taken (fun e He => proj1 (proj2 (Hc e He)))).
  pose proof (Ht slots_taken (fun e He => proj2 (proj2 (Hc e He)))).
  unfold cells_reserved, memory_reserved, slots_reserved in *.
  split; unfold cells_reserved, memory_reserved, slots_reserved; cbn -[Registry.reserved_capacity] in *; try done; try lia.
  intros eid' e [_ E]%lookup_delete_Some. by eapply G2.
Qed.

Lemma cap_conclude s i c : capacity s -> capacity (act s (ScopedConclude i c)).
Proof.
  intros Hc. pose proof Hc as [I G Co N L]. assert (Hi : inv (act s (ScopedConclude i c))) by by apply inv_act.
  revert Hi. cbn -[ExecutionsLaws.work]. destruct (pending s !! i) as [eid|] eqn:Ep; [|done].
  assert (Hp : hands s ≡ₚ eid :: (workers s).*1 ++ delete i (pending s)).
  { unfold hands. rewrite (delete_Permutation _ _ _ Ep) at 1. by rewrite <- Permutation_middle. }
  assert (Hin : eid ∈ hands s) by (rewrite Hp; by left).
  assert (N' := N). rewrite Hp in N'. apply NoDup_cons in N' as [Hne N'].
  assert (Hsub : forall x, x ∈ (workers s).*1 ++ delete i (pending s) -> x ∈ hands s /\ x <> eid).
  { intros x Hx. split; [rewrite Hp; by right|]. by intros ->. }
  destruct c as [| |mb res can]; intros Hi.
  - split; cbn; [done|by apply good_delete|done|done|]. intros x Hx. destruct (Hsub x Hx) as [Hx' Hxe].
    destruct (L x Hx') as (e & E & Ea). exists e. by rewrite lookup_delete_ne.
  - pose proof (cap_work s _ (length (workers s)) eid (Fail "execution worker unavailable") [] Hc Hin eq_refl
      ltac:(by apply inv_work) (delete i (pending s))) as Hcap. revert Hi Hcap.
    unfold ExecutionsLaws.work. cbn [state world workers]. destruct (update_execution _ _ _ _ _) as [r w'].
    assert (Ed : delete (length (workers s)) (workers s) = workers s) by (rewrite delete_take_drop, take_ge, drop_ge, app_nil_r by lia; done).
    rewrite Ed. cbn. intros Hi Hcap. apply Hcap; [done|done| |].
    + intros x. rewrite (delete_Permutation _ _ _ Ep) at 2. by right.
    + intros x Hx. by destruct (Hsub x Hx).
  - split; cbn; [done|done| | |].
    + apply Forall_app. split; [done|]. apply Forall_singleton, run_scoped_orderly.
    + unfold hands; cbn. rewrite fmap_app, <- app_assoc. cbn. rewrite <- Permutation_middle. by apply NoDup_cons.
    + intros x. unfold hands; cbn. rewrite fmap_app, <- app_assoc. cbn. rewrite <- Permutation_middle, <- Hp. apply L.
Qed.

Lemma cap_rewrites s st' w' la re ids x : capacity s -> inv (mkSystem st' w' (workers s) (pending s) la re ids) ->
  rewrites (executions (state s)) (executions st') x -> prewarm st' = prewarm (state s) -> parents st' = parents (state s) ->
  capacity (mkSystem st' w' (workers s) (pending s) la re ids).
Proof.
  intros Hc Hi Hr Ep Eps. pose proof (cap_good _ Hc) as G. apply (cap_step s); [done|by eapply good_rewrites|done|].
  intros eid Hl. by eapply live_rewrites.
Qed.

Lemma cap_same s st' : capacity s -> good st' -> executions st' = executions (state s) -> capacity (set_state s st' (world s)).
Proof.
  intros Hc Hg E. pose proof (cap_inv _ Hc) as I. apply (cap_step s); [done|done|by apply inv_unchanged|]. intros eid. by rewrite E.
Qed.

Lemma cap_prewarm s env r : capacity s -> admissible s (PrewarmBegin env r) -> capacity (act s (PrewarmBegin env r)).
Proof.
  intros Hc [Ho Hm]. apply cap_same; [done| |apply prewarm_begin_same]. pose proof (cap_good _ Hc) as G. unfold prewarm_begin.
  destruct (validate_member_request r); [|done]. destruct (is_Some_bool _) eqn:Ep; [done|].
  destruct (admit_request None r _) eqn:Ea; [|done]. eapply good_set_prewarm; try done. by destruct (prewarm (state s)).
Qed.

Lemma cap_spawn s env p inc res ad sp : capacity s -> admissible s (SpawnParent env p inc res ad sp) ->
  capacity (act s (SpawnParent env p inc res ad sp)).
Proof.
  intros Hc (Ho & Hm & Hs). apply cap_same; [done| |apply spawn_after_check_same]. pose proof (cap_good _ Hc) as G. unfold spawn_after_check.
  destruct (_ || _) eqn:E; [done|]. destruct ad; [|done].
  pose proof (good_insert_parent env (state s) p inc (r_memory res) (r_slots res) sp G Ho) as Hgood.
  unfold Registry.spawn_admitted. destruct (Registry.insert_admitted _ _ _ _ _ _) as [answer ps]. cbn [snd] in Hgood |- *.
  apply orb_false_iff in E as [[[E1 E2]%orb_false_iff E3]%orb_false_iff E4]. unfold sat_sub, in_u64 in *. apply Hgood; try lia; done.
Qed.

Lemma cap_scoped_spawn s env p inc parent worker m ad sp : capacity s -> admissible s (ScopedSpawn env p inc parent worker m ad sp) ->
  capacity (act s (ScopedSpawn env p inc parent worker m ad sp)).
Proof.
  intros Hc (Ho & Hm & [Hp _] & [Hw _]). apply cap_same; [done| |apply scoped_spawn_same]. pose proof (cap_good _ Hc) as G. unfold scoped_spawn.
  destruct (_ || _); [done|]. destruct (m <=? _) eqn:Em; [done|]. destruct (_ || _) eqn:E; [done|].
  destruct (existsb _ _); [done|]. destruct ad; [|done].
  pose proof (good_insert_parent env (state s) p inc m 1 sp G Ho) as Hgood.
  destruct (good_node env (state s) G Ho) as (l & En & Hl & Hf & _).
  destruct (Registry.capacity_nonneg _ (good_parents _ G)) as (N1 & N2 & N3).
  assert (Hslots : 0 <= n_egress_slots (node_of probe env (state s))).
  { rewrite En. by apply slots_nonneg; [apply (good_prewarm _ G)|..]. }
  destruct (current_exact _ (facts env) (other_live_cells env) _ _ _ Hprobe Ho Hl (good_prewarm _ G) N1 N2 N3 Hf) as (Emax & _).
  rewrite <- En in Emax.
  unfold Registry.spawn_admitted_with_child_broker. destruct (Registry.insert_admitted _ _ _ _ _ _) as [answer ps]. cbn [snd] in Hgood |- *.
  apply orb_false_iff in E as [[E1 E2]%orb_false_iff E3]. unfold sat_add_u32, u32_max, in_u64 in *. apply Hgood; try lia; done.
Qed.

Lemma good_fresh st fresh m : executions st = ∅ -> prewarm st = None -> parents st = fresh -> in_u64 m -> Registry.new 1024 m = Ok fresh -> good st.
Proof.
  intros E Ep Eps Hm Hn. assert (Hi : Registry.inv fresh) by by eapply Registry.inv_new.
  assert (Hz : Registry.reserved_capacity fresh = (0, 0, 0)).
  { revert Hn. unfold Registry.new. destruct (_ || _); [done|]. by intros [= <-]. }
  destruct Hprobe as [[? ?] [? ?] [? ?]].
  split; unfold cells_reserved, memory_reserved, slots_reserved; rewrite ?E, ?Ep, ?Eps, ?Hz, ?total_empty; try done.
Qed.

Lemma cap_act s a : capacity s -> admissible s a -> capacity (act s a).
Proof.
  intros Hc Ha. pose proof Hc as [I G Co N L]. assert (Hi : inv (act s a)) by by apply inv_act. destruct a.
  - by apply cap_submit.
  - revert Hi. cbn. pose proof (wp_cancel audit_value root eid _ _ (inv_sound _ _ I)) as Hw.
    destruct (cancel _ _ _ _ _) as [res w'] eqn:E. apply (wp_run _ _ _ _ _ Hw) in E as (_ & re & st' & -> & _ & Hr & Ep & Eps).
    intros Hi. by eapply cap_rewrites.
  - revert Hi. cbn. destruct (inspect _ _ _ _ _ _) as [[re|err] w'] eqn:E; intros Hi; by apply cap_step.
  - cbn -[ExecutionsLaws.work]. destruct (workers s !! i) as [[eid us]|] eqn:Ei; [|done].
    apply (cap_act_work s i eid us); try done. apply (Forall_lookup_1 _ _ _ _ Co Ei).
  - cbn -[ExecutionsLaws.work]. destruct (workers s !! i) as [[eid us]|] eqn:Ei; [|done]. destruct (bool_decide _); [done|].
    by apply (cap_act_work s i eid us).
  - by apply cap_prewarm.
  - apply cap_same; [done|by apply good_end_prewarm|done].
  - by apply cap_spawn.
  - cbn. destruct x; try done; (apply cap_same; [done|by apply good_step|done]).
  - by apply cap_scoped_admit.
  - by apply cap_conclude.
  - destruct (scoped_cancel_rewrites eid (state s)) as (Hr & Ep & Eps). by eapply cap_rewrites.
  - by apply cap_scoped_spawn.
  - revert Hi. cbn. destruct (Registry.new _ _) as [fresh|] eqn:En; [|done]. intros Hi. split; cbn; try done.
    + eapply good_fresh; [done..| |exact En]. destruct Hprobe as [_ [? ?] _]. unfold in_u64, u64_max in *. lia.
    + apply NoDup_nil_2.
    + by intros eid ?%not_elem_of_nil.
Qed.

Lemma cap_acts s l : capacity s -> history s l -> capacity (acts audit_value root probe policy parse_request completion s l).
Proof. revert s. induction l as [|a l IH]; intros s Hc; [done|]. intros [Ha Hl]. apply IH; [by apply cap_act|done]. Qed.

(** Distinct hands on active entries are no more than the active entries. *)
Lemma hands_counted (m : gmap string Entry) ids : NoDup ids -> (forall eid, eid ∈ ids -> live m eid) ->
  Z.of_nat (length ids) <= total cells_of m.
Proof.
  intros Hn. revert m. induction Hn as [|eid ids Hnot Hn IH]; intros m Hl.
  - apply total_nonneg. intros k e _. unfold cells_of. by destruct (is_active e).
  - destruct (Hl eid ltac:(by left)) as (e & Ee & Ea). rewrite <- (insert_delete_id _ _ _ Ee), total_insert_None by apply lookup_delete_eq.
    assert (Z.of_nat (length ids) <= total cells_of (delete eid m)).
    { apply IH. intros x Hx. destruct (Hl x ltac:(by right)) as (e' & E' & A'). exists e'. rewrite lookup_delete_ne; [done|]. by intros <-. }
    unfold cells_of at 1. rewrite Ea. cbn [length]. lia.
Qed.

(** C7: A node that is configured for fewer than 2^32 - 1 cells is never overcommitted, as
    long as no scoped operation is admitted under an identity that the registry holds an
    execution of (which the code does not look at): through any such history of
    submissions, workers, panics, cancellations, prewarms, parents and scoped operations,
    in any order and with any failure, the cells, the memory and the egress slots that are
    reserved for all of them together stay within the configuration, and every worker that
    runs or is about to run works on an execution of its own, which is active and carries
    a reservation, so that it is among those that are counted. *)
Theorem node_never_overcommitted st w l m : executions st = ∅ -> prewarm st = None -> in_u64 m ->
  Registry.new 1024 m = Ok (parents st) -> history (boot st w) l ->
  let s := acts audit_value root probe policy parse_request completion (boot st w) l in
  cells_reserved (state s) <= max_cells probe /\ memory_reserved (state s) <= memory_bytes probe /\
  slots_reserved (state s) <= egress_slots probe /\
  NoDup (hands s) /\ Z.of_nat (length (hands s)) <= total cells_of (executions (state s)) /\
  forall eid, eid ∈ hands s -> exists e r, executions (state s) !! eid = Some e /\ is_active e = true /\ reservation e = Some r.
Proof.
  intros E Ep Hm Hn Hh s. assert (Hc : capacity s).
  { apply cap_acts; [|done]. split; [by apply inv_boot|by eapply good_fresh|done|apply NoDup_nil_2|by intros eid ?%not_elem_of_nil]. }
  destruct Hc as [_ [_ Hk _ G1 G2 G3] _ N L]. split_and!; [done..|by apply hands_counted|].
  intros eid Hin. destruct (L _ Hin) as (e & Ee & Ea). destruct (Hk _ _ Ee Ea) as (r & Er & _). by exists e, r.
Qed.
End capacity.
