(* ===== verification/Credentials.v ===== *)
(** * Scoped credentials ([crates/celln-cli/src/tenancy_credentials.rs])

    The verifier of signed credentials: a token signed with a locally configured key
    grants one operation on one run, as far as the decision it is bound to and the
    receiver's own expectations agree. The order of the checks fixes which refusal a
    caller sees. Base64, Ed25519, JSON Schema and the derived decoders are parameters.
    The lock of the key table is never poisoned: nothing panics while it is written. *)

From S2P Require Import Prelude Text Json Closure Contract.

Abbreviation Refusal := string (only parsing).
Definition MALFORMED : Refusal := "AUTH_CRED_MALFORMED".

Record Header : Type := mkHeader { alg : string; typ : string; kid : string }.
Record Subject : Type := mkSubject {
  s_run_uid : string;
  s_turn_id : option string;
  s_parent_incarnation : option string;
}.
Record Claims : Type := mkClaims {
  c_api_version : string;
  iss : string;
  aud : string;
  iat : Z;
  nbf : Z;
  exp : Z;
  jti : string;
  decision_digest : string;
  c_budget_id : string;
  operation : string;
  subject : Subject;
}.

(** [Context]: what the receiver expects. *)
Record Receiver : Type := mkReceiver {
  now : Z;
  expected_audience : string;
  expected_operation : string;
  cluster_id : string;
  namespace : string;
  namespace_uid : string;
  run_uid : string;
  run_spec_sha256 : string;
  parent : Value;
  request_digest : string;
  route : Value;
  budget_id : string;
  seen_admission_jti : bool;
}.

Record PublicKey : Type := mkPublicKey {
  kty : string; crv : string; k_kid : string; k_alg : string; usage : string; k_x : string;
}.

(** [URL_SAFE_NO_PAD.decode], the derived decoders with [deny_unknown_fields], and the
    two compiled schemas. *)
Class Formats := {
  url_safe_decode : string -> option bytes;
  header_of : bytes -> option Header;
  claims_of : bytes -> option Claims;
  keyset_of : bytes -> option (list PublicKey);
  decision_schema : Value -> bool;
  credential_schema : Value -> bool;
}.

(** The keys by their ids, as bytes. *)
Record Verifier : Type := mkVerifier { issuer : string; keys : gmap string bytes }.

(** ** Decisions *)

Definition text (v : Value) : result Refusal string := ok_or (as_str v) MALFORMED.
Definition number (v : Value) : result Refusal Z := ok_or (value_i64 v) MALFORMED.

(** [value == "text"]; [matches!(s, "a" | "b")] and [matches!(v.as_str(), Some("a" | "b"))]. *)
Definition is_str (v : Value) (s : string) : bool := value_eqb v (VString s).
Definition is_null (v : Value) : bool := value_eqb v Null.
Definition among (l : list string) (s : string) : bool := existsb (String.eqb s) l.
Definition str_among (v : Value) (l : list string) : bool := match as_str v with Some s => among l s | None => false end.

(** [a || b?], which evaluates [b] only when it must. *)
Definition or_else (a b : result Refusal bool) : result Refusal bool :=
  match a with Ok true => Ok true | Ok false => b | Err e => Err e end.
Definition when (c : result Refusal bool) (e : Refusal) : result Refusal unit :=
  match c with Ok true => Err e | Ok false => Ok tt | Err e' => Err e' end.

Definition caps_ok (b : Value) (field : string) : result Refusal unit :=
  t ← number (vget field (vget "turnCap" b)); r ← number (vget field (vget "runCap" b));
  if r <? t then Err "AUTH_BUDGET_MISMATCH" else Ok tt.

Definition lifecycle_ok (d b : Value) : result Refusal unit :=
  if is_str (vget "lifecycle" d) "one-shot" then
    when (or_else (Ok (negb (str_among (vget "operation" d) ["execution.start"; "execution.read"; "execution.cleanup"])
                       || negb (is_null (vget "parent" d))))
         (or_else (n ← number (vget "maxTurns" b); Ok (negb (n =? 1)))
                  (n ← number (vget "parentDeadlineUnix" b); Ok (negb (n =? 0)))))
      "AUTH_LIFECYCLE_INVALID"
  else
    let turn := vget "turnId" (vget "parent" d) in
    let valid_enduring :=
      match as_str (vget "lifecycle" d) with
      | Some "enduring-initial" =>
          str_among (vget "operation" d) ["execution.start"; "execution.read"; "execution.cleanup"] && is_null turn
      | Some "enduring-turn" =>
          str_among (vget "operation" d) ["execution.turn"; "execution.read"; "execution.cleanup"]
          && is_Some_bool (as_str turn)
      | _ => false
      end in
    when (or_else (Ok (negb valid_enduring || negb (is_Some_bool (as_str (vget "incarnation" (vget "parent" d))))))
         (or_else (n ← number (vget "maxTurns" b); Ok (n <? 1))
                  (p ← number (vget "parentDeadlineUnix" b); t ← number (vget "turnDeadlineUnix" b); Ok (p <? t))))
      "AUTH_LIFECYCLE_INVALID".

Definition limit_ok (l : Value) (fm : string * Z) : result Refusal unit :=
  v ← number (vget fm.1 l); if (v <? 1) || (fm.2 <? v) then Err "AUTH_LIMIT_OUT_OF_RANGE" else Ok tt.

(** [for x in l { f(x)?; }]. *)
Fixpoint each {A} (f : A -> result Refusal unit) (l : list A) : result Refusal unit :=
  match l with [] => Ok tt | x :: l => _ ← f x; each f l end.

Definition tool_limits : list (string * Z) :=
  [("timeoutMillis", 300000); ("memoryBytes", 268435456); ("argumentBytes", 65536); ("outputBytes", 65536)].
Definition tool_ok (tool : Value) : result Refusal unit :=
  let l := vget "limits" tool in
  _ ← each (limit_ok l) tool_limits;
  when (or_else (Ok (negb (is_str (vget "workspace" l) "none")))
                (e ← text (vget "effects" l); Ok (negb (among ["none"; "external-side-effects"] e))))
    "AUTH_LIMIT_OUT_OF_RANGE".

Definition route_ok (r : Value) : result Refusal unit :=
  let source := vget "credentialSource" r in
  if is_str (vget "provider" r) "none" then
    if negb (is_str (vget "auth" r) "none") || negb (is_null source) || negb (is_null (vget "modelConnectionUid" r))
    then Err "AUTH_ROUTE_MISMATCH" else Ok tt
  else
    streaming ← ok_or (as_bool (vget "streaming" r)) MALFORMED;
    if (streaming : bool) then Err "AUTH_STREAMING_UNSUPPORTED" else
    protocol ← text (vget "protocol" r);
    if negb (among ["openai-chat"; "anthropic-messages"] protocol) then Err "AUTH_PROTOCOL_UNSUPPORTED" else
    auth ← text (vget "auth" r);
    if (String.eqb auth "secret" && negb (is_null source)) || (String.eqb auth "none" && is_null source)
    then Ok tt else Err "AUTH_ROUTE_MISMATCH".

Definition window_ok (issued admission nbf : Z) : bool :=
  negb ((admission <? issued) || (60 <? admission - issued) || (nbf <? issued - 5) || (admission <? nbf)).

Definition validate_decision (d : Value) : result Refusal unit :=
  if negb (is_str (vget "apiVersion" d) "celln.sympozium.ai/authorisation-decision-v1")
  then Err "AUTH_VERSION_UNSUPPORTED" else
  cluster ← text (vget "clusterId" d);
  if str_is_empty cluster then Err "AUTH_LIFECYCLE_INVALID" else
  let w := vget "windows" d in
  issued ← number (vget "issuedAt" w); admission ← number (vget "admissionDeadline" w);
  nbf ← number (vget "notBefore" w);
  if negb (window_ok issued admission nbf) then Err "AUTH_WINDOW_INVALID" else
  let b := vget "budget" d in
  _ ← each (caps_ok b) ["requests"; "outputTokens"];
  _ ← lifecycle_ok d b;
  _ ← when (if str_among (vget "operation" d) ["execution.start"; "execution.turn"]
            then t ← number (vget "turnDeadlineUnix" b); Ok (t <=? issued) else Ok false)
        "AUTH_LIFECYCLE_INVALID";
  tools ← match vget "tools" d with Null => Ok [] | VArray items => Ok items | _ => Err MALFORMED end;
  _ ← each tool_ok tools;
  route_ok (vget "route" d).

(** ** Keys *)

Definition key_byte (c : byte) : bool := is_alnum c || bool_decide (c = x2d) || bool_decide (c = x5f).
Definition bad_key_id (id : string) : bool := str_is_empty id || (64 <? str_len id) || negb (all_bytes key_byte id).

(** [reload_keys] replaces the whole table, or refuses and leaves it as it was. *)
Definition reload_keys (v : Verifier) (ks : gmap string bytes) : result Refusal Verifier :=
  if bool_decide (ks = ∅) || (64 <? Z.of_nat (size ks)) || existsb bad_key_id (btree_keys ks)
  then Err "AUTH_CRED_KEY_UNAVAILABLE" else Ok (mkVerifier (issuer v) ks).

(** [Verifier::new]; its two schemas compile. *)
Definition new (iss : string) (ks : gmap string bytes) : result Refusal Verifier :=
  if str_is_empty iss then Err "AUTH_CRED_KEY_UNAVAILABLE" else reload_keys (mkVerifier iss ∅) ks.

Section verifier.
Context (scalar : Value -> option bytes) (quoted : string -> option bytes).
Context `{JsonText} `{Sha256} `{Json Value} `{Ed25519} `{Formats}.
Notation canonical := (canonical scalar quoted).

Definition add_key (ks : gmap string bytes) (k : PublicKey) : result Refusal (gmap string bytes) :=
  let e := "AUTH_CRED_KEY_UNAVAILABLE" in
  if negb (String.eqb (kty k) "OKP") || negb (String.eqb (crv k) "Ed25519")
     || negb (String.eqb (k_alg k) "EdDSA") || negb (String.eqb (usage k) "sig") then Err e else
  b ← ok_or (url_safe_decode (k_x k)) e;
  _ ← ensure (blen b =? 32) e;
  _ ← ensure (key_from_bytes b) e;
  if is_Some_bool (ks !! k_kid k) then Err e else Ok (<[k_kid k := b]> ks).

Fixpoint add_keys (ks : gmap string bytes) (l : list PublicKey) : result Refusal (gmap string bytes) :=
  match l with [] => Ok ks | k :: l => ks ← add_key ks k; add_keys ks l end.

Definition parse_public_keys (raw : bytes) : result Refusal (gmap string bytes) :=
  let e := "AUTH_CRED_KEY_UNAVAILABLE" in
  if 65536 <? blen raw then Err e else
  _ ← map_err (fun _ => e) (canonical raw);
  l ← ok_or (keyset_of raw) e;
  add_keys ∅ l.

Definition from_jwks (iss : string) (raw : bytes) : result Refusal Verifier :=
  ks ← parse_public_keys raw; new iss ks.
Definition reload_jwks (v : Verifier) (raw : bytes) : result Refusal Verifier :=
  ks ← parse_public_keys raw; reload_keys v ks.

(** ** Verification *)

(** The three parts of a compact token. *)
Definition parts_of (token : string) : option (string * string * string) :=
  match split_char "." token with
  | [h; p; s] => if str_is_empty h || str_is_empty p || str_is_empty s then None else Some (h, p, s)
  | _ => None
  end.

(** [verify] up to the signature: what the token carries once it is authentic. *)
Definition verify_signature (v : Verifier) (token : string) : result Refusal bytes :=
  '(h, p, s) ← ok_or (parts_of token) MALFORMED;
  header ← ok_or (url_safe_decode h) MALFORMED;
  if 1024 <? blen header then Err "AUTH_CRED_HEADER_SIZE" else
  payload ← ok_or (url_safe_decode p) MALFORMED;
  signature ← ok_or (url_safe_decode s) MALFORMED;
  _ ← map_err (fun _ => MALFORMED) (canonical header);
  _ ← map_err (fun _ => MALFORMED) (canonical payload);
  hd ← ok_or (header_of header) "AUTH_CRED_UNKNOWN_FIELD";
  if negb (String.eqb (alg hd) "EdDSA") then Err "AUTH_CRED_ALG_UNSUPPORTED" else
  if negb (String.eqb (typ hd) "celln-authorisation+jws") then Err "AUTH_CRED_TYP_UNSUPPORTED" else
  key ← ok_or (keys v !! kid hd) "AUTH_CRED_KID_UNKNOWN";
  _ ← ensure (blen signature =? 64) "AUTH_CRED_SIG_INVALID";
  _ ← ensure (verify_strict key (as_bytes (h ++ "." ++ p)) signature) "AUTH_CRED_SIG_INVALID";
  Ok payload.

(** [verify] up to the digest: the decision, well-formed, and the claims bound to it. *)
Definition verify_binding (v : Verifier) (payload decision : bytes) : result Refusal (Value * Claims) :=
  cd ← map_err (fun _ => MALFORMED) (canonical decision);
  d ← ok_or (from_slice cd) MALFORMED;
  _ ← validate_decision d;
  _ ← ensure (decision_schema d) MALFORMED;
  claim_value ← ok_or (from_slice payload) MALFORMED;
  _ ← ensure (credential_schema claim_value) MALFORMED;
  c ← ok_or (claims_of payload) "AUTH_CRED_UNKNOWN_FIELD";
  if negb (String.eqb (c_api_version c) "celln.sympozium.ai/authorisation-credential-v1")
  then Err "AUTH_VERSION_UNSUPPORTED" else
  if negb (String.eqb (decision_digest c) (digest cd)) then Err "AUTH_DECISION_DIGEST_MISMATCH" else
  if negb (String.eqb (iss c) (issuer v)) then Err "AUTH_ISS_MISMATCH" else
  Ok (d, c).

Definition audience_of (op : string) : option string :=
  if String.eqb op "model.invoke" then Some "sympozium-model-gateway" else
  if among ["execution.start"; "execution.turn"; "execution.read"; "execution.cleanup"] op
  then Some "celln-execution" else None.

(** The subject, the operation and the budget. *)
Definition verify_scope (c : Claims) (d : Value) (ctx : Receiver) : result Refusal unit :=
  expected ← ok_or (audience_of (expected_operation ctx)) "AUTH_OPERATION_MISMATCH";
  if negb (String.eqb (aud c) (expected_audience ctx)) || negb (String.eqb expected (expected_audience ctx))
  then Err "AUTH_AUD_MISMATCH" else
  derived ← (if String.eqb (operation c) "model.invoke"
             then o ← text (vget "operation" d);
                  Ok (among ["execution.start"; "execution.turn"] o && negb (is_str (vget "provider" (vget "route" d)) "none"))
             else Ok false);
  _ ← when (or_else (Ok (negb (String.eqb (operation c) (expected_operation ctx))))
                    (if (derived : bool) then Ok false else o ← text (vget "operation" d); Ok (negb (String.eqb (operation c) o))))
        "AUTH_OPERATION_MISMATCH";
  b ← text (vget "budgetId" (vget "budget" d));
  if negb (String.eqb (c_budget_id c) b) || negb (String.eqb (budget_id ctx) (c_budget_id c)) then Err "AUTH_BUDGET_MISMATCH" else
  uid ← text (vget "uid" (vget "run" d));
  let p := vget "parent" d in
  if negb (String.eqb (s_run_uid (subject c)) uid) || negb (bool_decide (s_turn_id (subject c) = as_str (vget "turnId" p)))
     || negb (bool_decide (s_parent_incarnation (subject c) = as_str (vget "incarnation" p)))
  then Err "AUTH_SUBJECT_MISMATCH" else
  if str_is_empty (jti c) then Err MALFORMED else Ok tt.

Definition verify_times (c : Claims) (d : Value) (ctx : Receiver) : result Refusal Z :=
  if (now ctx + 5 <? nbf c) || (now ctx + 5 <? iat c) then Err "AUTH_TIME_NOT_YET_VALID" else
  deadline ← number (vget "turnDeadlineUnix" (vget "budget" d));
  if among ["execution.start"; "execution.turn"; "model.invoke"] (operation c) && (deadline + 5 <? now ctx)
  then Err "AUTH_WORK_DEADLINE_EXPIRED" else
  if exp c <=? now ctx - 5 then Err "AUTH_TIME_EXPIRED" else
  issued ← number (vget "issuedAt" (vget "windows" d));
  if iat c <? issued - 5 then Err "AUTH_WINDOW_INVALID" else Ok deadline.

Definition verify_identity (d : Value) (ctx : Receiver) : result Refusal unit :=
  let run := vget "run" d in
  cluster ← text (vget "clusterId" d);
  if negb (String.eqb (cluster_id ctx) cluster) then Err "AUTH_SUBJECT_MISMATCH" else
  _ ← when (or_else (n ← text (vget "namespace" run); Ok (negb (String.eqb (namespace ctx) n)))
                    (u ← text (vget "namespaceUid" run); Ok (negb (String.eqb (namespace_uid ctx) u))))
        "AUTH_NAMESPACE_UID_MISMATCH";
  _ ← when (or_else (u ← text (vget "uid" run); Ok (negb (String.eqb (run_uid ctx) u)))
                    (s ← text (vget "specSha256" run); Ok (negb (String.eqb (run_spec_sha256 ctx) s))))
        "AUTH_RUN_UID_MISMATCH";
  if negb (value_eqb (parent ctx) (vget "parent" d)) then Err "AUTH_PARENT_TURN_MISMATCH" else Ok tt.

Definition verify_operation (c : Claims) (d : Value) (ctx : Receiver) (deadline : Z) : result Refusal (option Refusal) :=
  if among ["execution.start"; "execution.turn"] (operation c) then
    admission ← number (vget "admissionDeadline" (vget "windows" d));
    if admission + 5 <? now ctx then Err "AUTH_ADMISSION_WINDOW_EXPIRED" else
    if admission + 5 <? exp c then Err "AUTH_WINDOW_INVALID" else
    q ← text (vget "requestDigest" d);
    if negb (String.eqb (request_digest ctx) q) then Err "AUTH_REQUEST_BINDING_MISMATCH" else
    if seen_admission_jti ctx then Ok (Some "AUTH_ADMISSION_REPLAY") else Ok None
  else if String.eqb (operation c) "model.invoke" then
    if deadline + 5 <? exp c then Err "AUTH_WINDOW_INVALID" else
    if negb (value_eqb (route ctx) (vget "route" d)) then Err "AUTH_ROUTE_MISMATCH" else Ok None
  else if among ["execution.read"; "execution.cleanup"] (operation c) then
    if 300 <? exp c - iat c then Err "AUTH_WINDOW_INVALID" else Ok None
  else Err "AUTH_OPERATION_MISMATCH".

Definition verify (v : Verifier) (token : string) (decision : bytes) (ctx : Receiver) : result Refusal (option Refusal) :=
  if str_is_empty token || (32768 <? str_len token) || (262144 <? blen decision) then Err "AUTH_CRED_SIZE_EXCEEDED" else
  payload ← verify_signature v token;
  '(d, c) ← verify_binding v payload decision;
  _ ← verify_scope c d ctx;
  deadline ← verify_times c d ctx;
  _ ← verify_identity d ctx;
  verify_operation c d ctx deadline.
End verifier.

(** ** Lemmas *)

Lemma text_Ok v s : text v = Ok s <-> v = VString s.
Proof. unfold text. rewrite ok_or_Ok. destruct v; cbn; naive_solver. Qed.
Lemma number_Ok v n : number v = Ok n <-> value_i64 v = Some n.
Proof. apply ok_or_Ok. Qed.
Lemma when_Ok c e u : when c e = Ok u <-> c = Ok false.
Proof. destruct c as [[]|], u; cbn; naive_solver. Qed.
Lemma or_else_false a b : or_else a b = Ok false <-> a = Ok false /\ b = Ok false.
Proof. destruct a as [[]|]; cbn; naive_solver. Qed.
Lemma if_err_Ok {A} (c : bool) (e : Refusal) (r : result Refusal A) a :
  (if c then Err e else r) = Ok a <-> c = false /\ r = Ok a.
Proof. destruct c; naive_solver. Qed.
Lemma ok_false (c : bool) : @Ok Refusal bool c = Ok false <-> c = false.
Proof. naive_solver. Qed.
Lemma negb_eqb_false a b : negb (String.eqb a b) = false <-> a = b.
Proof. by rewrite negb_false_iff, String.eqb_eq. Qed.
Lemma negb_value_eqb_false a b : negb (value_eqb a b) = false <-> a = b.
Proof. by rewrite negb_false_iff, value_eqb_eq. Qed.
Lemma negb_decide_false (P : Prop) `{Decision P} : negb (bool_decide P) = false <-> P.
Proof. by rewrite negb_false_iff, bool_decide_eq_true. Qed.
Lemma among_elem l s : among l s = true <-> s ∈ l.
Proof.
  unfold among. rewrite existsb_exists, list_elem_of_In. setoid_rewrite String.eqb_eq. naive_solver.
Qed.
Lemma str_among_elem v l : str_among v l = true <-> exists s, v = VString s /\ s ∈ l.
Proof. unfold str_among. destruct v; cbn; try naive_solver. rewrite among_elem. naive_solver. Qed.

Create HintDb steps.
#[export] Hint Rewrite @result_bind_Ok @ensure_Ok @ok_or_Ok @map_err_Ok text_Ok number_Ok when_Ok or_else_false
  @if_err_Ok ok_false negb_eqb_false negb_value_eqb_false @negb_decide_false @orb_false_iff Z.ltb_ge Z.leb_gt : steps.

(** The equations of a run of checks that passes. *)
Ltac steps :=
  repeat match goal with
  | H : _ /\ _ |- _ => destruct H
  | H : exists _, _ |- _ => destruct H
  | H : _ = Ok _ |- _ => progress autorewrite with steps in H
  | H : negb _ = false |- _ => progress autorewrite with steps in H
  | H : orb _ _ = false |- _ => progress autorewrite with steps in H
  | H : (_ <? _) = false |- _ => progress autorewrite with steps in H
  | H : (_ <=? _) = false |- _ => progress autorewrite with steps in H
  | u : unit |- _ => destruct u
  end.

Section specification.
Context {scalar : Value -> option bytes} {quoted : string -> option bytes}.
Context `{JsonText} `{Sha256} `{Json Value} `{Ed25519} `{Formats}.
Notation canonical := (canonical scalar quoted).

(** The token is three parts, of which the third is a strict signature, with a registered
    key, of the other two; header and payload are unambiguous JSON. *)
Definition authentic (v : Verifier) (token : string) (payload : bytes) : Prop :=
  exists h p s header hd sg key, split_char "." token = [h; p; s] /\ h <> "" /\ p <> "" /\ s <> "" /\
    url_safe_decode h = Some header /\ blen header <= 1024 /\ (exists ch, canonical header = Ok ch) /\
    header_of header = Some hd /\ alg hd = "EdDSA" /\ typ hd = "celln-authorisation+jws" /\ keys v !! kid hd = Some key /\
    url_safe_decode s = Some sg /\ blen sg = 64 /\ verify_strict key (as_bytes (h ++ "." ++ p)) sg = true /\
    url_safe_decode p = Some payload /\ (exists cp, canonical payload = Ok cp).

(** *** What a well-formed decision is *)

Definition i64_at (v : Value) (field : string) (n : Z) : Prop := value_i64 (vget field v) = Some n.
Definition string_in (v : Value) (l : list string) : Prop := exists s, v = VString s /\ s ∈ l.

(** A run in one shot has no parent, one turn and no deadline of a parent; the others
    name their parent, and a turn its turn. *)
Definition one_shot_ok (d b : Value) : Prop :=
  string_in (vget "operation" d) ["execution.start"; "execution.read"; "execution.cleanup"] /\ vget "parent" d = Null /\
  i64_at b "maxTurns" 1 /\ i64_at b "parentDeadlineUnix" 0.
Definition enduring_ok (d b : Value) : Prop :=
  let turn := vget "turnId" (vget "parent" d) in
  (vget "lifecycle" d = VString "enduring-initial" /\ turn = Null /\
     string_in (vget "operation" d) ["execution.start"; "execution.read"; "execution.cleanup"] \/
   vget "lifecycle" d = VString "enduring-turn" /\ (exists t, turn = VString t) /\
     string_in (vget "operation" d) ["execution.turn"; "execution.read"; "execution.cleanup"]) /\
  (exists i, vget "incarnation" (vget "parent" d) = VString i) /\
  (exists n, i64_at b "maxTurns" n /\ 1 <= n) /\
  (exists p t, i64_at b "parentDeadlineUnix" p /\ i64_at b "turnDeadlineUnix" t /\ t <= p).
Definition lifecycle_spec (d b : Value) : Prop :=
  vget "lifecycle" d = VString "one-shot" /\ one_shot_ok d b \/ vget "lifecycle" d <> VString "one-shot" /\ enduring_ok d b.

Definition tool_spec (tool : Value) : Prop :=
  let l := vget "limits" tool in
  (forall field most, (field, most) ∈ tool_limits -> exists n, i64_at l field n /\ 1 <= n <= most) /\
  vget "workspace" l = VString "none" /\ string_in (vget "effects" l) ["none"; "external-side-effects"].

(** Without a provider nothing is named; with one, a protocol without streaming, and a
    credential exactly when its authentication is a secret. *)
Definition route_spec (r : Value) : Prop :=
  let source := vget "credentialSource" r in
  if decide (vget "provider" r = VString "none") then
    vget "auth" r = VString "none" /\ source = Null /\ vget "modelConnectionUid" r = Null
  else vget "streaming" r = VBool false /\ string_in (vget "protocol" r) ["openai-chat"; "anthropic-messages"] /\
    (vget "auth" r = VString "secret" /\ source <> Null \/ vget "auth" r = VString "none" /\ source = Null).

Record well_formed (d : Value) : Prop := {
  wf_version : vget "apiVersion" d = VString "celln.sympozium.ai/authorisation-decision-v1";
  wf_cluster : exists cluster, vget "clusterId" d = VString cluster /\ cluster <> "";
  wf_window : exists issued admission nbf, let w := vget "windows" d in
    i64_at w "issuedAt" issued /\ i64_at w "admissionDeadline" admission /\ i64_at w "notBefore" nbf /\
    issued <= admission <= issued + 60 /\ issued - 5 <= nbf <= admission /\
    (string_in (vget "operation" d) ["execution.start"; "execution.turn"] ->
     exists t, i64_at (vget "budget" d) "turnDeadlineUnix" t /\ issued < t);
  wf_caps : forall field, field ∈ ["requests"; "outputTokens"] -> exists t r, let b := vget "budget" d in
    i64_at (vget "turnCap" b) field t /\ i64_at (vget "runCap" b) field r /\ t <= r;
  wf_lifecycle : lifecycle_spec d (vget "budget" d);
  wf_tools : vget "tools" d = Null \/ exists items, vget "tools" d = VArray items /\ Forall tool_spec items;
  wf_route : route_spec (vget "route" d);
}.

(** The payload holds claims that are bound to the decision, which is well-formed. *)
Definition binds (v : Verifier) (payload decision : bytes) (d : Value) (c : Claims) : Prop :=
  exists cd claim_value, canonical decision = Ok cd /\ from_slice cd = Some d /\ well_formed d /\ decision_schema d = true /\
    from_slice payload = Some claim_value /\ credential_schema claim_value = true /\ claims_of payload = Some c /\
    c_api_version c = "celln.sympozium.ai/authorisation-credential-v1" /\ decision_digest c = digest cd /\ iss c = issuer v.

(** The claims, the decision and the receiver agree on who acts, on what, and on the
    operation; a model credential is derived from the decision to execute. *)
Record scoped (c : Claims) (d : Value) (ctx : Receiver) : Prop := {
  sc_audience : audience_of (expected_operation ctx) = Some (expected_audience ctx) /\ aud c = expected_audience ctx;
  sc_operation : operation c = expected_operation ctx;
  sc_decision : vget "operation" d = VString (operation c) \/
    operation c = "model.invoke" /\ vget "provider" (vget "route" d) <> VString "none" /\
    (vget "operation" d = VString "execution.start" \/ vget "operation" d = VString "execution.turn");
  sc_budget : vget "budgetId" (vget "budget" d) = VString (budget_id ctx) /\ c_budget_id c = budget_id ctx;
  sc_subject : vget "uid" (vget "run" d) = VString (s_run_uid (subject c)) /\
    s_turn_id (subject c) = as_str (vget "turnId" (vget "parent" d)) /\
    s_parent_incarnation (subject c) = as_str (vget "incarnation" (vget "parent" d));
  sc_jti : jti c <> "";
  sc_cluster : vget "clusterId" d = VString (cluster_id ctx);
  sc_namespace : vget "namespace" (vget "run" d) = VString (namespace ctx) /\
    vget "namespaceUid" (vget "run" d) = VString (namespace_uid ctx);
  sc_run : vget "uid" (vget "run" d) = VString (run_uid ctx) /\ vget "specSha256" (vget "run" d) = VString (run_spec_sha256 ctx);
  sc_parent : parent ctx = vget "parent" d;
}.

(** Five seconds of clock skew on every side. *)
Record in_time (c : Claims) (d : Value) (ctx : Receiver) : Prop := {
  it_started : nbf c <= now ctx + 5 /\ iat c <= now ctx + 5;
  it_expiry : now ctx < exp c + 5;
  it_issued : exists issued, value_i64 (vget "issuedAt" (vget "windows" d)) = Some issued /\ issued - 5 <= iat c;
  it_operation : exists deadline, value_i64 (vget "turnDeadlineUnix" (vget "budget" d)) = Some deadline /\
    (operation c ∈ ["execution.start"; "execution.turn"] -> now ctx <= deadline + 5 /\
       exists admission, value_i64 (vget "admissionDeadline" (vget "windows" d)) = Some admission /\
         now ctx <= admission + 5 /\ exp c <= admission + 5 /\
         vget "requestDigest" d = VString (request_digest ctx)) /\
    (operation c = "model.invoke" -> now ctx <= deadline + 5 /\ exp c <= deadline + 5 /\ route ctx = vget "route" d) /\
    (operation c ∈ ["execution.read"; "execution.cleanup"] -> exp c - iat c <= 300);
}.

(** A second admission with the same token is told apart, not granted. *)
Definition replayed (c : Claims) (ctx : Receiver) : option Refusal :=
  if among ["execution.start"; "execution.turn"] (operation c) && seen_admission_jti ctx
  then Some "AUTH_ADMISSION_REPLAY" else None.
End specification.


Lemma derived_spec c d : (exists b, (if String.eqb (operation c) "model.invoke"
             then o ← text (vget "operation" d);
                  Ok (among ["execution.start"; "execution.turn"] o && negb (is_str (vget "provider" (vget "route" d)) "none"))
             else Ok false) = Ok b /\
   (if b : bool then Ok false else o ← text (vget "operation" d); Ok (negb (String.eqb (operation c) o))) = Ok false) <->
  vget "operation" d = VString (operation c) \/
    operation c = "model.invoke" /\ vget "provider" (vget "route" d) <> VString "none" /\
    (vget "operation" d = VString "execution.start" \/ vget "operation" d = VString "execution.turn").
Proof.
  assert (Hf : (o ← text (vget "operation" d); Ok (negb (String.eqb (operation c) o))) = Ok false <->
    vget "operation" d = VString (operation c)).
  { rewrite result_bind_Ok. setoid_rewrite text_Ok. setoid_rewrite ok_false. setoid_rewrite negb_eqb_false. naive_solver. }
  assert (Hn : negb (is_str (vget "provider" (vget "route" d)) "none") = true <-> vget "provider" (vget "route" d) <> VString "none").
  { unfold is_str. rewrite negb_true_iff, <- not_true_iff_false, value_eqb_eq. done. }
  destruct (String.eqb_spec (operation c) "model.invoke") as [E|Hne]; [|naive_solver].
  setoid_rewrite result_bind_Ok. setoid_rewrite text_Ok. split.
  - intros (b & (o & Ho & Hb) & Hd). destruct b; [right|left; by apply Hf]. assert (Hb' : forall b, @Ok Refusal bool b = Ok true -> b = true) by congruence.
    apply Hb', andb_true_iff in Hb as [Ha Hp].
    split; [done|]. split; [by apply Hn|]. apply among_elem in Ha. rewrite Ho.
    apply elem_of_cons in Ha as [->|Ha]; [by left|]. apply list_elem_of_singleton in Ha as ->. by right.
  - intros [Ho|(_ & Hp & Ho)].
    + exists false. split; [|by apply Hf]. exists (operation c). split; [done|]. by rewrite E.
    + exists true. split; [|done]. apply Hn in Hp. rewrite Hp. destruct Ho as [->| ->]; by eexists.
Qed.

Lemma scoped_spec c d ctx : verify_scope c d ctx = Ok tt /\ verify_identity d ctx = Ok tt <-> scoped c d ctx.
Proof.
  split.
  - intros [Hs Hi]. unfold verify_scope, verify_identity in *. steps. subst.
    assert (Hj : jti c <> "") by (intros E; by rewrite E in *).
    constructor; try done; try congruence. + apply derived_spec. by eexists. + split; congruence.
  - intros [[Ha Hau] Ho Hd [Hb Hcb] (Hu & Ht & Hp) Hj Hc [Hn Hnu] [Hr Hsp] Hpar].
    assert (Hru : run_uid ctx = s_run_uid (subject c)) by congruence.
    apply derived_spec in Hd as (b & Hb1 & Hb2). apply (proj2 (String.eqb_neq _ _)) in Hj.
    assert (Hj' : str_is_empty (jti c) = false) by done.
    unfold verify_scope, verify_identity. rewrite Ha. cbn [ok_or mbind result_bind]. rewrite Hau, Hb1, Ho.
    rewrite !String.eqb_refl. cbn [negb orb mbind result_bind]. rewrite Ho in Hb2. rewrite Hb2.
    rewrite Hb, Hcb, Hu, Hj', Hc, Hn, Hnu, Hsp, Hpar, Hru, Ht, Hp. cbn [negb orb mbind result_bind or_else when text as_str ok_or].
    rewrite !String.eqb_refl, !bool_decide_eq_true_2 by done. cbn [negb orb mbind result_bind or_else when text as_str ok_or].
    by rewrite (proj2 (value_eqb_eq _ _) eq_refl).
Qed.

(** Every operation falls under one rule. *)
Lemma rule_of s :
  let a := among ["execution.start"; "execution.turn"] s in let m := String.eqb s "model.invoke" in
  let r := among ["execution.read"; "execution.cleanup"] s in
  (a = true /\ m = false /\ r = false /\ audience_of s = Some "celln-execution") \/
  (a = false /\ m = true /\ r = false /\ audience_of s = Some "sympozium-model-gateway") \/
  (a = false /\ m = false /\ r = true /\ audience_of s = Some "celln-execution") \/
  (a = false /\ m = false /\ r = false /\ audience_of s = None).
Proof.
  unfold audience_of, among, existsb.
  destruct (String.eqb_spec s "execution.start") as [->|]; [tauto|].
  destruct (String.eqb_spec s "execution.turn") as [->|]; [tauto|].
  destruct (String.eqb_spec s "model.invoke") as [->|]; [tauto|].
  destruct (String.eqb_spec s "execution.read") as [->|]; [tauto|].
  destruct (String.eqb_spec s "execution.cleanup") as [->|]; tauto.
Qed.

Lemma timed_spec c d ctx r :
  (exists deadline, verify_times c d ctx = Ok deadline /\ verify_operation c d ctx deadline = Ok r) <->
  in_time c d ctx /\ is_Some (audience_of (operation c)) /\ r = replayed c ctx.
Proof.
  assert (Ha : among ["execution.start"; "execution.turn"; "model.invoke"] (operation c) =
    among ["execution.start"; "execution.turn"] (operation c) || String.eqb (operation c) "model.invoke")
    by (unfold among, existsb; by rewrite !orb_false_r, !orb_assoc).
  unfold replayed, verify_times, verify_operation. split.
  - intros (deadline & Ht & Ho). rewrite Ha in Ht. pose proof (rule_of (operation c)) as Hc. cbv zeta in Hc.
    destruct Hc as [(E1 & E2 & E3 & E4)|[(E1 & E2 & E3 & E4)|[(E1 & E2 & E3 & E4)|(E1 & E2 & E3 & E4)]]];
      rewrite E1, E2 in Ht; rewrite E1, ?E2, ?E3 in Ho; rewrite E1, E4; cbn [orb andb] in *; try done; steps.
    all: simplify_eq; split; [|split; [by eexists|by destruct (seen_admission_jti ctx); simplify_eq]].
    all: constructor; [lia|lia|by eexists|]; eexists; split; [done|].
    all: rewrite <- !among_elem, <- String.eqb_eq, E1, E2, E3.
    all: split_and!; try done; try lia.
    intros _. split; [lia|]. eexists. split_and!; [done|lia|lia|congruence].
  - intros ([[Hn Hi] He (issued & His & Hii) (deadline & Hd & Hs & Hm & Hr)] & Hau & ->). exists deadline.
    rewrite <- among_elem in Hs, Hr. rewrite <- String.eqb_eq in Hm. rewrite Ha.
    rewrite (proj2 (Z.ltb_ge _ _) Hn), (proj2 (Z.ltb_ge _ _) Hi). cbn [orb]. unfold number. rewrite Hd, His.
    cbn [ok_or mbind result_bind]. destruct (Z.leb_spec (exp c) (now ctx - 5)); [lia|].
    rewrite (proj2 (Z.ltb_ge _ _) Hii).
    pose proof (rule_of (operation c)) as Hc. cbv zeta in Hc.
    destruct Hc as [(E1 & E2 & E3 & E4)|[(E1 & E2 & E3 & E4)|[(E1 & E2 & E3 & E4)|(E1 & E2 & E3 & E4)]]];
      rewrite E1, ?E2, ?E3; cbn [orb andb].
    + destruct (Hs E1) as (Hnd & admission & Had & H1 & H2 & Hq). rewrite (proj2 (Z.ltb_ge _ _) Hnd). split; [done|].
      rewrite Had. cbn [ok_or mbind result_bind]. rewrite (proj2 (Z.ltb_ge _ _) H1), (proj2 (Z.ltb_ge _ _) H2), Hq.
      cbn. rewrite String.eqb_refl. by destruct (seen_admission_jti ctx).
    + destruct (Hm E2) as (Hnd & H1 & Hq). rewrite (proj2 (Z.ltb_ge _ _) Hnd), (proj2 (Z.ltb_ge _ _) H1), Hq.
      by rewrite (proj2 (value_eqb_eq _ _) eq_refl).
    + by rewrite (proj2 (Z.ltb_ge _ _) (Hr E3)).
    + rewrite E4 in Hau. by destruct Hau.
Qed.

(** ** The decision's checks are its specification *)

Lemma is_str_true v s : is_str v s = true <-> v = VString s.
Proof. apply value_eqb_eq. Qed.
Lemma is_null_true v : is_null v = true <-> v = Null.
Proof. apply value_eqb_eq. Qed.
Lemma string_in_among v l : str_among v l = true <-> string_in v l.
Proof. apply str_among_elem. Qed.
Lemma as_str_Some v s : as_str v = Some s <-> v = VString s.
Proof. destruct v; cbn; naive_solver. Qed.
Lemma each_Ok {A} (f : A -> result Refusal unit) l : each f l = Ok tt <-> Forall (fun x => f x = Ok tt) l.
Proof.
  induction l as [|x l IH]; cbn; [by split; [constructor|]|]. rewrite result_bind_Ok, Forall_cons, <- IH. split.
  - by intros ([] & ? & ?).
  - intros [? ?]. by exists tt.
Qed.
Lemma number_bind {A} v (f : Z -> result Refusal A) a : (n ← number v; f n) = Ok a <-> exists n, value_i64 v = Some n /\ f n = Ok a.
Proof. rewrite result_bind_Ok. by setoid_rewrite number_Ok. Qed.
Lemma text_bind {A} v (f : string -> result Refusal A) a : (s ← text v; f s) = Ok a <-> exists s, v = VString s /\ f s = Ok a.
Proof. rewrite result_bind_Ok. by setoid_rewrite text_Ok. Qed.
Lemma then_Ok {A} (m : result Refusal unit) (k : result Refusal A) a : (_ ← m; k) = Ok a <-> m = Ok tt /\ k = Ok a.
Proof. rewrite result_bind_Ok. split; [by intros ([] & ?)|]. intros ?. by exists tt. Qed.

Lemma caps_spec b field : caps_ok b field = Ok tt <->
  exists t r, i64_at (vget "turnCap" b) field t /\ i64_at (vget "runCap" b) field r /\ t <= r.
Proof.
  unfold caps_ok, i64_at. rewrite number_bind. setoid_rewrite number_bind. setoid_rewrite if_err_Ok. setoid_rewrite Z.ltb_ge. naive_solver.
Qed.

Lemma lifecycle_ok_spec d b : lifecycle_ok d b = Ok tt <-> lifecycle_spec d b.
Proof.
  unfold lifecycle_ok, lifecycle_spec, one_shot_ok, enduring_ok, i64_at. destruct (is_str (vget "lifecycle" d) "one-shot") eqn:El.
  - apply is_str_true in El. rewrite when_Ok, !or_else_false, ok_false, orb_false_iff, !negb_false_iff, string_in_among, is_null_true, !number_bind.
    setoid_rewrite ok_false. setoid_rewrite negb_false_iff. setoid_rewrite Z.eqb_eq. split.
    + intros ([? ?] & (? & ? & ->) & (? & ? & ->)). left. by split_and!.
    + intros [(_ & ? & ? & ? & ?)|[? _]]; [|done]. split_and!; try done; by eexists.
  - assert (Hne : vget "lifecycle" d <> VString "one-shot") by (intros E; apply is_str_true in E; congruence).
    rewrite when_Ok, !or_else_false, ok_false, orb_false_iff, !negb_false_iff, !number_bind.
    setoid_rewrite number_bind. setoid_rewrite ok_false. setoid_rewrite Z.ltb_ge.
    assert (Hi : is_Some_bool (as_str (vget "incarnation" (vget "parent" d))) = true <-> exists i, vget "incarnation" (vget "parent" d) = VString i).
    { setoid_rewrite <- as_str_Some. destruct (as_str _); naive_solver. }
    assert (Hv : match as_str (vget "lifecycle" d) with
      | Some "enduring-initial" => str_among (vget "operation" d) ["execution.start"; "execution.read"; "execution.cleanup"] && is_null (vget "turnId" (vget "parent" d))
      | Some "enduring-turn" => str_among (vget "operation" d) ["execution.turn"; "execution.read"; "execution.cleanup"] && is_Some_bool (as_str (vget "turnId" (vget "parent" d)))
      | _ => false end = true <->
      (vget "lifecycle" d = VString "enduring-initial" /\ vget "turnId" (vget "parent" d) = Null /\
         string_in (vget "operation" d) ["execution.start"; "execution.read"; "execution.cleanup"] \/
       vget "lifecycle" d = VString "enduring-turn" /\ (exists t, vget "turnId" (vget "parent" d) = VString t) /\
         string_in (vget "operation" d) ["execution.turn"; "execution.read"; "execution.cleanup"])).
    { setoid_rewrite <- as_str_Some. rewrite <- is_null_true, <- string_in_among, <- string_in_among. destruct (as_str (vget "lifecycle" d)) as [l|]; [|naive_solver].
      destruct (String.eqb_spec l "enduring-initial") as [->|N1]; [rewrite andb_true_iff; naive_solver|].
      destruct (String.eqb_spec l "enduring-turn") as [->|N2]; [rewrite andb_true_iff; destruct (as_str (vget "turnId" _)); naive_solver|].
      assert (E : match l with "enduring-initial" => str_among (vget "operation" d) ["execution.start"; "execution.read"; "execution.cleanup"] && is_null (vget "turnId" (vget "parent" d))
        | "enduring-turn" => str_among (vget "operation" d) ["execution.turn"; "execution.read"; "execution.cleanup"] && is_Some_bool (as_str (vget "turnId" (vget "parent" d)))
        | _ => false end = false) by (clear - N1 N2; repeat case_match; congruence).
      rewrite E. naive_solver. }
    rewrite Hi, Hv. naive_solver.
Qed.

Lemma limit_spec l field most : limit_ok l (field, most) = Ok tt <-> exists n, i64_at l field n /\ 1 <= n <= most.
Proof.
  unfold limit_ok, i64_at. cbn. rewrite number_bind. setoid_rewrite if_err_Ok. setoid_rewrite orb_false_iff. setoid_rewrite Z.ltb_ge. naive_solver.
Qed.

Lemma tool_ok_spec tool : tool_ok tool = Ok tt <-> tool_spec tool.
Proof.
  unfold tool_ok, tool_spec. rewrite then_Ok, each_Ok, Forall_forall, when_Ok, or_else_false, ok_false, negb_false_iff, is_str_true, text_bind.
  setoid_rewrite ok_false. setoid_rewrite negb_false_iff. setoid_rewrite among_elem. split.
  - intros (Hl & Hw & He). split; [|done]. intros field most Hf. by apply limit_spec, Hl.
  - intros (Hl & Hw & He). split; [|done]. intros [field most] Hf. by apply limit_spec, Hl.
Qed.

Lemma route_ok_spec r : route_ok r = Ok tt <-> route_spec r.
Proof.
  unfold route_ok, route_spec. destruct (decide (vget "provider" r = VString "none")) as [E|N].
  - rewrite (proj2 (is_str_true _ _) E), if_err_Ok, !orb_false_iff, !negb_false_iff, is_str_true, !is_null_true. naive_solver.
  - assert (Hf : is_str (vget "provider" r) "none" = false) by (by rewrite <- not_true_iff_false, is_str_true). rewrite Hf.
    rewrite result_bind_Ok. setoid_rewrite ok_or_Ok. setoid_rewrite if_err_Ok. setoid_rewrite text_bind. setoid_rewrite if_err_Ok.
    setoid_rewrite text_bind. setoid_rewrite negb_false_iff. setoid_rewrite among_elem. unfold string_in.
    assert (Hc : forall auth, (if (String.eqb auth "secret" && negb (is_null (vget "credentialSource" r))) ||
        (String.eqb auth "none" && is_null (vget "credentialSource" r)) then Ok tt else Err "AUTH_ROUTE_MISMATCH") = Ok tt <->
      auth = "secret" /\ vget "credentialSource" r <> Null \/ auth = "none" /\ vget "credentialSource" r = Null).
    { intros auth. rewrite <- is_null_true, <- !String.eqb_eq. destruct (String.eqb auth "secret"), (String.eqb auth "none"), (is_null _); cbn; naive_solver. }
    setoid_rewrite Hc. assert (Hb : forall b, as_bool (vget "streaming" r) = Some b <-> vget "streaming" r = VBool b) by (intros b; destruct (vget "streaming" r); cbn; naive_solver).
    setoid_rewrite Hb. naive_solver.
Qed.

Lemma tools_spec d : (exists tools, match vget "tools" d with Null => Ok [] | VArray items => Ok items | _ => Err MALFORMED end = Ok tools /\ each tool_ok tools = Ok tt) <->
  vget "tools" d = Null \/ exists items, vget "tools" d = VArray items /\ Forall tool_spec items.
Proof.
  setoid_rewrite each_Ok. assert (Hf : forall l, Forall (fun x => tool_ok x = Ok tt) l <-> Forall tool_spec l) by (intros l; apply Forall_iff, tool_ok_spec).
  setoid_rewrite Hf. destruct (vget "tools" d); naive_solver.
Qed.

Lemma window_spec issued admission nbf : window_ok issued admission nbf = true <-> issued <= admission <= issued + 60 /\ issued - 5 <= nbf <= admission.
Proof. unfold window_ok. rewrite negb_true_iff, !orb_false_iff, !Z.ltb_ge. lia. Qed.

Lemma admit_spec d issued : when (if str_among (vget "operation" d) ["execution.start"; "execution.turn"]
    then t ← number (vget "turnDeadlineUnix" (vget "budget" d)); Ok (t <=? issued) else Ok false) "AUTH_LIFECYCLE_INVALID" = Ok tt <->
  (string_in (vget "operation" d) ["execution.start"; "execution.turn"] -> exists t, i64_at (vget "budget" d) "turnDeadlineUnix" t /\ issued < t).
Proof.
  rewrite when_Ok. unfold i64_at. rewrite <- string_in_among. destruct (str_among _ _); [|naive_solver].
  rewrite number_bind. setoid_rewrite ok_false. setoid_rewrite Z.leb_gt. naive_solver.
Qed.

Lemma all_caps_spec b : caps_ok b "requests" = Ok tt /\ caps_ok b "outputTokens" = Ok tt /\ @Ok Refusal unit tt = Ok tt <->
  (forall field, field ∈ ["requests"; "outputTokens"] -> exists t r, i64_at (vget "turnCap" b) field t /\ i64_at (vget "runCap" b) field r /\ t <= r).
Proof.
  rewrite !caps_spec. split; [|intros Hf; split_and!; [apply Hf; left|apply Hf; right; left|done]].
  intros (H1 & H2 & _) field [->|[->|[]%elem_of_nil]%elem_of_cons]%elem_of_cons; done.
Qed.

Lemma validate_decision_spec d : validate_decision d = Ok tt <-> well_formed d.
Proof.
  unfold validate_decision. cbv zeta. rewrite if_err_Ok, negb_false_iff, is_str_true, text_bind. setoid_rewrite if_err_Ok. setoid_rewrite number_bind.
  setoid_rewrite number_bind. setoid_rewrite number_bind. setoid_rewrite if_err_Ok. setoid_rewrite negb_false_iff. setoid_rewrite window_spec.
  setoid_rewrite then_Ok. setoid_rewrite then_Ok. setoid_rewrite then_Ok. setoid_rewrite all_caps_spec. setoid_rewrite lifecycle_ok_spec. setoid_rewrite admit_spec.
  setoid_rewrite result_bind_Ok. setoid_rewrite then_Ok. setoid_rewrite route_ok_spec.
  assert (Hc : forall s, str_is_empty s = false <-> s <> "") by (intros s; by rewrite <- not_true_iff_false, str_is_empty_true). setoid_rewrite Hc.
  split.
  - intros (Hv & cluster & Hcl & Hne & issued & Hi & admission & Ha & nbf & Hn & [Hw1 Hw2] & Hcaps & Hl & Hadm & tools & Ht & Hts & Hr).
    constructor; try done.
    + by exists cluster.
    + by exists issued, admission, nbf.
    + apply tools_spec. by exists tools.
  - intros [Hv (cluster & Hcl & Hne) (issued & admission & nbf & Hi & Ha & Hn & Hw1 & Hw2 & Hadm) Hcaps Hl Ht Hr].
    apply tools_spec in Ht as (tools & Ht & Hts). split; [done|]. exists cluster. split_and!; try done.
    exists issued. split; [done|]. exists admission. split; [done|]. exists nbf. split; [done|]. split_and!; try done.
    all: try lia. exists tools. by rewrite Hts.
Qed.

Section properties.
Context {scalar : Value -> option bytes} {quoted : string -> option bytes}.
Context `{JsonText} `{Sha256} `{Json Value} `{Ed25519} `{Formats}.
Notation verify := (verify scalar quoted).
Notation canonical := (canonical scalar quoted).
Notation authentic := (authentic (scalar := scalar) (quoted := quoted)).
Notation binds := (binds (scalar := scalar) (quoted := quoted)).

Lemma parts_of_spec token h p s : parts_of token = Some (h, p, s) <-> split_char "." token = [h; p; s] /\ h <> "" /\ p <> "" /\ s <> "".
Proof.
  unfold parts_of. rewrite <- !str_is_empty_true. destruct (split_char "." token) as [|h' [|p' [|s' [|? ?]]]]; try by split; [|intros (? & _)].
  destruct (str_is_empty h') eqn:E1, (str_is_empty p') eqn:E2, (str_is_empty s') eqn:E3; cbn; split;
    try (intros [= -> -> ->]; rewrite E1, E2, E3); try (intros ([= -> -> ->] & ?)); try done; by rewrite E1, E2, E3 in *; naive_solver.
Qed.

Lemma map_err_unit {A E} (r : result E A) (e : Refusal) a : map_err (fun _ => e) r = Ok a <-> r = Ok a.
Proof. destruct r; cbn; naive_solver. Qed.

Lemma signature_spec v token payload : verify_signature scalar quoted v token = Ok payload <-> authentic v token payload.
Proof.
  unfold verify_signature, Credentials.authentic. split.
  - intros Hv. apply result_bind_Ok in Hv as ([[h p] s] & Hp & Hv). apply ok_or_Ok, parts_of_spec in Hp as (Hsp & Hh & Hpp & Hss).
    steps. simplify_eq. exists h, p, s. do 4 eexists. split_and!; try done; try (by eexists); by apply Z.eqb_eq.
  - intros (h & p & s & header & hd & sg & key & Hsp & Hh & Hp & Hs & Hdh & Hl & [ch Hch] & Hhd & Ha & Ht & Hk & Hsg & Hlen & Hvs & Hdp & [cp Hcp]).
    rewrite (proj2 (parts_of_spec token h p s)) by done. cbn [ok_or mbind result_bind]. rewrite Hdh. cbn [ok_or mbind result_bind].
    rewrite (proj2 (Z.ltb_ge _ _) Hl), Hdp, Hsg. cbn [ok_or mbind result_bind]. rewrite Hch, Hcp. cbn [map_err mbind result_bind].
    rewrite Hhd. cbn [ok_or mbind result_bind]. rewrite Ha, Ht, Hk. cbn [ok_or mbind result_bind]. rewrite Hlen, Hvs. done.
Qed.

Lemma binding_spec v payload decision d c : verify_binding scalar quoted v payload decision = Ok (d, c) <-> binds v payload decision d c.
Proof.
  unfold verify_binding, Credentials.binds. split.
  - intros Hv. steps. simplify_eq. do 2 eexists. split_and!; try done. by apply validate_decision_spec.
  - intros (cd & cv & Hcd & Hd & Hw & Hsch & Hcv & Hcs & Hc & Hver & Hdig & Hiss). apply validate_decision_spec in Hw.
    rewrite Hcd. cbn [map_err mbind result_bind]. rewrite Hd. cbn [ok_or mbind result_bind]. rewrite Hw, Hsch. cbn [ensure mbind result_bind].
    rewrite Hcv. cbn [ok_or mbind result_bind]. rewrite Hcs. cbn [ensure mbind result_bind]. rewrite Hc. cbn [ok_or mbind result_bind].
    by rewrite Hver, Hdig, Hiss, !String.eqb_refl.
Qed.

Lemma verify_spec v token decision ctx r :
  verify v token decision ctx = Ok r <->
  token <> "" /\ str_len token <= 32768 /\ blen decision <= 262144 /\
  exists payload d c, authentic v token payload /\ binds v payload decision d c /\ scoped c d ctx /\ in_time c d ctx /\ r = replayed c ctx.
Proof.
  setoid_rewrite <- signature_spec. setoid_rewrite <- binding_spec.
  unfold Credentials.verify. rewrite if_err_Ok, !orb_false_iff, !Z.ltb_ge, <- not_true_iff_false, str_is_empty_true.
  rewrite result_bind_Ok. split.
  - intros ([[Hn Ht] Hd] & payload & Hs & Hv). split_and!; try done. apply result_bind_Ok in Hv as ([d c] & Hb & Hv).
    apply result_bind_Ok in Hv as ([] & Hsc & Hv). apply result_bind_Ok in Hv as (deadline & Htm & Hv).
    apply result_bind_Ok in Hv as ([] & Hid & Ho). exists payload, d, c. split_and!; try done.
    + by apply scoped_spec.
    + by apply (timed_spec c d ctx r); eexists.
    + by apply (timed_spec c d ctx r); eexists.
  - intros (Hn & Ht & Hd & payload & d & c & Hs & Hb & Hsc & Hti & Hr). split; [done|]. exists payload. split; [done|].
    rewrite Hb. cbn [mbind result_bind]. pose proof Hsc as [[Ha Hau] Ho _ _ _ _ _ _ _ _]. apply scoped_spec in Hsc as [Hs1 Hs2].
    rewrite Hs1. cbn [mbind result_bind]. destruct (proj2 (timed_spec c d ctx r)) as (deadline & Ht1 & Ht2).
    + split; [done|]. split; [|done]. rewrite Ho, Ha. by eexists.
    + by rewrite Ht1; cbn [mbind result_bind]; rewrite Hs2.
Qed.

(** C17: Verification decides exactly its specification. A token is accepted if and only
    if it fits the limits; is three parts, with an EdDSA header of at most 1 KiB and of
    this type, and with the strict signature of 64 bytes, by the key registered under
    its key id, of its first two parts; holds claims of this issuer that carry the
    digest of exactly this decision, which is well-formed (version, cluster, windows,
    caps, lifecycle, limits of the tools, route); agrees with the receiver on subject,
    operation, run and budget; and falls in its time windows with five seconds of skew.
    It is reported as a replay exactly when it would admit work and the receiver has
    seen its identifier. *)
Theorem verify_exact (v : Verifier) (token : string) (decision : bytes) (ctx : Receiver) (r : option Refusal) :
  verify v token decision ctx = Ok r <->
  token <> "" /\ str_len token <= 32768 /\ blen decision <= 262144 /\
  exists payload d c, authentic v token payload /\ binds v payload decision d c /\
    scoped c d ctx /\ in_time c d ctx /\ r = replayed c ctx.
Proof. apply verify_spec. Qed.

(** What an accepted token proves, and that it is worth nothing once its key is gone. *)
Theorem verify_authentic (v : Verifier) (token : string) (decision : bytes) (ctx : Receiver) (r : option Refusal) :
  verify v token decision ctx = Ok r ->
  exists payload d c, authentic v token payload /\ binds v payload decision d c /\ now ctx < exp c + 5 /\
    forall ks v', reload_keys v ks = Ok v' -> (forall h p s header hd, split_char "." token = [h; p; s] ->
        url_safe_decode h = Some header -> header_of header = Some hd -> ks !! kid hd = None) ->
      forall ctx' r', verify v' token decision ctx' <> Ok r'.
Proof.
  intros (_ & _ & _ & payload & d & c & Hs & Hb & _ & Ht & _)%verify_spec. exists payload, d, c. split_and!; [done|done|apply Ht|].
  intros ks v' Hv Hk ctx' r' (_ & _ & _ & payload' & d' & c' & (h & p & s & header & hd & sg & key & ? & _ & _ & _ & Hh & _ & _ & Hhd & _ & _ & Hkey & _) & _)%verify_spec.
  unfold reload_keys in Hv. apply if_err_Ok in Hv as [_ [= <-]]. cbn in Hkey. by rewrite (Hk h p s header hd) in Hkey.
Qed.
End properties.
