(* ===== verification/Admission.v ===== *)
(** * Durable admission ([crates/celln-cli/src/tenancy_admission.rs])

    The journal that makes an execution happen at most once: a directory with one row
    for each run and each turn, published before the caller gets the handle that lets
    it execute. Every operation holds the directory's lock, so a history is a sequence
    of operations of any number of owners; every system call may fail, as the fault
    stream of the disk decides, and an operation that fails leaves what it published. *)

From S2P Require Import Prelude Text Json Closure Contract Credentials.

Inductive Error : Type :=
| Credential (r : Refusal)
| RequestConflict
| Unavailable
| Capacity
| BudgetExhausted
| Busy
| Fenced.

(** ** Rows *)

Record Identity : Type := mkIdentity {
  i_cluster_id : string;
  i_namespace : string;
  i_namespace_uid : string;
  i_run_uid : string;
  parent_incarnation : option string;
  turn_id : option string;
}.

Inductive Outcome : Type := Receipt (d : string) | Refused | NeverStarted.

#[export] Instance Identity_eq_dec : EqDecision Identity.
Proof. solve_decision. Defined.
#[export] Instance Outcome_eq_dec : EqDecision Outcome.
Proof. solve_decision. Defined.

(** [Record]. *)
Record Row : Type := mkRow {
  version : Z;
  identity : Identity;
  scope : string;
  run_scope : string;
  active_turn : option string;
  accepted_turns : Z;
  decision_digest : string;
  authority_digest : string;
  fenced : bool;
  run_binding : string;
  r_request_digest : string;
  owner : string;
  outcome : option Outcome;
}.

#[export] Instance Row_eq_dec : EqDecision Row.
Proof. solve_decision. Defined.

(** The derived [Eq] of rows with some fields set. *)
Definition set_outcome (o : option Outcome) (r : Row) : Row :=
  mkRow (version r) (identity r) (scope r) (run_scope r) (active_turn r) (accepted_turns r) (decision_digest r)
    (authority_digest r) (fenced r) (run_binding r) (r_request_digest r) (owner r) o.
Definition set_fenced (f : bool) (r : Row) : Row :=
  mkRow (version r) (identity r) (scope r) (run_scope r) (active_turn r) (accepted_turns r) (decision_digest r)
    (authority_digest r) f (run_binding r) (r_request_digest r) (owner r) (outcome r).
Definition set_turns (a : option string) (n : Z) (r : Row) : Row :=
  mkRow (version r) (identity r) (scope r) (run_scope r) a n (decision_digest r)
    (authority_digest r) (fenced r) (run_binding r) (r_request_digest r) (owner r) (outcome r).

(** A row for which publication has returned; only [claim] makes one. *)
Record Fresh : Type := mkFresh { record : Row }.
Inductive Claim : Type := IsFresh (f : Fresh) | Recovery (r : Row).

Record Enrollment : Type := mkEnrollment { e_decision : bytes; e_request : bytes; e_owner : string }.

(** [s.strip_prefix(p).is_some_and(|s| s.len() == 64 && all lowercase hex)]. *)
Definition digest_of (p s : string) : bool := match strip_prefix p s with Some h => is_hex64 h | None => false end.
Definition blake (s : string) : bool := digest_of "blake3:" s.
Definition sha (s : string) : bool := digest_of "sha256:" s.

(** ** The directory *)

(** A regular file; [f_private] says that it belongs to the user alone. *)
Record File : Type := mkFile { content : bytes; f_private : bool }.

(** [dir_private] says the same of the directory; [faults] which of the next system
    calls fail. *)
Record Disk : Type := mkDisk { files : gmap string File; dir_private : bool; faults : list bool }.

(** [Journal]: the open directory is the disk. *)
Record Journal : Type := mkJournal { j_owner : string; capacity : Z }.

Definition IO (A : Type) : Type := Disk -> result Error A * Disk.
#[export] Instance IO_ret : MRet IO := fun A a d => (Ok a, d).
#[export] Instance IO_bind : MBind IO := fun A B f m d =>
  match m d with (Ok a, d) => f a d | (Err e, d) => (Err e, d) end.

Definition fail {A} (e : Error) : IO A := fun d => (Err e, d).
Definition lift {A} (r : result Error A) : IO A := fun d => (r, d).
Definition guard (c : bool) (e : Error) : IO unit := lift (ensure c e).
Definition get_disk : IO Disk := fun d => (Ok d, d).
Definition put_file (name : string) (f : File) : IO unit := fun d =>
  (Ok tt, mkDisk (<[name := f]> (files d)) (dir_private d) (faults d)).

(** One system call, whose failure is [Unavailable]. *)
Definition sys : IO unit := fun d =>
  match faults d with
  | f :: fs => (if f then Err Unavailable else Ok tt, mkDisk (files d) (dir_private d) fs)
  | [] => (Ok tt, d)
  end.

Fixpoint drop_chars (n : nat) (s : string) : string :=
  match n, s with S n, String _ s => drop_chars n s | _, _ => s end.
Definition path (scope : string) : string := (drop_chars 7 scope ++ ".json")%string.

(** [entry.path().extension() == "json"]: what follows the last dot, when something
    precedes it. *)
Definition is_json (name : string) : bool :=
  match rsplit_once "." name with
  | Some (stem, ext) => negb (str_is_empty stem) && String.eqb ext "json"
  | None => false
  end.

(** The owner and mode of the directory, the lock file, created if missing, and the
    lock itself, for which an operation waits two seconds at most. *)
Definition lock : IO unit :=
  _ ← sys; d ← get_disk;
  _ ← guard (dir_private d) Unavailable;
  _ ← sys;
  _ ← match files d !! "admission.lock" with
      | None => _ ← put_file "admission.lock" (mkFile [] true); sys
      | Some f => _ ← sys; guard (f_private f) Unavailable
      end;
  sys.

Section journal.
Context `{Json Row}.

(** What [load] requires of a row. *)
Definition row_ok (s : string) (r : Row) : bool :=
  let never := bool_decide (outcome r = Some NeverStarted) in
  let idle := negb (is_Some_bool (active_turn r)) && (accepted_turns r =? 0) in
  (version r =? 1) && String.eqb (scope r) s
  && forallb sha [scope r; run_scope r; decision_digest r; authority_digest r; r_request_digest r; run_binding r; owner r]
  && match active_turn r with Some a => sha a | None => true end
  && match outcome r with Some (Receipt d) => blake d | _ => true end
  && negb (never && negb (fenced r && idle))
  && negb (negb never && negb (String.eqb (scope r) (run_scope r)) && negb idle)
  && negb (negb never && String.eqb (scope r) (run_scope r)
           && negb ((1 <=? accepted_turns r) && (accepted_turns r <=? 1024))).

Definition load (s : string) : IO (option Row) :=
  _ ← sys; d ← get_disk;
  match files d !! path s with
  | None => mret None
  | Some f =>
      _ ← sys; _ ← guard (f_private f) Unavailable;
      _ ← sys;
      let raw := take_bytes 8193 (content f) in
      _ ← guard (negb (8192 <? blen raw)) Unavailable;
      r ← lift (ok_or (from_slice raw) Unavailable);
      _ ← guard (row_ok s r) Unavailable;
      mret (Some r)
  end.

(** A temporary file is written and synced, then linked under a free name or renamed
    over the row; the last sync may fail when the row is already there. *)
Definition publish (r : Row) (fresh : bool) : IO unit :=
  _ ← sys; _ ← sys; _ ← sys;
  d ← get_disk;
  _ ← sys;
  _ ← (if fresh && is_Some_bool (files d !! path (scope r)) then fail Unavailable
       else put_file (path (scope r)) (mkFile (to_vec r) true));
  sys.

(** [fs::read_dir]: every entry may fail, and the count stops at the capacity. *)
Fixpoint count_rows (cap count : Z) (names : list string) : IO unit :=
  match names with
  | [] => mret tt
  | n :: names =>
      _ ← sys;
      if is_json n then
        let count := count + 1 in
        if cap <=? count then fail Capacity else count_rows cap count names
      else count_rows cap count names
  end.

(** ** Digests *)

Context (scalar : Value -> option bytes) (quoted : string -> option bytes).
Context `{JsonText} `{Sha256} `{Json Value} `{Ed25519} `{Formats}.
Notation canonical := (canonical scalar quoted).
Notation verify := (verify scalar quoted).

Definition remove (k : string) (o : list (string * Value)) : list (string * Value) :=
  List.filter (fun kv => negb (String.eqb k kv.1)) o.

Definition authority_digest_of (raw : bytes) : result Error string :=
  v ← ok_or (from_slice raw) Unavailable;
  o ← ok_or (match v with VObject o => Some o | _ => None end) Unavailable;
  b ← map_err (fun _ => Unavailable) (canonical (to_vec (VObject (remove "windows" (remove "operation" o)))));
  Ok (digest b).

(** [serde_json::to_vec] of a tuple of strings. *)
Definition tuple (l : list string) : bytes := to_vec (VArray (VString <$> l)).

Definition root_scope (c : Receiver) : string :=
  digest (tuple ["celln.admission-scope/v1"; cluster_id c; namespace_uid c; run_uid c]).

Definition scope_of (c : Receiver) : result Error (string * string) :=
  let root := root_scope c in
  match as_str (vget "turnId" (parent c)) with
  | Some turn =>
      if str_is_empty turn then Err (Credential "AUTH_PARENT_TURN_MISMATCH")
      else Ok (root, digest (tuple ["celln.admission-turn/v1"; root; turn]))
  | None => Ok (root, root)
  end.

Definition binding_fields (d : Value) : list (string * Value) :=
  let b := vget "budget" d in
  [("run", vget "run" d); ("runtime", vget "runtime" d); ("agent", vget "agent" d); ("route", vget "route" d);
   ("incarnation", vget "incarnation" (vget "parent" d)); ("budgetId", vget "budgetId" b); ("runCap", vget "runCap" b);
   ("maxTurns", vget "maxTurns" b); ("parentDeadlineUnix", vget "parentDeadlineUnix" b)].

Definition run_binding_of (d : Value) : string :=
  digest (to_vec (VObject (foldl (fun o kv => oinsert kv.1 kv.2 o) [] (binding_fields d)))).

Definition from_receiver (c : Receiver) : Identity :=
  mkIdentity (cluster_id c) (namespace c) (namespace_uid c) (run_uid c)
    (as_str (vget "incarnation" (parent c))) (as_str (vget "turnId" (parent c))).

(** ** Operations *)

(** [Journal::open]: the directory exists or is made, is private, and the owner is a
    digest of 32 random bytes. *)
Definition open (cap : Z) (epoch : bytes) : IO Journal :=
  if (cap =? 0) || (1000000 <? cap) then fail Capacity else
  _ ← sys; _ ← sys; _ ← sys; d ← get_disk;
  _ ← guard (dir_private d) Unavailable;
  _ ← sys; _ ← sys;
  mret (mkJournal (digest epoch) cap).

(** The row that a claim would publish, once its authority is checked. *)
Definition candidate_of (j : Journal) (v : Verifier) (token : string) (decision request : bytes) (c : Receiver) :
    result Error (bool * Value * Row) :=
  if negb (String.eqb (expected_audience c) "celln-execution")
     || negb (among ["execution.start"; "execution.turn"] (expected_operation c))
  then Err (Credential "AUTH_OPERATION_MISMATCH") else
  replay ← is_Some_bool <$> map_err Credential (verify v token decision c);
  rq ← map_err (fun _ => Credential "AUTH_REQUEST_BINDING_MISMATCH") (canonical request);
  if negb (String.eqb (digest rq) (request_digest c)) then Err (Credential "AUTH_REQUEST_BINDING_MISMATCH") else
  cd ← map_err (fun _ => Credential "AUTH_CRED_MALFORMED") (canonical decision);
  '(root, s) ← scope_of c;
  d ← ok_or (from_slice decision) (Credential "AUTH_CRED_MALFORMED");
  if xorb (String.eqb (expected_operation c) "execution.turn") (negb (String.eqb s root))
  then Err (Credential "AUTH_PARENT_TURN_MISMATCH") else
  a ← authority_digest_of decision;
  Ok (replay, d, mkRow 1 (from_receiver c) s root None (if String.eqb s root then 1 else 0) (digest cd) a false
    (run_binding_of d) (digest rq) (j_owner j) None).

Definition turnless (i : Identity) : Identity :=
  mkIdentity (i_cluster_id i) (i_namespace i) (i_namespace_uid i) (i_run_uid i) (parent_incarnation i) None.

(** The parent of a turn, which must be this owner's, unfenced and not refused. *)
Definition claim_parent (j : Journal) (candidate : Row) : IO Row :=
  o ← load (run_scope candidate);
  original ← lift (ok_or o (Credential "AUTH_CONTEXT_LOST"));
  _ ← guard (String.eqb (run_binding original) (run_binding candidate)
             && bool_decide (identity original = turnless (identity candidate))) RequestConflict;
  _ ← guard (negb (fenced original)) Fenced;
  _ ← guard (String.eqb (owner original) (j_owner j) && negb (bool_decide (outcome original = Some Refused)))
        (Credential "AUTH_CONTEXT_LOST");
  mret original.

(** An existing row is never executed again. *)
Definition recover (existing candidate : Row) : result Error Claim :=
  _ ← ensure (bool_decide (identity existing = identity candidate)
              && String.eqb (decision_digest existing) (decision_digest candidate)
              && String.eqb (r_request_digest existing) (r_request_digest candidate)) RequestConflict;
  _ ← ensure (negb (bool_decide (outcome existing = Some NeverStarted))) Fenced;
  Ok (Recovery existing).

(** The next turn of a parent, when the last one has ended and the budget allows it. *)
Definition take_turn (j : Journal) (d : Value) (candidate p : Row) : IO Row :=
  _ ← guard (is_Some_bool (outcome p)) Busy;
  _ ← match active_turn p with
      | None => mret tt
      | Some active =>
          o ← load active;
          prior ← lift (ok_or o (Credential "AUTH_CONTEXT_LOST"));
          _ ← guard (String.eqb (run_scope prior) (run_scope candidate) && String.eqb (owner prior) (j_owner j)) RequestConflict;
          guard (is_Some_bool (outcome prior)) Busy
      end;
  n ← lift (ok_or (checked_add_u64 (accepted_turns p) 1) BudgetExhausted);
  _ ← guard (n <=? default 0 (as_u64 (vget "maxTurns" (vget "budget" d)))) BudgetExhausted;
  mret (set_turns (Some (scope candidate)) n p).

Definition claim (j : Journal) (v : Verifier) (token : string) (decision request : bytes) (c : Receiver) : IO Claim :=
  '(replay, d, candidate) ← lift (candidate_of j v token decision request c);
  _ ← lock;
  p ← (if String.eqb (expected_operation c) "execution.turn"
       then p ← claim_parent j candidate; mret (Some p) else mret None);
  existing ← load (scope candidate);
  match existing with
  | Some existing => lift (recover existing candidate)
  | None =>
      if (replay : bool) then fail (Credential "AUTH_CONTEXT_LOST") else
      p ← match p with Some p => p ← take_turn j d candidate p; mret (Some p) | None => mret None end;
      _ ← sys; disk ← get_disk;
      _ ← count_rows (capacity j) 0 (map_to_list (files disk)).*1;
      _ ← match p with Some p => publish p false | None => mret tt end;
      _ ← publish candidate true;
      mret (IsFresh (mkFresh candidate))
  end.

(** What an access is about, once its authority and the enrollment are checked: the
    operation's authority and the row of an operation that never started. *)
Definition access_of (v : Verifier) (token : string) (decision : bytes) (c : Receiver) (e : Enrollment) :
    result Error (string * Row) :=
  if negb (String.eqb (expected_audience c) "celln-execution")
     || negb (among ["execution.read"; "execution.cleanup"] (expected_operation c))
  then Err (Credential "AUTH_OPERATION_MISMATCH") else
  _ ← map_err Credential (verify v token decision c);
  _ ← ensure (sha (e_owner e)) RequestConflict;
  rq ← map_err (fun _ => Credential "AUTH_REQUEST_BINDING_MISMATCH") (canonical (e_request e));
  if negb (String.eqb (digest rq) (request_digest c)) then Err (Credential "AUTH_REQUEST_BINDING_MISMATCH") else
  ec ← map_err (fun _ => Credential "AUTH_CRED_MALFORMED") (canonical (e_decision e));
  enrolled ← ok_or (from_slice ec) (Credential "AUTH_CRED_MALFORMED");
  '(root, s) ← scope_of c;
  op ← ok_or (as_str (vget "operation" enrolled)) (Credential "AUTH_OPERATION_MISMATCH");
  if negb (among ["execution.start"; "execution.turn"] op)
     || xorb (String.eqb op "execution.turn") (negb (String.eqb s root))
     || negb (bool_decide (as_str (vget "requestDigest" enrolled) = Some (request_digest c)))
  then Err (Credential "AUTH_OPERATION_MISMATCH") else
  authority ← authority_digest_of decision;
  ea ← authority_digest_of ec;
  _ ← ensure (String.eqb ea authority) RequestConflict;
  Ok (authority, mkRow 1 (from_receiver c) s root None 0 (digest ec) authority true (run_binding_of enrolled)
    (digest rq) (e_owner e) (Some NeverStarted)).

Definition access (v : Verifier) (token : string) (decision : bytes) (c : Receiver) (e : Enrollment) : IO Row :=
  '(authority, candidate) ← lift (access_of v token decision c e);
  _ ← lock;
  o ← load (scope candidate);
  match o with
  | None =>
      if String.eqb (expected_operation c) "execution.read" then fail (Credential "AUTH_CONTEXT_LOST") else
      _ ← (if negb (String.eqb (scope candidate) (run_scope candidate)) then
             p ← load (run_scope candidate);
             match p with
             | Some p => guard (negb (bool_decide (active_turn p = Some (scope candidate)))) (Credential "AUTH_CONTEXT_LOST")
             | None => mret tt
             end
           else mret tt);
      _ ← publish candidate true;
      mret candidate
  | Some r =>
      _ ← guard (String.eqb (authority_digest r) authority && bool_decide (identity r = from_receiver c)
                 && String.eqb (scope r) (scope candidate) && String.eqb (run_scope r) (run_scope candidate)
                 && String.eqb (decision_digest r) (decision_digest candidate)
                 && String.eqb (run_binding r) (run_binding candidate)
                 && String.eqb (r_request_digest r) (r_request_digest candidate)
                 && String.eqb (owner r) (owner candidate)) RequestConflict;
      if String.eqb (expected_operation c) "execution.cleanup" && negb (fenced r)
      then _ ← publish (set_fenced true r) false; mret (set_fenced true r)
      else mret r
  end.

Definition finish (j : Journal) (f : Fresh) (o : Outcome) : IO unit :=
  _ ← guard (String.eqb (owner (record f)) (j_owner j)) RequestConflict;
  _ ← guard (match o with Receipt d => blake d | _ => true end) RequestConflict;
  _ ← lock;
  l ← load (scope (record f));
  current ← lift (ok_or l Unavailable);
  _ ← guard (negb (accepted_turns current <? accepted_turns (record f))) RequestConflict;
  _ ← guard (bool_decide (set_turns None (accepted_turns (record f)) (set_fenced false (set_outcome None current)) = record f))
        RequestConflict;
  match outcome current with
  | Some old => guard (bool_decide (old = o)) RequestConflict
  | None => publish (set_outcome (Some o) current) false
  end.
End journal.
