(* ===== verification/AdmissionLaws.v ===== *)
(** * What the admission journal guarantees

    Every operation of [Admission] changes the directory in one of a few ways
    ([effect]), whatever fails. A history of operations of any owners, on a directory
    that holds anything at first, keeps an invariant of the handles it gave out: one
    for each scope, at most one unfinished for each run, no more than the budget. *)

From S2P Require Import Prelude Text Json Closure Contract Credentials Admission.

Lemma io_bind_Ok {A B} (m : IO A) (f : A -> IO B) d b d' :
  (m ≫= f) d = (Ok b, d') <-> exists a d1, m d = (Ok a, d1) /\ f a d1 = (Ok b, d').
Proof. unfold mbind, IO_bind. destruct (m d) as [[a|e] d1]; naive_solver. Qed.

Lemma lift_inv {A} (r : result Error A) d x d' : lift r d = (x, d') -> r = x /\ d' = d.
Proof. by intros [= <- <-]. Qed.
Lemma guard_Ok c e d u d' : guard c e d = (Ok u, d') <-> c = true /\ d' = d.
Proof. unfold guard, lift. destruct u, c; cbn; naive_solver. Qed.

(** ** Operations that leave the rows alone *)

Definition same_rows (fs fs' : gmap string File) : Prop := forall s, fs' !! path s = fs !! path s.

#[export] Instance same_rows_refl : Reflexive same_rows.
Proof. by intros fs s. Qed.
#[export] Instance same_rows_trans : Transitive same_rows.
Proof. intros a b c Hab Hbc s. by rewrite Hbc, Hab. Qed.

Definition quiet {A} (m : IO A) : Prop := forall d, same_rows (files d) (files (m d).2).

Lemma quiet_done {A} (a : A) : quiet (mret a).
Proof. done. Qed.
Lemma quiet_fail {A} e : quiet (@fail A e).
Proof. done. Qed.
Lemma quiet_value {A} (r : result Error A) : quiet (lift r).
Proof. done. Qed.
Lemma quiet_guard c e : quiet (guard c e).
Proof. done. Qed.
Lemma quiet_get : quiet get_disk.
Proof. done. Qed.
Lemma quiet_sys : quiet sys.
Proof. intros d. unfold sys. by destruct (faults d) as [|[] ?]. Qed.
Lemma quiet_then {A B} (m : IO A) (f : A -> IO B) : quiet m -> (forall a, quiet (f a)) -> quiet (m ≫= f).
Proof.
  intros Hm Hf d. unfold mbind, IO_bind. specialize (Hm d). destruct (m d) as [[a|e] d1]; [|done].
  by transitivity (files d1); [|apply Hf].
Qed.

Create HintDb quiet.
#[export] Hint Resolve quiet_done quiet_fail quiet_value quiet_guard quiet_get quiet_sys : quiet.
Ltac quiet :=
  repeat match goal with
  | |- quiet (_ ≫= _) => apply quiet_then; [|intros ?]
  | |- quiet (match ?x with _ => _ end) => destruct x
  | |- quiet (let _ := _ in _) => cbv zeta
  | |- quiet _ => solve [auto with quiet]
  end.

(** The value of an operation that leaves the rows alone. *)
Lemma quiet_Ok {A} (m : IO A) d a d' : quiet m -> m d = (Ok a, d') -> same_rows (files d) (files d').
Proof. intros Hm E. specialize (Hm d). by rewrite E in Hm. Qed.

Lemma ends_with_app p t : ends_with p (t ++ p)%string = true.
Proof.
  induction t as [|a t IH]; [change (ends_with p p = true); destruct p; cbn [ends_with]; by rewrite String.eqb_refl|].
  change (ends_with p (String a (t ++ p)%string) = true). cbn [ends_with]. by rewrite IH, orb_true_r.
Qed.

Lemma path_not_lock s : path s <> "admission.lock".
Proof. intros E. pose proof (ends_with_app ".json" (drop_chars 7 s)) as Ht. unfold path in E. by rewrite E in Ht. Qed.

Lemma quiet_lock : quiet lock.
Proof.
  unfold lock. apply quiet_then; [apply quiet_sys|intros _]. apply quiet_then; [apply quiet_get|intros d].
  apply quiet_then; [apply quiet_guard|intros _]. apply quiet_then; [apply quiet_sys|intros _].
  apply quiet_then; [|intros _; apply quiet_sys]. destruct (files d !! _); [quiet|].
  apply quiet_then; [|intros _; apply quiet_sys]. intros d' s. cbn. apply lookup_insert_ne.
  intros E. by apply (path_not_lock s).
Qed.

Lemma quiet_count cap n l : quiet (count_rows cap n l).
Proof. revert n. induction l as [|x l IH]; intros n; cbn [count_rows]; quiet. Qed.
#[export] Hint Resolve quiet_lock quiet_count : quiet.

(** A step that leaves the rows alone either ends the operation or hands on its value. *)
Lemma bind_cases {A B} (m : IO A) (f : A -> IO B) d x d' : quiet m -> (m ≫= f) d = (x, d') ->
  (same_rows (files d) (files d') /\ exists e, x = Err e) \/
  exists a d1, m d = (Ok a, d1) /\ same_rows (files d) (files d1) /\ f a d1 = (x, d').
Proof.
  intros Hm. unfold mbind, IO_bind. pose proof (Hm d) as Hd. destruct (m d) as [[a|e] d1].
  - intros E. right. by exists a, d1.
  - intros [= <- <-]. left. split; [done|]. by eexists.
Qed.

(** Follow the rows from disk to disk. *)
Ltac rows :=
  match goal with
  | |- same_rows ?a ?a => reflexivity
  | H : same_rows ?a ?b |- same_rows ?a ?c => solve [transitivity b; [exact H|clear H; rows]]
  end.

(** ** Rows *)

Section rows.
Context `{Json Row}.

Definition stored (fs : gmap string File) (name : string) : option Row := f ← fs !! name; from_slice (content f).

Lemma stored_same fs fs' s : same_rows fs fs' -> stored fs' (path s) = stored fs (path s).
Proof. intros E. unfold stored. by rewrite E. Qed.

Lemma quiet_load s : quiet (load s).
Proof. unfold load. quiet. Qed.
#[local] Hint Resolve quiet_load : quiet.

Lemma take_fits b : blen (take_bytes 8193 b) <= 8192 -> take_bytes 8193 b = b.
Proof. unfold blen, take_bytes. rewrite length_take. intros Hl. apply take_ge. lia. Qed.

Lemma load_Ok s d o d' : load s d = (Ok o, d') ->
  match o with
  | None => files d !! path s = None
  | Some r => stored (files d) (path s) = Some r /\ row_ok s r = true
  end.
Proof.
  unfold load, stored. intros E. apply io_bind_Ok in E as ([] & d1 & E1 & E). pose proof (quiet_Ok _ _ _ _ quiet_sys E1 s) as <-.
  apply io_bind_Ok in E as (? & ? & [= <- <-] & E).
  destruct (files d1 !! path s) as [f|]; [|by injection E as <- <-].
  apply io_bind_Ok in E as (? & ? & _ & E). apply io_bind_Ok in E as (? & ? & _ & E).
  apply io_bind_Ok in E as (? & ? & _ & E). cbv zeta in E.
  apply io_bind_Ok in E as (? & ? & [Hl _]%guard_Ok & E). apply io_bind_Ok in E as (r & ? & Hr & E).
  apply io_bind_Ok in E as (? & ? & [Hok _]%guard_Ok & E). injection E as <- _.
  apply lift_inv in Hr as [Hr%ok_or_Ok _]. apply negb_true_iff, Z.ltb_ge, take_fits in Hl. rewrite Hl in Hr. done.
Qed.

Lemma sys_files d x d' : sys d = (x, d') -> files d' = files d /\ forall e, x = Err e -> e = Unavailable.
Proof. unfold sys. destruct (faults d) as [|[] ?]; intros [= <- <-]; naive_solver. Qed.

Lemma bind_sys {B} (f : unit -> IO B) d x d' : (sys ≫= f) d = (x, d') ->
  (files d' = files d /\ x = Err Unavailable) \/ exists d1, files d1 = files d /\ f tt d1 = (x, d').
Proof.
  unfold mbind, IO_bind. destruct (sys d) as [y d1] eqn:E. apply sys_files in E as [Hf He].
  destruct y as [[]|e]; intros E; [right; by exists d1|left]. injection E as <- <-. by rewrite (He e).
Qed.

(** A publication happens or not; when it succeeds it has. *)
Lemma publish_cases r fresh d x d' : publish r fresh d = (x, d') ->
  (files d' = files d /\ x = Err Unavailable) \/
  ((fresh = true -> files d !! path (scope r) = None) /\
   files d' = <[path (scope r) := mkFile (to_vec r) true]> (files d)).
Proof.
  unfold publish. intros E. apply bind_sys in E as [|(d1 & E1 & E)]; [by left|].
  apply bind_sys in E as [[Ef Ex]|(d2 & E2 & E)]; [left; by rewrite Ef|].
  apply bind_sys in E as [[Ef Ex]|(d3 & E3 & E)]; [left; by rewrite Ef, E2|].
  assert (Ed : files d3 = files d) by congruence. unfold mbind at 1, IO_bind at 1, get_disk in E.
  apply bind_sys in E as [[Ef Ex]|(d4 & E4 & E)]; [left; by rewrite Ef|]. rewrite Ed in E, E4.
  destruct (fresh && is_Some_bool (files d !! path (scope r))) eqn:Hf.
  - injection E as <- <-. by left.
  - unfold mbind, IO_bind, put_file in E. apply sys_files in E as [-> _]. right. cbn. rewrite E4. split; [|done].
    intros ->. cbn in Hf. by destruct (files d !! _).
Qed.

(** How a row may change: only forwards. *)
Record forward (r r' : Row) : Prop := {
  fw_identity : identity r' = identity r;
  fw_scope : scope r' = scope r /\ run_scope r' = run_scope r;
  fw_digests : decision_digest r' = decision_digest r /\ authority_digest r' = authority_digest r /\
    r_request_digest r' = r_request_digest r /\ run_binding r' = run_binding r;
  fw_owner : owner r' = owner r;
  fw_turns : accepted_turns r <= accepted_turns r';
  fw_fenced : fenced r = true -> fenced r' = true;
  fw_outcome : forall o, outcome r = Some o -> outcome r' = Some o;
}.

#[export] Instance forward_refl : Reflexive forward.
Proof. intros r. constructor; repeat split; auto. lia. Qed.
#[export] Instance forward_trans : Transitive forward.
Proof.
  intros a b c [? [? ?] (?&?&?&?) ? ? ? ?] [? [? ?] (?&?&?&?) ? ? ? ?]. constructor; [congruence|split; congruence| |congruence|lia|auto|auto].
  repeat split; congruence.
Qed.

(** ** What an operation does *)

Definition put (r : Row) (fs : gmap string File) : gmap string File := <[path (scope r) := mkFile (to_vec r) true]> fs.

Lemma stored_put r fs : stored (put r fs) (path (scope r)) = Some r.
Proof. unfold stored, put. rewrite lookup_insert_eq. cbn. apply from_to. Qed.
Lemma stored_put_ne r fs n : n <> path (scope r) -> stored (put r fs) n = stored fs n.
Proof. intros Hn. unfold stored, put. by rewrite lookup_insert_ne. Qed.

Record new_row (r : Row) : Prop := {
  nr_active : active_turn r = None;
  nr_turns : accepted_turns r = if String.eqb (scope r) (run_scope r) then 1 else 0;
  nr_open : fenced r = false /\ outcome r = None;
  nr_names : sha (scope r) = true /\ sha (run_scope r) = true;
}.

(** The parent [p] may take the turn of the row [r]. *)
Record turn_allowed (fs : gmap string File) (p r : Row) (budget : Z) : Prop := {
  ta_stored : stored fs (path (run_scope r)) = Some p;
  ta_ok : row_ok (run_scope r) p = true;
  ta_open : fenced p = false /\ owner p = owner r /\ run_binding p = run_binding r;
  ta_outcome : is_Some (outcome p) /\ outcome p <> Some Refused;
  ta_active : forall a, active_turn p = Some a ->
    exists q, stored fs (path a) = Some q /\ is_Some (outcome q);
  ta_budget : accepted_turns p + 1 <= budget;
}.
Definition taken (p r : Row) : Row := set_turns (Some (scope r)) (accepted_turns p + 1) p.

(** The last argument is the handle that the operation gives out. *)
Inductive effect (fs fs' : gmap string File) : option Row -> Prop :=
| Nothing : same_rows fs fs' -> effect fs fs' None
| Started r h :
    fs !! path (scope r) = None -> new_row r -> scope r = run_scope r ->
    same_rows (put r fs) fs' -> h = None \/ h = Some r -> effect fs fs' h
| Taken p r budget fs1 h :
    fs !! path (scope r) = None -> new_row r -> scope r <> run_scope r -> turn_allowed fs p r budget ->
    same_rows (put (taken p r) fs) fs1 ->
    same_rows fs1 fs' /\ h = None \/
    fs1 !! path (scope r) = None /\ same_rows (put r fs1) fs' /\ (h = None \/ h = Some r) ->
    effect fs fs' h
| Never r :
    fs !! path (scope r) = None -> outcome r = Some NeverStarted -> same_rows (put r fs) fs' -> effect fs fs' None
| Fence r :
    stored fs (path (scope r)) = Some r -> same_rows (put (set_fenced true r) fs) fs' -> effect fs fs' None
| Finished r o :
    stored fs (path (scope r)) = Some r -> outcome r = None ->
    same_rows (put (set_outcome (Some o) r) fs) fs' -> effect fs fs' None.

Lemma same_put r fs fs' : same_rows fs fs' -> same_rows (put r fs) (put r fs').
Proof.
  intros E s. unfold put. destruct (decide (path s = path (scope r))) as [->|Hn]; [by rewrite !lookup_insert_eq|].
  by rewrite !lookup_insert_ne by congruence.
Qed.

Lemma turn_allowed_same fs fs' p r b : same_rows fs fs' -> turn_allowed fs p r b -> turn_allowed fs' p r b.
Proof.
  intros E [? ? ? ? Hact ?]. constructor; try done; [by rewrite (stored_same _ _ _ E)|].
  intros a Ha. destruct (Hact a Ha) as (q & ? & ?). exists q. by rewrite (stored_same _ _ _ E).
Qed.

(** The rows that an operation found are what it started from. *)
Lemma effect_same fs0 fs fs' h : same_rows fs0 fs -> effect fs fs' h -> effect fs0 fs' h.
Proof.
  intros E He. destruct He as [Hs|r h Ha Hn Hr Hs Hh|p r b fs1 h Ha Hn Hr [Hp Hok Ho Hout Hact Hb] Hs Hh|r Ha Ho Hs|r Hst Hs|r o Hst Ho Hs].
  - apply Nothing. by transitivity fs.
  - rewrite E in Ha. eapply Started; eauto. by etransitivity; [apply same_put|].
  - rewrite E in Ha. rewrite (stored_same _ _ _ E) in Hp.
    eapply (Taken _ _ p r b fs1); eauto; [|by etransitivity; [apply same_put|]].
    constructor; try done. intros a Ha'. destruct (Hact a Ha') as (q & Hq & Hqo). exists q. by rewrite <- (stored_same _ _ _ E).
  - rewrite E in Ha. eapply Never; eauto. by etransitivity; [apply same_put|].
  - rewrite (stored_same _ _ _ E) in Hst. eapply Fence; eauto. by etransitivity; [apply same_put|].
  - rewrite (stored_same _ _ _ E) in Hst. eapply Finished; eauto. by etransitivity; [apply same_put|].
Qed.
End rows.
#[export] Hint Resolve quiet_load : quiet.

Section operations.
Context `{Json Row} {scalar : Value -> option bytes} {quoted : string -> option bytes}.
Context `{JsonText} `{Sha256} `{Json Value} `{Ed25519} `{Formats}.
Abbreviation canonical := (canonical scalar quoted).
Abbreviation verify := (verify scalar quoted).
Abbreviation candidate_of := (candidate_of scalar quoted).
Abbreviation access_of := (access_of scalar quoted).

Lemma publish_either r fresh d x d' : publish r fresh d = (x, d') ->
  (same_rows (files d) (files d') /\ x = Err Unavailable) \/
  ((fresh = true -> files d !! path (scope r) = None) /\ same_rows (put r (files d)) (files d')).
Proof. intros [[-> ->]|[Hf ->]]%publish_cases; [by left|by right]. Qed.

Lemma claim_parent_Ok j r d p d' : claim_parent j r d = (Ok p, d') ->
  stored (files d) (path (run_scope r)) = Some p /\ row_ok (run_scope r) p = true /\
  run_binding p = run_binding r /\ fenced p = false /\ owner p = j_owner j /\ outcome p <> Some Refused.
Proof.
  unfold claim_parent. intros E. apply io_bind_Ok in E as (o & d1 & Ho%load_Ok & E).
  apply io_bind_Ok in E as (q & d2 & Hq & E). apply lift_inv in Hq as [Hq%ok_or_Ok ->]. subst o. destruct Ho as [Hst Hok].
  apply io_bind_Ok in E as (? & ? & [Hb _]%guard_Ok & E). apply io_bind_Ok in E as (? & ? & [Hf _]%guard_Ok & E).
  apply io_bind_Ok in E as (? & ? & [Hw _]%guard_Ok & E). injection E as <- _. reflect.
  destruct Hb as [Hb _], Hw as [Hw Hr%bool_decide_eq_false]. done.
Qed.

Lemma take_turn_Ok j dv r p d p' d' : take_turn j dv r p d = (Ok p', d') ->
  is_Some (outcome p) /\ p' = taken p r /\
  accepted_turns p + 1 <= default 0 (as_u64 (vget "maxTurns" (vget "budget" dv))) /\
  forall a, active_turn p = Some a -> exists q, stored (files d) (path a) = Some q /\ is_Some (outcome q).
Proof.
  assert (Hs : forall o : option Outcome, is_Some_bool o = true -> is_Some o) by (intros [|]; [by eexists|done]).
  unfold take_turn. intros E. apply io_bind_Ok in E as (? & ? & [Ho ->]%guard_Ok & E).
  apply io_bind_Ok in E as (? & d1 & Ha & E). apply io_bind_Ok in E as (n & ? & Hn & E).
  apply lift_inv in Hn as [Hn%ok_or_Ok%checked_add_u64_Some _]. destruct Hn as [-> _].
  apply io_bind_Ok in E as (? & ? & [Hb%Z.leb_le _]%guard_Ok & E). injection E as <- _.
  split; [by apply Hs|]. split; [done|]. split; [done|]. intros a Hact. rewrite Hact in Ha.
  apply io_bind_Ok in Ha as (o & d2 & Hl%load_Ok & Ha). apply io_bind_Ok in Ha as (q & d3 & Hq & Ha).
  apply lift_inv in Hq as [Hq%ok_or_Ok _]. subst o. destruct Hl as [Hst _].
  apply io_bind_Ok in Ha as (? & ? & _ & Ha). apply guard_Ok in Ha as [Hout _]. exists q. split; [done|by apply Hs].
Qed.

Lemma quiet_claim_parent j r : quiet (claim_parent j r).
Proof. unfold claim_parent. quiet. Qed.
Lemma quiet_take_turn j dv r p : quiet (take_turn j dv r p).
Proof. unfold take_turn. quiet. Qed.
#[local] Hint Resolve quiet_claim_parent quiet_take_turn : quiet.

Definition handle (x : result Error Claim) : option Row :=
  match x with Ok (IsFresh f) => Some (record f) | _ => None end.

Lemma publish_candidate r d x d' :
  (_ ← publish r true; mret (IsFresh (mkFresh r))) d = (x, d') ->
  (same_rows (files d) (files d') /\ handle x = None) \/
  (files d !! path (scope r) = None /\ same_rows (put r (files d)) (files d') /\ (handle x = None \/ handle x = Some r)).
Proof.
  unfold mbind, IO_bind. destruct (publish r true d) as [y d1] eqn:E. intros Ex.
  destruct (publish_either _ _ _ _ _ E) as [[Hs ->]|[Hf Hs]].
  - injection Ex as <- <-. by left.
  - right. split; [by apply Hf|]. destruct y as [[]|e]; injection Ex as <- <-; split; auto.
Qed.

Lemma sha_digest b : sha (digest b) = true.
Proof. unfold sha, digest_of, digest. rewrite strip_prefix_app. apply sha256_hex_wf. Qed.

Lemma scope_of_sha c root s : scope_of c = Ok (root, s) -> sha root = true /\ sha s = true /\ root = root_scope c.
Proof.
  unfold scope_of. pose proof (fun b => sha_digest b) as Hd.
  destruct (as_str _) as [t|]; [destruct (str_is_empty t); [done|]|]; intros [= <- <-]; repeat split; apply Hd.
Qed.

(** The candidate of a claim. *)
Lemma candidate_spec j v token decision request c replay d r :
  candidate_of j v token decision request c = Ok (replay, d, r) ->
  new_row r /\ owner r = j_owner j /\ run_scope r = root_scope c /\
  (String.eqb (expected_operation c) "execution.turn" = true <-> scope r <> run_scope r) /\
  from_slice decision = Some d /\ run_binding r = run_binding_of d /\ identity r = from_receiver c /\
  (exists o, verify v token decision c = Ok o /\ replay = is_Some_bool o) /\
  (exists rq, canonical request = Ok rq /\ digest rq = request_digest c /\ r_request_digest r = request_digest c) /\
  (exists cd, canonical decision = Ok cd /\ decision_digest r = digest cd) /\
  (exists s, scope_of c = Ok s /\ s = (run_scope r, scope r)).
Proof.
  unfold Admission.candidate_of. intros E.
  destruct (_ || _); [done|]. apply result_bind_Ok in E as (rp & Hr & E).
  apply result_bind_Ok in E as (rq & Hrq%map_err_Ok & E). destruct (String.eqb_spec (digest rq) (request_digest c)) as [Hd|]; [|done].
  cbn [negb] in E. apply result_bind_Ok in E as (cd & Hcd%map_err_Ok & E).
  apply result_bind_Ok in E as ([root s] & Hs & E). apply result_bind_Ok in E as (dv & Hdv%ok_or_Ok & E).
  destruct (xorb _ _) eqn:Hx; [done|]. apply result_bind_Ok in E as (a & Ha & E). injection E as <- <- <-. cbn.
  destruct (scope_of_sha _ _ _ Hs) as (Hr1 & Hr2 & Hroot).
  split; [by constructor|]. split_and!; try done.
  - apply xorb_eq in Hx. rewrite Hx, negb_true_iff. apply String.eqb_neq.
  - destruct (verify v token decision c) as [o|]; [|done]. exists o. split; [done|]. by injection Hr as <-.
  - by exists rq.
  - by exists cd.
  - eexists. split; [exact Hs|done].
Qed.

(** One step of an operation that leaves the rows alone: the operation ends there,
    and nothing has happened, or it goes on. *)
Ltac go E a d1 E1 Hs :=
  apply bind_cases in E; [|quiet];
  destruct E as [[Hs (e & ->)]|(a & d1 & E1 & Hs & E)];
  [apply Nothing; rows|].

Lemma recover_handle old r : handle (recover old r) = None.
Proof. unfold recover, ensure. by destruct (_ && _); [destruct (negb _)|]. Qed.

(** A start or a turn, from the moment that its row was found missing. *)
Lemma claim_effect j v token decision request c d x d' :
  claim scalar quoted j v token decision request c d = (x, d') -> effect (files d) (files d') (handle x).
Proof.
  unfold claim. intros E. go E a d1 E1 Hs. apply lift_inv in E1 as [Hc ->]. destruct a as [[replay dv] r].
  clear Hs. cbv beta iota in E. destruct (candidate_spec _ _ _ _ _ _ _ _ _ Hc) as (Hnew & Hown & _ & Hturn & _).
  go E a d1 E1 Hs. eapply effect_same; [exact Hs|]. clear Hs E1 d a.
  go E p d2 Hp Hs.
  go E o d3 Hl Hl'. pose proof (load_Ok _ _ _ _ Hl) as Ho. clear Hl.
  destruct o as [old|].
  { apply lift_inv in E as [<- ->]. rewrite recover_handle. apply Nothing. by transitivity (files d2). }
  destruct replay; [apply lift_inv in E as [<- ->]; apply Nothing; by transitivity (files d2)|].
  rewrite Hs in Ho. destruct (String.eqb (expected_operation c) "execution.turn") eqn:Hop.
  - apply io_bind_Ok in Hp as (p0 & d4 & Hp%claim_parent_Ok & [= <- ->]). destruct Hp as (Hst & Hok & Hb & Hf & Hpo & Href).
    assert (Hs3 : same_rows (files d1) (files d3)) by rows.
    eapply effect_same; [exact Hs3|]. rewrite <- (stored_same _ _ _ Hs3) in Hst. rewrite <- Hs3 in Ho. clear Hs Hl' Hs3.
    go E p d4 Ht Hs. apply io_bind_Ok in Ht as (p1 & d5 & Ht%take_turn_Ok & [= <- ->]).
    destruct Ht as (Hout & -> & Hbud & Hact). eapply effect_same; [exact Hs|].
    rewrite <- (stored_same _ _ _ Hs) in Hst. rewrite <- Hs in Ho.
    assert (Hta : turn_allowed (files d4) p0 r (default 0 (as_u64 (vget "maxTurns" (vget "budget" dv))))).
    { constructor; try done; [split_and!; congruence|]. intros a Ha. destruct (Hact a Ha) as (q & Hq & Hqo). exists q.
      by rewrite (stored_same _ _ _ Hs). }
    clear Hact Hs. go E u d5 E1 Hs. go E dk d6 E2 Hs6. go E u2 d7 E3 Hs7. clear E1 E2 E3.
    assert (Hs4 : same_rows (files d4) (files d7)) by rows.
    eapply effect_same; [exact Hs4|]. rewrite <- Hs4 in Ho.
    assert (Hta7 : turn_allowed (files d7) p0 r (default 0 (as_u64 (vget "maxTurns" (vget "budget" dv)))))
      by by apply (turn_allowed_same _ _ _ _ _ Hs4).
    unfold mbind at 1, IO_bind at 1 in E. destruct (publish (taken p0 r) false d7) as [y d8] eqn:Ep.
    apply publish_either in Ep as [[Hsp ->]|[_ Hsp]]; [injection E as <- <-; by apply Nothing|].
    eapply (Taken _ _ p0 r _ (files d8)); eauto; [by apply Hturn|].
    destruct y as [[]|e]; [|injection E as <- <-; by left].
    apply publish_candidate in E as [[? ->]|(? & ? & ?)]; [by left|by right].
  - injection Hp as <- <-. clear Hs. rewrite <- Hl' in Ho. eapply effect_same; [exact Hl'|]. clear Hl'.
    go E p d4 Ht Hs. injection Ht as <- <-. clear Hs. go E u d5 E1 Hs. go E dk d6 E2 Hs6. go E u2 d7 E3 Hs7. clear E1 E2 E3.
    assert (Hs4 : same_rows (files d3) (files d7)) by rows.
    go E u3 d8 E4 Hs8. injection E4 as _ <-. eapply effect_same; [exact Hs4|]. rewrite <- Hs4 in Ho.
    apply publish_candidate in E as [[? ->]|(? & ? & ?)]; [by apply Nothing|].
    eapply Started; eauto. destruct (String.eqb_spec (scope r) (run_scope r)) as [|Hne]; [done|]. by apply Hturn in Hne.
Qed.

Lemma access_candidate v token decision c en a r :
  access_of v token decision c en = Ok (a, r) -> outcome r = Some NeverStarted /\ fenced r = true.
Proof.
  unfold Admission.access_of. intros E. destruct (_ || _); [done|]. apply result_bind_Ok in E as (? & _ & E).
  apply result_bind_Ok in E as (? & _ & E). apply result_bind_Ok in E as (rq & _ & E). destruct (negb _); [done|].
  apply result_bind_Ok in E as (ec & _ & E). apply result_bind_Ok in E as (en' & _ & E).
  apply result_bind_Ok in E as ([root s] & _ & E). apply result_bind_Ok in E as (op & _ & E). destruct (_ || _); [done|].
  apply result_bind_Ok in E as (a1 & _ & E). apply result_bind_Ok in E as (a2 & _ & E).
  apply result_bind_Ok in E as (? & _ & E). by injection E as _ <-.
Qed.

Lemma access_enrolled v token decision c en a r :
  access_of v token decision c en = Ok (a, r) ->
  (exists rq, canonical (e_request en) = Ok rq /\ r_request_digest r = digest rq) /\
  (exists cd, canonical (e_decision en) = Ok cd /\ decision_digest r = digest cd).
Proof.
  unfold Admission.access_of. intros E. destruct (_ || _); [done|]. apply result_bind_Ok in E as (? & _ & E).
  apply result_bind_Ok in E as (? & _ & E). apply result_bind_Ok in E as (rq & Hrq%map_err_Ok & E). destruct (negb _); [done|].
  apply result_bind_Ok in E as (ec & Hec%map_err_Ok & E). apply result_bind_Ok in E as (en' & _ & E).
  apply result_bind_Ok in E as ([root s] & _ & E). apply result_bind_Ok in E as (op & _ & E). destruct (_ || _); [done|].
  apply result_bind_Ok in E as (a1 & _ & E). apply result_bind_Ok in E as (a2 & _ & E).
  apply result_bind_Ok in E as (? & _ & E). injection E as _ <-. split; by eexists.
Qed.

Lemma access_effect v token decision c en d x d' :
  access scalar quoted v token decision c en d = (x, d') -> effect (files d) (files d') None.
Proof.
  unfold access. intros E. go E a d1 E1 Hs. apply lift_inv in E1 as [Hc ->]. destruct a as [authority r].
  clear Hs. cbv beta iota in E. apply access_candidate in Hc as [Hc _].
  go E a d1 E1 Hs. go E o d2 Hl Hl'. apply load_Ok in Hl. destruct o as [old|].
  - destruct Hl as [Hst Hok]. rewrite <- (stored_same _ _ _ Hl') in Hst. go E u d3 E2 Hs3.
    apply guard_Ok in E2 as [Hg ->]. eapply effect_same; [exact (transitivity Hs Hl')|].
    destruct (_ && negb (fenced old)); [|injection E as <- <-; by apply Nothing].
    assert (Hsc : scope old = scope r) by (reflect; tauto).
    unfold mbind, IO_bind in E. destruct (publish _ false d2) as [y d4] eqn:Ep.
    assert (Hd : d' = d4) by (destruct y as [[]|]; by injection E as _ <-). subst d4.
    apply publish_either in Ep as [[Hsp _]|[_ Hsp]]; [by apply Nothing|].
    eapply (Fence _ _ old); [|exact Hsp]. by rewrite Hsc.
  - rewrite <- Hl' in Hl. eapply effect_same; [exact (transitivity Hs Hl')|].
    destruct (String.eqb _ _); [injection E as <- <-; by apply Nothing|].
    go E u d3 E2 Hs3. eapply effect_same; [exact Hs3|]. rewrite <- Hs3 in Hl.
    unfold mbind, IO_bind in E. destruct (publish r true d3) as [y d4] eqn:Ep.
    assert (Hd : d' = d4) by (destruct y as [[]|]; by injection E as _ <-). subst d4.
    apply publish_either in Ep as [[Hsp _]|[_ Hsp]]; [by apply Nothing|]. by eapply (Never _ _ r).
Qed.

Lemma finish_effect j f o d x d' : finish j f o d = (x, d') -> effect (files d) (files d') None.
Proof.
  unfold finish. intros E. go E u d1 E1 Hs1. go E u2 d2 E2 Hs2. go E u3 d3 E3 Hs3. go E l d4 Hl Hs4.
  apply load_Ok in Hl. go E cur d5 E5 Hs5. apply lift_inv in E5 as [Hcur%ok_or_Ok ->]. subst l.
  destruct Hl as [Hst Hok]. rewrite <- (stored_same _ _ _ Hs4) in Hst.
  go E u6 d6 E6 Hs6. apply guard_Ok in E6 as [_ ->]. go E u7 d7 E7 Hs7. apply guard_Ok in E7 as [Heq%bool_decide_eq_true ->].
  assert (Hs : same_rows (files d) (files d4)) by (clear Hs5 Hs6 Hs7; rows). eapply effect_same; [exact Hs|].
  destruct (outcome cur) as [old|] eqn:Hout; [apply lift_inv in E as [_ ->]; by apply Nothing|].
  apply publish_either in E as [[Hsp _]|[_ Hsp]]; [by apply Nothing|].
  eapply (Finished _ _ cur o); [|done|exact Hsp]. rewrite <- Hst. do 2 f_equal. by rewrite <- Heq.
Qed.
End operations.

(** ** Histories *)

(** The names of rows are distinct. *)
Lemma path_inj s t : sha s = true -> sha t = true -> path s = path t -> s = t.
Proof.
  assert (Hn : forall s, sha s = true -> exists h, s = ("sha256:" ++ h)%string /\ String.length h = 64%nat).
  { intros u. unfold sha, digest_of. destruct (strip_prefix "sha256:" u) as [h|] eqn:E; [|done]. intros Hh.
    apply strip_prefix_Some in E. exists h. split; [done|]. unfold is_hex64, str_len in Hh. reflect. lia. }
  intros (h & -> & Hh)%Hn (h' & -> & Hh')%Hn E. change ((h ++ ".json")%string = (h' ++ ".json")%string) in E.
  apply string_app_inj in E as [-> _]; [done|congruence].
Qed.

Section histories.
Context `{Json Row}.

Definition count (root : string) (hs : list Row) : Z := Z.of_nat (length (filter (fun h => run_scope h = root) hs)).

(** What the handles given out say of the directory, and the directory of them. *)
Record inv (fs : gmap string File) (hs : list Row) : Prop := {
  in_new : Forall new_row hs;
  in_once : NoDup (scope <$> hs);
  in_rows : forall h, h ∈ hs -> exists r, stored fs (path (scope h)) = Some r /\ forward h r;
  in_turns : forall h, h ∈ hs -> scope h <> run_scope h ->
    exists p, stored fs (path (run_scope h)) = Some p /\ is_Some (outcome p) /\
      forall r, stored fs (path (scope h)) = Some r -> outcome r = None -> active_turn p = Some (scope h);
  in_count : forall root, sha root = true -> 0 < count root hs ->
    exists p, stored fs (path root) = Some p /\ count root hs <= accepted_turns p;
}.

Lemma inv_same fs fs' hs : same_rows fs fs' -> inv fs hs -> inv fs' hs.
Proof.
  intros E [Hn Ho Hr Ht Hc]. constructor; try done.
  - intros h Hh. rewrite (stored_same _ _ _ E). by apply Hr.
  - intros h Hh Hne. rewrite !(stored_same _ _ _ E). by apply Ht.
  - intros root Hs Hp. rewrite (stored_same _ _ _ E). by apply Hc.
Qed.

(** Overwriting a row forwards, with the same active turn. *)
Lemma inv_update fs hs r r' : stored fs (path (scope r)) = Some r -> forward r r' -> active_turn r' = active_turn r ->
  inv fs hs -> inv (put r' fs) hs.
Proof.
  intros Hst Hf Ha [Hn Ho Hr Ht Hc]. pose proof (fw_scope _ _ Hf) as [Es _].
  assert (Hput : forall n q, stored fs n = Some q -> exists q', stored (put r' fs) n = Some q' /\ forward q q' /\
    active_turn q' = active_turn q /\ (outcome q' = None -> outcome q = None)).
  { intros n q Hq. destruct (decide (n = path (scope r'))) as [->|Hne].
    - exists r'. rewrite stored_put. rewrite Es, Hst in Hq. injection Hq as <-. split_and!; try done.
      intros Ho'. destruct (outcome r) as [o|] eqn:Eo; [|done]. apply (fw_outcome _ _ Hf) in Eo. congruence.
    - exists q. by rewrite stored_put_ne. }
  constructor; try done.
  - intros h Hh. destruct (Hr h Hh) as (q & Hq & Hfq). destruct (Hput _ _ Hq) as (q' & ? & ? & _). exists q'.
    split; [done|]. by transitivity q.
  - intros h Hh Hne. destruct (Ht h Hh Hne) as (p & Hp & [o Hout] & Hact). destruct (Hput _ _ Hp) as (p' & Hp' & Hfp & Hap & _).
    exists p'. split; [done|]. split; [exists o; by apply (fw_outcome _ _ Hfp)|]. intros q' Hq' Hqo.
    destruct (Hr h Hh) as (q & Hq & _). destruct (Hput _ _ Hq) as (q2 & Hq2 & _ & _ & Hq2o).
    rewrite Hap. apply (Hact q Hq), Hq2o. congruence.
  - intros root Hs Hpos. destruct (Hc root Hs Hpos) as (p & Hp & Hle). destruct (Hput _ _ Hp) as (p' & Hp' & Hfp & _).
    exists p'. split; [done|]. pose proof (fw_turns _ _ Hfp). lia.
Qed.

(** A row under a free name. *)
Lemma stored_fresh fs r n q : fs !! path (scope r) = None -> stored fs n = Some q -> stored (put r fs) n = Some q.
Proof.
  intros Hf Hq. rewrite stored_put_ne; [done|]. intros ->. unfold stored in Hq. by rewrite Hf in Hq.
Qed.

Lemma inv_fresh fs hs r : fs !! path (scope r) = None -> inv fs hs -> inv (put r fs) hs.
Proof.
  intros Hf [Hn Ho Hr Ht Hc]. constructor; try done.
  - intros h Hh. destruct (Hr h Hh) as (q & Hq & ?). exists q. split; [by apply stored_fresh|done].
  - intros h Hh Hne. destruct (Ht h Hh Hne) as (p & Hp & ? & Hact). exists p. split; [by apply stored_fresh|]. split; [done|].
    intros q Hq. destruct (Hr h Hh) as (q' & Hq' & _). rewrite (stored_fresh _ _ _ _ Hf Hq') in Hq. injection Hq as <-. by apply Hact.
  - intros root Hs Hpos. destruct (Hc root Hs Hpos) as (p & Hp & ?). exists p. split; [by apply stored_fresh|done].
Qed.

Lemma row_ok_spec s r : row_ok s r = true -> scope r = s /\ 0 <= accepted_turns r.
Proof.
  unfold row_ok. intros Hok. rewrite !andb_true_iff in Hok. destruct Hok as (((((([_ Hs] & _) & _) & _) & H1) & H2) & H3).
  apply String.eqb_eq in Hs. split; [done|]. destruct (Z.le_gt_cases 0 (accepted_turns r)); [done|]. exfalso.
  assert (E0 : (accepted_turns r =? 0) = false) by lia. assert (E1 : (1 <=? accepted_turns r) = false) by lia.
  rewrite E0, andb_false_r in *. rewrite E1 in *. destruct (bool_decide _); [by rewrite andb_false_r in H1|].
  by destruct (String.eqb (scope r) (run_scope r)).
Qed.

Definition give (h : option Row) (hs : list Row) : list Row := match h with Some r => r :: hs | None => hs end.

Lemma count_cons root r hs : count root (r :: hs) = (if decide (run_scope r = root) then 1 else 0) + count root hs.
Proof. unfold count. rewrite filter_cons. destruct (decide _); cbn [length]; lia. Qed.

(** A run without a row has no handles. *)
Lemma inv_unstored fs hs root : inv fs hs -> sha root = true -> fs !! path root = None -> count root hs = 0.
Proof.
  intros Hi Hs Hn. destruct (Z.lt_ge_cases 0 (count root hs)) as [Hp|]; [|unfold count in *; lia].
  destruct (in_count _ _ Hi root Hs Hp) as (p & Hst & _). unfold stored in Hst. by rewrite Hn in Hst.
Qed.

(** A handle for a row that was just published under a free name. *)
Lemma inv_give fs hs r : fs !! path (scope r) = None -> new_row r -> inv fs hs ->
  (scope r <> run_scope r -> exists p, stored fs (path (run_scope r)) = Some p /\ is_Some (outcome p) /\
     active_turn p = Some (scope r)) ->
  (exists p, stored (put r fs) (path (run_scope r)) = Some p /\ count (run_scope r) (r :: hs) <= accepted_turns p) ->
  inv (put r fs) (r :: hs).
Proof.
  intros Hf Hnew Hinv Hturn Hcount. destruct (inv_fresh fs hs r Hf Hinv) as [Hn Ho Hr Ht Hc].
  constructor.
  - by constructor.
  - rewrite fmap_cons. constructor; [|done]. intros Hin. apply list_elem_of_fmap in Hin as (h & E & Hh).
    destruct (in_rows _ _ Hinv h Hh) as (q & Hq & _). unfold stored in Hq. by rewrite <- E, Hf in Hq.
  - intros h [->|Hh]%elem_of_cons; [|by apply Hr]. exists r. by rewrite stored_put.
  - intros h [->|Hh]%elem_of_cons Hne; [|by apply Ht]. destruct (Hturn Hne) as (p & Hp & Hout & Hact).
    exists p. split; [by apply stored_fresh|done].
  - intros root Hs Hpos. destruct (decide (root = run_scope r)) as [->|Hne]; [done|].
    rewrite count_cons, decide_False in * by done. by apply Hc.
Qed.

(** The parent's next turn, before the row of the turn. *)
Lemma inv_taken fs hs p r b : new_row r -> turn_allowed fs p r b -> inv fs hs -> scope p = run_scope r ->
  inv (put (taken p r) fs) hs /\ count (run_scope r) hs + 1 <= accepted_turns p + 1.
Proof.
  intros Hnew [Hst Hok _ [Hout _] Hact _] [Hn Ho Hr Ht Hc] Hsc. destruct (nr_names _ Hnew) as [_ Hroot].
  assert (Hle : count (run_scope r) hs <= accepted_turns p).
  { destruct (Z.lt_ge_cases 0 (count (run_scope r) hs)) as [Hpos|].
    - destruct (Hc _ Hroot Hpos) as (q & Hq & ?). congruence.
    - apply row_ok_spec in Hok as [_ ?]. lia. }
  split; [|lia]. rewrite Forall_forall in Hn.
  assert (Hput : forall n q, stored fs n = Some q -> exists q', stored (put (taken p r) fs) n = Some q' /\ forward q q' /\
    outcome q' = outcome q /\ (n <> path (run_scope r) -> q' = q)).
  { intros n q Hq. destruct (decide (n = path (run_scope r))) as [->|Hne].
    - exists (taken p r). rewrite <- Hsc. change (scope p) with (scope (taken p r)) at 1. rewrite stored_put.
      rewrite Hst in Hq. injection Hq as <-. split_and!; try done. constructor; repeat split; auto. cbn. lia.
    - exists q. rewrite stored_put_ne by (cbn; by rewrite Hsc). done. }
  constructor.
  - by apply Forall_forall.
  - done.
  - intros h Hh. destruct (Hr h Hh) as (q & Hq & Hfq). destruct (Hput _ _ Hq) as (q' & ? & ? & _). exists q'.
    split; [done|]. by transitivity q.
  - intros h Hh Hne. destruct (Ht h Hh Hne) as (q & Hq & Hqo & Hqa). destruct (Hput _ _ Hq) as (q' & Hq' & _ & Eo & Eq).
    exists q'. split; [done|]. split; [by rewrite Eo|]. intros w Hw Hwo.
    destruct (Hr h Hh) as (w0 & Hw0 & _). destruct (Hput _ _ Hw0) as (w' & Hw' & _ & Eow & _).
    assert (Hw0o : outcome w0 = None) by congruence. specialize (Hqa w0 Hw0 Hw0o).
    destruct (decide (path (run_scope h) = path (run_scope r))) as [E|Hd]; [|by rewrite (Eq Hd)].
    exfalso. rewrite E, Hst in Hq. injection Hq as <-. destruct (Hact _ Hqa) as (w1 & Hw1 & [? ?]). congruence.
  - intros root Hs Hpos. destruct (Hc root Hs Hpos) as (q & Hq & Hqc). destruct (Hput _ _ Hq) as (q' & Hq' & Hf & _).
    exists q'. split; [done|]. pose proof (fw_turns _ _ Hf). lia.
Qed.

Lemma inv_effect fs fs' hs h : effect fs fs' h -> inv fs hs -> inv fs' (give h hs).
Proof.
  intros He Hi. destruct He as [Hs|r h Hf Hnew Hsc Hs Hh|p r b fs1 h Hf Hnew Hsc Hta Hs1 Hh|r Hf _ Hs|r Hst Hs|r o Hst Ho Hs].
  - by apply (inv_same fs).
  - eapply inv_same; [exact Hs|]. destruct Hh as [-> | ->]; [by apply inv_fresh|]. apply inv_give; try done.
    exists r. rewrite <- Hsc, stored_put. split; [done|]. rewrite count_cons, decide_True by done.
    destruct (nr_names _ Hnew) as [Hsha _]. rewrite (nr_turns _ Hnew), Hsc, String.eqb_refl.
    destruct (Z.lt_ge_cases 0 (count (run_scope r) hs)) as [Hpos|]; [|lia]. exfalso. rewrite <- Hsc in Hpos.
    destruct (in_count _ _ Hi _ Hsha Hpos) as (p & Hp & _). unfold stored in Hp. by rewrite Hf in Hp.
  - assert (Hp : scope p = run_scope r) by apply (row_ok_spec _ _ (ta_ok _ _ _ _ Hta)).
    destruct (inv_taken _ _ _ _ _ Hnew Hta Hi Hp) as [Hi1 Hc]. apply (inv_same _ _ _ Hs1) in Hi1.
    destruct Hh as [[Hs ->]|(Hf1 & Hs & Hh)]; [by apply (inv_same fs1)|].
    eapply inv_same; [exact Hs|]. destruct Hh as [-> | ->]; [by apply inv_fresh|].
    assert (Hst : stored fs1 (path (run_scope r)) = Some (taken p r)).
    { rewrite (stored_same _ _ _ Hs1), <- Hp. apply (stored_put (taken p r)). }
    apply inv_give; try done.
    + intros _. exists (taken p r). split; [done|]. split; [apply Hta|done].
    + exists (taken p r). split; [by apply stored_fresh|]. rewrite count_cons, decide_True by done. cbn. lia.
  - eapply inv_same; [exact Hs|]. by apply inv_fresh.
  - eapply inv_same; [exact Hs|]. eapply inv_update; eauto. constructor; repeat split; auto. done.
  - eapply inv_same; [exact Hs|]. eapply inv_update; eauto. constructor; repeat split; auto; [done|]. intros o'. congruence.
Qed.
End histories.

(** ** Histories of operations *)

Section runs.
Context `{Json Row} {scalar : Value -> option bytes} {quoted : string -> option bytes}.
Context `{JsonText} `{Sha256} `{Json Value} `{Ed25519} `{Formats}.
Abbreviation candidate_of := (candidate_of scalar quoted).
Abbreviation claim := (claim scalar quoted).
Abbreviation access := (access scalar quoted).
Abbreviation verify := (verify scalar quoted).

(** The operations, each with the owner that runs it and the failures it meets; a
    completion is by a handle, which is named by its place. *)
Inductive op : Type :=
| OClaim (j : Journal) (v : Verifier) (token : string) (decision request : bytes) (c : Receiver)
| OAccess (v : Verifier) (token : string) (decision : bytes) (c : Receiver) (e : Enrollment)
| OFinish (j : Journal) (i : nat) (o : Outcome).

(** The directory and the handles that were given out. *)
Record World : Type := mkWorld { disk : Disk; handles : list Row }.

Definition step (w : World) (fo : list bool * op) : World :=
  let d := mkDisk (files (disk w)) (dir_private (disk w)) fo.1 in
  match fo.2 with
  | OClaim j v token decision request c =>
      let '(x, d) := claim j v token decision request c d in mkWorld d (give (handle x) (handles w))
  | OAccess v token decision c e => mkWorld (access v token decision c e d).2 (handles w)
  | OFinish j i o =>
      match handles w !! i with
      | Some r => mkWorld (finish j (mkFresh r) o d).2 (handles w)
      | None => w
      end
  end.
Definition run (w : World) (ops : list (list bool * op)) : World := foldl step w ops.

Lemma step_does w fo : exists h, effect (files (disk w)) (files (disk (step w fo))) h /\ handles (step w fo) = give h (handles w).
Proof.
  destruct fo as [fl [j v token decision request c|v token decision c e|j i o]]; unfold step; cbn [fst snd].
  - destruct (claim _ _ _ _ _ _ _) as [x d'] eqn:E. apply claim_effect in E. by exists (handle x).
  - destruct (access _ _ _ _ _ _) as [x d'] eqn:E. apply access_effect in E. by exists None.
  - destruct (handles w !! i) as [r|]; [|by exists None; split; [apply Nothing|]].
    destruct (finish _ _ _ _) as [x d'] eqn:E. apply finish_effect in E. by exists None.
Qed.

Lemma run_inv_from w ops : inv (files (disk w)) (handles w) -> inv (files (disk (run w ops))) (handles (run w ops)).
Proof.
  intros Hi. unfold run. apply (foldl_inv (fun w => inv (files (disk w)) (handles w))); [|done].
  intros a fo _ Ha. destruct (step_does a fo) as (h & He & ->). by eapply inv_effect.
Qed.

(** No handle is out at first; the directory holds anything. *)
Lemma start_inv fs : inv fs [].
Proof.
  constructor; try by (intros ? ?%elem_of_nil). - constructor. - constructor.
  - intros root _ Hp. unfold count in Hp. cbn in Hp. lia.
Qed.

Lemma effect_forward fs fs' h n r : effect fs fs' h -> stored fs (path n) = Some r ->
  exists r', stored fs' (path n) = Some r' /\ forward r r'.
Proof.
  assert (Hnew : forall fs q, fs !! path (scope q) = None -> stored fs (path n) = Some r -> stored (put q fs) (path n) = Some r).
  { intros. by apply stored_fresh. }
  assert (Hold : forall fs q q', stored fs (path (scope q)) = Some q -> forward q q' -> stored fs (path n) = Some r ->
    exists r', stored (put q' fs) (path n) = Some r' /\ forward r r').
  { intros fs0 q q' Hq Hf Hr. pose proof (fw_scope _ _ Hf) as [Es _].
    destruct (decide (path n = path (scope q'))) as [E|Hne].
    - rewrite E, Es, Hq in Hr. injection Hr as <-. rewrite E. exists q'. by rewrite stored_put.
    - exists r. by rewrite stored_put_ne. }
  intros He Hr. destruct He as [Hs|q h' Hf _ _ Hs _|p q b fs1 h' Hf _ _ Hta Hs1 Hh|q Hf _ Hs|q Hst Hs|q o Hst Ho Hs].
  - exists r. by rewrite (stored_same _ _ _ Hs).
  - exists r. rewrite (stored_same _ _ _ Hs). split; [by apply Hnew|done].
  - assert (Hp : scope p = run_scope q) by apply (row_ok_spec _ _ (ta_ok _ _ _ _ Hta)).
    destruct (Hold fs p (taken p q)) as (r1 & Hr1 & Hf1); [by rewrite Hp; apply Hta| |done|].
    { constructor; repeat split; auto. cbn. lia. }
    rewrite <- (stored_same _ _ _ Hs1) in Hr1. exists r1. destruct Hh as [[Hs _]|(Hf2 & Hs & _)]; rewrite (stored_same _ _ _ Hs).
    + done. + split; [by apply stored_fresh|done].
  - exists r. rewrite (stored_same _ _ _ Hs). split; [by apply Hnew|done].
  - setoid_rewrite (stored_same _ _ _ Hs). apply (Hold fs q); [done| |done]. constructor; repeat split; auto. done.
  - setoid_rewrite (stored_same _ _ _ Hs). apply (Hold fs q); [done| |done]. constructor; repeat split; auto; [done|]. intros o'. congruence.
Qed.

Lemma run_forward w ops n r : stored (files (disk w)) (path n) = Some r ->
  exists r', stored (files (disk (run w ops))) (path n) = Some r' /\ forward r r'.
Proof.
  revert w r. induction ops as [|fo ops IH]; intros w r Hr; [by exists r|].
  destruct (step_does w fo) as (h & He & _). destruct (effect_forward _ _ _ _ _ He Hr) as (r1 & Hr1 & Hf1).
  destruct (IH _ _ Hr1) as (r2 & Hr2 & Hf2). exists r2. split; [done|]. by transitivity r1.
Qed.

(** What a fresh handle required. *)
Lemma claim_Fresh j v token decision request c d f d' : claim j v token decision request c d = (Ok (IsFresh f), d') ->
  exists dv, candidate_of j v token decision request c = Ok (false, dv, record f) /\
    files d !! path (scope (record f)) = None /\
    (scope (record f) <> run_scope (record f) -> exists p, turn_allowed (files d) p (record f)
      (default 0 (as_u64 (vget "maxTurns" (vget "budget" dv))))).
Proof.
  unfold Admission.claim. intros E. apply io_bind_Ok in E as ([[replay dv] r] & d1 & E1 & E). apply lift_inv in E1 as [Hc ->].
  destruct (candidate_spec _ _ _ _ _ _ _ _ _ Hc) as (_ & Hown & _ & Hturn & _).
  apply io_bind_Ok in E as (u & d2 & Hs2%quiet_Ok & E); [|quiet].
  apply io_bind_Ok in E as (p & d3 & Hp & E).
  assert (Hs3 : same_rows (files d2) (files d3)) by (eapply quiet_Ok; [|exact Hp]; quiet; apply quiet_claim_parent).
  apply io_bind_Ok in E as (o & d4 & Hl & E).
  assert (Hs4 : same_rows (files d3) (files d4)) by by (eapply quiet_Ok; [|exact Hl]; apply quiet_load).
  apply load_Ok in Hl. destruct o as [old|].
  { apply lift_inv in E as [E _]. by pose proof (recover_handle old r) as Hr; rewrite E in Hr. }
  destruct replay; [done|]. apply io_bind_Ok in E as (p1 & d5 & Ht & E).
  do 3 (apply io_bind_Ok in E as (? & ? & _ & E)). apply io_bind_Ok in E as (? & ? & _ & E).
  apply io_bind_Ok in E as (? & ? & _ & E). injection E as <- _. cbn [record].
  exists dv. split; [done|]. split; [by rewrite Hs3, Hs2 in Hl|]. intros Hne%Hturn. rewrite Hne in Hp.
  apply io_bind_Ok in Hp as (p0 & d6 & (Hst & Hok & Hb & Hf & Hpo & Href)%claim_parent_Ok & [= <- <-]).
  apply io_bind_Ok in Ht as (p2 & d7 & (Hout & _ & Hbud & Hact)%take_turn_Ok & _). exists p0.
  assert (Hs : same_rows (files d) (files d4)) by rows.
  constructor; try done; [by rewrite <- (stored_same _ _ _ Hs2)|split_and!; congruence|].
  intros a Ha. destruct (Hact a Ha) as (q & Hq & ?). exists q. by rewrite <- (stored_same _ _ _ Hs).
Qed.

Lemma publish_Ok r fresh d u d' : publish r fresh d = (Ok u, d') -> stored (files d') (path (scope r)) = Some r.
Proof. intros [[_ ?]|[_ ->]]%publish_cases; [done|apply stored_put]. Qed.

Lemma access_Ok v token decision c en d r d' : access v token decision c en d = (Ok r, d') ->
  (expected_operation c = "execution.cleanup" -> fenced r = true) /\
  exists s, path s = path (scope r) /\ stored (files d') (path s) = Some r.
Proof.
  unfold Admission.access. intros E. apply io_bind_Ok in E as ([authority q] & d1 & E1 & E). apply lift_inv in E1 as [Hc ->].
  apply access_candidate in Hc as [_ Hcf].
  apply io_bind_Ok in E as (u & d2 & _ & E). apply io_bind_Ok in E as (o & d3 & Hl & E).
  assert (Hs : same_rows (files d2) (files d3)) by by (eapply quiet_Ok; [|exact Hl]; apply quiet_load).
  apply load_Ok in Hl. destruct o as [old|].
  - destruct Hl as [Hst Hok]. rewrite <- (stored_same _ _ _ Hs) in Hst. apply row_ok_spec in Hok as [Hsc _].
    apply io_bind_Ok in E as (? & d4 & [_ ->]%guard_Ok & E).
    destruct (String.eqb_spec (expected_operation c) "execution.cleanup") as [Hop|Hop]; cbn [andb] in E.
    + destruct (fenced old) eqn:Hf; cbn [negb] in E; [injection E as <- <-; split; [done|exists (scope old); by rewrite Hsc]|].
      apply io_bind_Ok in E as (? & d5 & Hp%publish_Ok & [= <- <-]). split; [done|]. by eexists.
    + injection E as <- <-. split; [done|]. exists (scope old). by rewrite Hsc.
  - destruct (String.eqb_spec (expected_operation c) "execution.read") as [Hop|]; [done|].
    apply io_bind_Ok in E as (? & d4 & _ & E). apply io_bind_Ok in E as (? & d5 & Hp%publish_Ok & [= <- <-]).
    split; [done|]. by eexists.
Qed.

(** The row that an access is given is that of the enrolled decision and request. *)
Lemma access_digests v token decision c en d r d' : access v token decision c en d = (Ok r, d') ->
  (exists rq, canonical scalar quoted (e_request en) = Ok rq /\ r_request_digest r = digest rq) /\
  (exists cd, canonical scalar quoted (e_decision en) = Ok cd /\ decision_digest r = digest cd).
Proof.
  unfold Admission.access. intros E. apply io_bind_Ok in E as ([authority q] & d1 & E1 & E). apply lift_inv in E1 as [Hc ->].
  apply access_enrolled in Hc as [(rq & Hrq & Eq) (cd & Hcd & Ed)]. enough (r_request_digest r = r_request_digest q /\ decision_digest r = decision_digest q) as [E1 E2].
  { split; [exists rq|exists cd]; (split; [done|congruence]). }
  apply io_bind_Ok in E as (u & d2 & _ & E). apply io_bind_Ok in E as ([old|] & d3 & _ & E).
  - apply io_bind_Ok in E as (? & d4 & [Hg ->]%guard_Ok & E).
    assert (Ho : r_request_digest old = r_request_digest q /\ decision_digest old = decision_digest q) by (reflect; tauto).
    destruct (_ && negb (fenced old)); [|by injection E as <- <-]. apply io_bind_Ok in E as (? & d5 & _ & [= <- <-]). by destruct old.
  - destruct (String.eqb _ _); [done|]. apply io_bind_Ok in E as (? & d4 & _ & E). by apply io_bind_Ok in E as (? & d5 & _ & [= <- <-]).
Qed.

Lemma finish_Ok j f o d d' : finish j f o d = (Ok tt, d') ->
  owner (record f) = j_owner j /\
  exists r, stored (files d') (path (scope (record f))) = Some r /\ outcome r = Some o /\
    (exists r0, stored (files d) (path (scope (record f))) = Some r0 /\ (outcome r0 = None \/ outcome r0 = Some o)).
Proof.
  unfold finish. intros E. apply io_bind_Ok in E as (? & d1 & [Hown%String.eqb_eq ->]%guard_Ok & E). split; [done|].
  apply io_bind_Ok in E as (? & d2 & [_ ->]%guard_Ok & E). apply io_bind_Ok in E as (? & d3 & Hs3%quiet_Ok & E); [|quiet].
  apply io_bind_Ok in E as (l & d4 & Hl & E).
  assert (Hs : same_rows (files d3) (files d4)) by by (eapply quiet_Ok; [|exact Hl]; apply quiet_load). apply load_Ok in Hl.
  apply io_bind_Ok in E as (cur & d5 & E5 & E). apply lift_inv in E5 as [Hcur%ok_or_Ok ->]. subst l. destruct Hl as [Hst Hok].
  apply io_bind_Ok in E as (? & d6 & [_ ->]%guard_Ok & E). apply io_bind_Ok in E as (? & d7 & [Heq%bool_decide_eq_true ->]%guard_Ok & E).
  assert (Hsc : scope cur = scope (record f)) by by rewrite <- Heq.
  assert (Hcur : stored (files d) (path (scope (record f))) = Some cur) by by rewrite <- (stored_same _ _ _ Hs3).
  destruct (outcome cur) as [old|] eqn:Hout.
  - apply guard_Ok in E as [<-%bool_decide_eq_true ->]. exists cur. rewrite (stored_same _ _ _ Hs). split; [done|]. split; [done|].
    exists cur. split; [done|by right].
  - apply publish_Ok in E. cbn in E. rewrite Hsc in E. eexists. split; [exact E|]. split; [done|].
    exists cur. split; [done|by left].
Qed.

(** ** Properties *)

Definition unfinished (w : World) (h : Row) : Prop :=
  exists r, stored (files (disk w)) (path (scope h)) = Some r /\ outcome r = None.
Definition start (d : Disk) : World := mkWorld d [].

Lemma once_eq (hs : list Row) h h' : NoDup (scope <$> hs) -> h ∈ hs -> h' ∈ hs -> scope h = scope h' -> h = h'.
Proof.
  intros Hn [i Hi]%list_elem_of_lookup [j Hj]%list_elem_of_lookup E.
  assert (i = j) as ->; [|congruence]. eapply (NoDup_lookup (scope <$> hs)); [done| |].
  - by rewrite list_lookup_fmap, Hi.
  - rewrite list_lookup_fmap, Hj. cbn. by rewrite E.
Qed.

(** C10: At most one execution. Whatever operations any owners make on a directory that
    held anything at first, and whichever of their system calls fail, no two handles
    are given out for the same scope; and of the handles of one run, its start and its
    turns, at most one has no outcome, so turns never overlap. *)
Theorem admission_exclusive (d : Disk) (ops : list (list bool * op)) :
  let w := run (start d) ops in
  NoDup (scope <$> handles w) /\
  forall h h', h ∈ handles w -> h' ∈ handles w -> run_scope h = run_scope h' ->
    unfinished w h -> unfinished w h' -> h = h'.
Proof.
  intros w. pose proof (run_inv_from (start d) ops (start_inv _)) as Hi. fold w in Hi.
  pose proof (in_once _ _ Hi) as Hn. split; [done|]. intros h h' Hh Hh' E (r & Hr & Hro) (r' & Hr' & Hro').
  apply (once_eq _ _ _ Hn Hh Hh').
  assert (Hturn : forall a b q, a ∈ handles w -> b ∈ handles w -> run_scope a = run_scope b -> scope a <> run_scope a ->
    scope b = run_scope b -> stored (files (disk w)) (path (scope b)) = Some q -> outcome q <> None).
  { intros a b q Ha Hb Eab Hna Eb Hq Hqo. destruct (in_turns _ _ Hi a Ha Hna) as (p & Hp & [? Hpo] & _).
    rewrite Eab, <- Eb, Hq in Hp. injection Hp as <-. congruence. }
  destruct (decide (scope h = run_scope h)) as [Eh|Hne], (decide (scope h' = run_scope h')) as [Eh'|Hne'].
  - congruence.
  - by destruct (Hturn h' h r).
  - by destruct (Hturn h h' r').
  - destruct (in_turns _ _ Hi h Hh Hne) as (p & Hp & _ & Ha). destruct (in_turns _ _ Hi h' Hh' Hne') as (p' & Hp' & _ & Ha').
    rewrite E, Hp' in Hp. injection Hp as <-. specialize (Ha r Hr Hro). specialize (Ha' r' Hr' Hro'). congruence.
Qed.

(** Rows only go forward. Through any operations and failures, a row keeps its
    identity, its digests and its owner; a fence is never lifted, an outcome never
    changed, and the count of accepted turns never falls. *)
Theorem admission_forward (w : World) (ops : list (list bool * op)) (s : string) (r : Row) :
  stored (files (disk w)) (path s) = Some r ->
  exists r', stored (files (disk (run w ops))) (path s) = Some r' /\ forward r r'.
Proof. apply run_forward. Qed.

(** C23: A claim executes only with authority and within the budget. After any history,
    a fresh handle means that the credential verified, and not as a replay, that the
    submitted request has the digest the receiver expects, and that the handles given
    out for the run are bounded: a start's is its first, and with a turn's they are no
    more than the turns of the turn's own decision. *)
Theorem claim_authorised (d : Disk) (ops : list (list bool * op)) (j : Journal) (v : Verifier) (token : string)
    (decision request : bytes) (c : Receiver) (f : Fresh) (d' : Disk) :
  let w := run (start d) ops in
  claim j v token decision request c (disk w) = (Ok (IsFresh f), d') ->
  verify v token decision c = Ok None /\
  (exists rq, canonical scalar quoted request = Ok rq /\ digest rq = request_digest c) /\
  run_scope (record f) = root_scope c /\ identity (record f) = from_receiver c /\ owner (record f) = j_owner j /\
  exists dv, from_slice decision = Some dv /\
    count (run_scope (record f)) (record f :: handles w) <=
      if decide (scope (record f) = run_scope (record f)) then 1 else default 0 (as_u64 (vget "maxTurns" (vget "budget" dv))).
Proof.
  intros w E. pose proof (run_inv_from (start d) ops (start_inv _)) as Hi. fold w in Hi.
  apply claim_Fresh in E as (dv & Hc & Habs & Hturn).
  destruct (candidate_spec _ _ _ _ _ _ _ _ _ Hc) as (Hnew & Hown & Hroot & _ & Hd & _ & Hid & (o & Hv & Ho) & (rq & Hrq & Hq & _) & _).
  split; [by destruct o|]. split; [by exists rq|]. split_and!; try done. exists dv. split; [done|].
  rewrite count_cons, decide_True by done. destruct (decide _) as [Heq|Hne].
  { rewrite (inv_unstored _ _ _ Hi); [lia|apply (nr_names _ Hnew)|by rewrite <- Heq]. }
  destruct (Hturn Hne) as (p & Hta).
  destruct (inv_taken _ _ _ _ _ Hnew Hta Hi) as [_ Hle]; [by apply (row_ok_spec _ _ (ta_ok _ _ _ _ Hta))|].
  pose proof (ta_budget _ _ _ _ Hta). lia.
Qed.

(** A cleanup is final. Once a cleanup of an operation has returned its row, fenced
    or never started, no later claim gets a handle for that operation, nor for any
    turn of the run that it was the start of. *)
Theorem cleanup_fences (w : World) (v : Verifier) (token : string) (decision : bytes) (c : Receiver) (e : Enrollment)
    (r : Row) (d1 : Disk) (ops : list (list bool * op)) j v' token' decision' request' c' f d' :
  expected_operation c = "execution.cleanup" ->
  access v token decision c e (disk w) = (Ok r, d1) ->
  claim j v' token' decision' request' c' (disk (run (mkWorld d1 (handles w)) ops)) = (Ok (IsFresh f), d') ->
  fenced r = true /\ scope (record f) <> scope r /\ run_scope (record f) <> scope r.
Proof.
  intros Hop (Hf & s & Es & Hst)%access_Ok Hc. specialize (Hf Hop). split; [done|].
  destruct (run_forward (mkWorld d1 (handles w)) ops s r Hst) as (r' & Hr' & Hfw).
  apply claim_Fresh in Hc as (dv & Hcand & Habs & Hturn). rewrite Es in Hr'. split.
  - intros E. unfold stored in Hr'. by rewrite <- E, Habs in Hr'.
  - intros E. destruct (decide (scope (record f) = run_scope (record f))) as [Eq|Hne].
    + unfold stored in Hr'. by rewrite <- E, <- Eq, Habs in Hr'.
    + destruct (Hturn Hne) as (p & [Hp _ [Hpf _] _ _ _]). rewrite E, Hr' in Hp. injection Hp as ->.
      by rewrite (fw_fenced _ _ Hfw Hf) in Hpf.
Qed.

(** A completion is recorded once. When [finish] returns, the row has that outcome,
    and it was open or had it already; only the owner that was given the handle can
    record it; and no later completion by any handle of that scope returns with
    another outcome. *)
Theorem finish_once (w : World) (j : Journal) (f : Fresh) (o : Outcome) (d1 : Disk) (ops : list (list bool * op))
    (j' : Journal) (f' : Fresh) (o' : Outcome) (d' : Disk) :
  finish j f o (disk w) = (Ok tt, d1) ->
  owner (record f) = j_owner j /\
  (exists r, stored (files d1) (path (scope (record f))) = Some r /\ outcome r = Some o) /\
  (scope (record f') = scope (record f) ->
   finish j' f' o' (disk (run (mkWorld d1 (handles w)) ops)) = (Ok tt, d') -> o' = o).
Proof.
  intros (Hown & r & Hr & Ho & _)%finish_Ok. split; [done|]. split; [by exists r|]. intros E Hf'.
  apply finish_Ok in Hf' as (_ & r2 & Hr2 & Ho2 & r0 & Hr0 & Hro). rewrite E in *.
  destruct (run_forward (mkWorld d1 (handles w)) ops _ _ Hr) as (r1 & Hr1 & Hfw). rewrite Hr1 in Hr0. injection Hr0 as <-.
  pose proof (fw_outcome _ _ Hfw o Ho) as Eo. destruct Hro; congruence.
Qed.
End runs.
