(* ===== verification/Scoped.v ===== *)
(** * Preparation of scoped operations ([dispatch_scoped.rs])

    What the receiver checks before it enrols an operation and before it gives access to
    it, the shape of the request that it launches, and the statuses that it answers.
    Panics of [value[key] = ..] are [None]. *)

From S2P Require Import Prelude Text Json Manifest.
From S2P Require Contract Credentials Admission Harness Protocol Spec Outcome Permit ScopedPolicy.

Declare Scope json_scope.
#[global] Notation "v .[ k ]" := (vget k v) (at level 2, left associativity, format "v .[ k ]") : json_scope.
Local Open Scope json_scope.

Definition MODEL_ALIAS : string := "https://celln-model.invalid/v1/invoke".
Definition MAX_BODY : Z := 262144.
Definition MAX_PREPARED : Z := 768 * 1024.
Definition MAX_STATUS : Z := 96 * 1024.
Definition DEFAULT_REQUEST_OUTPUT_TOKENS : Z := 512.
Definition request_output_range (n : Z) : bool := (256 <=? n) && (n <=? 4096).

(** ** Values *)

Definition text (v : Value) (field : string) : result string string := ok_or (as_str v) ("missing " ++ field)%string.
Definition u64v (v : Value) (field : string) : result string Z := ok_or (as_u64 v) ("invalid " ++ field)%string.
Definition null : Value -> bool := ScopedPolicy.null.
Definition says : Value -> string -> bool := ScopedPolicy.says.
Definition array : Value -> option (list Value) := ScopedPolicy.array.
(** [value.get(key)], and [a != b]. *)
Definition vfind (k : string) (v : Value) : option Value := match v with VObject o => oget k o | _ => None end.
Definition differ (v w : Value) : bool := negb (value_eqb v w).
(** [value[key] = x]. *)
Definition vset (k : string) (x v : Value) : option Value :=
  match v with
  | Null => Some (VObject [(k, x)])
  | VObject o => Some (VObject (oinsert k x o))
  | _ => None
  end.

Definition id_hex (id : string) : result string string :=
  value ← ok_or (strip_prefix "sha256:" id) "invalid scoped id";
  _ ← ensure ((str_len value =? 64) && all_bytes is_lower_hex value) "invalid scoped id";
  Ok value.
Definition blake (value : string) : bool :=
  match strip_prefix "blake3:" value with Some hex => (str_len hex =? 64) && all_bytes is_lower_hex hex | None => false end.

Definition secret_key (k : string) : bool :=
  bool_decide (k ∈ ["token"; "bearer"; "password"; "apiKey"; "secretValue"; "credentialFile"]).
Fixpoint secret_free (v : Value) : bool :=
  match v with
  | VObject o => forallb (fun kv => negb (secret_key kv.1) && secret_free kv.2) o
  | VArray l => forallb secret_free l
  | _ => true
  end.
Definition reject_secret_material (v : Value) : result string unit :=
  ensure (secret_free v) "prepared operation contains credential material".

(** ** Prepared operations *)

Record PreparedRecord : Type := mkPrepared { version : Z; id : string; owner : string; operation : Value; decision : Value }.
#[export] Instance PreparedRecord_eq_dec : EqDecision PreparedRecord.
Proof. solve_decision. Defined.

Definition execution_of (operation : Value) : Value := operation.["resolution"].["execution"].
Definition base_of (operation : Value) : Value := operation.["resolution"].["decision"].

(** The lifecycles and the operations that go with them. *)
Definition lifecycle_ok (execution d : Value) : bool :=
  match as_str d.["lifecycle"], as_str d.["operation"] with
  | Some l, Some o =>
      if String.eqb l "one-shot" && String.eqb o "execution.start" then
        null d.["parent"] && negb (is_Some_bool (vfind "turnUid" execution))
      else if String.eqb l "enduring-initial" && String.eqb o "execution.start" then
        is_Some_bool (as_str d.["parent"].["incarnation"]) && null d.["parent"].["turnId"]
        && negb (is_Some_bool (vfind "turnUid" execution))
      else if String.eqb l "enduring-turn" && String.eqb o "execution.turn" then
        is_Some_bool (as_str d.["parent"].["incarnation"]) && is_Some_bool (as_str d.["parent"].["turnId"])
        && value_eqb execution.["turnUid"] d.["parent"].["turnId"]
      else false
  | _, _ => false
  end.

Definition source_differs (source d : Value) : bool :=
  differ source.["clusterId"] d.["clusterId"] || differ source.["namespace"] d.["run"].["namespace"]
  || differ source.["namespaceUid"] d.["run"].["namespaceUid"] || differ source.["runUid"] d.["run"].["uid"]
  || differ source.["runSpecSha256"] d.["run"].["specSha256"].

(** [allowed]: the resolved decision with the credential that was pinned since. *)
Definition pinned (execution base d : Value) : option (result string Value) :=
  let base_credential := execution.["credentialSourceRef"] in
  let final_credential := d.["route"].["credentialSource"] in
  if negb (null base_credential) then
    if differ final_credential.["kind"] base_credential.["kind"] || differ final_credential.["secretName"] base_credential.["secretName"]
       || differ final_credential.["secretKey"] base_credential.["secretKey"]
       || match as_str final_credential.["secretUid"] with Some s => str_is_empty s | None => true end
    then Some (Err "gateway credential UID pin mismatch")
    else route ← vset "credentialSource" final_credential base.["route"]; allowed ← vset "route" route base; Some (Ok allowed)
  else if negb (null final_credential) then Some (Err "unexpected gateway credential pin")
  else Some (Ok base).

Definition tool_differs (p : Value * Value) : bool :=
  differ p.1.["name"] p.2.["name"] || differ p.1.["spec"].["revision"] p.2.["revision"]
  || differ p.1.["spec"].["executable"].["hash"] p.2.["hash"].

Section scoped.
Context (scalar : Value -> option bytes) (quoted : string -> option bytes).
Context `{JsonText} `{Contract.Sha256} `{Json Value}.
Context (data_of : Value -> option ScopedPolicy.Artifacts.Limits) (web_of : Value -> option ScopedPolicy.Https.Limits).

Definition digest_value (v : Value) : result string string :=
  b ← Contract.canonical scalar quoted (to_vec v); Ok (Contract.digest b).
Definition operation_id (operation decision : Value) : result string string := Contract.scoped_operation_id scalar quoted operation decision.

Definition external_request (operation decision : Value) : result string bytes :=
  let material := execution_of operation in
  let parent := decision.["parent"] in
  let value := Harness.jobject
    ([("apiVersion", vstr "celln.sympozium.ai/execution-request-v1"); ("operation", decision.["operation"]);
      ("payload", material.["payload"]); ("runUid", material.["source"].["runUid"])]
     ++ if null parent then [] else
        ("parentIncarnation", parent.["incarnation"]) :: if null parent.["turnId"] then [] else [("turnId", parent.["turnId"])]) in
  match Contract.canonical scalar quoted (to_vec value) with Ok b => Ok b | Err _ => Err "invalid external request" end.

Definition runtime_value (execution : Value) (profile_digest : string) : Value :=
  Harness.jobject [("wrapperSpec", execution.["wrapperSpec"]); ("profileName", execution.["profileName"]);
    ("profileUid", execution.["profileUid"]); ("profileDigest", vstr profile_digest)].

Definition tools_match (execution d : Value) : result string unit :=
  materials ← ok_or (array execution.["tools"]) "prepared tools missing";
  bindings ← ok_or (array d.["tools"]) "decision tools missing";
  _ ← ensure (Nat.eqb (length materials) (length bindings)) "prepared tool count mismatch";
  ensure (negb (existsb tool_differs (zip materials bindings))) "prepared ordered tool identity mismatch".

(** The identities that are left to check once the decision is the allowed one. *)
Definition identities_match (operation d : Value) : result string unit :=
  let execution := execution_of operation in
  profile_digest ← digest_value execution.["profileSpec"];
  runtime_digest ← digest_value (runtime_value execution profile_digest);
  _ ← ensure (negb (differ d.["runtime"].["specSha256"] (vstr runtime_digest)
                    || differ d.["runtime"].["revision"] execution.["profileSpec"].["revision"])) "prepared runtime identity mismatch";
  _ ← tools_match execution d;
  external ← external_request operation d;
  ensure (negb (differ d.["requestDigest"] (vstr (Contract.digest external)))) "prepared request digest mismatch".

(** The checks before the credential is pinned. *)
Definition resolved_ok (operation d : Value) : result string unit :=
  let execution := execution_of operation in
  let base := base_of operation in
  _ ← reject_secret_material operation;
  _ ← reject_secret_material d;
  _ ← ensure (says operation.["apiVersion"] "sympozium.ai/celln-prepared-operation-v1") "unsupported prepared operation";
  _ ← ScopedPolicy.Artifacts.derive data_of execution d;
  _ ← ScopedPolicy.Https.derive web_of execution d;
  _ ← ensure (match execution with VObject _ => true | _ => false end
              && says base.["apiVersion"] "celln.sympozium.ai/authorisation-decision-v1"
              && value_eqb d.["apiVersion"] base.["apiVersion"]) "unsupported scoped decision";
  _ ← ensure (lifecycle_ok execution d) "unsupported scoped lifecycle operation";
  ensure (negb (source_differs execution.["source"] d)) "prepared source identity mismatch".

Definition validate_prepared (operation d : Value) : option (result string unit) :=
  match resolved_ok operation d with
  | Err e => Some (Err e)
  | Ok _ =>
      allowed ← pinned (execution_of operation) (base_of operation) d;
      Some (allowed ← allowed; _ ← ensure (value_eqb allowed d) "final decision changed prepared authority"; identities_match operation d)
  end.

Definition validate_access_decision (original access : Value) (operation : string) : option (result string unit) :=
  expected ← vset "operation" (vstr operation) original;
  expected ← vset "windows" access.["windows"] expected;
  Some (ensure (value_eqb expected access) "access decision changed original authority").

(** [now] is the clock at the call. *)
Definition receiver_context (now : Z) (operation decision : Value) (expected_operation : string) : result string Credentials.Receiver :=
  let source := (execution_of operation).["source"] in
  cluster ← text source.["clusterId"] "cluster";
  namespace ← text source.["namespace"] "namespace";
  namespace_uid ← text source.["namespaceUid"] "namespace UID";
  run_uid ← text source.["runUid"] "run UID";
  run_spec ← text source.["runSpecSha256"] "run digest";
  request_digest ← text decision.["requestDigest"] "request digest";
  budget ← text decision.["budget"].["budgetId"] "budget";
  Ok (Credentials.mkReceiver now "celln-execution" expected_operation cluster namespace namespace_uid run_uid run_spec
        decision.["parent"] request_digest decision.["route"] budget false).

(** ** The shape of the model's requests *)

Definition request_output_tokens (execution : Value) : result string Z :=
  match vfind "requestOutputTokens" execution with
  | None => Ok DEFAULT_REQUEST_OUTPUT_TOKENS
  | Some value =>
      match as_u64 value with
      | Some cap => if request_output_range cap then Ok cap else Err "AUTH_LIMIT_OUT_OF_RANGE"
      | None => Err "AUTH_LIMIT_OUT_OF_RANGE"
      end
  end.
Definition template_model_requests (execution decision : Value) : result string Z :=
  turns ← u64v execution.["profileSpec"].["json"].["maxTurns"] "maxTurns";
  requests ← u64v decision.["budget"].["turnCap"].["requests"] "requests";
  Ok (Z.min turns requests).
Definition within_allowance (decision : Value) (reserved : Z) (allowance : string) : result string unit :=
  tokens ← u64v decision.["budget"].[allowance].["outputTokens"] "tokens";
  ensure (reserved <=? tokens) "AUTH_LIMIT_OUT_OF_RANGE".
Definition affordable_request_output_tokens (execution decision : Value) : result string Z :=
  cap ← request_output_tokens execution;
  if says decision.["route"].["provider"] "none" then
    match vfind "requestOutputTokens" execution with None => Ok cap | Some _ => Err "AUTH_ROUTE_MISMATCH" end
  else
    requests ← (if says decision.["lifecycle"] "one-shot" then Ok 1 else template_model_requests execution decision);
    reserved ← ok_or (Spec.checked_mul_u64 requests cap) "AUTH_LIMIT_OUT_OF_RANGE";
    _ ← within_allowance decision reserved "turnCap";
    _ ← within_allowance decision reserved "runCap";
    Ok cap.

Definition bounded_resource (requested declared_ceiling : Value) (absolute_maximum : Z) (field : string) : result string unit :=
  requested ← u64v requested field;
  ceiling ← u64v declared_ceiling field;
  ensure (negb ((requested =? 0) || (ceiling =? 0) || (ceiling <? requested) || (absolute_maximum <? ceiling))) "AUTH_LIMIT_OUT_OF_RANGE".
Fixpoint bounded_resources (requested ceilings : Value) (l : list (string * Z)) : result string unit :=
  match l with
  | [] => Ok tt
  | (field, maximum) :: l => _ ← bounded_resource requested.[field] ceilings.[field] maximum field; bounded_resources requested ceilings l
  end.
Definition validate_runtime_resources (execution profile : Value) : result string unit :=
  _ ← bounded_resources execution.["runtimeLimits"] profile.["limits"]
        [("timeoutMillis", 300000); ("memoryBytes", 268435456); ("taskBytes", Protocol.MAX_TASK_BYTES); ("outputBytes", 65536)];
  task ← text execution.["payload"] "payload";
  _ ← ensure (negb (str_is_empty task) && negb (str_contains x00 task)) "AUTH_LIMIT_OUT_OF_RANGE";
  bound ← u64v execution.["runtimeLimits"].["taskBytes"] "taskBytes";
  ensure (str_len task <=? bound) "AUTH_LIMIT_OUT_OF_RANGE".

Definition native_json_config (p : PreparedRecord) (tools : list Value) (enduring : bool) : result string Value :=
  let execution := execution_of (operation p) in
  let limits := execution.["profileSpec"].["json"] in
  max_turns ← template_model_requests execution (decision p);
  max_calls ← u64v limits.["maxCalls"] "maxCalls";
  cap ← request_output_tokens execution;
  Ok (Harness.jobject
    ([("contract", vstr Harness.CONTRACT); ("task", if enduring then vstr EmptyString else execution.["payload"]);
      ("system", execution.["systemPrompt"]); ("url", vstr MODEL_ALIAS); ("model", (decision p).["route"].["model"]);
      ("tools", VArray tools); ("max_turns", vnum max_turns); ("max_calls", vnum max_calls);
      ("require_tool_call", default (VBool false) (vfind "requireToolCall" limits))]
     ++ if cap =? DEFAULT_REQUEST_OUTPUT_TOKENS then [] else [("max_tokens", vnum cap)])).

(** The time the operation may take, in milliseconds. *)
Definition operation_timeout (now : Z) (p : PreparedRecord) : result string Z :=
  deadline ← ok_or (value_i64 (decision p).["budget"].["turnDeadlineUnix"]) "invalid operation deadline";
  let remaining_seconds := deadline - now in
  _ ← ensure (negb (remaining_seconds <=? 0)) "AUTH_WORK_DEADLINE_EXPIRED";
  _ ← ensure (remaining_seconds <=? u64_max) "invalid operation deadline";
  configured ← ok_or (as_u64 (execution_of (operation p)).["runtimeLimits"].["timeoutMillis"]) "invalid runtime timeout";
  Ok (Z.min (Z.max configured 1) (remaining_seconds * 1000)).

Definition parent_scope (p : PreparedRecord) : result string string :=
  let source := (execution_of (operation p)).["source"] in
  cluster ← text source.["clusterId"] "cluster";
  uid ← text source.["namespaceUid"] "namespace UID";
  Ok (from_utf8 (to_vec (VArray [vstr "celln.scoped-parent/v1"; vstr cluster; vstr uid]))).

Definition local_turn_id (p : PreparedRecord) : result string string :=
  match as_str (decision p).["parent"].["turnId"] with
  | Some turn => Ok turn
  | None =>
      match id_hex (id p) with
      | Ok hex => Ok ("initial_" ++ String.substring 0 48 hex)%string
      | Err _ => Err "invalid initial operation identity"
      end
  end.

(** ** The answer of a model, in the transcript of its loop *)

Definition event_lines (transcript : string) : list string :=
  omap (strip_prefix "CELLN_HARNESS_EVENT ") (Outcome.lines transcript).
Definition read_event (raw : string) : result string Value :=
  match Contract.canonical scalar quoted (as_bytes raw) with
  | Ok _ => ok_or (from_slice (as_bytes raw)) "invalid model completion event"
  | Err _ => Err "invalid model completion event"
  end.
Definition answer_ok (value : string) : bool := negb (blank value) && (str_len value <=? 65536) && negb (str_contains x00 value).
Fixpoint completion_of (answer : option string) (l : list string) : result string string :=
  match l with
  | [] => ok_or answer "missing model completion"
  | raw :: l =>
      event ← read_event raw;
      if says event.["type"] "completed" then
        value ← ok_or (as_str event.["answer"]) "missing model answer";
        _ ← ensure (negb (is_Some_bool answer) && answer_ok value) "invalid or duplicate model completion";
        completion_of (Some value) l
      else completion_of answer l
  end.
Definition model_completion (transcript : string) : result string string := completion_of None (event_lines transcript).
End scoped.

(** ** The operator's template of a parent *)

Record ParentTemplate : Type := mkParentTemplate { t_api_version : string; t_request : Spec.ExecutionRequest; t_reserved_memory_bytes : Z }.

Definition validate_parent_template (t : ParentTemplate) : result string unit :=
  let r := t_request t in
  _ ← ensure (negb (negb (String.eqb (t_api_version t) "celln.scoped-parent-template/v1") || negb (String.eqb (Spec.id r) "$parent")
        || negb (String.eqb (Spec.w_id (Spec.workload r)) "$parent") || negb (String.eqb (Spec.w_caller (Spec.workload r)) "$principal")
        || (t_reserved_memory_bytes t =? 0) || is_Some_bool (Spec.harness r) || is_Some_bool (Spec.forge r)
        || negb (bool_decide (Spec.inputs r = [])) || negb (bool_decide (Spec.c_egress (Spec.capabilities r) = []))
        || match Spec.c_workspace (Spec.capabilities r) with Spec.WNone => false | _ => true end
        || match Spec.e_lane (Spec.execution r) with Spec.LaneAgent => false | Spec.LaneTool => true end || negb (Spec.e_require_hardware_isolation (Spec.execution r))
        || negb (Nat.eqb (length (Spec.tool_refs r)) 1)
        || match Spec.tool_refs r with x :: _ => negb (is_Some_bool (Spec.tr_closure x)) | [] => true end
        || negb (match Spec.invocation r with Some i => bool_decide (Spec.v_args i = []) | None => false end)
        || negb (bool_decide (Spec.request_problems r = []))))
      "invalid operator scoped parent request template";
  floor ← ok_or (Spec.checked_mul_u64 (Spec.c_memory_bytes (Spec.capabilities r)) 2) "operator parent reservation overflow";
  ensure (negb (t_reserved_memory_bytes t <=? floor)) "operator parent reservation omits retained substrate overhead".

(** The request and the permit's binding of a scoped parent, from the template. *)
Definition parent_request (t : ParentTemplate) (incarnation principal : string) (remaining_ms : Z) : Spec.ExecutionRequest :=
  let r := t_request t in
  let c := Spec.capabilities r in
  let name := ("scoped-parent-" ++ Admission.drop_chars 7 incarnation)%string in
  Spec.mkRequest (Spec.api_version r) name (Spec.mkIdentity name principal) (Spec.harness r) (Spec.mote r) (Spec.inputs r)
    (Spec.tool_refs r) (Spec.invocation r) (Spec.forge r)
    (Spec.mkCapabilities (Spec.c_workspace c) (Spec.c_egress c) (Spec.c_allow_insecure c)
       (Z.max (Z.min (Spec.c_timeout_ms c) remaining_ms) 1) (Spec.c_memory_bytes c) (Spec.c_output_bytes c))
    (Spec.execution r).

(** [parent] and [worker] are the configuration bindings of the two requests. *)
Definition parent_binding (d : Value) (principal incarnation : string) (parent worker : Spec.ExecutionRequest)
    (parent_binding worker_binding : hash) : result string Permit.Binding :=
  let number (v : Value) (e : string) := ok_or (as_u64 v) e in
  let budget := vget "budget" d in
  max_turns ← number (vget "maxTurns" budget) "invalid enduring turn limit";
  requests ← number (vget "requests" (vget "turnCap" budget)) "invalid turn budget";
  tokens ← number (vget "outputTokens" (vget "turnCap" budget)) "invalid turn budget";
  total_requests ← number (vget "requests" (vget "runCap" budget)) "invalid run budget";
  total_tokens ← number (vget "outputTokens" (vget "runCap" budget)) "invalid run budget";
  Ok (Permit.mkBinding principal incarnation parent_binding worker_binding
        (Spec.c_memory_bytes (Spec.capabilities parent)) (Spec.c_memory_bytes (Spec.capabilities worker))
        (Spec.c_timeout_ms (Spec.capabilities parent)) (Spec.c_timeout_ms (Spec.capabilities worker))
        (Z.to_nat max_turns) requests tokens total_requests total_tokens).

(** ** Statuses *)

Record ScopedStatus : Type := mkStatus {
  s_id : string;
  s_owner : string;
  s_phase : string;
  s_reason : option string;
  s_output : option string;
  s_receipt_digest : option string;
  s_cleanup_confirmed : bool;
  s_parent_incarnation : option string;
  s_turn_id : option string;
  s_parent_id : option string;
  s_child_id : option string;
  s_cell_id : option string;
  s_execution : option Value;
  s_substrate : option Value;
}.
#[export] Instance ScopedStatus_eq_dec : EqDecision ScopedStatus.
Proof. solve_decision. Defined.

Definition phases : list string := ["Admitted"; "Running"; "Cancelling"; "Succeeded"; "Failed"; "Refused"; "Cancelled"; "Uncertain"].
Definition opt_ok {A} (f : A -> bool) (o : option A) : bool := match o with Some x => f x | None => true end.

Section status.
Context `{Json Value}.
Definition small (v : Value) : bool := blen (to_vec v) <=? 65536.
(** What a status file is checked for when it is read. *)
Definition status_ok (i : string) (s : ScopedStatus) : bool :=
  String.eqb (s_id s) i && negb (is_err (id_hex (s_owner s))) && bool_decide (s_phase s ∈ phases)
  && opt_ok (fun v => str_len v <=? 65536) (s_output s)
  && opt_ok blake (s_parent_incarnation s) && opt_ok blake (s_parent_id s) && opt_ok blake (s_child_id s)
  && opt_ok (fun v => negb (str_is_empty v) && (str_len v <=? 128)) (s_turn_id s)
  && opt_ok (fun v => negb (str_is_empty v) && (str_len v <=? 256)) (s_cell_id s)
  && opt_ok small (s_execution s) && opt_ok small (s_substrate s)
  && opt_ok blake (s_receipt_digest s).
End status.

Definition incarnation_of (d : Value) : option string := as_str (vget "incarnation" (vget "parent" d)).
Definition turn_of (d : Value) : option string := as_str (vget "turnId" (vget "parent" d)).

Definition blank_status (i owner phase : string) (reason : option string) (confirmed : bool) (incarnation turn parent : option string) : ScopedStatus :=
  mkStatus i owner phase reason None None confirmed incarnation turn parent None None None None.
Definition terminal_status (i owner phase : string) (reason output : option string) : ScopedStatus :=
  mkStatus i owner phase reason output None true None None None None None None None.
Definition uncertain_status (p : PreparedRecord) (reason : string) : ScopedStatus :=
  blank_status (id p) (owner p) "Uncertain" (Some reason) false (incarnation_of (decision p)) (turn_of (decision p)) (incarnation_of (decision p)).
(** A refusal names its incarnation and its turn. *)
Definition refused_status (j_owner : string) (p : PreparedRecord) (reason : string) : ScopedStatus :=
  blank_status (id p) j_owner "Refused" (Some reason) true (incarnation_of (decision p)) (turn_of (decision p)) None.
Definition never_started_status (p : PreparedRecord) : ScopedStatus :=
  blank_status (id p) (owner p) "Cancelled" (Some "never started; permanently fenced") true (incarnation_of (decision p)) (turn_of (decision p)) None.

Definition set_phase (phase : string) (reason : option string) (confirmed : bool) (s : ScopedStatus) : ScopedStatus :=
  mkStatus (s_id s) (s_owner s) phase reason (s_output s) (s_receipt_digest s) confirmed (s_parent_incarnation s) (s_turn_id s)
    (s_parent_id s) (s_child_id s) (s_cell_id s) (s_execution s) (s_substrate s).
