(* ===== verification/ScopedLaws.v ===== *)
(** * What a prepared operation guarantees

    The authority of an enrolled decision and of the decisions that later give access to
    it, the budget that its model requests fit, and the answer that is read from the
    transcript of a model. *)

From S2P Require Import Prelude Text Json Manifest Scoped.
From S2P Require Contract Credentials Harness Protocol Spec ScopedPolicy ParentContext Lease TurnWorker.
Local Open Scope json_scope.

(** [k] is a key of an object somewhere in [v]. *)
Inductive occurs (k : string) : Value -> Prop :=
| occurs_here o v : (k, v) ∈ o -> occurs k (VObject o)
| occurs_field o k' v : (k', v) ∈ o -> occurs k v -> occurs k (VObject o)
| occurs_item l v : v ∈ l -> occurs k v -> occurs k (VArray l).

Lemma secret_free_spec v k : secret_free v = true -> secret_key k = true -> ~ occurs k v.
Proof.
  intros Hs Hk Ho. induction Ho as [o v Hin|o k' v Hin Ho IH|l v Hin Ho IH]; cbn in Hs; rewrite forallb_forall in Hs;
    apply list_elem_of_In in Hin; specialize (Hs _ Hin); cbn in Hs.
  - by rewrite Hk in Hs.
  - apply andb_true_iff in Hs as [_ Hs]. by apply IH.
  - by apply IH.
Qed.

(** The fields of two values are the same, but for the named ones. *)
Definition agrees (ks : list string) (v w : Value) : Prop := forall k, k ∉ ks -> vfind k v = vfind k w.

Lemma vget_vfind k v : v.[k] = default Null (vfind k v).
Proof. by destruct v. Qed.
Lemma agrees_get ks v w k : agrees ks v w -> k ∉ ks -> v.[k] = w.[k].
Proof. intros Ha Hk. by rewrite !vget_vfind, Ha. Qed.
Lemma vfind_vset k x v v' k' : vset k x v = Some v' -> vfind k' v' = if String.eqb k' k then Some x else vfind k' v.
Proof.
  destruct v; cbn; intros [= <-]; cbn.
  - destruct (String.eqb k' k); done.
  - apply oget_oinsert.
Qed.
Lemma vset_get k x v v' : vset k x v = Some v' -> v'.[k] = x.
Proof. intros E. rewrite vget_vfind, (vfind_vset _ _ _ _ _ E), String.eqb_refl. done. Qed.
Lemma vset_agrees k x v v' : vset k x v = Some v' -> agrees [k] v' v.
Proof. intros E k' Hk. rewrite (vfind_vset _ _ _ _ _ E). destruct (String.eqb_spec k' k) as [->|]; [set_solver|done]. Qed.

Lemma differ_false v w : differ v w = false <-> v = w.
Proof. unfold differ. by rewrite negb_false_iff, value_eqb_eq. Qed.
Lemma says_true v s : says v s = true <-> v = vstr s.
Proof. apply value_eqb_eq. Qed.
Lemma null_true v : null v = true <-> v = Null.
Proof. apply value_eqb_eq. Qed.

Section laws.
Context {scalar : Value -> option bytes} {quoted : string -> option bytes}.
Context `{JsonText} `{Contract.Sha256} `{Json Value}.
Context {data_of : Value -> option ScopedPolicy.Artifacts.Limits} {web_of : Value -> option ScopedPolicy.Https.Limits}.

(** What is pinned besides the resolved decision: the UID of the credential. *)
Definition pins (reference pin base d : Value) : Prop :=
  if null reference then d = base /\ pin = Null
  else (forall k, k ∈ ["kind"; "secretName"; "secretKey"] -> pin.[k] = reference.[k]) /\
       exists uid, pin.["secretUid"] = vstr uid /\ uid <> EmptyString.

Lemma pinned_spec execution base d : pinned execution base d = Some (Ok d) ->
  agrees ["route"] d base /\ agrees ["credentialSource"] d.["route"] base.["route"] /\
  pins execution.["credentialSourceRef"] d.["route"].["credentialSource"] base d.
Proof.
  unfold pinned, pins. cbv zeta. destruct (null execution.["credentialSourceRef"]) eqn:En; cbn [negb].
  - destruct (negb (null d.["route"].["credentialSource"])) eqn:Ep; [done|]. intros [= <-]. split; [by intros k|]. split; [by intros k|].
    split; [done|]. apply null_true. by apply negb_false_iff.
  - destruct (_ || _) eqn:Eo; [done|]. rewrite !orb_false_iff, !differ_false in Eo. destruct Eo as [[[Hkd Hnm] Hky] Huid].
    intros E. apply bind_Some in E as (route & Er & E). apply bind_Some in E as (allowed & Ea & [= ->]).
    split; [by eapply vset_agrees|]. split; [rewrite (vset_get _ _ _ _ Ea); by eapply vset_agrees|]. split.
    + intros k Hk. repeat (apply elem_of_cons in Hk as [->|Hk]; [done|]). by apply elem_of_nil in Hk.
    + destruct (d.["route"].["credentialSource"].["secretUid"]) as [| | |uid| |]; cbn in Huid; try done. exists uid. split; [done|]. by destruct uid.
Qed.

(** The tools of the material and of the decision, one by one. *)
Definition same_tool (m b : Value) : Prop :=
  m.["name"] = b.["name"] /\ m.["spec"].["revision"] = b.["revision"] /\ m.["spec"].["executable"].["hash"] = b.["hash"].

Lemma tools_match_spec execution d : tools_match execution d = Ok tt ->
  exists ms bs, execution.["tools"] = VArray ms /\ d.["tools"] = VArray bs /\ Forall2 same_tool ms bs.
Proof.
  unfold tools_match. intros E. apply result_bind_Ok in E as (ms & Em%ok_or_Ok & E). apply result_bind_Ok in E as (bs & Eb%ok_or_Ok & E).
  apply result_bind_Ok in E as (u & El%ensure_Ok & E). apply ensure_Ok, negb_true_iff in E. apply Nat.eqb_eq in El.
  exists ms, bs. unfold array, ScopedPolicy.array in Em, Eb.
  destruct execution.["tools"]; try done. destruct d.["tools"]; try done. injection Em as ->. injection Eb as ->. split; [done|]. split; [done|].
  clear -El E. revert bs El E. induction ms as [|m ms IH]; intros [|b bs] El E; try done. cbn in E.
  apply orb_false_iff in E as [E1 E2]. constructor; [|apply IH; [by injection El|done]].
  unfold tool_differs in E1. rewrite !orb_false_iff, !differ_false in E1. unfold same_tool. tauto.
Qed.

(** The run that the decision is about is the one that the material comes from. *)
Definition same_source (source d : Value) : Prop :=
  source.["clusterId"] = d.["clusterId"] /\ source.["namespace"] = d.["run"].["namespace"] /\
  source.["namespaceUid"] = d.["run"].["namespaceUid"] /\ source.["runUid"] = d.["run"].["uid"] /\ source.["runSpecSha256"] = d.["run"].["specSha256"].

Lemma source_same source d : source_differs source d = false -> same_source source d.
Proof. unfold source_differs, same_source. rewrite !orb_false_iff, !differ_false. tauto. Qed.

Lemma validate_prepared_Ok op d : validate_prepared scalar quoted data_of web_of op d = Some (Ok tt) ->
  resolved_ok data_of web_of op d = Ok tt /\ pinned (execution_of op) (base_of op) d = Some (Ok d) /\ identities_match scalar quoted op d = Ok tt.
Proof.
  unfold validate_prepared. destruct (resolved_ok _ _ _ _) as [[]|e]; [|done]. intros E. apply bind_Some in E as (allowed & Ep & [= E]).
  apply result_bind_Ok in E as (v & -> & E). apply result_bind_Ok in E as (u & Hv%ensure_Ok%value_eqb_eq & E). by subst v.
Qed.

Lemma validate_access_spec original access o : validate_access_decision original access o = Some (Ok tt) ->
  agrees ["operation"; "windows"] access original /\ access.["operation"] = vstr o.
Proof.
  unfold validate_access_decision. intros E. apply bind_Some in E as (e1 & E1 & E). apply bind_Some in E as (e2 & E2 & [= E]).
  apply ensure_Ok, value_eqb_eq in E. subst e2. split.
  - intros k Hk. rewrite (vset_agrees _ _ _ _ E2), (vset_agrees _ _ _ _ E1); [done|set_solver..].
  - rewrite vget_vfind, (vset_agrees _ _ _ _ E2) by set_solver. rewrite <- vget_vfind. by eapply vset_get.
Qed.

Lemma receiver_agrees now op d access o : agrees ["operation"; "windows"] access d ->
  receiver_context now op access o = receiver_context now op d o.
Proof.
  intros Ha. assert (Hg : forall k, k ∉ ["operation"; "windows"] -> access.[k] = d.[k]) by (intros k Hk; by eapply agrees_get).
  unfold receiver_context. rewrite !(Hg "requestDigest"), !(Hg "budget"), !(Hg "parent"), !(Hg "route") by set_solver. done.
Qed.

(** C13: An enrolled operation keeps the authority that was resolved for it. When a prepared
    operation is valid, no credential material occurs anywhere in it; its final decision is
    the resolved one, but for the credential of its route, of which only the UID is new and
    everything else is as the material refers to it; it is about the run that the material
    comes from, its runtime, the tools one by one and its request. And a decision that
    later gives access to it is the same decision for another operation and another window,
    under which the receiver expects exactly the same. *)
Theorem prepared_authority (op d : Value) :
  validate_prepared scalar quoted data_of web_of op d = Some (Ok tt) ->
  let execution := execution_of op in
  (forall k, secret_key k = true -> ~ occurs k op /\ ~ occurs k d) /\
  agrees ["route"] d (base_of op) /\ agrees ["credentialSource"] d.["route"] (base_of op).["route"] /\
  pins execution.["credentialSourceRef"] d.["route"].["credentialSource"] (base_of op) d /\
  same_source execution.["source"] d /\
  (exists profile runtime, digest_value scalar quoted execution.["profileSpec"] = Ok profile /\
     digest_value scalar quoted (runtime_value execution profile) = Ok runtime /\
     d.["runtime"].["specSha256"] = vstr runtime /\ d.["runtime"].["revision"] = execution.["profileSpec"].["revision"]) /\
  (exists ms bs, execution.["tools"] = VArray ms /\ d.["tools"] = VArray bs /\ Forall2 same_tool ms bs) /\
  (exists external, external_request scalar quoted op d = Ok external /\ d.["requestDigest"] = vstr (Contract.digest external)) /\
  forall access o, validate_access_decision d access o = Some (Ok tt) ->
    agrees ["operation"; "windows"] access d /\ access.["operation"] = vstr o /\
    forall now e, receiver_context now op access e = receiver_context now op d e.
Proof.
  intros Hv. apply validate_prepared_Ok in Hv as (Hr & Hp & Hi). apply pinned_spec in Hp as (Hp1 & Hp2 & Hp3). cbv zeta.
  unfold resolved_ok in Hr. cbv zeta in Hr. apply result_bind_Ok in Hr as (u & Hs1%ensure_Ok & Hr). apply result_bind_Ok in Hr as (u1 & Hs2%ensure_Ok & Hr).
  repeat (apply result_bind_Ok in Hr as (? & _ & Hr)). apply ensure_Ok, negb_true_iff, source_same in Hr.
  unfold identities_match in Hi. cbv zeta in Hi. apply result_bind_Ok in Hi as (profile & Hprofile & Hi). apply result_bind_Ok in Hi as (runtime & Hruntime & Hi).
  apply result_bind_Ok in Hi as (u2 & Hd%ensure_Ok & Hi). rewrite negb_true_iff, orb_false_iff, !differ_false in Hd. destruct Hd as [Hd1 Hd2].
  apply result_bind_Ok in Hi as ([] & Ht%tools_match_spec & Hi). apply result_bind_Ok in Hi as (external & He & Hi).
  apply ensure_Ok, negb_true_iff, differ_false in Hi.
  split. { intros k Hk. split; by eapply secret_free_spec. }
  split; [done|]. split; [done|]. split; [done|]. split; [done|]. split; [by exists profile, runtime|]. split; [done|]. split; [by exists external|].
  intros access o Ha. apply validate_access_spec in Ha as [Ha Ho]. split; [done|]. split; [done|]. intros now e. by apply receiver_agrees.
Qed.

(** ** Answers of a model *)

Definition completed (e : Value) : bool := says e.["type"] "completed".
Definition reads_events (l : list string) (es : list Value) : Prop := Forall2 (fun raw e => read_event scalar quoted raw = Ok e) l es.

Lemma completion_of_spec l : forall answer a, completion_of scalar quoted answer l = Ok a <->
  exists es, reads_events l es /\ match answer with
    | Some x => filter (fun e => completed e = true) es = [] /\ x = a
    | None => exists e, filter (fun e => completed e = true) es = [e] /\ as_str e.["answer"] = Some a /\ answer_ok a = true
    end.
Proof.
  induction l as [|raw l IH]; intros answer a; cbn [completion_of].
  - rewrite ok_or_Ok. split.
    + intros ->. exists []. split; [constructor|done].
    + intros (es & Hes & Hm). apply Forall2_nil_inv_l in Hes as ->. destruct answer as [x|]; [by destruct Hm as [_ ->]|by destruct Hm as (e & ? & _)].
  - split.
    + intros E. apply result_bind_Ok in E as (e & He & E). destruct (says e.["type"] "completed") eqn:Ec.
      * apply result_bind_Ok in E as (v & Hv%ok_or_Ok & E). apply result_bind_Ok in E as (u & Hg%ensure_Ok & E). apply andb_true_iff in Hg as [Hn Hok].
        destruct answer; [done|]. apply IH in E as (es & Hes & Hf & <-). exists (e :: es). split; [by constructor|]. exists e.
        rewrite filter_cons_True by exact Ec. by rewrite Hf.
      * apply IH in E as (es & Hes & Hm). exists (e :: es). split; [by constructor|]. rewrite filter_cons_False by (unfold completed; by rewrite Ec). done.
    + intros (es & Hes & Hm). inversion Hes as [|? e ? es' He Hes' E1 E2]; subst. rewrite He. cbn. destruct (says e.["type"] "completed") eqn:Ec.
      * rewrite filter_cons_True in Hm by exact Ec. destruct answer as [x|]; [by destruct Hm|]. destruct Hm as (e1 & [= <- Hf] & Ha & Hok).
        rewrite Ha. cbn. rewrite Hok. cbn. apply IH. exists es'. done.
      * rewrite filter_cons_False in Hm by (unfold completed; by rewrite Ec). apply IH. by exists es'.
Qed.

(** The answer of a model is its one completion. It is read from a transcript exactly
    when every event of the transcript is unambiguous I-JSON, one of them and no more is a
    completion, and its answer is not blank, not too long and free of NUL bytes. *)
Theorem completion_exact (transcript answer : string) :
  model_completion scalar quoted transcript = Ok answer <->
  exists events e, reads_events (event_lines transcript) events /\ filter (fun e => completed e = true) events = [e] /\
    e.["answer"] = vstr answer /\ blank answer = false /\ str_len answer <= 65536 /\ str_contains x00 answer = false.
Proof.
  unfold model_completion. rewrite completion_of_spec. unfold answer_ok. split.
  - intros (es & Hes & e & Hf & Ha & Hok). rewrite !andb_true_iff, !negb_true_iff, Z.leb_le in Hok. exists es, e. split_and!; try tauto.
    destruct e.["answer"]; cbn in Ha; try done. by injection Ha as ->.
  - intros (es & e & Hes & Hf & Ha & Hb & Hl & Hz). exists es. split; [done|]. exists e. rewrite Ha, Hb, Hz, (proj2 (Z.leb_le _ _) Hl). done.
Qed.
End laws.

(** ** The budget of the model's requests *)

Lemma request_output_tokens_Ok execution cap : request_output_tokens execution = Ok cap ->
  256 <= cap <= 4096 /\ (vfind "requestOutputTokens" execution = None -> cap = DEFAULT_REQUEST_OUTPUT_TOKENS).
Proof.
  unfold request_output_tokens, request_output_range, DEFAULT_REQUEST_OUTPUT_TOKENS. destruct (vfind _ _) as [v|]; [|intros [= <-]; split; [lia|done]].
  destruct (as_u64 v) as [n|]; [|done]. destruct (_ && _) eqn:E; [|done]. intros [= <-]. rewrite andb_true_iff, !Z.leb_le in E. done.
Qed.

Lemma within_allowance_Ok d reserved a : within_allowance d reserved a = Ok tt ->
  exists n, as_u64 d.["budget"].[a].["outputTokens"] = Some n /\ reserved <= n.
Proof. unfold within_allowance, u64v. intros E. split_ok. eexists. split; [done|]. by apply Z.leb_le. Qed.

Lemma config_fields p tools enduring n cap config : native_json_config p tools enduring = Ok config ->
  template_model_requests (execution_of (operation p)) (decision p) = Ok n -> request_output_tokens (execution_of (operation p)) = Ok cap ->
  as_u64 config.["max_turns"] = Some n /\ default DEFAULT_REQUEST_OUTPUT_TOKENS (as_u64 config.["max_tokens"]) = cap.
Proof.
  unfold native_json_config. intros E Hn Hc. rewrite Hn, Hc in E. cbn in E. apply result_bind_Ok in E as (calls & _ & [= <-]).
  destruct (Z.eqb_spec cap DEFAULT_REQUEST_OUTPUT_TOKENS) as [->|Hne]; by split.
Qed.

Lemma template_requests_Ok execution d n : template_model_requests execution d = Ok n ->
  exists turns rq, as_u64 execution.["profileSpec"].["json"].["maxTurns"] = Some turns /\
    as_u64 d.["budget"].["turnCap"].["requests"] = Some rq /\ n = Z.min turns rq.
Proof. unfold template_model_requests, u64v. intros E. split_ok. by eexists _, _. Qed.
Lemma parent_binding_budget d principal incarnation parent worker hp hw b : parent_binding d principal incarnation parent worker hp hw = Ok b ->
  as_u64 d.["budget"].["turnCap"].["requests"] = Some (Permit.turn_model_requests b) /\
  as_u64 d.["budget"].["turnCap"].["outputTokens"] = Some (Permit.turn_output_tokens b).
Proof. unfold parent_binding. cbv zeta. intros E. split_ok. done. Qed.

Section budget.
Context `{Blake3} `{JsonText} `{Json Value} (from_value : Value -> option ToolSchema.Node).
Context `{Json (string * Harness.Config)} `{Json Harness.Config} `{Json ParentContext.ContextInput} `{Json (string * string)} `{Json Protocol.TurnRequest}.

(** C14: What is enrolled can be paid for. When the receiver finds the requests of an operation
    affordable, a request asks for 256 to 4096 output tokens. Without a model (the provider
    "none") that is the default, which the operation may not name, and no budget is looked
    at. With a model, the operation's requests together - one for a one-shot; for a retained
    worker the fewer of its profile's turns and its turn's budget of requests, which may be
    none - fit the output tokens of the turn and of the run. So, for a retained worker whose
    parent is bound to the decision's budget, in the template that the receiver writes, no
    turn that the lease reserves is ever refused for its budget: whenever its task is valid
    for the template, the worker gets its arguments. *)
Theorem affordable_pays (p : PreparedRecord) (cap : Z) :
  let d := decision p in
  let execution := execution_of (operation p) in
  affordable_request_output_tokens execution d = Ok cap ->
  256 <= cap <= 4096 /\
  if says d.["route"].["provider"] "none" then cap = 512 /\ vfind "requestOutputTokens" execution = None
  else exists tokens total n,
    as_u64 d.["budget"].["turnCap"].["outputTokens"] = Some tokens /\ as_u64 d.["budget"].["runCap"].["outputTokens"] = Some total /\
    n * cap <= tokens /\ n * cap <= total /\
    if says d.["lifecycle"] "one-shot" then n = 1 else
      (exists turns requests, as_u64 execution.["profileSpec"].["json"].["maxTurns"] = Some turns /\
         as_u64 d.["budget"].["turnCap"].["requests"] = Some requests /\ n = Z.min turns requests) /\
      forall tools config template principal incarnation parent worker hp hw b s raw now t s' context,
       native_json_config p tools true = Ok config ->
       Harness.max_turns (TurnWorker.policy template) = default 0 (as_u64 config.["max_turns"]) ->
       Harness.max_tokens (TurnWorker.policy template) = default Harness.DEFAULT_MAX_TOKENS (as_u64 config.["max_tokens"]) ->
       parent_binding d principal incarnation parent worker hp hw = Ok b ->
       Lease.model_requests (Lease.limits s) = Permit.turn_model_requests b -> Lease.output_tokens (Lease.limits s) = Permit.turn_output_tokens b ->
       Lease.reserve_at s raw now = (Ok t, s') ->
       ParentContext.decode_context (Protocol.task (Lease.rt_request t)) = Ok context ->
       let c := TurnWorker.with_task (TurnWorker.policy template) (ParentContext.c_message context) in
       Harness.validate_with_history from_value c (ParentContext.c_history context) = Ok tt ->
       TurnWorker.arguments from_value template t = Ok (from_utf8 (to_vec c), Protocol.task (Lease.rt_request t)).
Proof.
  cbv zeta. unfold affordable_request_output_tokens. intros E. apply result_bind_Ok in E as (k & Hk & E).
  destruct (request_output_tokens_Ok _ _ Hk) as [Hcap Hdef]. destruct (says _.["provider"] "none").
  { destruct (vfind _ _) eqn:Ef; [done|]. injection E as <-. split; [done|]. split; [by apply Hdef|done]. }
  apply result_bind_Ok in E as (n & Hreq & E). apply result_bind_Ok in E as (r & Hm%ok_or_Ok & E).
  apply result_bind_Ok in E as ([] & Ht%within_allowance_Ok & E). apply result_bind_Ok in E as ([] & Hr%within_allowance_Ok & [= <-]).
  destruct Ht as (tokens & Et & Ht). destruct Hr as (total & Er & Hr).
  unfold Spec.checked_mul_u64 in Hm. destruct (_ <=? _) eqn:Hmax; [|done]. injection Hm as <-. split; [done|].
  exists tokens, total, n. do 4 (split; [done|]). destruct (says _.["lifecycle"] "one-shot"); [by injection Hreq as <-|].
  split; [by apply template_requests_Ok|].
  intros tools config template principal incarnation parent worker hp hw b s raw now t s' context Hc Hturns Htokens Hb Hlm Hlt Hres Hctx Hv.
  destruct (config_fields _ _ _ _ _ _ Hc Hreq Hk) as [Hmt Hmo]. rewrite Hmt in Hturns. cbn in Hturns.
  change Harness.DEFAULT_MAX_TOKENS with DEFAULT_REQUEST_OUTPUT_TOKENS in Htokens. rewrite Hmo in Htokens.
  destruct (parent_binding_budget _ _ _ _ _ _ _ _ Hb) as [Hbr Hbt]. rewrite Et in Hbt. injection Hbt as Hbt.
  apply template_requests_Ok in Hreq as (turns & rq & _ & Erq & ->). rewrite Erq in Hbr. injection Hbr as Hbr.
  apply Lease.reserve_at_Ok in Hres as (_ & _ & _ & _ & _ & _ & _ & _ & Et' & _). unfold TurnWorker.arguments. rewrite Hctx.
  cbn [mbind result_bind]. rewrite Hturns, Htokens, Et'. cbn [Lease.rt_limits Lease.model_requests Lease.output_tokens Lease.rt_request].
  rewrite (proj2 (Z.leb_le _ _)) by lia. rewrite (proj2 (Z.leb_le _ _)) by lia. cbn [andb ensure]. by rewrite Hv.
Qed.
End budget.
