(* ===== verification/ScopedOps.v ===== *)
(** * Scoped operations ([dispatch_scoped.rs])

    Preparation, start, reading and cleanup of scoped operations, with the workers that end
    them. Each handler is a program of atomic actions - one status file read or renamed into
    place, one call of the admission journal, one section under the executions' lock - so
    that the handlers and workers of a process interleave at these. What the rest of the
    dispatcher answers (the node, the parents' registry and journal, the native launch) is
    asked, and answered as it likes. *)

From S2P Require Import Prelude Text Json Manifest Scoped.
From S2P Require Contract Credentials Admission Harness Lease Outcome Permit.
Local Open Scope json_scope.

(** ** Answers *)

Inductive Body : Type := BStatus (s : ScopedStatus) | BError (error : string) (reason : option string) | BPrepared (i owner : string).
(** [Dropped]: the handler returns an error and nothing is answered; [Silent]: a worker. *)
Inductive Reply : Type := Answer (code : Z) (b : Body) | Dropped | Silent.

Definition admission_reply (e : Admission.Error) : Reply :=
  let '(code, reason) := match e with
    | Admission.Credential r => (401, r)
    | Admission.RequestConflict => (409, "AUTH_REQUEST_BINDING_MISMATCH")
    | Admission.Capacity => (503, "AUTH_CAPACITY")
    | Admission.BudgetExhausted => (429, "AUTH_BUDGET_EXHAUSTED")
    | Admission.Busy => (409, "AUTH_BUSY")
    | Admission.Fenced => (409, "AUTH_CONTEXT_LOST")
    | Admission.Unavailable => (503, "AUTH_UNAVAILABLE")
    end%string in
  Answer code (BError "scoped admission refused" (Some reason)).
Definition refused (code : Z) (reason : string) : Reply := Answer code (BError "scoped admission refused" (Some reason)).
Definition plain (code : Z) (error : string) : Reply := Answer code (BError error None).
Definition status_reply (s : ScopedStatus) : Reply := Answer (if s_cleanup_confirmed s then 200 else 202) (BStatus s).

Definition context_lost (e : Admission.Error) : bool := match e with Admission.Credential r => String.eqb r "AUTH_CONTEXT_LOST" | _ => false end.
Definition was_never_started (row : Admission.Row) : bool := match Admission.outcome row with Some Admission.NeverStarted => true | _ => false end.
Definition was_refused (row : Admission.Row) : bool := match Admission.outcome row with Some Admission.Refused => true | _ => false end.

(** ** Actions *)

Inductive Mutex : Type := Operation | Executions.
#[export] Instance Mutex_eq_dec : EqDecision Mutex.
Proof. solve_decision. Defined.

(** What is asked of the rest of the dispatcher, for an operation. *)
Inductive Question : Type :=
| Fence (parent principal : string)            (* [parent_journal::fence_uncreated] *)
| Teardown (parent principal : string)         (* [parent_journal::historical_teardown] *)
| Stop (principal parent : string)             (* [parents.stop] *)
| CancelTurns (parent : string)                (* the controls of a context's turns *)
| CancelTurn (parent turn : string)            (* was it pending; no context is an error *)
| CancelChild (principal parent turn : string) (* [parents.cancel_child] *)
| ParentStatus (principal parent : string)     (* lost or uncertain; stopping; neither is an error *)
| EntryCancel                                  (* was the entry of the execution active *)
| EntryAdmit                                   (* [current_node], [admit], insertion *)
| EntryRemove | EntryUpdate (phase : string)
| NewControl | Expired                         (* the control's construction; its check *)
| Build                                        (* [build_native]: is there a broker *)
| Mediated | Worker | Context_ (parent : string) | Check (what : string)
| ClaimFactory
| Pend (turn : string) | Unpend (turn : string) (* the broker of a turn that is to come *).

(** The result of a native launch, and that of a retained parent's turn. *)
Record NativeProvenance : Type := mkProvenance {
  p_parent_incarnation : string; p_turn_id : option string; p_parent_id : string; p_child_id : string;
  p_cell_id : string; p_execution : option Value; p_substrate : option Value;
}.
Record Launched : Type := mkLaunched { l_outcome : option (result string Outcome.LaunchOutcome); l_cancelled : bool }.
Record Received : Type := mkReceived { r_response : option (result string bytes); r_provenance : option NativeProvenance }.

Inductive Worker_ : Type :=
| OneShot (f : Admission.Fresh) (i : string) (model_backed : bool)
| Retained (f : Admission.Fresh) (p : PreparedRecord) (incarnation turn : string) (initial : bool).

(** What is launched with a fresh claim: a retained parent, or the cell or turn itself. *)
Inductive Kind : Type := KParent | KRun.
#[export] Instance Kind_eq_dec : EqDecision Kind.
Proof. solve_decision. Defined.

Inductive Prog (A : Type) : Type :=
| Ret (a : A)
| Lock (m : Mutex) (k : Prog A)
| Unlock (m : Mutex) (k : Prog A)
| Now (k : Z -> Prog A)
| ReadPrepared (i : string) (k : result unit (option bytes) -> Prog A)
| WriteNew (i : string) (b : bytes) (k : bool -> Prog A)
| Load (i : string) (k : result unit (option ScopedStatus) -> Prog A)
| Persist (s : ScopedStatus) (k : bool -> Prog A)
| Claim (i : string) (v : Credentials.Verifier) (token : string) (d request : bytes) (c : Credentials.Receiver)
    (k : result Admission.Error Admission.Claim -> Prog A)
| Access (i : string) (v : Credentials.Verifier) (token : string) (d : bytes) (c : Credentials.Receiver) (e : Admission.Enrollment)
    (k : result Admission.Error Admission.Row -> Prog A)
| Finish (f : Admission.Fresh) (o : Admission.Outcome) (k : Prog A)
| Ask (i : string) (q : Question) (k : result string bool -> Prog A)
| Launch (kind : Kind) (f : Admission.Fresh) (k : result string unit -> Prog A)
| Spawn (w : Worker_) (k : bool -> Prog A)
| Launching (i : string) (k : Launched -> Prog A)
| Receive (i : string) (k : Received -> Prog A).
Arguments Ret {A}. Arguments Lock {A}. Arguments Unlock {A}. Arguments Now {A}. Arguments ReadPrepared {A}. Arguments WriteNew {A}.
Arguments Load {A}. Arguments Persist {A}. Arguments Claim {A}. Arguments Access {A}. Arguments Finish {A}. Arguments Ask {A}.
Arguments Launch {A}. Arguments Spawn {A}. Arguments Launching {A}. Arguments Receive {A}.

Fixpoint bind {A B} (f : A -> Prog B) (p : Prog A) : Prog B :=
  match p with
  | Ret a => f a
  | Lock m k => Lock m (bind f k)
  | Unlock m k => Unlock m (bind f k)
  | Now k => Now (fun x => bind f (k x))
  | ReadPrepared i k => ReadPrepared i (fun x => bind f (k x))
  | WriteNew i b k => WriteNew i b (fun x => bind f (k x))
  | Load i k => Load i (fun x => bind f (k x))
  | Persist s k => Persist s (fun x => bind f (k x))
  | Claim i v t d r c k => Claim i v t d r c (fun x => bind f (k x))
  | Access i v t d c e k => Access i v t d c e (fun x => bind f (k x))
  | Finish fr o k => Finish fr o (bind f k)
  | Ask i q k => Ask i q (fun x => bind f (k x))
  | Launch kd fr k => Launch kd fr (fun x => bind f (k x))
  | Spawn w k => Spawn w (fun x => bind f (k x))
  | Launching i k => Launching i (fun x => bind f (k x))
  | Receive i k => Receive i (fun x => bind f (k x))
  end.
#[export] Instance Prog_bind : MBind Prog := @bind.
#[export] Instance Prog_ret : MRet Prog := @Ret.

Definition lock (m : Mutex) : Prog unit := Lock m (Ret tt).
Definition unlock (m : Mutex) : Prog unit := Unlock m (Ret tt).
Definition clock : Prog Z := Now Ret.
Definition load_status (i : string) : Prog (result unit (option ScopedStatus)) := Load i Ret.
Definition persist_status (s : ScopedStatus) : Prog bool := Persist s Ret.
Definition finish (f : Admission.Fresh) (o : Admission.Outcome) : Prog unit := Finish f o (Ret tt).
Definition ask (i : string) (q : Question) : Prog (result string bool) := Ask i q Ret.
Definition launch (k : Kind) (f : Admission.Fresh) : Prog (result string unit) := Launch k f Ret.
Definition spawn (w : Worker_) : Prog bool := Spawn w Ret.
(** A lock that is held until the handler returns. *)
Definition locked {A} (m : Mutex) (p : Prog A) : Prog A := _ ← lock m; a ← p; _ ← unlock m; mret a.
(** [self.load_status(id).ok().flatten()]. *)
Definition found (r : result unit (option ScopedStatus)) : option ScopedStatus := match r with Ok (Some s) => Some s | _ => None end.

Section handlers.
Context (scalar : Value -> option bytes) (quoted : string -> option bytes).
Context `{Blake3} `{JsonText} `{Contract.Sha256} `{Json Value} `{Closure.Ed25519} `{Credentials.Formats}.
Context `{Json PreparedRecord} `{Json (string * string)} `{Json (string * string * string)}.
Context (data_of : Value -> option ScopedPolicy.Artifacts.Limits) (web_of : Value -> option ScopedPolicy.Https.Limits).
(** [serde_json::to_value] of the derived reports, and the debug form of reasons. *)
Context (execution_value : Outcome.ExecutionGrant -> option Value) (substrate_value : Outcome.SubstrateIdentity -> option Value).
(** The process's journal. *)
Context (j : Admission.Journal).
Definition j_owner : string := Admission.j_owner j.

(** ** Prepared records *)

Definition decode_prepared (i : string) (raw : bytes) : option PreparedRecord :=
  r ← from_slice raw;
  if negb (negb (version r =? 1) || negb (String.eqb (id r) i) || is_err (id_hex (owner r))) then
    match validate_prepared scalar quoted data_of web_of (operation r) (decision r) with Some (Ok _) => Some r | _ => None end
  else None.
Definition load_prepared (i : string) : Prog (option PreparedRecord) :=
  ReadPrepared i (fun r => Ret (match r with Ok (Some raw) => decode_prepared i raw | _ => None end)).

(** Under the lock: the owner that enrolled the operation; [None] is a conflict. *)
Definition enroll_prepared (candidate : PreparedRecord) (b : bytes) : Prog (result unit (option string)) :=
  locked Operation (
    r ← ReadPrepared (id candidate) Ret;
    match r with
    | Ok (Some raw) =>
        match from_slice raw with
        | Some existing =>
            if negb (String.eqb (id existing) (id candidate)) || differ (operation existing) (operation candidate)
               || differ (decision existing) (decision candidate)
            then mret (Ok None) else mret (Ok (Some (owner existing)))
        | None => mret (Err tt)
        end
    | Ok None => done ← WriteNew (id candidate) b Ret; mret (if (done : bool) then Ok (Some (owner candidate)) else Err tt)
    | Err _ => mret (Err tt)
    end).

Definition refused_preparation (reason : string) : Reply := Answer 422 (BError "scoped preparation refused" (Some reason)).
Definition prepare (operation d : Value) : Prog Reply :=
  match validate_prepared scalar quoted data_of web_of operation d with
  | None => mret Dropped
  | Some (Err reason) => mret (refused_preparation reason)
  | Some (Ok _) =>
      match affordable_request_output_tokens (execution_of operation) d with
      | Err reason => mret (refused_preparation reason)
      | Ok _ =>
          match operation_id scalar quoted operation d with
          | Err _ => mret (plain 422 "scoped preparation refused")
          | Ok i =>
              let candidate := mkPrepared 1 i j_owner operation d in
              let b := to_vec candidate in
              if MAX_PREPARED <? blen b then mret (plain 413 "prepared operation exceeds receiver bound") else
              r ← enroll_prepared candidate b;
              mret (match r with
                    | Ok (Some o) => Answer 200 (BPrepared i o)
                    | Ok None => plain 409 "operation identity already has different prepared material"
                    | Err _ => plain 503 "durable scoped preparation unavailable"
                    end)
          end
      end
  end.

(** ** Refusals *)

Definition terminal_refusal (f : Admission.Fresh) (i reason : string) : Prog ScopedStatus :=
  let s := terminal_status i j_owner "Refused" (Some reason) None in
  _ ← persist_status s; _ ← finish f Admission.Refused; mret s.
Definition uncertain_parent_refusal (f : Admission.Fresh) (p : PreparedRecord) : Prog ScopedStatus :=
  let s := uncertain_status p "parent claim refused; original ownership and teardown unconfirmed" in
  _ ← finish f Admission.Refused; _ ← persist_status s; mret s.
Definition prepared_refusal (f : Admission.Fresh) (p : PreparedRecord) (reason : string) : Prog ScopedStatus :=
  let s := refused_status j_owner p reason in
  _ ← persist_status s; _ ← finish f Admission.Refused; mret s.
Definition answer (code : Z) (m : Prog ScopedStatus) : Prog Reply := s ← m; mret (Answer code (BStatus s)).
Definition uncertain (code : Z) (p : PreparedRecord) (reason : string) : Prog Reply :=
  let s := uncertain_status p reason in _ ← persist_status s; mret (Answer code (BStatus s)).

(** ** Turns of retained parents *)

Definition child_of (incarnation turn : string) : hash := hash_of (to_vec (incarnation, turn)).
Definition principal_of (c : Credentials.Receiver) : string :=
  ("sympozium:" ++ Credentials.cluster_id c ++ ":" ++ Credentials.namespace_uid c)%string.

Definition submit_enduring_turn (principal : string) (p : PreparedRecord) (f : Admission.Fresh) (incarnation turn : string) (initial : bool) : Prog Reply :=
  let i := id p in
  expired ← ask i Expired;
  match expired with
  | Err _ =>
      stopped ← (if initial then ask i (Stop principal incarnation) else mret (Ok true));
      if is_err stopped then uncertain 503 p "initial deadline expired and retained parent teardown is unconfirmed"
      else answer 422 (prepared_refusal f p "AUTH_WORK_DEADLINE_EXPIRED")
  | Ok _ =>
      pended ← ask i (Pend turn);
      match pended with
      | Err _ => mret Dropped
      | Ok true => uncertain 409 p "fresh turn broker identity already occupied"
      | Ok false =>
          let s := mkStatus i j_owner "Admitted" None None None false (Some incarnation) (turn_of (decision p)) (Some incarnation)
                     (Some (child_of incarnation turn)) None None None in
          stored ← persist_status s;
          if negb (stored : bool) then _ ← ask i (Unpend turn); answer 503 (prepared_refusal f p "durable result journal unavailable") else
          submitted ← launch KRun f;
          match submitted with
          | Err reason => _ ← ask i (Unpend turn); uncertain 409 p reason
          | Ok _ =>
              working ← spawn (Retained f p incarnation turn initial);
              if (working : bool) then mret (Answer 202 (BStatus s))
              else uncertain 503 p "enduring result worker unavailable after accepted parent submission"
          end
      end
  end.

Definition provenance_value (n : NativeProvenance) : Value :=
  let field {A} (k : string) (f : A -> Value) (o : option A) := match o with Some x => [(k, f x)] | None => [] end in
  Harness.jobject
    ([("parentIncarnation", vstr (p_parent_incarnation n))] ++ field "turnId" vstr (p_turn_id n)
     ++ [("parentId", vstr (p_parent_id n)); ("childId", vstr (p_child_id n)); ("cellId", vstr (p_cell_id n))]
     ++ field "execution" (fun v => v) (p_execution n) ++ field "substrate" (fun v => v) (p_substrate n)).

(** What the response of a parent to its turn says: phase, reason, output, confirmation. *)
Definition turn_result (r : Received) (turn : string) (initial : bool) : string * option string * option string * bool :=
  match r_response r with
  | Some (Ok b) =>
      match from_slice b with
      | Some value =>
          if says value.["kind"] "completed" && says value.["turnId"] turn then
            let succeeded := default false (as_bool value.["succeeded"]) in
            ((if succeeded then if initial then "Running" else "Succeeded" else if initial then "Failed" else "Cancelled")%string,
             (if succeeded then None else Some "native child did not commit a successful result"%string),
             as_str value.["answer"], negb initial)
          else ("Uncertain"%string, Some "invalid retained parent result"%string, None, false)
      | None => ("Uncertain"%string, Some "invalid retained parent result"%string, None, false)
      end
  | Some (Err reason) =>
      let proven := is_Some_bool (r_provenance r) in
      ((if proven then "Failed" else "Uncertain")%string, Some reason, None, proven && negb initial)
  | None => ("Uncertain"%string, Some "retained parent owner result lost"%string, None, false)
  end.
Definition turn_status (p : PreparedRecord) (incarnation turn : string) (initial : bool) (r : Received) : ScopedStatus :=
  let '(phase, reason, output, confirmed) := turn_result r turn initial in
  let native := r_provenance r in
  let digest := (fun n => hash_of (to_vec (Harness.jobject [("apiVersion", vstr "celln.scoped-native-receipt/v1"); ("operationId", vstr (id p));
      ("owner", vstr j_owner); ("phase", vstr phase); ("native", provenance_value n)]))) <$> native in
  mkStatus (id p) j_owner phase reason output digest confirmed (Some incarnation) (turn_of (decision p))
    (Some (match native with Some n => p_parent_id n | None => incarnation end))
    (Some (match native with Some n => p_child_id n | None => child_of incarnation turn end))
    (p_cell_id <$> native) (native ≫= p_execution) (native ≫= p_substrate).

Definition finish_enduring_turn (p : PreparedRecord) (f : Admission.Fresh) (incarnation turn : string) (initial : bool) : Prog Reply :=
  r ← Receive (id p) Ret;
  let s := turn_status p incarnation turn initial r in
  stored ← persist_status s;
  match s_receipt_digest s with
  | Some digest => if (stored : bool) then _ ← finish f (Admission.Receipt digest); mret Silent else mret Silent
  | None => mret Silent
  end.

(** ** One-shot workers *)

Definition no_text (o : option string) : bool := match o with Some s => str_is_empty s | None => true end.
(** The result of a launch: phase, reason, output, execution, substrate, cell, confirmation. *)
Definition launch_result (l : Launched) : string * option string * option string * option Value * option Value * option string * bool :=
  let failed := if l_cancelled l then "Cancelled"%string else "Failed"%string in
  match l_outcome l with
  | Some (Ok o) =>
      ((if Outcome.succeeded o then "Succeeded" else failed)%string, Outcome.denial o,
       (fun b => from_utf8 (from_utf8_lossy b)) <$> Outcome.output o,
       Outcome.execution o ≫= execution_value, Outcome.substrate o ≫= substrate_value, Some (Outcome.cell_id o), true)
  | Some (Err reason) => (failed, Some reason, None, None, None, None, true)
  | None => ("Uncertain"%string, Some "execution worker panicked; native teardown is unconfirmed"%string, None, None, None, None, false)
  end.
Definition run_status (i : string) (model_backed : bool) (l : Launched) : ScopedStatus :=
  let '(phase, reason, output, execution, substrate, cell, confirmed) := launch_result l in
  let '(phase, reason, output) :=
    if String.eqb phase "Succeeded" && model_backed then
      match model_completion scalar quoted (default EmptyString output) with
      | Ok answer => (phase, reason, Some answer)
      | Err error => ("Failed"%string, Some error, None)
      end
    else (phase, reason, output) in
  let proven := is_Some_bool execution && is_Some_bool substrate in
  let '(phase, reason) :=
    if String.eqb phase "Succeeded" && (no_text cell || negb proven)
    then ("Failed"%string, Some "native execution provenance is incomplete"%string) else (phase, reason) in
  let digest :=
    match cell, execution, substrate with
    | Some c, Some e, Some s =>
        if str_is_empty c then None else
        Some (hash_of (to_vec (Harness.jobject [("apiVersion", vstr "celln.scoped-native-receipt/v1"); ("operationId", vstr i);
          ("owner", vstr j_owner); ("cellId", vstr c); ("execution", e); ("substrate", s); ("phase", vstr phase)])))
    | _, _, _ => None
    end in
  mkStatus i j_owner phase reason output digest confirmed None None None None cell execution substrate.

Definition run_scoped (f : Admission.Fresh) (i : string) (model_backed : bool) : Prog Reply :=
  _ ← lock Executions; _ ← ask i (EntryUpdate "Running"); _ ← unlock Executions;
  l ← Launching i Ret;
  let s := run_status i model_backed l in
  _ ← lock Executions; _ ← ask i (EntryUpdate (s_phase s)); _ ← unlock Executions;
  stored ← persist_status s;
  if (stored : bool) && s_cleanup_confirmed s then
    _ ← finish f (match s_receipt_digest s with Some d => Admission.Receipt d | None => Admission.Refused end); mret Silent
  else mret Silent.

(** ** Start *)

(** The milliseconds that a parent has left; a refusal, or no answer at all. *)
Definition parent_remaining (now : Z) (d : Value) : result (option string) Z :=
  deadline ← ok_or (value_i64 d.["budget"].["parentDeadlineUnix"]) None;
  let remaining := deadline - now in
  _ ← ensure (negb (remaining <=? 0)) (Some "AUTH_WORK_DEADLINE_EXPIRED"%string);
  ok_or (if remaining * 1000 <=? u64_max then Some (remaining * 1000) else None) None.
Definition budget_named (d : Value) : bool :=
  let b := d.["budget"] in
  forallb (fun v => is_Some_bool (as_u64 v))
    [b.["maxTurns"]; b.["turnCap"].["requests"]; b.["turnCap"].["outputTokens"]; b.["runCap"].["requests"]; b.["runCap"].["outputTokens"]].
(** Questions one after another, each with the refusal that it ends in. *)
Fixpoint checks (i : string) (l : list (Question * option string)) : Prog (option string) :=
  match l with
  | [] => mret None
  | (q, refusal) :: l => a ← ask i q; match a with Err reason => mret (Some (default reason refusal)) | Ok _ => checks i l end
  end.
Definition capacity_checks : list (Question * option string) := [(Check "capacity", Some "AUTH_CAPACITY"%string); (Check "admission", None)].
Definition permit_checks : list (Question * option string) :=
  [(Check "issue", Some "native parent permit issuance unavailable"%string);
   (Check "publish", Some "native parent permit publication unavailable"%string)].

(** Under the executions' lock, which is released before a refusal for capacity. *)
Definition admit_parent (principal : string) (p : PreparedRecord) (f : Admission.Fresh) (incarnation turn : string) : Prog Reply :=
  let i := id p in
  let released (m : Prog Reply) := a ← m; _ ← unlock Executions; mret a in
  _ ← lock Executions;
  r ← checks i capacity_checks;
  match r with
  | Some reason => _ ← unlock Executions; answer 503 (prepared_refusal f p reason)
  | None =>
      r ← checks i permit_checks;
      match r with
      | Some reason => released (answer 503 (prepared_refusal f p reason))
      | None =>
          owned ← ask i (Check "workspace");
          if is_err owned then released (mret Dropped) else
          claimed ← ask i ClaimFactory;
          if is_err claimed then released (answer 503 (uncertain_parent_refusal f p)) else
          expired ← ask i Expired;
          if is_err expired then released (answer 422 (prepared_refusal f p "AUTH_WORK_DEADLINE_EXPIRED")) else
          spawned ← launch KParent f;
          match spawned with
          | Err _ => released (answer 503 (uncertain_parent_refusal f p))
          | Ok _ => _ ← unlock Executions; submit_enduring_turn principal p f incarnation turn true
          end
      end
  end.
Definition start_parent (principal : string) (p : PreparedRecord) (f : Admission.Fresh) (incarnation turn : string) : Prog Reply :=
  let i := id p in
  template ← ask i (Check "template");
  if is_err template then answer 503 (prepared_refusal f p "AUTH_PROTOCOL_UNSUPPORTED") else
  now ← clock;
  match parent_remaining now (decision p) with
  | Err None => mret Dropped
  | Err (Some reason) => answer 422 (prepared_refusal f p reason)
  | Ok _ =>
      bound ← ask i (Check "binding");
      if negb (is_ok bound && budget_named (decision p)) then mret Dropped else
      room ← ask i (Check "reservation");
      match room with
      | Ok false => mret Dropped
      | Err _ => answer 503 (prepared_refusal f p "AUTH_CAPACITY")
      | Ok true =>
          expired ← ask i Expired;
          if is_err expired then answer 422 (prepared_refusal f p "AUTH_WORK_DEADLINE_EXPIRED")
          else admit_parent principal p f incarnation turn
      end
  end.

Definition start_enduring (principal : string) (p : PreparedRecord) (f : Admission.Fresh) (mediated : bool) : Prog Reply :=
  let i := id p in
  let d := decision p in
  match as_str d.["lifecycle"], incarnation_of d, local_turn_id p with
  | Some lifecycle, Some incarnation, Ok turn =>
      if negb mediated then answer 422 (prepared_refusal f p "AUTH_PROTOCOL_UNSUPPORTED") else
      worker ← ask i Worker;
      if is_err worker then mret Dropped else
      match parent_scope p, as_str (execution_of (operation p)).["source"].["runUid"] with
      | Ok scope, Some uid =>
          match Permit.run_incarnation scope uid with
          | Err _ => mret Dropped
          | Ok expected =>
              if negb (String.eqb expected incarnation) then answer 409 (prepared_refusal f p "AUTH_PARENT_TURN_MISMATCH") else
              if String.eqb lifecycle "enduring-turn" then
                context ← ask i (Context_ incarnation);
                match context with
                | Err _ => uncertain 409 p "AUTH_CONTEXT_LOST"
                | Ok false => answer 409 (prepared_refusal f p "AUTH_REQUEST_BINDING_MISMATCH")
                | Ok true => submit_enduring_turn principal p f incarnation turn false
                end
              else if negb (String.eqb lifecycle "enduring-initial") then answer 422 (prepared_refusal f p "AUTH_LIFECYCLE_INVALID")
              else start_parent principal p f incarnation turn
          end
      | _, _ => mret Dropped
      end
  | _, _, _ => mret Dropped
  end.

Definition start_one_shot (p : PreparedRecord) (f : Admission.Fresh) (broker : bool) : Prog Reply :=
  let i := id p in
  _ ← lock Executions;
  admitted ← ask i EntryAdmit;
  _ ← unlock Executions;
  match admitted with
  | Err reason => answer 503 (terminal_refusal f i reason)
  | Ok _ =>
      let s := blank_status i j_owner "Admitted" None false None None None in
      stored ← persist_status s;
      if negb (stored : bool) then
        _ ← lock Executions; _ ← ask i EntryRemove; _ ← unlock Executions;
        answer 503 (terminal_refusal f i "durable result journal unavailable")
      else
        working ← spawn (OneShot f i broker);
        if (working : bool) then mret (Answer 202 (BStatus s)) else
        let s := terminal_status i j_owner "Failed" (Some "execution worker unavailable") None in
        _ ← persist_status s;
        _ ← lock Executions; _ ← ask i (EntryUpdate "Failed"); _ ← unlock Executions;
        _ ← finish f Admission.Refused;
        mret (Answer 503 (BStatus s))
  end.

(** With a fresh claim. *)
Definition start_fresh (c : Credentials.Receiver) (p : PreparedRecord) (f : Admission.Fresh) : Prog Reply :=
  let i := id p in
  now ← clock;
  control ← (match operation_timeout now p with Ok _ => ask i NewControl | Err e => mret (Err e) end);
  if is_err control then answer 422 (terminal_refusal f i "invalid operation deadline") else
  built ← ask i Build;
  match built with
  | Err reason => answer 422 (prepared_refusal f p reason)
  | Ok broker =>
      if negb (says (decision p).["lifecycle"] "one-shot") then
        mediated ← ask i Mediated;
        start_enduring (principal_of c) p f ((broker : bool) && is_ok mediated)
      else start_one_shot p f broker
  end.

Definition with_route (c : Credentials.Receiver) : Credentials.Receiver :=
  Credentials.mkReceiver (Credentials.now c) "sympozium-model-gateway" "model.invoke" (Credentials.cluster_id c) (Credentials.namespace c)
    (Credentials.namespace_uid c) (Credentials.run_uid c) (Credentials.run_spec_sha256 c) (Credentials.parent c) (Credentials.request_digest c)
    (Credentials.route c) (Credentials.budget_id c) (Credentials.seen_admission_jti c).

(** Both permits, against the enrolled decision. *)
Definition permits_ok (v : Credentials.Verifier) (d : Value) (canonical : bytes) (c : Credentials.Receiver) (permit : string) (model : option string) :
    result Reply unit :=
  let check (token : string) (c : Credentials.Receiver) :=
    match Credentials.verify scalar quoted v token canonical c with Ok _ => Ok tt | Err reason => Err (refused 401 reason) end in
  _ ← check permit c;
  if negb (says d.["route"].["provider"] "none") then
    match model with None => Err (refused 401 "AUTH_CRED_MALFORMED") | Some token => check token (with_route c) end
  else match model with Some _ => Err (refused 401 "AUTH_ROUTE_MISMATCH") | None => Ok tt end.

Definition start (v : Credentials.Verifier) (i own : string) (permit model : option string) : Prog Reply :=
  locked Operation (
    p ← load_prepared i;
    match p with
    | None => mret (plain 404 "unknown prepared operation")
    | Some p =>
        match permit with
        | None => mret (plain 401 "execution permit required")
        | Some permit =>
            let d := decision p in
            match external_request scalar quoted (operation p) d, as_str d.["operation"] with
            | Ok external, Some launch_operation =>
                if negb (String.eqb launch_operation "execution.start" || String.eqb launch_operation "execution.turn")
                then mret (plain 422 "invalid scoped launch operation") else
                now ← clock;
                match receiver_context now (operation p) d launch_operation, Contract.canonical scalar quoted (to_vec d) with
                | Ok c, Ok canonical =>
                    match permits_ok v d canonical c permit model with
                    | Err reply => mret reply
                    | Ok _ =>
                        if negb (String.eqb own (owner p)) || negb (String.eqb own j_owner) then mret (refused 409 "AUTH_CONTEXT_LOST") else
                        existing ← load_status i;
                        if negb (String.eqb (owner p) j_owner) then
                          mret (match found existing with
                                | Some s => if s_cleanup_confirmed s then Answer 200 (BStatus s) else
                                    Answer 409 (BStatus (blank_status i (owner p) "Uncertain" (Some "AUTH_CONTEXT_LOST") false (incarnation_of d) (turn_of d) None))
                                | None => Answer 409 (BStatus (blank_status i (owner p) "Uncertain" (Some "AUTH_CONTEXT_LOST") false (incarnation_of d) (turn_of d) None))
                                end)
                        else
                        match found existing with
                        | Some s => mret (status_reply s)
                        | None =>
                            claimed ← Claim i v permit canonical external c Ret;
                            match claimed with
                            | Err e => mret (admission_reply e)
                            | Ok (Admission.Recovery row) =>
                                s ← load_status i;
                                mret (status_reply (default (blank_status i (Admission.owner row) "Uncertain"
                                  (Some "original owner status is unavailable; replay refused") false (incarnation_of d) (turn_of d) None) (found s)))
                            | Ok (Admission.IsFresh f) => start_fresh c p f
                            end
                        end
                    end
                | _, _ => mret Dropped
                end
            | _, _ => mret Dropped
            end
        end
    end).

(** ** Reading and cleanup *)

(** A step of a handler that may answer, and what follows if it does not. *)
Definition unless (m : Prog (option Reply)) (k : Prog Reply) : Prog Reply := r ← m; match r with Some a => mret a | None => k end.
(** The stored status, if there is one, changed. *)
Definition update_status (i : string) (f : ScopedStatus -> option ScopedStatus) : Prog unit :=
  s ← load_status i;
  match found s with
  | Some s => match f s with Some s => _ ← persist_status s; mret tt | None => mret tt end
  | None => mret tt
  end.
Definition unless_confirmed (phase : string) (reason : option string -> option string) (s : ScopedStatus) : option ScopedStatus :=
  if s_cleanup_confirmed s then None else Some (set_phase phase (reason (s_reason s)) false s).

Definition never_started (p : PreparedRecord) (cleanup : bool) (row : Admission.Row) : Prog (option Reply) :=
  if cleanup && was_never_started row then
    let s := never_started_status p in
    stored ← persist_status s;
    mret (Some (if (stored : bool) then Answer 200 (BStatus s) else plain 503 "scoped result journal unavailable"))
  else mret None.

Definition already_confirmed (i : string) (cleanup : bool) (row : Admission.Row) : Prog (option Reply) :=
  if cleanup then
    s ← load_status i;
    mret (match found s with
          | Some s => if String.eqb (s_id s) i && String.eqb (s_owner s) (Admission.owner row) && s_cleanup_confirmed s
                      then Some (Answer 200 (BStatus s)) else None
          | None => None
          end)
  else mret None.

Definition fence_parent (i : string) (d : Value) (principal : string) (cleanup : bool) (row : Admission.Row) : Prog (option Reply) :=
  if cleanup && says d.["lifecycle"] "enduring-initial" && was_refused row && Admission.fenced row then
    let parent := default EmptyString (incarnation_of d) in
    fenced ← ask i (Fence parent principal);
    match fenced with
    | Ok true =>
        let s := blank_status i (Admission.owner row) "Refused" (Some "parent never created; incarnation permanently fenced") true (Some parent) None None in
        stored ← persist_status s;
        mret (Some (if (stored : bool) then Answer 200 (BStatus s) else plain 503 "cleanup publication unconfirmed"))
    | _ => mret None
    end
  else mret None.

Definition historical (i : string) (d : Value) (principal : string) (cleanup : bool) (row : Admission.Row) : Prog unit :=
  if String.eqb (Admission.owner row) j_owner then mret tt else
  torn ← (match negb (says d.["lifecycle"] "one-shot"), incarnation_of d with
          | true, Some parent => ask i (Teardown parent principal)
          | _, _ => mret (Ok false)
          end);
  update_status i (fun s =>
    if cleanup && match torn with Ok true => true | _ => false end
    then Some (set_phase "Cancelled" (Some "original native owner process teardown confirmed") true s)
    else unless_confirmed "Uncertain" (fun _ => Some "original receiver owner context is unavailable"%string) s).

Definition cancel_operation (i : string) (d : Value) (principal : string) (cleanup : bool) (row : Admission.Row) : Prog unit :=
  if negb (cleanup && String.eqb (Admission.owner row) j_owner) then mret tt else
  let parent := default EmptyString (incarnation_of d) in
  if says d.["lifecycle"] "enduring-initial" then
    _ ← ask i (CancelTurns parent);
    stopped ← ask i (Stop principal parent);
    update_status i (fun s => Some (set_phase (if is_ok stopped then "Cancelled" else "Uncertain")
      (Some (if is_ok stopped then "retained parent and descendants stopped" else "retained parent teardown unconfirmed"))%string (is_ok stopped) s))
  else if says d.["lifecycle"] "enduring-turn" then
    let turn := default EmptyString (turn_of d) in
    pending ← ask i (CancelTurn parent turn);
    _ ← (match pending with Ok false => ask i (CancelChild principal parent turn) | _ => mret (Ok true) end);
    update_status i (unless_confirmed "Cancelling" (fun _ => Some "exact child cancellation requested; teardown pending"%string))
  else
    locked Executions (
      active ← ask i EntryCancel;
      match active with
      | Ok true => update_status i (fun s => Some (set_phase "Cancelling" (Some "cancellation requested; teardown pending"%string) false s))
      | _ => mret tt
      end).

Definition observe_parent (i : string) (d : Value) (principal : string) : Prog unit :=
  if says d.["lifecycle"] "enduring-initial" then
    a ← ask i (ParentStatus principal (default EmptyString (incarnation_of d)));
    match a with
    | Ok true => update_status i (unless_confirmed "Uncertain" (fun r => Some (default "original retained parent owner is unavailable"%string r)))
    | Ok false => update_status i (unless_confirmed "Cancelling" (fun _ => Some "retained parent teardown pending"%string))
    | Err _ => mret tt
    end
  else mret tt.

Definition report_status (i : string) (d : Value) (cleanup : bool) (row : Admission.Row) : Prog Reply :=
  s ← load_status i;
  mret (match s with
        | Ok (Some s) => status_reply s
        | Ok None => Answer 202 (BStatus (blank_status i (Admission.owner row) (if cleanup then "Cancelling" else "Admitted")
                       (Some "original owner status unavailable; replay refused"%string) false (incarnation_of d) (turn_of d) None))
        | Err _ => plain 503 "scoped result journal unavailable"
        end).

(** After the access is admitted. *)
Definition accessed (p : PreparedRecord) (i principal : string) (cleanup : bool) (row : Admission.Row) : Prog Reply :=
  let d := decision p in
  unless (never_started p cleanup row) (
  unless (already_confirmed i cleanup row) (
  unless (fence_parent i d principal cleanup row) (
    _ ← historical i d principal cleanup row;
    _ ← cancel_operation i d principal cleanup row;
    _ ← observe_parent i d principal;
    report_status i d cleanup row))).

Definition access_locked (v : Credentials.Verifier) (i : string) (d : Value) (permit : option string) (cleanup : bool) : Prog Reply :=
  p ← load_prepared i;
  match p with
  | None => mret (plain 404 "unknown prepared operation")
  | Some p =>
      match permit with
      | None => mret (plain 401 "execution permit required")
      | Some permit =>
          let op := (if cleanup then "execution.cleanup" else "execution.read")%string in
          match validate_access_decision (decision p) d op with
          | None => mret Dropped
          | Some (Err _) => mret (plain 409 "access decision changed original authority")
          | Some (Ok _) =>
              now ← clock;
              match receiver_context now (operation p) d op with
              | Err _ => mret (plain 422 "invalid scoped identity")
              | Ok c =>
                  match Contract.canonical scalar quoted (to_vec d) with
                  | Err _ => mret (plain 400 "invalid access decision")
                  | Ok canonical =>
                      match Contract.canonical scalar quoted (to_vec (decision p)), external_request scalar quoted (operation p) (decision p) with
                      | Ok enrolled, Ok request =>
                          a ← Access i v permit canonical c (Admission.mkEnrollment enrolled request (owner p)) Ret;
                          match a with
                          | Err e =>
                              if context_lost e then
                                s ← load_status i;
                                mret (match found s with
                                      | Some s => if s_cleanup_confirmed s then Answer 200 (BStatus s) else admission_reply e
                                      | None => admission_reply e
                                      end)
                              else mret (admission_reply e)
                          | Ok row => accessed p i (principal_of c) cleanup row
                          end
                      | _, _ => mret (plain 503 "invalid durable enrollment")
                      end
                  end
              end
          end
      end
  end.
Definition access (v : Credentials.Verifier) (i : string) (d : Value) (permit : option string) (cleanup : bool) : Prog Reply :=
  if cleanup then locked Operation (access_locked v i d permit cleanup) else access_locked v i d permit cleanup.

(** ** Requests and workers *)

Inductive Request : Type :=
| RPrepare (operation d : Value)
| RStart (v : Credentials.Verifier) (i own : string) (permit model : option string)
| RAccess (v : Credentials.Verifier) (i : string) (d : Value) (permit : option string) (cleanup : bool).
Definition handle (r : Request) : Prog Reply :=
  match r with
  | RPrepare o d => prepare o d
  | RStart v i own permit model => start v i own permit model
  | RAccess v i d permit cleanup => access v i d permit cleanup
  end.
Definition work (w : Worker_) : Prog Reply :=
  match w with
  | OneShot f i model_backed => run_scoped f i model_backed
  | Retained f p incarnation turn initial => finish_enduring_turn p f incarnation turn initial
  end.
End handlers.
