(* ===== verification/ScopedRuns.v ===== *)
(** * Runs of scoped operations

    The processes of a receiver, one after another: requests arrive, and the handlers and
    workers of the process take their atomic actions in any order. A [Choice] says how the
    environment answers an action: whether a call on a file fails and what a failed one
    leaves behind, which calls of the admission journal fail, what the dispatcher says. *)

From S2P Require Import Prelude Text Json Manifest Scoped ScopedOps.
From S2P Require Contract Credentials Admission Outcome.

(** What happened, for the record. *)
Inductive Event : Type :=
| Asked (i : string) (q : Question) (a : result string bool)
| Claimed (i : string) (row : Admission.Row)
| Accessed (i : string) (row : Admission.Row)
| Ended (i : string) (l : Launched)
| Returned (i : string) (r : Received)
| Unstored (s : ScopedStatus).      (* the call that stores it failed *)

Record Choice : Type := mkChoice {
  c_ok : bool;                      (* a call succeeds *)
  c_done : bool;                    (* a failed call had its effect *)
  c_cut : nat;                      (* the bytes that a failed write left *)
  c_faults : list bool;             (* the failures of the admission journal *)
  c_answer : result string bool;
  c_time : Z;
  c_launched : Launched;
  c_received : Received;
}.

Record World : Type := mkWorld {
  w_disk : Admission.Disk;
  w_handles : list Admission.Row;   (* the fresh claims that were given out *)
  w_prepared : gmap string bytes;
  w_status : gmap string ScopedStatus;
  w_held : list Mutex;
  w_trace : list Event;
  w_launched : list (Kind * Admission.Row);
}.
Definition set_disk (d : Admission.Disk) (w : World) : World :=
  mkWorld d (w_handles w) (w_prepared w) (w_status w) (w_held w) (w_trace w) (w_launched w).
Definition give_handle (h : option Admission.Row) (w : World) : World :=
  mkWorld (w_disk w) (match h with Some r => r :: w_handles w | None => w_handles w end) (w_prepared w) (w_status w) (w_held w) (w_trace w) (w_launched w).
Definition set_prepared (m : gmap string bytes) (w : World) : World :=
  mkWorld (w_disk w) (w_handles w) m (w_status w) (w_held w) (w_trace w) (w_launched w).
Definition set_status (m : gmap string ScopedStatus) (w : World) : World :=
  mkWorld (w_disk w) (w_handles w) (w_prepared w) m (w_held w) (w_trace w) (w_launched w).
Definition set_held (l : list Mutex) (w : World) : World :=
  mkWorld (w_disk w) (w_handles w) (w_prepared w) (w_status w) l (w_trace w) (w_launched w).
Definition note (e : Event) (w : World) : World :=
  mkWorld (w_disk w) (w_handles w) (w_prepared w) (w_status w) (w_held w) (e :: w_trace w) (w_launched w).
Definition set_launched (x : Kind * Admission.Row) (w : World) : World :=
  mkWorld (w_disk w) (w_handles w) (w_prepared w) (w_status w) (w_held w) (w_trace w) (x :: w_launched w).

Section runs.
Context (scalar : Value -> option bytes) (quoted : string -> option bytes).
Context `{Blake3} `{JsonText} `{Contract.Sha256} `{Json Value} `{Closure.Ed25519} `{Credentials.Formats}.
Context `{Json PreparedRecord} `{Json (string * string)} `{Json (string * string * string)} `{Json ScopedStatus} `{Json Admission.Row}.
Context (data_of : Value -> option ScopedPolicy.Artifacts.Limits) (web_of : Value -> option ScopedPolicy.Https.Limits).
Context (execution_value : Outcome.ExecutionGrant -> option Value) (substrate_value : Outcome.SubstrateIdentity -> option Value).

(** [persist_status] writes a temporary file and renames it over the status; the last sync
    may fail when the new status is already there. *)
Definition can_store (s : ScopedStatus) : bool := negb (is_err (id_hex (s_id s))) && (blen (to_vec s) <=? MAX_STATUS).
Definition read_status (w : World) (i : string) : result unit (option ScopedStatus) :=
  if is_err (id_hex i) then Err tt else
  match w_status w !! i with
  | Some s => if status_ok i s then Ok (Some s) else Err tt
  | None => Ok None
  end.
Definition read_prepared (w : World) (i : string) : result unit (option bytes) :=
  if is_err (id_hex i) then Err tt else
  match w_prepared w !! i with
  | Some b => if blen b <=? MAX_PREPARED then Ok (Some b) else Err tt
  | None => Ok None
  end.
Definition with_faults (c : Choice) (d : Admission.Disk) : Admission.Disk := Admission.mkDisk (Admission.files d) (Admission.dir_private d) (c_faults c).
Definition fresh_row (x : result Admission.Error Admission.Claim) : option Admission.Row :=
  match x with Ok (Admission.IsFresh f) => Some (Admission.record f) | _ => None end.

(** One action of a program of the process with journal [j]. *)
Definition action (j : Admission.Journal) (c : Choice) (w : World) (p : Prog Reply) : option (World * Prog Reply * option Worker_) :=
  match p with
  | Ret _ => None
  | Lock m k => if bool_decide (m ∈ w_held w) then None else Some (set_held (m :: w_held w) w, k, None)
  | Unlock m k => Some (set_held (filter (fun x => x <> m) (w_held w)) w, k, None)
  | Now k => Some (w, k (c_time c), None)
  | ReadPrepared i k => Some (w, k (if c_ok c then read_prepared w i else Err tt), None)
  | WriteNew i b k =>
      if is_Some_bool (w_prepared w !! i) || is_err (id_hex i) then Some (w, k false, None)
      else if c_ok c then Some (set_prepared (<[i := b]> (w_prepared w)) w, k true, None)
      else if c_done c then Some (set_prepared (<[i := take (c_cut c) b]> (w_prepared w)) w, k false, None)
      else Some (w, k false, None)
  | Load i k => Some (w, k (if c_ok c then read_status w i else Err tt), None)
  | Persist s k =>
      let stored := can_store s && c_ok c in
      let w := if can_store s && (c_ok c || c_done c) then set_status (<[s_id s := s]> (w_status w)) w else w in
      Some (if stored then w else note (Unstored s) w, k stored, None)
  | Claim i v token d request r k =>
      let '(x, disk) := Admission.claim scalar quoted j v token d request r (with_faults c (w_disk w)) in
      let w := give_handle (fresh_row x) (set_disk disk w) in
      Some (match fresh_row x with Some row => note (Claimed i row) w | None => w end, k x, None)
  | Access i v token d r e k =>
      let '(x, disk) := Admission.access scalar quoted v token d r e (with_faults c (w_disk w)) in
      let w := set_disk disk w in
      Some (match x with Ok row => note (Accessed i row) w | Err _ => w end, k x, None)
  | Finish f o k => Some (set_disk (Admission.finish j f o (with_faults c (w_disk w))).2 w, k, None)
  | Ask i q k => Some (note (Asked i q (c_answer c)) w, k (c_answer c), None)
  | Launch kind f k =>
      match c_answer c with
      | Ok _ => Some (set_launched (kind, Admission.record f) w, k (Ok tt), None)
      | Err reason => Some (w, k (Err reason), None)
      end
  | Spawn x k =>
      if c_ok c then
        Some (match x with OneShot f _ _ => set_launched (KRun, Admission.record f) w | Retained _ _ _ _ _ => w end, k true, Some x)
      else Some (w, k false, None)
  | Launching i k => Some (note (Ended i (c_launched c)) w, k (c_launched c), None)
  | Receive i k => Some (note (Returned i (c_received c)) w, k (c_received c), None)
  end.

(** The receiver: the world, the journal of the process, and its handlers and workers. *)
Record State : Type := mkState { world : World; journal : Admission.Journal; pool : list (Prog Reply) }.

Inductive Event_ : Type :=
| Arrive (r : Request)
| Act (n : nat) (c : Choice)
| Restart (j : Admission.Journal).

Definition handle_of (j : Admission.Journal) : Request -> Prog Reply := handle scalar quoted data_of web_of j.
Definition work_of (j : Admission.Journal) : Worker_ -> Prog Reply := work scalar quoted execution_value substrate_value j.
Definition step (s : State) (e : Event_) : State :=
  match e with
  | Arrive r => mkState (world s) (journal s) (pool s ++ [handle_of (journal s) r])
  | Act n c =>
      match pool s !! n with
      | Some p =>
          match action (journal s) c (world s) p with
          | Some (w, p, x) => mkState w (journal s) (<[n := p]> (pool s) ++ match x with Some x => [work_of (journal s) x] | None => [] end)
          | None => s
          end
      | None => s
      end
  | Restart j => mkState (set_held [] (world s)) j []
  end.
Definition run (s : State) (l : list Event_) : State := foldl step s l.
Definition start (j : Admission.Journal) (d : Admission.Disk) : State := mkState (mkWorld d [] ∅ ∅ [] [] []) j [].
End runs.
