(* ===== verification/ScopedRunsLaws.v ===== *)
(** * What the statuses of scoped operations can be relied on for

    A program logic for the handlers: what they know - the facts - and what they may still
    launch - their rights. Whatever interleaving, fault and answer, a confirmed cleanup has
    evidence, and a fresh claim launches at most once. *)

From S2P Require Import Prelude Text Json Manifest Scoped ScopedOps ScopedRuns.
From S2P Require Contract Credentials Admission AdmissionLaws Outcome.

Local Open Scope json_scope.

(** ** Facts *)

Definition Right : Type := Kind * Admission.Row.
Definition rights (r : Admission.Row) : list Right := [(KParent, r); (KRun, r)].
Definition granted (x : result Admission.Error Admission.Claim) : list Right := match fresh_row x with Some r => rights r | None => [] end.

(** An event, that a fresh claim will never be launched in one of its two ways for the
    operation, or that a record is kept for it. *)
Inductive Fact : Type := Ev (e : Event) | Dead (i : string) (x : Right) | Kept (i : string) (b : bytes).

(** ** The weakest precondition of a program: facts only grow *)

Section logic.
Context {scalar : Value -> option bytes} {quoted : string -> option bytes}.
Context `{I1 : Blake3} `{I2 : JsonText} `{I3 : Contract.Sha256} `{I4 : Json Value} `{I5 : Closure.Ed25519} `{I6 : Credentials.Formats}.
Context `{I7 : Json PreparedRecord} `{I8 : Json (string * string)} `{I9 : Json (string * string * string)} `{I10 : Json ScopedStatus} `{I11 : Json Admission.Row}.
Context {data_of : Value -> option ScopedPolicy.Artifacts.Limits} {web_of : Value -> option ScopedPolicy.Https.Limits}.
Context {execution_value : Outcome.ExecutionGrant -> option Value} {substrate_value : Outcome.SubstrateIdentity -> option Value}.

(** The record that is kept for an operation, the parent that it names and the principal
    of that parent, by the receiver's context of the record. *)
Definition kept (T : list Fact) (p : PreparedRecord) : Prop :=
  exists b, Kept (id p) b ∈ T /\ decode_prepared scalar quoted data_of web_of (id p) b = Some p.
Definition principal_for (p : PreparedRecord) (principal : string) : Prop :=
  exists t d op c, receiver_context t (operation p) d op = Ok c /\ principal = principal_of c.
Definition its_parent (p : PreparedRecord) (parent principal : string) : Prop :=
  default EmptyString (incarnation_of (decision p)) = parent /\ principal_for p principal.
(** The first status of a run's turn, once its parent is there. *)
Definition first_status (i : string) (s : ScopedStatus) : Prop :=
  s_id s = i /\ s_phase s = "Admitted"%string /\ is_Some (s_parent_incarnation s).

(** What a confirmation may rest on: one event, or a claim that is not used - of which the
    parent alone may have been launched when the first status could not be stored. *)
Definition witnesses (T : list Fact) (i : string) (e : Event) : Prop :=
  match e with
  | Accessed i' row => i' = i /\ Admission.outcome row = Some Admission.NeverStarted
  | Asked i' (Fence parent principal) (Ok true) | Asked i' (Teardown parent principal) (Ok true) | Asked i' (Stop principal parent) (Ok _) =>
      i' = i /\ exists p, id p = i /\ kept T p /\ its_parent p parent principal
  | Ended i' l => i' = i /\ l_outcome l <> None
  | Returned i' r => i' = i /\ exists p turn, id p = i /\ kept T p /\ local_turn_id p = Ok turn /\ (turn_result r turn false).2 = true
  | _ => False
  end.
Definition unused (T : list Fact) (i : string) : Prop := exists r, Dead i (KRun, r) ∈ T /\
  (Dead i (KParent, r) ∈ T \/ exists s, Ev (Unstored s) ∈ T /\ first_status i s).
Definition confirmed_by (T : list Fact) (i : string) : Prop := (exists e, Ev e ∈ T /\ witnesses T i e) \/ unused T i.
Definition backed (T : list Fact) (s : ScopedStatus) : Prop := s_cleanup_confirmed s = true -> confirmed_by T (s_id s).

Lemma kept_mono T T' p : T ⊆ T' -> kept T p -> kept T' p.
Proof. intros HT (b & Hb & ?). exists b. split; [by apply HT|done]. Qed.
Lemma witnesses_mono T T' i e : T ⊆ T' -> witnesses T i e -> witnesses T' i e.
Proof.
  intros HT He. destruct e as [i' q a|i' r|i' r|i' l|i' r|s]; cbn in *; try done.
  - destruct q; try done; destruct a as [[]|]; try done; destruct He as (? & p & ? & ? & ?); split; try done; exists p; split_and!; try done; by eapply kept_mono.
  - destruct He as (? & p & t & ? & ? & ? & ?). split; [done|]. exists p, t. split_and!; try done; by eapply kept_mono.
Qed.
Lemma backed_mono T T' s : T ⊆ T' -> backed T s -> backed T' s.
Proof.
  intros HT Hb Hc. destruct (Hb Hc) as [(e & He & Hw)|(r & Hr & Hp)]; [left|right].
  - exists e. split; [by apply HT|by eapply witnesses_mono].
  - exists r. split; [by apply HT|]. destruct Hp as [?|(s' & ? & ?)]; [left; by apply HT|right; exists s'; split; [by apply HT|done]].
Qed.
Lemma backed_open T s : s_cleanup_confirmed s = false -> backed T s.
Proof. intros E Hc. congruence. Qed.
Lemma backed_by T e s : Ev e ∈ T -> witnesses T (s_id s) e -> backed T s.
Proof. intros ?? _. left. by exists e. Qed.

(** What a worker is started with. *)
Definition worker_ok (T : list Fact) (x : Worker_) : Prop :=
  match x with OneShot _ _ _ => True | Retained _ p _ turn _ => kept T p /\ local_turn_id p = Ok turn end.
Lemma worker_ok_mono T T' x : T ⊆ T' -> worker_ok T x -> worker_ok T' x.
Proof. destruct x; [done|]. intros HT [? ?]. split; [by eapply kept_mono|done]. Qed.

(** What a claim for an operation is about, by its kept record: decision and request. *)
Definition about (i : string) (b d q : bytes) : Prop :=
  exists p, decode_prepared scalar quoted data_of web_of i b = Some p /\
    Contract.canonical scalar quoted (to_vec (decision p)) = Ok d /\ external_request scalar quoted (operation p) (decision p) = Ok q.

Section wp.
Context {A : Type} (Q : list Fact -> list Right -> A -> Prop).

Fixpoint wp (T : list Fact) (R : list Right) (p : Prog A) : Prop :=
  match p with
  | Ret a => Q T R a
  | Lock _ k | Unlock _ k => forall T', T ⊆ T' -> wp T' R k
  | Now k => forall T' t, T ⊆ T' -> wp T' R (k t)
  | ReadPrepared i k => forall T' r, T ⊆ T' -> (forall b, r = Ok (Some b) -> Kept i b ∈ T') -> wp T' R (k r)
  | WriteNew i b k => forall T' (ok : bool), T ⊆ T' -> (ok = true -> Kept i b ∈ T') -> wp T' R (k ok)
  | Load i k => forall T' r, T ⊆ T' -> (forall s, r = Ok (Some s) -> s_id s = i /\ backed T' s) -> wp T' R (k r)
  | Persist s k =>
      exists G R', R ≡ₚ G ++ R' /\ (forall x, x ∈ G -> Ev (Claimed (s_id s) x.2) ∈ T) /\ backed ((Dead (s_id s) <$> G) ++ T) s /\
        forall T' (b : bool), (Dead (s_id s) <$> G) ++ T ⊆ T' -> (b = false -> Ev (Unstored s) ∈ T') -> wp T' R' (k b)
  | Claim i _ _ d q _ k => (exists b, Kept i b ∈ T /\ about i b d q) /\ forall T' x, T ⊆ T' -> (forall r, fresh_row x = Some r -> Ev (Claimed i r) ∈ T') -> wp T' (granted x ++ R) (k x)
  | Access i _ _ _ _ e k => (exists b, Kept i b ∈ T /\ about i b (Admission.e_decision e) (Admission.e_request e)) /\ forall T' x, T ⊆ T' -> (forall r, x = Ok r -> Ev (Accessed i r) ∈ T') -> wp T' R (k x)
  | Finish _ _ k => forall T', T ⊆ T' -> wp T' R k
  | Ask i q k => forall T' a, T ⊆ T' -> Ev (Asked i q a) ∈ T' -> wp T' R (k a)
  | Launch kind f k => exists R', R ≡ₚ (kind, Admission.record f) :: R' /\ forall T' x, T ⊆ T' -> wp T' (if is_ok x then R' else R) (k x)
  | Spawn (OneShot f _ _) k => exists R', R ≡ₚ (KRun, Admission.record f) :: R' /\ forall T' (b : bool), T ⊆ T' -> wp T' (if b then R' else R) (k b)
  | Spawn x k => worker_ok T x /\ forall T' b, T ⊆ T' -> wp T' R (k b)
  | Launching i k => forall T' l, T ⊆ T' -> Ev (Ended i l) ∈ T' -> wp T' R (k l)
  | Receive i k => forall T' r, T ⊆ T' -> Ev (Returned i r) ∈ T' -> wp T' R (k r)
  end.

Lemma prog_facts p : (forall T T' R a, T ⊆ T' -> Q T R a -> Q T' R a) -> forall T T' R, T ⊆ T' -> wp T R p -> wp T' R p.
Proof.
  intros HQ. induction p as [a|m k IH|m k IH|k IH|i k IH|i b k IH|i k IH|s k IH|i v t d q c k IH|i v t d c e k IH|f o k IH|i q k IH|kd f k IH|x k IH|i k IH|i k IH];
    intros T T' R HT Hp; cbn in Hp |- *; try (intros; eapply Hp; first [eassumption | etrans; eassumption]).
  - by eapply HQ.
  - destruct Hp as (G & R' & HR & Hc & Hb & Hk). exists G, R'. split; [done|]. assert (HG : (Dead (s_id s) <$> G) ++ T ⊆ (Dead (s_id s) <$> G) ++ T') by set_solver.
    split; [intros x Hx; by apply HT, Hc|]. split; [by eapply backed_mono|]. intros T2 b H2. apply Hk. by etrans.
  - destruct Hp as [(b & Hb & Ha) Hk]. split; [exists b; split; [by apply HT|done]|]. intros. eapply Hk; first [eassumption | etrans; eassumption].
  - destruct Hp as [(b & Hb & Ha) Hk]. split; [exists b; split; [by apply HT|done]|]. intros. eapply Hk; first [eassumption | etrans; eassumption].
  - destruct Hp as (R' & HR & Hk). exists R'. split; [done|]. intros T2 x H2. apply Hk. by etrans.
  - destruct x.
    + destruct Hp as (R' & HR & Hk). exists R'. split; [done|]. intros T2 b H2. apply Hk. by etrans.
    + destruct Hp as [Hx Hk]. split; [by eapply worker_ok_mono|]. intros T2 b H2. apply Hk. by etrans.
Qed.
End wp.

Lemma prog_bind {A B} (f : A -> Prog B) (p : Prog A) (Q : list Fact -> list Right -> B -> Prop) : forall T R,
  wp (fun T R a => wp Q T R (f a)) T R p -> wp Q T R (p ≫= f).
Proof.
  induction p as [a|m k IH|m k IH|k IH|i k IH|i b k IH|i k IH|s k IH|i v t d q c k IH|i v t d c e k IH|fr o k IH|i q k IH|kd fr k IH|x k IH|i k IH|i k IH];
    intros T R Hp; cbn in Hp |- *; try (intros; apply IH; by apply Hp); [done|..].
  - destruct Hp as (G & R' & HR & Hc & Hb & Hk). exists G, R'. split; [done|]. split; [done|]. split; [done|]. intros. apply IH. by apply Hk.
  - destruct Hp as [Hb Hk]. split; [done|]. intros. apply IH. by apply Hk.
  - destruct Hp as [Hb Hk]. split; [done|]. intros. apply IH. by apply Hk.
  - destruct Hp as (R' & HR & Hk). exists R'. split; [done|]. intros. apply IH. by apply Hk.
  - destruct x; [destruct Hp as (R' & HR & Hk); exists R'|destruct Hp as [Hx Hk]]; (split; [done|]); intros; apply IH; by apply Hk.
Qed.

Lemma prog_mono {A} (p : Prog A) (Q Q' : list Fact -> list Right -> A -> Prop) : (forall T R a, Q T R a -> Q' T R a) -> forall T R, wp Q T R p -> wp Q' T R p.
Proof.
  intros HQ. induction p as [a|m k IH|m k IH|k IH|i k IH|i b k IH|i k IH|s k IH|i v t d q c k IH|i v t d c e k IH|fr o k IH|i q k IH|kd fr k IH|x k IH|i k IH|i k IH];
    intros T R Hp; cbn in Hp |- *; try (intros; apply IH; by apply Hp); [by apply HQ|..].
  - destruct Hp as (G & R' & HR & Hc & Hb & Hk). exists G, R'. split; [done|]. split; [done|]. split; [done|]. intros. apply IH. by apply Hk.
  - destruct Hp as [Hb Hk]. split; [done|]. intros. apply IH. by apply Hk.
  - destruct Hp as [Hb Hk]. split; [done|]. intros. apply IH. by apply Hk.
  - destruct Hp as (R' & HR & Hk). exists R'. split; [done|]. intros. apply IH. by apply Hk.
  - destruct x; [destruct Hp as (R' & HR & Hk); exists R'|destruct Hp as [Hx Hk]]; (split; [done|]); intros; apply IH; by apply Hk.
Qed.

(** ** Handlers *)

(** An answer that a cleanup is confirmed is backed by the facts; an enrolment is kept. *)
Definition good (T : list Fact) (R : list Right) (a : Reply) : Prop :=
  match a with
  | Answer code (BStatus s) => code = 200 -> s_cleanup_confirmed s = true /\ backed T s
  | Answer _ (BPrepared i o) => exists b r, Kept i b ∈ T /\ from_slice b = Some r /\ id r = i /\ owner r = o
  | _ => True
  end.
Definition fine (p : Prog Reply) : Prop := forall T, wp good T [] p.

Lemma good_mono T T' R a : T ⊆ T' -> good T R a -> good T' R a.
Proof.
  intros HT. destruct a as [code [s|e o|i o]| |]; try done.
  - intros Hg Hc. destruct (Hg Hc). split; [done|by eapply backed_mono].
  - intros (b & r & Hb & Hr). exists b, r. split; [by apply HT|done].
Qed.
Lemma good_other code s T R : code <> 200 -> good T R (Answer code (BStatus s)).
Proof. intros Hc E. by destruct Hc. Qed.
Lemma good_status_reply T R s : backed T s -> good T R (status_reply s).
Proof. unfold status_reply. destruct (s_cleanup_confirmed s) eqn:E; intros Hb Hc; [done|discriminate Hc]. Qed.
Lemma good_confirmed T R s : s_cleanup_confirmed s = true -> backed T s -> good T R (Answer 200 (BStatus s)).
Proof. by intros ?? _. Qed.

Section programs.
Context {A : Type} (Q : list Fact -> list Right -> A -> Prop).

Lemma prog_locked T R m p : (forall T1, T ⊆ T1 -> wp (fun T R a => forall T', T ⊆ T' -> Q T' R a) T1 R p) -> wp Q T R (locked m p).
Proof.
  intros Hp. unfold locked. apply prog_bind. cbn. intros T1 H1. apply prog_bind. eapply prog_mono; [|by apply Hp].
  intros T2 R2 a Ha. cbn. intros T3 H3. by apply Ha.
Qed.

Lemma prog_ask T R i q (k : result string bool -> Prog A) : (forall T' a, T ⊆ T' -> Ev (Asked i q a) ∈ T' -> wp Q T' R (k a)) -> wp Q T R (ask i q ≫= k).
Proof. intros Hk. apply prog_bind. exact Hk. Qed.
Lemma prog_lock T R m (k : unit -> Prog A) : (forall T', T ⊆ T' -> wp Q T' R (k tt)) -> wp Q T R (lock m ≫= k).
Proof. intros Hk. apply prog_bind. exact Hk. Qed.
Lemma prog_unlock T R m (k : unit -> Prog A) : (forall T', T ⊆ T' -> wp Q T' R (k tt)) -> wp Q T R (unlock m ≫= k).
Proof. intros Hk. apply prog_bind. exact Hk. Qed.
Lemma prog_persist T R s (k : bool -> Prog A) : backed T s -> (forall T' b, T ⊆ T' -> wp Q T' R (k b)) -> wp Q T R (persist_status s ≫= k).
Proof. intros Hs Hk. apply prog_bind. exists [], R. split; [done|]. split; [by intros x ?%not_elem_of_nil|]. split; [done|]. intros T' b HT _. by apply Hk. Qed.
Lemma prog_stored T R s (k : bool -> Prog A) : backed T s -> (forall T' (b : bool), T ⊆ T' -> (b = false -> Ev (Unstored s) ∈ T') -> wp Q T' R (k b)) ->
  wp Q T R (persist_status s ≫= k).
Proof. intros Hs Hk. apply prog_bind. exists [], R. split; [done|]. split; [by intros x ?%not_elem_of_nil|]. split; [done|]. intros T' b HT. by apply Hk. Qed.
Lemma prog_load T R i (k : result unit (option ScopedStatus) -> Prog A) :
  (forall T' r, T ⊆ T' -> (forall s, r = Ok (Some s) -> s_id s = i /\ backed T' s) -> wp Q T' R (k r)) -> wp Q T R (load_status i ≫= k).
Proof. intros Hk. apply prog_bind. exact Hk. Qed.
Lemma prog_clock T R (k : Z -> Prog A) : (forall T' t, T ⊆ T' -> wp Q T' R (k t)) -> wp Q T R (clock ≫= k).
Proof. intros Hk. apply prog_bind. exact Hk. Qed.
Lemma prog_claim T R i v t d q c (k : result Admission.Error Admission.Claim -> Prog A) : (exists b, Kept i b ∈ T /\ about i b d q) ->
  (forall T' x, T ⊆ T' -> (forall r, fresh_row x = Some r -> Ev (Claimed i r) ∈ T') -> wp Q T' (granted x ++ R) (k x)) ->
  wp Q T R (Claim i v t d q c Ret ≫= k).
Proof. intros Ha Hk. apply prog_bind. by split. Qed.
Lemma prog_access T R i v t d c e (k : result Admission.Error Admission.Row -> Prog A) :
  (exists b, Kept i b ∈ T /\ about i b (Admission.e_decision e) (Admission.e_request e)) ->
  (forall T' x, T ⊆ T' -> (forall r, x = Ok r -> Ev (Accessed i r) ∈ T') -> wp Q T' R (k x)) ->
  wp Q T R (Access i v t d c e Ret ≫= k).
Proof. intros Ha Hk. apply prog_bind. by split. Qed.
End programs.

Lemma found_Some r s : found r = Some s -> r = Ok (Some s).
Proof. destruct r as [[x|]|]; try done. by intros [= ->]. Qed.

Lemma prog_checks {A} (Q : list Fact -> list Right -> A -> Prop) i l (k : option string -> Prog A) : forall T R,
  (forall T' r, T ⊆ T' -> wp Q T' R (k r)) -> wp Q T R (checks i l ≫= k).
Proof.
  induction l as [|[q code] l IH]; intros T R Hk; [by apply Hk|]. cbn. intros T1 a H1 _. destruct a; [|by apply Hk].
  apply IH. intros T2 r H2. apply Hk. by etrans.
Qed.

(** A change of a stored status keeps its evidence, or has its own. *)
Lemma prog_update Q T R i f : (forall T' s s', T ⊆ T' -> s_id s = i -> backed T' s -> f s = Some s' -> backed T' s') ->
  (forall T', T ⊆ T' -> Q T' R tt) -> wp Q T R (update_status i f).
Proof.
  intros Hf Hk. unfold update_status. apply prog_load. intros T1 r H1 Hr. destruct (found r) as [s|] eqn:Es; [|by apply Hk].
  apply found_Some in Es. destruct (Hr s Es) as [Hi Hb]. destruct (f s) as [s'|] eqn:Ef; [|by apply Hk].
  apply prog_persist; [by eapply Hf|]. intros T2 b H2. apply Hk. by etrans.
Qed.
Lemma unless_confirmed_backed T phase reason s s' : unless_confirmed phase reason s = Some s' -> backed T s'.
Proof. unfold unless_confirmed. destruct (s_cleanup_confirmed s); [done|]. intros [= <-]. by apply backed_open. Qed.

(** A refusal by the holder of a fresh claim gives up its rights: both of them, or the one
    that is left once the parent is launched, when the first status was not stored. *)
Definition fresh_rights (T : list Fact) (R : list Right) (i : string) (f : Admission.Fresh) : Prop :=
  Ev (Claimed i (Admission.record f)) ∈ T /\ R ≡ₚ rights (Admission.record f).
Definition run_right (T : list Fact) (R : list Right) (i : string) (f : Admission.Fresh) : Prop :=
  Ev (Claimed i (Admission.record f)) ∈ T /\ R ≡ₚ [(KRun, Admission.record f)].
Definition refusable (T : list Fact) (R : list Right) (i : string) (f : Admission.Fresh) : Prop :=
  fresh_rights T R i f \/ run_right T R i f /\ exists s, Ev (Unstored s) ∈ T /\ first_status i s.
Lemma fresh_mono T T' R i f : T ⊆ T' -> fresh_rights T R i f -> fresh_rights T' R i f.
Proof. intros HT [Hc HR]. split; [by apply HT|done]. Qed.
Lemma run_mono T T' R i f : T ⊆ T' -> run_right T R i f -> run_right T' R i f.
Proof. intros HT [Hc HR]. split; [by apply HT|done]. Qed.
Lemma refusable_mono T T' R i f : T ⊆ T' -> refusable T R i f -> refusable T' R i f.
Proof.
  intros HT [Hf|[Hr (s & Hs & ?)]]; [left; by eapply fresh_mono|right]. split; [by eapply run_mono|]. exists s. split; [by apply HT|done].
Qed.

Lemma prog_give_up {A} Q T R s f (k : bool -> Prog A) : refusable T R (s_id s) f ->
  (forall T' R' b, T ⊆ T' -> backed T' s -> wp Q T' R' (k b)) -> wp Q T R (persist_status s ≫= k).
Proof.
  intros Hr Hk. apply prog_bind. destruct Hr as [[Hc HR]|[[Hc HR] (s' & Hs' & Hf)]].
  - exists (rights (Admission.record f)), []. assert (Hb : backed ((Dead (s_id s) <$> rights (Admission.record f)) ++ T) s).
    { intros _. right. exists (Admission.record f). cbn. split; [set_solver|left; set_solver]. }
    split; [done|]. split; [intros x Hx; unfold rights in Hx; rewrite !elem_of_cons in Hx; destruct Hx as [->|[->|Hx]]; [done..|by apply not_elem_of_nil in Hx]|].
    split; [done|]. intros T' b HT _. cbn. apply Hk; [set_solver|]. by eapply backed_mono.
  - exists [(KRun, Admission.record f)], []. assert (Hb : backed ((Dead (s_id s) <$> [(KRun, Admission.record f)]) ++ T) s).
    { intros _. right. exists (Admission.record f). cbn. split; [set_solver|right]. exists s'. split; [set_solver|done]. }
    split; [done|]. split; [intros x Hx; by apply list_elem_of_singleton in Hx as ->|].
    split; [done|]. intros T' b HT _. cbn. apply Hk; [set_solver|]. by eapply backed_mono.
Qed.
Lemma fine_refusal T R s f o code : refusable T R (s_id s) f -> code <> 200 ->
  wp good T R (answer code (_ ← persist_status s; _ ← finish f o; mret s)).
Proof.
  intros Hm Hc. unfold answer. apply prog_bind. eapply prog_give_up; [done|]. intros T' R' b HT Hb T2 H2. cbn. by apply good_other.
Qed.
(** A refusal that is backed already. *)
Lemma fine_refusal_backed T R s f o code : backed T s -> code <> 200 ->
  wp good T R (answer code (_ ← persist_status s; _ ← finish f o; mret s)).
Proof.
  intros Hb Hc. unfold answer. apply prog_bind, prog_persist; [done|]. intros T' b HT T2 H2. cbn. by apply good_other.
Qed.
Lemma fine_uncertain T R code p reason : code <> 200 -> wp good T R (uncertain code p reason).
Proof. intros Hc. unfold uncertain. apply prog_persist; [by apply backed_open|]. intros T1 b H1. by apply good_other. Qed.

Section handlers.
Context (j : Admission.Journal).

Lemma fine_prepared_refusal T R f p reason code : refusable T R (id p) f -> code <> 200 -> wp good T R (answer code (prepared_refusal j f p reason)).
Proof. intros Hm Hc. by apply fine_refusal. Qed.
Lemma fine_terminal_refusal T R f i reason code : refusable T R i f -> code <> 200 -> wp good T R (answer code (terminal_refusal j f i reason)).
Proof. intros Hm Hc. by apply fine_refusal. Qed.
Lemma fine_parent_refusal T R f p : wp good T R (answer 503 (uncertain_parent_refusal f p)).
Proof.
  unfold answer, uncertain_parent_refusal. apply prog_bind, prog_bind. cbn. intros T1 H1. exists [], R. split; [done|]. split; [by intros x ?%not_elem_of_nil|].
  split; [by apply backed_open|]. intros T2 b H2 _ [=].
Qed.
(** What follows an answer: a lock is released. *)
Lemma fine_then_unlock T R m (p : Prog Reply) : wp good T R p -> wp good T R (a ← p; _ ← unlock m; mret a).
Proof.
  intros Hp. apply prog_bind. eapply prog_mono; [|exact Hp]. intros T1 R1 a Ha. cbn. intros T2 H2. by eapply good_mono.
Qed.

(** The parent of the operation, by its record. *)
Definition stoppable (T : list Fact) (p : PreparedRecord) (principal incarnation : string) : Prop :=
  kept T p /\ its_parent p incarnation principal.
Lemma stoppable_mono T T' p principal incarnation : T ⊆ T' -> stoppable T p principal incarnation -> stoppable T' p principal incarnation.
Proof. intros HT [? ?]. split; [by eapply kept_mono|done]. Qed.

(** With both rights for the turn of a context, and with one for that of a new parent. *)
Definition submittable (T : list Fact) (R : list Right) (p : PreparedRecord) (f : Admission.Fresh) (initial : bool) : Prop :=
  if initial then run_right T R (id p) f else fresh_rights T R (id p) f.
Lemma submittable_mono T T' R p f initial : T ⊆ T' -> submittable T R p f initial -> submittable T' R p f initial.
Proof. destruct initial; [apply run_mono|apply fresh_mono]. Qed.

Lemma fine_submit T R principal p f incarnation turn initial : submittable T R p f initial ->
  stoppable T p principal incarnation -> local_turn_id p = Ok turn ->
  wp good T R (submit_enduring_turn j principal p f incarnation turn initial).
Proof.
  intros Hm Hst Hturn. unfold submit_enduring_turn. apply prog_ask. intros T1 a H1 _. apply (submittable_mono _ _ _ _ _ _ H1) in Hm. apply (stoppable_mono _ _ _ _ _ H1) in Hst.
  destruct a as [_u|_e].
  - apply prog_ask. intros T2 a H2 _. apply (submittable_mono _ _ _ _ _ _ H2) in Hm. apply (stoppable_mono _ _ _ _ _ H2) in Hst. destruct a as [[]|]; [by apply fine_uncertain| |done].
    apply prog_stored; [by apply backed_open|]. intros T3 b H3 Hu. apply (submittable_mono _ _ _ _ _ _ H3) in Hm. apply (stoppable_mono _ _ _ _ _ H3) in Hst. destruct b; cbn [negb].
    + apply prog_bind. assert (HR : exists R', R ≡ₚ (KRun, Admission.record f) :: R').
      { destruct initial; destruct Hm as [_ HR]; [by exists []|]. exists [(KParent, Admission.record f)]. rewrite HR. apply perm_swap. }
      destruct HR as [R' HR]. exists R'. split; [done|]. intros T4 x H4. destruct x as [[]|reason]; cbn [is_ok].
      * apply prog_bind. cbn. split; [split; [|done]; eapply kept_mono; [exact H4|apply Hst]|]. intros T5 b H5. destruct b; [done|by apply fine_uncertain].
      * apply prog_ask. intros T5 a H5 _. by apply fine_uncertain.
    + apply prog_ask. intros T4 a H4 _. apply fine_prepared_refusal; [|done]. eapply refusable_mono; [exact H4|].
      destruct initial; [right|by left]. split; [done|]. eexists. split; [by apply Hu|]. done.
  - apply prog_bind. destruct initial; cbn [submittable] in Hm.
    + cbn. intros T2 a H2 Ha. destruct a as [b|]; cbn [is_err]; [|by apply fine_uncertain]. apply (fine_refusal_backed _ _ _ f); [|done].
      eapply backed_by; [exact Ha|]. cbn. apply (stoppable_mono _ _ _ _ _ H2) in Hst as [Hk Hi]. split; [done|]. by exists p.
    + change (wp good T1 R (answer 422 (prepared_refusal j f p "AUTH_WORK_DEADLINE_EXPIRED"))). apply fine_prepared_refusal; [by left|done].
Qed.

Definition startable (T : list Fact) (R : list Right) (p : PreparedRecord) (f : Admission.Fresh) (principal incarnation : string) : Prop :=
  fresh_rights T R (id p) f /\ stoppable T p principal incarnation.
Lemma startable_mono T T' R p f principal incarnation : T ⊆ T' -> startable T R p f principal incarnation -> startable T' R p f principal incarnation.
Proof. intros HT [? ?]. split; [by eapply fresh_mono|by eapply stoppable_mono]. Qed.
Lemma startable_refusable T R p f principal incarnation : startable T R p f principal incarnation -> refusable T R (id p) f.
Proof. intros [? _]. by left. Qed.

Lemma fine_admit_parent T R principal p f incarnation turn : startable T R p f principal incarnation -> local_turn_id p = Ok turn ->
  wp good T R (admit_parent j principal p f incarnation turn).
Proof.
  intros Hf Hturn. unfold admit_parent. cbv zeta. apply prog_lock. intros T1 H1. apply (startable_mono _ _ _ _ _ _ _ H1) in Hf.
  apply prog_checks. intros T2 r H2. apply (startable_mono _ _ _ _ _ _ _ H2) in Hf. destruct r as [reason|].
  { apply prog_unlock. intros T3 H3. apply fine_prepared_refusal; [eapply startable_refusable, startable_mono; [eassumption|exact Hf]|done]. }
  apply prog_checks. intros T3 r H3. apply (startable_mono _ _ _ _ _ _ _ H3) in Hf. destruct r as [reason|].
  { apply fine_then_unlock, fine_prepared_refusal; [by eapply startable_refusable|done]. }
  apply prog_ask. intros T4 o H4 _. apply (startable_mono _ _ _ _ _ _ _ H4) in Hf. destruct (is_err o); [by apply fine_then_unlock|].
  apply prog_ask. intros T5 a H5 _. apply (startable_mono _ _ _ _ _ _ _ H5) in Hf. destruct (is_err a); [apply fine_then_unlock, fine_parent_refusal|].
  apply prog_ask. intros T6 b H6 _. apply (startable_mono _ _ _ _ _ _ _ H6) in Hf.
  destruct (is_err b); [apply fine_then_unlock, fine_prepared_refusal; [by eapply startable_refusable|done]|].
  apply prog_bind. destruct Hf as [[Hc HR] Hst]. exists [(KRun, Admission.record f)]. split; [done|]. intros T7 x H7.
  destruct x as [[]|reason]; [|apply fine_then_unlock, fine_parent_refusal].
  cbn [is_ok]. apply prog_unlock. intros T8 H8. apply fine_submit; [split; [by apply H8, H7|done]|eapply stoppable_mono; [exact H8|by eapply stoppable_mono]|done].
Qed.

Lemma fine_start_parent T R principal p f incarnation turn : startable T R p f principal incarnation -> local_turn_id p = Ok turn ->
  wp good T R (start_parent j principal p f incarnation turn).
Proof.
  intros Hf Hturn. unfold start_parent. cbv zeta. apply prog_ask. intros T1 a H1 _. apply (startable_mono _ _ _ _ _ _ _ H1) in Hf.
  assert (Hr : forall T' code reason, T1 ⊆ T' -> code <> 200 -> wp good T' R (answer code (prepared_refusal j f p reason))).
  { intros T' code reason H' Hc. apply fine_prepared_refusal; [eapply startable_refusable, startable_mono; [exact H'|exact Hf]|done]. }
  destruct (is_err a); [by apply Hr|]. apply prog_clock. intros T2 t H2. destruct (parent_remaining _ _) as [ms|[reason|]]; [|by apply Hr|done].
  apply prog_ask. intros T3 b H3 _. destruct (negb _); [done|]. apply prog_ask. intros T4 c H4 _. destruct c as [[]|]; [|done|].
  - apply prog_ask. intros T5 e H5 _. assert (H15 : T1 ⊆ T5) by (do 3 (etrans; [eassumption|]); done).
    destruct (is_err e); [by apply Hr|]. apply fine_admit_parent; [by eapply startable_mono|done].
  - apply Hr; [|done]. by do 2 (etrans; [eassumption|]).
Qed.

Lemma fine_start_enduring T R principal p f mediated : fresh_rights T R (id p) f -> kept T p -> principal_for p principal ->
  wp good T R (start_enduring j principal p f mediated).
Proof.
  intros Hf Hk Hp. unfold start_enduring. cbv zeta. destruct (as_str _) as [lifecycle|]; [|done]. destruct (incarnation_of _) as [incarnation|] eqn:Ei; [|done].
  destruct (local_turn_id p) as [turn|] eqn:Et; [|done]. assert (Hs : startable T R p f principal incarnation).
  { split; [done|]. split; [done|]. unfold its_parent. by rewrite Ei. }
  clear Hf Hk. rename Hs into Hf. destruct mediated; cbn [negb]; [|apply fine_prepared_refusal; [by eapply startable_refusable|done]].
  apply prog_ask. intros T1 a H1 _. apply (startable_mono _ _ _ _ _ _ _ H1) in Hf. destruct (is_err a); [done|].
  destruct (parent_scope p) as [scope|]; [|done]. destruct (as_str _) as [uid|]; [|done]. destruct (Permit.run_incarnation _ _) as [expected|]; [|done].
  destruct (negb (String.eqb expected incarnation)); [apply fine_prepared_refusal; [by eapply startable_refusable|done]|].
  destruct (String.eqb lifecycle "enduring-turn").
  - apply prog_ask. intros T2 c H2 _. apply (startable_mono _ _ _ _ _ _ _ H2) in Hf. destruct c as [[]|].
    + by apply fine_submit; [apply Hf..|].
    + apply fine_prepared_refusal; [by eapply startable_refusable|done].
    + by apply fine_uncertain.
  - destruct (negb (String.eqb lifecycle "enduring-initial")); [apply fine_prepared_refusal; [by eapply startable_refusable|done]|].
    by apply fine_start_parent.
Qed.

Lemma fine_start_one_shot T R p f broker : fresh_rights T R (id p) f -> wp good T R (start_one_shot j p f broker).
Proof.
  intros Hm. unfold start_one_shot. apply prog_lock. intros T1 H1. apply prog_ask. intros T2 a H2 _. apply prog_unlock. intros T3 H3.
  apply (fresh_mono T T3) in Hm; [|by do 2 (etrans; [eassumption|])]. destruct a as [b|reason]; [|by apply fine_terminal_refusal; [left|]].
  apply prog_persist; [by apply backed_open|]. intros T4 stored H4. apply (fresh_mono _ _ _ _ _ H4) in Hm. destruct stored; cbn [negb].
  - apply prog_bind. destruct (Hm) as [Hc HR]. exists [(KParent, Admission.record f)]. split; [rewrite HR; apply perm_swap|]. intros T5 w H5. destruct w; [done|].
    apply (fresh_mono _ _ _ _ _ H5) in Hm. eapply (prog_give_up _ _ _ _ f); [left; exact Hm|]. intros T6 R6 b' H6 Hb.
    apply prog_lock. intros T7 H7. apply prog_ask. intros T8 a H8 _. apply prog_unlock. intros T9 H9. apply prog_bind. cbn. done.
  - apply prog_lock. intros T5 H5. apply prog_ask. intros T6 a H6 _. apply prog_unlock. intros T7 H7.
    apply fine_terminal_refusal; [left|done]. eapply fresh_mono; [|exact Hm]. by do 2 (etrans; [eassumption|]).
Qed.

Lemma fine_start_fresh T R c p f : fresh_rights T R (id p) f -> kept T p -> principal_for p (principal_of c) -> wp good T R (start_fresh j c p f).
Proof.
  intros Hf Hk Hp. unfold start_fresh. apply prog_bind. cbn. intros T1 t H1. apply (fresh_mono _ _ _ _ _ H1) in Hf. apply (kept_mono _ _ _ H1) in Hk. apply prog_bind.
  assert (Hgo : forall T2 a, T1 ⊆ T2 -> wp good T2 R (if is_err (A := bool) (E := string) a then answer 422 (terminal_refusal j f (id p) "invalid operation deadline") else
    built ← ask (id p) Build;
    match built with
    | Err reason => answer 422 (prepared_refusal j f p reason)
    | Ok broker =>
        if negb (says (decision p).["lifecycle"] "one-shot") then
          mediated ← ask (id p) Mediated; start_enduring j (principal_of c) p f (broker && is_ok mediated)
        else start_one_shot j p f broker
    end)).
  { intros T2 a H2. apply (fresh_mono _ _ _ _ _ H2) in Hf. apply (kept_mono _ _ _ H2) in Hk. destruct (is_err a); [apply fine_terminal_refusal; [by left|done]|].
    apply prog_ask. intros T3 b H3 _. apply (fresh_mono _ _ _ _ _ H3) in Hf. apply (kept_mono _ _ _ H3) in Hk. destruct b as [broker|reason].
    - destruct (negb _); [|by apply fine_start_one_shot]. apply prog_ask. intros T4 m H4 _. apply fine_start_enduring; [by eapply fresh_mono|by eapply kept_mono|done].
    - apply fine_prepared_refusal; [by left|done]. }
  destruct (operation_timeout t p); [|by apply Hgo]. cbn. intros T2 a2 H2 _. by apply Hgo.
Qed.

Lemma good_found T R r : (forall s, r = Ok (Some s) -> backed T s) -> forall s0, s_cleanup_confirmed s0 = false -> good T R (status_reply (default s0 (found r))).
Proof.
  intros Hr s0 H0. apply good_status_reply. destruct (found r) as [s|] eqn:E; [by apply Hr, found_Some|]. by apply backed_open.
Qed.

Lemma decode_id i raw p : decode_prepared scalar quoted data_of web_of i raw = Some p -> id p = i.
Proof.
  unfold decode_prepared. intros E. apply bind_Some in E as (r & _ & E). destruct (negb _) eqn:En; [|done].
  rewrite !negb_orb, !andb_true_iff, !negb_true_iff, !negb_false_iff in En. destruct En as [[_ En] _]. apply String.eqb_eq in En.
  by destruct (validate_prepared _ _ _ _ _ _) as [[]|]; [injection E as <-|..].
Qed.

Lemma prog_prepared {A} (Q : list Fact -> list Right -> A -> Prop) T R i k :
  (forall T' o, T ⊆ T' -> (forall p, o = Some p -> id p = i /\ exists b, Kept i b ∈ T' /\ decode_prepared scalar quoted data_of web_of i b = Some p) ->
    wp Q T' R (k o)) -> wp Q T R (load_prepared scalar quoted data_of web_of i ≫= k).
Proof.
  intros Hk. apply prog_bind. cbn. intros T1 r H1 Hr. apply Hk; [done|]. intros p E. destruct r as [[raw|]|]; [|done..].
  split; [by eapply decode_id|]. exists raw. split; [by apply Hr|done].
Qed.

Lemma fine_start v i own permit model : fine (ScopedOps.start scalar quoted data_of web_of j v i own permit model).
Proof.
  intros T. unfold ScopedOps.start. apply prog_locked. intros T1 H1. apply prog_prepared. intros T2 [p|] H2 Hp; [|done].
  destruct (Hp p eq_refl) as (Hi & b & Hkept & Hdec). destruct permit as [permit|]; [|done]. cbv zeta.
  destruct (external_request _ _ _ _) as [external|] eqn:Eext; [|done]. destruct (as_str _) as [op|]; [|done]. destruct (negb (_ || _)); [done|].
  apply prog_clock. intros T3 t H3. destruct (receiver_context _ _ _ _) as [c|] eqn:Erc; [|done]. destruct (Contract.canonical _ _ _) as [canonical|] eqn:Ecan; [|done].
  destruct (permits_ok _ _ _ _ _ _ _ _) as [[]|reply] eqn:Epm.
  2: { cbn. intros T4 H4. unfold permits_ok in Epm. cbv zeta in Epm.
       destruct (Credentials.verify _ _ _ _ _ _); [|by injection Epm as <-]. cbn in Epm.
       destruct (negb _); destruct model as [m|]; try (injection Epm as <-; done); try discriminate Epm. destruct (Credentials.verify _ _ _ _ _ _); [done|by injection Epm as <-]. }
  destruct (_ || _); [done|]. apply prog_load. intros T4 r H4 Hr. assert (Hb : forall s, r = Ok (Some s) -> backed T4 s) by (intros s Hs; by apply Hr).
  destruct (negb (String.eqb (owner p) (j_owner j))).
  { cbn. destruct (found r) as [s|] eqn:Es; [|done]. destruct (s_cleanup_confirmed s) eqn:Ec; [|done]. intros T5 H5 _. split; [done|].
    eapply backed_mono; [exact H5|]. by apply Hb, found_Some. }
  destruct (found r) as [s|] eqn:Es.
  { intros T5 H5. apply (good_status_reply T5). eapply backed_mono; [exact H5|]. by apply Hb, found_Some. }
  apply prog_claim. { exists b. split; [by apply H4, H3|]. by exists p. }
  intros T5 x H5 Hx. destruct x as [[f|row]|e].
  - eapply prog_mono; [|apply fine_start_fresh]. { intros T6 R6 a Ha T7 H7. by eapply good_mono. }
    + split; [rewrite Hi; by apply Hx|done].
    + exists b. rewrite Hi. split; [by apply H5, H4, H3|done].
    + by exists t, (decision p), op, c.
  - apply prog_load. intros T6 r' H6 Hr'. intros T7 H7. apply (good_found T7); [|done]. intros s Hs. eapply backed_mono; [exact H7|]. by apply Hr'.
  - by destruct e.
Qed.

Lemma fine_prepare o d : fine (prepare scalar quoted data_of web_of j o d).
Proof.
  intros T. unfold prepare. destruct (validate_prepared _ _ _ _ _ _) as [[[]|]|]; [|done..]. destruct (affordable_request_output_tokens _ _); [|done].
  destruct (operation_id _ _ _ _) as [i|]; [|done]. cbv zeta. destruct (_ <? _); [done|]. apply prog_bind. unfold enroll_prepared. apply prog_locked.
  intros T1 H1. apply prog_bind. cbn. intros T2 b H2 Hb. destruct b as [[raw|]|]; cbn; [| |done].
  - destruct (from_slice raw) as [e|] eqn:Ee; [|done]. destruct (_ || _) eqn:Eo; [done|]. cbn. intros T3 H3.
    rewrite !orb_false_iff, negb_false_iff in Eo. destruct Eo as [[Ei%String.eqb_eq _] _]. exists raw, e. split; [by apply H3, Hb|done].
  - intros T3 w H3 Hk. destruct w; [|done]. cbn. intros T4 H4. eexists _, _. split; [by apply H4, Hk|]. by rewrite from_to.
Qed.

(** A step that does not answer leaves the facts it found. *)
Lemma prog_unless T R m k : (forall T', T ⊆ T' -> wp good T' R k) ->
  wp (fun T' R' r => match r with Some a => good T' R' a | None => T ⊆ T' /\ R' = R end) T R m -> wp good T R (unless m k).
Proof.
  intros Hk Hm. apply prog_bind. eapply prog_mono; [|exact Hm]. intros T1 R1 [a|] Ha; [exact Ha|]. destruct Ha as [H1 ->]. by apply Hk.
Qed.
Lemma prog_after {A} T R (m : Prog unit) (k : Prog A) Q : (forall T', T ⊆ T' -> wp Q T' R k) ->
  wp (fun T' R' _ => T ⊆ T' /\ R' = R) T R m -> wp Q T R (_ ← m; k).
Proof. intros Hk Hm. apply prog_bind. eapply prog_mono; [|exact Hm]. intros T1 R1 u [H1 ->]. by apply Hk. Qed.

Lemma fine_accessed T R p i principal cleanup row : id p = i -> kept T p -> principal_for p principal -> Ev (Accessed i row) ∈ T -> wp good T R (accessed j p i principal cleanup row).
Proof.
  intros Hi Hkept Hprin Ha. unfold accessed. cbv zeta.
  (** A question about the parent of the record is evidence for the operation. *)
  assert (Hpar : forall T' s parent e, T ⊆ T' -> s_id s = i -> default EmptyString (incarnation_of (decision p)) = parent -> Ev e ∈ T' ->
    (forall T0, (i = s_id s /\ (exists p, id p = s_id s /\ kept T0 p /\ its_parent p parent principal)) -> witnesses T0 (s_id s) e) -> backed T' s).
  { intros T' s parent e HT Hs Hpa He Hw. eapply backed_by; [exact He|]. apply Hw. split; [done|]. exists p. rewrite Hs. split; [done|].
    split; [by eapply kept_mono|]. split; [done|done]. }
  apply prog_unless.
  2: { unfold never_started. destruct (_ && _) eqn:E; [|done]. apply andb_true_iff in E as [_ Hn]. cbv zeta.
       assert (Hb : backed T (never_started_status p)).
       { eapply backed_by; [exact Ha|]. cbn. split; [done|]. unfold was_never_started in Hn. by destruct (Admission.outcome row) as [[]|]. }
       apply prog_persist; [done|]. intros T1 b H1. destruct b; [|done]. cbn. intros _. split; [done|]. by eapply backed_mono. }
  intros T1 H1. apply prog_unless.
  2: { unfold already_confirmed. destruct cleanup; [|done]. apply prog_load. intros T2 r H2 Hr. cbn. destruct (found r) as [s|] eqn:Es; [|done].
       destruct (_ && _) eqn:E; [|done]. apply andb_true_iff in E as [_ E]. intros _. split; [done|]. by apply Hr, found_Some. }
  intros T2 H2. apply prog_unless.
  2: { unfold fence_parent. destruct (_ && _); [|done]. cbv zeta. apply prog_ask. intros T3 a H3 Hq. destruct a as [[]|]; [|done..].
       set (s := blank_status _ _ _ _ _ _ _ _). assert (Hb : backed T3 s) by (eapply Hpar; [by do 2 (etrans; [eassumption|])|done|reflexivity|exact Hq|done]).
       apply prog_persist; [exact Hb|]. intros T4 b H4. destruct b; [|done]. cbn. intros _. split; [done|]. by eapply backed_mono. }
  intros T3 H3. apply prog_after.
  2: { unfold historical. destruct (String.eqb _ _); [done|]. apply prog_bind.
       assert (Hk : forall T4 (torn : result string bool), T3 ⊆ T4 -> (torn = Ok true -> Ev (Asked i (Teardown (default EmptyString (incarnation_of (decision p))) principal) (Ok true)) ∈ T4) ->
         wp (fun T' R' _ => T3 ⊆ T' /\ R' = R) T4 R (update_status i (fun s =>
           if cleanup && match torn with Ok true => true | _ => false end then Some (set_phase "Cancelled" (Some "original native owner process teardown confirmed") true s)
           else unless_confirmed "Uncertain" (fun _ => Some "original receiver owner context is unavailable"%string) s))).
       { intros T4 torn H4 Ht. apply prog_update; [|intros T5 H5; split; [by etrans|done]]. intros T5 s s' H5 Hs Hb.
         destruct (cleanup && _) eqn:E; [|by apply unless_confirmed_backed]. intros [= <-]. apply andb_true_iff in E as [_ E].
         destruct torn as [[]|]; try done. eapply Hpar; [by do 4 (etrans; [eassumption|])|done|reflexivity|by apply H5, Ht|done]. }
       destruct (negb _); [|by apply Hk]. destruct (incarnation_of _) as [parent|]; [|by apply Hk]. cbn. intros T4 a H4 Hq. apply Hk; [done|]. by intros ->. }
  intros T4 H4. apply prog_after.
  2: { unfold cancel_operation. destruct (negb _); [done|]. cbv zeta. destruct (says _ _).
       - apply prog_ask. intros T5 a5 H5 _. apply prog_ask. intros T6 a H6 Hq. apply prog_update; [|intros T7 H7; split; [|done]; by do 2 (etrans; [eassumption|])].
         intros T7 s s' H7 Hs Hb [= <-]. destruct a as [b|]; [|by apply backed_open]. eapply Hpar; [by do 6 (etrans; [eassumption|])|done|reflexivity|by apply H7|done].
       - destruct (says _ _).
         + apply prog_ask. intros T5 a5 H5 _. apply prog_bind.
           assert (Hk : forall T6 (a : result string bool), T5 ⊆ T6 -> wp (fun T' R' _ => T4 ⊆ T' /\ R' = R) T6 R
             (update_status i (unless_confirmed "Cancelling" (fun _ => Some "exact child cancellation requested; teardown pending"%string)))).
           { intros T6 a6 H6. apply prog_update; [intros; by eapply unless_confirmed_backed|]. intros T7 H7. split; [|done]. by do 2 (etrans; [eassumption|]). }
           destruct a5 as [[]|]; [by apply (Hk _ (Ok true))| |by apply (Hk _ (Ok true))]. cbn. intros T6 a6 H6 _. by apply (Hk _ a6).
         + apply prog_locked. intros T5 H5. apply prog_ask. intros T6 a H6 _. destruct a as [[]|].
           * apply prog_update; [intros T7 s s' H7 Hs Hb [= <-]; by apply backed_open|]. intros T7 H7 T8 H8. split; [|done]. by do 3 (etrans; [eassumption|]).
           * cbn. intros T7 H7. split; [|done]. by do 2 (etrans; [eassumption|]).
           * cbn. intros T7 H7. split; [|done]. by do 2 (etrans; [eassumption|]). }
  intros T5 H5. apply prog_after.
  2: { unfold observe_parent. destruct (says _ _); [|done]. apply prog_ask. intros T6 a H6 _. destruct a as [[]|]; [..|done];
       (apply prog_update; [intros; by eapply unless_confirmed_backed|]; intros T7 H7; split; [|done]; by etrans). }
  intros T6 H6. unfold report_status. apply prog_load. intros T7 r H7 Hr. cbn. destruct r as [[s|]|]; [|done..]. apply good_status_reply. by apply Hr.
Qed.

Lemma fine_access_locked v i d permit cleanup : fine (access_locked scalar quoted data_of web_of j v i d permit cleanup).
Proof.
  intros T. unfold access_locked. apply prog_prepared. intros T1 [p|] H1 Hp; [|done]. destruct (Hp p eq_refl) as (Hi & b & Hkept & Hdec). destruct permit as [permit|]; [|done]. cbv zeta.
  destruct (validate_access_decision _ _ _) as [[]|]; [|done..]. apply prog_clock. intros T2 t H2. destruct (receiver_context _ _ _ _) as [c|] eqn:Erc; [|done].
  destruct (Contract.canonical _ _ _) as [canonical|]; [|done]. destruct (Contract.canonical _ _ _) as [enrolled|] eqn:Een; [|done].
  destruct (external_request _ _ _ _) as [request|] eqn:Ere; [|done].
  apply prog_access. { exists b. split; [by apply H2|]. by exists p. } intros T3 x H3 Hx. destruct x as [row|e].
  - apply fine_accessed; [done| | |by apply Hx].
    + exists b. rewrite Hi. split; [by apply H3, H2|done].
    + by eexists _, _, _, c.
  - destruct (context_lost e); [|by destruct e]. apply prog_load. intros T4 r H4 Hr. destruct (found r) as [s|] eqn:Es; [|by destruct e].
    cbn. destruct (s_cleanup_confirmed s) eqn:Ec; [|by destruct e]. apply (good_confirmed T4 []); [done|]. by apply Hr, found_Some.
Qed.

Lemma fine_handle r : fine (handle scalar quoted data_of web_of j r).
Proof.
  destruct r as [o d|v i own permit model|v i d permit cleanup]; [apply fine_prepare|apply fine_start|]. cbn. unfold access.
  destruct cleanup; [|apply fine_access_locked]. intros T. apply prog_locked. intros T1 H1. eapply prog_mono; [|apply fine_access_locked].
  intros T2 R2 a Ha T3 H3. by eapply good_mono.
Qed.

Lemma turn_confirmed p incarnation turn initial r : s_id (turn_status j p incarnation turn initial r) = id p /\
  (s_cleanup_confirmed (turn_status j p incarnation turn initial r) = true -> (turn_result r turn false).2 = true).
Proof.
  unfold turn_status. destruct (turn_result r turn initial) as [[[ph re] ou] co] eqn:Et. cbn. split; [done|]. intros ->. revert Et.
  unfold turn_result. destruct (r_response r) as [[b|reason]|]; [destruct (from_slice b); [destruct (_ && _)|]|..]; try done; cbn; destruct initial; try done.
  - intros [=]. by rewrite andb_false_r in *.
  - by intros [= _ _ _ ->].
Qed.

Lemma fine_work w T : worker_ok T w -> wp good T [] (work scalar quoted execution_value substrate_value j w).
Proof.
  destruct w as [f i model_backed|f p incarnation turn initial]; intros Hw; cbn [work].
  - unfold run_scoped. apply prog_lock. intros T1 H1. apply prog_ask. intros T2 a2 H2 _. apply prog_unlock. intros T3 H3. apply prog_bind. intros T4 l H4 Hl.
    apply prog_lock. intros T5 H5. apply prog_ask. intros T6 a6 H6 _. apply prog_unlock. intros T7 H7.
    assert (Hin : Ev (Ended i l) ∈ T7) by (by apply H7, H6, H5).
    assert (Hs : s_id (run_status scalar quoted execution_value substrate_value j i model_backed l) = i /\
      (s_cleanup_confirmed (run_status scalar quoted execution_value substrate_value j i model_backed l) = true -> l_outcome l <> None)).
    { unfold run_status, launch_result. destruct (l_outcome l) as [[o|reason]|]; cbn;
        repeat match goal with |- context [let '(_, _) := ?x in _] => destruct x | |- context [match ?x with Ok _ => _ | Err _ => _ end] => destruct x
          | |- context [if ?c then (_, _) else (_, _)] => destruct c end; done. }
    destruct Hs as [Hi Hc]. apply prog_persist. { intros E. left. eexists. split; [exact Hin|]. cbn. rewrite Hi. split; [done|]. by apply Hc. }
    intros T8 b H8. destruct (b && _); [|done]. apply prog_bind. by intros T9 H9.
  - unfold finish_enduring_turn. apply prog_bind. intros T1 r H1 Hr. apply prog_persist.
    { intros E. left. eexists. split; [exact Hr|]. destruct Hw as [Hk Ht]. pose proof (turn_confirmed p incarnation turn initial r) as Hc.
      destruct Hc as [Hi Hc]. cbn. rewrite Hi. split; [done|]. exists p, turn. split; [done|]. split; [by eapply kept_mono|]. split; [done|]. by apply Hc. }
    intros T2 b H2. destruct (s_receipt_digest _); [|done]. destruct b; [|done]. apply prog_bind. by intros T3 H3.
Qed.
End handlers.

(** ** Every reachable state *)

Definition dead_rights (T : list Fact) : list Right := omap (fun f => match f with Dead _ x => Some x | _ => None end) T.
Definition all_rights (l : list Admission.Row) : list Right := concat (rights <$> l).

Section runs.

(** The rows that a claim or an access is given. *)
Definition row_of (e : Event) : option (string * Admission.Row) :=
  match e with Claimed i row | Accessed i row => Some (i, row) | _ => None end.

(** A row is about the decision and the request of the kept record of its operation. *)
Definition enrolled (w : World) (i : string) (row : Admission.Row) : Prop :=
  exists b d q cd cq, w_prepared w !! i = Some b /\ about i b d q /\
    Contract.canonical scalar quoted d = Ok cd /\ Admission.decision_digest row = Contract.digest cd /\
    Contract.canonical scalar quoted q = Ok cq /\ Admission.r_request_digest row = Contract.digest cq.

Record sound (w : World) (T : list Fact) : Prop := {
  so_trace : forall e, Ev e ∈ T <-> e ∈ w_trace w;
  so_status : forall i s, w_status w !! i = Some s -> s_id s = i /\ backed T s;
  so_dead : forall i x, Dead i x ∈ T -> Ev (Claimed i x.2) ∈ T;
  so_rows : AdmissionLaws.inv (Admission.files (w_disk w)) (w_handles w);
  so_kept : forall i b, Kept i b ∈ T -> w_prepared w !! i = Some b;
  so_claims : forall e i row, e ∈ w_trace w -> row_of e = Some (i, row) -> enrolled w i row;
}.

(** One action keeps the facts, and moves rights only to what is launched or given up. *)
Definition moves (w w' : World) (T T' : list Fact) (R R' : list Right) : Prop :=
  exists G, all_rights (w_handles w') = G ++ all_rights (w_handles w) /\
    R' ++ dead_rights T' ++ w_launched w' ≡ₚ G ++ R ++ dead_rights T ++ w_launched w.

Lemma moves_same w w' T e R : w_handles w' = w_handles w -> w_launched w' = w_launched w -> dead_rights e = [] -> moves w w' T (e ++ T) R R.
Proof.
  intros Hh Hl He. exists []. rewrite Hh, Hl. split; [done|]. unfold dead_rights in *. rewrite omap_app, He. done.
Qed.

Lemma enrolled_same w w' i row : w_prepared w' = w_prepared w -> enrolled w i row -> enrolled w' i row.
Proof. unfold enrolled. by intros ->. Qed.

(** A world that only differs in what the facts do not speak of. *)
Lemma sound_same w w' T : w_trace w' = w_trace w -> w_status w' = w_status w -> w_disk w' = w_disk w -> w_handles w' = w_handles w ->
  w_prepared w' = w_prepared w -> sound w T -> sound w' T.
Proof.
  intros E1 E2 E3 E4 E5 [Ht Hs Hd Hr Hk Hc]. constructor; rewrite ?E1, ?E2, ?E3, ?E4, ?E5; try done.
  intros e i row Hi He. eapply enrolled_same; [exact E5|]. by eapply Hc.
Qed.
(** One more fact. *)
Lemma sound_fact w w' T f : (forall e, Ev e ∈ f :: T <-> e ∈ w_trace w') -> (forall i x, f = Dead i x -> Ev (Claimed i x.2) ∈ T) ->
  (forall i b, f = Kept i b -> w_prepared w' !! i = Some b) -> (forall e i r, f = Ev e -> row_of e = Some (i, r) -> enrolled w' i r) ->
  w_status w' = w_status w -> w_disk w' = w_disk w -> w_handles w' = w_handles w -> w_prepared w' = w_prepared w -> sound w T -> sound w' (f :: T).
Proof.
  intros Hf Hdead Hkept Hclaim E1 E2 E3 E4 [Ht Hs Hd Hr Hk Hc]. constructor.
  - exact Hf.
  - rewrite E1. intros i s Hi. destruct (Hs i s Hi) as [? Hb]. split; [done|]. eapply backed_mono; [|exact Hb]. set_solver.
  - intros i r Hi. apply elem_of_cons. right. apply elem_of_cons in Hi as [Hi|Hi]; [by eapply Hdead|by apply Hd].
  - by rewrite E2, E3.
  - intros i b Hi. apply elem_of_cons in Hi as [Hi|Hi]; [by apply Hkept|]. rewrite E4. by apply Hk.
  - intros e i row Hi He. apply Hf, elem_of_cons in Hi as [Hi|Hi]; [by eapply Hclaim|]. eapply enrolled_same; [exact E4|]. by eapply Hc; [apply Ht|].
Qed.
Lemma sound_note w T e : (forall i r, row_of e = Some (i, r) -> enrolled w i r) -> sound w T -> sound (note e w) (Ev e :: T).
Proof.
  intros He Hs. eapply (sound_fact w); try done; [|intros e' i r [= <-]; by apply He]. intros e'. cbn. rewrite !elem_of_cons, (so_trace _ _ Hs). naive_solver.
Qed.
Lemma sound_rows w T d h : AdmissionLaws.effect (Admission.files (w_disk w)) (Admission.files d) h -> sound w T ->
  sound (give_handle h (set_disk d w)) T.
Proof.
  intros He [Ht Hs Hd Hr Hk Hc]. constructor; cbn; try done. destruct h as [r|]; by apply (AdmissionLaws.inv_effect _ _ _ _ He) in Hr.
Qed.
Lemma sound_status w T s : sound w T -> backed T s -> sound (set_status (<[s_id s := s]> (w_status w)) w) T.
Proof.
  intros [Ht Hs Hd Hr Hk Hc] Hb. constructor; cbn; try done. intros i s' Hi. apply lookup_insert_Some in Hi as [[<- <-]|[_ Hi]]; [done|by apply Hs].
Qed.
Lemma sound_dead w T i G : sound w T -> (forall x, x ∈ G -> Ev (Claimed i x.2) ∈ T) -> sound w ((Dead i <$> G) ++ T).
Proof.
  intros Hs. induction G as [|x G IH]; intros Hc; [done|]. cbn. assert (HG : sound w ((Dead i <$> G) ++ T)) by (apply IH; intros y Hy; apply Hc; by right).
  eapply (sound_fact w); try done.
  - intros e. rewrite elem_of_cons, (so_trace _ _ HG). naive_solver.
  - intros i' x' [= <- <-]. apply elem_of_app. right. apply Hc. left.
Qed.
Lemma scoped_kept w T i b : sound w T -> w_prepared w !! i = Some b -> sound w (Kept i b :: T).
Proof.
  intros Hs Hb. eapply (sound_fact w); try done; [|by intros i' b' [= <- <-]]. intros e. rewrite elem_of_cons, (so_trace _ _ Hs). naive_solver.
Qed.
(** A new record is written where there is none. *)
Lemma sound_write w T i b : w_prepared w !! i = None -> sound w T -> sound (set_prepared (<[i := b]> (w_prepared w)) w) T.
Proof.
  intros Hn [Ht Hs Hd Hr Hk Hc]. assert (Ho : forall i' b', w_prepared w !! i' = Some b' -> <[i := b]> (w_prepared w) !! i' = Some b').
  { intros i' b' Hi. rewrite lookup_insert_ne; [done|]. intros ->. congruence. }
  constructor; cbn; try done; [intros i' b' Hi; by apply Ho, Hk|]. intros e i' row Hi He. destruct (Hc e i' row Hi He) as (b' & d & q & cd & cq & Hb & ?).
  exists b', d, q, cd, cq. split; [by apply Ho|done].
Qed.

Definition advances (w w' : World) (T : list Fact) (R : list Right) (p' : Prog Reply) : Prop :=
  exists T' R', T ⊆ T' /\ sound w' T' /\ wp good T' R' p' /\ moves w w' T T' R R'.

(** The world changes at most in its locks. *)
Lemma advance_same w w' T R p' : w_trace w' = w_trace w -> w_status w' = w_status w -> w_disk w' = w_disk w -> w_handles w' = w_handles w ->
  w_prepared w' = w_prepared w -> w_launched w' = w_launched w -> sound w T -> wp good T R p' -> advances w w' T R p'.
Proof.
  intros E1 E2 E3 E4 E5 E6 Hs Hp. exists T, R. split; [done|]. split; [by eapply sound_same|]. split; [done|]. by apply (moves_same w w' T []).
Qed.
Lemma advance_note w T R p' e : row_of e = None -> sound w T -> wp good (Ev e :: T) R p' -> advances w (note e w) T R p'.
Proof.
  intros He Hs Hp. exists (Ev e :: T), R. split; [set_solver|]. split; [apply sound_note; [|done]; intros i r; by rewrite He|].
  split; [done|]. by apply (moves_same w (note e w) T [Ev e]).
Qed.
Lemma advance_kept w w' T R p' i b : sound w' T -> w_handles w' = w_handles w -> w_launched w' = w_launched w -> w_prepared w' !! i = Some b ->
  wp good (Kept i b :: T) R p' -> advances w w' T R p'.
Proof.
  intros Hs E1 E2 Hb Hp. exists (Kept i b :: T), R. split; [set_solver|]. split; [by apply scoped_kept|]. split; [done|]. by apply (moves_same w w' T [Kept i b]).
Qed.
Lemma advance_disk w T R p' d : AdmissionLaws.effect (Admission.files (w_disk w)) (Admission.files d) None -> sound w T -> wp good T R p' ->
  advances w (set_disk d w) T R p'.
Proof.
  intros He Hs Hp. exists T, R. split; [done|]. split; [by eapply (sound_rows w T d None)|]. split; [done|]. by apply (moves_same w (set_disk d w) T []).
Qed.
(** A right is used, or given up. *)
Lemma moves_use w w' T R R' x : R ≡ₚ x :: R' -> w_handles w' = w_handles w -> w_launched w' = x :: w_launched w -> moves w w' T T R R'.
Proof.
  intros HR Hh Hl. exists []. rewrite Hh, Hl. split; [done|]. cbn [app]. rewrite HR. cbn [app]. rewrite <- !Permutation_middle. done.
Qed.
Lemma moves_dead w w' T R R' i G : R ≡ₚ G ++ R' -> w_handles w' = w_handles w -> w_launched w' = w_launched w -> moves w w' T ((Dead i <$> G) ++ T) R R'.
Proof.
  intros HR Hh Hl. exists []. rewrite Hh, Hl. split; [done|]. cbn [app]. rewrite HR. unfold dead_rights. rewrite omap_app.
  replace (omap (fun f => match f with Dead _ x => Some x | _ => None end) (Dead i <$> G)) with G by (clear; induction G as [|x G IH]; [done|]; cbn; f_equal; exact IH).
  solve_Permutation.
Qed.
Lemma moves_more w w' T T' R R' e : moves w w' T T' R R' -> moves w (note e w') T (Ev e :: T') R R'.
Proof. intros Hm. exact Hm. Qed.

Lemma read_status_found w T i s : sound w T -> read_status w i = Ok (Some s) -> s_id s = i /\ backed T s.
Proof.
  intros Hs. unfold read_status. destruct (is_err _); [done|]. destruct (w_status w !! i) as [s'|] eqn:E; [|done]. destruct (status_ok i s'); [|done].
  intros [= <-]. by apply (so_status _ _ Hs).
Qed.

Lemma action_advances j c w p w' p' x T R : action scalar quoted j c w p = Some (w', p', x) -> sound w T -> wp good T R p -> advances w w' T R p'.
Proof.
  intros E Hs Hp. destruct p as [a|m k|m k|k|i k|i b k|i k|s k|i v t d q r k|i v t d r e k|f o k|i q k|kd f k|y k|i k|i k]; cbn in E, Hp.
  - done.
  - destruct (bool_decide _); [done|]. injection E as <- <- <-. apply advance_same; try done. by apply Hp.
  - injection E as <- <- <-. apply advance_same; try done. by apply Hp.
  - injection E as <- <- <-. apply advance_same; try done. by apply Hp.
  - injection E as <- <- <-. destruct (if c_ok c then read_prepared w i else Err tt) as [[b|]|] eqn:Er; [|apply advance_same; try done; by apply Hp..].
    apply (advance_kept _ _ _ _ _ i b); try done; [|apply Hp; [set_solver|intros b' [= <-]; left]].
    destruct (c_ok c); [|done]. unfold read_prepared in Er. destruct (is_err _); [done|]. destruct (w_prepared w !! i); [|done].
    destruct (_ <=? _); [by injection Er as <-|done].
  - destruct (is_Some_bool (w_prepared w !! i)) eqn:Eo; cbn in E; [injection E as <- <- <-; apply advance_same; try done; by apply Hp|].
    assert (Hn : w_prepared w !! i = None) by (by destruct (w_prepared w !! i)).
    destruct (is_err _); [injection E as <- <- <-; apply advance_same; try done; by apply Hp|].
    destruct (c_ok c); [|destruct (c_done c)]; injection E as <- <- <-.
    + apply (advance_kept _ _ _ _ _ i b); try done; [by apply sound_write|apply lookup_insert_eq|]. apply Hp; [set_solver|left].
    + exists T, R. split; [done|]. split; [by apply sound_write|]. split; [by apply Hp|]. by apply (moves_same w _ T []).
    + apply advance_same; try done. by apply Hp.
  - injection E as <- <- <-. apply advance_same; try done. apply Hp; [done|]. intros s Hr. destruct (c_ok c); [|done]. by eapply read_status_found.
  - destruct Hp as (G & R' & HR & Hc & Hb & Hk). set (D := Dead (s_id s) <$> G) in *.
    set (w1 := if can_store s && (c_ok c || c_done c) then set_status (<[s_id s := s]> (w_status w)) w else w) in *.
    assert (Hs1 : sound w1 (D ++ T)).
    { pose proof (sound_dead w T (s_id s) G Hs Hc) as Hd. unfold w1. destruct (_ && _); [by apply sound_status|done]. }
    assert (Hm1 : moves w w1 T (D ++ T) R R') by (apply moves_dead; [done|..]; unfold w1; by destruct (_ && _)).
    destruct (can_store s && c_ok c); injection E as <- <- <-.
    + exists (D ++ T), R'. split; [set_solver|]. split; [done|]. split; [by apply Hk|done].
    + exists (Ev (Unstored s) :: D ++ T), R'. split; [set_solver|]. split; [by apply sound_note|].
      split; [apply Hk; [set_solver|]; intros _; left|by apply moves_more].
  - destruct (Admission.claim _ _ _ _ _ _ _ _ _) as [y disk] eqn:Ec. injection E as <- <- <-. destruct Hp as [(b & Hb & Ha) Hp].
    pose proof Ec as Ecl. apply AdmissionLaws.claim_effect in Ec.
    change (AdmissionLaws.handle y) with (fresh_row y) in Ec. pose proof (sound_rows w T disk _ Ec Hs) as Hs'.
    destruct (fresh_row y) as [row|] eqn:Ef.
    + exists (Ev (Claimed i row) :: T), (granted y ++ R). split; [set_solver|]. split.
      { apply sound_note; [|done]. intros i' r' [= <- <-]. destruct y as [[f|]|]; try done. injection Ef as <-.
        destruct (AdmissionLaws.claim_Fresh _ _ _ _ _ _ _ _ _ Ecl) as (dv & Hcand & _).
        destruct (AdmissionLaws.candidate_spec _ _ _ _ _ _ _ _ _ Hcand) as (_ & _ & _ & _ & _ & _ & _ & _ & (cq & Hq & Eq & Erq) & (cd & Hcd & Ecd) & _).
        exists b, d, q, cd, cq. split; [by apply (so_kept _ _ Hs)|]. split; [done|]. split; [done|]. split; [done|]. split; [done|]. congruence. }
      split; [apply Hp; [set_solver|intros r' Hr'; rewrite Ef in Hr'; injection Hr' as <-; left]|]. exists (rights row). split; [done|]. unfold granted. rewrite Ef. done.
    + exists T, R. split; [done|]. split; [done|]. split; [|by apply (moves_same w _ T [])].
      specialize (Hp T y ltac:(done)). unfold granted in Hp. rewrite Ef in Hp. by apply Hp.
  - destruct Hp as [(b & Hb & Ha) Hp]. destruct (Admission.access _ _ _ _ _ _ _ _) as [y disk] eqn:Ec. injection E as <- <- <-.
    pose proof Ec as Eac. apply AdmissionLaws.access_effect in Ec.
    pose proof (sound_rows w T disk None Ec Hs) as Hs'. destruct y as [row|e'].
    + apply AdmissionLaws.access_digests in Eac as [(rq & Hrq & Erq) (cd & Hcd & Ecd)].
      exists (Ev (Accessed i row) :: T), R. split; [set_solver|]. split.
      { apply (sound_note (set_disk disk w)); [|done]. intros i' r' [= <- <-]. exists b, (Admission.e_decision e), (Admission.e_request e), cd, rq.
        split; [by apply (so_kept _ _ Hs)|done]. }
      split; [apply Hp; [set_solver|by intros r' [= <-]; left]|]. by apply (moves_same w _ T [Ev (Accessed i row)]).
    + apply advance_disk; [done|done|]. by apply Hp.
  - injection E as <- <- <-. apply advance_disk; [|done|by apply Hp]. destruct (Admission.finish _ _ _ _) as [y disk] eqn:Ec.
    by apply AdmissionLaws.finish_effect in Ec.
  - injection E as <- <- <-. apply advance_note; [done|done|]. apply Hp; [set_solver|left].
  - destruct Hp as (R' & HR & Hk). destruct (c_answer c) as [b|reason]; injection E as <- <- <-.
    + exists T, R'. split; [done|]. split; [by eapply sound_same; [..|exact Hs]|]. split; [by apply (Hk T (Ok tt))|]. by eapply moves_use.
    + apply advance_same; try done. by apply (Hk T (Err reason)).
  - destruct (c_ok c); injection E as <- <- <-.
    + destruct y as [f i mb|f p0 inc turn initial].
      * destruct Hp as (R' & HR & Hk). exists T, R'. split; [done|]. split; [by eapply sound_same; [..|exact Hs]|]. split; [by apply (Hk T true)|]. by eapply moves_use.
      * apply advance_same; try done. by apply Hp.
    + apply advance_same; try done. destruct y as [f i mb|]; [|by apply Hp]. destruct Hp as (R' & HR & Hk). by apply (Hk T false).
  - injection E as <- <- <-. apply advance_note; [done|done|]. apply Hp; [set_solver|left].
  - injection E as <- <- <-. apply advance_note; [done|done|]. apply Hp; [set_solver|left].
Qed.

Lemma action_worker j c w p w' p' y T R : action scalar quoted j c w p = Some (w', p', Some y) -> wp good T R p -> worker_ok T y.
Proof.
  intros E Hp. destruct p as [a|m k|m k|k|i k|i b k|i k|s k|i v t d q r k|i v t d r e k|f o k|i q k|kd f k|x k|i k|i k]; cbn in E, Hp; repeat case_match; simplify_eq.
  - done.
  - apply Hp.
Qed.

Lemma concat_at (Rs : list (list Right)) n R : Rs !! n = Some R ->
  exists C, concat Rs ≡ₚ R ++ C /\ forall R', concat (<[n := R']> Rs) ≡ₚ R' ++ C.
Proof.
  revert n. induction Rs as [|R0 Rs IH]; intros [|n] E; try done; cbn in E.
  - injection E as ->. by exists (concat Rs).
  - destruct (IH n E) as (C & H1 & H2). exists (R0 ++ C). cbn. split; [rewrite H1|intros R'; cbn; rewrite H2]; apply Permutation_app_swap_app.
Qed.

Record safe (s : State) (T : list Fact) (Rs : list (list Right)) : Prop := {
  sf_sound : sound (world s) T;
  sf_pool : Forall2 (fun R p => wp good T R p) Rs (pool s);
  sf_rights : concat Rs ++ dead_rights T ++ w_launched (world s) ⊆+ all_rights (w_handles (world s));
}.

Abbreviation step := (step scalar quoted data_of web_of execution_value substrate_value).
Abbreviation run := (run scalar quoted data_of web_of execution_value substrate_value).

Lemma pool_facts T T' Rs ps : T ⊆ T' -> Forall2 (fun R p => wp good T R p) Rs ps -> Forall2 (fun R p => wp good T' R p) Rs ps.
Proof. intros HT Hf. eapply Forall2_impl; [exact Hf|]. intros R p. apply prog_facts; [|done]. intros. by eapply good_mono. Qed.

Lemma step_safe s e T Rs : safe s T Rs -> exists T' Rs', safe (step s e) T' Rs'.
Proof.
  intros [Hs Hp Hr]. destruct e as [r|n c|j].
  - exists T, (Rs ++ [[]]). constructor; cbn; [done| |].
    + apply Forall2_app; [done|]. constructor; [apply fine_handle|constructor].
    + rewrite concat_app. cbn. by rewrite app_nil_r.
  - cbn. destruct (pool s !! n) as [p|] eqn:Ep; [|by exists T, Rs]. destruct (action _ _ _ _ _ _) as [[[w p'] x]|] eqn:Ea; [|by exists T, Rs].
    destruct (Forall2_lookup_r _ _ _ _ _ Hp Ep) as (R & ER & Hw).
    destruct (action_advances _ _ _ _ _ _ _ _ _ Ea Hs Hw) as (T' & R' & HT & Hs' & Hw' & (G & Hg & Hm)).
    destruct (concat_at _ _ _ ER) as (C & HC & HC').
    exists T', (<[n := R']> Rs ++ match x with Some _ => [[]] | None => [] end). constructor; cbn; [done| |].
    + apply Forall2_app; [apply Forall2_insert; [by eapply pool_facts|done]|]. destruct x as [y|]; constructor; [|constructor]. apply fine_work. eapply worker_ok_mono; [exact HT|]. by eapply action_worker.
    + rewrite concat_app. replace (concat (match x with Some _ => [[]] | None => [] end)) with (@nil Right) by (by destruct x).
      rewrite app_nil_r, HC', Hg. transitivity (G ++ concat Rs ++ dead_rights T ++ w_launched (world s)); [|by apply submseteq_app].
      rewrite HC. apply Permutation_submseteq. rewrite (Permutation_app_comm R' C), <- app_assoc, Hm.
      rewrite (Permutation_app_comm R C), <- app_assoc. apply Permutation_app_swap_app.
  - exists T, []. constructor; cbn; [by eapply sound_same; [..|exact Hs]|constructor|].
    etrans; [|exact Hr]. by apply submseteq_inserts_l.
Qed.

Lemma run_safe l : forall s T Rs, safe s T Rs -> exists T' Rs', safe (run s l) T' Rs'.
Proof. induction l as [|e l IH]; intros s T Rs H; [by exists T, Rs|]. destruct (step_safe s e T Rs H) as (T' & Rs' & H'). by eapply IH. Qed.
Lemma start_safe j d : safe (start j d) [] [].
Proof. constructor; [|constructor|done]. constructor; try done; [intros e; cbn; rewrite !elem_of_nil; done|intros i r Hd; by apply elem_of_nil in Hd|apply AdmissionLaws.start_inv|intros i b Hk; by apply elem_of_nil in Hk|intros e i r Hc; by apply elem_of_nil in Hc]. Qed.

(** A record that is there stays, whole or not. *)
Lemma action_keeps j c w p w' p' x i b : action scalar quoted j c w p = Some (w', p', x) -> w_prepared w !! i = Some b -> w_prepared w' !! i = Some b.
Proof.
  intros E Hi. destruct p; cbn in E; repeat case_match; simplify_eq; cbn; try done;
    (rewrite lookup_insert_ne; [done|]; intros ->; match goal with H : _ || _ = false |- _ => by rewrite Hi in H end).
Qed.
Lemma scoped_step_keeps s e i b : w_prepared (world s) !! i = Some b -> w_prepared (world (step s e)) !! i = Some b.
Proof.
  intros Hi. destruct e as [r|n c|j]; cbn; [done| |done]. destruct (pool s !! n); [|done]. destruct (action _ _ _ _ _ _) as [[[w p'] x]|] eqn:E; [|done].
  by eapply action_keeps.
Qed.

(** What the record of a run says of a confirmed cleanup. *)
Definition record_of (w : World) (i : string) (p : PreparedRecord) : Prop :=
  exists b, w_prepared w !! i = Some b /\ decode_prepared scalar quoted data_of web_of i b = Some p.
Definition evidence (w : World) (i : string) : Prop :=
  (exists row, Accessed i row ∈ w_trace w /\ Admission.outcome row = Some Admission.NeverStarted) \/
  (exists p parent principal, record_of w i p /\ its_parent p parent principal /\
    (Asked i (Fence parent principal) (Ok true) ∈ w_trace w \/ Asked i (Teardown parent principal) (Ok true) ∈ w_trace w \/
     exists b, Asked i (Stop principal parent) (Ok b) ∈ w_trace w)) \/
  (exists l, Ended i l ∈ w_trace w /\ l_outcome l <> None) \/
  (exists p turn r, record_of w i p /\ local_turn_id p = Ok turn /\ Returned i r ∈ w_trace w /\ (turn_result r turn false).2 = true) \/
  (exists row, Claimed i row ∈ w_trace w /\ (KRun, row) ∉ w_launched w /\
    ((KParent, row) ∉ w_launched w \/ exists s, Unstored s ∈ w_trace w /\ first_status i s)).

Lemma rights_once rows : NoDup (Admission.scope <$> rows) -> NoDup ((fun x : Right => (x.1, Admission.scope x.2)) <$> all_rights rows).
Proof.
  induction rows as [|r rows IH]; intros Hn; [constructor|]. cbn in Hn. apply NoDup_cons in Hn as [Hr Hn]. unfold all_rights. cbn.
  assert (Ha : forall k, (k, Admission.scope r) ∉ (fun x : Right => (x.1, Admission.scope x.2)) <$> all_rights rows).
  { intros k Hk. apply list_elem_of_fmap in Hk as ([k' r'] & [= -> E] & Hin). apply Hr. apply list_elem_of_fmap. exists r'. split; [done|].
    unfold all_rights in Hin. apply list_elem_of_In, in_concat in Hin as (l & Hl & Hin). apply in_map_iff in Hl as (r2 & <- & Hr2).
    apply list_elem_of_In in Hr2. by destruct Hin as [[= _ <-]|[[= _ <-]|[]]]. }
  apply NoDup_cons. split.
  - intros Hin. apply elem_of_cons in Hin as [|Hin]; [done|]. by eapply Ha.
  - apply NoDup_cons. split; [apply Ha|by apply IH].
Qed.
Lemma safe_once s T Rs : safe s T Rs -> NoDup ((fun x : Right => (x.1, Admission.scope x.2)) <$> dead_rights T ++ w_launched (world s)).
Proof.
  intros [Hs _ Hr]. pose proof (rights_once _ (AdmissionLaws.in_once _ _ (so_rows _ _ Hs))) as Hn.
  assert (Hsub : dead_rights T ++ w_launched (world s) ⊆+ all_rights (w_handles (world s))) by (etrans; [|exact Hr]; by apply submseteq_inserts_l).
  apply (fmap_submseteq (fun x : Right => (x.1, Admission.scope x.2))) in Hsub. destruct (submseteq_Permutation _ _ Hsub) as [k Hk]. rewrite Hk in Hn.
  by apply NoDup_app in Hn as (? & _).
Qed.

Lemma safe_unlaunched s T Rs i x : safe s T Rs -> Dead i x ∈ T -> x ∉ w_launched (world s).
Proof.
  intros Hs Hd Hin. pose proof (safe_once _ _ _ Hs) as Hn. rewrite fmap_app in Hn. apply NoDup_app in Hn as (_ & Hn & _).
  apply (Hn (x.1, Admission.scope x.2)); apply list_elem_of_fmap; exists x; split; try done. apply list_elem_of_omap. by exists (Dead i x).
Qed.
Lemma safe_kept s T Rs p i : safe s T Rs -> kept T p -> id p = i -> record_of (world s) i p.
Proof. intros Hs (b & Hb & Hd) <-. exists b. split; [by apply (so_kept _ _ (sf_sound _ _ _ Hs))|done]. Qed.

Lemma safe_evidence s T Rs i : safe s T Rs -> confirmed_by T i -> evidence (world s) i.
Proof.
  intros Hs Hc. pose proof (so_trace _ _ (sf_sound _ _ _ Hs)) as Ht. unfold evidence. destruct Hc as [(e & He & Hw)|(r & Hr & Hp)].
  - apply Ht in He. destruct e as [i' q a|i' r|i' r|i' l|i' r|s']; cbn in Hw; try done.
    + destruct q; try done; destruct a as [[]|]; try done; destruct Hw as (-> & p & Hi & Hk & Hp); right; left; eexists p, _, _;
        (split; [by eapply safe_kept|]); (split; [exact Hp|]); eauto.
    + destruct Hw as [-> ?]. left. eauto.
    + destruct Hw as [-> ?]. do 2 right. left. eauto.
    + destruct Hw as (-> & p & turn & Hi & Hk & Hturn & Hr). do 3 right. left. exists p, turn, r. split; [by eapply safe_kept|done].
  - do 4 right. exists r. split; [apply Ht; exact (so_dead _ _ (sf_sound _ _ _ Hs) _ _ Hr)|]. split; [by eapply safe_unlaunched|].
    destruct Hp as [Hp|(s' & Hs' & Hf)]; [left; by eapply safe_unlaunched|right]. exists s'. split; [by apply Ht|done].
Qed.

(** C9: A confirmed cleanup rests on evidence, what is launched was enrolled, and nothing is
    launched twice. Whatever requests reach the receiver, in whatever order its handlers and
    workers act, whatever calls fail, whatever the rest of the dispatcher answers and however
    often it is restarted: each claim launches at most one parent and at most one cell or
    turn; the rows of claims and of accesses are about the decision and the request of the
    operation's enrolled record, which is never replaced and which every answer to a
    preparation names; and whenever a stored status or an answer of 200 says that a cleanup is
    confirmed, then for that very operation either the journal's row said that it never
    started; or the parent that its record names, under the record's principal, was fenced,
    torn down or stopped; or its worker has seen the launch end; or its worker has seen the
    result of the very turn of its record; or it was claimed and that claim has launched no
    cell and no turn, and no parent either - unless the first status of the turn, which the
    code writes once the parent is there, could not be stored: then the parent may run. *)
Theorem scoped_evidence (j : Admission.Journal) (d : Admission.Disk) (l : list Event_) :
  let s := run (start j d) l in
  NoDup ((fun x => (x.1, Admission.scope x.2)) <$> w_launched (world s)) /\
  (forall x, x ∈ w_launched (world s) -> x.2 ∈ w_handles (world s)) /\
  (forall e i row, e ∈ w_trace (world s) -> row_of e = Some (i, row) -> enrolled (world s) i row) /\
  (forall i b e, w_prepared (world s) !! i = Some b -> w_prepared (world (step s e)) !! i = Some b) /\
  (forall code i o, Ret (Answer code (BPrepared i o)) ∈ pool s ->
     exists b r, w_prepared (world s) !! i = Some b /\ from_slice b = Some r /\ id r = i /\ owner r = o) /\
  (forall i st, w_status (world s) !! i = Some st -> s_id st = i /\ (s_cleanup_confirmed st = true -> evidence (world s) i)) /\
  (forall st, Ret (Answer 200 (BStatus st)) ∈ pool s -> s_cleanup_confirmed st = true /\ evidence (world s) (s_id st)).
Proof.
  cbv zeta. destruct (run_safe l _ _ _ (start_safe j d)) as (T & Rs & Hs). set (s := run (start j d) l) in *. clearbody s.
  pose proof (safe_once _ _ _ Hs) as Hn. rewrite fmap_app in Hn. apply NoDup_app in Hn as (_ & _ & Hn). split; [done|]. split; [|split; [|split; [|split; [|split]]]].
  - intros x Hx. assert (Hin : x ∈ all_rights (w_handles (world s))).
    { eapply elem_of_submseteq; [|apply (sf_rights _ _ _ Hs)]. apply elem_of_app. right. apply elem_of_app. by right. }
    unfold all_rights in Hin. apply list_elem_of_In, in_concat in Hin as (k & Hk & Hin). apply in_map_iff in Hk as (r & <- & Hr).
    apply list_elem_of_In in Hr. by destruct Hin as [<-|[<-|[]]].
  - apply (so_claims _ _ (sf_sound _ _ _ Hs)).
  - intros i b e. apply scoped_step_keeps.
  - intros code i o Hin. apply list_elem_of_lookup in Hin as [n Hn']. destruct (Forall2_lookup_r _ _ _ _ _ (sf_pool _ _ _ Hs) Hn') as (R & _ & b & r & Hb & Hr).
    exists b, r. split; [by apply (so_kept _ _ (sf_sound _ _ _ Hs))|done].
  - intros i st Hi. destruct (so_status _ _ (sf_sound _ _ _ Hs) i st Hi) as [Hid Hb]. split; [done|]. intros Hc. specialize (Hb Hc).
    rewrite Hid in Hb. by eapply safe_evidence.
  - intros st Hin. apply list_elem_of_lookup in Hin as [n Hn']. destruct (Forall2_lookup_r _ _ _ _ _ (sf_pool _ _ _ Hs) Hn') as (R & _ & Hw).
    destruct (Hw eq_refl) as [Hc Hb]. split; [done|]. eapply safe_evidence; [exact Hs|by apply Hb].
Qed.
End runs.
End logic.
