(* ===== verification/ModelRelay.v ===== *)
(** * Model invocations through the gateway ([tenancy_model_context.rs], [tenancy_model_relay.rs])

    The custody of an operation's model credential, bounded by its control, and the
    requests that the relay makes of the operator's gateway with it: what it sends to curl,
    and what it lets back. The URL parser and curl answer as they like. *)

From S2P Require Import Prelude Text Json Manifest.
From S2P Require Contract Credentials Control Harness Closure.

Definition EXPIRED : string := "AUTH_WORK_DEADLINE_EXPIRED".
Definition UNSUPPORTED : string := "AUTH_PROTOCOL_UNSUPPORTED".
Definition MALFORMED : string := "AUTH_CRED_MALFORMED".

(** [FetchDenied] of a relay: its budget, or [refused()]. *)
Inductive Denied : Type := Budget | Refused.

(** ** The credential *)

Record Context : Type := mkContext { decision : bytes; bearer : option string; control : nat }.
Definition drop_bearer (c : Context) : Context := mkContext (decision c) None (control c).

(** The depth of a value: a scalar has none. *)
Fixpoint depth (v : Value) : Z :=
  match v with
  | VArray l => 1 + foldr (fun x n => Z.max (depth x) n) 0 l
  | VObject o => 1 + foldr (fun kv n => Z.max (depth kv.2) n) 0 o
  | _ => 0
  end.

Section context.
Context (scalar : Value -> option bytes) (quoted : string -> option bytes).
Context `{JsonText} `{Contract.Sha256} `{Json Value} `{Closure.Ed25519} `{Credentials.Formats}.

Definition canonical_model_request (raw : bytes) : result string (bytes * string) :=
  body ← map_err (fun _ => UNSUPPORTED) (Contract.canonical scalar quoted raw);
  value ← ok_or (from_slice body) UNSUPPORTED;
  _ ← ensure (depth value <=? 64) UNSUPPORTED;
  Ok (body, Contract.digest body).

(** The receiver that expects the model's credential. *)
Definition model_receiver (c : Credentials.Receiver) : Credentials.Receiver :=
  Credentials.mkReceiver (Credentials.now c) "sympozium-model-gateway" "model.invoke" (Credentials.cluster_id c) (Credentials.namespace c)
    (Credentials.namespace_uid c) (Credentials.run_uid c) (Credentials.run_spec_sha256 c) (Credentials.parent c) (Credentials.request_digest c)
    (Credentials.route c) (Credentials.budget_id c) (Credentials.seen_admission_jti c).

(** The seconds that the credential and the work have left. *)
Definition remaining_of (model_token : string) (d : bytes) (now : Z) : result string Z :=
  payload ← ok_or (split_char "." model_token !! 1%nat) MALFORMED;
  payload ← ok_or (Credentials.url_safe_decode payload) MALFORMED;
  claims ← ok_or (from_slice payload) MALFORMED;
  d ← ok_or (from_slice d) MALFORMED;
  expiry ← ok_or (value_i64 (vget "exp" claims)) MALFORMED;
  work ← ok_or (value_i64 (vget "turnDeadlineUnix" (vget "budget" d))) MALFORMED;
  let remaining := Z.min expiry work - now in
  if (remaining <=? 0) || (u64_max <? remaining) then Err EXPIRED else Ok remaining.

(** What both credentials are checked for. *)
Definition both_verified (v : Credentials.Verifier) (execution_token model_token : string) (d : bytes) (c : Credentials.Receiver) : result string Z :=
  _ ← ensure (bool_decide (Credentials.expected_operation c ∈ ["execution.start"; "execution.turn"]%string)) "AUTH_OPERATION_MISMATCH";
  replay ← Credentials.verify scalar quoted v execution_token d c;
  _ ← ensure (negb (is_Some_bool replay)) "AUTH_CONTEXT_LOST";
  _ ← Credentials.verify scalar quoted v model_token d (model_receiver c);
  remaining_of model_token d (Credentials.now c).

(** [ModelContext::admit]. *)
Definition admit_context (v : Credentials.Verifier) (execution_token model_token : string) (d : bytes) (c : Credentials.Receiver)
    (parent : nat) (w : Control.World) : result string Context * Control.World :=
  match both_verified v execution_token model_token d c with
  | Err e => (Err e, w)
  | Ok remaining =>
      match Control.child w parent (remaining * nanos_per_sec) with
      | (None, w) => (Err "AUTH_WINDOW_INVALID", w)
      | (Some child, w) =>
          match Control.check w child with
          | (Err _, w) => (Err EXPIRED, w)
          | (Ok _, w) =>
              (b ← map_err (fun _ => MALFORMED) (Contract.canonical scalar quoted d); Ok (mkContext b (Some model_token) child), w)
          end
      end
  end.
End context.

(** [with_bearer]: the credential that may be used now. *)
Definition with_bearer (c : Context) (w : Control.World) : result string string * Context * Control.World :=
  match Control.check w (control c) with
  | (Err _, w) => (Err EXPIRED, drop_bearer c, w)
  | (Ok _, w) => (ok_or (bearer c) "AUTH_CONTEXT_LOST"%string, c, w)
  end.
Definition close (c : Context) (w : Control.World) : Context * Control.World := (drop_bearer c, Control.cancel w (control c)).

(** ** The gateway *)

(** A URL, as its parser sees it. *)
Record Url : Type := mkUrl {
  scheme : string; host : option string; username : string; password : option string; path : string;
  query : option string; fragment : option string;
}.
Record GatewayEndpoint : Type := mkEndpoint { url : string; ca : option string }.

Definition ascii_whitespace (b : byte) : bool := bool_decide (b ∈ [x20; x09; x0a; x0c; x0d]).
Definition gateway_endpoint (parse : string -> option Url) (join : string -> string -> option string) (origin : string) (ca : option string) :
    result Denied GatewayEndpoint :=
  u ← ok_or (parse origin) Refused;
  _ ← ensure (negb (existsb ascii_whitespace (as_bytes origin) || negb (String.eqb (scheme u) "https") || negb (is_Some_bool (host u))
                    || negb (str_is_empty (username u)) || is_Some_bool (password u) || negb (String.eqb (path u) "/")
                    || is_Some_bool (query u) || is_Some_bool (fragment u))) Refused;
  url ← ok_or (join origin "v1/invoke") Refused;
  Ok (mkEndpoint url ca).

(** ** Curl's configuration *)

Definition newline : ascii := "010".
Definition dquote : ascii := "034".
Definition backslash : ascii := "092".
Definition one (c : ascii) : string := String c EmptyString.
(** [s.replace(c, by)]. *)
Fixpoint replace (c : ascii) (by_ : string) (s : string) : string :=
  match s with
  | EmptyString => EmptyString
  | String a r => ((if Ascii.eqb a c then by_ else one a) ++ replace c by_ r)%string
  end.
Definition quote (value : string) : string :=
  replace "009" (String backslash "t") (replace newline (String backslash "n") (replace "013" (String backslash "r")
    (replace dquote (String backslash (one dquote)) (replace backslash (String backslash (one backslash)) value)))).

Definition bearer_byte (b : byte) : bool := is_alnum b || bool_decide (b ∈ [x2d; x5f; x2e]).
Definition header_line (bearer : string) : string := ("header = " ++ one dquote ++ "Authorization: Bearer " ++ bearer ++ one dquote)%string.
Definition data_line (q : string) : string := ("data-binary = " ++ one dquote ++ q ++ one dquote)%string.
Definition config_of (bearer envelope : string) : string :=
  (header_line bearer ++ one newline ++ data_line (quote envelope) ++ one newline)%string.
Definition arguments (e : GatewayEndpoint) : list string :=
  ["--disable"; "--silent"; "--show-error"; "--globoff"; "--noproxy"; "*"; "--proto"; "=https"; "--max-redirs"; "0"; "--retry"; "0";
   "--request"; "POST"; "--header"; "Content-Type: application/json"; "--max-filesize"; "1048576"; "--config"; "-"; "--write-out";
   String newline ("%{http_code}" ++ String newline "%{content_type}"); "--url"; url e]%string
  ++ match ca e with Some c => ["--cacert"; c]%string | None => [] end.

(** ** Responses *)

(** [s.contains(needle)]. *)
Fixpoint holds (needle s : string) : bool :=
  String.prefix needle s || match s with String _ r => holds needle r | EmptyString => false end.
Fixpoint keys_safe (needle : string) (seen : list string) (ks : list string) : bool :=
  match ks with
  | [] => true
  | k :: ks => negb (holds needle k || bool_decide (k ∈ seen)) && keys_safe needle (k :: seen) ks
  end.
(** The visitor of [validate_response]. *)
Fixpoint scan (needle : string) (r : Raw) : bool :=
  match r with
  | RStr s => negb (holds needle s)
  | RSeq l => forallb (scan needle) l
  | RMap o => keys_safe needle [] (map fst o) && forallb (fun kr => scan needle kr.2) o
  | _ => true
  end.

Section relay.
Context (scalar : Value -> option bytes) (quoted : string -> option bytes).
Context `{JsonText} `{Contract.Sha256} `{Json Value}.

Definition validate_response (raw bearer : string) : result Denied unit :=
  '(r, ended) ← ok_or (read_raw (as_bytes raw)) Refused;
  ensure (scan bearer r && ended) Refused.

(** What curl wrote, whether it succeeded. *)
Definition response_of (success : bool) (stdout : bytes) (bearer : string) : result Denied bytes :=
  _ ← ensure (success && utf8_valid stdout) Refused;
  let text := from_utf8 stdout in
  let '(rest, content_type) := match rsplit_once newline text with Some (h, t) => (Some h, t) | None => (None, text) end in
  _ ← ensure (String.eqb content_type "application/json") Refused;
  rest ← ok_or rest Refused;
  let '(response, status) := match rsplit_once newline rest with Some (h, t) => (Some h, t) | None => (None, rest) end in
  response ← ok_or response Refused;
  if String.eqb status "429" then Err Budget else
  _ ← ensure (String.eqb status "200" && (str_len response <=? 1048576)) Refused;
  _ ← validate_response response bearer;
  value ← ok_or (from_slice (as_bytes response)) Refused;
  _ ← ensure (match value with VObject _ => true | _ => false end) Refused;
  Ok (as_bytes response).

(** What goes to curl: its arguments and its standard input. *)
Record Sent : Type := mkSent { s_args : list string; s_config : string }.
Record Relay : Type := mkRelay { endpoint : GatewayEndpoint; context : Context; sequence : Z; scope : string; sent : list Sent }.

Definition new (e : GatewayEndpoint) (c : Context) : Relay := mkRelay e c 0 (Contract.digest (decision c)) [].

Definition envelope (d : Value) (scope : string) (n : Z) (request : Value) : Value :=
  Harness.jobject [("decision", d); ("requestId", vstr ("celln:" ++ scope ++ ":" ++ pretty.pretty n)%string); ("request", request)].
Definition display (v : Value) : string := from_utf8 (to_vec v).

(** [invoke]; [curl] is how the command ends: no result, or its success and output. *)
Definition invoke (r : Relay) (w : Control.World) (raw : bytes) (curl : option (bool * bytes)) : result Denied bytes * Relay * Control.World :=
  match canonical_model_request scalar quoted raw with
  | Err _ => (Err Refused, r, w)
  | Ok (body, _) =>
      match from_slice body with
      | Some (VObject o) =>
          match from_slice (decision (context r)) with
          | None => (Err Refused, r, w)
          | Some d =>
              if u64_max <? sequence r + 1 then (Err Refused, r, w) else
              let n := sequence r + 1 in
              let text := display (envelope d (scope r) n (VObject o)) in
              let '(b, c, w) := with_bearer (context r) w in
              let r := mkRelay (endpoint r) c n (scope r) (sent r) in
              match b with
              | Err _ => (Err Refused, r, w)
              | Ok bearer =>
                  if negb (all_bytes bearer_byte bearer) then (Err Refused, r, w) else
                  let r := mkRelay (endpoint r) c n (scope r) (sent r ++ [mkSent (arguments (endpoint r)) (config_of bearer text)]) in
                  (match curl with None => Err Refused | Some (success, stdout) => response_of success stdout bearer end, r, w)
              end
          end
      | _ => (Err Refused, r, w)
      end
  end.

(** A relay's life: invocations, its end, and whatever else happens to the controls. *)
Inductive op : Type := OInvoke (raw : bytes) (curl : option (bool * bytes)) | OClose | OControl (o : Control.op).
Definition step (s : Relay * Control.World) (o : op) : Relay * Control.World :=
  match o with
  | OInvoke raw curl => let '(_, r, w) := invoke s.1 s.2 raw curl in (r, w)
  | OClose =>
      let '(c, w) := close (context s.1) s.2 in
      (mkRelay (endpoint s.1) c (sequence s.1) (scope s.1) (sent s.1), w)
  | OControl o => (s.1, Control.step s.2 o)
  end.
Definition run (s : Relay * Control.World) (l : list op) : Relay * Control.World := foldl step s l.
End relay.
