(* ===== verification/ModelRelayLaws.v ===== *)
(** * What the gateway's relay sends and lets back

    The quoting of curl's configuration is undone by reading it back, so the credential's
    header is all that is added to it; requests are numbered, and stop for good with the
    operation's control; no answer holds the credential. *)

From stdpp Require Import sorting.
From S2P Require Import Prelude Text Json Manifest ModelRelay.
From S2P Require Contract Credentials Control Closure.

(** ** Quoting *)

(** A quoted value, read back: escapes are undone, and what would end the value or its
    line is refused. *)
Definition unescape (a : ascii) : option ascii :=
  if Ascii.eqb a backslash then Some backslash else if Ascii.eqb a dquote then Some dquote
  else if Ascii.eqb a "n" then Some newline else if Ascii.eqb a "r" then Some "013"%char else if Ascii.eqb a "t" then Some "009"%char else None.
Definition bare (a : ascii) : bool := negb (existsb (Ascii.eqb a) [backslash; dquote; newline; "013"%char; "009"%char]).
Fixpoint unquote (s : string) : option string :=
  match s with
  | EmptyString => Some EmptyString
  | String a r =>
      if Ascii.eqb a backslash then
        match r with String x r => x ← unescape x; t ← unquote r; Some (String x t) | EmptyString => None end
      else if bare a then String a <$> unquote r else None
  end.

Lemma append_assoc (a b c : string) : (a ++ (b ++ c) = (a ++ b) ++ c)%string.
Proof. induction a as [|x a IH]; [done|]. exact (f_equal (String x) IH). Qed.
Lemma replace_app c by_ a b : replace c by_ (a ++ b) = (replace c by_ a ++ replace c by_ b)%string.
Proof. induction a as [|x a IH]; [done|]. cbn. by rewrite <- append_assoc, <- IH. Qed.
Lemma quote_cons a s : quote (String a s) = (quote (one a) ++ quote s)%string.
Proof. change (String a s) with (one a ++ s)%string. unfold quote. by rewrite !replace_app. Qed.
Lemma has_char_app c a b : has_char c (a ++ b) = has_char c a || has_char c b.
Proof. induction a as [|x a IH]; [done|]. cbn. by rewrite <- orb_assoc, <- IH. Qed.

Lemma unquote_one a s : unquote (quote (one a) ++ s) = String a <$> unquote s.
Proof. destruct a as [[] [] [] [] [] [] [] []]; reflexivity. Qed.
Lemma quote_one_newline a : has_char newline (quote (one a)) = false.
Proof. by destruct a as [[] [] [] [] [] [] [] []]. Qed.

Lemma unquote_quote s : unquote (quote s) = Some s.
Proof. induction s as [|a s IH]; [done|]. rewrite quote_cons, unquote_one, IH. done. Qed.
Lemma quote_newline s : has_char newline (quote s) = false.
Proof. induction s as [|a s IH]; [done|]. by rewrite quote_cons, has_char_app, quote_one_newline. Qed.

Lemma split_char_cons c a r : split_char c (String a r) =
  match split_char c r with
  | h :: t => if Ascii.eqb a c then EmptyString :: h :: t else String a h :: t
  | [] => [EmptyString]
  end.
Proof. done. Qed.
Lemma split_char_some c s : exists h t, split_char c s = h :: t.
Proof.
  induction s as [|a s (h & t & IH)]; [by exists EmptyString, []|]. rewrite split_char_cons, IH. destruct (Ascii.eqb a c); eauto.
Qed.
Lemma split_char_line c s r : has_char c s = false -> split_char c (s ++ String c r) = s :: split_char c r.
Proof.
  induction s as [|a s IH]; intros Hs.
  - change (EmptyString ++ String c r)%string with (String c r). rewrite split_char_cons, Ascii.eqb_refl.
    by destruct (split_char_some c r) as (h & t & ->).
  - apply orb_false_iff in Hs as [Ha Hs]. change (String a s ++ String c r)%string with (String a (s ++ String c r)).
    by rewrite split_char_cons, (IH Hs), Ha.
Qed.
Lemma bearer_newline b : all_bytes bearer_byte b = true -> has_char newline b = false.
Proof.
  unfold all_bytes. induction b as [|a b IH]; [done|]. intros [Ha Hb]%andb_true_iff.
  change (has_char newline (String a b)) with (Ascii.eqb a newline || has_char newline b). rewrite (IH Hb), orb_false_r.
  destruct (Ascii.eqb_spec a newline) as [->|]; [|done]. vm_compute in Ha. done.
Qed.

Lemma config_lines bearer text : all_bytes bearer_byte bearer = true ->
  split_char newline (config_of bearer text) = [header_line bearer; data_line (quote text); EmptyString].
Proof.
  intros Hb. unfold config_of. change (one newline) with (String newline EmptyString).
  assert (Hn : forall s t, (s ++ (String newline EmptyString ++ t) = s ++ String newline t)%string) by done.
  rewrite Hn, split_char_line.
  - change (data_line (quote text) ++ String newline EmptyString)%string with (data_line (quote text) ++ String newline EmptyString)%string.
    rewrite split_char_line; [done|]. unfold data_line. rewrite !has_char_app. by rewrite quote_newline.
  - unfold header_line. rewrite !has_char_app. by rewrite (bearer_newline _ Hb).
Qed.

(** ** Answers *)

(** [s] is a string or a key somewhere in [r]. *)
Inductive spelled (s : string) : Raw -> Prop :=
| spelled_here : spelled s (RStr s)
| spelled_item l r : r ∈ l -> spelled s r -> spelled s (RSeq l)
| spelled_key o r : (s, r) ∈ o -> spelled s (RMap o)
| spelled_field o k r : (k, r) ∈ o -> spelled s r -> spelled s (RMap o).

Lemma keys_safe_holds needle ks : forall seen k, keys_safe needle seen ks = true -> k ∈ ks -> holds needle k = false.
Proof.
  induction ks as [|k' ks IH]; intros seen k Hs Hk; [by apply elem_of_nil in Hk|]. cbn in Hs. apply andb_true_iff in Hs as [Hn Hs].
  apply negb_true_iff, orb_false_iff in Hn as [Hn _]. apply elem_of_cons in Hk as [->|Hk]; [done|by eapply IH].
Qed.
Lemma scan_spelled needle r s : scan needle r = true -> spelled s r -> holds needle s = false.
Proof.
  intros Hs Ho. induction Ho as [|l r Hr Ho IH|o r Hr|o k r Hr Ho IH]; cbn in Hs.
  - by apply negb_true_iff.
  - rewrite forallb_forall in Hs. apply IH, Hs. by apply list_elem_of_In.
  - apply andb_true_iff in Hs as [Hk _]. eapply keys_safe_holds; [done|]. apply list_elem_of_fmap. by exists (s, r).
  - apply andb_true_iff in Hs as [_ Hs]. rewrite forallb_forall in Hs. apply IH, (Hs (k, r)). by apply list_elem_of_In.
Qed.

Lemma prefix_app needle b : String.prefix needle (needle ++ b) = true.
Proof. induction needle as [|x needle IH]; [by destruct b|]. change ((if ascii_dec x x then String.prefix needle (needle ++ b) else false) = true). by destruct (ascii_dec x x). Qed.
Lemma holds_inside a needle b : holds needle (a ++ needle ++ b) = true.
Proof.
  induction a as [|x a IH].
  - pose proof (prefix_app needle b) as Hp. change (EmptyString ++ needle ++ b)%string with (needle ++ b)%string.
    destruct (needle ++ b)%string; cbn [holds]; by rewrite Hp.
  - change (String x a ++ needle ++ b)%string with (String x (a ++ needle ++ b)). cbn [holds]. by rewrite IH, orb_true_r.
Qed.

(** [m] is inside no string and no key of the answer, which is one JSON object. *)
Section laws.
Context {scalar : Value -> option bytes} {quoted : string -> option bytes}.
Context `{JsonText} `{Contract.Sha256} `{Json Value} `{Closure.Ed25519} `{Credentials.Formats}.

Definition harmless (m : string) (b : bytes) : Prop :=
  blen b <= 1048576 /\ (exists o, from_slice b = Some (VObject o)) /\
  exists r, read_raw b = Some (r, true) /\ forall s, spelled s r -> forall x y, s <> (x ++ m ++ y)%string.

Lemma response_of_Ok success stdout m b : response_of success stdout m = Ok b -> harmless m b.
Proof.
  unfold response_of. intros E. apply result_bind_Ok in E as (u & _ & E). destruct (rsplit_once newline _) as [[rest ct]|]; cbv zeta in E;
    apply result_bind_Ok in E as (u1 & _ & E); apply result_bind_Ok in E as (rest' & _ & E); [|].
  all: destruct (rsplit_once newline rest') as [[response status]|]; apply result_bind_Ok in E as (response' & Hr%ok_or_Ok & E); [|done].
  all: injection Hr as <-; destruct (String.eqb status "429"); [done|].
  all: apply result_bind_Ok in E as (u2 & Hl%ensure_Ok & E); apply result_bind_Ok in E as (u3 & Hv & E);
    apply result_bind_Ok in E as (v & Hj%ok_or_Ok & E); apply result_bind_Ok in E as (u4 & Ho%ensure_Ok & [= <-]).
  all: apply andb_true_iff in Hl as [_ Hl]; apply Z.leb_le in Hl; split; [by rewrite str_len_as_bytes|].
  all: split; [destruct v as [| | | | |o]; try done; by exists o|].
  all: unfold validate_response in Hv; apply result_bind_Ok in Hv as ([r ended] & Hr%ok_or_Ok & Hv); apply ensure_Ok, andb_true_iff in Hv as [Hs ->].
  all: exists r; split; [done|]; intros s Hsp x y ->; apply (scan_spelled _ _ _ Hs) in Hsp; by rewrite holds_inside in Hsp.
Qed.

(** One request of the relay: numbered, with the decision of its operation, and the
    credential in the header's line alone. *)
Definition delivered (e : GatewayEndpoint) (c : Context) (m : string) (x : Sent) (n : Z) : Prop :=
  s_args x = arguments e /\ exists d request q,
    from_slice (decision c) = Some d /\ split_char newline (s_config x) = [header_line m; data_line q; EmptyString] /\
    unquote q = Some (display (envelope d (Contract.digest (decision c)) n (VObject request))).

(** The relay of a context. *)
Record kept (e : GatewayEndpoint) (c : Context) (m : string) (s : Relay * Control.World) : Prop := {
  k_wf : Control.wf s.2;
  k_node : is_Some (Control.heap s.2 !! control c);
  k_endpoint : endpoint s.1 = e;
  k_scope : scope s.1 = Contract.digest (decision c);
  k_control : control (context s.1) = control c;
  k_decision : decision (context s.1) = decision c;
  k_bearer : forall b, bearer (context s.1) = Some b -> b = m;
  k_sent : exists ns, StronglySorted Z.lt ns /\ Forall (fun n => 0 < n <= sequence s.1) ns /\ Forall2 (delivered e c m) (sent s.1) ns;
  k_sequence : 0 <= sequence s.1;
}.

(** The credential is gone; or the control is cancelled, itself or by any control above
    it, or its deadline is over. *)
Definition over (s : Relay * Control.World) : Prop :=
  bearer (context s.1) = None \/ Control.stopped s.2 (control (context s.1)).

(** What an invocation does: it is refused before its number, or takes the next one. *)
Inductive invoked (r : Relay) (w : Control.World) : result Denied bytes -> Relay -> Control.World -> Prop :=
| inv_early e : invoked r w (Err e) r w
| inv_unsent e b c w' : with_bearer (context r) w = (b, c, w') ->
    invoked r w (Err e) (mkRelay (endpoint r) c (sequence r + 1) (scope r) (sent r)) w'
| inv_sent a b c w' d request : with_bearer (context r) w = (Ok b, c, w') -> from_slice (decision (context r)) = Some d ->
    all_bytes bearer_byte b = true -> (forall x, a = Ok x -> harmless b x) ->
    invoked r w a (mkRelay (endpoint r) c (sequence r + 1) (scope r)
      (sent r ++ [mkSent (arguments (endpoint r)) (config_of b (display (envelope d (scope r) (sequence r + 1) (VObject request))))])) w'.

Lemma invoke_invoked r w raw curl : let '(a, r', w') := invoke scalar quoted r w raw curl in invoked r w a r' w'.
Proof.
  unfold invoke. destruct (canonical_model_request _ _ _) as [[body dg]|]; [|constructor]. destruct (from_slice body) as [[| | | | |o]|]; try constructor.
  destruct (from_slice (decision (context r))) as [d|] eqn:Ed; [|constructor]. destruct (u64_max <? sequence r + 1); [constructor|]. cbv zeta.
  destruct (with_bearer (context r) w) as [[b c] w'] eqn:Ew. destruct b as [b|e]; [|by econstructor].
  destruct (all_bytes bearer_byte b) eqn:Hb; cbn [negb]; [|by econstructor]. cbn [endpoint sequence scope sent]. eapply inv_sent; [done..|].
  intros x Ex. destruct curl as [[ok out]|]; [|done]. by eapply response_of_Ok.
Qed.

Lemma with_bearer_spec c w r c' w' : Control.wf w -> is_Some (Control.heap w !! control c) -> with_bearer c w = (r, c', w') ->
  Control.wf w' /\ Control.advances w w' /\ control c' = control c /\ decision c' = decision c /\
  (bearer c' = bearer c \/ bearer c' = None) /\
  forall b, r = Ok b -> bearer c = Some b /\ ~ Control.stopped w (control c).
Proof.
  intros Hw Hn. unfold with_bearer. pose proof (Control.reason_not_stopped w (control c) Hw Hn) as Hns.
  destruct (Control.check w (control c)) as [x w1] eqn:E.
  destruct (Control.check_spec _ _ _ _ Hw Hn E) as (Hw1 & Ha & _ & _). unfold Control.check in E.
  destruct (Control.reason w (control c)) as [[st|] w2]; injection E as <- <-; intros [= <- <- <-]; [|].
  2: { split_and!; try done; [by left|]. intros b Hb%ok_or_Ok. split; [done|by apply Hns]. }
  - split_and!; try done. by right.
Qed.

Lemma over_sends_nothing e c m s o : kept e c m s -> over s -> over (step scalar quoted s o) /\ sent (step scalar quoted s o).1 = sent s.1.
Proof.
  intros Hk Ho. destruct s as [r w]. destruct o as [raw curl| |o]; cbn [step fst snd].
  - pose proof (invoke_invoked r w raw curl) as Hi. destruct (invoke _ _ r w raw curl) as [[a r'] w']. cbn [fst snd].
    assert (Hn : is_Some (Control.heap w !! control (context r))) by (rewrite (k_control _ _ _ _ Hk : control (context r) = _); apply (k_node _ _ _ _ Hk)).
    destruct Hi as [e'|e' b c' w' Hb|a b c' w' d request Hb _ _ _]; [done|..];
      destruct (with_bearer_spec _ _ _ _ _ (k_wf _ _ _ _ Hk) Hn Hb) as (Hw' & Ha & Hc & _ & Hbr & Hl).
    + split; [|done]. unfold over in *. cbn [context fst snd] in *. rewrite Hc. destruct Ho as [Ho|Ho].
      * left. destruct Hbr as [->|]; done.
      * right. exact (Control.stopped_stays w w' _ (k_wf _ _ _ _ Hk) Hw' Ha Hn Ho).
    + destruct (Hl b eq_refl) as [Hs Hr]. by destruct Ho; cbn in *; [congruence|].
  - by split; [left|].
  - destruct (Control.step_sound w o (k_wf _ _ _ _ Hk)) as [Hw' Ha]. split; [|done]. destruct Ho as [Ho|Ho]; [by left|right].
    eapply (Control.stopped_stays w); [apply (k_wf _ _ _ _ Hk)|done|done| |done]. cbn.
    rewrite (k_control _ _ _ _ Hk : control (context r) = _). apply (k_node _ _ _ _ Hk).
Qed.

Lemma kept_step e c m s o : kept e c m s -> kept e c m (step scalar quoted s o).
Proof.
  intros Hk. pose proof Hk as [Hw Hn He Hs Hc Hd Hb (ns & Hso & Hall & Hf) Hq]. destruct s as [r w]. cbn [fst snd] in *.
  assert (Hn' : forall w', Control.advances w w' -> is_Some (Control.heap w' !! control c)) by (intros; by eapply Control.advances_heap).
  destruct o as [raw curl| |o]; cbn [step fst snd].
  - pose proof (invoke_invoked r w raw curl) as Hi. destruct (invoke _ _ r w raw curl) as [[a r'] w'].
    assert (Hall' : Forall (fun n => 0 < n <= sequence r + 1) ns) by (eapply Forall_impl; [exact Hall|]; intros; cbn in *; lia).
    rewrite <- Hc in Hn. destruct Hi as [e'|e' b c' w' E|a b c' w' d request E Ed Hbb _]; [done|..];
      destruct (with_bearer_spec _ _ _ _ _ Hw Hn E) as (Hw' & Ha & Hc' & Hd' & Hbr & Hl).
    + split; cbn [fst snd endpoint scope context sent sequence]; [done|by apply Hn'|done|done|congruence|congruence|..|lia].
      * intros x Hx. apply Hb. destruct Hbr; congruence.
      * by exists ns.
    + split; cbn [fst snd endpoint scope context sent sequence]; [done|by apply Hn'|done|done|congruence|congruence|..|lia].
      * intros x Hx. apply Hb. destruct Hbr; congruence.
      * destruct (Hl b eq_refl) as [Hm _]. apply Hb in Hm as ->. exists (ns ++ [sequence r + 1]). split.
        { apply StronglySorted_app_2; [|done|by repeat constructor]. intros x1 x2 Hx1 ->%list_elem_of_singleton. rewrite Forall_forall in Hall. apply Hall in Hx1. lia. }
        split; [apply Forall_app; split; [done|repeat constructor; lia]|]. apply Forall2_app; [done|]. constructor; [|constructor].
        split; [by rewrite He|]. exists d, request, (quote (display (envelope d (scope r) (sequence r + 1) (VObject request)))).
        split; [by rewrite <- Hd|]. split; [by apply config_lines|]. rewrite unquote_quote. by rewrite Hs.
  - split; cbn [fst snd endpoint scope context sent sequence close]; try done; [by apply Control.cancel_wf|apply Hn', Control.cancel_advances|by exists ns].
  - destruct (Control.step_sound w o Hw) as [Hw' Ha]. split; cbn [fst snd]; try done; [by apply Hn'|by exists ns].
Qed.

Lemma step_advances e c m s o : kept e c m s -> Control.advances s.2 (step scalar quoted s o).2.
Proof.
  intros Hk. pose proof (k_wf _ _ _ _ Hk) as Hw. pose proof (k_node _ _ _ _ Hk) as Hn. rewrite <- (k_control _ _ _ _ Hk) in Hn.
  destruct s as [r w]. cbn [fst snd] in *. destruct o as [raw curl| |o]; cbn [step fst snd].
  - pose proof (invoke_invoked r w raw curl) as Hi. destruct (invoke _ _ r w raw curl) as [[a r'] w']. cbn [snd].
    destruct Hi as [e'|e' b c' w' Hb|a b c' w' d request Hb _ _ _]; [apply Control.advances_refl|..];
      destruct (with_bearer_spec _ _ _ _ _ Hw Hn Hb) as (_ & Ha & _); exact Ha.
  - apply Control.cancel_advances.
  - by destruct (Control.step_sound w o Hw).
Qed.

Lemma chain_step e c m s o : kept e c m s -> Control.chain (step scalar quoted s o).2 (control c) = Control.chain s.2 (control c).
Proof.
  intros Hk. apply Control.chain_advances; [apply (k_wf _ _ _ _ Hk)| |by eapply step_advances|apply (k_node _ _ _ _ Hk)].
  by apply (k_wf _ _ _ _ (kept_step _ _ _ _ _ Hk)).
Qed.

Lemma child_spec w p d k w' : Control.child w p d = (Some k, w') -> exists i j, Control.heap w !! p = Some i /\
  Control.heap w' !! k = Some j /\ Control.parent j = Some p /\ Control.deadline j <= Control.deadline i /\ Control.deadline j <= Control.now w' + d.
Proof.
  unfold Control.child. destruct (Control.read_clock w) as [t w1] eqn:E. apply Control.read_clock_spec in E as (-> & Hh & _). rewrite Hh.
  destruct (instant_checked_add (Control.now w1) d) as [dl|] eqn:Ed; [|done]. destruct (Control.heap w !! p) as [i|] eqn:Ei; [|done]. intros [= <- <-].
  apply instant_checked_add_Some in Ed as [-> _]. exists i. eexists. split; [done|]. cbn.
  rewrite lookup_app_r, Nat.sub_diag by lia. split; [done|]. cbn. split; [done|]. lia.
Qed.

(** The execution's permit and the model's, both for this decision: the one verified as the
    receiver expects it and not seen before, the other for a model invocation of the same
    run at the gateway; [n] seconds are left of the credential and of the work. *)
Record permitted (v : Credentials.Verifier) (x m : string) (d : bytes) (c : Credentials.Receiver) (n : Z) : Prop := {
  pm_operation : Credentials.expected_operation c = "execution.start" \/ Credentials.expected_operation c = "execution.turn";
  pm_execution : Credentials.verify scalar quoted v x d c = Ok None;
  pm_model : exists replay, Credentials.verify scalar quoted v m d
    (Credentials.mkReceiver (Credentials.now c) "sympozium-model-gateway" "model.invoke" (Credentials.cluster_id c) (Credentials.namespace c)
      (Credentials.namespace_uid c) (Credentials.run_uid c) (Credentials.run_spec_sha256 c) (Credentials.parent c) (Credentials.request_digest c)
      (Credentials.route c) (Credentials.budget_id c) (Credentials.seen_admission_jti c)) = Ok replay;
  pm_left : exists part payload claims dv expiry work, split_char "." m !! 1%nat = Some part /\
    Credentials.url_safe_decode part = Some payload /\ from_slice payload = Some claims /\ from_slice d = Some dv /\
    value_i64 (vget "exp" claims) = Some expiry /\ value_i64 (vget "turnDeadlineUnix" (vget "budget" dv)) = Some work /\
    n = Z.min expiry work - Credentials.now c /\ 0 < n;
}.

Lemma remaining_of_Ok m d now n : remaining_of m d now = Ok n ->
  exists part payload claims dv expiry work, split_char "." m !! 1%nat = Some part /\
    Credentials.url_safe_decode part = Some payload /\ from_slice payload = Some claims /\ from_slice d = Some dv /\
    value_i64 (vget "exp" claims) = Some expiry /\ value_i64 (vget "turnDeadlineUnix" (vget "budget" dv)) = Some work /\
    n = Z.min expiry work - now /\ 0 < n.
Proof.
  unfold remaining_of. intros E. apply result_bind_Ok in E as (part & ?%ok_or_Ok & E). apply result_bind_Ok in E as (payload & ?%ok_or_Ok & E).
  apply result_bind_Ok in E as (claims & ?%ok_or_Ok & E). apply result_bind_Ok in E as (dv & ?%ok_or_Ok & E).
  apply result_bind_Ok in E as (expiry & ?%ok_or_Ok & E). apply result_bind_Ok in E as (work & ?%ok_or_Ok & E). cbv zeta in E.
  destruct ((_ <=? 0) || _) eqn:Eb; [done|]. apply orb_false_iff in Eb as [Eb%Z.leb_gt _]. injection E as <-.
  exists part, payload, claims, dv, expiry, work. split_and!; try done; lia.
Qed.

Lemma both_verified_Ok v x m d c n : both_verified scalar quoted v x m d c = Ok n -> permitted v x m d c n.
Proof.
  unfold both_verified. intros E. apply result_bind_Ok in E as (u & Ho%ensure_Ok%bool_decide_eq_true & E). apply result_bind_Ok in E as (r & Hx & E).
  apply result_bind_Ok in E as (u1 & Hr%ensure_Ok & E). apply result_bind_Ok in E as (y & Hm & E). destruct r; [done|].
  split; [|done|by exists y|by apply remaining_of_Ok]. apply elem_of_cons in Ho as [->|Ho%list_elem_of_singleton]; [by left|by right].
Qed.

(** An admitted context: what it was admitted for, and how long its control lasts. *)
Lemma admit_context_Ok v x m d c p w ctx w' : Control.wf w -> admit_context scalar quoted v x m d c p w = (Ok ctx, w') ->
  exists n i j, permitted v x m d c n /\ Contract.canonical scalar quoted d = Ok (decision ctx) /\ bearer ctx = Some m /\
    Control.wf w' /\ Control.heap w !! p = Some i /\ Control.heap w' !! control ctx = Some j /\ Control.parent j = Some p /\
    Control.deadline j <= Control.deadline i /\ Control.deadline j <= Control.now w' + n * nanos_per_sec.
Proof.
  intros Hw. unfold admit_context. destruct (both_verified _ _ _ _ _ _ _) as [n|] eqn:Hb; [|done].
  pose proof (Control.child_wf w p (n * nanos_per_sec) Hw) as Hw1.
  destruct (Control.child w p (n * nanos_per_sec)) as [[k|] w1] eqn:Ec; [|done]. destruct (child_spec _ _ _ _ _ Ec) as (i & j & Hi & Hj & Hp & Hd1 & Hd2).
  destruct (Control.check w1 k) as [y w2] eqn:Ek. destruct (Control.check_spec _ _ _ _ Hw1 (ex_intro _ j Hj) Ek) as (Hw2 & [Hn Ha] & _).
  destruct y; [|done]. destruct (map_err _ _) as [b|] eqn:Em; [|done]. intros [= <- <-]. apply map_err_Ok in Em.
  destruct (Ha _ _ Hj) as (j' & Hj' & Hle). exists n, i, j'. cbn. destruct Hle as (Hdl & Hpl & _). rewrite Hdl, Hpl. cbn in Hn. split_and!; try done; [by apply both_verified_Ok|lia].
Qed.

(** C20: The custody of a model credential. Whatever an operation's relay is asked, however
    curl ends, whenever the relay is closed and whatever happens to the controls of the
    receiver: the context was admitted with both permits verified for its decision - the
    execution's, unseen, and the model's, for an invocation by the same run - and its
    control lasts no longer than the parent's, the credential and the work; what curl is
    given are fixed arguments and two lines - the credential in its header, and a quoted
    request, which is read back as the numbered envelope of the operation's own decision -
    whose numbers increase, also when an answer is lost; nothing is sent, ever after, once the
    deadline is over, the control or one above it is cancelled - as by the parent's
    receiver - or the relay is closed; and an answer that goes back is one JSON
    object within its bound, no string and no key of which holds the credential. *)
Theorem relay_custody (v : Credentials.Verifier) (x m : string) (d : bytes) (c : Credentials.Receiver) (p : nat)
    (t : Z) (ticks : list N) (before : list Control.op) (ctx : Context) (w : Control.World) (e : GatewayEndpoint) (ops : list op) :
  let w0 := Control.run before (Control.init t ticks) in
  admit_context scalar quoted v x m d c p w0 = (Ok ctx, w) ->
  let s := run scalar quoted (new e ctx, w) ops in
  (exists n i j, permitted v x m d c n /\ Contract.canonical scalar quoted d = Ok (decision ctx) /\
     Control.heap w0 !! p = Some i /\ Control.heap w !! control ctx = Some j /\ Control.parent j = Some p /\
     Control.deadline j <= Control.deadline i /\ Control.deadline j <= Control.now w + n * nanos_per_sec) /\
  (exists ns, StronglySorted Z.lt ns /\ Forall (fun n => 0 < n <= sequence s.1) ns /\ Forall2 (delivered e ctx m) (sent s.1) ns) /\
  (over s -> forall more, sent (run scalar quoted s more).1 = sent s.1) /\
  over (step scalar quoted s OClose) /\ over (step scalar quoted s (OControl (Control.OCancel p))) /\
  (forall raw curl a r w', invoke scalar quoted s.1 s.2 raw curl = (a, r, w') ->
     (sent r <> sent s.1 -> ~ over s) /\ (forall b, a = Ok b -> harmless m b)).
Proof.
  intros w0 E s. destruct (Control.run_sound before (Control.init t ticks) (Control.init_wf t ticks)) as [Hw0 _]. fold w0 in Hw0.
  destruct (admit_context_Ok _ _ _ _ _ _ _ _ _ Hw0 E) as (n & i & j & Hv & Hc & Hb & Hw & Hi & Hj & Hp & Hd1 & Hd2).
  assert (H0' : kept e ctx m (new e ctx, w)).
  { split; cbn; try done; [intros b; congruence|exists []; split_and!; constructor]. }
  assert (Hk : kept e ctx m s) by (unfold s, run; apply foldl_inv; [intros; by apply kept_step|done]).
  assert (Hch : p ∈ Control.chain s.2 (control ctx) /\ is_Some (Control.heap s.2 !! p)).
  { clear Hk. unfold s, run. apply (foldl_inv (fun s => kept e ctx m s /\ p ∈ Control.chain s.2 (control ctx) /\ is_Some (Control.heap s.2 !! p))).
    - intros s' o _ (Hk' & Hin & Hp'). split; [by apply kept_step|]. rewrite (chain_step e ctx m) by done. split; [done|].
      eapply Control.advances_heap; [by eapply step_advances|done].
    - split; [done|]. cbn [snd]. rewrite (Control.chain_unfold _ _ _ Hw Hj), Hp. destruct (Hw _ _ Hj) as [_ Hlt]. rewrite Hp in Hlt.
      destruct Hlt as (_ & q & Hq & _). rewrite (Control.chain_unfold _ _ _ Hw Hq). split; [set_solver|by eexists]. }
  destruct Hch as [Hch Hpn]. clearbody s.
  split; [by exists n, i, j|]. split; [apply (k_sent _ _ _ _ Hk)|]. split; [|split; [by left|split]].
  - intros Ho more. assert (Hg : kept e ctx m (run scalar quoted s more) /\ over (run scalar quoted s more) /\ sent (run scalar quoted s more).1 = sent s.1).
    { unfold run. apply (foldl_inv (fun s' => kept e ctx m s' /\ over s' /\ sent s'.1 = sent s.1)); [|done]. intros s' o _ (Hk' & Ho' & <-).
      destruct (over_sends_nothing _ _ _ _ o Hk' Ho'). split; [by apply kept_step|done]. }
    apply Hg.
  - right. cbn. rewrite (k_control _ _ _ _ Hk : control (context s.1) = _).
    apply Control.cancel_stops_below; [apply (k_wf _ _ _ _ Hk)|apply (k_node _ _ _ _ Hk)|done|done].
  - intros raw curl a r w' Ei. pose proof (invoke_invoked s.1 s.2 raw curl) as Hin. rewrite Ei in Hin.
    assert (Hn : is_Some (Control.heap s.2 !! control (context s.1))) by (rewrite (k_control _ _ _ _ Hk); apply (k_node _ _ _ _ Hk)).
    destruct Hin as [e'|e' b c' w1 Hbr|a b c' w1 dv request Hbr _ _ Hh]; [by split..|].
    destruct (with_bearer_spec _ _ _ _ _ (k_wf _ _ _ _ Hk) Hn Hbr) as (_ & _ & _ & _ & _ & Hl). destruct (Hl b eq_refl) as [Hm Hr].
    split; [|intros b0 Hb0; apply (k_bearer _ _ _ _ Hk) in Hm as <-; by apply Hh]. intros _ [Ho|Ho]; [congruence|done].
Qed.
End laws.
