(* ===== verification/CoreExamples.v ===== *)
(** * Examples of the core components

    The theorems of [Manifest], [Control], [ChildControl] and [Mailbox] at concrete
    inputs where their hypotheses hold. *)

From S2P Require Import Prelude Json Instances Manifest.
From S2P Require Control Protocol Lease ChildControl Mailbox.

#[local] Existing Instance toy_blake3.
#[local] Existing Instance countable_json.

(** ** The manifest *)

#[export] Instance Tier_countable : Countable Tier :=
  inj_countable' (fun t => match t with Forged => 0%nat | Verified => 1%nat | Unsealed => 2%nat end)
    (fun n => match n with 0%nat => Forged | 1%nat => Verified | _ => Unsealed end) ltac:(by intros []).
#[export] Instance Author_countable : Countable Author :=
  inj_countable' (fun a => match a with Host => true | Agent => false end)
    (fun b => if b : bool then Host else Agent) ltac:(by intros []).
#[export] Instance Entry_countable : Countable Entry.
Proof.
  refine (inj_countable'
    (fun e => (alias e, e_hash e, tier e, interpreter e, author e, recipe e))
    (fun t => let '(a, h, t, i, au, r) := t in mkEntry a h t i au r) _). by intros [].
Defined.
#[export] Instance Manifest_eq_dec : EqDecision Manifest.
Proof. solve_decision. Defined.
#[export] Instance Manifest_countable : Countable Manifest.
Proof.
  refine (inj_countable' (fun m => (entries m, revoked m, signature m))
    (fun t => let '(e, r, s) := t in mkManifest e r s) _). by intros [].
Defined.

Definition ex_entry : Entry := mkEntry "sh" "blake3:00" Forged true Host None.
Definition ex_manifest : Manifest := run [OpAdmit ex_entry; OpRevoke "blake3:11"] new.

Lemma exec_gate_history_witness :
  permit_exec (run [OpAdmit ex_entry; OpRevoke "blake3:00"; OpAdmit ex_entry] new) "blake3:00" =
    Err (Revoked "blake3:00") /\
  permit_exec (run [OpAdmit ex_entry] new) "blake3:00" = Ok ex_entry.
Proof. split; rewrite exec_gate_history; vm_compute; reflexivity. Defined.

Lemma resolve_alias_permitted_witness :
  alias ex_entry = "sh" /\ permit_exec ex_manifest (e_hash ex_entry) = Ok ex_entry.
Proof.
  apply (proj1 (resolve_alias_permitted [OpAdmit ex_entry; OpRevoke "blake3:11"] "sh")). vm_compute. reflexivity.
Defined.

Lemma standin_signature_witness :
  let m := sign_standin ex_manifest in
  verify_standin (step m (OpAdmit ex_entry)) = false /\
  ((entries m = entries m /\ revoked m = revoked m) \/ collides (canonical_body m) (canonical_body m)).
Proof.
  destruct (standin_signature ex_manifest ex_manifest (OpAdmit ex_entry)) as (_ & H & _).
  split; [exact H|].
  destruct (standin_signature (sign_standin ex_manifest) (sign_standin ex_manifest) (OpAdmit ex_entry)) as (_ & _ & H').
  destruct (standin_signature ex_manifest ex_manifest (OpAdmit ex_entry)) as (V & _).
  apply H'. rewrite V. cbn. by apply bool_decide_eq_true_2.
Defined.

(** ** Control trees *)

Module control.
Import Control.

(** A root, two children of it, and one of the children cancelled. *)
Definition ops : list op := [ONew 100; OChild 0 50; OChild 0 200; OCancel 1].
Definition tree : World := run ops (init 7 []).

Lemma stop_sticky_witness :
  (reason (run [OReason 0; ORemaining 1; OCancel 1] (reason tree 1).2) 1).1 = Some Cancelled.
Proof.
  apply (stop_sticky 7 [] ops [OReason 0; ORemaining 1; OCancel 1] 1 Cancelled). vm_compute. reflexivity.
Defined.

Lemma tree_lifetimes_witness :
  (forall a, a ∈ chain tree 2 -> exists j, heap tree !! a = Some j /\ 107 <= deadline j) /\
  (reason tree 2).1 = None.
Proof.
  destruct (tree_lifetimes 7 [] ops 2 (mkInner 107 0 (Some 0%nat))) as (H & _ & Hr); [vm_compute; reflexivity|].
  split; [exact H|]. vm_compute. reflexivity.
Defined.

Lemma cancel_exact_witness :
  (reason (cancel tree 2) 2).1 = Some Cancelled /\ (reason (cancel tree 2) 0).1 = None.
Proof.
  destruct (cancel_exact 7 [] ops 2 (mkInner 107 0 (Some 0%nat))) as (H & Hd); [vm_compute; reflexivity|].
  split; [etransitivity; [exact H|vm_compute; reflexivity]|].
  apply (Hd 0%nat (mkInner 107 0 None)); [vm_compute; reflexivity|]. split; [|split].
  - apply (bool_decide_unpack _). vm_compute. reflexivity.
  - apply Forall_forall. intros a Ha i Hi. vm_compute in Ha. apply list_elem_of_singleton in Ha as ->.
    vm_compute in Hi. by injection Hi as <-.
  - vm_compute. reflexivity.
Defined.
End control.

(** ** The mailbox *)

Module mailbox.
Import Mailbox.

(** A write while the mailbox is idle poisons it. *)
Lemma no_replay_after_poison_witness :
  poisoned (Mailbox.run step default [Write [x00]]).2 = true /\
  Forall (fun x => delivered x = false /\ responded x = false)
    (Mailbox.run step (Mailbox.run step default [Write [x00]]).2 [Deliver [x01]; Take]).1.
Proof.
  assert (Hp : poisoned (Mailbox.run step default [Write [x00]]).2 = true) by (vm_compute; reflexivity).
  split; [exact Hp|]. apply (no_replay_after_poison [Write [x00]] [Deliver [x01]; Take]). exact Hp.
Defined.
End mailbox.

(** ** The control slot of a child *)

Module child_control.
Import Control Protocol Lease ChildControl.

Definition request : TurnRequest := mkTurnRequest "celln.parent-turn/v1" "t1" "go".
Definition child : hash := child_identity "parent" "t1".
Definition turn : ReservedTurn := mkReservedTurn "parent" child request (mkTurnLimits 1 50 1 1).
Definition slot_ops : list ChildControl.op := [ORegister turn].
Definition h : history :=
  ChildControl.run (mkHistory (Control.run [ONew 100] (init 0 [])) (ChildControl.new "parent" 0) []) slot_ops.

Lemma slot_cancel_exact_witness :
  let '(r, w') := ChildControl.cancel (world h) (slot h) (mkIdentity "parent" "t1" child) in
  r = Ok tt /\ exists k, slot_active (slot h) = Some (mkActive (mkIdentity "parent" "t1" child) k) /\
    (reason w' k).1 <> None.
Proof.
  pose proof (slot_cancel_exact "parent" 0 [] [ONew 100] 0 slot_ops (mkIdentity "parent" "t1" child)) as Hc.
  cbv zeta in Hc. fold h in Hc.
  destruct (ChildControl.cancel (world h) (slot h) (mkIdentity "parent" "t1" child)) as [r w'] eqn:E.
  assert (Hr : r = Ok tt) by (change r with (r, w').1; rewrite <- E; vm_compute; reflexivity).
  destruct Hc as (_ & Hc & _). destruct (Hc Hr) as (k & Ha & Hk & _). split; [exact Hr|].
  exists k. split; [exact Ha|exact Hk].
Defined.
End child_control.
