(* ===== verification/ClosureExamples.v ===== *)
(** * Concrete closures

    The theorems of [Closure.v] at executable instances: a runtime and a tool are
    signed, composed, and the composition is signed again. *)

From S2P Require Import Prelude Json Instances Manifest Closure.

#[local] Existing Instance toy_blake3.

(** ** A signature scheme with the laws of [Ed25519] *)

Definition pad (n : nat) (b : bytes) : bytes := take n (b ++ replicate n x00).

Lemma pad_length n b : length (pad n b) = n.
Proof. unfold pad. rewrite length_take, length_app, length_replicate. lia. Qed.

Definition toy_digest (m : bytes) : bytes := pad 32 (as_bytes (toy_hex m)).

#[local] Instance toy_ed25519 : Ed25519.
Proof.
  refine {|
    verifying_key := pad 32;
    sign_message := fun seed m => pad 32 seed ++ toy_digest m;
    key_from_bytes := fun pk => Nat.eqb (length pk) 32;
    verify_strict := fun pk m sg => bool_decide (sg = pk ++ toy_digest m);
  |}.
  - apply pad_length.
  - intros. unfold toy_digest. by rewrite length_app, !pad_length.
  - intros. by rewrite pad_length.
  - intros. by apply bool_decide_eq_true.
Defined.

(** ** Encodings through JSON values *)

Definition vstrings (l : list string) : Value := VArray (VString <$> l).
Definition strings_v (v : Value) : list string :=
  match v with VArray l => (fun v => match v with VString s => s | _ => "" end) <$> l | _ => [] end.

Lemma strings_v_vstrings l : strings_v (vstrings l) = l.
Proof. unfold vstrings. cbn. rewrite <- list_fmap_compose. by apply list_fmap_id. Qed.

Definition member_v (pm : string * Member) : Value :=
  VArray [VString pm.1; VString (m_hash pm.2); vstrings (elements (dependencies pm.2))].
Definition v_member (v : Value) : string * Member :=
  match v with
  | VArray [VString p; VString h; d] => (p, mkMember h (list_to_set (strings_v d)))
  | _ => ("", mkMember "" ∅)
  end.

Lemma v_member_v pm : v_member (member_v pm) = pm.
Proof.
  destruct pm as [p [h d]]. unfold v_member, member_v. cbn [fst snd m_hash dependencies].
  rewrite strings_v_vstrings, list_to_set_elements_L. done.
Qed.

Definition source_v (s : Source) : Value := VArray [VString (s_hash s); VString (descriptor s)].
Definition v_source (v : Value) : Source :=
  match v with VArray [VString h; VString d] => mkSource h d | _ => mkSource "" "" end.

Lemma v_source_v s : v_source (source_v s) = s.
Proof. by destruct s. Qed.

Definition closure_v (c : Closure) : Value :=
  VArray [VString (api_version c); VString (toolfs c); VString (entrypoint c); VBool (interpreter c);
          VArray (member_v <$> map_to_list (members c)); VArray (source_v <$> sources c)].
Definition v_closure (v : Value) : option Closure :=
  match v with
  | VArray [VString a; VString t; VString e; VBool i; VArray m; VArray s] =>
      Some (mkClosure a t e i (list_to_map (v_member <$> m)) (v_source <$> s))
  | _ => None
  end.

Lemma v_closure_v c : v_closure (closure_v c) = Some c.
Proof.
  destruct c as [a t e i m s]. unfold v_closure, closure_v. cbn [api_version toolfs entrypoint interpreter members sources].
  rewrite <- !list_fmap_compose, (list_fmap_ext _ id), list_fmap_id by (intros; apply v_member_v).
  rewrite (list_fmap_ext (v_source ∘ source_v) id), list_fmap_id by (intros; apply v_source_v).
  by rewrite list_to_map_to_list.
Qed.

#[local] Instance Closure_countable : Countable Closure := inj_countable closure_v v_closure v_closure_v.

#[local] Instance SignedClosure_countable : Countable SignedClosure.
Proof.
  refine (inj_countable (fun s => VArray [closure_v (closure s); VString (publisher s); VString (sig s)])
    (fun v => match v with
      | VArray [c; VString p; VString g] => (fun c => mkSigned c p g) <$> v_closure c
      | _ => None end) _).
  intros [c p g]. cbn -[closure_v v_closure]. by rewrite v_closure_v.
Defined.

#[local] Instance Sources_countable : Countable (list Source).
Proof.
  refine (inj_countable (fun l => VArray (source_v <$> l))
    (fun v => match v with VArray l => Some (v_source <$> l) | _ => None end) _).
  intros l. rewrite <- list_fmap_compose, (list_fmap_ext _ id), list_fmap_id; [done|].
  intros. apply v_source_v.
Defined.

#[local] Existing Instance countable_json.

(** ** A runtime, a tool, and both *)

Definition toy_hash : string := hash_of [x01].
Definition runtime : Closure :=
  mkClosure "celln.dev/closure-v1" toy_hash "/bin/run" true
    {["/bin/run" := mkMember toy_hash {["/lib/c"]}; "/lib/c" := mkMember toy_hash {["/bin/run"]}]} [].
Definition tool : Closure :=
  mkClosure "celln.dev/closure-v1" toy_hash "/bin/tool" false
    {["/bin/tool" := mkMember toy_hash {["/lib/d"]}; "/lib/d" := mkMember toy_hash ∅]} [].

Definition seed : bytes := [x07].
Definition key : string := hex (verifying_key seed).

Definition signed_or (c : Closure) : SignedClosure :=
  match sign c seed with Ok s => s | Err _ => mkSigned c "" "" end.

Lemma closure_validates_witness : is_Some (members runtime !! "/lib/c") /\ rtc (edge (members runtime)) "/bin/run" "/lib/c".
Proof.
  assert (E : validate runtime = Ok tt) by (vm_compute; reflexivity).
  pose proof (proj1 (closure_validates runtime eq_refl) E) as (_ & _ & _ & _ & _ & Hr).
  assert (Hi : is_Some (members runtime !! "/lib/c")) by (eexists; vm_compute; reflexivity).
  split; [exact Hi|]. exact (Hr "/lib/c" Hi).
Defined.

Definition source_of (c : Closure) : Source :=
  let d := from_utf8 (to_vec (signed_or c)) in mkSource (hash_of (as_bytes d)) d.

Definition two : list Source := [source_of runtime; source_of tool].
Definition composed : Closure :=
  match compose two toy_hash with Ok c => c | Err _ => runtime end.

Lemma composed_Ok : is_ok (compose two toy_hash) = true.
Proof. vm_compute. reflexivity. Qed.

Lemma compose_validates_witness : exists c, compose two toy_hash = Ok c /\ validate c = Ok tt.
Proof.
  pose proof composed_Ok as Hok. destruct (compose two toy_hash) as [c|] eqn:E; [|discriminate].
  exists c. split; [reflexivity|]. exact (proj1 (compose_validates _ _ _ E)).
Defined.

Lemma signed_runtime : exists s, sign runtime seed = Ok s.
Proof.
  assert (E : is_ok (sign runtime seed) = true) by (vm_compute; reflexivity).
  destruct (sign runtime seed) as [s|]; [by exists s|discriminate].
Qed.

Lemma key_listed : hex (verifying_key seed) ∈ ({[key]} : gset string).
Proof. apply elem_of_singleton. reflexivity. Qed.

Lemma sign_verifies_witness :
  exists s, sign runtime seed = Ok s /\ verify s {[key]} = Ok tt.
Proof.
  destruct signed_runtime as [s Hs]. exists s. split; [exact Hs|].
  refine (proj1 (sign_verifies runtime seed s {[key]} Hs key_listed _)).
  intros src p Hin. apply elem_of_nil in Hin. destruct Hin.
Defined.

Lemma verified_runtime : verify (signed_or runtime) {[key]} = Ok tt.
Proof. vm_compute. reflexivity. Qed.

Lemma verify_sound_witness :
  publisher (signed_or runtime) ∈ ({[key]} : gset string) /\ validate (closure (signed_or runtime)) = Ok tt.
Proof.
  destruct (verify_sound (signed_or runtime) {[key]} verified_runtime) as (Hp & Hv & _).
  split; [exact Hp|exact Hv].
Defined.

Lemma verify_depth_witness : verify_n 7 (signed_or runtime) {[key]} = Ok tt.
Proof.
  destruct (verify_depth 7 (signed_or runtime) {[key]} runtime (mkSource "" "") ltac:(lia)) as [Hd _].
  rewrite Hd. exact verified_runtime.
Defined.
