(* ===== verification/JournalExamples.v ===== *)
(** * Concrete journals

    The theorems of [Journal.v] at executable instances of the digest and of the
    encoders: one incarnation is created, bound, used for one turn and listed. *)

From S2P Require Import Prelude Json Instances Manifest Protocol Lease Journal.

#[local] Existing Instance toy_blake3.

(** A record is encoded as the list of its fields. *)
Abbreviation field := (Z + string)%type.

Definition bool_field (b : bool) : field := inl (if b then 1 else 0).

#[local] Instance Reservation_countable : Countable Reservation.
Proof.
  refine (inj_countable
    (fun r => [inl (rs_version r); inr (rs_parent r); inr (rs_child r); inr (api_version (rs_request r));
               inr (turn_id (rs_request r)); inr (task (rs_request r)); inl (rs_memory_bytes r);
               inl (rs_timeout_nanos r); inl (rs_model_requests r); inl (rs_output_tokens r)] : list field)
    (fun l => match l with
      | [inl v; inr p; inr c; inr a; inr t; inr k; inl m; inl ti; inl mr; inl ot] =>
          Some (mkReservation v p c (mkTurnRequest a t k) m ti mr ot)
      | _ => None end) _).
  by intros [? ? ? [] ? ? ? ?].
Defined.

#[local] Instance DestroyedRecord_countable : Countable DestroyedRecord.
Proof.
  refine (inj_countable
    (fun d => [inl (ds_version d); inr (ds_parent d); inr (ds_child d); inr (ds_turn_id d);
               bool_field (ds_succeeded d); inr (ds_answer d)] : list field)
    (fun l => match l with
      | [inl v; inr p; inr c; inr t; inl s; inr a] => Some (mkDestroyed v p c t (negb (s =? 0)) a)
      | _ => None end) _).
  by intros [? ? ? ? [] ?].
Defined.

#[local] Instance CommittedRecord_countable : Countable CommittedRecord.
Proof.
  refine (inj_countable
    (fun c => [inl (cm_version c); inr (cm_parent c); inr (cm_child c); inr (cm_turn_id c)] : list field)
    (fun l => match l with [inl v; inr p; inr c; inr t] => Some (mkCommitted v p c t) | _ => None end) _).
  by intros [].
Defined.

#[local] Instance ParentRecord_countable : Countable ParentRecord.
Proof.
  refine (inj_countable
    (fun r => [inl (pr_version r); inr (pr_parent r); inr (pr_recovery r)] : list field)
    (fun l => match l with [inl v; inr p; inr c] => Some (mkParentRecord v p c) | _ => None end) _).
  by intros [].
Defined.

#[local] Instance OwnerRecord_countable : Countable OwnerRecord.
Proof.
  refine (inj_countable
    (fun r => [inl (ow_version r); inr (ow_parent r); inr (ow_principal r)] : list field)
    (fun l => match l with [inl v; inr p; inr c] => Some (mkOwnerRecord v p c) | _ => None end) _).
  by intros [].
Defined.

#[local] Instance ProcessRecord_countable : Countable ProcessRecord.
Proof.
  refine (inj_countable
    (fun r => [inl (pc_version r); inr (pc_parent r); inr (pc_boot r); inl (pc_pid_namespace r);
               inl (pc_uid r); inl (pc_pid r); inl (pc_start_ticks r)] : list field)
    (fun l => match l with
      | [inl v; inr p; inr b; inl n; inl u; inl i; inl t] => Some (mkProcessRecord v p b n u i t)
      | _ => None end) _).
  by intros [].
Defined.

#[local] Existing Instance countable_json.

Definition fs0 : FS := mkFS ∅ 1000 [].
Definition p0 : hash := "blake3:parent".
Definition created : result ErrorKind ParentJournal * FS := create p0 fs0.
Definition j0 : ParentJournal := mkJournal (parent_directory p0) p0 0.

Lemma created_Ok : created = (Ok j0, created.2).
Proof. vm_compute. reflexivity. Qed.

Definition toy_turn : ReservedTurn :=
  let r := mkTurnRequest VERSION "turn-1" "say hello" in
  mkReservedTurn p0 (child_identity p0 "turn-1") r (mkTurnLimits 64 1000 1 100).

Definition reserved : result ErrorKind unit * ParentJournal * FS := reserve j0 toy_turn created.2.
Definition toy_child : hash := rt_child toy_turn.

Definition finish : list op :=
  [OChildDestroyed j0 "turn-1" toy_child true "hello"; OParentCommitted j0 "turn-1" toy_child].

Definition toy_destroyed : DestroyedRecord := mkDestroyed 1 p0 toy_child "turn-1" true "hello".

Lemma reserved_status :
  now (turn_status j0 "turn-1") (nodes reserved.2) = Ok (Reserved (reservation_of toy_turn)).
Proof. vm_compute. reflexivity. Qed.

Lemma journal_forward_witness :
  exists s, now (turn_status j0 "turn-1") (nodes (run reserved.2 finish)) = Ok s /\
    stage_le (Reserved (reservation_of toy_turn)) s /\ s = ParentCommitted toy_destroyed.
Proof.
  destruct (journal_forward reserved.2 finish j0 "turn-1" _ reserved_status) as (s & Hs & Hle).
  exists s. split; [exact Hs|]. split; [exact Hle|].
  assert (E : now (turn_status j0 "turn-1") (nodes (run reserved.2 finish)) = Ok (ParentCommitted toy_destroyed))
    by (vm_compute; reflexivity).
  rewrite E in Hs. injection Hs as Hs. symmetry. exact Hs.
Defined.

Lemma finished_status :
  turn_status j0 "turn-1" (run reserved.2 finish) = (Ok (ParentCommitted toy_destroyed), run reserved.2 finish).
Proof. vm_compute. reflexivity. Qed.

Lemma journal_fail_closed_witness : consistent j0 "turn-1" (ParentCommitted toy_destroyed).
Proof. exact (proj1 (journal_fail_closed _ _ _ _ _ finished_status)). Defined.

Lemma launch_exclusion_witness :
  (fence_uncreated p0 "alice" (run created.2 finish)).1 <> Ok true /\
  (fence_uncreated p0 "alice" fs0).1 = Ok true /\
  is_err (create p0 (run (fence_uncreated p0 "alice" fs0).2 [])).1 = true.
Proof.
  assert (E : (fence_uncreated p0 "alice" fs0).1 = Ok true) by (vm_compute; reflexivity).
  split_and!.
  - apply (proj1 (launch_exclusion fs0 p0 finish)). vm_compute. reflexivity.
  - exact E.
  - exact (proj2 (proj2 (launch_exclusion fs0 p0 [])) "alice" E).
Defined.

Lemma reserved_Ok : reserve j0 toy_turn created.2 = (Ok tt, mkJournal (parent_directory p0) p0 1, reserved.2).
Proof. vm_compute. reflexivity. Qed.

Lemma journal_no_replay_witness :
  (reserve j0 toy_turn (mkFS (nodes (run reserved.2 finish)) 0 [])).1.1 <> Ok tt.
Proof.
  exact (proj1 (proj2 (journal_no_replay _ _ _ _ _ finish reserved_Ok) j0 toy_turn 0 [] eq_refl eq_refl)).
Defined.

Definition bound : result ErrorKind unit * FS := bind_owner j0 "alice" (run created.2 []).

Lemma bound_Ok : bind_owner j0 "alice" (run created.2 []) = (Ok tt, bound.2).
Proof. vm_compute. reflexivity. Qed.

Lemma historical_owner_exact_witness :
  now (historical_owner p0 "alice") (nodes (run bound.2 [])) = Ok true /\
  now (historical_owner p0 "bob") (nodes (run bound.2 [])) = Ok false.
Proof.
  split.
  - exact (proj1 (historical_owner_exact _ _ _ _ _ _ [] [] created_Ok bound_Ok) "alice").
  - exact (proj1 (historical_owner_exact _ _ _ _ _ _ [] [] created_Ok bound_Ok) "bob").
Defined.

(** A kernel where process 7 started at tick 99, or has been replaced. *)
Definition toy_stat (ticks : string) (pid : Z) : result ErrorKind bytes :=
  if pid =? 7 then Ok (as_bytes ("7 (a b) S 1 2 3 4 5 6 7 8 9 10 11 12 13 14 15 16 17 18 " ++ ticks ++ " 0"))
  else Err NotFound.
Definition toy_proc (ticks : string) : Proc :=
  mkProc (Ok (as_bytes "01234567-89ab-cdef-0123-456789abcdef")) (Ok 4026531836) (Ok 1000) 7
    (toy_stat ticks) (fun _ => false).

Definition bound_process : result ErrorKind unit * FS := bind_process j0 (toy_proc "99") (run bound.2 []).

Lemma teardown_query :
  historical_teardown true (toy_proc "100") p0 "alice" bound_process.2 = (Ok true, bound_process.2).
Proof. vm_compute. reflexivity. Qed.

Definition bound_first : result ErrorKind unit * FS := bind_process j0 (toy_proc "99") (run created.2 []).

Lemma bound_first_Ok : bind_process j0 (toy_proc "99") (run created.2 []) = (Ok tt, bound_first.2).
Proof. vm_compute. reflexivity. Qed.

Lemma teardown_sound_witness :
  owner_at (nodes bound_process.2) p0 "alice" = Ok true /\
  (historical_teardown true (toy_proc "99") p0 "alice" (mkFS (nodes (run bound_first.2 [])) 0 [])).1 <> Ok true.
Proof.
  split.
  - exact (proj1 (proj1 (teardown_sound true (toy_proc "100") p0 "alice" _ _) teardown_query)).
  - refine (proj2 (teardown_sound true (toy_proc "99") p0 "alice" fs0 fs0) fs0 j0 created.2 [] (toy_proc "99")
      bound_first.2 [] 0 [] created_Ok bound_first_Ok _). reflexivity.
Defined.

Definition toy_summary : ParentSummary :=
  mkParentSummary p0 1000 [mkTurnSummary "turn-1" "parent-committed" toy_child (Some true) 1000 1000] 1.

Lemma summary_query :
  summarize_parent p0 8 (run reserved.2 finish) = (Ok toy_summary, run reserved.2 finish).
Proof. vm_compute. reflexivity. Qed.

Lemma summary_sound_witness : NoDup (ts_turn_id <$> ps_turns toy_summary) /\ (length (ps_turns toy_summary) <= 8)%nat.
Proof.
  destruct (summary_sound p0 8 _ _ _ summary_query) as (_ & _ & Hl & _ & Hn & _).
  split; [exact Hn|exact Hl].
Defined.
