(* ===== verification/PermitExamples.v ===== *)
(** * Concrete permits

    The theorems of [Permit.v] at executable instances: a run is issued a permit,
    it is published, authorised, and its incarnation is claimed. *)

From S2P Require Import Prelude Json Instances Manifest Protocol Lease Journal Permit JournalExamples.

#[local] Existing Instance toy_blake3.

Definition binding_fields (b : Binding) : list field :=
  [inr (principal b); inr (incarnation b); inr (parent_configuration b); inr (worker_configuration b);
   inl (parent_memory_bytes b); inl (child_memory_bytes b); inl (lifetime_ms b); inl (turn_timeout_ms b);
   inl (Z.of_nat (max_turns b)); inl (turn_model_requests b); inl (turn_output_tokens b);
   inl (total_model_requests b); inl (total_output_tokens b)].

Definition fields_binding (l : list field) : option (Binding * list field) :=
  match l with
  | inr p :: inr i :: inr pc :: inr wc :: inl pm :: inl cm :: inl lt :: inl tmo :: inl mt :: inl mr ::
    inl ot :: inl tr :: inl tk :: r =>
      Some (mkBinding p i pc wc pm cm lt tmo (Z.to_nat mt) mr ot tr tk, r)
  | _ => None
  end.

Lemma fields_binding_fields b r : fields_binding (binding_fields b ++ r) = Some (b, r).
Proof. destruct b. unfold binding_fields. cbn. by rewrite Nat2Z.id. Qed.

Definition permit_fields (p : Permit) : list field :=
  [inr (api_version p); inr (boot_id p); inl (issued_at_boottime_ms p); inl (expires_at_boottime_ms p)]
  ++ binding_fields (binding p).

Definition fields_permit (l : list field) : option Permit :=
  match l with
  | inr a :: inr b :: inl i :: inl e :: r =>
      '(bi, _) ← fields_binding r; Some (mkPermit a bi b i e)
  | _ => None
  end.

Lemma fields_permit_fields p : fields_permit (permit_fields p) = Some p.
Proof.
  unfold fields_permit, permit_fields. cbn [app].
  rewrite <- (app_nil_r (binding_fields (binding p))), fields_binding_fields. by destruct p.
Qed.

#[local] Instance Permit_countable : Countable Permit := inj_countable permit_fields fields_permit fields_permit_fields.

#[local] Instance RunIssuance_countable : Countable RunIssuance.
Proof.
  refine (inj_countable
    (fun r => [inr (ri_api_version r); inr (scope r); inr (run_uid r); inr (intent r);
               inl (admission_window_ms r)] ++ permit_fields (permit r))
    (fun l => match l with
      | inr a :: inr s :: inr u :: inr i :: inl w :: r => mkRunIssuance a s u i w <$> fields_permit r
      | _ => None end) _).
  intros []. cbn -[permit_fields]. by rewrite fields_permit_fields.
Defined.

#[local] Existing Instance countable_json.
#[local] Existing Instances Reservation_countable DestroyedRecord_countable CommittedRecord_countable
  ParentRecord_countable OwnerRecord_countable ProcessRecord_countable.

Definition toy_hash : hash := hash_of [x01].
Definition toy_run : hash := hash_of (to_vec ("celln.parent-run-incarnation/v1", "cluster", "run-1")).

Definition toy_binding : Binding :=
  mkBinding "alice" toy_run toy_hash toy_hash 1000 500 60000 1000 4 1 100 4 400.

Definition boot : string := "01234567-89ab-cdef-0123-456789abcdef".
Definition window : Z := 2000 * nanos_per_milli.
Definition clock_at (ms : Z) : HostClock := mkHostClock boot ms.
Definition raw_at (ms : Z) : RawClock :=
  mkRawClock (Ok (as_bytes boot)) (Ok (ms / 1000, (ms mod 1000) * 1000000)).

Definition toy_permit : Permit := mkPermit Permit.VERSION toy_binding boot 5000 7000.

Lemma toy_issued : issue_at toy_binding window (clock_at 5000) 0 = Ok toy_permit.
Proof. vm_compute. reflexivity. Qed.

Lemma permit_window_witness :
  is_ok (validate toy_permit toy_binding "alice" (clock_at 6999) 0) = true /\
  is_ok (validate toy_permit toy_binding "alice" (clock_at 7000) 0) = false.
Proof.
  destruct (permit_window _ _ _ _ _ toy_issued) as (_ & _ & Hw).
  split; [etransitivity; [apply (Hw (clock_at 6999) 0)|]|etransitivity; [apply (Hw (clock_at 7000) 0)|]];
    vm_compute; reflexivity.
Defined.

Definition toy_lease : ParentLease :=
  mkParentLease toy_run (60000 * nanos_per_milli) (binding_limits toy_binding) 4 4 400 ∅ None false.

Lemma toy_validated : validate toy_permit toy_binding "alice" (clock_at 6000) 0 = Ok toy_lease.
Proof. vm_compute. reflexivity. Qed.

Lemma permit_grants_witness :
  deadline toy_lease = 0 + lifetime_ms toy_binding * nanos_per_milli /\ requests_left toy_lease <= 6144 /\ seen toy_lease = ∅.
Proof.
  pose proof (permit_grants _ _ _ _ _ _ toy_validated) as Hg.
  destruct Hg as (_ & _ & _ & _ & _ & _ & _ & _ & _ & _ & _ & Hd & _ & _ & _ & _ & _ & Hr & _ & _ & Hs & _).
  split; [exact Hd|split; [exact Hr|exact Hs]].
Defined.

Definition root : FS := mkFS {[PERMITS := IsDir (mkDir ∅ 0); ISSUANCE := IsDir (mkDir ∅ 0)]} 0 [].

Definition issued : result ErrorKind Permit * FS :=
  issue_for_run_at true "cluster" "run-1" toy_hash toy_binding window (clock_at 5000) 0 root.

Lemma issued_Ok :
  issue_for_run_at true "cluster" "run-1" toy_hash toy_binding window (clock_at 5000) 0 root = (Ok toy_permit, issued.2).
Proof. vm_compute. reflexivity. Qed.

Definition reissued : result ErrorKind Permit * FS :=
  issue_for_run_at true "cluster" "run-1" toy_hash toy_binding window (clock_at 6500) 0
    (mkFS (nodes (run issued.2 [])) 0 []).

Lemma reissued_Ok :
  issue_for_run_at true "cluster" "run-1" toy_hash toy_binding window (clock_at 6500) 0
    (mkFS (nodes (run issued.2 [])) 0 []) = (Ok toy_permit, reissued.2).
Proof. vm_compute. reflexivity. Qed.

Lemma run_issuance_pinned_witness : toy_permit = toy_permit /\ 5000 <= 6500 < 7000.
Proof.
  destruct (run_issuance_pinned _ _ _ _ _ _ _ _ _ _ _ _ _ _ _ _ _ _ _ _ _ _ issued_Ok reissued_Ok)
    as (Hp & _ & _ & _ & _ & Hw).
  split; [exact Hp|exact Hw].
Defined.

Definition published : result ErrorKind hash * FS := publish_at toy_permit true (clock_at 5500) 0 root.
Definition permit_hash : hash := hash_of (to_vec toy_permit).

Lemma published_Ok : publish_at toy_permit true (clock_at 5500) 0 root = (Ok permit_hash, published.2).
Proof. vm_compute. reflexivity. Qed.

Lemma authorize_exact_witness :
  is_ok (authorize permit_hash toy_binding "alice" (raw_at 6000) 0 (mkFS (nodes (run published.2 [])) 0 [])).1 = true.
Proof.
  apply (proj2 (authorize_exact _ _ _ _ _ _ _ [] published_Ok) (raw_at 6000) 0 (clock_at 6000));
    vm_compute; try reflexivity. split; discriminate || reflexivity.
Defined.

Lemma claimed_first :
  is_ok (claim permit_hash toy_binding "alice" (raw_at 6000) 0 (toy_proc "99") published.2 fs0).1.1 = true.
Proof. vm_compute. reflexivity. Qed.

Lemma claim_once_witness :
  exists r op jfs,
    claim permit_hash toy_binding "alice" (raw_at 6000) 0 (toy_proc "99") published.2 fs0 = (r, op, jfs) /\
    is_ok r = true /\
    is_err (claim permit_hash toy_binding "alice" (raw_at 6500) 0 (toy_proc "100") published.2
              (Journal.run jfs [])).1.1 = true.
Proof.
  pose proof claimed_first as Hf.
  destruct (claim permit_hash toy_binding "alice" (raw_at 6000) 0 (toy_proc "99") published.2 fs0)
    as [[r op] jfs] eqn:E.
  exists r, op, jfs. split; [reflexivity|]. split; [exact Hf|].
  exact (claim_once permit_hash permit_hash toy_binding toy_binding "alice" "alice" (raw_at 6000) (raw_at 6500)
    0 0 (toy_proc "99") (toy_proc "100") published.2 op published.2 fs0 jfs r [] E (or_introl Hf) eq_refl).
Defined.
