(* ===== verification/EgressExamples.v ===== *)
(** * A broker at work

    A concrete network and decoder: a GET that is redirected once, a model request
    through the relay, and the theorems of [EgressLaws] at these inputs. *)

From S2P Require Import Prelude Text Json Manifest ModelParams Egress EgressPost EgressLaws.
From S2P Require Control Broker.

Definition ex_heap : Broker.Heap := Broker.mkHeap (Control.init 0 []) [] [].

Definition ex_chat : ChatRequest :=
  mkChat "glm" 100 false
    [mkMessage "system" (Some "be brief") None None; mkMessage "user" (Some "hello") None None;
     mkMessage "user" (Some "there") None None; mkMessage "assistant" (Some "hi") None None] None None.
Definition ex_grant (p : ModelProtocol) : JsonPostGrant :=
  mkJsonPost p "https://llm.example/v1" "" "glm" 128 250 [].
Definition ex_policy : HttpPolicy := mkPolicy [] 5 4096 nanos_per_sec [ex_grant OpenaiChat] None None None false.
Definition ex_get_policy : HttpPolicy :=
  mkPolicy [] 5 4096 nanos_per_sec [] None (Some (mkGet ["docs.example"] 3 4 nanos_per_sec)) None false.

Definition crlf : string := String "013" (String "010" "").
Definition redirect : bytes := as_bytes ("HTTP/2 302 Found" ++ crlf ++ "location: /b" ++ crlf ++ crlf).
Definition okay : bytes := as_bytes ("HTTP/2 200 OK" ++ crlf ++ crlf).

(** The first page redirects to [/b]; [/b] is longer than the grant. *)
Definition ex_net : Net :=
  mkNet (fun _ _ => Ok (true, as_bytes "10.0.0.1 x")) (fun _ _ _ => Some [V6; V4 10 0 0 1; V4 93 184 216 34])
    (fun _ => None)
    (fun _ c => Ok (mkCurl true (as_bytes "hello world") []
       (Some (if String.eqb (c_url c) "https://docs.example/a" then redirect else okay))))
    (fun _ _ => None) (fun _ b => Ok (as_bytes "answer")).

Definition ex_request : string := "{}".
Definition ex_fetch (mediated : bool) (p : HttpPolicy) : string -> M bytes :=
  fetch (fun _ => Some ex_chat) (fun _ => Some (mkRequest "celln.fetch/v1" "POST" "https://llm.example/v1" (VObject [])))
    (fun _ => Some (VObject [])) (fun _ => Some []) (fun _ => Some []) (fun _ => "") (fun _ => "")
    ex_net p mediated None (fun _ => None).

Example get_redirected :
  let '(r, s) := ex_fetch false ex_get_policy "https://docs.example/a" (new_broker ex_heap) in
  r = Ok (as_bytes "hell") /\ get_used s = 2 /\ c_url <$> conns s = ["https://docs.example/a"; "https://docs.example/b"].
Proof. vm_compute. done. Qed.

Example get_private :
  (ex_fetch false ex_get_policy "http://docs.example/a" (new_broker ex_heap)).1 = Err Scheme /\
  (ex_fetch false ex_get_policy "https://evil.example/" (new_broker ex_heap)).1 = Err (Host "evil.example").
Proof. vm_compute. done. Qed.

(** Two requests of 100 tokens fit in 250; the third is refused. *)
Example relay_budget :
  let '(r1, s) := ex_fetch true ex_policy ex_request (new_broker ex_heap) in
  let '(r2, s) := ex_fetch true ex_policy ex_request s in
  let '(r3, s) := ex_fetch true ex_policy ex_request s in
  r1 = Ok (as_bytes "answer") /\ r2 = r1 /\ r3 = Err (Fetch "model cumulative output budget exhausted") /\ used s = 2.
Proof. vm_compute. done. Qed.

Lemma public_v4_blocks_witness :
  octet 100 /\ octet 64 /\ is_public_v4 100 64 0 1 = negb (existsb (in_block (address 100 64 0 1)) reserved_blocks) /\
  is_public_v4 100 64 0 1 = false /\ is_public_v4 100 128 0 1 = true.
Proof.
  split; [by split|]. split; [by split|]. split; [|done]. apply public_v4_blocks; by split.
Defined.

Definition ex_run (t : Transport) : HttpBroker -> list op -> HttpBroker :=
  cell_run ex_net t None (fun _ => Some ex_chat)
    (fun _ => Some (mkRequest "celln.fetch/v1" "POST" "https://llm.example/v1" (VObject [])))
    (fun _ => Some (VObject [])) (fun _ => Some []) (fun _ => Some []) (fun _ => "") (fun _ => "") (fun _ => None).

Lemma mediated_turn_witness :
  exists t, new_mediated ex_policy = Ok t /\ fits_mediated_turn t 5 250 = true /\
  let l := conns (ex_run t (new_broker ex_heap) [OFetch ex_request; OFetch ex_request; OFetch ex_request]) in
  length l = 2%nat /\
  exists g, json_posts (t_policy t) = [g] /\
    Forall (fun c => c_kind c = Relay /\ c_url c = url g /\ c_at c = None /\ c_header c = None) l /\
    Z.of_nat (length l) <= 5 /\ foldr (fun c acc => c_tokens c + acc) 0 l <= 250.
Proof.
  exists (mkTransport ex_policy true). split; [reflexivity|]. split; [reflexivity|]. split; [vm_compute; reflexivity|].
  apply mediated_turn; [reflexivity|lia..].
Defined.

Lemma provider_conversation_witness :
  exists out o msgs bss,
    provider_request (fun _ => Some ex_chat) (fun _ => Some (VObject [])) Null AnthropicMessages = Ok out /\
    length msgs = 2%nat /\ out = VObject o /\
    oget "messages" o = Some (VArray (message_json <$> msgs)) /\ alternating msgs /\
    Forall2 (contributes (fun _ => Some (VObject []))) (messages ex_chat) bss /\ concat msgs.*2 = concat bss /\
    oget "model" o = Some (vstr "glm") /\ oget "max_tokens" o = Some (vnum 100) /\
    oget "system" o = Some (vstr "be brief").
Proof.
  destruct (provider_request (fun _ => Some ex_chat) (fun _ => Some (VObject [])) Null AnthropicMessages) as [out|e] eqn:E;
    [|vm_compute in E; discriminate E].
  destruct (provider_conversation (fun _ => Some ex_chat) (fun _ => Some (VObject [])) Null ex_chat out eq_refl E)
    as (o & msgs & bss & -> & Hm & H).
  exists (VObject o), o, msgs, bss. split; [done|]. split; [|by split].
  vm_compute in E. injection E as <-. vm_compute in Hm. by destruct msgs as [|? [|? []]].
Defined.

Lemma fetch_bounded_witness :
  let '(r, s') := ex_fetch false ex_get_policy "https://docs.example/a" (new_broker ex_heap) in
  r = Ok (as_bytes "hell") /\
  (exists l, conns s' = conns (new_broker ex_heap) ++ l /\ (length l <= 6)%nat) /\
  (false = false -> forall b, r = Ok b ->
     blen b <= 4 /\ exists out, served ex_net s' out /\ cut_at out 4 b /\ (utf8_valid out = true -> utf8_valid b = true)).
Proof.
  destruct (ex_fetch false ex_get_policy "https://docs.example/a" (new_broker ex_heap)) as [r s'] eqn:E.
  pose proof (fetch_bounded ex_net ex_get_policy None (fun _ => Some ex_chat)
    (fun _ => Some (mkRequest "celln.fetch/v1" "POST" "https://llm.example/v1" (VObject [])))
    (fun _ => Some (VObject [])) (fun _ => Some []) (fun _ => Some []) (fun _ => "") (fun _ => "") false (fun _ => None)
    "https://docs.example/a" (new_broker ex_heap)) as H.
  unfold ex_fetch in E. rewrite E in H. split; [vm_compute in E; by injection E as <- <-|exact H].
Defined.

(** The redirected GET: two connections, both to the public address and port 443. *)
Lemma egress_confined_witness :
  let l := conns (ex_run (mkTransport ex_get_policy true) (new_broker ex_heap) [OFetch "https://docs.example/a"]) in
  c_url <$> l = ["https://docs.example/a"; "https://docs.example/b"] /\
  (c_at <$> l = replicate 2 (Some (mkAuthorized "https" "docs.example" 443 (V4 93 184 216 34)))) /\
  Forall (fun c => c_header c = None /\ tool_call ["docs.example"] c) l.
Proof.
  split; [vm_compute; reflexivity|]. split; [vm_compute; reflexivity|].
  pose proof (egress_confined ex_net ex_get_policy None (fun _ => Some ex_chat)
    (fun _ => Some (mkRequest "celln.fetch/v1" "POST" "https://llm.example/v1" (VObject [])))
    (fun _ => Some (VObject [])) (fun _ => Some []) (fun _ => Some []) (fun _ => "") (fun _ => "") true (fun _ => None)
    ex_heap [OFetch "https://docs.example/a"]) as H.
  assert (Hk : Forall (fun c => is_get c = true)
    (conns (ex_run (mkTransport ex_get_policy true) (new_broker ex_heap) [OFetch "https://docs.example/a"]))).
  { apply Forall_forall. intros c Hc. apply list_elem_of_In in Hc. revert c Hc. apply forallb_forall. vm_compute. reflexivity. }
  unfold ex_run, cell_run in *. cbn [t_policy t_mediated] in *.
  eapply Forall_impl; [exact (proj2 (Forall_and _ _) (conj H Hk))|]. intros c [[Ha _] Hc]. unfold allowed in Ha. unfold is_get in Hc.
  destruct (c_kind c); try discriminate Hc. destruct Ha as [_ Ha]. split; [apply Ha|exact Ha].
Defined.

(** The relayed conversation, with the bounds at work. *)
Lemma egress_budgets_witness :
  let l := conns (ex_run (mkTransport ex_policy true) (new_broker ex_heap) [OFetch ex_request; OFetch ex_request; OFetch ex_request]) in
  tokens "https://llm.example/v1" l = 200 /\
  count is_get l + count is_model l <= 5 /\ count is_post l <= 0 /\ tokens "https://llm.example/v1" l <= 250.
Proof.
  split; [vm_compute; reflexivity|].
  pose proof (egress_budgets ex_net ex_policy None (fun _ => Some ex_chat)
    (fun _ => Some (mkRequest "celln.fetch/v1" "POST" "https://llm.example/v1" (VObject [])))
    (fun _ => Some (VObject [])) (fun _ => Some []) (fun _ => Some []) (fun _ => "") (fun _ => "") true (fun _ => None)
    ex_heap [OFetch ex_request; OFetch ex_request; OFetch ex_request]) as (Hn & Hp & Ht).
  split; [exact Hn|]. split; [exact Hp|]. exact (Ht "https://llm.example/v1").
Defined.
