(* ===== verification/SpecExamples.v ===== *)
(** * Requests, specifications and fingerprints at work

    A request that passes and some that do not, a specification, and a concrete writer
    of scalars that meets the laws the fingerprint relies on. *)

From S2P Require Import Prelude Text Json Instances Manifest Spec SpecLaws Encoding Configuration.

Definition ex_hash : string := ("blake3:" ++ toy_hex [x61])%string.
Definition ex_identity : WorkloadIdentity := mkIdentity "w1" "team-a".
Definition ex_capabilities : CapabilityRequest := mkCapabilities WNone ["https://llm.example"] false 1000 (2 ^ 28) 4096.
Definition ex_request : ExecutionRequest :=
  mkRequest "celln.dev/v1alpha1" "r1" ex_identity None (Some ex_hash)
    [mkInput "data.json" ex_hash "application/json" 10] [mkToolRef "/bin/sh" ex_hash None]
    (Some (mkInvocation "/bin/sh" ["-c"])) None ex_capabilities (mkExecution LaneTool true).
(** Forged code asks for the tool lane, and its task is blank. *)
Definition ex_forged : ExecutionRequest :=
  mkRequest "celln.dev/v1alpha1" "r1" ex_identity None None [] [] None (Some (mkForge "  " None None))
    ex_capabilities (mkExecution LaneTool true).
Definition ex_twice : ExecutionRequest :=
  mkRequest "celln.dev/v1alpha1" "r1" ex_identity None (Some ex_hash)
    [mkInput "a" ex_hash "t" 1; mkInput "b" ex_hash "t" 1; mkInput "a" ex_hash "t" 1] [] None None
    ex_capabilities (mkExecution LaneTool true).
Definition ex_harness : HarnessBinding :=
  mkHarness "celln.json-tools/v1" ex_hash "glm" "say hello"
    [mkBorrowed "list" "/opt/list" ex_hash "lists" (Some (mkIo "celln.json-stdio/v1" ex_hash ex_hash 10 10 1000))]
    (Some (mkOptions "be brief" 6 16)).
Definition ex_harnessed : ExecutionRequest :=
  mkRequest "celln.dev/v1alpha3" "r1" ex_identity (Some ex_harness) (Some ex_hash) []
    [mkToolRef "/harness" ex_hash (Some ex_hash)] (Some (mkInvocation "/harness" [])) None
    ex_capabilities (mkExecution LaneAgent true).

Example admitted_requests : request_problems ex_request = [] /\ request_problems ex_harnessed = [].
Proof. vm_compute. done. Qed.
Example refused_requests :
  (code <$> request_problems ex_forged) = [InvalidForge; InvalidForge] /\
  ((fun p => (code p, field p)) <$> request_problems ex_twice) = [(DuplicateInputName, "inputs[0].name")].
Proof. vm_compute. done. Qed.

Example sizes :
  parse_size " 512M " = Some (2 ^ 29) /\ parse_size "1GiB" = Some (2 ^ 30) /\ parse_size "17179869184GiB" = None /\
  parse_size "18446744073709551615" = Some u64_max /\ parse_size "1TiB" = None.
Proof. vm_compute. done. Qed.

Example references :
  let check := check_digest_pinned (fun s => s) in
  check "python" = Ok tt /\ check "docker://python:3" = Err "docker://python:3 is a tag, not a digest" /\
  check ("docker://a/b@sha256:" ++ toy_hex [])%string = Ok tt /\
  looks_like_interpreter "/usr/bin/python3.12" = true /\ looks_like_interpreter "/usr/bin/curl" = false.
Proof. vm_compute. done. Qed.

Definition ex_spec : Spec :=
  mkSpec "demo" default_cell [mkTool "/usr/bin/python" None (Some "python") (Some "/usr/local/bin/python3") None true]
    (Some (One (mkRun "/usr/bin/python" [] INone {["LANG" := "C"]}))) None.
Example admitted_spec : spec_problems (fun s => s) (fun _ => false) ex_spec = [] /\ warnings (fun s => s) ex_spec = [].
Proof. vm_compute. done. Qed.

#[local] Instance ExecutionRequest_eq_dec : EqDecision ExecutionRequest.
Proof.
  assert (EqDecision WorkloadIdentity) by solve_decision. assert (EqDecision JsonHarnessOptions) by solve_decision.
  assert (EqDecision JsonToolIo) by solve_decision. assert (EqDecision BorrowedTool) by solve_decision.
  assert (EqDecision HarnessBinding) by solve_decision. assert (EqDecision ForgeRequest) by solve_decision.
  assert (EqDecision ExecutionInput) by solve_decision. assert (EqDecision ToolRef) by solve_decision.
  assert (EqDecision Invocation) by solve_decision. assert (EqDecision CapabilityRequest) by solve_decision.
  assert (EqDecision ExecutionPolicy) by solve_decision. solve_decision.
Defined.

(** Two requests have a value. *)
Definition ex_to_value (r : ExecutionRequest) : option Value :=
  if decide (r = ex_request) then Some (VObject [("id", VString "r1")])
  else if decide (r = ex_harnessed) then Some (VObject [("harness", VObject []); ("id", VString "r1")]) else None.

#[local] Existing Instance toy_blake3.
Definition ex_binding : ExecutionRequest -> ConfigurationRole -> result string hash :=
  configuration_binding toy_scalar toy_quoted ex_to_value.

Example roles_differ :
  ex_binding ex_request Parent <> ex_binding ex_request Worker /\
  ex_binding ex_request Parent <> ex_binding ex_harnessed Parent /\ is_err (ex_binding ex_forged Parent) = true.
Proof. vm_compute. done. Qed.

Lemma ex_to_value_wf q v : ex_to_value q = Some v -> wf v.
Proof.
  unfold ex_to_value. repeat case_decide; intros [= <-];
    repeat first [apply wf_scalar; done | apply wf_object | constructor | apply (bool_decide_unpack _); done].
Qed.
Lemma ex_to_value_inj q q' v : ex_to_value q = Some v -> ex_to_value q' = Some v -> q = q'.
Proof. unfold ex_to_value. repeat case_decide; intros [= <-] E; by simplify_eq. Qed.

Lemma binding_exact_witness :
  exists h, ex_binding ex_request Parent = Ok h /\ request_problems ex_request = [] /\
  forall r role, ex_binding r role = Ok h -> ex_request = r /\ Parent = role \/
    exists v v' b b', ex_to_value ex_request = Some v /\ ex_to_value r = Some v' /\
      canonical toy_scalar toy_quoted (configuration_value Parent v) = Some b /\
      canonical toy_scalar toy_quoted (configuration_value role v') = Some b' /\ collides b b'.
Proof.
  eexists. split; [vm_compute; reflexivity|]. split; [vm_compute; reflexivity|]. intros r role Hr.
  refine (proj2 (binding_exact ex_to_value ex_request r Parent role _ ex_to_value_wf ex_to_value_inj _ Hr)).
  vm_compute. reflexivity.
Defined.
