(* ===== verification/AssayExamples.v ===== *)
(** * An assayer at work

    The theorems of [Assay] at a concrete digest, encoder and file system. *)

From S2P Require Import Prelude Json Instances Manifest Store Assay CoreExamples.

#[local] Existing Instance toy_blake3.
#[local] Existing Instance countable_json.

Definition ex_pretty (m : Manifest) : bytes := to_vec m.
Definition ex_env : Env := mkEnv (fun _ => Works 2) Saved.
(** The save of the manifest fails, and leaves nothing. *)
Definition ex_lossy : Env := mkEnv (fun _ => Works 2) (Failed None).
Definition ex_tool : bytes := [x61; x62; x63].
Definition ex_proof : Proof_ := mkProof (hash_of ex_tool) (hash_of [x72]) "rustc" true.
Definition ex_assayer (l : list op) : Assayer := Assay.run ex_pretty fresh l.
Definition ex_forge : op := AdmitForged "/bin/t" ex_tool false Host ex_proof ex_env.

Example open_saved :
  let a := ex_assayer [ex_forge; RevokeHash (hash_of [x72]) ex_env] in
  match open from_slice (store a) (manifest_file a) true with
  | Ok a' => manifest a' = manifest a
  | Err _ => False
  end.
Proof. vm_compute. done. Qed.

Example proof_of_other_bytes :
  (admit_forged_authored ex_pretty fresh "/bin/t" [x62] false Host ex_proof ex_env).1 = Err ProofMismatch.
Proof. vm_compute. done. Qed.

Lemma assay_vouched_witness :
  let a := ex_assayer [ex_forge] in
  let x := mkEntry "/bin/t" (hash_of ex_tool) Forged false Host (Some (hash_of [x72])) in
  entries (manifest a) !! hash_of ex_tool = Some x /\
  (exists o b, o ∈ [ex_forge] /\ vouches o b x /\ hash_of ex_tool = hash_of b) /\
  (tier x = Forged -> exists n b i w p e, AdmitForged n b i w p e ∈ [ex_forge] /\
     hash_of ex_tool = hash_of b /\ artifact p = hash_of ex_tool /\ reproduced p = true /\ recipe x = Some (p_recipe p)) /\
  (exists b, hash_of ex_tool = hash_of b /\ (blen b <= u64_max -> fetch a (hash_of ex_tool) true = Ok b \/
     exists c, contents (store a) (target b) = Some c /\ collides c b)).
Proof.
  intros a x. assert (E : entries (manifest a) !! hash_of ex_tool = Some x) by (vm_compute; reflexivity).
  split; [exact E|]. exact (assay_vouched ex_pretty [ex_forge] (hash_of ex_tool) x E).
Defined.

Lemma assay_revocation_witness :
  let a := ex_assayer ([ex_forge] ++ RevokeHash (hash_of ex_tool) ex_lossy :: [ex_forge]) in
  permit_exec (manifest a) (hash_of ex_tool) = Err (Revoked (hash_of ex_tool)) /\ verify_standin (manifest a) = true.
Proof. apply (assay_revocation ex_pretty [ex_forge] [ex_forge] (hash_of ex_tool) ex_lossy). Defined.

(** A caller that calls the tool an interpreter tightens the entry, and the tier drops
    to verified. *)
Lemma resolve_by_content_witness :
  let '(r, a) := resolve ex_pretty (ex_assayer [ex_forge]) "/bin/t" ex_tool true ex_env in
  r = Ok (mkResolved (hash_of ex_tool) Verified false false) /\
  permit_exec (manifest a) (hash_of ex_tool) = Ok (mkEntry "/bin/t" (hash_of ex_tool) Verified true Host None).
Proof.
  pose proof (resolve_by_content ex_pretty (ex_assayer [ex_forge]) "/bin/t" ex_tool true ex_env
    (history_sound ex_pretty [ex_forge]) ltac:(intros k; discriminate)) as Hp.
  destruct (resolve ex_pretty (ex_assayer [ex_forge]) "/bin/t" ex_tool true ex_env) as [r a].
  vm_compute in Hp. vm_compute. exact Hp.
Defined.

Lemma resolve_relabels_witness :
  permit_exec (manifest (ex_assayer [AdmitVerified "/a" ex_tool true Agent ex_env])) (hash_of ex_tool) =
    Ok (mkEntry "/a" (hash_of ex_tool) Verified true Agent None) /\
  permit_exec (manifest (ex_assayer [AdmitVerified "/a" ex_tool true Agent ex_env; Resolve "/b" ex_tool false ex_env])) (hash_of ex_tool) =
    Ok (mkEntry "/b" (hash_of ex_tool) Verified false Host None).
Proof.
  destruct (resolve_relabels ex_pretty "/a" "/b" ex_tool true Agent ex_env ex_env) as (H1 & H2 & _).
  - discriminate.
  - intros k. discriminate.
  - intros k. discriminate.
  - split; [exact H1|exact H2].
Defined.
