(* ===== verification/TenancyExamples.v ===== *)
(** * Examples of tenancy: credentials and admission

    Concrete decisions, tokens and receivers, with executable stand-ins for the crates
    behind the interfaces. The witnesses of [Contract], [Credentials] and
    [AdmissionLaws] evaluate a start, its turns and a cleanup on them. *)

From S2P Require Import Prelude Text Json Instances Encoding Closure Contract Credentials Admission AdmissionLaws.

(** ** The interfaces *)

#[local] Instance toy_sha256 : Sha256 := {| sha256_hex := toy_hex; sha256_hex_wf := toy_hex_wf |}.

(** The calls of a document are those of the value that its bytes encode. *)
Fixpoint raw_of (v : Value) : Raw :=
  match v with
  | Null => RUnit
  | VBool b => RBool b
  | VNumber (PosInt u) => RU64 u
  | VNumber (NegInt i) => RI64 i
  | VNumber (Float b) => RF64 b
  | VString s => RStr s
  | VArray l => RSeq (raw_of <$> l)
  | VObject o => RMap ((fun kv => (kv.1, raw_of kv.2)) <$> o)
  end.
Definition toy_read (b : bytes) : option (Raw * bool) :=
  v ← cj_from_slice b; if raw_typed (raw_of v) then Some (raw_of v, true) else None.
Lemma toy_read_typed b r e : toy_read b = Some (r, e) -> raw_typed r = true.
Proof.
  unfold toy_read. intros (v & _ & E)%bind_Some. destruct (raw_typed (raw_of v)) eqn:Ht; [|done]. by injection E as <- _.
Qed.
#[local] Instance toy_text : JsonText := {| read_raw := toy_read; read_typed := toy_read_typed |}.

(** Rows, through values. *)
Definition opt_v (o : option string) : Value := match o with Some s => VString s | None => Null end.
Definition v_opt (v : Value) : option string := match v with VString s => Some s | _ => None end.
Definition row_v (r : Row) : Value :=
  let i := identity r in
  VArray [VNumber (PosInt (version r)); VString (i_cluster_id i); VString (i_namespace i); VString (i_namespace_uid i);
    VString (i_run_uid i); opt_v (parent_incarnation i); opt_v (turn_id i); VString (scope r); VString (run_scope r);
    opt_v (active_turn r); VNumber (PosInt (accepted_turns r)); VString (decision_digest r); VString (authority_digest r);
    VBool (fenced r); VString (run_binding r); VString (r_request_digest r); VString (owner r);
    match outcome r with None => Null | Some NeverStarted => VBool true | Some Refused => VBool false | Some (Receipt d) => VString d end].
Definition v_row (v : Value) : option Row :=
  match v with
  | VArray [VNumber (PosInt ver); VString c; VString n; VString nu; VString ru; pi; ti; VString s; VString rs; act;
      VNumber (PosInt acc); VString dd; VString ad; VBool f; VString rb; VString rd; VString ow; out] =>
      Some (mkRow ver (mkIdentity c n nu ru (v_opt pi) (v_opt ti)) s rs (v_opt act) acc dd ad f rb rd ow
        match out with Null => None | VBool true => Some NeverStarted | VBool false => Some Refused | VString d => Some (Receipt d) | _ => None end)
  | _ => None
  end.
Lemma v_row_v r : v_row (row_v r) = Some r.
Proof. destruct r as [? [? ? ? ? [] []] ? ? [] ? ? ? ? ? ? ? [[]|]]; done. Qed.
#[local] Instance Row_countable : Countable Row := inj_countable row_v v_row v_row_v.
#[local] Instance row_json : Json Row := countable_json.

(** A signature is the key and a digest of the message. *)
Definition sized (n : nat) (b : bytes) : bytes := take n (b ++ replicate n x00).
Lemma sized_length n b : length (sized n b) = n.
Proof. unfold sized. rewrite length_take, length_app, length_replicate. lia. Qed.
#[local] Instance toy_signatures : Ed25519.
Proof.
  refine {| verifying_key := sized 32; sign_message := fun seed m => sized 32 seed ++ sized 32 (as_bytes (toy_hex m));
    key_from_bytes := fun pk => Nat.eqb (length pk) 32;
    verify_strict := fun pk m sg => bool_decide (sg = pk ++ sized 32 (as_bytes (toy_hex m))) |}.
  - apply sized_length.
  - intros. by rewrite length_app, !sized_length.
  - intros. by rewrite sized_length.
  - intros. by apply bool_decide_eq_true.
Defined.

(** ** Decisions *)

Definition obj (l : list (string * Value)) : Value := VObject (foldl (fun o kv => oinsert kv.1 kv.2 o) [] l).
Definition ex_request : bytes := cj_to_vec (VString "task").
Definition ex_request_digest : string :=
  match canonical toy_scalar toy_quoted ex_request with Ok b => digest b | Err _ => "" end.
Definition ex_parent (turn : Value) : Value := obj [("incarnation", VString "p1"); ("turnId", turn)].
Definition ex_route : Value := obj [("provider", VString "none"); ("auth", VString "none")].
Definition ex_cap : Value := obj [("requests", vnum 1); ("outputTokens", vnum 8)].

Definition ex_decision (op life : string) (turn : Value) : Value := obj [
  ("apiVersion", VString "celln.sympozium.ai/authorisation-decision-v1"); ("clusterId", VString "c");
  ("operation", VString op); ("lifecycle", VString life); ("parent", ex_parent turn);
  ("windows", obj [("issuedAt", vnum 1000); ("notBefore", vnum 1000); ("admissionDeadline", vnum 1060)]);
  ("budget", obj [("budgetId", VString "b"); ("turnCap", ex_cap); ("runCap", ex_cap); ("maxTurns", vnum 2);
    ("parentDeadlineUnix", vnum 5000); ("turnDeadlineUnix", vnum 2000)]);
  ("run", obj [("namespace", VString "n"); ("namespaceUid", VString "nu"); ("uid", VString "r"); ("specSha256", VString "s")]);
  ("route", ex_route); ("requestDigest", VString ex_request_digest)].

Definition d_start : Value := ex_decision "execution.start" "enduring-initial" Null.
Definition d_turn : Value := ex_decision "execution.turn" "enduring-turn" (VString "t1").
Definition d_next : Value := ex_decision "execution.turn" "enduring-turn" (VString "t2").
Definition d_cleanup : Value := ex_decision "execution.cleanup" "enduring-turn" (VString "t2").

(** Values are read back from their encoding, decisions from their canonical form too. *)
Definition canonical_forms : list (bytes * Value) :=
  (fun d => (default [] (encode toy_scalar toy_quoted d), d)) <$> [d_start; d_turn; d_next; d_cleanup].
Definition read_form (forms : list (bytes * Value)) (b : bytes) : option Value :=
  match b with
  | x7b :: _ => snd <$> List.find (fun p => bool_decide (p.1 = b)) forms
  | _ => cj_from_slice b
  end.
Lemma read_form_to forms v : read_form forms (cj_to_vec v) = Some v.
Proof.
  assert (Hd : Forall digit (cj_to_vec v)) by apply pos_digits. pose proof (cj_from_to v) as E. unfold read_form.
  destruct (cj_to_vec v) as [|x b]; [exact E|]. apply Forall_cons in Hd as [Hx _].
  unfold digit in Hx. rewrite !elem_of_cons, elem_of_nil in Hx. destruct_or?; subst x; exact E.
Qed.
Definition toy_value_of : bytes -> option Value := read_form canonical_forms.
Definition toy_value_of_to : forall v, toy_value_of (cj_to_vec v) = Some v := read_form_to canonical_forms.
#[local] Instance toy_values : Json Value := {| to_vec := cj_to_vec; from_slice := toy_value_of; from_to := toy_value_of_to |}.
Lemma value_read v w : from_slice (cj_to_vec v) = Some w -> w = v.
Proof. pose proof (from_to v) as E. change (to_vec v) with (cj_to_vec v) in E. rewrite E. by intros [= ->]. Qed.

(** ** Tokens *)

Definition seed : bytes := [x01].
Definition ex_claims (op : string) (turn : option string) (d : Value) : Claims :=
  mkClaims "celln.sympozium.ai/authorisation-credential-v1" "cp" "celln-execution" 1001 1001 1050 "j"
    (digest (default [] (encode toy_scalar toy_quoted d))) "b" op (mkSubject "r" turn (Some "p1")).
Definition ex_claims_of (b : bytes) : option Claims :=
  match cj_from_slice b with
  | Some (VString "start") => Some (ex_claims "execution.start" None d_start)
  | Some (VString "turn") => Some (ex_claims "execution.turn" (Some "t1") d_turn)
  | Some (VString "next") => Some (ex_claims "execution.turn" (Some "t2") d_next)
  | Some (VString "cleanup") => Some (ex_claims "execution.cleanup" (Some "t2") d_cleanup)
  | _ => None
  end.
Definition toy_decode (s : string) : option bytes :=
  match strip_prefix "sig-" s with
  | Some p => Some (sign_message seed (as_bytes ("h." ++ p)))
  | None => Some (cj_to_vec (VString s))
  end.
#[local] Instance toy_formats : Formats := {|
  url_safe_decode := toy_decode;
  header_of b := if bool_decide (b = cj_to_vec (VString "h")) then Some (mkHeader "EdDSA" "celln-authorisation+jws" "k1") else None;
  claims_of := ex_claims_of;
  keyset_of _ := None;
  decision_schema _ := true;
  credential_schema _ := true;
|}.

Definition ex_token (p : string) : string := ("h." ++ p ++ ".sig-" ++ p)%string.
Definition ex_verifier : Verifier := mkVerifier "cp" {["k1" := sized 32 seed]}.
Definition ex_receiver (op : string) (turn : Value) : Receiver :=
  mkReceiver 1010 "celln-execution" op "c" "n" "nu" "r" "s" (ex_parent turn) ex_request_digest ex_route "b" false.

Example verify_start :
  verify toy_scalar toy_quoted ex_verifier (ex_token "start") (cj_to_vec d_start) (ex_receiver "execution.start" Null) = Ok None.
Proof. vm_compute. reflexivity. Qed.

Example verify_forged :
  verify toy_scalar toy_quoted ex_verifier "h.start.sig-turn" (cj_to_vec d_start) (ex_receiver "execution.start" Null) =
    Err "AUTH_CRED_SIG_INVALID".
Proof. vm_compute. reflexivity. Qed.

Example verify_late :
  let c := ex_receiver "execution.start" Null in
  verify toy_scalar toy_quoted ex_verifier (ex_token "start") (cj_to_vec d_start)
    (mkReceiver 1066 (expected_audience c) (expected_operation c) "c" "n" "nu" "r" "s" (parent c) ex_request_digest ex_route "b" false) =
    Err "AUTH_TIME_EXPIRED".
Proof. vm_compute. reflexivity. Qed.

(** ** A run: its start, two turns, and the end of it *)

Definition ex_journal : Journal := mkJournal (digest [x02]) 8.
Definition ex_other : Journal := mkJournal (digest [x03]) 8.
Definition claims (p operation : string) (turn d : Value) : op :=
  OClaim ex_journal ex_verifier (ex_token p) (cj_to_vec d) ex_request (ex_receiver operation turn).
Definition starts : op := claims "start" "execution.start" Null d_start.
Definition turns : op := claims "turn" "execution.turn" (VString "t1") d_turn.
Definition nexts : op := claims "next" "execution.turn" (VString "t2") d_next.
Definition ends (i : nat) (o : Outcome) : op := OFinish ex_journal i o.
Definition ex_receipt : Outcome := Receipt ("blake3:" ++ toy_hex [x04])%string.
Definition ex_world (ops : list op) : World := run (scalar := toy_scalar) (quoted := toy_quoted) (start (mkDisk ∅ true [])) (pair [] <$> ops).

Definition summary (w : World) : list (bool * Z * option Outcome) :=
  omap (fun h => r ← stored (files (disk w)) (path (scope h));
    Some (String.eqb (scope r) (run_scope r), accepted_turns r, outcome r)) (handles w).

(** A turn waits for the start, the next turn for the turn; the second start and the
    third acceptance get no handle. *)
Example ex_run :
  summary (ex_world [starts; starts; turns]) = [(true, 1, None)] /\
  summary (ex_world [starts; ends 0 ex_receipt; turns; nexts]) = [(false, 0, None); (true, 2, Some ex_receipt)] /\
  summary (ex_world [starts; ends 0 ex_receipt; turns; ends 0 Refused; nexts; turns]) =
    [(false, 0, Some Refused); (true, 2, Some ex_receipt)].
Proof. vm_compute. repeat split. Qed.

(** A failure after the row is published costs the handle, not the row. *)
Example ex_sync_fails :
  let fails n := replicate n false ++ [true] in
  let w n := run (scalar := toy_scalar) (quoted := toy_quoted) (start (mkDisk ∅ true [])) [(fails n, starts); ([], starts)] in
  length (handles (w 3%nat)) = 1%nat /\ (length (handles (w 11%nat)), size (files (disk (w 11%nat)))) = (0%nat, 2%nat).
Proof. vm_compute. repeat split. Qed.

(** ** Witnesses *)

Lemma canonical_exact_witness :
  exists b, canonical toy_scalar toy_quoted (cj_to_vec d_start) = Ok b /\
  forall raw' b', canonical toy_scalar toy_quoted raw' = Ok b' ->
    blen (cj_to_vec d_start) <= MAX_BYTES /\
    exists r r', read_raw (cj_to_vec d_start) = Some (r, true) /\ ijson r = true /\ read_raw raw' = Some (r', true) /\ ijson r' = true /\
      (digest b = digest b' <-> raw_value r = raw_value r' \/ sha_collides b b').
Proof.
  eexists. split; [vm_compute; reflexivity|]. intros raw' b' Hb'.
  refine (canonical_exact (cj_to_vec d_start) raw' _ b' _ Hb'). vm_compute. reflexivity.
Defined.

(** A start that is accepted meets the specification. *)
Lemma verify_exact_witness :
  let c := ex_receiver "execution.start" Null in
  verify toy_scalar toy_quoted ex_verifier (ex_token "start") (cj_to_vec d_start) c = Ok None /\
  exists payload d cl, authentic (scalar := toy_scalar) (quoted := toy_quoted) ex_verifier (ex_token "start") payload /\
    binds (scalar := toy_scalar) (quoted := toy_quoted) ex_verifier payload (cj_to_vec d_start) d cl /\
    well_formed d /\ scoped cl d c /\ in_time cl d c /\ replayed cl c = None.
Proof.
  intros c. assert (E : verify toy_scalar toy_quoted ex_verifier (ex_token "start") (cj_to_vec d_start) c = Ok None)
    by (vm_compute; reflexivity).
  split; [exact E|].
  destruct (proj1 (verify_exact ex_verifier (ex_token "start") (cj_to_vec d_start) c None) E) as (_ & _ & _ & p & d & cl & Ha & Hb & Hs & Ht & Hr).
  exists p, d, cl. split; [exact Ha|]. split; [exact Hb|]. split; [destruct Hb as (? & ? & _ & _ & Hw & _); exact Hw|].
  split; [exact Hs|]. split; [exact Ht|]. symmetry. exact Hr.
Defined.

Lemma verify_authentic_witness :
  let c := ex_receiver "execution.start" Null in
  verify toy_scalar toy_quoted ex_verifier (ex_token "start") (cj_to_vec d_start) c = Ok None /\
  exists p d cl, authentic (scalar := toy_scalar) (quoted := toy_quoted) ex_verifier (ex_token "start") p /\
    binds (scalar := toy_scalar) (quoted := toy_quoted) ex_verifier p (cj_to_vec d_start) d cl /\ now c < exp cl + 5.
Proof.
  intros c. assert (E : verify toy_scalar toy_quoted ex_verifier (ex_token "start") (cj_to_vec d_start) c = Ok None)
    by (vm_compute; reflexivity).
  split; [exact E|]. destruct (verify_authentic ex_verifier (ex_token "start") (cj_to_vec d_start) c None E) as (p & d & cl & Hs & Hb & Ht & _).
  exists p, d, cl. split; [exact Hs|]. split; [exact Hb|exact Ht].
Defined.

(** The turn is the unfinished handle, and the start is not. *)
Lemma admission_exclusive_witness :
  let w := ex_world [starts; ends 0 ex_receipt; turns; nexts] in
  length (handles w) = 2%nat /\ NoDup (scope <$> handles w) /\
  forall h h', h ∈ handles w -> h' ∈ handles w -> run_scope h = run_scope h' -> unfinished w h -> unfinished w h' -> h = h'.
Proof.
  intros w. split; [vm_compute; reflexivity|].
  exact (admission_exclusive (mkDisk ∅ true []) (pair [] <$> [starts; ends 0 ex_receipt; turns; nexts])).
Defined.

(** The value of an operation that succeeds on concrete inputs. *)
Definition fresh_of (x : result Error Claim) : option Fresh := match x with Ok (IsFresh f) => Some f | _ => None end.
Lemma fresh_value {D} (x : result Error Claim * D) f : fresh_of x.1 = Some f -> x = (Ok (IsFresh f), x.2).
Proof. destruct x as [[[]|] ?]; cbn; congruence. Qed.
Lemma ok_value {E A D} (x : result E A * D) a : to_option x.1 = Some a -> x = (Ok a, x.2).
Proof. destruct x as [[]]; cbn; congruence. Qed.
Lemma some_value {A} (o : option A) : is_Some_bool o = true -> exists a, o = Some a.
Proof. destruct o as [a|]; [by exists a|done]. Qed.

Definition started : World := ex_world [starts].
Definition ex_row : option Row := last (handles started).
Abbreviation ended := (run (scalar := toy_scalar) (quoted := toy_quoted) (start (mkDisk ∅ true [])) (pair [] <$> [starts; ends 0 ex_receipt])).
Definition c_turn : Receiver := ex_receiver "execution.turn" (VString "t1").
Definition c_cleanup : Receiver := ex_receiver "execution.cleanup" (VString "t2").
Abbreviation claim_turn :=
  (claim toy_scalar toy_quoted ex_journal ex_verifier (ex_token "turn") (cj_to_vec d_turn) ex_request c_turn).
Abbreviation clean_up :=
  (access toy_scalar toy_quoted ex_verifier (ex_token "cleanup") (cj_to_vec d_cleanup) c_cleanup
    (mkEnrollment (cj_to_vec d_next) ex_request (j_owner ex_journal))).

Lemma admission_forward_witness :
  exists r, ex_row = Some r /\ exists r', stored (files (disk (run (scalar := toy_scalar) (quoted := toy_quoted) started
    [([], ends 0 ex_receipt)]))) (path (scope r)) = Some r' /\ forward r r'.
Proof.
  assert (E : (r ← ex_row; q ← stored (files (disk started)) (path (scope r)); Some (bool_decide (q = r))) = Some true)
    by (vm_compute; reflexivity).
  apply bind_Some in E as (r & Er & E). apply bind_Some in E as (q & Eq & E). injection E as E. apply bool_decide_eq_true in E.
  subst q. exists r. split; [exact Er|].
  exact (admission_forward (scalar := toy_scalar) (quoted := toy_quoted) started [([], ends 0 ex_receipt)] (scope r) r Eq).
Defined.

Lemma claim_authorised_witness :
  exists f, (claim_turn (disk ended)).1 = Ok (IsFresh f) /\
    run_scope (record f) = root_scope c_turn /\ count (run_scope (record f)) (record f :: handles ended) <= 2.
Proof.
  assert (Ht : (fun f => String.eqb (scope (record f)) (run_scope (record f))) <$> fresh_of (claim_turn (disk ended)).1 = Some false)
    by (vm_compute; reflexivity).
  apply fmap_Some in Ht as (f & E & Hne). exists f. apply fresh_value in E. split; [by rewrite E|].
  destruct (claim_authorised (mkDisk ∅ true []) (pair [] <$> [starts; ends 0 ex_receipt]) ex_journal ex_verifier (ex_token "turn")
    (cj_to_vec d_turn) ex_request c_turn f _ E) as (_ & _ & Hroot & _ & _ & dv & Hdv & Hle).
  split; [exact Hroot|]. apply value_read in Hdv. subst dv.
  assert (Hb : default 0 (as_u64 (vget "maxTurns" (vget "budget" d_turn))) = 2) by (vm_compute; reflexivity).
  rewrite Hb in Hle. symmetry in Hne. apply String.eqb_neq in Hne. destruct (decide _); [contradiction|exact Hle].
Defined.

(** The turn [t2] is cleaned up before it starts; [t1] may still run. *)
Lemma cleanup_fences_witness :
  exists r f, to_option (clean_up (disk ended)).1 = Some r /\
    fresh_of (claim_turn (disk (run (scalar := toy_scalar) (quoted := toy_quoted) (mkWorld (clean_up (disk ended)).2 (handles ended)) [([], nexts)]))).1 = Some f /\
    fenced r = true /\ scope (record f) <> scope r /\ run_scope (record f) <> scope r.
Proof.
  destruct (some_value (to_option (clean_up (disk ended)).1)) as [r Er]; [vm_compute; reflexivity|].
  destruct (some_value (fresh_of (claim_turn (disk (run (scalar := toy_scalar) (quoted := toy_quoted)
    (mkWorld (clean_up (disk ended)).2 (handles ended)) [([], nexts)]))).1)) as [f Ef]; [vm_compute; reflexivity|].
  exists r, f. split; [exact Er|]. split; [exact Ef|]. apply ok_value in Er. apply fresh_value in Ef.
  exact (cleanup_fences ended ex_verifier (ex_token "cleanup") (cj_to_vec d_cleanup) c_cleanup _ r _ [([], nexts)] ex_journal ex_verifier
    (ex_token "turn") (cj_to_vec d_turn) ex_request c_turn f _ eq_refl Er Ef).
Defined.

Lemma finish_once_witness :
  exists r d1, ex_row = Some r /\ finish ex_journal (mkFresh r) ex_receipt (disk started) = (Ok tt, d1) /\
    owner r = j_owner ex_journal /\
    forall o' d', finish ex_journal (mkFresh r) o' d1 = (Ok tt, d') -> o' = ex_receipt.
Proof.
  destruct (some_value (r ← ex_row; to_option (finish ex_journal (mkFresh r) ex_receipt (disk started)).1)) as [[] E]; [vm_compute; reflexivity|].
  apply bind_Some in E as (r & Er & Ef). apply ok_value in Ef. eexists r, _. split; [exact Er|]. split; [exact Ef|].
  pose proof (fun o' d' => finish_once (scalar := toy_scalar) (quoted := toy_quoted) started ex_journal (mkFresh r) ex_receipt _ []
    ex_journal (mkFresh r) o' d' Ef) as Ho. split; [apply (Ho ex_receipt (disk started))|].
  intros o' d' H. exact (proj2 (proj2 (Ho o' d')) eq_refl H).
Defined.
