(* ===== verification/HarnessExamples.v ===== *)
(** * A conversation of the model loop

    One tool, a model that calls it and then answers, and models that ask for too much;
    executable stand-ins are those of [TenancyExamples]. *)

From S2P Require Import Prelude Text Json Instances Manifest Harness HarnessLaws TenancyExamples.
From S2P Require ToolSchema.

#[local] Existing Instance toy_blake3.
#[local] Existing Instances toy_text toy_values.

(** The one schema is an object without properties. *)
Definition ex_node (v : Value) : option ToolSchema.Node :=
  match vget "type" v with VString "object" => Some (ToolSchema.Object [] [] false) | _ => None end.
Definition ex_schema : Schema :=
  let b := to_vec (obj [("type", VString "object")]) in mkSchema (from_utf8 b) (hash_of b).
Definition ex_tool : Tool :=
  mkTool "t" "/t" (hash_of []) "d" ex_schema ex_schema 4096 4096 1000 None.
Definition ex_config (turns calls : Z) : Config :=
  mkConfig CONTRACT "x" "" "https://m" "m" [ex_tool] turns calls true false 256.

Definition ex_text (v : Value) : string := from_utf8 (to_vec v).
Definition ex_call (id : string) : Value :=
  obj [("id", VString id); ("type", VString "function");
    ("function", obj [("name", VString "t"); ("arguments", VString (ex_text (obj [])))])].
Definition ex_response (fields : list (string * Value)) : result string bytes :=
  Ok (to_vec (obj [("choices", VArray [obj [("message", obj (("role", VString "assistant") :: fields))]])])).
Definition ex_calls (ids : list string) : result string bytes := ex_response [("tool_calls", VArray (ex_call <$> ids))].
Definition ex_answer : result string bytes := ex_response [("content", VString "ok")].
Definition ex_result : result string bytes := Ok (to_vec (obj [])).

Definition ex_run (turns calls : Z) (l : list (result string bytes)) : result string string * (Z * Z) :=
  let '(r, e) := run ex_node (ex_config turns calls) (mkEnv l [ex_result; ex_result; ex_result] []) in
  (r, (asks (acts e), calls_in (acts e))).

(** The model calls the tool, reads its result and answers. *)
Example conversation_ends : ex_run 2 1 [ex_calls ["a"]; ex_answer] = (Ok "ok", (2, 1)).
Proof. vm_compute. reflexivity. Qed.
(** An answer without the call that is required; a batch over the budget, of which
    nothing is called; a repeated identifier; a call with no turn left for its result. *)
Example conversation_needs_call : ex_run 2 1 [ex_answer] = (Err "model completed without required tool execution", (1, 0)).
Proof. vm_compute. reflexivity. Qed.
Example conversation_over_budget : ex_run 2 1 [ex_calls ["a"; "b"]] = (Err "tool call budget exhausted", (1, 0)).
Proof. vm_compute. reflexivity. Qed.
Example conversation_repeats : ex_run 3 2 [ex_calls ["a"; "a"]] = (Err "duplicate or invalid tool call", (1, 0)).
Proof. vm_compute. reflexivity. Qed.
Example conversation_last_turn : ex_run 2 2 [ex_calls ["a"]; ex_calls ["b"]] = (Err "model budget leaves no tool result turn", (2, 1)).
Proof. vm_compute. reflexivity. Qed.
