(* ===== verification/ParentExamples.v ===== *)
(** * A parent, its context and its session

    Executable stand-ins for the crates behind the interfaces, and one conversation: a
    turn that a worker answers, its replay, and a parent whose worker answers for another
    child. *)

From S2P Require Import Prelude Text Json Instances Encoding Manifest Protocol ParentContext ParentContextLaws Session SessionLaws.
From S2P Require Harness Control Lease Journal ChildControl JournalExamples.

#[local] Existing Instance toy_blake3.
#[local] Existing Instances JournalExamples.Reservation_countable JournalExamples.DestroyedRecord_countable
  JournalExamples.CommittedRecord_countable JournalExamples.ParentRecord_countable JournalExamples.OwnerRecord_countable
  JournalExamples.ProcessRecord_countable.

(** ** Tasks, whose exchanges are separated by commas *)

Lemma exchange_pair e : mkExchange (user e, assistant e).1 (user e, assistant e).2 = e.
Proof. by destruct e. Qed.
#[local] Instance Exchange_eq_dec : EqDecision Exchange.
Proof. solve_decision. Defined.
#[local] Instance Exchange_countable : Countable Exchange :=
  inj_countable' (fun e => (user e, assistant e)) (fun p => mkExchange p.1 p.2) exchange_pair.
Definition exchange_to (e : Exchange) : bytes := x30 :: cj_to_vec e.
Definition exchange_from (b : bytes) : option Exchange := match b with _ :: b => cj_from_slice b | [] => None end.
Lemma exchange_from_to e : exchange_from (exchange_to e) = Some e.
Proof. apply cj_from_to. Qed.
Lemma exchange_digits e : Forall digit (exchange_to e).
Proof. constructor; [unfold digit; set_solver|apply pos_digits]. Qed.
#[local] Instance exchange_json : Json Exchange := {| to_vec := exchange_to; from_slice := exchange_from; from_to := exchange_from_to |}.

Definition digit_b (b : byte) : bool := bool_decide (digit b).
Fixpoint join (h : list Exchange) : bytes :=
  match h with [] => [] | [e] => exchange_to e | e :: h => exchange_to e ++ x2c :: join h end.
Fixpoint items (fuel : nat) (b : bytes) : option (list Exchange) :=
  match fuel with
  | O => None
  | S fuel =>
      let '(x, r) := span digit_b b in
      e ← exchange_from x;
      match r with [] => Some [e] | _ :: r => es ← items fuel r; Some (e :: es) end
  end.
Definition context_to (c : ContextInput) : bytes := cj_to_vec (c_message c) ++ x3a :: join (c_history c).
Definition context_from (b : bytes) : option ContextInput :=
  let '(x, r) := span digit_b b in
  m ← cj_from_slice x;
  match r with
  | [] => None
  | _ :: [] => Some (mkContext [] m)
  | _ :: r => es ← items (S (length r)) r; Some (mkContext es m)
  end.

Lemma span_digits b r : Forall digit b -> match r with [] => True | x :: _ => digit_b x = false end -> span digit_b (b ++ r) = (b, r).
Proof.
  induction 1 as [|x b Hx Hb IH]; intros Hr; cbn.
  - destruct r as [|y r]; [done|]. cbn. by rewrite Hr.
  - unfold digit_b at 1. rewrite bool_decide_eq_true_2 by done. by rewrite IH.
Qed.
Lemma items_join h : forall fuel, (length h <= fuel)%nat -> h <> [] -> items fuel (join h) = Some h.
Proof.
  induction h as [|e h IH]; intros fuel Hf Hn; [done|]. destruct fuel as [|fuel]; [cbn in Hf; lia|]. cbn [items].
  pose proof (exchange_digits e) as Hd. destruct h as [|e' h].
  - cbn [join]. rewrite <- (app_nil_r (exchange_to e)), (span_digits _ [] Hd I), exchange_from_to. done.
  - change (join (e :: e' :: h)) with (exchange_to e ++ x2c :: join (e' :: h)). rewrite (span_digits _ (x2c :: _) Hd eq_refl), exchange_from_to. cbn [mbind option_bind].
    rewrite IH; [done|cbn in *; lia|done].
Qed.
Lemma join_length h : (length h <= S (length (join h)))%nat.
Proof.
  induction h as [|e h IH]; [cbn; lia|]. destruct h as [|e' h]; [cbn; lia|].
  change (join (e :: e' :: h)) with (exchange_to e ++ x2c :: join (e' :: h)). rewrite length_app. cbn [length] in *. lia.
Qed.
Lemma join_nonempty e h : exists x b, join (e :: h) = x :: b.
Proof.
  destruct h as [|e' h]; by eexists _, _.
Qed.
Lemma context_from_to c : context_from (context_to c) = Some c.
Proof.
  destruct c as [h m]. unfold context_from, context_to. cbn [c_message c_history].
  rewrite (span_digits (cj_to_vec m) (x3a :: join h) (pos_digits _) eq_refl), cj_from_to. cbn [mbind option_bind]. destruct h as [|e h]; [done|].
  destruct (join_nonempty e h) as (x & b & E). pose proof (items_join (e :: h) (S (length (join (e :: h)))) (join_length _) ltac:(done)) as Hi.
  rewrite E in Hi |- *. by rewrite Hi.
Qed.
#[local] Instance context_json : Json ContextInput := {| to_vec := context_to; from_slice := context_from; from_to := context_from_to |}.

#[local] Instance task_json : TaskJson.
Proof.
  intros h m Hh. change (to_vec (mkContext h m)) with (cj_to_vec m ++ x3a :: join h). change (to_vec (mkContext [] m)) with (cj_to_vec m ++ [x3a]).
  unfold blen. rewrite !length_app. cbn [length]. enough (Z.of_nat (length (join h)) =
    foldr Z.add 0 ((fun e : Exchange => Z.of_nat (length (to_vec e))) <$> h) + (Z.of_nat (length h) - 1)) by lia.
  induction h as [|e h IH]; [done|]. destruct h as [|e' h]; [cbn; lia|].
  change (join (e :: e' :: h)) with (exchange_to e ++ x2c :: join (e' :: h)). rewrite length_app. cbn [length fmap list_fmap foldr] in *. specialize (IH ltac:(done)).
  change (to_vec e) with (exchange_to e). lia.
Qed.

(** ** Messages and replies *)

Abbreviation parts := (list (Z + string))%type.
Definition history_parts (h : list Exchange) : parts := concat ((fun e => [inr (user e); inr (assistant e)]) <$> h).
Fixpoint parts_history (l : parts) : list Exchange :=
  match l with inr u :: inr a :: l => mkExchange u a :: parts_history l | _ => [] end.
Lemma parts_history_parts h : parts_history (history_parts h) = h.
Proof. induction h as [|[u a] h IH]; [done|]. unfold history_parts in *. cbn. by rewrite IH. Qed.
Definition flag (b : bool) : Z + string := inl (if b then 1 else 0).

Definition message_parts (m : HostMessage) : parts :=
  match m with
  | HTurn v t x => [inl 0; inr v; inr t; inr x]
  | HResult v t ok a => [inl 1; inr v; inr t; flag ok; inr a]
  | HSeed v h => inl 2 :: inr v :: history_parts h
  end.
Definition parts_message (l : parts) : option HostMessage :=
  match l with
  | [inl 0; inr v; inr t; inr x] => Some (HTurn v t x)
  | [inl 1; inr v; inr t; inl ok; inr a] => Some (HResult v t (negb (ok =? 0)) a)
  | inl 2 :: inr v :: l => Some (HSeed v (parts_history l))
  | _ => None
  end.
Lemma parts_message_parts m : parts_message (message_parts m) = Some m.
Proof. destruct m as [| ? ? [] ?|v h]; try done. cbn. by rewrite parts_history_parts. Qed.
Definition reply_parts (r : ParentReply) : parts :=
  match r with
  | Spawn q => [inl 0; inr (api_version q); inr (turn_id q); inr (task q)]
  | Completed v t ok a => [inl 1; inr v; inr t; flag ok; inr a]
  | Seeded v n => [inl 2; inr v; inl n]
  end.
Definition parts_reply (l : parts) : option ParentReply :=
  match l with
  | [inl 0; inr v; inr t; inr x] => Some (Spawn (mkTurnRequest v t x))
  | [inl 1; inr v; inr t; inl ok; inr a] => Some (Completed v t (negb (ok =? 0)) a)
  | [inl 2; inr v; inl n] => Some (Seeded v n)
  | _ => None
  end.
Lemma parts_reply_parts r : parts_reply (reply_parts r) = Some r.
Proof. by destruct r as [[]| ? ? [] ?|]. Qed.

#[local] Instance HostMessage_eq_dec : EqDecision HostMessage.
Proof. solve_decision. Defined.
#[local] Instance HostMessage_countable : Countable HostMessage := inj_countable message_parts parts_message parts_message_parts.
#[local] Instance message_json : Json HostMessage := countable_json.
#[local] Instance ParentReply_eq_dec : EqDecision ParentReply.
Proof. solve_decision. Defined.
#[local] Instance ParentReply_countable : Countable ParentReply := inj_countable reply_parts parts_reply parts_reply_parts.
#[local] Instance reply_json : Json ParentReply := countable_json.
#[local] Instance request_json : Json TurnRequest := countable_json.
#[local] Instance pair_json : Json (string * string) := countable_json.
#[local] Instance reservation_json : Json Journal.Reservation := countable_json.
#[local] Instance destroyed_json : Json Journal.DestroyedRecord := countable_json.
#[local] Instance committed_json : Json Journal.CommittedRecord := countable_json.
#[local] Instance parent_json : Json Journal.ParentRecord := countable_json.
#[local] Instance owner_json : Json Journal.OwnerRecord := countable_json.
#[local] Instance process_json : Json Journal.ProcessRecord := countable_json.
#[local] Instance value_json : Json Json.Value := countable_json.

(** ** Packing *)

Definition ex_history : list Exchange := [mkExchange "old" "gone"; mkExchange "recent" "a longer answer"].
Definition ex_packed (bound : Z) : result string (list Exchange * string) :=
  t ← pack_task ex_history "next" bound;
  c ← ok_or (from_slice (as_bytes t)) "task";
  Ok (c_history c, c_message c).

(** All of it; the newest exchange; that exchange cut; nothing; no room for the message. *)
Example packs_all : ex_packed 1000 = Ok (ex_history, "next").
Proof. vm_compute. reflexivity. Qed.
Definition ex_room (h : list Exchange) : Z := str_len (encode_task h "next").
Example packs_newest : ex_packed (ex_room ex_history - 1) = Ok ([mkExchange "recent" "a longer answer"], "next").
Proof. vm_compute. reflexivity. Qed.
Example packs_nothing : ex_packed (ex_room []) = Ok ([], "next").
Proof. vm_compute. reflexivity. Qed.
Example packs_too_long : is_err (ex_packed (ex_room [] - 1)) = true.
Proof. vm_compute. reflexivity. Qed.
Definition ex_wide : list Exchange := [mkExchange "u" "0123456789012345678901234567890123456789"].
Definition ex_cut (bound : Z) : result string (list string) :=
  t ← pack_task ex_wide "next" bound;
  c ← ok_or (from_slice (as_bytes t)) "task";
  Ok (assistant <$> c_history c).
Example packs_cut : ex_cut (ex_room ex_wide - 100) = Ok ["0123456789012" ++ TRUNCATION_MARKER]%string.
Proof. vm_compute. reflexivity. Qed.

Lemma pack_exact_witness : exists t, pack_task ex_history "next" 1000 = Ok t /\ packed ex_history "next" 1000 t /\ str_len t <= 1000.
Proof.
  destruct (pack_task ex_history "next" 1000) as [t|] eqn:E; [|vm_compute in E; discriminate E].
  exists t. split; [reflexivity|]. pose proof (pack_exact ex_history "next" 1000) as Hp. rewrite E in Hp. exact Hp.
Defined.

(** ** Talking *)

Definition ex_turn (id : string) : bytes := to_vec (HTurn VERSION id "hello").
Definition ex_result (id : string) : bytes := to_vec (HResult VERSION id true "hi").
Definition ex_seed : bytes := to_vec (HSeed VERSION ex_history).

(** A seed and a turn; its replay, a second seed and a result for another turn are not
    accepted; the next turn's worker is told of the first. *)
Example talks :
  let '(l, s) := talk [ex_seed; ex_turn "a"; ex_seed; ex_turn "b"; ex_result "b"; ex_result "a"; ex_turn "a"; ex_turn "b"] in
  workers l = ["a"; "b"] /\ results l = ["a"] /\ history s = ex_history ++ [mkExchange "hello" "hi"] /\ pending s = Some ("b", "hello").
Proof. vm_compute. split_and!; reflexivity. Qed.

Lemma context_refines_witness : exists m M', readable (ex_turn "a") m /\ converse fresh m (Spawn (mkTurnRequest Protocol.VERSION "a"
  (encode_task [] "hello"))) M' /\ represents (exchange default (ex_turn "a")).2 M'.
Proof.
  pose proof (context_refines default fresh (ex_turn "a") (conj eq_refl (conj eq_refl eq_refl))) as Hc.
  destruct (exchange default (ex_turn "a")) as [r s] eqn:E.
  assert (Er : r = Ok (Spawn (mkTurnRequest Protocol.VERSION "a" (encode_task [] "hello")))).
  { assert (Ex : (exchange default (ex_turn "a")).1 = Ok (Spawn (mkTurnRequest Protocol.VERSION "a" (encode_task [] "hello")))) by (vm_compute; reflexivity).
    rewrite E in Ex. exact Ex. }
  subst r. exact Hc.
Defined.

(** ** A session *)

Definition ex_limits : Lease.TurnLimits := Lease.mkTurnLimits 4096 30000 3 1536.
Definition ex_lease : result Lease.LeaseError Lease.ParentLease := Lease.new JournalExamples.p0 60000 ex_limits 2 6 3072 0.
Definition ex_child (id : string) : hash := Lease.child_identity JournalExamples.p0 id.
Definition ex_session (l : Lease.ParentLease) (r : list (result string bytes)) (o : list (result string DestroyedChild)) : Session :=
  mkSession l JournalExamples.j0 false (Some (ChildControl.new JournalExamples.p0 0)) (Journal.create JournalExamples.p0 JournalExamples.fs0).2
    (Control.mkWorld [Control.mkInner 1000000 0 None] 5 [5%N; 5%N]) [1; 2; 3; 4; 5; 6; 7; 8] r o [] [].
(** The parent is the context of a conversation. *)
Definition ex_replies (bs : list bytes) : list (result string bytes) := (fun o : Said => Ok (to_vec o.2)) <$> (talk bs).1.
Definition ex_whole : list (result string bytes) := ex_replies [ex_turn "a"; ex_result "a"; ex_turn "b"; ex_result "b"].
Definition ex_done (id : string) : result string DestroyedChild := Ok (mkDestroyed (ex_child id) true "hi").

Definition ex_served (inputs : list bytes) (o : list (result string DestroyedChild)) : list (option ParentReply) * (list string * bool) :=
  match ex_lease with
  | Ok l =>
      let '(rs, s) := serve inputs (ex_session l ex_whole o) in
      ((fun r => match r with Ok b => from_slice b | Err _ => None end) <$> rs,
       ((fun t => turn_id (Lease.rt_request t)) <$> works (acts s), closed s))
  | Err _ => ([], ([], true))
  end.
(** Two turns; a replay, which ends the session; a worker that answers for another child. *)
Example serves_two : ex_served [ex_turn "a"; ex_turn "b"] [ex_done "a"; ex_done "b"] =
  ([Some (Completed VERSION "a" true "hi"); Some (Completed VERSION "b" true "hi")], (["a"; "b"], false)).
Proof. vm_compute. reflexivity. Qed.
Example serves_no_injection : ex_served [ex_result "a"; ex_turn "a"] [ex_done "a"] = ([None; None], ([], true)).
Proof. vm_compute. reflexivity. Qed.
Example serves_no_stranger : ex_served [ex_turn "a"; ex_turn "b"] [ex_done "b"] = ([None; None], (["a"], true)).
Proof. vm_compute. reflexivity. Qed.

Lemma ex_lease_Ok : exists l, ex_lease = Ok l.
Proof. eexists. vm_compute. reflexivity. Defined.

Lemma session_bounded_witness : exists l k, ex_lease = Ok l /\
  acts (serve [ex_turn "a"; ex_turn "b"] (ex_session l ex_whole [ex_done "a"; ex_done "b"])).2 = k /\ (length (works k) <= 2)%nat /\
  Lease.requests_reserved (works k) <= 6.
Proof.
  destruct ex_lease as [l|] eqn:El; [|vm_compute in El; discriminate El]. exists l.
  assert (H0 : 0 <= Lease.timeout ex_limits) by (cbn; lia). assert (H1 : 0 <= Lease.model_requests ex_limits) by (cbn; lia).
  assert (H2 : 0 <= Lease.output_tokens ex_limits) by (cbn; lia).
  pose proof (session_bounded JournalExamples.p0 60000 ex_limits 2 6 3072 0 (ex_session l ex_whole [ex_done "a"; ex_done "b"])
    [ex_turn "a"; ex_turn "b"] H0 H1 H2 El eq_refl) as Hs.
  destruct (serve [ex_turn "a"; ex_turn "b"] (ex_session l ex_whole [ex_done "a"; ex_done "b"])) as [rs s'].
  destruct Hs as (k & ts & Ha & _ & Hlen & _ & Hreq & _). cbn in Ha. exists k.
  split; [reflexivity|]. split; [exact Ha|]. split; [apply Hlen|exact Hreq].
Defined.

