(* ===== verification/WorkerExamples.v ===== *)
(** * A turn's worker, from its template to its loop

    A template with one tool, the task that a parent packed, and the conversation that the
    worker's loop holds with them. *)

From S2P Require Import Prelude Text Json Instances Manifest Protocol Harness HarnessLaws ParentContext TurnWorker TenancyExamples HarnessExamples ParentExamples.
From S2P Require Lease JournalExamples.

#[local] Existing Instances toy_blake3 toy_text toy_values context_json.

#[local] Instance Schema_eq_dec : EqDecision Schema.
Proof. solve_decision. Defined.
#[local] Instance Schema_countable : Countable Schema :=
  inj_countable' (fun s => (s_bytes s, s_hash s)) (fun p => mkSchema p.1 p.2) (fun s => match s with mkSchema _ _ => eq_refl end).
#[local] Instance Argv_eq_dec : EqDecision Argv.
Proof. solve_decision. Defined.
#[local] Instance Argv_countable : Countable Argv :=
  inj_countable' (fun a => (args a, stdin a)) (fun p => mkArgv p.1 p.2) (fun a => match a with mkArgv _ _ => eq_refl end).
#[local] Instance Tool_eq_dec : EqDecision Tool.
Proof. solve_decision. Defined.
#[local] Instance Tool_countable : Countable Tool :=
  inj_countable' (fun t => ((name t, path t, t_hash t, description t), (input_schema t, output_schema t), (input_bytes t, output_bytes t, timeout_ms t), argv t))
    (fun '((n, p, h, d), (i, o), (ib, ob, ms), a) => mkTool n p h d i o ib ob ms a) (fun t => match t with mkTool _ _ _ _ _ _ _ _ _ _ => eq_refl end).
#[local] Instance Config_eq_dec : EqDecision Config.
Proof. solve_decision. Defined.
#[local] Instance Config_countable : Countable Config :=
  inj_countable' (fun c => ((contract c, Harness.task c, system c, url c, model c), tools c, (max_turns c, max_calls c, max_tokens c), (require_tool_call c, allow_insecure c)))
    (fun '((k, t, s, u, m), ts, (mt, mc, mk), (r, i)) => mkConfig k t s u m ts mt mc r i mk)
    (fun c => match c with mkConfig _ _ _ _ _ _ _ _ _ _ _ => eq_refl end).
#[local] Instance config_json : Json Config := countable_json.
#[local] Instance versioned_json : Json (string * Config) := countable_json.

Definition ex_template : result string Template := new ex_node (with_task (ex_config 2 1) EmptyString).
Definition ex_reserved : Lease.ReservedTurn :=
  Lease.mkReservedTurn "p" "c" (mkTurnRequest Protocol.VERSION "a" (encode_task [mkExchange "u" "a"] "x")) (Lease.mkTurnLimits 1 1 2 512).
Definition ex_worker : Template := match ex_template with Ok p => p | Err _ => mkTemplate (ex_config 0 0) EmptyString end.
Definition ex_arguments (tokens : Z) : result string (string * string) :=
  arguments ex_node ex_worker (Lease.mkReservedTurn "p" "c" (Lease.rt_request ex_reserved) (Lease.mkTurnLimits 1 1 2 tokens)).

(** The template's first request, its tool call and its answer; a budget that is short. *)
Example worker_template : is_ok ex_template = true /\ is_ok (ex_arguments 512) = true /\ is_err (ex_arguments 511) = true.
Proof. vm_compute. split_and!; reflexivity. Qed.
Example worker_answers : (run_with_history ex_node (with_task (policy ex_worker) "x") [mkExchange "u" "a"]
  (mkEnv [ex_calls ["a"]; ex_answer] [Ok (to_vec (obj []))] [])).1 = Ok "ok".
Proof. vm_compute. reflexivity. Qed.

Lemma worker_within_reservation_witness : exists config raw, ex_arguments 512 = Ok (config, raw) /\
  exists context c, decode_context raw = Ok context /\ c = with_task (policy ex_worker) (c_message context) /\
    exists l ns, acts (run_with_history ex_node c (c_history context) (mkEnv [] [] [])).2 = l /\ 0 < asks l <= 2 /\
      mapM wire_tokens (wires l) = Some ns /\ sum_of ns <= 512.
Proof.
  assert (Hok : is_ok (ex_arguments 512) = true) by (vm_compute; reflexivity).
  destruct (ex_arguments 512) as [[config raw]|] eqn:Ea; [|discriminate Hok].
  destruct (worker_within_reservation ex_node ex_worker ex_reserved config raw (mkEnv [] [] []) Ea) as (context & c & Hd & Hc & _ & _ & l & ns & E & Hl & Hm & Hs & _).
  exists config, raw. split; [reflexivity|]. exists context, c. split; [exact Hd|]. split; [exact Hc|].
  exists l, ns. split; [exact E|]. split; [exact Hl|]. split; [exact Hm|exact Hs].
Defined.
