(* ===== verification/ScopedExamples.v ===== *)
(** * Examples of scoped operations

    An operation with a tool that writes run data and two that fetch from the web, with the
    decoders of their limits; a run's parent and its turn, prepared, started, answered and
    cleaned up in several orders; a budget and the turn it pays for. The witnesses of
    [ScopedPolicyLaws] and [ScopedLaws] evaluate on them. *)

From S2P Require Import Prelude Text Json Instances Manifest ScopedPolicy ScopedPolicyLaws.
From S2P Require Lease Control Workspace Broker Egress.

Module policy.

Definition num (n : Z) : Value := VNumber (PosInt n).
Definition exactly (keys : list string) (v : Value) : bool :=
  match v with VObject o => bool_decide (map fst o = keys) | _ => false end.
Definition operation_of (v : Value) : option Artifacts.Operation :=
  s ← as_str v;
  List.find (fun o => String.eqb (Artifacts.name o) s) [Artifacts.Read; Artifacts.Write; Artifacts.List; Artifacts.Append; Artifacts.Search; Artifacts.Delete].
Definition data_of (v : Value) : option Artifacts.Limits :=
  if negb (exactly ["operation"; "maxOperations"; "maxFiles"; "maxFileBytes"; "maxTotalBytes"] v) then None else
  o ← operation_of (vget "operation" v); a ← as_u64 (vget "maxOperations" v); b ← as_u64 (vget "maxFiles" v);
  c ← as_u64 (vget "maxFileBytes" v); d ← as_u64 (vget "maxTotalBytes" v);
  Some (Artifacts.mkLimits o a b c d).
Definition web_of (v : Value) : option Https.Limits :=
  if negb (exactly ["allowHosts"; "maxRequests"; "maxResponseBytes"; "timeoutMillis"] v) then None else
  l ← array (vget "allowHosts" v); hosts ← mapM as_str l; a ← as_u64 (vget "maxRequests" v);
  b ← as_u64 (vget "maxResponseBytes" v); c ← as_u64 (vget "timeoutMillis" v);
  Some (Https.mkLimits hosts a b c).

Definition data_limits (o : string) (n : Z) : Value :=
  VObject [("operation", VString o); ("maxOperations", num n); ("maxFiles", num 8); ("maxFileBytes", num 64); ("maxTotalBytes", num 512)].
Definition web_limits (hosts : list string) (n : Z) : Value :=
  VObject [("allowHosts", VArray (map VString hosts)); ("maxRequests", num n); ("maxResponseBytes", num 4096); ("timeoutMillis", num 9000)].
Definition tool_limits (effects : string) (artifacts https : Value) : Value :=
  VObject [("timeoutMillis", num 10000); ("argumentBytes", num 1024); ("workspace", VString "none"); ("effects", VString effects);
           ("artifacts", artifacts); ("https", https)].
Definition material (e : string) (l : Value) : Value := VObject [("spec", VObject [("entryPoint", VString e); ("limits", l)])].
Definition signed (l : Value) : Value := VObject [("limits", l)].

(** What the material declares, and what the decision signs. *)
Definition execution : Value := VObject [("tools", VArray [
  material "/write" (tool_limits "external-side-effects" (data_limits "write" 4) Null);
  material "/https-fetch" (tool_limits "external-side-effects" Null (web_limits ["*"] 8));
  material "/https-fetch" (tool_limits "external-side-effects" Null (web_limits ["docs.example.com"; "api.example.com"] 3))])].
Definition decision : Value := VObject [("route", VObject [("provider", VString "openai")]); ("tools", VArray [
  signed (tool_limits "external-side-effects" (data_limits "write" 2) Null);
  signed (tool_limits "external-side-effects" Null (web_limits ["*"] 5));
  signed (tool_limits "external-side-effects" Null (web_limits ["api.example.com"] 3))])].

Definition pairs : list (Value * Value) :=
  match tool_pairs execution decision with Ok l => l | Err _ => [] end.
Definition data : option Artifacts.Policy := Some (Artifacts.mkPolicy (Broker.read_write false true) 2 8 64 512).
Definition web : option Https.Policy := Some (Https.mkPolicy (Some (Https.mkGrant ["api.example.com"] 3 4096 9000 1024)) None).
Definition heap : Broker.Heap := Broker.mkHeap Broker.ex_controls [] [].

(** A decision that signs more than the material declares is refused. *)
Example wider_refused :
  Https.derive web_of execution (VObject [("route", Null); ("tools", VArray [
    signed (tool_limits "external-side-effects" (data_limits "write" 2) Null);
    signed (tool_limits "external-side-effects" Null (web_limits ["*"] 9));
    signed (tool_limits "external-side-effects" Null (web_limits ["*"] 3))])]) = Err MISMATCH.
Proof. vm_compute. reflexivity. Qed.

#[local] Existing Instance toy_blake3.
#[local] Instance pairs_json : Json (string * string) := countable_json.
Lemma scoped_authority_witness :
  Artifacts.derive data_of execution decision = Ok data /\ Https.derive web_of execution decision = Ok web /\
  (Https.grants (default (Https.mkPolicy None None) web) 700).1 = Some (Egress.mkGet ["api.example.com"] 3 4096 700) /\
  Egress.host_allowed ["api.example.com"] "API.example.com" = true /\ Egress.host_allowed ["api.example.com"] "docs.example.com" = false /\
  (forall p, p ∈ pairs -> data_tool p && web_tool p = false) /\
  (exists p, p ∈ pairs /\ web_tool p = true /\ entry p Https.GET_ENTRY = true) /\
  (exists g h out s', Artifacts.one_shot (Artifacts.mkPolicy (Broker.read_write false true) 2 8 64 512) "run" 0 heap = (Ok g, h) /\
     Broker.step Broker.ex_from_str Broker.ex_encode
       (Broker.run Broker.ex_from_str Broker.ex_encode (Broker.mkState h None [g]) [Broker.ORequest g "list"]) (Broker.ORequest g "write") = (s', Some (Ok out))) /\
  (exists p s d, p ∈ pairs /\ data_tool p = true /\ ScopedPolicyLaws.data_limits data_of p s d /\ Artifacts.operation s = Artifacts.Write).
Proof.
  assert (El : tool_pairs execution decision = Ok pairs) by reflexivity.
  assert (Ed : Artifacts.derive data_of execution decision = Ok data) by (vm_compute; reflexivity).
  assert (Ew : Https.derive web_of execution decision = Ok web) by (vm_compute; reflexivity).
  destruct (scoped_authority data_of web_of Broker.ex_from_str Broker.ex_encode execution decision pairs data web 700 El Ed Ew) as (Ha & [_ Hd] & _ & Hg & _).
  destruct (Artifacts.one_shot (Artifacts.mkPolicy (Broker.read_write false true) 2 8 64 512) "run" 0 heap) as [r h] eqn:E1.
  destruct r as [g|e]; [|vm_compute in E1; discriminate E1].
  destruct (Broker.step Broker.ex_from_str Broker.ex_encode
    (Broker.run Broker.ex_from_str Broker.ex_encode (Broker.mkState h None [g]) [Broker.ORequest g "list"]) (Broker.ORequest g "write")) as [s' r] eqn:E2.
  assert (Hr : exists out, r = Some (Ok out)).
  { vm_compute in E1. injection E1 as <- <-. vm_compute in E2. injection E2 as _ <-. eexists. reflexivity. }
  destruct Hr as [out ->].
  destruct (proj2 (Hd _ _ g h None [g] [Broker.ORequest g "list"] (or_introl (ex_intro _ "run" (ex_intro _ 0%nat (ex_intro _ heap E1))))) "write" out s' E2)
    as (q & p & s & d & Hq & Hp & Ht & Hl & Hs & _).
  split; [exact Ed|]. split; [exact Ew|]. split; [reflexivity|]. split; [reflexivity|]. split; [reflexivity|].
  split; [exact Ha|]. split; [apply Hg; eexists; reflexivity|].
  split; [exists g, h, out, s'; split; [reflexivity|exact E2]|].
  exists p, s, d. split; [exact Hp|]. split; [exact Ht|]. split; [exact Hl|]. rewrite Hs. injection Hq as <-. reflexivity.
Defined.
End policy.

(** ** A run's parent and its turn, from their preparation to their end *)

From S2P Require Import Scoped ScopedLaws ScopedOps ScopedRuns ScopedRunsLaws TenancyExamples.
From S2P Require Encoding Contract Credentials Admission Permit Outcome.

#[local] Existing Instances toy_blake3 toy_sha256 toy_signatures row_json.
#[local] Instance pair_json : Json (string * string) := countable_json.
#[local] Instance triple_json : Json (string * string * string) := countable_json.
#[local] Instance PreparedRecord_countable : Countable PreparedRecord :=
  inj_countable' (fun r => (version r, id r, owner r, operation r, decision r)) (fun '(v, i, o, op, d) => mkPrepared v i o op d)
    (fun r => match r with mkPrepared _ _ _ _ _ => eq_refl end).
#[local] Instance prepared_json : Json PreparedRecord := countable_json.
#[local] Instance ScopedStatus_countable : Countable ScopedStatus :=
  inj_countable' (fun s => ((s_id s, s_owner s, s_phase s), (s_reason s, s_output s, s_receipt_digest s, s_cleanup_confirmed s),
      (s_parent_incarnation s, s_turn_id s, s_parent_id s, s_child_id s), (s_cell_id s, s_execution s, s_substrate s)))
    (fun '((i, o, p), (r, out, rd, c), (pi, t, pa, ch), (ce, e, su)) => mkStatus i o p r out rd c pi t pa ch ce e su)
    (fun s => match s with mkStatus _ _ _ _ _ _ _ _ _ _ _ _ _ _ => eq_refl end).
#[local] Instance status_json : Json ScopedStatus := countable_json.

Module ops.
Definition encoded (v : Value) : bytes := default [] (Contract.encode Encoding.toy_scalar Encoding.toy_quoted v).

Definition source : Value := obj [("clusterId", VString "c"); ("namespace", VString "n"); ("namespaceUid", VString "nu"); ("runUid", VString "r"); ("runSpecSha256", VString "s")].
Definition scope_text : string := from_utf8 (cj_to_vec (VArray [VString "celln.scoped-parent/v1"; VString "c"; VString "nu"])).
Definition incarnation : string := match Permit.run_incarnation scope_text "r" with Ok h => h | Err _ => "" end.
Definition parent (turn : Value) : Value := obj [("incarnation", VString incarnation); ("turnId", turn)].
Definition request_value (op : string) (turn : Value) : Value :=
  obj ([("apiVersion", VString "celln.sympozium.ai/execution-request-v1"); ("operation", VString op); ("payload", VString "task");
        ("runUid", VString "r"); ("parentIncarnation", VString incarnation)] ++ match turn with Null => [] | _ => [("turnId", turn)] end).
Definition cap : Value := obj [("requests", vnum 2); ("outputTokens", vnum 2048)].
Definition profile : Value := obj [("json", obj [("maxTurns", vnum 2); ("maxCalls", vnum 1)])].
Definition runtime_digest : string :=
  Contract.digest (encoded (obj [("wrapperSpec", Null); ("profileName", Null); ("profileUid", Null); ("profileDigest", VString (Contract.digest (encoded profile)))])).
Definition decision_of (op life : string) (turn : Value) : Value := obj [
  ("apiVersion", VString "celln.sympozium.ai/authorisation-decision-v1"); ("clusterId", VString "c");
  ("operation", VString op); ("lifecycle", VString life); ("parent", parent turn);
  ("windows", obj [("issuedAt", vnum 1000); ("notBefore", vnum 1000); ("admissionDeadline", vnum 1060)]);
  ("budget", obj [("budgetId", VString "b"); ("turnCap", cap); ("runCap", cap); ("maxTurns", vnum 2);
    ("parentDeadlineUnix", vnum 5000); ("turnDeadlineUnix", vnum 2000)]);
  ("run", obj [("namespace", VString "n"); ("namespaceUid", VString "nu"); ("uid", VString "r"); ("specSha256", VString "s")]);
  ("runtime", obj [("specSha256", VString runtime_digest)]); ("tools", VArray []);
  ("route", ex_route); ("requestDigest", VString (Contract.digest (encoded (request_value
     (if String.eqb op "execution.cleanup" then "execution.turn" else op) turn))))].
Definition d_init : Value := decision_of "execution.start" "enduring-initial" Null.
Definition d_turn : Value := decision_of "execution.turn" "enduring-turn" (VString "t1").
Definition d_clean : Value := decision_of "execution.cleanup" "enduring-turn" (VString "t1").
Definition operation_of (d turn : Value) : Value := obj [("apiVersion", VString "sympozium.ai/celln-prepared-operation-v1");
  ("resolution", obj [("decision", d); ("execution", obj ([("source", source); ("payload", VString "task"); ("profileSpec", profile); ("tools", VArray []);
     ("runtimeLimits", obj [("timeoutMillis", vnum 1000)])] ++ match turn with Null => [] | _ => [("turnUid", turn)] end))])].
Definition o_init : Value := operation_of d_init Null.
Definition o_turn : Value := operation_of d_turn (VString "t1").

(** What the encodings of the example are read back as. *)
Definition forms : list (bytes * Value) :=
  (fun v => (encoded v, v)) <$> [d_init; d_turn; d_clean; request_value "execution.start" Null; request_value "execution.turn" (VString "t1")].
Definition value_of : bytes -> option Value := read_form forms.
Definition value_of_to : forall v, value_of (cj_to_vec v) = Some v := read_form_to forms.
#[local] Instance values : Json Value := {| to_vec := cj_to_vec; from_slice := value_of; from_to := value_of_to |}.
Definition read (b : bytes) : option (Raw * bool) := v ← value_of b; if raw_typed (raw_of v) then Some (raw_of v, true) else None.
Lemma read_well b r e : read b = Some (r, e) -> raw_typed r = true.
Proof. unfold read. intros (v & _ & E)%bind_Some. destruct (raw_typed (raw_of v)) eqn:Ht; [|done]. by injection E as <- _. Qed.
#[local] Instance tokens : JsonText := {| read_raw := read; read_typed := read_well |}.

Definition claims_for (op : string) (turn : option string) (d : Value) : Credentials.Claims :=
  Credentials.mkClaims "celln.sympozium.ai/authorisation-credential-v1" "cp" "celln-execution" 1001 1001 1050 "j"
    (Contract.digest (encoded d)) "b" op (Credentials.mkSubject "r" turn (Some incarnation)).
#[local] Instance formats : Credentials.Formats := {|
  Credentials.url_safe_decode := toy_decode;
  Credentials.header_of b := if bool_decide (b = cj_to_vec (VString "h")) then Some (Credentials.mkHeader "EdDSA" "celln-authorisation+jws" "k1") else None;
  Credentials.claims_of b := match cj_from_slice b with
    | Some (VString "start") => Some (claims_for "execution.start" None d_init)
    | Some (VString "turn") => Some (claims_for "execution.turn" (Some "t1") d_turn)
    | Some (VString "cleanup") => Some (claims_for "execution.cleanup" (Some "t1") d_clean)
    | _ => None
    end;
  Credentials.keyset_of _ := None;
  Credentials.decision_schema _ := true;
  Credentials.credential_schema _ := true;
|}.

Example prepared_valid :
  validate_prepared Encoding.toy_scalar Encoding.toy_quoted policy.data_of policy.web_of o_init d_init = Some (Ok tt) /\
  validate_prepared Encoding.toy_scalar Encoding.toy_quoted policy.data_of policy.web_of o_turn d_turn = Some (Ok tt).
Proof. vm_compute. split; reflexivity. Qed.

(** ** Runs *)

Definition execution_json (g : Outcome.ExecutionGrant) : option Value := None.
Definition substrate_json (x : Outcome.SubstrateIdentity) : option Value := None.
Definition play : State -> list Event_ -> State := run Encoding.toy_scalar Encoding.toy_quoted policy.data_of policy.web_of execution_json substrate_json.

Definition j_first : Admission.Journal := Admission.mkJournal (Contract.digest [x02]) 8.
Definition begins : State := start j_first (Admission.mkDisk ∅ true []).
Definition id_of (o d : Value) : string := match operation_id Encoding.toy_scalar Encoding.toy_quoted o d with Ok i => i | Err _ => "" end.
Definition i_init : string := Eval vm_compute in id_of o_init d_init.
Definition i_turn : string := Eval vm_compute in id_of o_turn d_turn.
Definition starts_init : Request := RStart ex_verifier i_init (j_owner j_first) (Some (ex_token "start")) None.
Definition starts_turn : Request := RStart ex_verifier i_turn (j_owner j_first) (Some (ex_token "turn")) None.
Definition cleans_turn : Request := RAccess ex_verifier i_turn d_clean (Some (ex_token "cleanup")) true.

(** Every call succeeds, but for the statuses of one phase that are not stored. *)
Definition picks (bad : string) (r : Received) (p : Prog Reply) : Choice :=
  mkChoice (match p with Persist s _ => negb (String.eqb (s_phase s) bad) | _ => true end) false 0 []
    (match p with Ask _ (Pend _) _ => Ok false | _ => Ok true end) 1010 (mkLaunched None false) r.
(** The actions of the [n]th handler, until [stop] or its end. *)
Fixpoint drive (fuel n : nat) (pick : Prog Reply -> Choice) (stop : Prog Reply -> bool) (s : State) : State :=
  match fuel, pool s !! n with
  | S fuel, Some p =>
      if stop p then s else match p with Ret _ => s | _ => drive fuel n pick stop (play s [Act n (pick p)]) end
  | _, _ => s
  end.
Definition silent : Received := mkReceived None None.
Definition whole (bad : string) (n : nat) (s : State) : State := drive 60 n (picks bad silent) (fun _ => false) s.
Definition replies (s : State) : list (option (Z * string)) :=
  (fun p => match p with Ret (Answer c (BStatus st)) => Some (c, s_phase st) | Ret (Answer c (BError e r)) => Some (c, default e r)
     | Ret (Answer c (BPrepared _ _)) => Some (c, "prepared"%string) | _ => None end) <$> pool s.
Definition ex_prepared : State := whole "" 0 (play begins [Arrive (RPrepare o_init d_init)]).

Definition shown (i : string) (s : State) : option (string * bool * option string) :=
  (fun x => (s_phase x, s_cleanup_confirmed x, s_output x)) <$> w_status (world s) !! i.
Definition stops (s : State) : list Event :=
  List.filter (fun e => match e with Asked _ (Stop _ _) _ => true | _ => false end) (w_trace (world s)).

(** A start whose first status is not stored is refused with its cleanup confirmed, when
    its parent is running and nobody has been asked to stop it. *)
Definition ex_refused : State := whole "Admitted" 1 (play ex_prepared [Arrive starts_init]).
Example refused_with_parent :
  replies ex_refused = [Some (200, "prepared"); Some (503, "Refused")] /\
  shown i_init ex_refused = Some ("Refused", true, None) /\
  fst <$> w_launched (world ex_refused) = [KParent] /\ stops ex_refused = [].
Proof. vm_compute. repeat split. Qed.

(** The parent's answer to a turn. *)
Definition proven (turn : string) : Received :=
  mkReceived (Some (Ok (cj_to_vec (obj [("kind", VString "completed"); ("turnId", VString turn); ("succeeded", VBool true); ("answer", VString "done")]))))
    (Some (mkProvenance incarnation None incarnation incarnation "cell" None None)).
Definition answered (turn : string) (n : nat) (s : State) : State := drive 60 n (picks "" (proven turn)) (fun _ => false) s.
Definition first_turn : string := match local_turn_id (mkPrepared 1 i_init "" o_init d_init) with Ok t => t | Err _ => "" end.
(** A run's start and its answer, then its turn, which is prepared and started. *)
Definition ex_started : State := answered first_turn 2 (whole "" 1 (play ex_prepared [Arrive starts_init])).
Definition ex_turning : State := whole "" 4 (play (whole "" 3 (play ex_started [Arrive (RPrepare o_turn d_turn)])) [Arrive starts_turn]).
(** The cleanup of the turn, up to the status that it is about to write; then the answer. *)
Definition ex_cancelling : State :=
  drive 60 6 (picks "" silent) (fun p => match p with Persist _ _ => true | _ => false end) (play ex_turning [Arrive cleans_turn]).
Definition ex_answered : State := answered "t1" 5 ex_cancelling.
Definition ex_lost : State := whole "" 6 ex_answered.
Definition ex_again : State := whole "" 7 (play ex_lost [Arrive cleans_turn]).

Example run_started : shown i_init ex_started = Some ("Running", false, Some "done") /\
  replies ex_turning = [Some (200, "prepared"); Some (202, "Admitted"); None; Some (200, "prepared"); Some (202, "Admitted"); None] /\
  fst <$> w_launched (world ex_turning) = [KRun; KRun; KParent].
Proof. vm_compute. repeat split. Qed.

(** The status that the worker has stored is lost to the cleanup that has read the one
    before it, and no later cleanup confirms the turn again. *)
Example confirmation_lost :
  shown i_turn ex_answered = Some ("Succeeded", true, Some "done") /\
  shown i_turn ex_lost = Some ("Cancelling", false, None) /\
  shown i_turn ex_again = Some ("Cancelling", false, None) /\ last (replies ex_again) = Some (Some (202, "Cancelling")).
Proof. vm_compute. repeat split. Qed.

(** A credential is pinned in a resolved route that is not an object. *)
Definition o_pinned : Value :=
  let o := operation_of d_init Null in
  let e := default Null (vset "credentialSourceRef" (VBool true) (execution_of o)) in
  obj [("apiVersion", VString "sympozium.ai/celln-prepared-operation-v1");
       ("resolution", obj [("decision", default Null (vset "route" (VString "none") d_init)); ("execution", e)])].
Definition d_pinned : Value :=
  default Null (vset "route" (obj [("credentialSource", obj [("secretUid", VString "u")])]) d_init).
Example pin_panics : validate_prepared Encoding.toy_scalar Encoding.toy_quoted policy.data_of policy.web_of o_pinned d_pinned = None.
Proof. vm_compute. reflexivity. Qed.

(** ** Witnesses *)

(** The turn's worker stores a confirmed status: the evidence for it in the run. *)
Lemma drive_plays fuel n pick stop s : exists l, drive fuel n pick stop s = play s l.
Proof.
  revert s. induction fuel as [|fuel IH]; intros s; [by exists []|]. cbn [drive]. destruct (pool s !! n) as [p|]; [|by exists []].
  destruct (stop p); [by exists []|]. destruct p; try (by exists []);
    match goal with |- context [Act n ?c] => destruct (IH (play s [Act n c])) as [l El]; exists (Act n c :: l); exact El end.
Qed.
Lemma play_app s l k : play (play s l) k = play s (l ++ k).
Proof. unfold play, run. by rewrite foldl_app. Qed.
Lemma ex_answered_plays : exists l, ex_answered = play begins l.
Proof.
  unfold ex_answered, answered, ex_cancelling, ex_turning, ex_started, answered, ex_prepared, whole.
  repeat match goal with |- context [drive ?f ?n ?c ?t (play begins ?k)] => destruct (drive_plays f n c t (play begins k)) as [? ->]; rewrite ?play_app end.
  by eexists.
Qed.
Lemma scoped_evidence_witness : exists l st, let s := play begins l in
  w_status (world s) !! i_turn = Some st /\ s_phase st = "Succeeded"%string /\ s_cleanup_confirmed st = true /\
  evidence (scalar := Encoding.toy_scalar) (quoted := Encoding.toy_quoted) (data_of := policy.data_of) (web_of := policy.web_of) (world s) i_turn.
Proof.
  destruct ex_answered_plays as [l El]. exists l. cbv zeta.
  assert (Hst : exists st, w_status (world ex_answered) !! i_turn = Some st /\ s_phase st = "Succeeded"%string /\ s_cleanup_confirmed st = true)
    by (eexists; vm_compute; repeat split).
  destruct Hst as (st & Hi & Hp & Hc). rewrite El in Hi. exists st. split; [exact Hi|]. split; [exact Hp|]. split; [exact Hc|].
  destruct (scoped_evidence (scalar := Encoding.toy_scalar) (quoted := Encoding.toy_quoted) (data_of := policy.data_of) (web_of := policy.web_of)
    (execution_value := execution_json) (substrate_value := substrate_json) j_first (Admission.mkDisk ∅ true []) l) as (_ & _ & _ & _ & _ & Hs & _).
  exact (proj2 (Hs i_turn st Hi) Hc).
Defined.

(** The turn's decision, and the cleanup that it gives access to. *)
Lemma prepared_authority_witness :
  validate_prepared Encoding.toy_scalar Encoding.toy_quoted policy.data_of policy.web_of o_turn d_turn = Some (Ok tt) /\
  ~ occurs "token" o_turn /\ validate_access_decision d_turn d_clean "execution.cleanup" = Some (Ok tt) /\
  agrees ["operation"; "windows"] d_clean d_turn /\
  is_ok (receiver_context 1010 o_turn d_clean "execution.cleanup") = true.
Proof.
  destruct prepared_valid as [_ Hv]. assert (Ha : validate_access_decision d_turn d_clean "execution.cleanup" = Some (Ok tt)) by (vm_compute; reflexivity).
  destruct (prepared_authority o_turn d_turn Hv) as (Hs & _ & _ & _ & _ & _ & _ & _ & Hacc).
  destruct (Hacc d_clean "execution.cleanup" Ha) as (Hg & _ & Hr).
  split; [exact Hv|]. split; [apply (Hs "token"); reflexivity|]. split; [exact Ha|]. split; [exact Hg|].
  rewrite (Hr 1010 "execution.cleanup"). vm_compute. reflexivity.
Defined.
End ops.

(** ** A turn of a budget *)

From S2P Require Import HarnessExamples ParentExamples WorkerExamples.
From S2P Require Harness Protocol ParentContext Lease TurnWorker JournalExamples Spec.
Local Open Scope json_scope.
#[local] Existing Instances toy_text toy_values context_json config_json versioned_json ParentExamples.request_json.

Module budget.
Definition record : PreparedRecord := mkPrepared 1 "i" "o"
  (obj [("resolution", obj [("execution", obj [("requestOutputTokens", vnum 256); ("profileSpec", ops.profile)])])])
  (obj [("route", obj [("provider", VString "openai"); ("model", VString "m")]); ("lifecycle", VString "enduring-turn");
        ("budget", obj [("turnCap", ops.cap); ("runCap", ops.cap); ("maxTurns", vnum 1)])]).
Definition request : Spec.ExecutionRequest :=
  Spec.mkRequest "v" "parent" (Spec.mkIdentity "parent" "p") None None [] [] None None
    (Spec.mkCapabilities Spec.WNone [] false 60000 4096 1024) (Spec.mkExecution Spec.LaneAgent true).
Definition binding : result string Permit.Binding := parent_binding (decision record) "p" ops.incarnation request request "h" "w".
Definition lease (b : Permit.Binding) : option Lease.ParentLease :=
  to_option (Lease.new JournalExamples.p0 60000 (Lease.mkTurnLimits 4096 30000 (Permit.turn_model_requests b) (Permit.turn_output_tokens b)) 1
    (Permit.total_model_requests b) (Permit.total_output_tokens b) 0).
Definition submitted : Protocol.TurnRequest := Protocol.mkTurnRequest Protocol.VERSION "a" (ParentContext.encode_task [] "x").
Definition first : option (Permit.Binding * Lease.ParentLease * Lease.ReservedTurn) :=
  b ← to_option binding; s ← lease b; t ← to_option (Lease.reserve_at s (to_vec submitted) 0).1; Some (b, s, t).
Lemma lease_limits b s : lease b = Some s ->
  Lease.model_requests (Lease.limits s) = Permit.turn_model_requests b /\ Lease.output_tokens (Lease.limits s) = Permit.turn_output_tokens b.
Proof.
  unfold lease, Lease.new. destruct (instant_checked_add 0 60000); [|done]. cbn. destruct (ensure _ _) as [[]|]; [|done].
  intros [= <-]. done.
Qed.
Lemma reserved_request s t s' : Lease.reserve_at s (to_vec submitted) 0 = (Ok t, s') -> Lease.rt_request t = submitted.
Proof.
  intros (_ & _ & Hq & _)%Lease.reserve_at_Ok. revert Hq. generalize (Lease.rt_request t). intros r Hq.
  vm_compute in Hq. injection Hq as <-. vm_compute. reflexivity.
Qed.

Lemma affordable_pays_witness :
  affordable_request_output_tokens (execution_of (operation record)) (decision record) = Ok 256 /\
  exists b s t, first = Some (b, s, t) /\ is_ok (TurnWorker.arguments ex_node ex_worker t) = true.
Proof.
  assert (Ea : affordable_request_output_tokens (execution_of (operation record)) (decision record) = Ok 256) by (vm_compute; reflexivity).
  split; [exact Ea|].
  destruct (affordable_pays ex_node record 256 Ea) as (_ & tokens & total & n & _ & _ & _ & _ & _ & Hpay).
  destruct (some_value first) as [[[b s] t] Ef]; [vm_compute; reflexivity|]. exists b, s, t. split; [exact Ef|].
  unfold first in Ef. apply bind_Some in Ef as (b' & Eb & Ef). apply bind_Some in Ef as (s' & Es & Ef). apply bind_Some in Ef as (t' & Et & Ef).
  injection Ef as <- <- <-. pose proof (ok_value _ _ Et) as Er. apply lease_limits in Es as Hl. apply reserved_request in Er as Hq.
  assert (Hb : binding = Ok b') by (destruct binding; [injection Eb as ->; reflexivity|discriminate Eb]).
  assert (Hd : is_ok (ParentContext.decode_context (Protocol.task (Lease.rt_request t'))) = true /\
    is_ok (native_json_config record [] true) = true) by (rewrite Hq; vm_compute; split; reflexivity).
  destruct Hd as [Hd Hc]. destruct (ParentContext.decode_context _) as [context|] eqn:Ex; [|discriminate Hd].
  destruct (native_json_config record [] true) as [config|] eqn:Ec; [|discriminate Hc].
  pose proof (fun h1 h2 => Hpay [] config ex_worker "p" ops.incarnation request request "h" "w" b' s' _ 0 t' _ context
    Ec h1 h2 Hb (proj1 Hl) (proj2 Hl) Er Ex) as Hg. rewrite Hg; [reflexivity|..].
  - vm_compute in Ec. injection Ec as <-. vm_compute. reflexivity.
  - vm_compute in Ec. injection Ec as <-. vm_compute. reflexivity.
  - rewrite Hq in Ex. vm_compute in Ex. injection Ex as <-. vm_compute. reflexivity.
Defined.
End budget.
