(* ===== verification/RelayExamples.v ===== *)
(** * An operation's credential at the gateway

    A start whose model permit is admitted, two requests of its relay - one answer is safe,
    one repeats the credential - and its end. *)

From S2P Require Import Prelude Text Json Instances ModelRelay ModelRelayLaws TenancyExamples ScopedExamples.
From S2P Require Contract Credentials Control Scoped.

#[local] Existing Instances toy_sha256 toy_signatures.

Definition route : Value := obj [("provider", VString "openai"); ("auth", VString "none"); ("streaming", VBool false); ("model", VString "m"); ("protocol", VString "openai-chat")].
Definition d_model : Value := default Null (Scoped.vset "route" route ops.d_init).
Definition d_bytes : bytes := ops.encoded d_model.
Definition permit : Value := obj [("exp", vnum 1050)].
Definition request : Value := obj [("q", VString "hi")].
Definition relay_forms : list (bytes * Value) := (fun v => (ops.encoded v, v)) <$> [d_model; permit; request].
#[local] Instance values : Json Value := {| to_vec := cj_to_vec; from_slice := read_form relay_forms; from_to := read_form_to relay_forms |}.
Definition read (b : bytes) : option (Raw * bool) := v ← read_form relay_forms b; if raw_typed (raw_of v) then Some (raw_of v, true) else None.
Lemma relay_read_well b r e : read b = Some (r, e) -> raw_typed r = true.
Proof. unfold read. intros (v & _ & E)%bind_Some. destruct (raw_typed (raw_of v)) eqn:Ht; [|done]. by injection E as <- _. Qed.
#[local] Instance tokens : JsonText := {| read_raw := read; read_typed := relay_read_well |}.

Definition claims_for (op aud : string) : Credentials.Claims :=
  Credentials.mkClaims "celln.sympozium.ai/authorisation-credential-v1" "cp" aud 1001 1001 1050 "j"
    (Contract.digest d_bytes) "b" op (Credentials.mkSubject "r" None (Some ops.incarnation)).
#[local] Instance formats : Credentials.Formats := {|
  Credentials.url_safe_decode s := if String.eqb s "model" then Some (cj_to_vec permit) else toy_decode s;
  Credentials.header_of b := if bool_decide (b = cj_to_vec (VString "h")) then Some (Credentials.mkHeader "EdDSA" "celln-authorisation+jws" "k1") else None;
  Credentials.claims_of b := match cj_from_slice b with
    | Some (VString "start") => Some (claims_for "execution.start" "celln-execution")
    | Some (VObject _) => Some (claims_for "model.invoke" "sympozium-model-gateway")
    | _ => None
    end;
  Credentials.keyset_of _ := None;
  Credentials.decision_schema _ := true;
  Credentials.credential_schema _ := true;
|}.
Definition receiver : Credentials.Receiver := Credentials.mkReceiver 1010 "celln-execution" "execution.start" "c" "n" "nu" "r" "s"
  (vget "parent" d_model) (match as_str (vget "requestDigest" d_model) with Some s => s | None => "" end) route "b" false.

Abbreviation scalar := Encoding.toy_scalar.
Abbreviation quoted := Encoding.toy_quoted.
Abbreviation parent := (Control.run [Control.ONew (100 * nanos_per_sec)] (Control.init 0 [])).
Abbreviation admitted := (admit_context scalar quoted ex_verifier (ex_token "start") (ex_token "model") d_bytes receiver 0 parent).
Definition endpoint : GatewayEndpoint := mkEndpoint "https://gateway.example/v1/invoke" None.
Definition fresh : Relay * Control.World :=
  match admitted with
  | (Ok c, w) => (new endpoint c, w)
  | (Err _, w) => (mkRelay endpoint (mkContext [] None 0) 0 "" [], w)
  end.
Definition wire (response : Value) : bytes :=
  cj_to_vec response ++ as_bytes (String newline ("200" ++ String newline "application/json")).
Definition safe : bytes := wire (obj [("answer", VString "yes")]).
Definition echo : bytes := wire (obj [("answer", VString ("it is " ++ ex_token "model"))]).
Definition asks (stdout : bytes) : op := OInvoke (cj_to_vec request) (Some (true, stdout)).
Abbreviation after := (run scalar quoted fresh).
Definition result_of (s : Relay * Control.World) (stdout : bytes) : result Denied bytes :=
  (invoke scalar quoted s.1 s.2 (cj_to_vec request) (Some (true, stdout))).1.1.

(** The safe answer goes back, the other does not; the numbers go on after a lost answer;
    a closed relay, and one whose parent is cancelled or has expired, sends nothing. *)
Example relay_answers :
  is_ok (result_of fresh safe) = true /\ result_of fresh echo = Err Refused /\
  (fun o => length (sent (after o).1)) <$>
    [[asks safe; asks echo; OInvoke (cj_to_vec request) None]; [asks safe; OClose; asks safe]; [OControl (Control.OCancel 0); asks safe]] = [3%nat; 1%nat; 0%nat] /\
  sequence (after [OInvoke (cj_to_vec request) None; asks safe]).1 = 2.
Proof. vm_compute. repeat split. Qed.

Example endpoint_refused :
  let u path := Some (mkUrl "https" (Some "host") "" None path None None) in
  is_ok (gateway_endpoint (fun _ => u "/") (fun o p => Some (o ++ p)%string) "https://host/" None) = true /\
  is_err (gateway_endpoint (fun _ => u "/x") (fun o p => Some (o ++ p)%string) "https://host/x" None) = true /\
  is_err (gateway_endpoint (fun _ => u "/") (fun o p => Some (o ++ p)%string) " https://host/" None) = true.
Proof. vm_compute. repeat split. Qed.

Lemma relay_custody_witness :
  exists ctx w, admitted = (Ok ctx, w) /\
  let s := run scalar quoted (new endpoint ctx, w) [asks safe; asks echo; OClose] in
  length (sent s.1) = 2%nat /\
  (exists ns, ns = [1; 2] /\ Forall2 (delivered endpoint ctx (ex_token "model")) (sent s.1) ns) /\
  (forall more, sent (run scalar quoted s more).1 = sent s.1).
Proof.
  destruct admitted as [[ctx|e] w] eqn:E; [|vm_compute in E; discriminate E].
  exists ctx, w. split; [reflexivity|].
  pose proof (relay_custody ex_verifier (ex_token "start") (ex_token "model") d_bytes receiver 0 0 [] [Control.ONew (100 * nanos_per_sec)]
    ctx w endpoint [asks safe; asks echo; OClose] E) as Hc.
  cbv zeta in Hc |- *. set (s := run scalar quoted (new endpoint ctx, w) [asks safe; asks echo; OClose]) in *.
  assert (Hl : length (sent s.1) = 2%nat /\ sequence s.1 = 2 /\ bearer (context s.1) = None).
  { vm_compute in E. injection E as <- <-. vm_compute. split; [|split]; reflexivity. }
  clearbody s. destruct Hl as (Hl & Hq & Hb). destruct Hc as (_ & (ns & Hs & Hn & Hf) & Ho & _ & _). split; [exact Hl|]. split.
  - exists ns. split; [|exact Hf]. apply Forall2_length in Hf. rewrite Hl in Hf. rewrite Hq in Hn. clear -Hf Hs Hn.
    destruct ns as [|a [|b [|]]]; try discriminate Hf. inversion Hs as [|? ? _ Hab]; subst. inversion Hab; subst.
    inversion Hn as [|? ? Ha Hn']; subst. inversion Hn' as [|? ? Hb _]; subst. f_equal; [lia|f_equal; lia].
  - intros more. exact (Ho (or_introl Hb) more).
Defined.
