(* ===== verification/RouterExamples.v ===== *)
(** * Examples of the router

    Two replicas, two backends, a submission, its retries and a scoped operation, with
    executable stand-ins for the crates behind the interfaces. The witnesses of
    [Ownership], [Http] and [RouterLaws] evaluate on them. *)

From S2P Require Import Prelude Text Json Instances Manifest Encoding Contract Host Ownership Http Router RouterLaws TenancyExamples.

#[local] Existing Instance toy_blake3.
#[local] Existing Instances toy_sha256 toy_text.

#[local] Instance Owner_countable : Countable Owner :=
  inj_countable (fun o => (version o, backend o, body_hash o)) (fun p => Some (mkOwner p.1.1 p.1.2 p.2)) (fun o => match o with mkOwner _ _ _ => eq_refl end).
#[local] Instance owner_json : Json Owner := countable_json.

Definition health_fields (h : Health) : bool * bool * option (Z * Z * Z) :=
  (ok h, kvm h, (fun n => (live_cells n, max_cells n, memory_bytes n)) <$> node h).
Definition fields_health (p : bool * bool * option (Z * Z * Z)) : option Health :=
  Some (mkHealth p.1.1 p.1.2 ((fun n => mkHealthNode n.1.1 n.1.2 n.2) <$> p.2)).
#[local] Instance HealthNode_eq_dec : EqDecision HealthNode.
Proof. solve_decision. Defined.
#[local] Instance Health_eq_dec : EqDecision Health.
Proof. solve_decision. Defined.
Lemma fields_health_fields h : fields_health (health_fields h) = Some h.
Proof. by destruct h as [? ? [[]|]]. Qed.
#[local] Instance Health_countable : Countable Health := inj_countable health_fields fields_health fields_health_fields.
#[local] Instance health_json : Json Health := countable_json.

#[local] Instance Create_eq_dec : EqDecision Create.
Proof. solve_decision. Defined.
#[local] Instance Create_countable : Countable Create :=
  inj_countable (fun c => (api_version c, launch_profile c)) (fun p => Some (mkCreate p.1 p.2)) (fun c => match c with mkCreate _ _ => eq_refl end).
#[local] Instance create_json : Json Create := countable_json.

(** ** A scoped preparation, whose canonical form is read back as the value *)

Definition ex_source : Value := obj [("clusterId", VString "c"); ("namespaceUid", VString "nu"); ("runUid", VString "r")].
Definition ex_operation : Value := obj [("resolution", obj [("execution", obj [("source", ex_source)])])].
Definition ex_one_shot : Value := obj [("lifecycle", VString "one-shot"); ("parent", Null)].
Definition ex_prepare : Value := obj [("decision", ex_one_shot); ("operation", ex_operation)].

Definition router_value_of (b : bytes) : option Value :=
  match b with
  | x7b :: _ => if bool_decide (encode toy_scalar toy_quoted ex_prepare = Some b) then Some ex_prepare else None
  | _ => cj_from_slice b
  end.
Lemma router_value_of_to v : router_value_of (cj_to_vec v) = Some v.
Proof.
  assert (Hd : Forall digit (cj_to_vec v)) by apply pos_digits. pose proof (cj_from_to v) as E. unfold router_value_of.
  destruct (cj_to_vec v) as [|x b]; [exact E|]. apply Forall_cons in Hd as [Hx _].
  unfold digit in Hx. rewrite !elem_of_cons, elem_of_nil in Hx. destruct_or?; subst x; exact E.
Qed.
#[local] Instance router_values : Json Value := {| to_vec := cj_to_vec; from_slice := router_value_of; from_to := router_value_of_to |}.

(** ** The fleet *)

Definition ex_replica (cap : Z) : RouterState :=
  mkState ["http://a:1"; "http://b:1"] false RoundRobin (mkLedger "o" cap) (mkLedger "o/parents" cap)
    (mkLedger "o/provisions" cap) (mkLedger "o/scoped-parents" cap) (mkLedger "o/scoped-ops" cap)
    None (Some ("t", "scoped")) ("t", "backend") ("t", "client") None.

Definition client_token : string := "client-credential-0123456789".
Definition backend_token : string := "backend-credential-0123456789".
Definition scoped_token : string := "scoped-credential-0123456789".
Definition text_file (s : string) : File := mkFile (as_bytes s) 0.
Definition ex_files : gmap Path File :=
  {[("t", "client") := text_file client_token; ("t", "backend") := text_file backend_token; ("t", "scoped") := text_file scoped_token]}.

Definition eol : string := from_utf8 [x0d; x0a].
Definition http (line : string) (headers : list string) (body : bytes) : Input :=
  mkInput (as_bytes (line ++ eol ++ String.concat "" ((fun h => (h ++ eol)%string) <$> headers) ++ eol) ++ body) false.
Definition ok_response (body : bytes) : Answer := Answered ("HTTP/1.1 200 OK" ++ eol ++ eol ++ from_utf8 body)%string.
Definition health (free : Z) : Answer := ok_response (to_vec (mkHealth true true (Some (mkHealthNode 0 free 1)))).

Definition ex_world (a : list Answer) (c : list Call) : World := mkWorld ex_files 100 c (mkNetwork a [] [] []).

(** ** A submission and its retry *)

Definition ex_job : bytes := cj_to_vec (obj [("id", VString "job-1")]).
Definition submit (b : bytes) : Input :=
  http "POST /v1/executions HTTP/1.1" [("Authorization: Bearer " ++ client_token)%string; ("Content-Length: " ++ pretty.pretty (blen b))%string] b.

Definition history (a : list Answer) (c : list Call) (l : list action) : System :=
  acts (scalar := toy_scalar) (quoted := toy_quoted) (mkSystem (ex_world a c) []) l.
Definition requests (s : System) : list (string * string * string) :=
  (fun d => (to d, d_method d, target d)) <$> sent (net (world s)).

(** The retry, from another replica, finds the owner: it is asked, not posted to. *)
Example ex_submission :
  requests (history [health 1; ok_response []; ok_response []] []
    [Arrive (ex_replica 8) (submit ex_job); Arrive (ex_replica 2) (submit ex_job); Deliver 0; Deliver 0]) =
  [("http://a:1", "GET", "/v1/health"); ("http://a:1", "POST", "/v1/executions"); ("http://a:1", "GET", "/v1/executions/job-1")].
Proof. vm_compute. reflexivity. Qed.

(** A connection that is lost after the binding is not retried elsewhere, and neither is
    a claim whose directory could not be synced. *)
Example ex_lost :
  requests (history [health 1; Host.Lost; ok_response []] []
    [Arrive (ex_replica 8) (submit ex_job); Deliver 0; Arrive (ex_replica 8) (submit ex_job); Deliver 0]) =
  [("http://a:1", "GET", "/v1/health"); ("http://a:1", "POST", "/v1/executions"); ("http://a:1", "GET", "/v1/executions/job-1")] /\
  let unsynced := replicate 13 (mkCall false 100) ++ [mkCall true 100] in
  (requests (history [health 1; ok_response []] unsynced [Arrive (ex_replica 8) (submit ex_job); Arrive (ex_replica 8) (submit ex_job); Deliver 1]),
   size (files (world (history [health 1] unsynced [Arrive (ex_replica 8) (submit ex_job)])))) =
  ([("http://a:1", "GET", "/v1/health"); ("http://a:1", "GET", "/v1/executions/job-1")], 5%nat).
Proof. vm_compute. repeat split. Qed.

Example ex_unauthorised :
  (handle_request toy_scalar toy_quoted (ex_replica 8) (http "POST /v1/executions HTTP/1.1" [("Authorization: Bearer " ++ backend_token)%string] []) (ex_world [] [])).1 =
  Ok (Done (Replied 401 (refusal "unauthorized"))).
Proof. vm_compute. reflexivity. Qed.

Example ex_ambiguous :
  read_request (http "POST /v1/executions HTTP/1.1" ["Content-Length: 1"; "content-length: 2"] []) = refuse 400 "invalid content length" /\
  read_request (http "POST /v1/executions HTTP/1.1" ["Transfer-Encoding: chunked"] []) = refuse 400 "transfer encoding unsupported".
Proof. vm_compute. by split. Qed.

(** ** Witnesses *)

Definition ex_ledger : Ledger := mkLedger "o" 8.
Definition ex_choice : IO string := mret "http://a:1".
Definition ex_claimed : World := (claim ex_ledger "job-1" ex_job ex_choice (ex_world [] [])).2.
Definition ex_owner : Owner := mkOwner 1 "http://a:1" (hash_of ex_job).

Lemma ex_choice_kept p : chooses ex_choice (kept p) (fun _ => True).
Proof. intros w. by apply wp_ret. Qed.

Lemma ex_shown t w : calls w = [] -> shown w t -> t = now w.
Proof. intros E [->|Ht]; [done|]. rewrite E in Ht. by apply elem_of_nil in Ht. Qed.

Lemma owner_exclusive_witness :
  claim ex_ledger "job-1" ex_job ex_choice (ex_world [] []) = (Ok (New ex_owner), ex_claimed) /\
  (forall x w3, lookup (mkLedger "o" 1) "job-1" (run "o" ex_claimed [(8, Retire "job-1" 600); (8, Sweep 600)]) = (Ok x, w3) -> x = Some ex_owner).
Proof.
  assert (E : claim ex_ledger "job-1" ex_job ex_choice (ex_world [] []) = (Ok (New ex_owner), ex_claimed)) by (vm_compute; reflexivity).
  split; [exact E|].
  refine (proj1 (proj2 (proj2 (owner_exclusive ex_ledger "job-1" ex_job ex_choice _ _ _ [(8, Retire "job-1" 600); (8, Sweep 600)] 1 E (ex_choice_kept _) _)))).
  assert (HY : forall o, quarantine_of o = Some 600 -> forall m, shown (ex_world [] []) m -> young m ex_claimed o).
  { intros o Ho m Hm q t Hq Ht. rewrite Ho in Hq. injection Hq as <-.
    apply ex_shown in Hm; [|reflexivity]. apply ex_shown in Ht; [|vm_compute; reflexivity].
    subst. change (now ex_claimed - 100 < 600). vm_compute. reflexivity. }
  apply Forall_cons_2; [|apply Forall_cons_2; [|apply Forall_nil_2]]; (split; [done|by apply HY]).
Defined.


Lemma ex_apart cap : apart (ex_replica cap).
Proof.
  split; cbn; [|discriminate]. unfold retiring. cbn. rewrite !not_elem_of_cons.
  split; [discriminate|]. split; [discriminate|]. apply not_elem_of_nil.
Qed.

Definition ex_history : list action := [Arrive (ex_replica 8) (submit ex_job); Arrive (ex_replica 2) (submit ex_job); Deliver 0; Deliver 0].

Lemma post_once_witness :
  let s := history [health 1; ok_response []; ok_response []] [] ex_history in
  (submitted "job-1" (sent (net (world s))) <= 1)%nat /\
  forall d, d ∈ sent (net (world s)) -> submission "job-1" d -> recorded (ex_replica 8) "job-1" d (world s).
Proof.
  apply (post_once (ex_replica 8) (ex_world [health 1; ok_response []; ok_response []] []) ex_history "job-1");
    [apply ex_apart|by repeat constructor|reflexivity].
Defined.

(** A scoped preparation is sent to the node that was chosen for it. *)
Definition ex_scoped : Input :=
  let b := cj_to_vec ex_prepare in
  http "POST /v1/scoped/prepare HTTP/1.1"
    [("Authorization: Bearer " ++ scoped_token)%string; ("Content-Length: " ++ pretty.pretty (blen b))%string; "X-Celln-Execution-Permit: p"] b.
Definition ex_id : string := match scoped_operation_id toy_scalar toy_quoted ex_operation ex_one_shot with Ok s => s | Err e => e end.

Definition ex_answers : list Answer := [health 1; health 1; ok_response []; ok_response []].
Definition ex_scoped_history : list action := [Arrive (ex_replica 8) ex_scoped; Deliver 0; Arrive (ex_replica 8) ex_scoped; Deliver 0].
Abbreviation ex_scoped_end := (acts (scalar := toy_scalar) (quoted := toy_quoted) (mkSystem (ex_world ex_answers []) []) ex_scoped_history).
Definition ex_delivery (n : nat) : Delivery :=
  default (mkDelivery "" "" "" None [] false []) (sent (net (world ex_scoped_end)) !! n).

Example ex_scoped_run :
  requests ex_scoped_end =
    [("http://b:1", "GET", "/v1/health"); ("http://a:1", "GET", "/v1/health");
     ("http://b:1", "POST", "/v1/scoped/prepare"); ("http://b:1", "POST", "/v1/scoped/prepare")] /\
  Host.permits (ex_delivery 2) = [("X-Celln-Execution-Permit", "p")].
Proof. vm_compute. by split. Qed.

Lemma ex_scoped_request n : n = 2%nat \/ n = 3%nat ->
  ex_delivery n ∈ sent (net (world ex_scoped_end)) /\ scoped_request toy_scalar toy_quoted ex_id (ex_delivery n).
Proof.
  intros Hn. split.
  - destruct Hn as [-> | ->]; apply list_elem_of_lookup; [exists 2%nat|exists 3%nat]; vm_compute; reflexivity.
  - exists ex_prepare. split; [destruct Hn as [-> | ->]; vm_compute; reflexivity|]. left.
    split; [destruct Hn as [-> | ->]; vm_compute; reflexivity|]. exists ex_operation, ex_one_shot. split; [reflexivity|].
    vm_compute. reflexivity.
Qed.

Lemma scoped_one_node_witness :
  within_quarantine (ex_replica 8) ex_id (ex_world ex_answers []) /\
  bound (scoped_ops (ex_replica 8)) ex_id (to (ex_delivery 2)) (world ex_scoped_end) /\ to (ex_delivery 3) = to (ex_delivery 2).
Proof.
  assert (HW : within_quarantine (ex_replica 8) ex_id (ex_world ex_answers [])).
  { split; [|intros f t Hf; exfalso; revert Hf; vm_compute; discriminate].
    intros t t' Ht Ht'. apply ex_shown in Ht; [|reflexivity]. apply ex_shown in Ht'; [|reflexivity]. subst. reflexivity. }
  destruct (ex_scoped_request 2 (or_introl eq_refl)) as [Hi Hs]. destruct (ex_scoped_request 3 (or_intror eq_refl)) as [Hi' Hs'].
  split; [exact HW|].
  destruct (scoped_one_node (ex_replica 8) (ex_world ex_answers []) ex_scoped_history ex_id (ex_apart 8) ltac:(by repeat constructor)
    eq_refl HW (ex_delivery 2) Hi Hs) as [Hb Ho].
  split; [exact Hb|exact (Ho _ Hi' Hs')].
Defined.

Definition is_send (x : result Host.Error Plan * World) : bool := match x.1 with Ok (Send _ _) => true | _ => false end.

Lemma forward_authorised_witness : exists d fin w',
  handle_request toy_scalar toy_quoted (ex_replica 8) (submit ex_job) (ex_world [health 1] []) = (Ok (Send d fin), w') /\
  exists rq got, read_request (submit ex_job) = Ok rq /\ presented (head rq) = Some got /\
    authority (ex_replica 8) ex_files (path_ rq) got d.
Proof.
  assert (HS : is_send (handle_request toy_scalar toy_quoted (ex_replica 8) (submit ex_job) (ex_world [health 1] [])) = true) by (vm_compute; reflexivity).
  destruct (handle_request toy_scalar toy_quoted (ex_replica 8) (submit ex_job) (ex_world [health 1] [])) as [[[r|d fin]|e] w'] eqn:E;
    [discriminate HS| |discriminate HS].
  exists d, fin, w'. split; [reflexivity|].
  exact (forward_authorised toy_scalar toy_quoted (ex_replica 8) (submit ex_job) (ex_world [health 1] []) w' d fin E).
Defined.
