(* ===== verification/DispatchExamples.v ===== *)
(** * Examples of the dispatcher

    A node with two cells, an execution that runs, is answered, and is answered again
    after a restart, with executable stand-ins for the crates behind the interfaces. The
    witnesses of [ExecutionsLaws] and [NodeCapacity] evaluate on them. *)

From S2P Require Import Prelude Text Json Instances Manifest Spec SpecExamples Host ExecJournal Node Executions ExecutionsLaws NodeCapacity.
From S2P Require Control Outcome Owner Registry.

#[local] Existing Instances toy_blake3 Registry.owner_api.

(** ** Snapshots of a journal in files *)

Definition phase_bit (p : ExecutionPhase) : bool * bool :=
  match p with Succeeded => (true, true) | Spec.Failed => (true, false) | Cancelled => (false, false) end.
Definition bit_phase (b : bool * bool) : option ExecutionPhase :=
  match b with (true, true) => Some Succeeded | (true, false) => Some Spec.Failed | (false, _) => Some Cancelled end.
#[local] Instance ExecutionPhase_eq_dec : EqDecision ExecutionPhase.
Proof. solve_decision. Defined.
#[local] Instance ExecutionPhase_countable : Countable ExecutionPhase :=
  inj_countable phase_bit bit_phase (fun p => match p with Succeeded | Spec.Failed | Cancelled => eq_refl end).
#[local] Instance ResolvedExecution_eq_dec : EqDecision ResolvedExecution.
Proof. solve_decision. Defined.
#[local] Instance ResolvedExecution_countable : Countable ResolvedExecution :=
  inj_countable (fun r => (rs_mote r, rs_tools r, rs_inputs r)) (fun p => Some (mkResolved p.1.1 p.1.2 p.2))
    (fun r => match r with mkResolved _ _ _ => eq_refl end).
#[local] Instance ExecutionOutput_eq_dec : EqDecision ExecutionOutput.
Proof. solve_decision. Defined.
#[local] Instance ExecutionOutput_countable : Countable ExecutionOutput :=
  inj_countable (fun r => (out_hash r, out_media_type r, out_bytes r)) (fun p => Some (mkOutput p.1.1 p.1.2 p.2))
    (fun r => match r with mkOutput _ _ _ => eq_refl end).
#[local] Instance ExecutionReceipt_eq_dec : EqDecision ExecutionReceipt.
Proof. solve_decision. Defined.
#[local] Instance ExecutionReceipt_countable : Countable ExecutionReceipt :=
  inj_countable (fun r => (rc_api_version r, rc_request_id r, rc_phase r, (rc_node r, rc_cell_id r, rc_resolved r), (rc_output r, rc_started_at r, rc_completed_at r)))
    (fun '(a, b, c, (d, e, f), (g, h, i)) => Some (mkReceipt a b c d e f g h i))
    (fun r => match r with mkReceipt _ _ _ _ _ _ _ _ _ => eq_refl end).
#[local] Instance ExecutionRecord_eq_dec : EqDecision ExecutionRecord.
Proof. solve_decision. Defined.
#[local] Instance ExecutionRecord_countable : Countable ExecutionRecord :=
  inj_countable (fun r => (request_id r, phase r, reason r, output r, receipt r)) (fun '(a, b, c, d, e) => Some (mkRecord a b c d e))
    (fun r => match r with mkRecord _ _ _ _ _ => eq_refl end).
#[local] Instance Snapshot_eq_dec : EqDecision Snapshot.
Proof. solve_decision. Defined.
#[local] Instance Snapshot_countable : Countable Snapshot :=
  inj_countable (fun s => (version s, request_hash s, record s, audit s)) (fun '(a, b, c, d) => Some (mkSnapshot a b c d))
    (fun s => match s with mkSnapshot _ _ _ _ => eq_refl end).
#[local] Instance snapshot_json : Json Snapshot := countable_json.

(** ** A node and its one caller *)

Definition ex_probe : NodeProbeArgs := mkProbe "n" 2 (2 ^ 29) 1.
Definition ex_env : Env := mkEnv (mkFacts true true true true true) 0.
Definition ex_job (n : string) : ExecutionRequest :=
  mkRequest "celln.dev/v1alpha1" n ex_identity None (Some ex_hash) [] [mkToolRef "/bin/sh" ex_hash None]
    (Some (mkInvocation "/bin/sh" ["-c"])) None (mkCapabilities WNone [] false 1000 (2 ^ 28) 4096) (mkExecution LaneTool true).
(** The body is the identity itself. *)
Definition ex_parse (b : bytes) : result string ExecutionRequest :=
  if decide (length b = 2%nat) then Ok (ex_job (from_utf8 b)) else Err "invalid JSON".
Definition ex_audit (a : Audit) : Value := VString (a_request_id a).
Definition ex_outcome : Outcome.LaunchOutcome :=
  Outcome.mkOutcome None None (Outcome.mkActivity 0 0 0) [] [] "c1" (Some [x6f; x6b]) None (Some 0) None false.
Definition ex_parts : Parts :=
  mkParts None (Ok tt) (Ok tt) (Err "") (Ok tt) (Err "") (Ok (ex_outcome, ("m", "/bin/sh"))) (fun b => Some (hash_of b))
    "2026-01-01T00:00:00Z" "2026-01-01T00:00:01Z".

Definition ex_registry : Registry.Registry Owner.Owner := Registry.mkRegistry ∅ 0 0 false 1024 (2 ^ 29) [].
Definition ex_state : Executions.State Owner.Owner := mkState ∅ (Control.mkWorld [] 0 []) None ex_registry.
Definition ex_world (c : list Call) : World := mkWorld ∅ 1767225600000000000 c (mkNetwork [] [] [] []).
Definition ex_acts (c : list Call) (l : list action) : System :=
  acts ex_audit "/var" ex_probe ∅ ex_parse (fun s => Ok s) (boot ex_state (ex_world c)) l.
Definition ex_submit (n : string) : action (O := Owner.Owner) := Submit ex_env (as_bytes n) ex_parts.

Definition told_phases (s : System (O := Owner.Owner)) : list (Z * string) :=
  rev ((fun a => match a with Answer c (BRecord r) => (c, phase r) | Answer c _ => (c, "") | Dropped => (0, "") end) <$> replied s).

(** The execution runs once; after a restart its record is read back, and a second
    submission of the same bytes is answered with it. *)
Definition ex_history : list (action (O := Owner.Owner)) :=
  [ex_submit "r1"; Inspect "r1" false; Work 0; Work 0; Work 0; Inspect "r1" false; Restart; Inspect "r1" false; ex_submit "r1"].
Example ex_told :
  told_phases (ex_acts [] ex_history) =
    [(202, "Admitting"); (200, "Admitting"); (200, "Succeeded"); (200, "Succeeded"); (200, "Succeeded")] /\
  (launched (ex_acts [] ex_history)).*1 = ["r1"].
Proof. vm_compute. by split. Qed.

(** A dispatcher that dies in the middle does not run the execution again, and says so;
    a claim that was written but could not be synced is not started either. *)
Example ex_interrupted :
  let dead := [ex_submit "r1"; Work 0; Restart; ex_submit "r1"; Inspect "r1" false] in
  told_phases (ex_acts [] dead) = [(202, "Admitting"); (503, ""); (503, "")] /\ (launched (ex_acts [] dead)).*1 = ["r1"] /\
  let unsynced := replicate 9 (mkCall false 0) ++ [mkCall true 0] in
  told_phases (ex_acts unsynced [ex_submit "r1"; ex_submit "r1"]) = [(503, ""); (503, "")] /\
  launched (ex_acts unsynced [ex_submit "r1"; ex_submit "r1"]) = [].
Proof. vm_compute. by split_and!. Qed.

(** The third execution does not fit until one of the first two is done. *)
Definition ex_full : list (action (O := Owner.Owner)) :=
  [ex_submit "r1"; ex_submit "r2"; ex_submit "r3"; Work 1; Work 1; Work 1; ex_submit "r3"].
Example ex_capacity :
  told_phases (ex_acts [] ex_full) = [(202, "Admitting"); (202, "Admitting"); (503, ""); (202, "Admitting")] /\
  memory_reserved (state (ex_acts [] ex_full)) = 2 ^ 29 /\ hands (ex_acts [] ex_full) = ["r1"; "r3"].
Proof. vm_compute. by split_and!. Qed.

(** Without its hypothesis: a scoped operation takes the identity of an execution that
    runs, so that three workers run on a node of two cells: two of them are counted. *)
Definition ex_small : NodeProbeArgs := mkProbe "n" 2 (2 ^ 30) 1.
Definition ex_shared : System (O := Owner.Owner) :=
  acts ex_audit "/var" ex_small ∅ ex_parse (fun s => Ok s) (boot ex_state (ex_world []))
    [ex_submit "r1"; ScopedAdmit ex_env "r1" (ex_job "s1") false 0; ex_submit "r2"].
Example ex_overwritten :
  hands ex_shared = ["r1"; "r2"; "r1"] /\ cells_reserved (state ex_shared) = 2 /\ max_cells ex_small = 2.
Proof. vm_compute. by split_and!. Qed.

(** ** Witnesses *)

Definition ex_once : list (action (O := Owner.Owner)) := [ex_submit "r1"; Work 0; Work 0; Work 0; Inspect "r1" false; Restart; ex_submit "r1"].

Lemma executed_once_witness :
  launched (ex_acts [] ex_once) = [("r1", as_bytes "r1")] /\
  exists sn, holds "/var" "r1" sn (files (world (ex_acts [] ex_once))) /\ request_hash sn = hash_of (as_bytes "r1").
Proof.
  assert (E : launched (ex_acts [] ex_once) = [("r1", as_bytes "r1")]) by (vm_compute; reflexivity).
  split; [exact E|]. unfold ex_acts in *.
  pose proof (executed_once ex_audit "/var" ex_probe ∅ ex_parse (fun s => Ok s) ex_state (ex_world []) ex_once eq_refl) as T.
  cbv zeta in T. rewrite E in T. exact (proj2 T "r1" (as_bytes "r1") ltac:(left)).
Defined.

Definition ex_terminal : ExecutionRecord :=
  mkRecord "r1" "Succeeded" None (Some "ok")
    (Some (mkReceipt "celln.dev/v1alpha1" "r1" Succeeded "n" "c1" (mkResolved (Some "m") ["/bin/sh"] [])
       (Some (mkOutput (hash_of [x6f; x6b]) "application/octet-stream" 2)) "2026-01-01T00:00:00Z" "2026-01-01T00:00:01Z")).
Lemma terminal_answers_witness :
  durable "/var" ex_terminal (files (world (ex_acts [] ex_once))).
Proof.
  assert (Hin : exists l, replied (ex_acts [] ex_once) = Answer 200 (BRecord ex_terminal) :: l) by (eexists; vm_compute; reflexivity).
  assert (Hn : scoped_ids (ex_acts [] ex_once) = ∅) by (vm_compute; reflexivity).
  unfold ex_acts in *.
  pose proof (terminal_answers ex_audit "/var" ex_probe ∅ ex_parse (fun s => Ok s) ex_state (ex_world []) ex_once
    (Answer 200 (BRecord ex_terminal)) ex_terminal eq_refl) as T.
  cbv zeta in T.
  destruct Hin as [l El]. rewrite El, Hn in T.
  exact (proj1 (T ltac:(left) eq_refl eq_refl (not_elem_of_empty _))).
Defined.

Lemma node_never_overcommitted_witness :
  memory_reserved (state (ex_acts [] ex_full)) = 2 ^ 29 /\ memory_reserved (state (ex_acts [] ex_full)) <= memory_bytes ex_probe.
Proof.
  split; [vm_compute; reflexivity|].
  assert (Hp : proper ex_probe) by (split; split; vm_compute; discriminate).
  assert (Hb : forall b r, ex_parse b = Ok r -> in_u64 (c_memory_bytes (capabilities r))).
  { intros b r. unfold ex_parse. destruct (decide _); [|done]. intros [= <-]. split; vm_compute; discriminate. }
  assert (Hm : in_u64 (2 ^ 29)) by (split; vm_compute; discriminate).
  assert (Hh : history ex_audit "/var" ex_probe ∅ ex_parse (fun s => Ok s) (boot ex_state (ex_world [])) ex_full)
    by (cbn [history ex_full admissible]; repeat split; cbn; lia).
  exact (proj1 (proj2 (node_never_overcommitted ex_audit "/var" ex_probe ∅ ex_parse (fun s => Ok s) Hp eq_refl Hb
    ex_state (ex_world []) ex_full (2 ^ 29) eq_refl eq_refl Hm eq_refl Hh))).
Defined.
